(* ===== verification/_CoqProject ===== *)
-Q . S2P
Prelude.v
Pmm.v
PageTable.v
PmmFrames.v
SpinLock.v
Vmm.v
AddressSpace.v
Heap.v
Scheduler.v
Path.v
Vfs.v
RamFs.v
VfsHandles.v
Block.v
Fat16.v
Userspace.v
UserFiles.v
UserDemo.v
UserImage.v
UserLoad.v
UserCreate.v
UserEnv.v
UserPipes.v
UserSwitch.v
UserTasks.v
UserFamily.v
UserFair.v
UserWait.v
UserLib.v
Acpi.v
SpawnArgs.v
Digest.v
DigestSpec.v
Sha2.v
Sha1Md5.v
Base64.v
Calendar.v
Rtc.v
Terminal.v
Syscall.v
SyscallSafety.v
KernelSteps.v
SpawnChild.v
Console.v
KernelLog.v
