(* ===== verification/Prelude.v ===== *)
(** * IanOS: a verification development for the kernel

    IanOS is a small operating system for x86-64.  A UEFI loader hands the kernel a
    memory map and a set of modules; the kernel manages physical frames, page
    tables, a heap, kernel threads, a virtual file system over RAM files and a FAT16
    disk, and user processes with their threads, descriptors and pipes.  This
    development models the kernel's own algorithms as executable Rocq functions and
    proves what makes each of them correct, alone and in composition.  Paths below
    are relative to the source tree; "kernel/" is the kernel.

    ** The parts and where they are modelled

    - Prelude: what the files share.  Record update, machine words, loops, sparse
      arrays and byte arrays, round-robin search, and generic lemmas.
    - Pmm (kernel/src/mm/pmm.cpp): the bitmap frame allocator.  The state is the
      class [PhysicalMemoryManager]; [initialize] replays the boot-time reservations.
    - PageTable: the word memory page tables live in and the tree they form, shared
      by the two files that edit page tables.  The frame allocator is seen through
      the class [PageAllocator] with its laws; PmmFrames proves that [Pmm] has them.
    - Vmm (kernel/src/mm/vmm.cpp): the kernel's own mappings.
    - AddressSpace (kernel/src/mm/address_space.cpp): user address spaces, which
      share the upper half of the running root.
    - Heap (kernel/src/mm/heap.cpp): the block list over the mappings of [Vmm].
    - Scheduler (kernel/src/sched/scheduler.cpp): kernel threads, as a transition
      system over the public operations and the timer interrupt.
    - Path, Vfs (kernel/src/fs/vfs.cpp and the path functions of userspace.cpp): path
      normalisation, the node table, RAM files with hard links, directories and
      handles.  RamFs relates the tables to a map of names and a store of contents;
      VfsHandles is about reading and writing through handles.
    - Block, Fat16 (kernel/src/block/block_device.cpp, kernel/src/fs/vfs.cpp): the
      sector cache over an interface to the disk driver, and the FAT16 file loader.
    - Userspace, UserFiles, UserEnv (kernel/src/userspace/userspace.cpp): the class
      [UserspaceManager], its scheduling, waiting and process groups; its
      descriptors, pipes, creation and reaping; arguments and environment.
    - UserImage (the same file): creation of a process with the ELF loader, over the
      machine of [PageTable], address spaces and the manager.
    - UserSwitch (kernel/src/interrupts/exceptions.cpp): what the interrupt entry does
      with the registers of user threads.
    - UserPipes, UserTasks, UserFair, UserWait, UserLoad, UserCreate: the theorems
      about the four files before; UserDemo: a small running system for examples.
    - SpinLock (kernel/src/sync/spinlock.cpp): the lock, and operations under it as
      steps that interleave between processors, with the page allocator as example.
    - Terminal (kernel/src/terminal.cpp, kernel/src/drivers/ps2_keyboard.cpp): the
      input queues, the line discipline and the translation of scan codes.
    - Console (kernel/src/console.cpp): the table of characters, the view and the pixels
      of the frame buffer.  KernelLog (kernel/src/log.cpp, kernel/src/lib/string.cpp): the
      log with its ring, the serial port and the console; the overlapping copy.
    - Rtc (kernel/src/time/rtc.cpp and userland's date): reading the clock chip.
    - Acpi (kernel/src/acpi/acpi.cpp): the tables of the firmware.
    - Syscall (kernel/src/syscall/syscall.cpp and the 0x80 path of exceptions.cpp):
      every case of [dispatch] in a small state monad over the manager, the terminal
      and the scheduler, whose [None] is a page fault of the kernel.  SpawnArgs is the
      splitting of command lines.  UserFamily holds which process records an operation
      of the manager touches, SyscallSafety what a call leaves alone, KernelSteps the
      kernel as a transition system over its entries, and SpawnChild what Spawn leaves
      behind.
    - UserLib (userland/include/hybrid/user.hpp): the text library of the programs and
      a small program logic against the calls they make; Digest, DigestSpec, Sha2,
      Sha1Md5, Base64 and Calendar: the programs sha224sum to sha512sum, sha1sum,
      md5sum, base64 and cal, beside the standards they implement.

    A pointer into a table of the C++ classes is an index; a pointer to a physical
    page is its address, since the kernel runs identity mapped; a null pointer is 0
    or [None].  Named numeric constants keep the name and value of the source.
    A C++ method that changes its object takes the state and returns it
    with its result.  A loop is [for_range], [for_each] or, with an early exit,
    [loop_range].  Unsigned integers are [Z] with the wrap-around written out ([w64],
    [w32], [inc64]).

    ** What the theorems show

    - Frames (Pmm): after boot a frame is free exactly when a usable region offers it
      and nothing reserved overlaps it; allocation takes a free frame and fails only
      when there is none; contiguous allocation finds the first run; freeing is exact.
    - Mappings (Vmm, AddressSpace): mapping and unmapping refine insertion into and
      deletion from a finite map of pages; refusals change nothing and have one of
      four causes; address spaces do not disturb one another; destroying one returns
      each of its tables once.
    - Heap: an allocated range is fresh, aligned and inside one block; freeing merges
      and keeps the heap tiled; the statistics account for every byte.
    - Kernel threads (Scheduler): in every reachable state exactly the current thread
      runs; a ready thread runs within one turn; a sleeper wakes at its deadline.
    - Files (Path, RamFs, VfsHandles): normalisation computes the walk over a stack of
      names; every RAM file operation refines its abstract step; bytes written are
      the bytes read; handles live as long as their references.
    - Disk (Block, Fat16): reads through the cache are those of the medium; a loaded
      file is the concatenation of its clusters.
    - User threads (UserTasks, UserFair): in every state reachable through the
      manager and the interrupt entry at most one user thread runs, the active one;
      a switch saves and loads every register; a runnable thread whose stack is
      mapped runs within one turn of the table.
    - Pipes and waiting (UserPipes, UserWait): a pipe is a bounded queue; waking its
      waiters completes transfers until none can complete; an exit wakes the parent
      that waits for it with the exit code.
    - Environment (UserEnv): a bounded finite map.
    - Images (UserLoad, UserCreate): an ELF image is loaded byte for byte with its
      permissions, user mode reaches nothing else, and reaping the process returns
      exactly the frames its creation took.
    - Locks (SpinLock): operations under a lock behave as if run one after the other, so
      that the files that model them as single steps are justified; processors that
      allocate at the same time get different pages, and one that waits can always still
      be served.
    - Terminal and clock (Terminal, Rtc): the terminal answers as a line editor over
      lists; a typed line is the line that is read; indices stay in their arrays; the
      time returned is one that the chip showed.
    - Output (Console, KernelLog): each pixel of the screen is the one that the last lines
      of the text give; drawing stays inside the frame buffer and the table; the lines of
      the log reach the port, the console and its readers; a copy may overlap its source.
    - Platform (Acpi): reading the tables ends for every memory; what is found are the
      entries of tables with valid checksums, and PCI regions do not conflict.
    - System calls (SpawnArgs, SyscallSafety, KernelSteps, SpawnChild): command lines
      split by the quoting rules; a call changes no process outside the family of the
      caller; every sequence of kernel entries keeps the tables and the terminal well
      formed; a Spawn that succeeds makes the child that the command line asks for.
    - Programs (Sha2, Sha1Md5, Base64, Calendar): they end and print what the standards
      say of their whole input, however the kernel cuts it into reads.

    Where the code does not do what it means to, the theorem states what it does
    (for instance [VfsHandles.delete_shifts_open_handles]) or an example shows it.

    ** Bounds and fuel

    Loops run for the number of iterations the source gives them, so there is no fuel
    to run out of, apart from what follows.  [Heap.allocate] scans the list again after
    growing the heap; its theorem shows that two scans always end it.
    [Path.normalize_loop] consumes at least one character per turn; its theorem shows
    that one turn more than the length of the path is enough.  The rounds of
    [Userspace.wake_rounds] are bounded in the source itself, and [UserPipes] shows
    that the bound is never reached with work left.

    A program of userland loops until the kernel reports the end of its input; its model
    takes the number of turns that a loop may make ([UserLib.iter]), and the theorems
    show that some number is enough.  [SpawnArgs] and [Acpi.madt_loop] have fuel, of the
    length of the buffer and of the table; their theorems show that it is enough.

    ** Interfaces

    Code outside the modelled files is a parameter: the frame allocator for the page
    tables ([PageAllocator]), the disk driver ([Block]), the generated text of
    /proc and /dev files ([Vfs.Kernel]), the terminal ([Vfs.Terminal], which
    [Syscall.system_tty] implements), address translation and segment selectors for the
    manager ([Userspace.Machine]), the clock chip ([Rtc]), the kernel that programs call
    ([UserLib.Sys] with its laws), the loader of images ([Syscall.Loader], which
    [KernelSteps.elf_loader] implements) and what system calls report of other parts
    ([Syscall.Services]).  Every theorem that assumes something of them has an example
    in which a concrete instance satisfies it.

    ** Not modelled

    Device registers, ports and DMA (AHCI, network, VGA, APIC, PCI), the start of other
    processors, privileged instructions, assembly and the UEFI loader: there is no
    algorithm apart from the hardware.  The final message of a panic, directory listing, the walk over FAT16 directories at mount, the text of generated
    files, the contents of information structures, the boot self tests, the shell, init
    and the other programs of userland are not modelled.  The order of memory accesses
    is sequential consistency.  In UserImage the program headers are read from memory
    once per page of a segment.  The memory of the manager ([k_memory]) and that of the
    machine are separate in the two models; the manager reaches its own only through
    [translate]. *)

From stdpp Require Export base tactics list numbers option gmap.
From Stdlib Require Export ZArith Lia.

#[global] Open Scope Z_scope.

(** ** Record update

    The C++ sources assign struct fields in place.  [r <| f := v |>] is the
    record [r] with its field [f] replaced by [v]; [r <| f ::= g |>] applies
    [g] to the field.  Each record gives its eta-expansion once, as an
    instance of [Eta]; the setters are derived from it. *)

Declare Scope rec_scope.
Open Scope rec_scope.

Class Eta (R : Type) := eta : R -> R.
Class Setter {R T : Type} (f : R -> T) := setf : (T -> T) -> R -> R.
Arguments setf {R T} f {_} _ _ /.

Ltac build_setter f :=
  match type of f with
  | ?R -> ?T =>
    let e := constr:(_ : Eta R) in
    let body := eval hnf in e in
    let r := fresh "r" in
    let g := fresh "g" in
    exact (fun (g : T -> T) (r : R) =>
      ltac:(let b := eval cbv beta in (body r) in
            let p := eval pattern (f r) in b in
            match p with
            | ?h _ => let x := eval cbv beta in (h (g (f r))) in exact x
            end))
  end.

#[export] Hint Extern 0 (Setter ?f) => build_setter f : typeclass_instances.

#[warnings="-postfix-notation-not-level-1"]
Notation "r <| f := v |>" := (setf f (fun _ => v) r)
  (at level 12, left associativity) : rec_scope.
#[warnings="-postfix-notation-not-level-1"]
Notation "r <| f ::= g |>" := (setf f g r)
  (at level 12, left associativity) : rec_scope.

(** ** Machine integers

    Unsigned machine words are integers kept in range by an explicit
    reduction after every operation that can leave it. *)

Definition two64 : Z := 0x10000000000000000.
Definition two32 : Z := 0x100000000.
Definition w64 (z : Z) : Z := z mod two64.
Definition w32 (z : Z) : Z := z mod two32.
Definition w16 (z : Z) : Z := z mod 0x10000.
Definition w8 (z : Z) : Z := z mod 256.
Definition u64 (z : Z) : Prop := 0 <= z < two64.
Definition u32 (z : Z) : Prop := 0 <= z < two32.

(** [~z] on a [uint64_t]. *)
Definition not64 (z : Z) : Z := two64 - 1 - z.
(** [static_cast<uint8_t>(~z)]. *)
Definition not8 (z : Z) : Z := 255 - z.

(** [++x] on a [uint64_t] (and, below, a [uint32_t]) counter. *)
Definition inc64 (z : Z) : Z := w64 (z + 1).
Definition inc32 (z : Z) : Z := w32 (z + 1).
Definition dec64 (z : Z) : Z := w64 (z - 1).

Ltac wunfold := unfold inc64, dec64, inc32, w64, w32, w16, w8, u64, u32, not64, two64, two32 in *.
Ltac word_lia := wunfold; Z.to_euclidean_division_equations; lia.

Lemma w64_small z : u64 z -> w64 z = z.
Proof. intros. unfold w64. apply Z.mod_small. exact H. Qed.

Lemma w64_range z : u64 (w64 z).
Proof. unfold u64, w64. apply Z.mod_pos_bound. reflexivity. Qed.

Lemma w32_small z : u32 z -> w32 z = z.
Proof. intros. unfold w32. apply Z.mod_small. exact H. Qed.

Lemma w32_range z : u32 (w32 z).
Proof. unfold u32, w32. apply Z.mod_pos_bound. reflexivity. Qed.

Create HintDb word.
Create Rewrite HintDb word.
#[export] Hint Resolve w64_range w32_range : word.
#[export] Hint Rewrite w64_small w32_small using (wunfold; lia) : word.

(** Masks with a power of two: [v & (2^k - 1)] and [v & ~(2^k - 1)]. *)

Lemma land_low v k : 0 <= k -> Z.land v (2 ^ k - 1) = v mod 2 ^ k.
Proof. intros. rewrite <- Z.land_ones by lia. f_equal. rewrite Z.ones_equiv. lia. Qed.

Lemma testbit_not64 z n :
  u64 z -> 0 <= n -> Z.testbit (not64 z) n = (n <? 64) && negb (Z.testbit z n).
Proof.
  intros Hz Hn. unfold not64.
  replace (two64 - 1 - z) with (Z.lnot z mod 2 ^ 64).
  2: { unfold Z.lnot. change (2 ^ 64) with two64.
       rewrite <- (Z.mod_small (two64 - 1 - z) two64) by word_lia.
       rewrite <- (Z_mod_plus_full (Z.pred (- z)) 1 two64). f_equal. lia. }
  destruct (Z.ltb_spec n 64).
  - rewrite Z.mod_pow2_bits_low, Z.lnot_spec by lia. done.
  - rewrite Z.mod_pow2_bits_high by lia. done.
Qed.

Lemma u64_testbit_high z n : u64 z -> 64 <= n -> Z.testbit z n = false.
Proof.
  intros Hz Hn. rewrite <- (Z.mod_small z (2 ^ 64)) by exact Hz.
  apply Z.mod_pow2_bits_high. lia.
Qed.

Lemma land_high v k :
  u64 v -> 0 <= k < 64 -> Z.land v (not64 (2 ^ k - 1)) = v - v mod 2 ^ k.
Proof.
  intros Hv Hk.
  assert (Hp : 0 < 2 ^ k) by (apply Z.pow_pos_nonneg; lia).
  assert (Hp2 : 2 ^ k <= 2 ^ 63) by (apply Z.pow_le_mono_r; lia).
  transitivity (Z.ldiff v (2 ^ k - 1)).
  - apply Z.bits_inj'. intros n Hn.
    rewrite Z.land_spec, Z.ldiff_spec, testbit_not64 by (unfold u64, two64; lia).
    destruct (Z.ltb_spec n 64); [done|].
    rewrite (u64_testbit_high v n) by done. done.
  - rewrite Z.sub_1_r, <- Z.ones_equiv, Z.ldiff_ones_r by lia.
    rewrite Z.shiftr_div_pow2, Z.shiftl_mul_pow2 by lia.
    pose proof (Z.div_mod v (2 ^ k)). lia.
Qed.

(** Disjoint bit fields: [a | b] is [a + b] when [a] is a multiple of [2^k]
    and [b] is below [2^k]. *)
Lemma lor_add a b k :
  0 <= k -> 0 <= a -> 0 <= b < 2 ^ k -> a mod 2 ^ k = 0 -> Z.lor a b = a + b.
Proof.
  intros Hk Ha Hb Hm.
  rewrite <- Z.lxor_lor, <- Z.add_nocarry_lxor; try done.
  all: apply Z.bits_inj'; intros n Hn; rewrite Z.land_spec, Z.bits_0.
  all: destruct (Z.ltb_spec n k).
  1, 3: replace (Z.testbit a n) with false; [done|];
        rewrite <- (Z.mod_pow2_bits_low a k n) by lia; rewrite Hm, Z.bits_0; done.
  all: replace (Z.testbit b n) with false; [by rewrite andb_false_r|];
       rewrite <- (Z.mod_small b (2 ^ k)) by lia;
       rewrite Z.mod_pow2_bits_high by lia; done.
Qed.

(** ** First index of a range that satisfies a test

    The model of [for (i = lo; i < hi; ++i) if (p(i)) { ...; return; }]. *)

Fixpoint find_from (p : Z -> bool) (i : Z) (n : nat) : option Z :=
  match n with
  | O => None
  | S n' => if p i then Some i else find_from p (i + 1) n'
  end.

Definition find_first (p : Z -> bool) (lo hi : Z) : option Z :=
  find_from p lo (Z.to_nat (hi - lo)).

Lemma find_from_Some p i n j :
  find_from p i n = Some j <->
  i <= j < i + Z.of_nat n /\ p j = true /\ (forall k, i <= k < j -> p k = false).
Proof.
  revert i. induction n as [|n IH]; intros i; simpl.
  - split; [done|lia].
  - destruct (p i) eqn:E.
    + split.
      * intros [= <-]. split_and!; [lia|lia|done|intros; lia].
      * intros (Hr & Hj & Hk). destruct (decide (i = j)) as [->|]; [done|].
        rewrite Hk in E by lia. done.
    + rewrite IH. split.
      * intros (Hr & Hj & Hk). split_and!; [lia|lia|done|].
        intros k Hki. destruct (decide (k = i)) as [->|]; [done|]. apply Hk; lia.
      * intros (Hr & Hj & Hk).
        assert (i <> j) by congruence.
        split_and!; [lia|lia|done|]. intros; apply Hk; lia.
Qed.

Lemma find_from_None p i n :
  find_from p i n = None <-> (forall k, i <= k < i + Z.of_nat n -> p k = false).
Proof.
  revert i. induction n as [|n IH]; intros i; simpl.
  - split; [intros; lia|done].
  - destruct (p i) eqn:E.
    + split; [done|]. intros H. rewrite H in E by lia. done.
    + rewrite IH. split; intros H k Hk; [|apply H; lia].
      destruct (decide (k = i)) as [->|]; [done|]. apply H; lia.
Qed.

Lemma find_first_Some p lo hi j :
  find_first p lo hi = Some j <->
  lo <= j < hi /\ p j = true /\ (forall k, lo <= k < j -> p k = false).
Proof.
  unfold find_first. rewrite find_from_Some. split; intros (? & ? & ?); split_and!; auto; lia.
Qed.

Lemma find_first_None p lo hi :
  find_first p lo hi = None <-> (forall k, lo <= k < hi -> p k = false).
Proof.
  unfold find_first. rewrite find_from_None. split; intros H k Hk; apply H; lia.
Qed.

(** ** Loops over an index range, folding a state

    The model of [for (i = lo; i < hi; ++i) s = body(i, s);]. *)

Fixpoint iter_from {S : Type} (body : Z -> S -> S) (i : Z) (n : nat) (s : S) : S :=
  match n with
  | O => s
  | S n' => iter_from body (i + 1) n' (body i s)
  end.

Definition for_range {S : Type} (lo hi : Z) (body : Z -> S -> S) (s : S) : S :=
  iter_from body lo (Z.to_nat (hi - lo)) s.

(** The loop rule: an invariant indexed by the loop counter. *)
Lemma iter_from_inv {S : Type} (P : Z -> S -> Prop) body n i s :
  P i s ->
  (forall j s, i <= j < i + Z.of_nat n -> P j s -> P (j + 1) (body j s)) ->
  P (i + Z.of_nat n) (iter_from body i n s).
Proof.
  revert i s. induction n as [|n IH]; intros i s H0 Hstep; simpl.
  - by rewrite Z.add_0_r.
  - replace (i + Z.of_nat (Datatypes.S n)) with (i + 1 + Z.of_nat n) by lia.
    apply IH; [apply Hstep; [lia|done]|]. intros; apply Hstep; [lia|done].
Qed.

Lemma for_range_inv {S : Type} (P : Z -> S -> Prop) lo hi body s :
  P lo s ->
  (forall i s, lo <= i < hi -> P i s -> P (i + 1) (body i s)) ->
  P (Z.max lo hi) (for_range lo hi body s).
Proof.
  intros H0 Hstep. unfold for_range.
  replace (Z.max lo hi) with (lo + Z.of_nat (Z.to_nat (hi - lo))) by lia.
  apply iter_from_inv; [done|]. intros; apply Hstep; [lia|done].
Qed.

Lemma for_range_empty {S : Type} lo hi (body : Z -> S -> S) s :
  hi <= lo -> for_range lo hi body s = s.
Proof. intros. unfold for_range. replace (Z.to_nat (hi - lo)) with O by lia. done. Qed.

(** The same over the indices of a table: [for (i = 0; i < n; ++i) s = body(i, s);]. *)
Definition for_each {S : Type} (n : nat) (body : nat -> S -> S) (s : S) : S :=
  foldl (fun s i => body i s) s (seq 0 n).

Lemma for_each_S {S : Type} n (body : nat -> S -> S) s :
  for_each (Datatypes.S n) body s = body n (for_each n body s).
Proof. unfold for_each. by rewrite seq_S, foldl_app. Qed.

Lemma for_each_inv {S : Type} (P : nat -> S -> Prop) n body s :
  P O s ->
  (forall i s, (i < n)%nat -> P i s -> P (Datatypes.S i) (body i s)) ->
  P n (for_each n body s).
Proof.
  intros H0 Hstep. assert (H : forall k, (k <= n)%nat -> P k (for_each k body s)); [|auto].
  induction k as [|k IH]; intros Hk; [done|]. rewrite for_each_S. apply Hstep; [lia|]. apply IH. lia.
Qed.

(** ** Round robin

    The search that starts after index [c] of [n] and visits [c + 1], [c + 2], ...
    modulo [n]: how many indices it visits before [i]. *)
Definition ring_distance (n c i : nat) : nat := (i + n - c - 1) mod n.

Lemma mod_once a n : (a < 2 * n)%nat -> (a mod n = if decide (a < n)%nat then a else a - n)%nat.
Proof.
  intros Ha. case_decide; [by apply Nat.mod_small|].
  replace a with (a - n + 1 * n)%nat at 1 by lia. rewrite Nat.Div0.mod_add. apply Nat.mod_small. lia.
Qed.

Lemma ring_distance_cases n c i :
  (c < n)%nat -> (i < n)%nat ->
  ring_distance n c i = if decide (c < i)%nat then (i - c - 1)%nat else (i + n - c - 1)%nat.
Proof. intros Hc Hi. unfold ring_distance. rewrite mod_once by lia. repeat case_decide; lia. Qed.

(** The index reached at a step of the search, and the step that reaches an index. *)
Lemma ring_step n c k :
  (c < n)%nat -> (1 <= k <= n)%nat ->
  let i := ((c + k) mod n)%nat in (i < n)%nat /\ ring_distance n c i = (k - 1)%nat.
Proof.
  intros Hc Hk i. assert (Hi : (i < n)%nat) by (apply Nat.mod_upper_bound; lia).
  split; [done|]. rewrite ring_distance_cases by done. unfold i. rewrite mod_once by lia.
  repeat case_decide; lia.
Qed.

Lemma ring_reaches n c i :
  (c < n)%nat -> (i < n)%nat ->
  ((c + (ring_distance n c i + 1)) mod n = i)%nat /\ (ring_distance n c i < n)%nat.
Proof.
  intros Hc Hi. rewrite ring_distance_cases by done.
  split; [rewrite mod_once by (case_decide; lia)|]; repeat case_decide; lia.
Qed.

(** A search that stops at [i] comes closer to every index it has not passed. *)
Lemma ring_after n c i j :
  (c < n)%nat -> (i < n)%nat -> (j < n)%nat -> i <> j ->
  (ring_distance n c i <= ring_distance n c j)%nat -> (ring_distance n i j < ring_distance n c j)%nat.
Proof.
  intros Hc Hi Hj Hne. rewrite !ring_distance_cases by done. repeat case_decide; lia.
Qed.

(** ** Loops with an early exit

    [Next s] falls through to the next iteration, [Stop r] is a [return] (or a
    [break]) from inside the loop. *)

Inductive flow (S R : Type) : Type :=
  | Next (s : S)
  | Stop (r : R).
Arguments Next {S R} s.
Arguments Stop {S R} r.

Fixpoint loop_from {S R : Type} (body : Z -> S -> flow S R) (i : Z) (n : nat) (s : S)
  : flow S R :=
  match n with
  | O => Next s
  | S n' => match body i s with
            | Next s' => loop_from body (i + 1) n' s'
            | Stop r => Stop r
            end
  end.

Definition loop_range {S R : Type} (lo hi : Z) (body : Z -> S -> flow S R) (s : S)
  : flow S R :=
  loop_from body lo (Z.to_nat (hi - lo)) s.

Definition flow_spec {S R : Type} (P : S -> Prop) (Q : R -> Prop) (r : flow S R) : Prop :=
  match r with Next s => P s | Stop r => Q r end.

Lemma loop_from_inv {S R : Type} (P : Z -> S -> Prop) (Q : R -> Prop) body n i s :
  P i s ->
  (forall j s, i <= j < i + Z.of_nat n -> P j s -> flow_spec (P (j + 1)) Q (body j s)) ->
  flow_spec (P (i + Z.of_nat n)) Q (loop_from body i n s).
Proof.
  revert i s. induction n as [|n IH]; intros i s H0 Hstep; simpl.
  - by rewrite Z.add_0_r.
  - pose proof (Hstep i s ltac:(lia) H0) as Hb.
    destruct (body i s) as [s'|r]; simpl in *; [|done].
    replace (i + Z.of_nat (Datatypes.S n)) with (i + 1 + Z.of_nat n) by lia.
    apply IH; [done|]. intros; apply Hstep; [lia|done].
Qed.

Lemma loop_range_inv {S R : Type} (P : Z -> S -> Prop) (Q : R -> Prop) lo hi body s :
  P lo s ->
  (forall i s, lo <= i < hi -> P i s -> flow_spec (P (i + 1)) Q (body i s)) ->
  flow_spec (P (Z.max lo hi)) Q (loop_range lo hi body s).
Proof.
  intros H0 Hstep. unfold loop_range.
  replace (Z.max lo hi) with (lo + Z.of_nat (Z.to_nat (hi - lo))) by lia.
  apply loop_from_inv; [done|]. intros; apply Hstep; [lia|done].
Qed.

Lemma loop_range_le {S R : Type} (P : Z -> S -> Prop) (Q : R -> Prop) lo hi body s :
  lo <= hi -> P lo s ->
  (forall i s, lo <= i < hi -> P i s -> flow_spec (P (i + 1)) Q (body i s)) ->
  flow_spec (P hi) Q (loop_range lo hi body s).
Proof. intros Hle H0 Hstep. rewrite <- (Z.max_r lo hi) at 1 by done. by apply loop_range_inv. Qed.

(** ** Counting the indices of a range that satisfy a test *)

Fixpoint count_from (p : Z -> bool) (i : Z) (n : nat) : Z :=
  match n with
  | O => 0
  | S n' => (if p i then 1 else 0) + count_from p (i + 1) n'
  end.

Definition count_range (p : Z -> bool) (lo hi : Z) : Z :=
  count_from p lo (Z.to_nat (hi - lo)).

Lemma count_from_ext p q i n :
  (forall k, i <= k < i + Z.of_nat n -> p k = q k) -> count_from p i n = count_from q i n.
Proof.
  revert i. induction n as [|n IH]; intros i H; simpl; [done|].
  rewrite (H i) by lia. f_equal. apply IH. intros; apply H; lia.
Qed.

Lemma count_from_bound p i n : 0 <= count_from p i n <= Z.of_nat n.
Proof.
  revert i. induction n as [|n IH]; intros i; simpl; [lia|].
  specialize (IH (i + 1)). destruct (p i); lia.
Qed.

Lemma count_from_app p i n m :
  count_from p i (n + m) = count_from p i n + count_from p (i + Z.of_nat n) m.
Proof.
  revert i. induction n as [|n IH]; intros i.
  - simpl. by rewrite Z.add_0_r.
  - simpl. rewrite IH. replace (i + Z.of_nat (S n)) with (i + 1 + Z.of_nat n) by lia. lia.
Qed.

Lemma count_range_ext p q lo hi :
  (forall k, lo <= k < hi -> p k = q k) -> count_range p lo hi = count_range q lo hi.
Proof. intros H. apply count_from_ext. intros; apply H; lia. Qed.

Lemma count_range_bound p lo hi : 0 <= count_range p lo hi <= Z.max 0 (hi - lo).
Proof. unfold count_range. pose proof (count_from_bound p lo (Z.to_nat (hi - lo))). lia. Qed.

Lemma count_range_split p lo mid hi :
  lo <= mid <= hi -> count_range p lo hi = count_range p lo mid + count_range p mid hi.
Proof.
  intros. unfold count_range.
  replace (Z.to_nat (hi - lo)) with (Z.to_nat (mid - lo) + Z.to_nat (hi - mid))%nat by lia.
  rewrite count_from_app. do 2 f_equal. lia.
Qed.

Lemma count_range_one p i : count_range p i (i + 1) = if p i then 1 else 0.
Proof. unfold count_range. replace (Z.to_nat (i + 1 - i)) with 1%nat by lia. simpl. lia. Qed.

Lemma count_range_nil p lo hi : hi <= lo -> count_range p lo hi = 0.
Proof. intros. unfold count_range. replace (Z.to_nat (hi - lo)) with O by lia. done. Qed.

Lemma count_range_snoc p lo hi :
  lo <= hi -> count_range p lo (hi + 1) = count_range p lo hi + (if p hi then 1 else 0).
Proof. intros. rewrite (count_range_split p lo hi) by lia. by rewrite count_range_one. Qed.

(** A test changed at one index changes the count by that index alone. *)
Lemma count_range_update p q lo hi k :
  lo <= k < hi -> (forall j, lo <= j < hi -> j <> k -> q j = p j) ->
  count_range q lo hi =
  count_range p lo hi - (if p k then 1 else 0) + (if q k then 1 else 0).
Proof.
  intros Hk Hext.
  rewrite (count_range_split p lo k hi), (count_range_split q lo k hi) by lia.
  rewrite (count_range_split p k (k + 1) hi), (count_range_split q k (k + 1) hi) by lia.
  rewrite !count_range_one.
  rewrite (count_range_ext q p lo k) by (intros; apply Hext; lia).
  rewrite (count_range_ext q p (k + 1) hi) by (intros; apply Hext; lia). lia.
Qed.

Lemma count_range_zero p lo hi :
  count_range p lo hi = 0 <-> (forall k, lo <= k < hi -> p k = false).
Proof.
  split.
  - intros H k Hk. destruct (p k) eqn:E; [|done]. exfalso.
    rewrite (count_range_split p lo k hi), (count_range_split p k (k + 1) hi) in H by lia.
    rewrite count_range_one, E in H.
    pose proof (count_range_bound p lo k). pose proof (count_range_bound p (k + 1) hi). lia.
  - intros H. rewrite (count_range_ext p (fun _ => false)) by done.
    unfold count_range. generalize (Z.to_nat (hi - lo)). intros n. clear H.
    revert lo. induction n as [|n IH]; intros lo; simpl; [done|]. apply IH.
Qed.

Lemma count_range_mono p q lo hi :
  (forall k, lo <= k < hi -> p k = true -> q k = true) ->
  count_range p lo hi <= count_range q lo hi.
Proof.
  unfold count_range. intros H.
  assert (H' : forall k, lo <= k < lo + Z.of_nat (Z.to_nat (hi - lo)) -> p k = true -> q k = true)
    by (intros; apply H; [lia|done]).
  clear H. revert H'. generalize (Z.to_nat (hi - lo)). intros n. revert lo.
  induction n as [|n IH]; intros lo H; simpl; [lia|].
  assert (count_from p (lo + 1) n <= count_from q (lo + 1) n)
    by (apply IH; intros; apply H; [lia|done]).
  destruct (p lo) eqn:E; [rewrite (H lo) by (lia || done); lia|]. destruct (q lo); lia.
Qed.

Lemma count_range_all p lo hi :
  lo <= hi -> (forall k, lo <= k < hi -> p k = true) -> count_range p lo hi = hi - lo.
Proof.
  intros Hle H. rewrite (count_range_ext p (fun _ => true)) by done. unfold count_range.
  replace (hi - lo) with (Z.of_nat (Z.to_nat (hi - lo))) at 2 by lia.
  generalize (Z.to_nat (hi - lo)). intros n. clear. revert lo.
  induction n as [|n IH]; intros lo; [done|].
  cbn [count_from]. rewrite IH. lia.
Qed.

(** ** Fixed-size arrays, sparsely

    A C array too large to be a list: every cell holds [sa_fill] until it is
    written.  Reads and writes are total here; the operations of the model
    carry the bounds checks of the source. *)

Record sarr := SArr { sa_fill : Z; sa_upd : gmap Z Z }.

Definition sa_get (a : sarr) (i : Z) : Z := default (sa_fill a) (sa_upd a !! i).
Definition sa_set (a : sarr) (i v : Z) : sarr := SArr (sa_fill a) (<[i := v]> (sa_upd a)).
Definition sa_const (v : Z) : sarr := SArr v ∅.

Lemma sa_get_set_eq a i v : sa_get (sa_set a i v) i = v.
Proof. unfold sa_get, sa_set. simpl. by rewrite lookup_insert_eq. Qed.

Lemma sa_get_set_ne a i j v : i <> j -> sa_get (sa_set a i v) j = sa_get a j.
Proof. intros. unfold sa_get, sa_set. simpl. by rewrite lookup_insert_ne. Qed.

Lemma sa_get_const v i : sa_get (sa_const v) i = v.
Proof. done. Qed.

Create Rewrite HintDb sarr.
#[export] Hint Rewrite sa_get_set_eq sa_get_const : sarr.

(** ** Byte arrays *)

Definition zlen {A} (l : list A) : Z := Z.of_nat (length l).

(** [n] bytes of an array, from [offset]. *)
Definition bytes_at (get : Z -> Z) (offset n : Z) : list Z :=
  (fun i => get (offset + Z.of_nat i)) <$> seq 0 (Z.to_nat n).

(** The [n] bytes of an integer, least significant first, and the integer they hold. *)
Definition le_bytes (n : nat) (v : Z) : list Z :=
  (fun i => Z.land (Z.shiftr v (8 * Z.of_nat i)) 255) <$> seq 0 n.

(** [for (i = lo; i < hi; ++i) data[i] = 0] *)
Definition clear_bytes (lo hi : Z) (data : sarr) : sarr :=
  for_range lo hi (fun i d => sa_set d i 0) data.

(** [memcpy(data + offset, buffer, n)] for the bytes of the buffer. *)
Definition write_bytes (offset : Z) (bytes : list Z) (data : sarr) : sarr :=
  foldl (fun d ib => sa_set d (offset + Z.of_nat ib.1) ib.2) data (imap pair bytes).

Lemma bytes_at_length get off n : length (bytes_at get off n) = Z.to_nat n.
Proof. unfold bytes_at. by rewrite length_fmap, length_seq. Qed.

Lemma bytes_at_lookup get off n k :
  bytes_at get off n !! k = if decide (k < Z.to_nat n)%nat then Some (get (off + Z.of_nat k)) else None.
Proof.
  unfold bytes_at. rewrite list_lookup_fmap. case_decide.
  - by rewrite lookup_seq_lt.
  - by rewrite lookup_seq_ge by lia.
Qed.

Lemma clear_bytes_get lo hi d i :
  lo <= hi -> sa_get (clear_bytes lo hi d) i = if decide (lo <= i < hi) then 0 else sa_get d i.
Proof.
  intros Hle. pose proof (for_range_inv (fun k d' => forall i, sa_get d' i = if decide (lo <= i < k) then 0 else sa_get d i)
    lo hi (fun i d => sa_set d i 0) d) as HI.
  rewrite Z.max_r in HI by done. apply HI.
  - intros j. by rewrite decide_False by lia.
  - intros k d' Hk IH j. destruct (decide (j = k)) as [->|Hne].
    + rewrite sa_get_set_eq. by rewrite decide_True by lia.
    + rewrite sa_get_set_ne, IH by done. apply decide_ext. lia.
Qed.

Lemma write_bytes_get offset bytes data i :
  sa_get (write_bytes offset bytes data) i =
  if decide (offset <= i < offset + zlen bytes)
  then default 0 (bytes !! Z.to_nat (i - offset)) else sa_get data i.
Proof.
  unfold write_bytes, zlen. revert i. induction bytes as [|b bytes IH] using rev_ind; intros i.
  - simpl. by rewrite decide_False by lia.
  - rewrite imap_app, foldl_app. simpl. rewrite Nat.add_0_r, length_app. simpl.
    destruct (decide (offset + Z.of_nat (length bytes) = i)) as [<-|Hne].
    + rewrite sa_get_set_eq, decide_True by lia.
      replace (Z.to_nat _) with (length bytes) by lia.
      by rewrite (list_lookup_middle bytes [] b (length bytes)).
    + rewrite sa_get_set_ne, IH by done. destruct (decide (offset <= i < offset + Z.of_nat (length bytes))).
      * rewrite decide_True by lia. by rewrite lookup_app_l by lia.
      * by rewrite decide_False by lia.
Qed.

Lemma bytes_at_zlen get off n : 0 <= n -> zlen (bytes_at get off n) = n.
Proof. intros. unfold zlen. rewrite bytes_at_length. lia. Qed.

Lemma bytes_at_ext f g off n :
  (forall i, off <= i < off + n -> f i = g i) -> bytes_at f off n = bytes_at g off n.
Proof.
  intros Hfg. apply list_eq. intros k. rewrite !bytes_at_lookup. case_decide; [|done]. f_equal. apply Hfg. lia.
Qed.

Lemma bytes_at_split get off a n :
  0 <= a <= n -> bytes_at get off n = bytes_at get off a ++ bytes_at get (off + a) (n - a).
Proof.
  intros Ha. apply list_eq. intros k. rewrite lookup_app, !bytes_at_lookup, bytes_at_length.
  repeat case_decide; try lia; try done. do 2 f_equal. lia.
Qed.

Lemma bytes_at_written off bytes data n :
  n = zlen bytes -> bytes_at (sa_get (write_bytes off bytes data)) off n = bytes.
Proof.
  intros ->. apply list_eq. intros k. rewrite bytes_at_lookup, write_bytes_get. unfold zlen.
  case_decide as Hk.
  - rewrite decide_True by lia. replace (Z.to_nat (off + Z.of_nat k - off)) with k by lia.
    destruct (lookup_lt_is_Some_2 bytes k) as [b Hb]; [lia|]. by rewrite Hb.
  - symmetry. apply lookup_ge_None. lia.
Qed.

(** A change at an index that is there, as an insertion. *)
Lemma alter_insert {A} (f : A -> A) i (l : list A) x : l !! i = Some x -> alter f i l = <[i := f x]> l.
Proof.
  intros Hi. apply list_eq. intros j. destruct (decide (i = j)) as [->|Hne].
  - rewrite list_lookup_alter_eq, Hi. simpl. by rewrite list_lookup_insert_eq by (by eapply lookup_lt_Some).
  - by rewrite list_lookup_alter_ne, list_lookup_insert_ne.
Qed.

(** An element that leaves a selection by being changed. *)
Lemma length_filter_insert {A} (P : A -> Prop) `{forall x, Decision (P x)} (l : list A) i x y :
  l !! i = Some x -> P x -> ~ P y -> length (filter P l) = S (length (filter P (<[i := y]> l))).
Proof.
  intros Hi Hx Hy. pose proof (lookup_lt_Some _ _ _ Hi) as Hlt.
  rewrite insert_take_drop by done. rewrite <-(take_drop_middle l i x Hi) at 1.
  rewrite !filter_app, !filter_cons, (decide_True _ _ Hx), (decide_False _ _ Hy), !length_app. simpl. lia.
Qed.

(** A selection that only one index can be in. *)
Lemma filter_at_most_one {A} (P : A -> Prop) `{forall x, Decision (P x)} (l : list A) :
  (forall i j x y, l !! i = Some x -> l !! j = Some y -> P x -> P y -> i = j) -> (length (filter P l) <= 1)%nat.
Proof.
  induction l as [|x l IH]; intros Hu; [simpl; lia|]. rewrite filter_cons. case_decide as Hx.
  - assert (filter P l = []) as ->; [|done]. apply length_zero_iff_nil.
    destruct (filter P l) as [|y l'] eqn:Hf; [done|]. assert (Hy : y ∈ filter P l) by (rewrite Hf; by left).
    apply list_elem_of_filter in Hy as [Hy [j Hj]%list_elem_of_lookup]. discriminate (Hu 0%nat (S j) x y eq_refl Hj Hx Hy).
  - apply IH. intros i j y z Hi Hj Hy Hz. by injection (Hu (S i) (S j) y z Hi Hj Hy Hz).
Qed.

(** The outcome of a call, from its result alone. *)
Lemma pair_snd {A B} (p : A * B) (b : B) : p.2 = b -> p = (p.1, b).
Proof. intros <-. by destruct p. Qed.

(** ** Small tactics *)

(** [case_match] with a pattern. *)
Tactic Notation "dmatch" "as" simple_intropattern(pat) :=
  match goal with |- context [match ?x with _ => _ end] => destruct x as pat end.

(** Split a boolean hypothesis or goal into its arithmetic content. *)
Ltac bsimp :=
  repeat match goal with
  | H : negb _ = true |- _ => apply negb_true_iff in H
  | H : negb _ = false |- _ => apply negb_false_iff in H
  | H : (_ && _)%bool = true |- _ => apply andb_true_iff in H as [? ?]
  | H : (_ || _)%bool = false |- _ => apply orb_false_iff in H as [? ?]
  | H : (_ <? _) = true |- _ => apply Z.ltb_lt in H
  | H : (_ <? _) = false |- _ => apply Z.ltb_ge in H
  | H : (_ <=? _) = true |- _ => apply Z.leb_le in H
  | H : (_ <=? _) = false |- _ => apply Z.leb_gt in H
  | H : (_ =? _) = true |- _ => apply Z.eqb_eq in H
  | H : (_ =? _) = false |- _ => apply Z.eqb_neq in H
  end.

Arguments find_first : simpl never.
Arguments for_range : simpl never.
Arguments loop_range : simpl never.
Arguments count_range : simpl never.
Arguments sa_get : simpl never.
Arguments sa_set : simpl never.
Arguments w64 : simpl never.
Arguments w32 : simpl never.
Arguments inc64 : simpl never.
Arguments dec64 : simpl never.
Arguments inc32 : simpl never.
