(* ===== verification/Pmm.v ===== *)
(** * The physical memory manager (kernel/src/mm/pmm.cpp)

    A bitmap allocator of 4 KiB page frames: one bit per frame, set when the
    frame is in use, with a count of the free frames, a scan hint and the
    statistics the rest of the kernel reads.  The state is the class
    [PhysicalMemoryManager]; every member function is a state transformer.
    The functions run under [pmm_lock], so each is one atomic step here. *)

From S2P Require Import Prelude.

(** ** Constants and alignment (kernel/include/hk/mm/pmm.hpp) *)

Definition kPageSize : Z := 4096.
Definition kPmmBitmapPages : Z := 1024 * 1024.

Definition align_down (value align : Z) : Z :=
  Z.land value (not64 (w64 (align - 1))).

Definition align_up (value align : Z) : Z :=
  Z.land (w64 (value + align - 1)) (not64 (w64 (align - 1))).

(** ** State *)

Record MemoryStats := mkMemoryStats {
  st_total_pages : Z;
  st_free_pages : Z;
  st_used_pages : Z;
  st_usable_bytes : Z;
  st_reserved_bytes : Z;
  st_highest_physical : Z
}.

#[export] Instance eta_MemoryStats : Eta MemoryStats := fun r =>
  mkMemoryStats (st_total_pages r) (st_free_pages r) (st_used_pages r)
    (st_usable_bytes r) (st_reserved_bytes r) (st_highest_physical r).

Record PhysicalMemoryDiagnostics := mkPmmDiag {
  allocate_page_calls : Z;
  allocate_contiguous_calls : Z;
  free_page_calls : Z;
  free_contiguous_calls : Z;
  failed_allocations : Z;
  invalid_frees : Z;
  peak_used_pages : Z;
  last_allocated_page : Z
}.

#[export] Instance eta_PmmDiag : Eta PhysicalMemoryDiagnostics := fun r =>
  mkPmmDiag (allocate_page_calls r) (allocate_contiguous_calls r) (free_page_calls r)
    (free_contiguous_calls r) (failed_allocations r) (invalid_frees r)
    (peak_used_pages r) (last_allocated_page r).

Record PhysicalMemoryManager := mkPmm {
  bitmap_ : sarr;
  total_pages_ : Z;
  free_pages_ : Z;
  scan_hint_ : Z;
  stats_ : MemoryStats;
  diagnostics_ : PhysicalMemoryDiagnostics
}.

#[export] Instance eta_Pmm : Eta PhysicalMemoryManager := fun r =>
  mkPmm (bitmap_ r) (total_pages_ r) (free_pages_ r) (scan_hint_ r) (stats_ r)
    (diagnostics_ r).

(** The object before [initialize]: zeroed storage. *)
Definition pmm_zero : PhysicalMemoryManager :=
  mkPmm (sa_const 0) 0 0 0 (mkMemoryStats 0 0 0 0 0 0) (mkPmmDiag 0 0 0 0 0 0 0 0).

(** The boot handoff the manager reads: the memory map, the loaded modules and
    the ranges the firmware and the loader occupy. *)

Inductive MemoryType :=
  Reserved | Usable | BootServices | RuntimeServices | AcpiReclaim | AcpiNvs | Mmio | Bad.

#[export] Instance MemoryType_eq_dec : EqDecision MemoryType.
Proof. solve_decision. Defined.

Record MemoryRegion := mkRegion { r_base : Z; r_length : Z; r_type : MemoryType }.
Record BootModule := mkModule { m_base : Z; m_size : Z }.

Record BootInfo := mkBootInfo {
  boot_address : Z;                    (* [&boot] *)
  rsdp : Z;
  fb_base : Z;
  fb_height : Z;
  fb_pixels_per_scanline : Z;
  fb_bytes_per_pixel : Z;
  memory_map : Z;
  memory_map_regions : list MemoryRegion;
  memory_map_descriptor_size : Z;
  kernel_physical_base : Z;
  kernel_physical_end : Z;
  user_init_base : Z;
  user_init_size : Z;
  boot_modules : Z;
  boot_module_list : list BootModule
}.

Definition sizeof_BootInfo : Z := 156.
Definition sizeof_BootModule : Z := 80.

(** ** Operations *)

Definition bit_mask (page : Z) : Z := w8 (Z.shiftl 1 (Z.land page 7)).

Definition set_used (page : Z) (used : bool) (s : PhysicalMemoryManager)
  : PhysicalMemoryManager :=
  if kPmmBitmapPages <=? page then s else
  let i := Z.shiftr page 3 in
  let byte := sa_get (bitmap_ s) i in
  s <| bitmap_ := sa_set (bitmap_ s) i
         (if used then Z.lor byte (bit_mask page)
          else Z.land byte (not8 (bit_mask page))) |>.

Definition is_used (page : Z) (s : PhysicalMemoryManager) : bool :=
  if kPmmBitmapPages <=? page then true
  else negb (Z.land (sa_get (bitmap_ s) (Z.shiftr page 3)) (bit_mask page) =? 0).

Definition update_peak_used (s : PhysicalMemoryManager) : PhysicalMemoryManager :=
  let used := w64 (total_pages_ s - free_pages_ s) in
  if peak_used_pages (diagnostics_ s) <? used
  then s <| diagnostics_ ::= fun d => d <| peak_used_pages := used |> |>
  else s.

(** [stats_.free_pages = free_pages_; stats_.used_pages = total_pages_ - free_pages_;] *)
Definition sync_stats (s : PhysicalMemoryManager) : PhysicalMemoryManager :=
  s <| stats_ ::= fun t => t <| st_free_pages := free_pages_ s |>
                             <| st_used_pages := w64 (total_pages_ s - free_pages_ s) |> |>.

(** The loop body of [mark_range_used] (lines 172-175). *)
Definition reserve_page (page : Z) (s : PhysicalMemoryManager) : PhysicalMemoryManager :=
  if negb (is_used page s) then
    let s := set_used page true s in
    if 0 <? free_pages_ s then s <| free_pages_ ::= dec64 |> else s
  else s.

(** The loop body of [mark_range_free] (lines 186-190) and of the memory-map
    loop of [initialize] (lines 51-55). *)
Definition release_page (page : Z) (s : PhysicalMemoryManager) : PhysicalMemoryManager :=
  if page <? 0x100 then s
  else if is_used page s then set_used page false s <| free_pages_ ::= inc64 |>
  else s.

Definition mark_range_used (base length : Z) (s : PhysicalMemoryManager)
  : PhysicalMemoryManager :=
  let first := align_down base kPageSize / kPageSize in
  let last := align_up (w64 (base + length)) kPageSize / kPageSize in
  let last := if total_pages_ s <? last then total_pages_ s else last in
  sync_stats (for_range first last reserve_page s).

Definition mark_range_free (base length : Z) (s : PhysicalMemoryManager)
  : PhysicalMemoryManager :=
  let first := align_up base kPageSize / kPageSize in
  let last := align_down (w64 (base + length)) kPageSize / kPageSize in
  let last := if total_pages_ s <? last then total_pages_ s else last in
  sync_stats (for_range first last release_page s).

(** One iteration of the memory-map loop of [initialize] (lines 41-60). *)
Definition add_region (r : MemoryRegion) (s : PhysicalMemoryManager)
  : PhysicalMemoryManager :=
  let top := w64 (r_base r + r_length r) in
  let s := if st_highest_physical (stats_ s) <? top
           then s <| stats_ ::= fun t => t <| st_highest_physical := top |> |> else s in
  let first := align_up (r_base r) kPageSize / kPageSize in
  let last := align_down top kPageSize / kPageSize in
  let last := if kPmmBitmapPages <? last then kPmmBitmapPages else last in
  let s := if total_pages_ s <? last then s <| total_pages_ := last |> else s in
  if bool_decide (r_type r = Usable \/ r_type r = BootServices) then
    let s := s <| stats_ ::= fun t =>
               t <| st_usable_bytes := w64 (st_usable_bytes t + r_length r) |> |> in
    for_range first last release_page s
  else
    s <| stats_ ::= fun t =>
      t <| st_reserved_bytes := w64 (st_reserved_bytes t + r_length r) |> |>.

(** The ranges [initialize] takes back from the free pool, in order (lines 61-72). *)
Definition reserved_ranges (boot : BootInfo) : list (Z * Z) :=
  [ (0, 0x100000);
    (kernel_physical_base boot, w64 (kernel_physical_end boot - kernel_physical_base boot));
    (user_init_base boot, user_init_size boot);
    (boot_modules boot,
      w64 (Z.of_nat (length (boot_module_list boot)) * sizeof_BootModule)) ]
  ++ map (fun m => (m_base m, m_size m)) (boot_module_list boot)
  ++ [ (boot_address boot, sizeof_BootInfo);
       (memory_map boot,
         w64 (Z.of_nat (length (memory_map_regions boot)) * memory_map_descriptor_size boot));
       (fb_base boot,
         w64 (w64 (fb_pixels_per_scanline boot * fb_height boot) * fb_bytes_per_pixel boot)) ]
  ++ (if rsdp boot =? 0 then [] else [(align_down (rsdp boot) kPageSize, kPageSize)]).

Definition initialize (boot : BootInfo) (s : PhysicalMemoryManager)
  : PhysicalMemoryManager :=
  let s := mkPmm (sa_const 0xff) 0 0 0x100 (mkMemoryStats 0 0 0 0 0 0)
             (mkPmmDiag 0 0 0 0 0 0 0 0) in
  let s := foldl (fun s r => add_region r s) s (memory_map_regions boot) in
  let s := foldl (fun s r => mark_range_used r.1 r.2 s) s (reserved_ranges boot) in
  let s := s <| stats_ ::= fun t => t <| st_total_pages := total_pages_ s |> |> in
  update_peak_used (sync_stats s).

(** The bookkeeping both scan loops of [allocate_page] perform on the page
    they settle on (lines 84-91 and 96-103). *)
Definition claim_page (page : Z) (s : PhysicalMemoryManager) : PhysicalMemoryManager :=
  let s := set_used page true s <| free_pages_ ::= dec64 |> in
  let s := sync_stats s in
  let s := s <| scan_hint_ := w64 (page + 1) |>
             <| diagnostics_ ::= fun d => d <| last_allocated_page := page |> |> in
  update_peak_used s.

Definition fail_allocation (s : PhysicalMemoryManager) : PhysicalMemoryManager :=
  s <| diagnostics_ ::= fun d => d <| failed_allocations ::= inc64 |> |>.

Definition allocate_page (s : PhysicalMemoryManager) : PhysicalMemoryManager * Z :=
  let s := s <| diagnostics_ ::= fun d => d <| allocate_page_calls ::= inc64 |> |> in
  match find_first (fun page => negb (is_used page s)) (scan_hint_ s) (total_pages_ s) with
  | Some page => (claim_page page s, w64 (page * kPageSize))
  | None =>
    match find_first (fun page => negb (is_used page s)) 0x100 (scan_hint_ s) with
    | Some page => (claim_page page s, w64 (page * kPageSize))
    | None => (fail_allocation s, 0)
    end
  end.

(** The search of [allocate_contiguous] (lines 117-136): the loop state is
    [(run_start, run)], and it stops with the start of the run it claims. *)
Definition scan_run_step (page_count : Z) (s : PhysicalMemoryManager) (page : Z)
    (st : Z * Z) : flow (Z * Z) Z :=
  let '(run_start, run) := st in
  if negb (is_used page s) then
    let run_start := if run =? 0 then page else run_start in
    let run := w64 (run + 1) in
    if run =? page_count then Stop run_start else Next (run_start, run)
  else Next (run_start, 0).

Definition scan_run (page_count : Z) (s : PhysicalMemoryManager) : flow (Z * Z) Z :=
  loop_range 0x100 (total_pages_ s) (scan_run_step page_count s) (0, 0).

Definition claim_run (run_start page_count : Z) (s : PhysicalMemoryManager)
  : PhysicalMemoryManager :=
  let s := for_range run_start (w64 (run_start + page_count)) (fun p s => set_used p true s) s in
  let s := s <| free_pages_ := w64 (free_pages_ s - page_count) |> in
  let s := sync_stats s in
  let s := s <| scan_hint_ := w64 (run_start + page_count) |>
             <| diagnostics_ ::= fun d => d <| last_allocated_page := run_start |> |> in
  update_peak_used s.

Definition allocate_contiguous (page_count : Z) (s : PhysicalMemoryManager)
  : PhysicalMemoryManager * Z :=
  let s := s <| diagnostics_ ::= fun d => d <| allocate_contiguous_calls ::= inc64 |> |> in
  if page_count =? 0 then (fail_allocation s, 0) else
  match scan_run page_count s with
  | Stop run_start => (claim_run run_start page_count s, w64 (run_start * kPageSize))
  | Next _ => (fail_allocation s, 0)
  end.

Definition reject_free (s : PhysicalMemoryManager) : PhysicalMemoryManager :=
  s <| diagnostics_ ::= fun d => d <| invalid_frees ::= inc64 |> |>.

(** The loop body of [free_contiguous] (lines 156-159), on [(manager, freed)]. *)
Definition free_step (page i : Z) (st : PhysicalMemoryManager * bool)
  : PhysicalMemoryManager * bool :=
  let '(s, freed) := st in
  if (total_pages_ s <=? w64 (page + i)) || negb (is_used (w64 (page + i)) s)
  then (s, freed)
  else (set_used (w64 (page + i)) false s <| free_pages_ ::= inc64 |>, true).

Definition free_contiguous (physical page_count : Z) (s : PhysicalMemoryManager)
  : PhysicalMemoryManager :=
  let s := s <| diagnostics_ ::= fun d => d <| free_contiguous_calls ::= inc64 |> |> in
  let page := physical / kPageSize in
  if (physical =? 0) || negb (Z.land physical (kPageSize - 1) =? 0)
     || (page <? 0x100) || (page_count =? 0)
  then reject_free s else
  let '(s, freed) := for_range 0 page_count (free_step page) (s, false) in
  let s := if negb freed then reject_free s else s in
  let s := sync_stats s in
  if page <? scan_hint_ s then s <| scan_hint_ := page |> else s.

Definition free_page (physical : Z) (s : PhysicalMemoryManager) : PhysicalMemoryManager :=
  free_contiguous physical 1
    (s <| diagnostics_ ::= fun d => d <| free_page_calls ::= inc64 |> |>).

(** The loop body of [free_run_count] (lines 203-208), on [(count, run)]. *)
Definition run_count_step (block_pages : Z) (s : PhysicalMemoryManager) (page : Z)
    (st : Z * Z) : Z * Z :=
  let '(count, run) := st in
  if negb (is_used page s) then (count, w64 (run + 1))
  else (w64 (count + run / block_pages), 0).

Definition free_run_count (order : Z) (s : PhysicalMemoryManager) : Z :=
  if 20 <? order then 0 else
  let block_pages := w64 (Z.shiftl 1 order) in
  let '(count, run) :=
    for_range 0x100 (total_pages_ s) (run_count_step block_pages s) (0, 0) in
  w64 (count + run / block_pages).

Definition total_pages (s : PhysicalMemoryManager) : Z := total_pages_ s.
Definition free_pages (s : PhysicalMemoryManager) : Z := free_pages_ s.
Definition stats (s : PhysicalMemoryManager) : MemoryStats := stats_ s.

Arguments set_used : simpl never.
Arguments is_used : simpl never.

(** ** Bitmap lemmas *)

Lemma bit_mask_pow page : 0 <= page -> bit_mask page = 2 ^ (page mod 8).
Proof.
  intros. unfold bit_mask. rewrite (land_low page 3 ltac:(lia) : Z.land page 7 = page mod 8).
  rewrite Z.shiftl_1_l. unfold w8. pose proof (Z.mod_pos_bound page 8 ltac:(lia)).
  apply Z.mod_small. split; [apply Z.pow_nonneg; lia|].
  apply (Z.pow_lt_mono_r 2 (page mod 8) 8); lia.
Qed.

Lemma land_pow2_eqb b k : 0 <= k -> negb (Z.land b (2 ^ k) =? 0) = Z.testbit b k.
Proof.
  intros Hk. destruct (Z.testbit b k) eqn:E.
  - apply negb_true_iff, Z.eqb_neq. intros H.
    assert (Hb : Z.testbit (Z.land b (2 ^ k)) k = true)
      by (rewrite Z.land_spec, E, Z.pow2_bits_true by lia; done).
    rewrite H, Z.bits_0 in Hb. done.
  - apply negb_false_iff, Z.eqb_eq. apply Z.bits_inj'. intros n Hn.
    rewrite Z.land_spec, Z.bits_0, Z.pow2_bits_eqb by lia.
    destruct (Z.eqb_spec k n) as [->|]; [by rewrite E|apply andb_false_r].
Qed.

Lemma is_used_testbit page s :
  0 <= page < kPmmBitmapPages ->
  is_used page s = Z.testbit (sa_get (bitmap_ s) (page / 8)) (page mod 8).
Proof.
  intros Hp. unfold is_used.
  replace (kPmmBitmapPages <=? page) with false by (symmetry; apply Z.leb_gt; lia).
  rewrite bit_mask_pow, Z.shiftr_div_pow2 by lia. change (2 ^ 3) with 8.
  apply land_pow2_eqb. apply Z.mod_pos_bound; lia.
Qed.

Lemma testbit_not8_pow k j :
  0 <= k < 8 -> 0 <= j < 8 -> Z.testbit (not8 (2 ^ k)) j = negb (k =? j).
Proof.
  intros Hk Hj.
  assert (Hc : k = 0 \/ k = 1 \/ k = 2 \/ k = 3 \/ k = 4 \/ k = 5 \/ k = 6 \/ k = 7) by lia.
  assert (Hd : j = 0 \/ j = 1 \/ j = 2 \/ j = 3 \/ j = 4 \/ j = 5 \/ j = 6 \/ j = 7) by lia.
  repeat destruct Hc as [->|Hc]; subst; repeat destruct Hd as [->|Hd]; subst; reflexivity.
Qed.

(** A page's bit after [set_used]: the page itself takes the new value, every
    other page keeps its own. *)
Lemma is_used_set_used p b q s :
  0 <= p < kPmmBitmapPages -> 0 <= q ->
  is_used q (set_used p b s) = if p =? q then b else is_used q s.
Proof.
  intros Hp Hq. unfold kPmmBitmapPages in *.
  destruct (Z.ltb_spec q (1024 * 1024)).
  2: { unfold is_used, kPmmBitmapPages.
       replace (1024 * 1024 <=? q) with true by (symmetry; apply Z.leb_le; lia).
       replace (p =? q) with false by (symmetry; apply Z.eqb_neq; lia). done. }
  rewrite !is_used_testbit by (unfold kPmmBitmapPages; lia).
  unfold set_used, kPmmBitmapPages.
  replace (1024 * 1024 <=? p) with false by (symmetry; apply Z.leb_gt; lia).
  rewrite bit_mask_pow, Z.shiftr_div_pow2 by lia. change (2 ^ 3) with 8. simpl.
  pose proof (Z.mod_pos_bound p 8 ltac:(lia)). pose proof (Z.mod_pos_bound q 8 ltac:(lia)).
  pose proof (Z.div_mod p 8 ltac:(lia)). pose proof (Z.div_mod q 8 ltac:(lia)).
  destruct (decide (p / 8 = q / 8)) as [E|E].
  - rewrite E, sa_get_set_eq. destruct b.
    + rewrite Z.lor_spec, Z.pow2_bits_eqb by lia.
      destruct (Z.eqb_spec p q), (Z.eqb_spec (p mod 8) (q mod 8)); try lia;
        by rewrite ?orb_true_r, ?orb_false_r.
    + rewrite Z.land_spec, testbit_not8_pow by lia.
      destruct (Z.eqb_spec p q), (Z.eqb_spec (p mod 8) (q mod 8)); try lia;
        by rewrite ?andb_true_r, ?andb_false_r.
  - rewrite sa_get_set_ne by done.
    destruct (Z.eqb_spec p q) as [->|]; [done|]. done.
Qed.

Lemma set_used_frame p b s :
  total_pages_ (set_used p b s) = total_pages_ s /\
  free_pages_ (set_used p b s) = free_pages_ s /\
  scan_hint_ (set_used p b s) = scan_hint_ s /\
  stats_ (set_used p b s) = stats_ s /\
  diagnostics_ (set_used p b s) = diagnostics_ s.
Proof. unfold set_used. destruct (kPmmBitmapPages <=? p); done. Qed.

(** [is_used] reads the bitmap only. *)
Lemma is_used_bitmap p s t : bitmap_ s = bitmap_ t -> is_used p s = is_used p t.
Proof. intros H. unfold is_used. by rewrite H. Qed.

(** ** Alignment *)

Lemma align_down_4096 v : u64 v -> align_down v kPageSize = v - v mod 4096.
Proof.
  intros. unfold align_down, kPageSize. change (w64 (4096 - 1)) with (2 ^ 12 - 1).
  apply land_high; [done|lia].
Qed.

Lemma align_up_4096 v :
  0 <= v -> v + 4095 < two64 -> align_up v kPageSize = v + 4095 - (v + 4095) mod 4096.
Proof.
  intros. unfold align_up, kPageSize. change (w64 (4096 - 1)) with (2 ^ 12 - 1).
  rewrite w64_small by (unfold u64; lia).
  replace (v + 4096 - 1) with (v + 4095) by lia. apply land_high; [unfold u64; lia|lia].
Qed.

Lemma align_down_page v : u64 v -> align_down v kPageSize / kPageSize = v / 4096.
Proof. intros. rewrite align_down_4096 by done. unfold kPageSize. word_lia. Qed.

Lemma align_up_page v :
  0 <= v -> v + 4095 < two64 -> align_up v kPageSize / kPageSize = (v + 4095) / 4096.
Proof. intros. rewrite align_up_4096 by done. unfold kPageSize. word_lia. Qed.

(** ** Well-formedness

    [pmm_core] is what every operation maintains: the first megabyte and every
    frame past the managed range are marked used, and [free_pages_] counts the
    clear bits exactly.  [pmm_wf] adds the scan hint and the exported
    statistics, which [initialize] establishes. *)

Definition page_free (s : PhysicalMemoryManager) (p : Z) : bool := negb (is_used p s).

Record pmm_core (s : PhysicalMemoryManager) : Prop := {
  core_total : 0 <= total_pages_ s <= kPmmBitmapPages;
  core_low : forall p, 0 <= p < 0x100 -> is_used p s = true;
  core_high : forall p, 0 <= p -> total_pages_ s <= p -> is_used p s = true;
  core_count : free_pages_ s = count_range (page_free s) 0x100 (total_pages_ s)
}.

Record pmm_wf (s : PhysicalMemoryManager) : Prop := {
  wf_core : pmm_core s;
  wf_hint : 0x100 <= scan_hint_ s <= Z.max 0x100 (total_pages_ s);
  wf_free : st_free_pages (stats_ s) = free_pages_ s;
  wf_used : st_used_pages (stats_ s) = total_pages_ s - free_pages_ s;
  wf_peak : total_pages_ s - free_pages_ s <= peak_used_pages (diagnostics_ s)
}.

Lemma core_free_bound s : pmm_core s -> 0 <= free_pages_ s <= total_pages_ s.
Proof.
  intros H. rewrite (core_count _ H).
  pose proof (count_range_bound (page_free s) 0x100 (total_pages_ s)).
  pose proof (core_total _ H). lia.
Qed.

(** A free page lies in the managed range. *)
Lemma page_free_range s p :
  pmm_core s -> 0 <= p -> page_free s p = true -> 0x100 <= p < total_pages_ s.
Proof.
  intros H Hp Hf. unfold page_free in Hf. apply negb_true_iff in Hf.
  destruct (Z.ltb_spec p 0x100); [rewrite (core_low _ H) in Hf by lia; done|].
  destruct (Z.leb_spec (total_pages_ s) p); [rewrite (core_high _ H) in Hf by lia; done|].
  lia.
Qed.

Lemma page_free_set_used p b q s :
  0 <= p < kPmmBitmapPages -> 0 <= q ->
  page_free (set_used p b s) q = if p =? q then negb b else page_free s q.
Proof.
  intros. unfold page_free. rewrite is_used_set_used by done. by destruct (p =? q).
Qed.

Lemma core_transfer s t :
  pmm_core s -> bitmap_ t = bitmap_ s -> total_pages_ t = total_pages_ s ->
  free_pages_ t = free_pages_ s -> pmm_core t.
Proof.
  intros H Hb Ht Hf. constructor; rewrite ?Ht.
  - apply H.
  - intros. rewrite (is_used_bitmap p t s Hb). by apply (core_low _ H).
  - intros. rewrite (is_used_bitmap p t s Hb). by apply (core_high _ H).
  - rewrite Hf, (core_count _ H). apply count_range_ext. intros.
    unfold page_free. by rewrite (is_used_bitmap k t s Hb).
Qed.

(** Flipping one managed page's bit, with the count adjusted to match, keeps
    the manager well formed. *)
Lemma core_flip p b s t :
  pmm_core s -> 0x100 <= p < total_pages_ s -> is_used p s = negb b ->
  bitmap_ t = bitmap_ (set_used p b s) -> total_pages_ t = total_pages_ s ->
  free_pages_ t = (if b then free_pages_ s - 1 else free_pages_ s + 1) ->
  pmm_core t /\
  (forall q, 0 <= q -> is_used q t = if p =? q then b else is_used q s).
Proof.
  intros H Hp Hu Hb Ht Hf. pose proof (core_total _ H) as Htot.
  assert (Hq : forall q, 0 <= q -> is_used q t = if p =? q then b else is_used q s).
  { intros q Hq. rewrite (is_used_bitmap q t _ Hb). apply is_used_set_used; lia. }
  split; [|done]. constructor; rewrite ?Ht; [done| | |].
  - intros q Hq'. rewrite Hq by lia.
    replace (p =? q) with false by (symmetry; apply Z.eqb_neq; lia). by apply (core_low _ H).
  - intros q ??. rewrite Hq by lia.
    replace (p =? q) with false by (symmetry; apply Z.eqb_neq; lia). by apply (core_high _ H).
  - rewrite Hf, (core_count _ H).
    rewrite (count_range_update (page_free s) (page_free t) 0x100 (total_pages_ s) p); [|done|].
    + unfold page_free. rewrite Hq, Z.eqb_refl, Hu by lia. destruct b; simpl; lia.
    + intros j Hj Hne. unfold page_free. rewrite Hq by lia.
      replace (p =? j) with false by (symmetry; apply Z.eqb_neq; lia). done.
Qed.

(** ** Reserving and releasing ranges *)

(** The fields the page loops leave alone. *)
Definition same_frame (s t : PhysicalMemoryManager) : Prop :=
  total_pages_ t = total_pages_ s /\ scan_hint_ t = scan_hint_ s /\
  stats_ t = stats_ s /\ diagnostics_ t = diagnostics_ s.

Lemma reserve_page_spec p s :
  pmm_core s -> 0 <= p ->
  pmm_core (reserve_page p s) /\ same_frame s (reserve_page p s) /\
  (forall q, 0 <= q -> is_used q (reserve_page p s) = is_used q s || (p =? q)).
Proof.
  intros H Hp. unfold reserve_page. destruct (is_used p s) eqn:Hu; simpl.
  - split_and!; try done. intros q Hq. destruct (Z.eqb_spec p q) as [->|].
    + by rewrite Hu.
    + by rewrite orb_false_r.
  - pose proof (page_free_range s p H Hp) as Hr. unfold page_free in Hr.
    rewrite Hu in Hr. specialize (Hr eq_refl).
    assert (free_pages_ s <> 0).
    { rewrite (core_count _ H), count_range_zero. intros E. specialize (E p Hr).
      unfold page_free in E. by rewrite Hu in E. }
    pose proof (core_free_bound _ H). pose proof (core_total _ H). unfold kPmmBitmapPages in *.
    pose proof (set_used_frame p true s) as (F1 & F2 & F3 & F4 & F5). rewrite F2.
    replace (0 <? free_pages_ s) with true by (symmetry; apply Z.ltb_lt; lia).
    match goal with |- pmm_core ?x /\ _ => set (t := x) end.
    destruct (core_flip p true s t) as [Hc Hq]; try done.
    { simpl. rewrite ?F2. unfold dec64. apply w64_small. word_lia. }
    split_and!; [done|by split_and!|]. intros q Hq0. rewrite Hq by done.
    destruct (p =? q); [by rewrite orb_true_r|by rewrite orb_false_r].
Qed.

Lemma release_page_spec p s :
  pmm_core s -> 0 <= p < total_pages_ s ->
  pmm_core (release_page p s) /\ same_frame s (release_page p s) /\
  (forall q, 0 <= q ->
     is_used q (release_page p s) = is_used q s && negb ((0x100 <=? q) && (p =? q))).
Proof.
  intros H Hp. unfold release_page. destruct (Z.ltb_spec p 0x100).
  - split_and!; try done. intros q Hq.
    destruct (Z.eqb_spec p q), (Z.leb_spec 0x100 q); simpl; try lia; by rewrite ?andb_true_r.
  - pose proof (core_free_bound _ H). pose proof (core_total _ H). unfold kPmmBitmapPages in *.
    destruct (is_used p s) eqn:Hu.
    + pose proof (set_used_frame p false s) as (F1 & F2 & F3 & F4 & F5).
      match goal with |- pmm_core ?x /\ _ => set (t := x) end.
      destruct (core_flip p false s t) as [Hc Hq]; try done; [lia| |].
      { simpl. rewrite ?F2. unfold inc64. apply w64_small. word_lia. }
      split_and!; [done|by split_and!|]. intros q Hq0. rewrite Hq by done.
      destruct (Z.eqb_spec p q), (Z.leb_spec 0x100 q); simpl; try lia;
        by rewrite ?andb_true_r, ?andb_false_r.
    + split_and!; try done. intros q Hq. destruct (Z.eqb_spec p q) as [->|].
      * by rewrite Hu.
      * by rewrite andb_false_r, andb_true_r.
Qed.

Lemma in_range_step first i q :
  first <= i -> (first <=? q) && (q <? i + 1) = ((first <=? q) && (q <? i)) || (i =? q).
Proof.
  intros. destruct (Z.leb_spec first q), (Z.ltb_spec q (i + 1)), (Z.ltb_spec q i),
    (Z.eqb_spec i q); try lia; done.
Qed.

Lemma in_range_nil first q : (first <=? q) && (q <? first) = false.
Proof. destruct (Z.leb_spec first q), (Z.ltb_spec q first); try lia; done. Qed.

Lemma reserve_pages_spec first last s :
  pmm_core s -> 0 <= first ->
  let u := for_range first last reserve_page s in
  pmm_core u /\ same_frame s u /\
  (forall q, 0 <= q -> is_used q u = is_used q s || ((first <=? q) && (q <? Z.max first last))).
Proof.
  intros H Hf. apply (for_range_inv (fun i u => pmm_core u /\ same_frame s u /\
    forall q, 0 <= q -> is_used q u = is_used q s || ((first <=? q) && (q <? i)))).
  - split_and!; try done. intros. by rewrite in_range_nil, orb_false_r.
  - intros i v Hi (Hc & (F1 & F2 & F3 & F4) & Hq).
    destruct (reserve_page_spec i v Hc ltac:(lia)) as (Hc' & (G1 & G2 & G3 & G4) & Hq').
    split_and!; [done|split_and!; congruence|]. intros q Hq0.
    by rewrite Hq', Hq, in_range_step, orb_assoc by lia.
Qed.

Lemma release_pages_spec first last s :
  pmm_core s -> 0 <= first -> last <= total_pages_ s ->
  let u := for_range first last release_page s in
  pmm_core u /\ same_frame s u /\
  (forall q, 0 <= q -> is_used q u =
     is_used q s && negb ((0x100 <=? q) && ((first <=? q) && (q <? Z.max first last)))).
Proof.
  intros H Hf Hl. apply (for_range_inv (fun i u => pmm_core u /\ same_frame s u /\
    forall q, 0 <= q ->
      is_used q u = is_used q s && negb ((0x100 <=? q) && ((first <=? q) && (q <? i))))).
  - split_and!; try done. intros. by rewrite in_range_nil, andb_false_r, andb_true_r.
  - intros i v Hi (Hc & (F1 & F2 & F3 & F4) & Hq).
    destruct (release_page_spec i v Hc ltac:(lia)) as (Hc' & (G1 & G2 & G3 & G4) & Hq').
    split_and!; [done|split_and!; congruence|]. intros q Hq0.
    rewrite Hq', Hq, in_range_step by lia.
    destruct (is_used q s), (0x100 <=? q), ((first <=? q) && (q <? i)), (i =? q); done.
Qed.

(** Page [q] overlaps the byte range of [len] bytes at [base]. *)
Definition overlaps (base len q : Z) : bool :=
  (base / 4096 <=? q) && (q <? (base + len + 4095) / 4096).

Lemma mark_range_used_spec base len s :
  pmm_core s -> 0 <= base -> 0 <= len -> base + len + 4095 < two64 ->
  pmm_core (mark_range_used base len s) /\
  total_pages_ (mark_range_used base len s) = total_pages_ s /\
  scan_hint_ (mark_range_used base len s) = scan_hint_ s /\
  diagnostics_ (mark_range_used base len s) = diagnostics_ s /\
  (forall q, 0 <= q -> is_used q (mark_range_used base len s) = is_used q s || overlaps base len q).
Proof.
  intros H Hb Hl Hr. unfold mark_range_used.
  rewrite (w64_small (base + len)), align_down_page, align_up_page by (unfold u64; lia).
  set (last := if _ <? _ then _ else _).
  assert (Hlast : last = Z.min (total_pages_ s) ((base + len + 4095) / 4096))
    by (unfold last; case_match; bsimp; lia).
  destruct (reserve_pages_spec (base / 4096) last s H) as (Hc & (F1 & F2 & F3 & F4) & Hq).
  { apply Z.div_pos; lia. }
  split_and!; try done; [by eapply core_transfer|].
  intros q Hq0. transitivity (is_used q (for_range (base / 4096) last reserve_page s));
    [by apply is_used_bitmap|]. rewrite Hq by done.
  unfold overlaps. destruct (is_used q s) eqn:Hu; [done|]. simpl.
  pose proof (page_free_range s q H Hq0) as Hrange. unfold page_free in Hrange.
  rewrite Hu in Hrange. specialize (Hrange eq_refl).
  destruct (Z.leb_spec (base / 4096) q), (Z.ltb_spec q (Z.max (base / 4096) last)),
    (Z.ltb_spec q ((base + len + 4095) / 4096)); try lia; done.
Qed.

(** Page [q] lies wholly inside the byte range of [len] bytes at [base]. *)
Definition contained (base len q : Z) : bool :=
  ((base + 4095) / 4096 <=? q) && (q <? (base + len) / 4096).

Lemma mark_range_free_spec base len s :
  pmm_core s -> 0 <= base -> 0 <= len -> base + len + 4095 < two64 ->
  pmm_core (mark_range_free base len s) /\
  total_pages_ (mark_range_free base len s) = total_pages_ s /\
  scan_hint_ (mark_range_free base len s) = scan_hint_ s /\
  diagnostics_ (mark_range_free base len s) = diagnostics_ s /\
  (forall q, 0 <= q -> is_used q (mark_range_free base len s) =
     is_used q s && negb ((0x100 <=? q) && (q <? total_pages_ s) && contained base len q)).
Proof.
  intros H Hb Hl Hr. unfold mark_range_free.
  rewrite (w64_small (base + len)), align_down_page, align_up_page by (unfold u64; lia).
  set (last := if _ <? _ then _ else _).
  assert (Hlast : last = Z.min (total_pages_ s) ((base + len) / 4096))
    by (unfold last; case_match; bsimp; lia).
  destruct (release_pages_spec ((base + 4095) / 4096) last s H) as (Hc & (F1 & F2 & F3 & F4) & Hq).
  { apply Z.div_pos; lia. }
  { lia. }
  split_and!; try done; [by eapply core_transfer|].
  intros q Hq0.
  transitivity (is_used q (for_range ((base + 4095) / 4096) last release_page s));
    [by apply is_used_bitmap|]. rewrite Hq by done. unfold contained. f_equal. f_equal.
  destruct (Z.leb_spec 0x100 q), (Z.leb_spec ((base + 4095) / 4096) q),
    (Z.ltb_spec q (Z.max ((base + 4095) / 4096) last)), (Z.ltb_spec q (total_pages_ s)),
    (Z.ltb_spec q ((base + len) / 4096)); simpl; try lia; done.
Qed.

(** Growing the managed range over frames that are still marked used. *)
Lemma core_grow s t :
  pmm_core s -> bitmap_ t = bitmap_ s -> free_pages_ t = free_pages_ s ->
  total_pages_ s <= total_pages_ t <= kPmmBitmapPages -> pmm_core t.
Proof.
  intros H Hb Hf Ht. pose proof (core_total _ H).
  constructor; [lia| | |].
  - intros. rewrite (is_used_bitmap p t s Hb). by apply (core_low _ H).
  - intros. rewrite (is_used_bitmap p t s Hb). apply (core_high _ H); lia.
  - rewrite Hf, (core_count _ H).
    rewrite (count_range_ext (page_free t) (page_free s))
      by (intros; unfold page_free; by rewrite (is_used_bitmap k t s Hb)).
    destruct (Z.leb_spec 0x100 (total_pages_ s)).
    + rewrite (count_range_split _ 0x100 (total_pages_ s) (total_pages_ t)) by lia.
      replace (count_range _ (total_pages_ s) _) with 0; [lia|]. symmetry.
      apply count_range_zero. intros k Hk. unfold page_free.
      rewrite (core_high _ H) by lia. done.
    + rewrite count_range_nil by lia. symmetry. apply count_range_zero.
      intros k Hk. unfold page_free. rewrite (core_high _ H) by lia. done.
Qed.

Definition usable_type (t : MemoryType) : bool :=
  bool_decide (t = Usable \/ t = BootServices).

Definition region_ok (r : MemoryRegion) : Prop :=
  0 <= r_base r /\ 0 <= r_length r /\ r_base r + r_length r + 4095 < two64.

(** Page [q] is offered to the pool by region [r]. *)
Definition offers (r : MemoryRegion) (q : Z) : bool :=
  usable_type (r_type r) && (q <? kPmmBitmapPages) && contained (r_base r) (r_length r) q.

Lemma add_region_spec r s :
  pmm_core s -> region_ok r ->
  pmm_core (add_region r s) /\ scan_hint_ (add_region r s) = scan_hint_ s /\
  diagnostics_ (add_region r s) = diagnostics_ s /\
  (forall q, 0 <= q ->
     is_used q (add_region r s) = is_used q s && negb ((0x100 <=? q) && offers r q)).
Proof.
  intros H (Hb & Hl & Hr). unfold add_region.
  rewrite (w64_small (r_base r + r_length r)), align_down_page, align_up_page
    by (unfold u64; lia).
  set (last := if _ <? (_ / 4096) then _ else _).
  assert (Hlast : last = Z.min kPmmBitmapPages ((r_base r + r_length r) / 4096))
    by (unfold last; case_match; bsimp; lia).
  set (s1 := if st_highest_physical _ <? _ then _ else s).
  assert (H1 : bitmap_ s1 = bitmap_ s /\ total_pages_ s1 = total_pages_ s /\
    free_pages_ s1 = free_pages_ s /\ scan_hint_ s1 = scan_hint_ s /\
    diagnostics_ s1 = diagnostics_ s) by (unfold s1; case_match; done).
  destruct H1 as (E1 & E2 & E3 & E4 & E5).
  set (s2 := if total_pages_ s1 <? _ then _ else s1).
  pose proof (core_total _ H).
  assert (H2 : bitmap_ s2 = bitmap_ s /\ total_pages_ s2 = Z.max (total_pages_ s) last /\
    free_pages_ s2 = free_pages_ s /\ scan_hint_ s2 = scan_hint_ s /\
    diagnostics_ s2 = diagnostics_ s).
  { unfold s2. rewrite E2. destruct (Z.ltb_spec (total_pages_ s) last); simpl;
      split_and!; try done; lia. }
  destruct H2 as (G1 & G2 & G3 & G4 & G5).
  assert (Hc2 : pmm_core s2) by (apply (core_grow s); [done..|lia]).
  unfold offers, usable_type. case_bool_decide as Ht; cbn [andb].
  - set (s3 := s2 <| stats_ ::= _ |>).
    assert (Hc3 : pmm_core s3) by (by apply (core_transfer s2)).
    destruct (release_pages_spec ((r_base r + 4095) / 4096) last s3 Hc3)
      as (Hc & (F1 & F2 & F3 & F4) & Hq).
    { apply Z.div_pos; lia. }
    { unfold s3. simpl. lia. }
    split_and!; [done|by rewrite F2|by rewrite F4|].
    intros q Hq0. rewrite Hq, (is_used_bitmap q s3 s) by done. f_equal. f_equal.
    unfold contained. destruct (Z.leb_spec 0x100 q), (Z.ltb_spec q kPmmBitmapPages),
      (Z.leb_spec ((r_base r + 4095) / 4096) q), (Z.ltb_spec q ((r_base r + r_length r) / 4096)),
      (Z.ltb_spec q (Z.max ((r_base r + 4095) / 4096) last)); simpl; try lia; done.
  - split_and!; try done; [by apply (core_transfer s2)|].
    intros q Hq0. rewrite andb_false_r, andb_true_r. by apply is_used_bitmap.
Qed.

(** ** Initialization *)

Definition range_ok (r : Z * Z) : Prop := 0 <= r.1 /\ 0 <= r.2 /\ r.1 + r.2 + 4095 < two64.

(** What is in memory at boot: [occupied boot base len] is a structure of [len] bytes
    at [base] that the handoff describes. *)
Inductive occupied (boot : BootInfo) : Z -> Z -> Prop :=
| occ_kernel : occupied boot (kernel_physical_base boot) (kernel_physical_end boot - kernel_physical_base boot)
| occ_init : occupied boot (user_init_base boot) (user_init_size boot)
| occ_module_table :
    occupied boot (boot_modules boot) (Z.of_nat (length (boot_module_list boot)) * sizeof_BootModule)
| occ_module m : m ∈ boot_module_list boot -> occupied boot (m_base m) (m_size m)
| occ_boot_info : occupied boot (boot_address boot) sizeof_BootInfo
| occ_memory_map :
    occupied boot (memory_map boot) (Z.of_nat (length (memory_map_regions boot)) * memory_map_descriptor_size boot)
| occ_framebuffer :
    occupied boot (fb_base boot) (fb_pixels_per_scanline boot * fb_height boot * fb_bytes_per_pixel boot)
| occ_rsdp : rsdp boot <> 0 -> occupied boot (rsdp boot - rsdp boot mod 4096) 4096.

(** The boot handoff describes ranges that do not wrap around the address space. *)
Definition boot_ok (boot : BootInfo) : Prop :=
  Forall region_ok (memory_map_regions boot) /\ (forall base len, occupied boot base len -> range_ok (base, len)).

(** The ranges [initialize] reserves are the first megabyte and those structures. *)
Lemma reserved_ranges_occupied boot base len :
  boot_ok boot -> (base, len) ∈ reserved_ranges boot <-> (base, len) = (0, 0x100000) \/ occupied boot base len.
Proof.
  intros [_ Hok].
  assert (Hw : forall b l, occupied boot b l -> w64 l = l).
  { intros b l Ho. destruct (Hok b l Ho) as (? & ? & ?). cbn in *. apply w64_small. unfold u64. lia. }
  assert (Hr : rsdp boot <> 0 -> align_down (rsdp boot) kPageSize = rsdp boot - rsdp boot mod 4096).
  { intros Hne. apply align_down_4096. destruct (Hok _ _ (occ_rsdp boot Hne)) as (? & _ & ?). cbn in *.
    unfold u64. pose proof (Z.mod_pos_bound (rsdp boot) 4096). lia. }
  assert (Hf : w64 (w64 (fb_pixels_per_scanline boot * fb_height boot) * fb_bytes_per_pixel boot) =
               fb_pixels_per_scanline boot * fb_height boot * fb_bytes_per_pixel boot).
  { rewrite <- (Hw _ _ (occ_framebuffer boot)). unfold w64. by rewrite Z.mul_mod_idemp_l. }
  unfold reserved_ranges. rewrite Hf, (Hw _ _ (occ_kernel boot)), (Hw _ _ (occ_module_table boot)),
    (Hw _ _ (occ_memory_map boot)). rewrite !elem_of_app, !elem_of_cons, !elem_of_nil.
  split.
  - intros Hin. destruct_or!; simplify_eq; auto using occupied.
    + apply list_elem_of_fmap in Hin as (m & [= -> ->] & Hm). right. by constructor.
    + destruct (Z.eqb_spec (rsdp boot) 0) as [|Hne]; [by apply elem_of_nil in Hin|].
      apply list_elem_of_singleton in Hin as [= -> ->]. rewrite Hr by done. right. by constructor.
  - intros [[= -> ->]|Ho]; [tauto|]. destruct Ho as [| | |m Hm| | | |Hne]; try tauto.
    + right. left. apply list_elem_of_fmap. eauto.
    + do 3 right. rewrite (proj2 (Z.eqb_neq _ 0) Hne), Hr by done. by apply list_elem_of_singleton.
Qed.

Lemma add_regions_spec rs s :
  Forall region_ok rs -> pmm_core s ->
  let u := foldl (fun s r => add_region r s) s rs in
  pmm_core u /\ scan_hint_ u = scan_hint_ s /\ diagnostics_ u = diagnostics_ s /\
  (forall q, 0 <= q ->
     is_used q u = is_used q s && negb ((0x100 <=? q) && existsb (fun r => offers r q) rs)).
Proof.
  intros Hrs. revert s. induction Hrs as [|r rs Hr Hrs IH]; intros s H; simpl.
  - split_and!; try done. intros. by rewrite andb_false_r, andb_true_r.
  - destruct (add_region_spec r s H Hr) as (Hc & Hh & Hd & Hq).
    destruct (IH _ Hc) as (Hc' & Hh' & Hd' & Hq').
    split_and!; [done|congruence..|]. intros q Hq0. rewrite Hq', Hq by done.
    destruct (is_used q s), (0x100 <=? q), (offers r q); done.
Qed.

Lemma mark_ranges_used_spec rs s :
  Forall range_ok rs -> pmm_core s ->
  let u := foldl (fun s r => mark_range_used r.1 r.2 s) s rs in
  pmm_core u /\ scan_hint_ u = scan_hint_ s /\ diagnostics_ u = diagnostics_ s /\
  (forall q, 0 <= q ->
     is_used q u = is_used q s || existsb (fun r => overlaps r.1 r.2 q) rs).
Proof.
  intros Hrs. revert s. induction Hrs as [|r rs Hr Hrs IH]; intros s H; simpl.
  - split_and!; try done. intros. by rewrite orb_false_r.
  - destruct Hr as (Hr1 & Hr2 & Hr3).
    destruct (mark_range_used_spec r.1 r.2 s H Hr1 Hr2 Hr3) as (Hc & Ht & Hh & Hd & Hq).
    destruct (IH _ Hc) as (Hc' & Hh' & Hd' & Hq').
    split_and!; [done|congruence..|]. intros q Hq0. by rewrite Hq', Hq, orb_assoc by done.
Qed.

Lemma update_peak_used_spec s :
  pmm_core s ->
  pmm_core (update_peak_used s) /\ bitmap_ (update_peak_used s) = bitmap_ s /\
  total_pages_ (update_peak_used s) = total_pages_ s /\
  free_pages_ (update_peak_used s) = free_pages_ s /\
  scan_hint_ (update_peak_used s) = scan_hint_ s /\ stats_ (update_peak_used s) = stats_ s /\
  peak_used_pages (diagnostics_ (update_peak_used s)) =
    Z.max (peak_used_pages (diagnostics_ s)) (total_pages_ s - free_pages_ s).
Proof.
  intros H. pose proof (core_free_bound _ H). pose proof (core_total _ H).
  unfold kPmmBitmapPages in *. unfold update_peak_used. rewrite w64_small by word_lia.
  destruct (Z.ltb_spec (peak_used_pages (diagnostics_ s)) (total_pages_ s - free_pages_ s)); simpl.
  - split_and!; try done; [by apply (core_transfer s)|lia].
  - split_and!; try done. lia.
Qed.

Lemma sync_stats_wf s u :
  pmm_core s -> 0x100 <= scan_hint_ s <= Z.max 0x100 (total_pages_ s) ->
  total_pages_ s - free_pages_ s <= peak_used_pages (diagnostics_ s) ->
  u = sync_stats s -> pmm_wf u.
Proof.
  intros H Hh Hp ->. pose proof (core_free_bound _ H). pose proof (core_total _ H).
  unfold kPmmBitmapPages in *. constructor; simpl; try done.
  - by apply (core_transfer s).
  - by rewrite w64_small by word_lia.
Qed.

(** [sync_stats] then [update_peak_used], the tail of every allocation. *)
Lemma sync_peak_wf s t :
  pmm_core s -> 0x100 <= scan_hint_ s <= Z.max 0x100 (total_pages_ s) ->
  st_free_pages (stats_ s) = free_pages_ s ->
  st_used_pages (stats_ s) = total_pages_ s - free_pages_ s ->
  t = update_peak_used s -> pmm_wf t.
Proof.
  intros H Hh H1 H2 ->. destruct (update_peak_used_spec s H) as (Hc & Hb & Ht & Hf & Hs & Hst & Hp).
  constructor; rewrite ?Ht, ?Hf, ?Hs, ?Hst, ?Hp; try done. lia.
Qed.

Lemma initialize_cases boot s :
  Forall region_ok (memory_map_regions boot) -> Forall range_ok (reserved_ranges boot) ->
  pmm_wf (initialize boot s) /\
  (forall q, 0 <= q ->
     page_free (initialize boot s) q =
       (0x100 <=? q) && existsb (fun r => offers r q) (memory_map_regions boot)
       && negb (existsb (fun r => overlaps r.1 r.2 q) (reserved_ranges boot))).
Proof.
  intros Hm Hr. unfold initialize.
  set (s0 := mkPmm _ _ _ _ _ _).
  assert (Hu0 : forall q, 0 <= q -> is_used q s0 = true).
  { intros q Hq. destruct (Z.ltb_spec q kPmmBitmapPages).
    - rewrite is_used_testbit by lia. simpl. rewrite sa_get_const.
      change 0xff with (Z.ones 8). apply Z.ones_spec_low. apply Z.mod_pos_bound. lia.
    - unfold is_used. by replace (kPmmBitmapPages <=? q) with true by (symmetry; apply Z.leb_le; lia). }
  assert (Hc0 : pmm_core s0) by (constructor; simpl; [unfold kPmmBitmapPages; lia|auto with lia..|done]).
  destruct (add_regions_spec _ s0 Hm Hc0) as (Hc1 & Hh1 & Hd1 & Hq1).
  set (s1 := foldl _ s0 _) in *.
  destruct (mark_ranges_used_spec _ s1 Hr Hc1) as (Hc2 & Hh2 & Hd2 & Hq2).
  set (s2 := foldl _ s1 _) in *.
  set (s3 := sync_stats _).
  assert (Hc3 : pmm_core s3) by (by apply (core_transfer s2)).
  pose proof (core_free_bound _ Hc2). pose proof (core_total _ Hc2). unfold kPmmBitmapPages in *.
  split.
  - apply (sync_peak_wf s3); try done.
    + unfold s3. simpl. rewrite Hh2, Hh1. simpl. lia.
    + unfold s3. simpl. by rewrite w64_small by word_lia.
  - intros q Hq. unfold page_free.
    destruct (update_peak_used_spec s3 Hc3) as (_ & Hb & _).
    rewrite (is_used_bitmap q _ s2) by done. rewrite Hq2, Hq1, Hu0 by done.
    destruct (0x100 <=? q), (existsb _ (memory_map_regions boot)),
      (existsb _ (reserved_ranges boot)); done.
Qed.

Lemma initialize_spec boot s :
  boot_ok boot ->
  pmm_wf (initialize boot s) /\
  (forall q, 0 <= q ->
     page_free (initialize boot s) q = true <->
       0x100 <= q /\ (exists r, r ∈ memory_map_regions boot /\ offers r q = true) /\
       (forall base len, occupied boot base len -> overlaps base len q = false)).
Proof.
  intros Hok. destruct (initialize_cases boot s) as [Hw Hq]; [apply Hok|..].
  { apply Forall_forall. intros [b l] Hin. apply reserved_ranges_occupied in Hin as [[= -> ->]|Ho]; [|by apply Hok|done].
    split_and!; by vm_compute. }
  split; [done|]. intros q H0. rewrite Hq, !andb_true_iff, negb_true_iff, Z.leb_le, existsb_exists by done.
  rewrite <- not_true_iff_false, existsb_exists. setoid_rewrite <- list_elem_of_In. split.
  - intros [[Hlo Hreg] Hno]. split_and!; [done..|]. intros b l Ho. apply not_true_iff_false. intros Hov. apply Hno.
    exists (b, l). split; [|done]. apply reserved_ranges_occupied; [done|by right].
  - intros (Hlo & Hreg & Hno). split; [done|]. intros ([b l] & Hin & Hov).
    apply reserved_ranges_occupied in Hin as [[= -> ->]|Ho]; [|by rewrite Hno in Hov|done].
    unfold overlaps in Hov. cbn [fst snd] in Hov. apply andb_true_iff in Hov as [_ Hov]. apply Z.ltb_lt in Hov.
    change ((0 + 0x100000 + 4095) / 4096) with 0x100 in Hov. lia.
Qed.

(** C9. [initialize] leaves the manager well formed, and a frame is free exactly
    when it lies above the first megabyte, inside a usable or boot-services
    region of the memory map, and outside the kernel image, the first user program,
    the boot modules and their table, the handoff structure, the memory map, the
    framebuffer and the page of the RSDP. *)
Theorem initialize_free_pages boot s :
  boot_ok boot ->
  pmm_wf (initialize boot s) /\
  (forall q, 0 <= q ->
     page_free (initialize boot s) q = true <->
       0x100 <= q /\ (exists r, r ∈ memory_map_regions boot /\ offers r q = true) /\
       (forall base len, occupied boot base len -> overlaps base len q = false)).
Proof. apply initialize_spec. Qed.

(** ** Single-page allocation *)

Lemma claim_page_spec p s :
  pmm_wf s -> 0x100 <= p < total_pages_ s -> is_used p s = false ->
  pmm_wf (claim_page p s) /\ total_pages_ (claim_page p s) = total_pages_ s /\
  free_pages_ (claim_page p s) = free_pages_ s - 1 /\
  (forall q, 0 <= q -> is_used q (claim_page p s) = is_used q s || (p =? q)).
Proof.
  intros H Hp Hu. pose proof (wf_core _ H) as Hc.
  pose proof (core_free_bound _ Hc). pose proof (core_total _ Hc). unfold kPmmBitmapPages in *.
  assert (free_pages_ s <> 0).
  { rewrite (core_count _ Hc), count_range_zero. intros E. specialize (E p Hp).
    unfold page_free in E. by rewrite Hu in E. }
  pose proof (set_used_frame p true s) as (F1 & F2 & F3 & F4 & F5).
  unfold claim_page. set (s1 := set_used p true s <| free_pages_ ::= dec64 |>).
  destruct (core_flip p true s s1) as [Hc1 Hq1]; try done.
  { unfold s1. simpl. rewrite F2. unfold dec64. apply w64_small. word_lia. }
  assert (Hf1 : free_pages_ s1 = free_pages_ s - 1).
  { unfold s1. simpl. rewrite F2. unfold dec64. apply w64_small. word_lia. }
  set (s2 := sync_stats s1 <| scan_hint_ := _ |> <| diagnostics_ ::= _ |>).
  assert (Hc2 : pmm_core s2) by (by apply (core_transfer s1)).
  destruct (update_peak_used_spec s2 Hc2) as (_ & Hb & Ht & Hf & _).
  split_and!.
  - apply (sync_peak_wf s2); try done.
    + unfold s2. simpl. rewrite w64_small by word_lia. rewrite F1. lia.
    + unfold s2. simpl. fold s1. rewrite F1, F2. unfold dec64.
      rewrite (w64_small (free_pages_ s - 1)), w64_small by word_lia. done.
  - rewrite Ht. unfold s2. simpl. done.
  - rewrite Hf. exact Hf1.
  - intros q Hq. rewrite (is_used_bitmap q _ s1) by done. rewrite Hq1 by done.
    destruct (p =? q); [by rewrite orb_true_r|by rewrite orb_false_r].
Qed.

Lemma wf_diag s d :
  pmm_wf s -> peak_used_pages d = peak_used_pages (diagnostics_ s) ->
  pmm_wf (s <| diagnostics_ := d |>).
Proof.
  intros [Hc Hh Hf Hu Hp] E. constructor; simpl; try done; [by apply (core_transfer s)|].
  by rewrite E.
Qed.

(** What a successful single-page allocation does to the pool. *)
Definition took_page (s s' : PhysicalMemoryManager) (a : Z) : Prop :=
  a mod 4096 = 0 /\ 0x100 <= a / 4096 < total_pages_ s /\
  page_free s (a / 4096) = true /\ free_pages_ s' = free_pages_ s - 1 /\
  (forall q, 0 <= q -> page_free s' q = page_free s q && negb (a / 4096 =? q)).

Lemma allocate_page_cases s :
  pmm_wf s ->
  pmm_wf (allocate_page s).1 /\ total_pages_ (allocate_page s).1 = total_pages_ s /\
  ((allocate_page s).2 = 0 /\ free_pages_ s = 0 /\
     bitmap_ (allocate_page s).1 = bitmap_ s /\
     free_pages_ (allocate_page s).1 = free_pages_ s \/
   (allocate_page s).2 <> 0 /\ took_page s (allocate_page s).1 (allocate_page s).2).
Proof.
  intros H. unfold allocate_page.
  set (s0 := s <| diagnostics_ ::= _ |>).
  assert (H0 : pmm_wf s0) by (by apply wf_diag).
  pose proof (wf_core _ H0) as Hc0. pose proof (core_total _ Hc0) as Htot.
  unfold kPmmBitmapPages in *.
  assert (Hclaim : forall p, 0x100 <= p < total_pages_ s0 -> negb (is_used p s0) = true ->
    pmm_wf (claim_page p s0) /\ total_pages_ (claim_page p s0) = total_pages_ s /\
    (w64 (p * kPageSize) = 0 /\ free_pages_ s = 0 /\ bitmap_ (claim_page p s0) = bitmap_ s /\
       free_pages_ (claim_page p s0) = free_pages_ s \/
     w64 (p * kPageSize) <> 0 /\ took_page s (claim_page p s0) (w64 (p * kPageSize)))).
  { intros p Hp Hu. apply negb_true_iff in Hu.
    destruct (claim_page_spec p s0 H0 Hp Hu) as (Hw & Ht & Hf & Hq).
    split_and!; [done..|]. right. unfold kPageSize. rewrite w64_small by word_lia.
    split; [lia|]. unfold took_page. rewrite Z.div_mul, Z_mod_mult by lia.
    split_and!; try done; try (simpl in *; lia).
    - unfold page_free. by rewrite (is_used_bitmap p s s0), Hu.
    - intros q Hq0. unfold page_free. rewrite Hq, negb_orb by done. done. }
  destruct (find_first _ (scan_hint_ s0) (total_pages_ s0)) as [p|] eqn:E1; cbn [fst snd].
  { apply find_first_Some in E1 as (Hr & Hu & _). apply Hclaim; [|done].
    pose proof (wf_hint _ H0). lia. }
  destruct (find_first _ 0x100 (scan_hint_ s0)) as [p|] eqn:E2; cbn [fst snd].
  { apply find_first_Some in E2 as (Hr & Hu & _). apply Hclaim; [|done].
    apply page_free_range; [done|lia|done]. }
  split_and!; [apply (wf_diag s0); done|done|]. left. split_and!; try done.
  change (free_pages_ s) with (free_pages_ s0). rewrite (core_count _ Hc0).
  apply count_range_zero. intros k Hk.
  rewrite find_first_None in E1, E2. unfold page_free.
  destruct (Z.ltb_spec k (scan_hint_ s0)); [apply E2|apply E1]; lia.
Qed.

(** C10. [allocate_page] returns a page-aligned frame that was free, marks
    exactly that frame used, decrements the free count and keeps the manager
    well formed; every other frame keeps its state. *)
Theorem allocate_page_takes_free_page s s' a :
  pmm_wf s -> allocate_page s = (s', a) -> a <> 0 -> pmm_wf s' /\ took_page s s' a.
Proof.
  intros H E Ha. destruct (allocate_page_cases s H) as (Hw & _ & Hcase).
  rewrite E in *. simpl in *. split; [done|]. destruct Hcase as [[? _]|[_ ?]]; done.
Qed.

(** [allocate_page] fails exactly when no frame is free: the two scans
    together visit the whole pool. *)
Theorem allocate_page_fails_iff_empty s :
  pmm_wf s -> ((allocate_page s).2 = 0 <-> free_pages_ s = 0).
Proof.
  intros H. destruct (allocate_page_cases s H) as (_ & _ & Hcase).
  destruct Hcase as [(? & ? & _)|(Hne & _ & Hr & Hfr & _)]; [tauto|].
  split; [tauto|]. intros Hz. exfalso.
  rewrite (core_count _ (wf_core _ H)), count_range_zero in Hz.
  rewrite Hz in Hfr by done. done.
Qed.

(** ** Contiguous allocation *)

(** [n] consecutive free frames starting at [a]. *)
Definition run_free (s : PhysicalMemoryManager) (a n : Z) : Prop :=
  forall q, a <= q < a + n -> page_free s q = true.

(** The state of a run scan before it looks at page [i]: the current run is
    the maximal one that ends at [i]. *)
Definition run_at (s : PhysicalMemoryManager) (i run : Z) : Prop :=
  0 <= run /\ 0x100 <= i - run /\ run_free s (i - run) run /\
  (i - run = 0x100 \/ page_free s (i - run - 1) = false).

Lemma run_at_start s : run_at s 0x100 0.
Proof. unfold run_at, run_free. split_and!; auto with lia. Qed.

Lemma run_at_free s i run :
  run_at s i run -> page_free s i = true -> run_at s (i + 1) (run + 1).
Proof.
  intros (H1 & H2 & H3 & H4) Hf. unfold run_at.
  replace (i + 1 - (run + 1)) with (i - run) by lia. split_and!; try done; [lia|].
  intros q Hq. destruct (decide (q = i)) as [->|]; [done|]. apply H3. lia.
Qed.

Lemma run_at_used s i run :
  run_at s i run -> page_free s i = false -> run_at s (i + 1) 0.
Proof.
  intros (H1 & H2 & H3 & H4) Hf. unfold run_at, run_free.
  replace (i + 1 - 0) with (i + 1) by lia. replace (i + 1 - 1) with i by lia.
  split_and!; auto with lia.
Qed.

(** A free run that ends at or before [i] either lies before the current run
    or fits in it. *)
Lemma run_at_fits s i run a n :
  run_at s i run -> 0 < n -> run_free s a n -> 0x100 <= a -> a + n <= i ->
  a + n < i - run \/ i - run <= a.
Proof.
  intros (H1 & H2 & H3 & H4) Hn Hr Ha Hi.
  destruct H4 as [H4|H4]; [lia|].
  destruct (decide (a <= i - run - 1 < a + n)) as [Hin|]; [|lia].
  rewrite Hr in H4 by lia. done.
Qed.

Lemma scan_run_step_inv n s i st :
  0x100 <= i < total_pages_ s -> total_pages_ s <= kPmmBitmapPages -> 0 < n ->
  run_at s i st.2 /\ st.2 < n /\ (st.2 <> 0 -> st.1 = i - st.2) /\
    (forall a, 0x100 <= a -> a + n <= i -> ~ run_free s a n) ->
  flow_spec
    (fun st => run_at s (i + 1) st.2 /\ st.2 < n /\ (st.2 <> 0 -> st.1 = i + 1 - st.2) /\
       (forall a, 0x100 <= a -> a + n <= i + 1 -> ~ run_free s a n))
    (fun a => 0x100 <= a /\ a + n <= total_pages_ s /\ run_free s a n)
    (scan_run_step n s i st).
Proof.
  destruct st as [rs run]; simpl. intros Hi Hk Hn (Hat & Hlt & Hrs & Hno).
  unfold kPmmBitmapPages in *. fold (page_free s i). destruct (page_free s i) eqn:Hf.
  - pose proof (run_at_free _ _ _ Hat Hf) as Hat'.
    assert (0 <= run <= i) by (destruct Hat; lia). rewrite w64_small by word_lia.
    assert (Hst : (if run =? 0 then i else rs) = i - run)
      by (destruct (Z.eqb_spec run 0); [lia|by apply Hrs]).
    rewrite Hst. destruct (Z.eqb_spec (run + 1) n) as [E|E]; simpl.
    + destruct Hat' as (_ & H2 & H3 & _). replace (i + 1 - (run + 1)) with (i - run) in * by lia.
      rewrite <- E. split_and!; [lia|lia|done].
    + split_and!; [done|lia|lia|]. intros a Ha Hle Hr.
      destruct (run_at_fits s (i + 1) (run + 1) a n Hat' Hn Hr Ha Hle); [|lia].
      apply (Hno a Ha ltac:(lia) Hr).
  - simpl. split_and!; [by eapply run_at_used|lia|lia|]. intros a Ha Hle Hr.
    destruct (decide (a + n <= i)) as [Hd|Hd]; [by apply (Hno a)|].
    rewrite Hr in Hf by lia. done.
Qed.

Lemma scan_run_spec n s :
  0 <= total_pages_ s <= kPmmBitmapPages -> 0 < n ->
  match scan_run n s with
  | Stop a => 0x100 <= a /\ a + n <= total_pages_ s /\ run_free s a n
  | Next _ => forall a, 0x100 <= a -> a + n <= total_pages_ s -> ~ run_free s a n
  end.
Proof.
  intros Ht Hn. unfold scan_run.
  pose proof (loop_range_inv
    (fun i st => run_at s i st.2 /\ st.2 < n /\ (st.2 <> 0 -> st.1 = i - st.2) /\
       (forall a, 0x100 <= a -> a + n <= i -> ~ run_free s a n))
    (fun a => 0x100 <= a /\ a + n <= total_pages_ s /\ run_free s a n)
    0x100 (total_pages_ s) (scan_run_step n s) (0, 0)) as Hl.
  destruct (loop_range _ _ _ _) as [st|a]; simpl in Hl; [intros a Ha Hle|]; apply Hl; try lia.
  1, 3: split_and!; [apply run_at_start|lia|done|intros; lia].
  all: intros; apply scan_run_step_inv; [lia..|done].
Qed.

Lemma claim_run_bits a n s :
  0 <= a -> 0 <= n -> a + n <= kPmmBitmapPages ->
  let u := for_range a (a + n) (fun p s => set_used p true s) s in
  (forall q, 0 <= q -> is_used q u = is_used q s || ((a <=? q) && (q <? a + n))) /\
  same_frame s u /\ free_pages_ u = free_pages_ s.
Proof.
  intros Ha Hn Hb.
  pose proof (for_range_inv
    (fun i u => (forall q, 0 <= q -> is_used q u = is_used q s || ((a <=? q) && (q <? i))) /\
       same_frame s u /\ free_pages_ u = free_pages_ s) a (a + n)
    (fun p s => set_used p true s) s) as Hl.
  rewrite Z.max_r in Hl by lia. apply Hl; clear Hl.
  - split_and!; try done. intros. by rewrite in_range_nil, orb_false_r.
  - intros i u Hi (Hq & (F1 & F2 & F3 & F4) & Hf).
    pose proof (set_used_frame i true u) as (G1 & G2 & G3 & G4 & G5).
    split_and!; [|split_and!; congruence|congruence].
    intros q Hq0. rewrite is_used_set_used, Hq, in_range_step, orb_assoc by lia.
    destruct (i =? q); by rewrite ?orb_true_r, ?orb_false_r.
Qed.

Lemma count_run a n s t lo hi :
  lo <= a -> 0 <= n -> a + n <= hi -> run_free s a n ->
  (forall q, lo <= q < hi -> page_free t q = page_free s q && negb ((a <=? q) && (q <? a + n))) ->
  count_range (page_free t) lo hi = count_range (page_free s) lo hi - n.
Proof.
  intros Hlo Hn Hhi Hr Hq.
  rewrite (count_range_split (page_free s) lo a hi), (count_range_split (page_free t) lo a hi) by lia.
  rewrite (count_range_split (page_free s) a (a + n) hi),
    (count_range_split (page_free t) a (a + n) hi) by lia.
  rewrite (count_range_all (page_free s) a (a + n)) by (lia || (intros; apply Hr; lia)).
  assert (Hz : count_range (page_free t) a (a + n) = 0).
  { apply count_range_zero. intros k Hk. rewrite Hq by lia.
    destruct (Z.leb_spec a k), (Z.ltb_spec k (a + n)); lia. }
  rewrite Hz.
  rewrite (count_range_ext (page_free t) (page_free s) lo a), (count_range_ext (page_free t) (page_free s) (a + n) hi); [lia|..].
  all: intros k Hk; rewrite Hq by lia;
    destruct (Z.leb_spec a k), (Z.ltb_spec k (a + n)); try lia; by rewrite andb_true_r.
Qed.

Lemma claim_run_spec a n s :
  pmm_wf s -> 0x100 <= a -> 0 < n -> a + n <= total_pages_ s -> run_free s a n ->
  pmm_wf (claim_run a n s) /\ free_pages_ (claim_run a n s) = free_pages_ s - n /\
  (forall q, 0 <= q ->
     page_free (claim_run a n s) q = page_free s q && negb ((a <=? q) && (q <? a + n))).
Proof.
  intros H Ha Hn Ht Hr. pose proof (wf_core _ H) as Hc.
  pose proof (core_free_bound _ Hc). pose proof (core_total _ Hc). unfold kPmmBitmapPages in *.
  unfold claim_run. rewrite !(w64_small (a + n)) by word_lia.
  destruct (claim_run_bits a n s ltac:(lia) ltac:(lia) ltac:(unfold kPmmBitmapPages; lia))
    as (Hq & (F1 & F2 & F3 & F4) & Hf).
  set (u := for_range _ _ _ _) in *.
  assert (Hpf : forall q, 0 <= q -> page_free u q = page_free s q && negb ((a <=? q) && (q <? a + n)))
    by (intros; unfold page_free; rewrite Hq by done; apply negb_orb).
  assert (Hcount : count_range (page_free u) 0x100 (total_pages_ s) = free_pages_ s - n)
    by (rewrite (core_count _ Hc); apply (count_run a); try lia; [done|intros; apply Hpf; lia]).
  pose proof (count_range_bound (page_free u) 0x100 (total_pages_ s)).
  assert (Hfp : w64 (free_pages_ u - n) = free_pages_ s - n)
    by (rewrite Hf; apply w64_small; word_lia).
  set (u1 := u <| free_pages_ := _ |>).
  assert (Hc1 : pmm_core u1).
  { constructor; unfold u1; simpl; rewrite ?F1; [apply Hc|..].
    - intros q Hq0. rewrite (is_used_bitmap q _ u), Hq, (core_low _ Hc) by (done || lia). done.
    - intros q Hq0 Hq1. rewrite (is_used_bitmap q _ u), Hq, (core_high _ Hc) by (done || lia). done.
    - rewrite Hfp, <- Hcount. by apply count_range_ext. }
  set (u2 := sync_stats u1 <| scan_hint_ := _ |> <| diagnostics_ ::= _ |>).
  assert (Hc2 : pmm_core u2) by (by apply (core_transfer u1)).
  destruct (update_peak_used_spec u2 Hc2) as (_ & Hb & _ & Hfr & _).
  split_and!.
  - apply (sync_peak_wf u2); try done; unfold u2; simpl; rewrite ?F1; [lia|].
    rewrite Hfp. by rewrite w64_small by word_lia.
  - rewrite Hfr. exact Hfp.
  - intros q Hq0. rewrite <- Hpf by done. unfold page_free. by rewrite (is_used_bitmap q _ u).
Qed.

Lemma allocate_contiguous_cases n s :
  pmm_wf s -> 0 < n ->
  let s' := (allocate_contiguous n s).1 in
  let r := (allocate_contiguous n s).2 in
  pmm_wf s' /\
  ((r <> 0 /\ r mod 4096 = 0 /\ 0x100 <= r / 4096 /\ r / 4096 + n <= total_pages_ s /\
    run_free s (r / 4096) n /\ free_pages_ s' = free_pages_ s - n /\
    (forall q, 0 <= q -> page_free s' q =
       page_free s q && negb ((r / 4096 <=? q) && (q <? r / 4096 + n)))) \/
   (r = 0 /\ (forall a, 0 <= a -> ~ run_free s a n) /\
    (forall q, page_free s' q = page_free s q))).
Proof.
  intros H Hn. unfold allocate_contiguous. set (s0 := s <| diagnostics_ ::= _ |>).
  assert (H0 : pmm_wf s0) by (by apply wf_diag).
  replace (n =? 0) with false by (symmetry; apply Z.eqb_neq; lia).
  pose proof (wf_core _ H0) as Hc. pose proof (core_total _ Hc) as Ht.
  pose proof (scan_run_spec n s0 Ht Hn) as Hs. unfold kPmmBitmapPages in *.
  destruct (scan_run n s0) as [st|a]; cbn [fst snd].
  - split; [by apply (wf_diag s0)|]. right. split_and!; [done| |done].
    intros a Ha Hr.
    pose proof (page_free_range s0 a Hc Ha (Hr a ltac:(lia))).
    pose proof (page_free_range s0 (a + n - 1) Hc ltac:(lia) (Hr (a + n - 1) ltac:(lia))).
    apply (Hs a); [lia|lia|done].
  - destruct Hs as (Ha & Hle & Hr).
    destruct (claim_run_spec a n s0 H0 Ha Hn Hle Hr) as (Hw & Hf & Hq).
    split; [done|]. left. unfold kPageSize. rewrite w64_small by word_lia.
    rewrite Z.div_mul, Z_mod_mult by lia.
    split_and!; [lia|done|lia|exact Hle|exact Hr|exact Hf|exact Hq].
Qed.

(** [allocate_contiguous n] claims the run it returns, and only that run:
    [n] managed frames that were all free, starting page aligned above the
    first megabyte; and it fails only when no run of [n] free frames exists. *)
Theorem allocate_contiguous_spec n s s' r :
  pmm_wf s -> 0 < n -> allocate_contiguous n s = (s', r) ->
  pmm_wf s' /\
  ((r <> 0 /\ r mod 4096 = 0 /\ 0x100 <= r / 4096 /\ r / 4096 + n <= total_pages_ s /\
    run_free s (r / 4096) n /\ free_pages_ s' = free_pages_ s - n /\
    (forall q, 0 <= q -> page_free s' q =
       page_free s q && negb ((r / 4096 <=? q) && (q <? r / 4096 + n)))) \/
   (r = 0 /\ (forall a, 0 <= a -> ~ run_free s a n) /\
    (forall q, page_free s' q = page_free s q))).
Proof.
  intros H Hn E. pose proof (allocate_contiguous_cases n s H Hn) as Hx. by rewrite E in Hx.
Qed.

(** ** Freeing *)

(** The argument check at the head of [free_contiguous]. *)
Definition free_args_ok (physical n : Z) : bool :=
  negb ((physical =? 0) || negb (Z.land physical (kPageSize - 1) =? 0)
        || (physical / kPageSize <? 0x100) || (n =? 0)).

Lemma free_args_ok_true a n :
  0x100 <= a / 4096 -> a mod 4096 = 0 -> n <> 0 -> free_args_ok a n = true.
Proof.
  intros Ha Hm Hn. unfold free_args_ok, kPageSize.
  rewrite (land_low a 12 ltac:(lia) : Z.land a (4096 - 1) = a mod 4096).
  destruct (Z.eqb_spec a 0); [subst; change (0 / 4096) with 0 in Ha; lia|].
  destruct (Z.eqb_spec (a mod 4096) 0), (Z.ltb_spec (a / 4096) 0x100), (Z.eqb_spec n 0);
    try lia; done.
Qed.

(** The free loop after [i] iterations, from the manager [s]. *)
Definition freed_to (s : PhysicalMemoryManager) (page i : Z)
    (st : PhysicalMemoryManager * bool) : Prop :=
  pmm_core st.1 /\ same_frame s st.1 /\
  (forall q, 0 <= q -> page_free st.1 q = page_free s q
     || ((page <=? q) && (q <? page + i) && (q <? total_pages_ s))) /\
  (st.2 = false -> bitmap_ st.1 = bitmap_ s /\ free_pages_ st.1 = free_pages_ s) /\
  (st.2 = true -> exists q, page <= q < page + i /\ q < total_pages_ s /\ page_free s q = false).

Lemma free_step_spec s page n i st :
  0x100 <= page -> page + n <= two64 -> 0 <= i < n -> freed_to s page i st ->
  freed_to s page (i + 1) (free_step page i st).
Proof.
  destruct st as [u freed]. intros Hp Hn Hi (Hc & (F1 & F2 & F3 & F4) & Hq & Hu & Hf).
  simpl in *. unfold free_step. rewrite w64_small by word_lia.
  pose proof (core_total _ Hc). pose proof (core_free_bound _ Hc). unfold kPmmBitmapPages in *.
  assert (Hext : forall q, (page <=? q) && (q <? page + (i + 1)) =
    ((page <=? q) && (q <? page + i)) || (page + i =? q))
    by (intros; rewrite <- in_range_step by lia; do 2 f_equal; lia).
  assert (Hskip : page_free u (page + i) = true \/ total_pages_ s <= page + i ->
    freed_to s page (i + 1) (u, freed)).
  { intros Hk. unfold freed_to; simpl. split_and!; try done.
    - intros q Hq0. rewrite Hq, Hext by done. destruct (Z.eqb_spec (page + i) q) as [<-|].
      + destruct Hk as [Hk|Hk].
        * rewrite Hq in Hk by lia. rewrite <- andb_assoc. destruct (page_free s (page + i)); [done|].
          simpl in Hk. bsimp. lia.
        * replace (page + i <? total_pages_ s) with false by (symmetry; apply Z.ltb_ge; lia).
          by rewrite !andb_false_r.
      + by rewrite orb_false_r.
    - intros Ht. destruct (Hf Ht) as (q & ? & ? & ?). exists q. split_and!; auto; lia. }
  destruct (Z.leb_spec (total_pages_ u) (page + i)) as [Hge|Hlt]; simpl.
  { apply Hskip. right. lia. }
  destruct (is_used (page + i) u) eqn:Hused; simpl.
  2: { apply Hskip. left. unfold page_free. by rewrite Hused. }
  pose proof (set_used_frame (page + i) false u) as (G1 & G2 & G3 & G4 & G5).
  set (t := set_used (page + i) false u <| free_pages_ ::= inc64 |>).
  destruct (core_flip (page + i) false u t) as [Hct Hqt]; try done; [lia| |].
  { simpl. rewrite G2. unfold inc64. apply w64_small. word_lia. }
  assert (Hsf : page_free s (page + i) = false).
  { destruct (page_free s (page + i)) eqn:E; [|done].
    specialize (Hq (page + i) ltac:(lia)). unfold page_free in Hq at 1. by rewrite Hused, E in Hq. }
  unfold freed_to; simpl. split_and!; [done|split_and!; simpl; congruence| |done|].
  - intros q Hq0. unfold page_free at 1. rewrite Hqt, Hext by done.
    destruct (Z.eqb_spec (page + i) q) as [<-|].
    + replace (page + i <? total_pages_ s) with true by (symmetry; apply Z.ltb_lt; lia).
      by rewrite !orb_true_r.
    + rewrite orb_false_r. by apply Hq.
  - intros _. exists (page + i). split_and!; auto; lia.
Qed.

Lemma free_contiguous_cases a n s :
  pmm_wf s -> free_args_ok a n = true -> 0 <= n -> a / 4096 + n <= two64 ->
  let s' := free_contiguous a n s in
  pmm_wf s' /\ total_pages_ s' = total_pages_ s /\
  (forall q, 0 <= q -> page_free s' q = page_free s q
     || ((a / 4096 <=? q) && (q <? a / 4096 + n) && (q <? total_pages_ s))).
Proof.
  intros H Hok Hn Hb. unfold free_contiguous. set (s0 := s <| diagnostics_ ::= _ |>).
  assert (H0 : pmm_wf s0) by (by apply wf_diag).
  apply negb_true_iff in Hok. rewrite Hok. unfold kPageSize in *.
  assert (Hp : 0x100 <= a / 4096) by (apply orb_false_iff in Hok as [Hok _]; bsimp; lia).
  pose proof (for_range_inv (freed_to s0 (a / 4096)) 0 n (free_step (a / 4096)) (s0, false)) as Hl.
  destruct (for_range 0 n _ _) as [u freed] eqn:Eu.
  rewrite Z.max_r in Hl by lia. destruct Hl as (Hc & (F1 & F2 & F3 & F4) & Hq & Hu & Hf).
  { unfold freed_to; simpl. split_and!; try done; [apply H0|]. intros q Hq0.
    replace (a / 4096 + 0) with (a / 4096) by lia. rewrite in_range_nil. by rewrite orb_false_r. }
  { intros. by apply (free_step_spec s0 _ n). }
  cbn [fst snd] in *. clear Eu.
  set (u1 := if negb freed then _ else u).
  assert (Hu1 : pmm_core u1 /\ bitmap_ u1 = bitmap_ u /\ total_pages_ u1 = total_pages_ u /\
    free_pages_ u1 = free_pages_ u /\ scan_hint_ u1 = scan_hint_ u /\
    peak_used_pages (diagnostics_ u1) = peak_used_pages (diagnostics_ u)).
  { unfold u1. destruct freed; simpl; split_and!; try done. by apply (core_transfer u). }
  destruct Hu1 as (G0 & G1 & G2 & G3 & G4 & G5).
  assert (Hge : free_pages_ s0 <= free_pages_ u).
  { rewrite (core_count _ (wf_core _ H0)), (core_count _ Hc), F1.
    apply count_range_mono. intros k Hk Hfk. rewrite Hq, Hfk by lia. done. }
  assert (Hw : pmm_wf (sync_stats u1)).
  { eapply sync_stats_wf; [exact G0|..|reflexivity].
    - rewrite G4, G2, F2, F1. apply H0.
    - rewrite G2, G3, G5, F1, F4. pose proof (wf_peak _ H0). lia. }
  assert (Hfree : forall q, 0 <= q -> page_free (sync_stats u1) q = page_free s q
     || ((a / 4096 <=? q) && (q <? a / 4096 + n) && (q <? total_pages_ s))).
  { intros q Hq0. unfold page_free at 1. rewrite (is_used_bitmap q _ u) by done. by apply Hq. }
  destruct (Z.ltb_spec (a / 4096) (scan_hint_ (sync_stats u1))) as [Hlt|Hge'].
  2: { split_and!; try done. transitivity (total_pages_ u); done. }
  split_and!; [|transitivity (total_pages_ u); done|].
  - destruct Hw as [W1 W2 W3 W4 W5]. constructor; simpl in *; try done; [|lia].
    by apply (core_transfer (sync_stats u1)).
  - intros q Hq0. rewrite <- Hfree by done. unfold page_free. by rewrite (is_used_bitmap q _ (sync_stats u1)).
Qed.

Lemma free_contiguous_rejects a n s :
  pmm_wf s -> free_args_ok a n = false ->
  pmm_wf (free_contiguous a n s) /\ bitmap_ (free_contiguous a n s) = bitmap_ s /\
  free_pages_ (free_contiguous a n s) = free_pages_ s /\
  invalid_frees (diagnostics_ (free_contiguous a n s)) = inc64 (invalid_frees (diagnostics_ s)).
Proof.
  intros H Hok. unfold free_contiguous. apply negb_false_iff in Hok. rewrite Hok.
  split_and!; try done. by apply (wf_diag s).
Qed.

(** [free_contiguous] frees exactly the managed frames of the range it is
    given when its arguments are acceptable, and leaves the pool alone (only
    counting the attempt) when they are not: a null, unaligned or low address,
    or an empty range. *)
Theorem free_contiguous_spec a n s :
  pmm_wf s -> 0 <= n -> a / 4096 + n <= two64 ->
  pmm_wf (free_contiguous a n s) /\
  (forall q, 0 <= q -> page_free (free_contiguous a n s) q =
     page_free s q || (free_args_ok a n &&
       ((a / 4096 <=? q) && (q <? a / 4096 + n) && (q <? total_pages_ s)))).
Proof.
  intros H Hn Hb. destruct (free_args_ok a n) eqn:Hok.
  - destruct (free_contiguous_cases a n s H Hok Hn Hb) as (Hw & _ & Hq). done.
  - destruct (free_contiguous_rejects a n s H Hok) as (Hw & Hbm & _).
    split; [done|]. intros q Hq. rewrite orb_false_r. unfold page_free.
    by rewrite (is_used_bitmap q _ s).
Qed.

(** The free count is a function of the set of free frames. *)
Lemma free_pages_ext s t :
  pmm_wf s -> pmm_wf t -> total_pages_ t = total_pages_ s ->
  (forall q, 0 <= q -> page_free t q = page_free s q) -> free_pages_ t = free_pages_ s.
Proof.
  intros Hs Ht Htot Hq. rewrite (core_count _ (wf_core _ Hs)), (core_count _ (wf_core _ Ht)), Htot.
  apply count_range_ext. intros; apply Hq; lia.
Qed.

(** Allocating a page and freeing it again gives back the same pool: every
    frame's state and the free count are what they were. *)
Theorem allocate_free_roundtrip s s' a :
  pmm_wf s -> allocate_page s = (s', a) -> a <> 0 ->
  pmm_wf (free_page a s') /\ free_pages_ (free_page a s') = free_pages_ s /\
  (forall q, 0 <= q -> page_free (free_page a s') q = page_free s q).
Proof.
  intros H E Ha. destruct (allocate_page_cases s H) as (Hw & Htot & Hcase).
  rewrite E in *. simpl in *. destruct Hcase as [(? & _)|(_ & Hm & Hr & Hf & _ & Hq)]; [done|].
  set (s1 := s' <| diagnostics_ ::= fun d => d <| free_page_calls ::= inc64 |> |>).
  assert (H1 : pmm_wf s1) by (by apply (wf_diag s')).
  pose proof (core_total _ (wf_core _ H)). unfold kPmmBitmapPages in *.
  destruct (free_contiguous_cases a 1 s1 H1) as (Hw' & Ht' & Hq').
  { by apply free_args_ok_true; [lia|..]. }
  { lia. }
  { word_lia. }
  assert (Hback : forall q, 0 <= q -> page_free (free_page a s') q = page_free s q).
  { intros q Hq0. unfold free_page. fold s1. rewrite Hq' by done.
    change (page_free s1 q) with (page_free s' q). rewrite Hq by done.
    change (total_pages_ s1) with (total_pages_ s'). rewrite Htot.
    destruct (Z.eqb_spec (a / 4096) q) as [<-|Hne].
    - rewrite Hf. destruct (Z.leb_spec (a / 4096) (a / 4096)), (Z.ltb_spec (a / 4096) (a / 4096 + 1)),
        (Z.ltb_spec (a / 4096) (total_pages_ s)); try lia; done.
    - rewrite andb_true_r. destruct (Z.leb_spec (a / 4096) q), (Z.ltb_spec q (a / 4096 + 1));
        try lia; by rewrite orb_false_r. }
  split_and!; [done| |done].
  apply free_pages_ext; try done. unfold free_page. fold s1. by rewrite Ht'.
Qed.

(** ** Free-run statistics *)

Lemma run_count_step_inv b s i st :
  0x100 <= i < total_pages_ s -> total_pages_ s <= kPmmBitmapPages -> 0 < b ->
  run_at s i st.2 /\ 0 <= st.1 <= i - st.2 /\
    (0 < st.1 <-> exists a, 0x100 <= a /\ a + b <= i - st.2 /\ run_free s a b) ->
  let st' := run_count_step b s i st in
  run_at s (i + 1) st'.2 /\ 0 <= st'.1 <= i + 1 - st'.2 /\
    (0 < st'.1 <-> exists a, 0x100 <= a /\ a + b <= i + 1 - st'.2 /\ run_free s a b).
Proof.
  destruct st as [count run]; simpl. intros Hi Hk Hb (Hat & Hc & Hex).
  unfold run_count_step, kPmmBitmapPages in *. fold (page_free s i).
  assert (Hrun : 0 <= run <= i) by (destruct Hat; lia).
  destruct (page_free s i) eqn:Hf; simpl.
  - rewrite w64_small by word_lia. replace (i + 1 - (run + 1)) with (i - run) by lia.
    split_and!; [by apply run_at_free|lia|lia|done].
  - assert (0 <= run / b <= run) by (split; [apply Z.div_pos; lia|apply Z.div_le_upper_bound; nia]).
    rewrite w64_small by word_lia.
    split_and!; [by eapply run_at_used|lia|lia|]. rewrite Z.sub_0_r. split.
    + intros Hpos. destruct (decide (0 < count)) as [Hd|Hd].
      * apply Hex in Hd as (a & ? & ? & ?). exists a. split_and!; auto; lia.
      * assert (b <= run) by (destruct (Z.le_gt_cases b run); [done|rewrite Z.div_small in Hpos by lia; lia]).
        destruct Hat as (? & ? & Hfr & _). exists (i - run). split_and!; [lia|lia|].
        intros q Hq. apply Hfr. lia.
    + intros (a & Ha & Hle & Hr).
      assert (a + b <= i).
      { destruct (decide (a + b <= i)); [done|]. rewrite Hr in Hf by lia. done. }
      destruct (run_at_fits s i run a b Hat Hb Hr Ha ltac:(lia)).
      * enough (0 < count) by lia. apply Hex. exists a. split_and!; auto; lia.
      * enough (0 < run / b) by lia. apply Z.div_str_pos. lia.
Qed.

Lemma free_run_count_runs order s :
  pmm_core s -> 0 <= order <= 20 ->
  (0 < free_run_count order s <->
   exists a, 0x100 <= a /\ a + 2 ^ order <= total_pages_ s /\ run_free s a (2 ^ order)).
Proof.
  intros Hc Ho. pose proof (core_total _ Hc).
  assert (Hb : 1 <= 2 ^ order <= 2 ^ 20).
  { split; [pose proof (Z.pow_pos_nonneg 2 order); lia|apply Z.pow_le_mono_r; lia]. }
  unfold free_run_count, kPmmBitmapPages in *.
  replace (20 <? order) with false by (symmetry; apply Z.ltb_ge; lia).
  rewrite Z.shiftl_1_l, (w64_small (2 ^ order)) by word_lia.
  pose proof (for_range_inv
    (fun i st => run_at s i st.2 /\ 0 <= st.1 <= i - st.2 /\
      (0 < st.1 <-> exists a, 0x100 <= a /\ a + 2 ^ order <= i - st.2 /\ run_free s a (2 ^ order)))
    0x100 (total_pages_ s) (run_count_step (2 ^ order) s) (0, 0)) as Hl.
  destruct (for_range _ _ _ _) as [count run]. cbn [fst snd] in Hl.
  destruct Hl as (Hat & Hcnt & Hex).
  { split_and!; [apply run_at_start|lia|lia|]. split; [lia|]. intros (a & ? & ? & _). lia. }
  { intros. apply run_count_step_inv; [done|unfold kPmmBitmapPages; lia|lia|done]. }
  assert (Hrun : 0 <= run) by (destruct Hat; lia).
  assert (0 <= run / 2 ^ order <= run)
    by (split; [apply Z.div_pos; lia|apply Z.div_le_upper_bound; nia]).
  rewrite w64_small by word_lia. split.
  - intros Hpos. destruct (decide (0 < count)) as [Hd|Hd].
    + apply Hex in Hd as (a & ? & ? & ?). exists a. split_and!; auto. lia.
    + assert (Hle : 2 ^ order <= run).
      { destruct (Z.le_gt_cases (2 ^ order) run); [done|]. rewrite Z.div_small in Hpos by lia. lia. }
      destruct Hat as (? & ? & Hfr & _). exists (Z.max 0x100 (total_pages_ s) - run).
      split_and!; [lia|lia|]. intros q Hq. apply Hfr. lia.
  - intros (a & Ha & Hle & Hr).
    destruct (run_at_fits s (Z.max 0x100 (total_pages_ s)) run a (2 ^ order) Hat
      ltac:(lia) Hr Ha ltac:(lia)).
    + enough (0 < count) by lia. apply Hex. exists a. split_and!; auto. lia.
    + enough (0 < run / 2 ^ order) by lia. apply Z.div_str_pos. lia.
Qed.

(** [free_run_count order] is positive exactly when
    [allocate_contiguous] of [2^order] frames would succeed. *)
Theorem free_run_count_positive order s :
  pmm_wf s -> 0 <= order <= 20 ->
  (0 < free_run_count order s <-> (allocate_contiguous (2 ^ order) s).2 <> 0).
Proof.
  intros H Ho. rewrite free_run_count_runs by (done || apply H).
  assert (0 < 2 ^ order) by (apply Z.pow_pos_nonneg; lia).
  destruct (allocate_contiguous_cases (2 ^ order) s H ltac:(lia)) as [_ [Hr|Hr]].
  - destruct Hr as (Hne & _ & Hlo & Hle & Hf & _). split; [done|]. eauto.
  - destruct Hr as (-> & Hno & _). split; [|done].
    intros (a & Ha & _ & Hr). destruct (Hno a ltac:(lia) Hr).
Qed.

(** ** Concrete runs

    A machine with one megabyte and sixteen frames of memory: the kernel image
    takes the first two of the sixteen, a boot module the fourth. *)

Definition demo_boot : BootInfo :=
  mkBootInfo 0x8000 0 0 0 0 0 0x9000 [mkRegion 0 0x110000 Usable] 24
    0x100000 0x102000 0 0 0xa000 [mkModule 0x103000 0x800].

Definition demo_pmm : PhysicalMemoryManager := initialize demo_boot pmm_zero.

(** A handoff, checked by evaluation. *)
Lemma boot_ok_check boot :
  forallb (fun r => (0 <=? r_base r) && (0 <=? r_length r) && (r_base r + r_length r + 4095 <? two64))
    (memory_map_regions boot) = true ->
  forallb (fun r => (0 <=? r.1) && (0 <=? r.2) && (r.1 + r.2 + 4095 <? two64))
    ([ (kernel_physical_base boot, kernel_physical_end boot - kernel_physical_base boot);
       (user_init_base boot, user_init_size boot);
       (boot_modules boot, Z.of_nat (length (boot_module_list boot)) * sizeof_BootModule);
       (boot_address boot, sizeof_BootInfo);
       (memory_map boot, Z.of_nat (length (memory_map_regions boot)) * memory_map_descriptor_size boot);
       (fb_base boot, fb_pixels_per_scanline boot * fb_height boot * fb_bytes_per_pixel boot);
       (rsdp boot - rsdp boot mod 4096, 4096) ] ++ ((fun m => (m_base m, m_size m)) <$> boot_module_list boot)) = true ->
  boot_ok boot.
Proof.
  rewrite !forallb_forall. setoid_rewrite <- list_elem_of_In. intros Hr Ho. split.
  - apply Forall_forall. intros r Hin. specialize (Hr r Hin). unfold region_ok. bsimp. lia.
  - assert (Hc : forall base len, occupied boot base len -> (base, len) ∈
      ([ (kernel_physical_base boot, kernel_physical_end boot - kernel_physical_base boot);
         (user_init_base boot, user_init_size boot);
         (boot_modules boot, Z.of_nat (length (boot_module_list boot)) * sizeof_BootModule);
         (boot_address boot, sizeof_BootInfo);
         (memory_map boot, Z.of_nat (length (memory_map_regions boot)) * memory_map_descriptor_size boot);
         (fb_base boot, fb_pixels_per_scanline boot * fb_height boot * fb_bytes_per_pixel boot);
         (rsdp boot - rsdp boot mod 4096, 4096) ] ++ ((fun m => (m_base m, m_size m)) <$> boot_module_list boot))).
    { intros base len []; rewrite elem_of_app, !elem_of_cons; try tauto. right. apply list_elem_of_fmap. eauto. }
    intros base len Hin%Hc. specialize (Ho _ Hin). unfold range_ok. bsimp. cbn [fst snd] in *. lia.
Qed.

Lemma demo_boot_ok : boot_ok demo_boot.
Proof. apply boot_ok_check; vm_compute; reflexivity. Qed.

Lemma demo_pmm_wf : pmm_wf demo_pmm.
Proof. apply initialize_spec, demo_boot_ok. Qed.

Lemma initialize_free_pages_witness :
  pmm_wf (initialize demo_boot pmm_zero) /\ page_free (initialize demo_boot pmm_zero) 0x103 <> true /\
  (page_free (initialize demo_boot pmm_zero) 0x102 = true -> forall base len, occupied demo_boot base len -> overlaps base len 0x102 = false).
Proof.
  destruct (initialize_free_pages demo_boot pmm_zero demo_boot_ok) as [Hw Hq].
  split; [exact Hw|]. split.
  - intros Hf. destruct (proj1 (Hq 0x103 ltac:(lia)) Hf) as (_ & _ & Hno).
    discriminate (Hno 0x103000 0x800 (occ_module demo_boot (mkModule 0x103000 0x800) (list_elem_of_here _ _))).
  - intros Hf. destruct (proj1 (Hq 0x102 ltac:(lia)) Hf) as (_ & _ & Hno). exact Hno.
Defined.

Lemma allocate_page_takes_free_page_witness :
  pmm_wf (allocate_page demo_pmm).1 /\ took_page demo_pmm (allocate_page demo_pmm).1 0x102000.
Proof.
  apply (allocate_page_takes_free_page demo_pmm); [exact demo_pmm_wf|vm_compute; reflexivity|].
  discriminate.
Defined.

Lemma allocate_page_fails_iff_empty_witness :
  (allocate_page demo_pmm).2 = 0 <-> free_pages_ demo_pmm = 0.
Proof. apply (allocate_page_fails_iff_empty demo_pmm demo_pmm_wf). Defined.

Lemma allocate_contiguous_spec_witness :
  exists s', allocate_contiguous 4 demo_pmm = (s', 0x104000) /\ pmm_wf s'.
Proof.
  exists (allocate_contiguous 4 demo_pmm).1.
  assert (E : allocate_contiguous 4 demo_pmm = ((allocate_contiguous 4 demo_pmm).1, 0x104000))
    by (vm_compute; reflexivity).
  split; [exact E|]. apply (allocate_contiguous_spec 4 demo_pmm _ _ demo_pmm_wf eq_refl E).
Defined.

Lemma free_contiguous_spec_witness :
  page_free (free_contiguous 0x100000 2 demo_pmm) 0x101 = true.
Proof.
  destruct (free_contiguous_spec 0x100000 2 demo_pmm demo_pmm_wf) as [_ Hq].
  { lia. }
  { vm_compute. discriminate. }
  rewrite (Hq 0x101) by lia. vm_compute. reflexivity.
Defined.

Lemma allocate_free_roundtrip_witness :
  free_pages_ (free_page 0x102000 (allocate_page demo_pmm).1) = free_pages_ demo_pmm.
Proof.
  apply (allocate_free_roundtrip demo_pmm _ 0x102000 demo_pmm_wf);
    [vm_compute; reflexivity|discriminate].
Defined.

Lemma free_run_count_positive_witness :
  0 < free_run_count 3 demo_pmm <-> (allocate_contiguous (2 ^ 3) demo_pmm).2 <> 0.
Proof. apply (free_run_count_positive 3 demo_pmm demo_pmm_wf). lia. Defined.
