(* ===== verification/PageTable.v ===== *)
(** * Page tables in physical memory

    What kernel/src/mm/vmm.cpp and kernel/src/mm/address_space.cpp share: the
    word-addressed memory the tables live in, entry and index decoding, the
    allocation of a missing table, and the tree invariant with the lemmas about
    it.  Both clients reach the frame allocator through the class
    [PageAllocator]; [Pmm] discharges it in PmmFrames.v. *)

From S2P Require Import Prelude.

(** ** Constants and decoding *)

Definition kAddrMask : Z := 0x000ffffffffff000.
Definition PagePresent : Z := 1.
Definition PageWrite : Z := 2.
Definition PageUser : Z := 4.
Definition PageGlobal : Z := 256.

Definition pml4_index (v : Z) : Z := w16 (Z.land (Z.shiftr v 39) 0x1ff).
Definition pdpt_index (v : Z) : Z := w16 (Z.land (Z.shiftr v 30) 0x1ff).
Definition pd_index (v : Z) : Z := w16 (Z.land (Z.shiftr v 21) 0x1ff).
Definition pt_index (v : Z) : Z := w16 (Z.land (Z.shiftr v 12) 0x1ff).

(** [entry & PagePresent] as a condition. *)
Definition present (e : Z) : bool := negb (Z.land e PagePresent =? 0).
(** [reinterpret_cast<uint64_t*>(physical & kAddrMask)]. *)
Definition table (physical : Z) : Z := Z.land physical kAddrMask.
(** The address of [t[i]]. *)
Definition slot (t i : Z) : Z := t + 8 * i.

(** ** The frame allocator, as its clients see it *)

Definition frame_ok (a : Z) : Prop := 0 < a < 2 ^ 52 /\ a mod 4096 = 0.

Class PageAllocator (A : Type) := {
  pa_alloc : A -> A * Z;
  pa_free : Z -> A -> A;
  pa_avail : A -> Z -> bool;
  pa_managed : A -> Z -> bool;
  pa_count : A -> Z;
  pa_wf : A -> Prop;
}.

(** What the allocator promises: a frame it hands out was available and is no
    longer, nothing else changes, 0 means that no frame is left, and a freed
    frame is available again. *)
Class PageAllocatorLaws (A : Type) {PA : PageAllocator A} := {
  pa_alloc_wf s : pa_wf s -> pa_wf (pa_alloc s).1;
  pa_alloc_managed s a : pa_wf s -> pa_managed (pa_alloc s).1 a = pa_managed s a;
  pa_alloc_cases s : pa_wf s ->
    ((pa_alloc s).2 = 0 /\ pa_count s = 0 /\ pa_count (pa_alloc s).1 = 0 /\
       forall a, frame_ok a -> pa_avail (pa_alloc s).1 a = pa_avail s a) \/
    (frame_ok (pa_alloc s).2 /\ pa_avail s (pa_alloc s).2 = true /\
       pa_managed s (pa_alloc s).2 = true /\
       pa_count (pa_alloc s).1 = pa_count s - 1 /\ 0 < pa_count s /\
       forall a, frame_ok a ->
         pa_avail (pa_alloc s).1 a = pa_avail s a && negb (a =? (pa_alloc s).2));
  pa_free_spec s a : pa_wf s -> frame_ok a -> pa_managed s a = true ->
    pa_wf (pa_free a s) /\
    (forall b, pa_managed (pa_free a s) b = pa_managed s b) /\
    pa_count (pa_free a s) = pa_count s + (if pa_avail s a then 0 else 1) /\
    (forall b, frame_ok b -> pa_avail (pa_free a s) b = pa_avail s b || (b =? a));
  pa_count_nonneg s : pa_wf s -> 0 <= pa_count s;
}.

(** ** The machine

    [ram] holds the 64-bit word at each 8-aligned byte address (the kernel runs
    identity mapped, so a physical address is a pointer), [frames] the frame
    allocator; [tlb_log] records the invalidations the kernel asks for. *)

Inductive tlb_event := Invlpg (virt : Z) | ShootdownRemote (virt : Z).

Record machine (A : Type) := mkMachine {
  ram : sarr;
  frames : A;
  cr3 : Z;
  lapic_timer_active : bool;
  tlb_log : list tlb_event;
}.
Arguments mkMachine {A} _ _ _ _ _.
Arguments ram {A} _.
Arguments frames {A} _.
Arguments cr3 {A} _.
Arguments lapic_timer_active {A} _.
Arguments tlb_log {A} _.
#[export] Instance eta_machine A : Eta (machine A) := fun r =>
  mkMachine (ram r) (frames r) (cr3 r) (lapic_timer_active r) (tlb_log r).

Definition entry {A} (M : machine A) (t i : Z) : Z := sa_get (ram M) (slot t i).

(** [memset(page, 0, kPageSize)] and [memcpy(dst, src, kPageSize)] on page
    frames, a word at a time. *)
Definition zero_page (page : Z) (m : sarr) : sarr :=
  for_range 0 512 (fun i m => sa_set m (slot page i) 0) m.
Definition copy_page (dst src : Z) (m : sarr) : sarr :=
  for_range 0 512 (fun i m => sa_set m (slot dst i) (sa_get m (slot src i))) m.

(** The body of both [ensure_table]s; they differ in the flags [tf] of a table
    entry they create.  0 is [nullptr]. *)
Definition ensure_table_with {A} `{PageAllocator A} (tf t index : Z) (M : machine A)
  : machine A * Z :=
  if negb (present (entry M t index)) then
    let '(s, page) := pa_alloc (frames M) in
    let M := M <| frames := s |> in
    if page =? 0 then (M, 0) else
    let M := M <| ram ::= zero_page page |> in
    let M := M <| ram ::= fun m => sa_set m (slot t index) (Z.lor page tf) |> in
    (M, table (entry M t index))
  else (M, table (entry M t index)).

(** ** The tree a root spans

    [table_of m t p] follows the entries [p] from the table [t]; a path of
    three indices leads to a page table, whose entry at a fourth is the
    [leaf]. *)

Fixpoint table_of (m : sarr) (t : Z) (p : list Z) : option Z :=
  match p with
  | [] => Some t
  | i :: p => let e := sa_get m (slot t i) in
              if present e then table_of m (table e) p else None
  end.

Definition leaf (m : sarr) (root : Z) (p : list Z) (i : Z) : option Z :=
  t ← table_of m root p;
  let e := sa_get m (slot t i) in if present e then Some e else None.

Definition idx_ok (i : Z) : Prop := 0 <= i < 512.

(** Paths through the PML4 slots selected by [dom]. *)
Definition vpath (dom : Z -> bool) (p : list Z) : Prop :=
  (length p <= 3)%nat /\ Forall idx_ok p /\ match p with [] => True | i :: _ => dom i = true end.

Definition path_of (v : Z) : list Z := [pml4_index v; pdpt_index v; pd_index v].
(** The virtual page number, 36 bits of it reaching the tables. *)
Definition vpn (v : Z) : Z := (v / 4096) mod 2 ^ 36.

(** The tables below the selected slots form a tree: each is reached by one
    path, is an aligned frame of the pool that the allocator does not hold, and no entry
    above the last level is a large page. *)
Record tree_wf {A} `{PageAllocator A} (dom : Z -> bool) (root : Z) (M : machine A) : Prop := {
  tw_alloc : pa_wf (frames M);
  tw_inj : forall p q t, vpath dom p -> vpath dom q ->
    table_of (ram M) root p = Some t -> table_of (ram M) root q = Some t -> p = q;
  tw_frame : forall p t, vpath dom p -> table_of (ram M) root p = Some t -> frame_ok t;
  tw_used : forall p t, vpath dom p -> table_of (ram M) root p = Some t ->
    pa_avail (frames M) t = false;
  tw_managed : forall p t, vpath dom p -> p <> [] -> table_of (ram M) root p = Some t ->
    pa_managed (frames M) t = true;
  tw_small : forall p t i, vpath dom (p ++ [i]) -> (1 <= length p)%nat ->
    table_of (ram M) root p = Some t -> present (entry M t i) = true ->
    Z.testbit (entry M t i) 7 = false;
}.

(** ** Arithmetic of slots, entries and indices *)

Lemma slot_inj t1 t2 i j :
  frame_ok t1 -> frame_ok t2 -> idx_ok i -> idx_ok j -> slot t1 i = slot t2 j -> t1 = t2 /\ i = j.
Proof.
  unfold frame_ok, idx_ok, slot. intros (? & E1) (? & E2) ? ? E.
  apply Z.mod_divide in E1 as [a ->]; [|done]. apply Z.mod_divide in E2 as [b ->]; [|done]. lia.
Qed.

Lemma zero_page_in page m i : frame_ok page -> idx_ok i -> sa_get (zero_page page m) (slot page i) = 0.
Proof.
  intros Hp Hi. unfold zero_page.
  enough (H : (fun k m => forall j, 0 <= j < k -> sa_get m (slot page j) = 0) (Z.max 0 512)
            (for_range 0 512 (fun i m => sa_set m (slot page i) 0) m)) by (apply H; exact Hi).
  apply for_range_inv; [lia|]. intros k m' Hk IH j Hj. destruct (decide (j = k)) as [->|].
  - apply sa_get_set_eq.
  - rewrite sa_get_set_ne by (unfold slot; lia). apply IH. lia.
Qed.

Lemma zero_page_out page m a :
  (forall i, idx_ok i -> a <> slot page i) -> sa_get (zero_page page m) a = sa_get m a.
Proof.
  intros Ha. unfold zero_page.
  apply (for_range_inv (fun _ m' => sa_get m' a = sa_get m a)); [done|].
  intros k m' Hk IH. rewrite sa_get_set_ne; [done|]. intros E. by apply (Ha k).
Qed.

#[global] Opaque zero_page.

Lemma present_bit e : present e = Z.testbit e 0.
Proof.
  unfold present, PagePresent. rewrite (land_low e 1 ltac:(lia) : Z.land e 1 = e mod 2).
  rewrite Zmod_odd, Z.bit0_odd. by destruct (Z.odd e).
Qed.

Lemma table_spec x : table x = 4096 * ((x / 4096) mod 2 ^ 40).
Proof.
  unfold table. change kAddrMask with (Z.shiftl (Z.ones 40) 12).
  rewrite Z.mul_comm, <- (Z.shiftl_mul_pow2 _ 12), <- Z.land_ones, <- (Z.shiftr_div_pow2 _ 12) by lia.
  apply Z.bits_inj'. intros n Hn. rewrite Z.land_spec, !Z.shiftl_spec by lia.
  destruct (Z.ltb_spec n 12).
  - rewrite !(Z.testbit_neg_r _ (n - 12)) by lia. apply andb_false_r.
  - rewrite Z.land_spec, Z.shiftr_spec by lia. do 2 f_equal. lia.
Qed.

Lemma table_frame a : frame_ok a -> table a = a.
Proof. intros [? E]. rewrite table_spec. apply Z.mod_divide in E as [b ->]; [|done].
  rewrite Z.div_mul, Z.mod_small by lia. lia. Qed.

(** An entry made of a frame and flags below bit 12. *)
Definition table_flags_ok (tf : Z) : Prop :=
  0 <= tf < 4096 /\ Z.testbit tf 0 = true /\ Z.testbit tf 7 = false.

Lemma frame_testbit a n : frame_ok a -> 0 <= n < 12 -> Z.testbit a n = false.
Proof.
  intros [? E] Hn. rewrite <- (Z.mod_pow2_bits_low a 12 n) by lia.
  change (2 ^ 12) with 4096. by rewrite E, Z.bits_0.
Qed.

Lemma table_lor a tf : frame_ok a -> 0 <= tf < 4096 -> table (Z.lor a tf) = a.
Proof.
  intros Ha Htf. rewrite (lor_add a tf 12) by (unfold frame_ok in *; change (2 ^ 12) with 4096; lia).
  destruct Ha as [? E]. rewrite table_spec. apply Z.mod_divide in E as [b ->]; [|done].
  rewrite (Z.add_comm (b * 4096)), Z.div_add, (Z.div_small tf), Z.mod_small by lia. lia.
Qed.

Lemma present_lor a tf : table_flags_ok tf -> present (Z.lor a tf) = true.
Proof. intros (_ & H & _). by rewrite present_bit, Z.lor_spec, H, orb_true_r. Qed.

Lemma small_lor a tf : frame_ok a -> table_flags_ok tf -> Z.testbit (Z.lor a tf) 7 = false.
Proof. intros Ha (_ & _ & H). by rewrite Z.lor_spec, H, frame_testbit by (done || lia). Qed.

Lemma index_spec v k : 0 <= k -> w16 (Z.land (Z.shiftr v k) 0x1ff) = (v / 2 ^ k) mod 512.
Proof.
  intros Hk. rewrite Z.shiftr_div_pow2 by done.
  rewrite (land_low (v / 2 ^ k) 9 ltac:(lia) : Z.land (v / 2 ^ k) 0x1ff = (v / 2 ^ k) mod 512).
  unfold w16. rewrite Z.mod_small; [done|]. pose proof (Z.mod_pos_bound (v / 2 ^ k) 512). lia.
Qed.

Lemma index_ok v k : 0 <= k -> idx_ok (w16 (Z.land (Z.shiftr v k) 0x1ff)).
Proof. intros. rewrite index_spec by done. apply Z.mod_pos_bound. lia. Qed.

Lemma pt_index_ok v : idx_ok (pt_index v).
Proof. apply index_ok. lia. Qed.

Lemma path_of_ok v : Forall idx_ok (path_of v).
Proof. repeat constructor; apply index_ok; lia. Qed.

(** The four indices are the base-512 digits of the page number. *)
Lemma path_of_vpn v :
  vpn v = ((pml4_index v * 512 + pdpt_index v) * 512 + pd_index v) * 512 + pt_index v.
Proof.
  unfold vpn, pml4_index, pdpt_index, pd_index, pt_index. rewrite !index_spec by lia.
  replace (v / 2 ^ 39) with (v / 4096 / 512 / 512 / 512) by (rewrite !Z.div_div by lia; f_equal; lia).
  replace (v / 2 ^ 30) with (v / 4096 / 512 / 512) by (rewrite !Z.div_div by lia; f_equal; lia).
  replace (v / 2 ^ 21) with (v / 4096 / 512) by (rewrite !Z.div_div by lia; f_equal; lia).
  change (2 ^ 12) with 4096. change (2 ^ 36) with 68719476736.
  generalize (v / 4096). intros x. Z.to_euclidean_division_equations. lia.
Qed.

Lemma path_of_inj v w :
  path_of v = path_of w /\ pt_index v = pt_index w <-> vpn v = vpn w.
Proof.
  rewrite !path_of_vpn. pose proof (pt_index_ok v). pose proof (pt_index_ok w).
  pose proof (path_of_ok v) as Hv. pose proof (path_of_ok w) as Hw. unfold path_of, idx_ok in *.
  rewrite !Forall_cons in Hv, Hw. split.
  - intros [[= -> -> ->] ->]. done.
  - intros E. assert (pml4_index v = pml4_index w /\ pdpt_index v = pdpt_index w /\
      pd_index v = pd_index w /\ pt_index v = pt_index w) as (-> & -> & -> & ->) by lia. done.
Qed.

(** ** Following paths *)

Lemma table_of_app m t p q :
  table_of m t (p ++ q) = t' ← table_of m t p; table_of m t' q.
Proof.
  revert t. induction p as [|i p IH]; intros t; simpl; [done|].
  destruct (present _); [apply IH|done].
Qed.

Lemma table_of_snoc m root p t i :
  table_of m root p = Some t ->
  table_of m root (p ++ [i]) =
  if present (sa_get m (slot t i)) then Some (table (sa_get m (slot t i))) else None.
Proof. intros E. rewrite table_of_app, E. simpl. by destruct (present _). Qed.

(** Memories that agree on the entries a path reads lead to the same table. *)
Lemma table_of_agree m m' root q :
  (forall p i r t, q = p ++ i :: r -> table_of m root p = Some t ->
     sa_get m' (slot t i) = sa_get m (slot t i)) ->
  table_of m' root q = table_of m root q.
Proof.
  revert root. induction q as [|i q IH]; intros root Hag; simpl; [done|].
  rewrite (Hag [] i q root) by done. destruct (present _) eqn:E; [|done].
  apply IH. intros p j r t -> Ht. apply (Hag (i :: p) j r t); [done|]. simpl. by rewrite E.
Qed.

Lemma vpath_prefix dom p q : vpath dom (p ++ q) -> vpath dom p.
Proof.
  unfold vpath. rewrite length_app, Forall_app. intros (? & [? _] & Hd).
  split_and!; [lia|done|]. by destruct p.
Qed.

Lemma vpath_idx dom p i r : vpath dom (p ++ i :: r) -> idx_ok i.
Proof. unfold vpath. rewrite Forall_app, Forall_cons. tauto. Qed.

Lemma path_of_vpath dom v : dom (pml4_index v) = true -> vpath dom (path_of v).
Proof. intros Hd. split; [simpl; lia|]. split; [apply path_of_ok|done]. Qed.

Section tree.
Context {A : Type} `{PageAllocatorLaws A}.
Context (dom : Z -> bool) (root : Z).
#[local] Abbreviation wf := (tree_wf dom root).

Lemma tw_slot_inj M p q t t' i j :
  wf M -> vpath dom p -> vpath dom q -> idx_ok i -> idx_ok j ->
  table_of (ram M) root p = Some t -> table_of (ram M) root q = Some t' ->
  slot t i = slot t' j -> p = q /\ i = j.
Proof.
  intros Hw Hp Hq Hi Hj Et Eq Es.
  destruct (slot_inj t t' i j) as [<- <-]; eauto using tw_frame.
  split; [|done]. by apply (tw_inj _ _ _ Hw p q t).
Qed.

(** A write to an entry leaves the paths that do not read it alone. *)
Lemma table_of_write M p t i m' q :
  wf M -> vpath dom p -> idx_ok i -> table_of (ram M) root p = Some t ->
  (forall q' t' j, vpath dom q' -> idx_ok j -> table_of (ram M) root q' = Some t' ->
     slot t' j <> slot t i -> sa_get m' (slot t' j) = sa_get (ram M) (slot t' j)) ->
  vpath dom q -> ~ (p ++ [i]) `prefix_of` q ->
  table_of m' root q = table_of (ram M) root q.
Proof.
  intros Hw Hp Hi Ht Hag Hq Hnp. apply table_of_agree. intros p1 j r t1 -> Ht1.
  apply Hag with p1; eauto using vpath_prefix, vpath_idx.
  intros Es. apply Hnp.
  destruct (tw_slot_inj M p1 p t1 t j i) as [-> ->]; eauto using vpath_prefix, vpath_idx.
  exists r. by rewrite <- app_assoc.
Qed.

(** The memory after [ensure_table] adds the table [page] below [t[i]]. *)
Definition grown (m : sarr) (t i page e : Z) : sarr :=
  sa_set (zero_page page m) (slot t i) e.

Section grow.
Context (M : machine A) (p : list Z) (t i page e : Z).
Context (Hw : wf M) (Hp : vpath dom (p ++ [i])) (Hlen : (length p <= 2)%nat).
Context (Ht : table_of (ram M) root p = Some t) (Habs : present (entry M t i) = false).
Context (Hpage : frame_ok page) (Hav : pa_avail (frames M) page = true).
Context (He : table e = page) (Hpr : present e = true).
#[local] Abbreviation m' := (grown (ram M) t i page e).

#[local] Lemma not_page q t' : vpath dom q -> table_of (ram M) root q = Some t' -> t' <> page.
Proof. intros Hq Eq ->. rewrite (tw_used _ _ _ Hw q page) in Hav by done. done. Qed.

#[local] Lemma grown_other q t' j :
  vpath dom q -> idx_ok j -> table_of (ram M) root q = Some t' ->
  slot t' j <> slot t i -> sa_get m' (slot t' j) = sa_get (ram M) (slot t' j).
Proof.
  intros Hq Hj Eq Hne. unfold grown. rewrite sa_get_set_ne by done.
  apply zero_page_out. intros k Hk Es.
  destruct (slot_inj t' page j k) as [-> _]; eauto using tw_frame.
  by eapply not_page.
Qed.

#[local] Lemma grown_page j : idx_ok j -> sa_get m' (slot page j) = 0.
Proof.
  intros Hj. assert (Hvp : vpath dom p) by eauto using vpath_prefix.
  unfold grown. rewrite sa_get_set_ne; [by apply zero_page_in|].
  intros Es. destruct (slot_inj t page i j) as [E _]; eauto using tw_frame, vpath_idx.
  by apply (not_page p t).
Qed.

Lemma grown_table q :
  vpath dom q ->
  table_of m' root q = if decide (q = p ++ [i]) then Some page else table_of (ram M) root q.
Proof.
  intros Hq. assert (Hvp : vpath dom p) by eauto using vpath_prefix.
  assert (Hi : idx_ok i) by eauto using vpath_idx.
  assert (Hp' : table_of m' root p = Some t).
  { rewrite <- Ht. eapply table_of_write; eauto using grown_other.
    intros Hpre%prefix_length. rewrite length_app in Hpre. simpl in Hpre. lia. }
  destruct (decide ((p ++ [i]) `prefix_of` q)) as [[r ->]|Hnp].
  - assert (E1 : table_of m' root (p ++ [i]) = Some page).
    { rewrite (table_of_snoc _ _ _ t) by done. unfold grown. by rewrite sa_get_set_eq, Hpr, He. }
    rewrite table_of_app, E1. destruct r as [|j r].
    + rewrite app_nil_r, decide_True by done. done.
    + assert (idx_ok j) by eauto using vpath_idx.
      rewrite decide_False by (intros E; apply (f_equal length) in E; rewrite length_app in E; simpl in E; lia).
      cbn [mbind option_bind table_of]. rewrite grown_page by done.
      rewrite table_of_app, (table_of_snoc _ _ _ t) by done.
      unfold entry in Habs. by rewrite Habs.
  - rewrite decide_False by (intros ->; by apply Hnp).
    eapply table_of_write; eauto using grown_other.
Qed.

(** No mapping appears or disappears: the new table is empty. *)
Lemma grown_leaf q j :
  vpath dom q -> length q = 3%nat -> idx_ok j -> leaf m' root q j = leaf (ram M) root q j.
Proof.
  intros Hq Hlq Hj. unfold leaf. rewrite grown_table by done.
  assert (Hvp : vpath dom p) by eauto using vpath_prefix.
  assert (Hi : idx_ok i) by eauto using vpath_idx.
  destruct (decide (q = p ++ [i])) as [->|Hne].
  - rewrite (table_of_snoc _ _ _ t) by done. unfold entry in Habs. rewrite Habs.
    cbn [mbind option_bind]. by rewrite grown_page.
  - destruct (table_of (ram M) root q) as [t'|] eqn:Eq; [|done]. cbn [mbind option_bind].
    rewrite (grown_other q t' j); [done|done|done|done|].
    intros Es. destruct (tw_slot_inj M q p t' t j i) as [-> _]; try done. lia.
Qed.
End grow.

(** Words outside the tables of the tree and outside the free frames. *)
Definition untouched (M : machine A) (a : Z) : Prop :=
  (forall q t i, vpath dom q -> idx_ok i -> table_of (ram M) root q = Some t -> a <> slot t i) /\
  (forall f i, frame_ok f -> idx_ok i -> pa_avail (frames M) f = true -> a <> slot f i).

(** [M'] is [M] with some empty tables added to the tree. *)
Record extends (M M' : machine A) : Prop := {
  ex_wf : wf M';
  ex_table : forall q t, vpath dom q ->
    table_of (ram M) root q = Some t -> table_of (ram M') root q = Some t;
  ex_leaf : forall q j, vpath dom q -> length q = 3%nat -> idx_ok j ->
    leaf (ram M') root q j = leaf (ram M) root q j;
  ex_new : forall q t, vpath dom q -> table_of (ram M') root q = Some t ->
    table_of (ram M) root q = Some t \/ pa_avail (frames M) t = true;
  ex_avail : forall f, frame_ok f -> pa_avail (frames M') f = true -> pa_avail (frames M) f = true;
  ex_taken : forall f, frame_ok f -> pa_avail (frames M) f = true ->
    pa_avail (frames M') f = true \/ exists q, vpath dom q /\ table_of (ram M') root q = Some f;
  ex_managed : forall f, pa_managed (frames M') f = pa_managed (frames M) f;
  ex_count : pa_count (frames M') <= pa_count (frames M);
  ex_ram : forall a, untouched M a -> sa_get (ram M') a = sa_get (ram M) a;
  ex_rest : cr3 M' = cr3 M /\ lapic_timer_active M' = lapic_timer_active M /\ tlb_log M' = tlb_log M;
}.

Lemma extends_refl M : wf M -> extends M M.
Proof. intros Hw. split; auto. lia. Qed.

Lemma extends_untouched M M' a : extends M M' -> untouched M a -> untouched M' a.
Proof.
  intros E [Hu1 Hu2]. split.
  - intros q t i Hq Hi Et. destruct (ex_new _ _ E q t Hq Et) as [?|Hav]; [eauto|].
    apply Hu2; eauto using tw_frame, ex_wf.
  - intros f i Hf Hi Hav. apply Hu2; eauto using ex_avail.
Qed.

Lemma extends_trans M1 M2 M3 : extends M1 M2 -> extends M2 M3 -> extends M1 M3.
Proof.
  intros E1 E2. split.
  - apply E2.
  - intros. eapply ex_table; eauto using ex_table.
  - intros. rewrite (ex_leaf _ _ E2), (ex_leaf _ _ E1); done.
  - intros q t Hq Et. destruct (ex_new _ _ E2 q t Hq Et) as [?|?].
    + by apply (ex_new _ _ E1 q t).
    + right. apply (ex_avail _ _ E1); eauto using tw_frame, ex_wf.
  - intros. eapply ex_avail; eauto using ex_avail.
  - intros f Hf Hav. destruct (ex_taken _ _ E1 f Hf Hav) as [H1|(q & Hq & Hq1)].
    + by apply (ex_taken _ _ E2).
    + right. exists q. split; [done|]. by apply (ex_table _ _ E2).
  - intros. rewrite (ex_managed _ _ E2). apply E1.
  - etransitivity; [apply E2|apply E1].
  - intros a Ha. rewrite (ex_ram _ _ E2), (ex_ram _ _ E1); eauto using extends_untouched.
  - destruct (ex_rest _ _ E1) as (<- & <- & <-). apply E2.
Qed.

Section add_table.
Context (M : machine A) (p : list Z) (t i e : Z).
Context (Hw : wf M) (Hp : vpath dom (p ++ [i])) (Hlen : (length p <= 2)%nat).
Context (Ht : table_of (ram M) root p = Some t) (Habs : present (entry M t i) = false).
#[local] Abbreviation s' := (pa_alloc (frames M)).1.
#[local] Abbreviation page := (pa_alloc (frames M)).2.
Context (Hpage : frame_ok page) (Hav : pa_avail (frames M) page = true).
Context (Hman : pa_managed (frames M) page = true).
Context (Hrest : forall a, frame_ok a -> pa_avail s' a = pa_avail (frames M) a && negb (a =? page)).
Context (He : table e = page) (Hpr : present e = true) (Hsm : Z.testbit e 7 = false).
#[local] Abbreviation M' := (mkMachine (grown (ram M) t i page e) s' (cr3 M)
                               (lapic_timer_active M) (tlb_log M)).

#[local] Lemma table' q :
  vpath dom q ->
  table_of (ram M') root q = if decide (q = p ++ [i]) then Some page else table_of (ram M) root q.
Proof. intros. by apply grown_table. Qed.

#[local] Lemma present_entry' q t' j :
  vpath dom (q ++ [j]) -> table_of (ram M') root q = Some t' -> present (entry M' t' j) = true ->
  entry M' t' j = e \/ table_of (ram M) root q = Some t' /\ entry M' t' j = entry M t' j.
Proof.
  intros Hq Eq Hpres. assert (Hvq : vpath dom q) by eauto using vpath_prefix.
  assert (Hj : idx_ok j) by eauto using vpath_idx.
  assert (Hvp : vpath dom p) by eauto using vpath_prefix.
  rewrite table' in Eq by done. case_decide as Hd.
  - injection Eq as <-. exfalso. revert Hpres. unfold entry. simpl.
    rewrite (grown_page M p t i page e); try done.
  - destruct (decide (slot t' j = slot t i)) as [Es|Hne].
    + left. unfold entry. simpl. rewrite Es. unfold grown. apply sa_get_set_eq.
    + right. split; [done|]. unfold entry. simpl. by apply (grown_other M t i page e Hw Hpage Hav q).
Qed.

#[local] Lemma add_table_wf : wf M'.
Proof.
  assert (Hnp : forall q, vpath dom q -> table_of (ram M) root q <> Some page).
  { intros q Hq Eq. by eapply not_page. }
  split.
  - simpl. by apply pa_alloc_wf, Hw.
  - intros q1 q2 t' H1 H2. rewrite !table' by done. repeat case_decide; subst; intros E1 E2; try done.
    + injection E1 as <-. by apply Hnp in E2.
    + injection E2 as <-. by apply Hnp in E1.
    + eauto using tw_inj.
  - intros q t' Hq. rewrite table' by done. case_decide; [by intros [= <-]|]. eauto using tw_frame.
  - intros q t' Hq. rewrite table' by done. case_decide; simpl.
    + intros [= <-]. rewrite Hrest, Z.eqb_refl by done. apply andb_false_r.
    + intros Eq. rewrite Hrest by eauto using tw_frame. erewrite tw_used; eauto.
  - intros q t' Hq Hnil. rewrite table' by done. simpl. rewrite pa_alloc_managed by apply Hw.
    case_decide; [by intros [= <-]|]. eauto using tw_managed.
  - intros q t' j Hq Hlq Eq Hpres. destruct (present_entry' q t' j) as [->|[Eq' E]]; try done.
    rewrite E in *. eauto using tw_small.
Qed.

Lemma add_table_extends : extends M M'.
Proof.
  assert (Hvp : vpath dom p) by eauto using vpath_prefix.
  split.
  - apply add_table_wf.
  - intros q t' Hq Eq. rewrite table' by done. case_decide; [|done]. subst q.
    rewrite (table_of_snoc _ _ _ t) in Eq by done. unfold entry in Habs. by rewrite Habs in Eq.
  - intros q j Hq Hl Hj. by apply (grown_leaf M p t i page e).
  - intros q t' Hq. rewrite table' by done. case_decide; [intros [= <-]; by right|by left].
  - intros f Hf. simpl. rewrite Hrest by done. by intros [? _]%andb_true_iff.
  - intros f Hf Hf1. simpl. rewrite Hrest, Hf1 by done. destruct (Z.eqb_spec f page) as [->|]; [|by left].
    right. exists (p ++ [i]). split; [done|]. fold (ram M'). rewrite table' by done. by rewrite decide_True.
  - intros f. simpl. apply pa_alloc_managed, Hw.
  - simpl. destruct (pa_alloc_cases (frames M)) as [(? & ? & ? & _)|(_ & _ & _ & ? & _)];
      [apply Hw|lia|lia].
  - intros a [Hu1 Hu2]. simpl. unfold grown. rewrite sa_get_set_ne.
    + apply zero_page_out. intros k Hk. by apply Hu2.
    + intros <-. by apply (Hu1 p t i); eauto using vpath_idx.
  - done.
Qed.
End add_table.

(** A change of the allocator that leaves the available frames alone. *)
Lemma frames_extends M s :
  wf M -> pa_wf s -> (forall a, pa_managed s a = pa_managed (frames M) a) ->
  (forall a, frame_ok a -> pa_avail s a = pa_avail (frames M) a) ->
  pa_count s <= pa_count (frames M) -> extends M (M <| frames := s |>).
Proof.
  intros Hw Hs Hm Hav Hc. split; simpl; auto.
  - split; simpl; auto; try apply Hw.
    + intros q t Hq Eq. rewrite Hav by eauto using tw_frame. eauto using tw_used.
    + intros q t Hq Hn Eq. rewrite Hm. eauto using tw_managed.
  - intros f Hf. by rewrite Hav.
  - intros f Hf. rewrite Hav by done. by left.
Qed.

(** [ensure_table] returns the table below [t[i]], adding an empty one if there
    is none, and fails only when the allocator is empty. *)
Lemma ensure_table_spec tf M p t i M' r :
  wf M -> vpath dom (p ++ [i]) -> (length p <= 2)%nat -> table_of (ram M) root p = Some t ->
  table_flags_ok tf -> ensure_table_with tf t i M = (M', r) ->
  extends M M' /\ pa_count (frames M) - 1 <= pa_count (frames M') /\
  ((r = 0 /\ pa_count (frames M) = 0) \/
   (r <> 0 /\ table_of (ram M') root (p ++ [i]) = Some r)).
Proof.
  intros Hw Hp Hl Ht Htf E. unfold ensure_table_with in E.
  destruct (present (entry M t i)) eqn:Hpr; simpl in E.
  { injection E as <- <-. assert (Es : table_of (ram M) root (p ++ [i]) = Some (table (entry M t i))).
    { rewrite (table_of_snoc _ _ _ t) by done. unfold entry in *. by rewrite Hpr. }
    split; [by apply extends_refl|]. split; [lia|]. right. split; [|done].
    destruct (tw_frame _ _ _ Hw _ _ Hp Es). lia. }
  pose proof (pa_alloc_cases (frames M) (tw_alloc _ _ _ Hw)) as Hc.
  pose proof (pa_alloc_wf (frames M) (tw_alloc _ _ _ Hw)) as Hs.
  pose proof (fun a => pa_alloc_managed (frames M) a (tw_alloc _ _ _ Hw)) as Hm.
  destruct (pa_alloc (frames M)) as [s page] eqn:Ea. simpl in Hc, Hs, Hm.
  destruct Hc as [(-> & Hc0 & Hc1 & Hsame)|(Hfr & Hav & Hman & Hc & Hpos & Hrest)].
  - injection E as <- <-. split; [|split; [simpl; lia|by left]].
    apply frames_extends; try done; lia.
  - destruct (Z.eqb_spec page 0) as [->|Hne]; [destruct Hfr; lia|].
    set (e := Z.lor page tf). assert (Hte : table e = page) by (apply table_lor; [done|apply Htf]).
    assert (Hee : entry (mkMachine (grown (ram M) t i page e) s (cr3 M) (lapic_timer_active M)
                    (tlb_log M)) t i = e) by (unfold entry, grown; simpl; apply sa_get_set_eq).
    injection E as <- <-.
    pose proof (add_table_extends M p t i e Hw Hp Hl Ht Hpr) as Hx. rewrite Ea in Hx. simpl in Hx.
    specialize (Hx Hfr Hav Hman Hrest Hte (present_lor _ _ Htf) (small_lor _ _ Hfr Htf)).
    split; [exact Hx|]. split; [simpl; lia|]. right.
    unfold entry. simpl. rewrite sa_get_set_eq. fold e. rewrite Hte. split; [done|].
    change (table_of (grown (ram M) t i page e) root (p ++ [i]) = Some page).
    rewrite (grown_table M p t i page e) by (done || by apply present_lor). by rewrite decide_True.
Qed.

(** *** Writing an entry of a page table *)

Section set_leaf.
Context (M : machine A) (p : list Z) (t k e : Z).
Context (Hw : wf M) (Hp : vpath dom p) (Hlen : length p = 3%nat) (Hk : idx_ok k).
Context (Ht : table_of (ram M) root p = Some t).
#[local] Abbreviation M' := (M <| ram ::= fun m => sa_set m (slot t k) e |>).

Lemma set_leaf_table q : vpath dom q -> table_of (ram M') root q = table_of (ram M) root q.
Proof.
  intros Hq. apply (table_of_write M p t k); try done.
  - intros q' t' j _ _ _ Hne. simpl. by rewrite sa_get_set_ne.
  - intros Hpre%prefix_length. rewrite length_app in Hpre. destruct Hq as [? _]. simpl in Hpre. lia.
Qed.

Lemma set_leaf_leaf q j :
  vpath dom q -> length q = 3%nat -> idx_ok j ->
  leaf (ram M') root q j =
  if decide (q = p /\ j = k) then (if present e then Some e else None)
  else leaf (ram M) root q j.
Proof.
  intros Hq Hl Hj. unfold leaf. rewrite set_leaf_table by done. case_decide as Hd.
  - destruct Hd as [-> ->]. rewrite Ht. simpl. by rewrite sa_get_set_eq.
  - destruct (table_of (ram M) root q) as [t'|] eqn:Eq; [|done]. simpl.
    rewrite sa_get_set_ne; [done|]. intros Es. apply Hd.
    by destruct (tw_slot_inj M p q t t' k j) as [-> ->].
Qed.

Lemma set_leaf_wf : wf M'.
Proof.
  split.
  - apply (tw_alloc _ _ _ Hw).
  - intros q1 q2 t' H1 H2. rewrite !set_leaf_table by done. eauto using tw_inj.
  - intros q t' Hq. rewrite set_leaf_table by done. eauto using tw_frame.
  - intros q t' Hq. rewrite set_leaf_table by done. apply (tw_used _ _ _ Hw _ _ Hq).
  - intros q t' Hq Hn. rewrite set_leaf_table by done. apply (tw_managed _ _ _ Hw _ _ Hq Hn).
  - intros q t' j Hq Hlq. assert (Hvq : vpath dom q) by eauto using vpath_prefix.
    rewrite set_leaf_table by done. intros Eq. unfold entry. simpl. rewrite sa_get_set_ne.
    + intros Hpr. by apply (tw_small _ _ _ Hw q t' j).
    + intros Es. destruct (tw_slot_inj M p q t t' k j) as [-> _]; eauto using vpath_idx.
      destruct Hq as [Hq _]. rewrite length_app in Hq. simpl in Hq. lia.
Qed.

Lemma set_leaf_ram a : untouched M a -> sa_get (ram M') a = sa_get (ram M) a.
Proof. intros [Hu _]. simpl. rewrite sa_get_set_ne; [done|]. intros <-. by eapply Hu. Qed.
End set_leaf.

(** *** Taking a frame for other use *)

Lemma alloc_tree_wf M :
  wf M -> wf (M <| frames := (pa_alloc (frames M)).1 |>).
Proof.
  intros Hw. pose proof (tw_alloc _ _ _ Hw) as Hs.
  assert (Hav : forall a, frame_ok a -> pa_avail (frames M) a = false ->
    pa_avail (pa_alloc (frames M)).1 a = false).
  { intros a Ha E. destruct (pa_alloc_cases _ Hs) as [(_ & _ & _ & Hq)|(_ & _ & _ & _ & _ & Hq)];
      rewrite Hq by done; by rewrite E. }
  split; simpl.
  - by apply pa_alloc_wf.
  - apply (tw_inj _ _ _ Hw).
  - apply (tw_frame _ _ _ Hw).
  - intros p t Hp Et. apply Hav; eauto using tw_frame, tw_used.
  - intros p t Hp Hn Et. rewrite pa_alloc_managed by done. eauto using tw_managed.
  - apply (tw_small _ _ _ Hw).
Qed.

(** *** Clearing a frame that is not a table *)

Lemma zero_other M f :
  wf M -> frame_ok f -> (forall q, vpath dom q -> table_of (ram M) root q <> Some f) ->
  let M' := M <| ram ::= zero_page f |> in
  wf M' /\ (forall q, vpath dom q -> table_of (ram M') root q = table_of (ram M) root q) /\
  (forall q j, vpath dom q -> length q = 3%nat -> idx_ok j ->
     leaf (ram M') root q j = leaf (ram M) root q j).
Proof.
  intros Hw Hf Hno. cbv zeta. set (M' := M <| ram ::= zero_page f |>).
  assert (HO : forall q t i, vpath dom q -> idx_ok i -> table_of (ram M) root q = Some t ->
    sa_get (ram M') (slot t i) = sa_get (ram M) (slot t i)).
  { intros q t i Hq Hi Et. apply zero_page_out. intros j Hj Es.
    destruct (slot_inj t f i j) as [-> _]; eauto using tw_frame. by apply (Hno q). }
  assert (HT : forall q, vpath dom q -> table_of (ram M') root q = table_of (ram M) root q).
  { intros q Hq. apply table_of_agree. intros p i r t -> Et.
    apply (HO p); eauto using vpath_prefix, vpath_idx. }
  split_and!; [|done|].
  - split; [apply (tw_alloc _ _ _ Hw)|..].
    + intros p q t Hp Hq. rewrite !HT by done. eauto using tw_inj.
    + intros p t Hp. rewrite HT by done. eauto using tw_frame.
    + intros p t Hp. rewrite HT by done. apply (tw_used _ _ _ Hw p t Hp).
    + intros p t Hp Hn. rewrite HT by done. apply (tw_managed _ _ _ Hw p t Hp Hn).
    + intros p t i Hp Hl. assert (vpath dom p) by eauto using vpath_prefix. rewrite HT by done.
      intros Et. unfold entry. rewrite (HO p t i); eauto using vpath_idx. by apply (tw_small _ _ _ Hw p).
  - intros q j Hq Hl Hj. unfold leaf. rewrite HT by done.
    destruct (table_of (ram M) root q) as [t|] eqn:Et; [|done].
    cbn [mbind option_bind]. by rewrite (HO q t j).
Qed.

(** ** The mapping a tree denotes *)

(** The entry for the page of [v], if that page is mapped. *)
Definition pte_of (M : machine A) (v : Z) : option Z := leaf (ram M) root (path_of v) (pt_index v).

Lemma extends_pte M M' v :
  extends M M' -> dom (pml4_index v) = true -> pte_of M' v = pte_of M v.
Proof. intros E Hd. apply (ex_leaf _ _ E); [by apply path_of_vpath|done|apply pt_index_ok]. Qed.

Lemma pte_of_page M v w : vpn v = vpn w -> pte_of M v = pte_of M w.
Proof. intros [E1 E2]%path_of_inj. unfold pte_of. by rewrite E1, E2. Qed.

(** Writing the entry of [v] redefines the mapping at the page of [v] alone. *)
Lemma set_leaf_pte M v t e w :
  wf M -> dom (pml4_index v) = true -> dom (pml4_index w) = true ->
  table_of (ram M) root (path_of v) = Some t ->
  pte_of (M <| ram ::= fun m => sa_set m (slot t (pt_index v)) e |>) w =
  if decide (vpn w = vpn v) then (if present e then Some e else None) else pte_of M w.
Proof.
  intros Hw Hv Hd Ht. unfold pte_of.
  rewrite (set_leaf_leaf M (path_of v)) by eauto using path_of_vpath, pt_index_ok.
  apply decide_ext. apply path_of_inj.
Qed.

(** The three [ensure_table] calls of a [map_page], with what follows a
    failure at each level and what follows success. *)
Definition with_tables {R} (tf t v : Z) (M : machine A)
    (fail : nat -> machine A -> R) (k : Z -> machine A -> R) : R :=
  let '(M, pdpt) := ensure_table_with tf t (pml4_index v) M in
  if pdpt =? 0 then fail 0%nat M else
  let '(M, pd) := ensure_table_with tf pdpt (pdpt_index v) M in
  if pd =? 0 then fail 1%nat M else
  let '(M, pt) := ensure_table_with tf pd (pd_index v) M in
  if pt =? 0 then fail 2%nat M else k pt M.

Lemma with_tables_spec {R} (P : R -> Prop) tf v M fail k :
  wf M -> dom (pml4_index v) = true -> table_flags_ok tf ->
  (forall M' i, extends M M' -> pa_count (frames M) < 3 -> P (fail i M')) ->
  (forall M' t, extends M M' -> table_of (ram M') root (path_of v) = Some t -> P (k t M')) ->
  P (with_tables tf root v M fail k).
Proof.
  intros Hw Hd Htf Hfail Hok. unfold with_tables.
  pose proof (path_of_vpath dom v Hd) as Hv. unfold path_of in *.
  assert (H1 : vpath dom ([] ++ [pml4_index v]))
    by (exact (vpath_prefix _ [pml4_index v] _ Hv)).
  assert (H2 : vpath dom ([pml4_index v] ++ [pdpt_index v]))
    by (exact (vpath_prefix _ [pml4_index v; pdpt_index v] _ Hv)).
  destruct (ensure_table_with tf root _ M) as [M1 pdpt] eqn:E1.
  destruct (ensure_table_spec tf M [] root _ M1 pdpt Hw H1 ltac:(simpl; lia) eq_refl Htf E1)
    as (X1 & C1 & [[-> Z1]|[N1 T1]]).
  { apply Hfail; [done|lia]. }
  rewrite (proj2 (Z.eqb_neq pdpt 0) N1).
  destruct (ensure_table_with tf pdpt _ M1) as [M2 pd] eqn:E2.
  destruct (ensure_table_spec tf M1 _ pdpt _ M2 pd (ex_wf _ _ X1) H2 ltac:(simpl; lia) T1 Htf E2)
    as (X2 & C2 & [[-> Z2]|[N2 T2]]).
  { apply Hfail; [by eapply extends_trans|lia]. }
  rewrite (proj2 (Z.eqb_neq pd 0) N2).
  destruct (ensure_table_with tf pd _ M2) as [M3 pt] eqn:E3.
  destruct (ensure_table_spec tf M2 _ pd _ M3 pt (ex_wf _ _ X2)
              (Hv : vpath dom ([pml4_index v; pdpt_index v] ++ [pd_index v])) ltac:(simpl; lia) T2 Htf E3)
    as (X3 & C3 & [[-> Z3]|[N3 T3]]).
  { apply Hfail; [by do 2 (eapply extends_trans; [eassumption|])|lia]. }
  rewrite (proj2 (Z.eqb_neq pt 0) N3).
  apply Hok; [by do 2 (eapply extends_trans; [eassumption|])|done].
Qed.
End tree.

(** The entry [map_page] writes for the frame [phys]. *)
Definition page_entry (phys flags : Z) : Z :=
  Z.lor (Z.lor (Z.land phys kAddrMask) (Z.land flags (not64 kAddrMask))) PagePresent.

Lemma page_entry_present phys flags : present (page_entry phys flags) = true.
Proof. unfold page_entry. by rewrite present_bit, Z.lor_spec, orb_true_r. Qed.

Lemma page_entry_table phys flags :
  0 <= phys < 2 ^ 52 -> phys mod 4096 = 0 -> table (page_entry phys flags) = phys.
Proof.
  intros Hr Hm. unfold table, page_entry. rewrite !Z.land_lor_distr_l.
  rewrite <- !Z.land_assoc, (Z.land_diag kAddrMask).
  change (Z.land PagePresent kAddrMask) with 0. change (Z.land (not64 kAddrMask) kAddrMask) with 0.
  rewrite Z.land_0_r, !Z.lor_0_r. change (table phys = phys). rewrite table_spec.
  apply Z.mod_divide in Hm as [b ->]; [|done]. rewrite Z.div_mul, Z.mod_small by lia. lia.
Qed.

Lemma page_entry_flag phys flags n :
  u64 flags -> phys mod 4096 = 0 -> 0 < n < 12 ->
  Z.testbit (page_entry phys flags) n = Z.testbit flags n.
Proof.
  intros Hf Hm Hn. unfold page_entry. rewrite !Z.lor_spec, !Z.land_spec, testbit_not64.
  2: { unfold u64, two64, kAddrMask. lia. } 2: lia.
  replace (Z.testbit kAddrMask n) with false.
  2: { symmetry. assert (n = 1 \/ n = 2 \/ n = 3 \/ n = 4 \/ n = 5 \/ n = 6 \/ n = 7 \/ n = 8 \/
         n = 9 \/ n = 10 \/ n = 11) as Hc by lia. by destruct_or! Hc; subst n. }
  replace (Z.testbit PagePresent n) with false by (symmetry; apply (Z.bits_above_log2 1); simpl; lia).
  rewrite (proj2 (Z.ltb_lt n 64)) by lia. by rewrite andb_false_r, andb_true_r, orb_false_r.
Qed.

(** [entry & (1 << k)] as a condition. *)
Lemma land_pow2 e k : 0 <= k -> negb (Z.land e (2 ^ k) =? 0) = Z.testbit e k.
Proof.
  intros Hk. destruct (Z.eqb_spec (Z.land e (2 ^ k)) 0) as [E|E]; simpl; symmetry.
  - apply (f_equal (fun z => Z.testbit z k)) in E.
    rewrite Z.land_spec, Z.pow2_bits_true, Z.bits_0, andb_true_r in E by done. done.
  - destruct (Z.testbit e k) eqn:Et; [done|]. destruct E. apply Z.bits_inj'. intros n Hn.
    rewrite Z.land_spec, Z.bits_0, Z.pow2_bits_eqb by done.
    destruct (Z.eqb_spec k n) as [->|]; [by rewrite Et|apply andb_false_r].
Qed.
