(* ===== verification/PmmFrames.v ===== *)
(** * The physical memory manager as a frame allocator

    [Pmm] discharges the interface its clients are verified against, and a
    small machine on which their witnesses run. *)

From S2P Require Import Prelude Pmm PageTable.

(** [pmm().allocate_page()] and [pmm().free_page(a)], with a frame named by
    its physical address. *)
#[export] Instance pmm_frames : PageAllocator PhysicalMemoryManager := {
  pa_alloc := allocate_page;
  pa_free := free_page;
  pa_avail s a := page_free s (a / 4096);
  pa_managed s a := (0x100 <=? a / 4096) && (a / 4096 <? total_pages_ s);
  pa_count := free_pages_;
  pa_wf := pmm_wf;
}.

Lemma frame_eqb a b : frame_ok a -> frame_ok b -> (b / 4096 =? a / 4096) = (b =? a).
Proof.
  intros [Ha Ea] [Hb Eb]. destruct (Z.eqb_spec b a) as [->|Hne]; [apply Z.eqb_refl|].
  apply Z.eqb_neq. word_lia.
Qed.

Lemma free_page_spec s a :
  pmm_wf s -> a mod 4096 = 0 -> 0x100 <= a / 4096 < total_pages_ s ->
  pmm_wf (free_page a s) /\ total_pages_ (free_page a s) = total_pages_ s /\
  (forall q, 0 <= q -> page_free (free_page a s) q = page_free s q || (a / 4096 =? q)) /\
  free_pages_ (free_page a s) = free_pages_ s + (if page_free s (a / 4096) then 0 else 1).
Proof.
  intros H Hm Hr. unfold free_page. set (s1 := s <| diagnostics_ ::= _ |>).
  assert (H1 : pmm_wf s1) by (by apply (wf_diag s)).
  pose proof (core_total _ (wf_core _ H)). unfold kPmmBitmapPages in *.
  destruct (free_contiguous_cases a 1 s1 H1) as (Hw & Ht & Hq).
  { by apply free_args_ok_true; [lia|..]. }
  { lia. }
  { word_lia. }
  set (s' := free_contiguous a 1 s1) in *.
  assert (Hq' : forall q, 0 <= q -> page_free s' q = page_free s q || (a / 4096 =? q)).
  { intros q Hq0. rewrite Hq by done. change (page_free s1 q) with (page_free s q).
    change (total_pages_ s1) with (total_pages_ s). f_equal.
    destruct (Z.eqb_spec (a / 4096) q) as [<-|].
    - destruct (Z.leb_spec (a / 4096) (a / 4096)), (Z.ltb_spec (a / 4096) (a / 4096 + 1)),
        (Z.ltb_spec (a / 4096) (total_pages_ s)); try lia; done.
    - destruct (Z.leb_spec (a / 4096) q), (Z.ltb_spec q (a / 4096 + 1)); try lia; done. }
  split_and!; [done|done|done|].
  rewrite (core_count _ (wf_core _ Hw)), (core_count _ (wf_core _ H)), Ht.
  change (total_pages_ s1) with (total_pages_ s).
  rewrite (count_range_update (page_free s) (page_free s') _ _ (a / 4096)); [|lia|].
  - rewrite (Hq' (a / 4096)), Z.eqb_refl, orb_true_r by lia. destruct (page_free s (a / 4096)); lia.
  - intros j Hj Hne. rewrite Hq' by lia. rewrite (proj2 (Z.eqb_neq _ _)) by done. apply orb_false_r.
Qed.

#[export] Instance pmm_frames_laws : PageAllocatorLaws PhysicalMemoryManager.
Proof.
  split; simpl.
  - intros s H. apply (allocate_page_cases s H).
  - intros s a H. destruct (allocate_page_cases s H) as (_ & -> & _). done.
  - intros s H. destruct (allocate_page_cases s H) as (Hw & Ht & Hc).
    pose proof (core_total _ (wf_core _ H)). unfold kPmmBitmapPages in *.
    destruct (allocate_page s) as [s' a]. cbn [fst snd] in *.
    destruct Hc as [(-> & Hz & Hb & Hf)|(Hne & Hm & Hr & Hfr & Hcnt & Hq)].
    + left. split_and!; [done|done|lia|]. intros a _. unfold page_free.
      by rewrite (is_used_bitmap _ s' s).
    + right. assert (Hok : frame_ok a) by (split; [word_lia|done]).
      split_and!; [done|done| |done| |].
      * apply andb_true_iff. split; [apply Z.leb_le|apply Z.ltb_lt]; lia.
      * pose proof (core_free_bound _ (wf_core _ Hw)). lia.
      * intros b Hb. rewrite Hq by (destruct Hb; word_lia). rewrite Z.eqb_sym.
        by rewrite frame_eqb.
  - intros s a H Ha Hm. bsimp.
    destruct (free_page_spec s a) as (Hw & Ht & Hq & Hf); [done|apply Ha|lia|].
    split_and!; [done|by rewrite Ht|done|].
    intros b Hb. rewrite Hq by (destruct Hb; word_lia). by rewrite Z.eqb_sym, frame_eqb.
  - intros s H. pose proof (core_free_bound _ (wf_core _ H)). lia.
Qed.

(** ** An empty address space

    A root whose selected entries are all absent spans the trivial tree. *)
Lemma empty_tree_wf {A} `{PageAllocatorLaws A} dom root (M : machine A) :
  pa_wf (frames M) -> frame_ok root -> pa_avail (frames M) root = false ->
  (forall i, idx_ok i -> dom i = true -> present (entry M root i) = false) ->
  tree_wf dom root M /\ (forall v, dom (pml4_index v) = true -> pte_of root M v = None).
Proof.
  intros Hs Hr Hav Habs.
  assert (Hnil : forall p t, vpath dom p -> table_of (ram M) root p = Some t -> p = [] /\ t = root).
  { intros [|i p] t Hp; simpl; [by intros [= <-]|]. fold (entry M root i).
    destruct Hp as (_ & Hi & Hd). rewrite Habs; [done|by inversion Hi|done]. }
  split.
  - split; [done|..].
    + intros p q t Hp Hq [-> _]%Hnil [-> _]%Hnil; done.
    + by intros p t Hp [-> ->]%Hnil.
    + by intros p t Hp [-> ->]%Hnil.
    + by intros p t Hp Hn [-> ->]%Hnil.
    + intros p t i Hp Hl [-> ->]%Hnil; [simpl in Hl; lia|eauto using vpath_prefix].
  - intros v Hv. unfold pte_of, leaf, path_of. cbn [table_of]. fold (entry M root (pml4_index v)).
    rewrite Habs; [done|apply index_ok; lia|done].
Qed.

(** ** A machine to run on

    The memory of [demo_boot], with the frame 0x102000 taken for a root. *)
Definition demo_root : Z := 0x102000.
Definition demo_machine : machine PhysicalMemoryManager :=
  mkMachine (sa_const 0) (allocate_page demo_pmm).1 demo_root false [].

Lemma demo_machine_wf :
  tree_wf (fun _ => true) demo_root demo_machine /\
  (forall v, pte_of demo_root demo_machine v = None).
Proof.
  destruct (empty_tree_wf (fun _ => true) demo_root demo_machine) as [Hw Hn].
  - apply (allocate_page_cases demo_pmm demo_pmm_wf).
  - by split.
  - vm_compute. reflexivity.
  - done.
  - auto.
Qed.
