(* ===== verification/SpinLock.v ===== *)
(** * Locks (kernel/src/sync/spinlock.cpp) and what they are used for

    Several processors run operations on shared data, each under a [LockGuard].  The steps of
    different processors interleave freely: the atomic exchange and the load of [lock], the
    steps of the operation itself, and the store of [unlock].  Every run gives the results
    that the operations give one after the other, which is what the files that model them as
    single steps assume.  The page allocator is the example: its scan and its update of the
    bitmap are separate steps, and two processors never get the same page. *)

From stdpp Require Import list.
From S2P Require Import Prelude Pmm.
#[local] Open Scope Z_scope.

(** ** The code *)

(** [value_] after the exchange, and whether the lock was free. *)
Definition exchange (value : Z) : Z * bool := (1, value =? 0).
(** Whether the waiting loop ends at this load. *)
Definition load_free (value : Z) : bool := value =? 0.
Definition unlock (value : Z) : Z := 0.

(** [pushfq; popq flags; cli] and the conditional [sti], on the flags register. *)
Definition irq_save (rflags : Z) : Z * Z := (Z.clearbit rflags 9, rflags).
Definition irq_restore (saved rflags : Z) : Z :=
  if negb (Z.land saved (Z.shiftl 1 9) =? 0) then Z.setbit rflags 9 else rflags.

(** Code that keeps interrupts off, between the two, gets back the flag it found, also when
    it does this inside another such section. *)
Lemma irq_restored rflags f : Z.testbit f 9 = false -> Z.testbit (irq_restore (irq_save rflags).2 f) 9 = Z.testbit rflags 9.
Proof.
  intros Hf. unfold irq_restore, irq_save. cbn [snd].
  assert (Hland : Z.land rflags (Z.shiftl 1 9) = if Z.testbit rflags 9 then 2 ^ 9 else 0).
  { apply Z.bits_inj'. intros n Hn. change (Z.shiftl 1 9) with (2 ^ 9). rewrite Z.land_spec, Z.pow2_bits_eqb by lia.
    destruct (Z.eqb_spec 9 n) as [<-|Hne]; [destruct (Z.testbit rflags 9); reflexivity|].
    rewrite andb_false_r. destruct (Z.testbit rflags 9); [rewrite Z.pow2_bits_eqb by lia; by apply eq_sym, Z.eqb_neq|by rewrite Z.bits_0]. }
  rewrite Hland. destruct (Z.testbit rflags 9); [change (2 ^ 9 =? 0) with false|change (0 =? 0) with true]; cbn [negb]; [apply Z.setbit_eq; lia|done].
Qed.

(** An operation on data [D] in steps: [work] either goes on in a new local state or returns. *)
Class Stepwise (D Op X A : Type) := {
  enter : Op -> X;
  work : X -> D -> D * (X + A)
}.

Section Machine.
Context {D Op X A : Type} `{Stepwise D Op X A}.

(** Where a processor is in [LockGuard guard(lock); ... return a;]. *)
Inductive cpu :=
| Idle
| Trying (op : Op)
| Spinning (op : Op)
| Holding (op : Op) (x : X)
| Releasing (op : Op) (a : A).

(** The lock, the data it protects, the processors, and the operations in the order in which
    they released the lock, the last one first. *)
Record shared := mkShared { value_ : Z; data : D; cpus : list cpu; history : list (nat * Op * A) }.

(** One step of processor [i], which is at [c]. *)
Definition cpu_step (i : nat) (c : cpu) (s : shared) : shared :=
  let goto c s := mkShared (value_ s) (data s) (<[i := c]> (cpus s)) (history s) in
  match c with
  | Idle => s
  | Trying op =>
    let '(v, free) := exchange (value_ s) in
    goto (if free then Holding op (enter op) else Spinning op) (mkShared v (data s) (cpus s) (history s))
  | Spinning op => goto (if load_free (value_ s) then Trying op else Spinning op) s
  | Holding op x =>
    let '(d, r) := work x (data s) in
    goto (match r with inl x => Holding op x | inr a => Releasing op a end) (mkShared (value_ s) d (cpus s) (history s))
  | Releasing op a => goto Idle (mkShared (unlock (value_ s)) (data s) (cpus s) ((i, op, a) :: history s))
  end.

(** A processor calls an operation, or makes its next step. *)
Inductive lock_step (s : shared) : shared -> Prop :=
| step_enter i op : cpus s !! i = Some Idle ->
    lock_step s (mkShared (value_ s) (data s) (<[i := Trying op]> (cpus s)) (history s))
| step_cpu i c : cpus s !! i = Some c -> lock_step s (cpu_step i c s).

Definition unlocked (n : nat) (d : D) : shared := mkShared 0 d (replicate n Idle) [].

(** A schedule: processor [i] calls [op], or makes a step. *)
Definition turn (s : shared) (e : nat * option Op) : shared :=
  match cpus s !! e.1, e.2 with
  | Some Idle, Some op => mkShared (value_ s) (data s) (<[e.1 := Trying op]> (cpus s)) (history s)
  | Some c, None => cpu_step e.1 c s
  | _, _ => s
  end.
Definition run_schedule (events : list (nat * option Op)) (s : shared) : shared := foldl turn s events.

Lemma run_schedule_steps events s : rtc lock_step s (run_schedule events s).
Proof.
  revert s. induction events as [|[i o] events IH]; intros s; [done|]. cbn. trans (turn s (i, o)); [|apply IH].
  unfold turn. cbn. destruct (cpus s !! i) as [c|] eqn:Hi; [|done].
  destruct c, o; try done; apply rtc_once; [by apply step_enter|by apply step_cpu..].
Qed.

(** ** The specification: one operation after the other *)

Inductive completes : X -> D -> A -> D -> Prop :=
| completes_return x d d' a : work x d = (d', inr a) -> completes x d a d'
| completes_work x d d' x' a d'' : work x d = (d', inl x') -> completes x' d' a d'' -> completes x d a d''.

Inductive serial (d0 : D) : list (nat * Op * A) -> D -> Prop :=
| serial_nil : serial d0 [] d0
| serial_cons i op a h d d' : serial d0 h d -> completes (enter op) d a d' -> serial d0 ((i, op, a) :: h) d'.

Definition inside (c : cpu) : Prop := match c with Holding _ _ | Releasing _ _ => True | _ => False end.
#[export] Instance inside_dec c : Decision (inside c).
Proof. destruct c; apply _. Defined.

(** What processor [c] has done to data that was [d] when it took the lock: the rest of its
    operation from here is the rest of the operation from there. *)
Definition under_way (c : cpu) (d now : D) : Prop :=
  match c with
  | Holding op x => forall a d', completes x now a d' -> completes (enter op) d a d'
  | Releasing op a => completes (enter op) d a now
  | _ => False
  end.

Definition lock_inv (d0 : D) (s : shared) : Prop := exists d, serial d0 (history s) d /\
  (value_ s = 0 /\ data s = d /\ (forall j c, cpus s !! j = Some c -> ~ inside c) \/
   value_ s = 1 /\ exists i c, cpus s !! i = Some c /\ under_way c d (data s) /\
     (forall j c', cpus s !! j = Some c' -> inside c' -> j = i)).

(** *** The invariant *)

Lemma inv_unlocked d0 s d : serial d0 (history s) d -> value_ s = 0 -> data s = d ->
  (forall j c, cpus s !! j = Some c -> ~ inside c) -> lock_inv d0 s.
Proof. intros. exists d. split; [done|]. by left. Qed.
Lemma inv_locked d0 s d i c : serial d0 (history s) d -> value_ s = 1 -> cpus s !! i = Some c -> under_way c d (data s) ->
  (forall j c', cpus s !! j = Some c' -> inside c' -> j = i) -> lock_inv d0 s.
Proof. intros. exists d. split; [done|]. right. split; [done|]. by exists i, c. Qed.

Lemma under_way_inside c d now : under_way c d now -> inside c.
Proof. by destruct c. Qed.

(** A step of a processor outside that stays outside and leaves lock and data alone. *)
Lemma inv_outside d0 s i c c' : lock_inv d0 s -> cpus s !! i = Some c -> ~ inside c -> ~ inside c' ->
  lock_inv d0 (mkShared (value_ s) (data s) (<[i := c']> (cpus s)) (history s)).
Proof.
  intros (d & Hs & [(Hv & Hd & Ho)|(Hv & k & ck & Hk & Hu & Ho)]) Hi Hc Hc'.
  - eapply inv_unlocked; cbn; [done..|]. intros j cj [(-> & <- & _)|[_ Hj]]%list_lookup_insert_Some; eauto.
  - assert (i <> k). { intros ->. assert (ck = c) as -> by congruence. by apply under_way_inside in Hu. }
    eapply (inv_locked _ _ d k ck); cbn; [done..|by rewrite list_lookup_insert_ne|done|].
    intros j cj [(-> & <- & _)|[_ Hj]]%list_lookup_insert_Some Hin; [done|eauto].
Qed.

(** The processor inside is the one that steps. *)
Lemma inv_inside d0 s i c : lock_inv d0 s -> cpus s !! i = Some c -> inside c ->
  value_ s = 1 /\ (i < length (cpus s))%nat /\ (exists d, serial d0 (history s) d /\ under_way c d (data s)) /\
  forall j c', j <> i -> cpus s !! j = Some c' -> ~ inside c'.
Proof.
  intros (d & Hs & [(_ & _ & Ho)|(Hv & k & ck & Hk & Hu & Ho)]) Hi Hin; [by destruct (Ho i c Hi)|].
  assert (i = k) as <- by eauto. assert (ck = c) as -> by congruence.
  split; [done|]. split; [by eapply lookup_lt_Some|]. split; [by exists d|]. intros j c' Hne Hj Hin'. by destruct Hne; eauto.
Qed.

Lemma inv_step d0 s s' : lock_inv d0 s -> lock_step s s' -> lock_inv d0 s'.
Proof.
  intros Hinv [i op Hi|i c Hi]; [by eapply inv_outside; eauto|].
  destruct c as [|op|op|op x|op a]; cbn [cpu_step].
  - done.
  - pose proof Hinv as (d & Hs & [(Hv & Hd & Ho)|(Hv & Hk)]).
    + unfold exchange. rewrite Hv. cbn. assert (Hlt : (i < length (cpus s))%nat) by (by eapply lookup_lt_Some).
      eapply (inv_locked _ _ d i (Holding op (enter op))); cbn; [done..|by apply list_lookup_insert_eq|by rewrite Hd|].
      intros j cj [(-> & _)|[_ Hj]]%list_lookup_insert_Some Hin; [done|by destruct (Ho j cj Hj)].
    + unfold exchange. rewrite Hv. cbn. rewrite <-Hv. apply (inv_outside _ _ i (Trying op)); cbn; auto.
  - apply (inv_outside _ _ i (Spinning op)); [done|done|by intros []|]. case_match; by intros [].
  - destruct (inv_inside _ _ _ _ Hinv Hi I) as (Hv & Hlt & (d & Hs & Hu) & Ho). cbn in Hu.
    destruct (work x (data s)) as [d' r] eqn:Ew.
    eapply (inv_locked _ _ d i (match r with inl x => Holding op x | inr a => Releasing op a end)); cbn; [done..|
      by apply list_lookup_insert_eq| |].
    + destruct r as [x'|a]; cbn; [|by apply Hu, completes_return]. intros a d'' Hc. by apply Hu, (completes_work _ _ d' x').
    + intros j cj [(-> & _)|[Hne Hj]]%list_lookup_insert_Some Hin; [done|]. by destruct (Ho j cj).
  - destruct (inv_inside _ _ _ _ Hinv Hi I) as (Hv & Hlt & (d & Hs & Hu) & Ho). cbn in Hu.
    eapply (inv_unlocked _ _ (data s)); cbn; [by eapply serial_cons|done|done|].
    intros j cj [(-> & <- & _)|[Hne Hj]]%list_lookup_insert_Some; [by intros []|by apply (Ho j)].
Qed.

Lemma inv_start n d : lock_inv d (unlocked n d).
Proof.
  eapply (inv_unlocked _ _ d); cbn; [by constructor|done|done|]. by intros j c [-> _]%lookup_replicate [].
Qed.
Lemma inv_reached n d s : rtc lock_step (unlocked n d) s -> lock_inv d s.
Proof.
  generalize (inv_start n d). generalize (unlocked n d). intros s0 H0 Hr. induction Hr as [|a b c Hs _ IH]; [done|].
  apply IH. by eapply inv_step.
Qed.

(** C11. A spin lock makes operations atomic.  However the steps of the processors interleave,
    at most one of them is inside the lock; the operations that have released it returned
    what they return when they run one after the other in that order; and whenever the lock
    is free the data is what that sequence leaves. *)
Theorem locked_operations_are_serial n d0 s : rtc lock_step (unlocked n d0) s ->
  (forall i j c c', cpus s !! i = Some c -> cpus s !! j = Some c' -> inside c -> inside c' -> i = j) /\
  exists d, serial d0 (history s) d /\ (value_ s = 0 -> data s = d).
Proof.
  intros Hr. destruct (inv_reached n d0 s Hr) as (d & Hs & [(Hv & Hd & Ho)|(Hv & k & ck & Hk & Hu & Ho)]).
  - split; [|by exists d]. intros i j c c' Hi _ Hin. by destruct (Ho i c Hi).
  - split; [|exists d; split; [done|lia]]. intros i j c c' Hi Hj Hin Hin'.
    by rewrite (Ho i c Hi Hin), (Ho j c' Hj Hin').
Qed.

Lemma completes_unique x d a d' a' d'' : completes x d a d' -> completes x d a' d'' -> a' = a /\ d'' = d'.
Proof.
  induction 1 as [x d d' a E|x d d1 x' a d2 E _ IH]; inversion 1 as [? ? ? ? E'|? ? ? ? ? ? E']; subst; rewrite E in E'; simplify_eq; auto.
Qed.
(** *** Progress *)

Lemma finishes i op x (s : shared) a d' : cpus s !! i = Some (Holding op x) -> completes x (data s) a d' ->
  exists s', rtc lock_step s s' /\ s' = mkShared 0 d' (<[i := Idle]> (cpus s)) ((i, op, a) :: history s).
Proof.
  intros Hi Hc. remember (data s) as d eqn:Hd. revert s Hi Hd.
  induction Hc as [x d d' a E|x d d1 x' a d' E _ IH]; intros s Hi ->; pose proof (step_cpu s i _ Hi) as Hs;
    cbn in Hs; rewrite E in Hs; cbn in Hs; assert (Hlt : (i < length (cpus s))%nat) by (by eapply lookup_lt_Some).
  - eexists. split; [|reflexivity]. eapply rtc_l; [exact Hs|]. apply rtc_once.
    pose proof (step_cpu (mkShared (value_ s) d' (<[i := Releasing op a]> (cpus s)) (history s)) i (Releasing op a)
                  (list_lookup_insert_eq _ _ _ Hlt)) as Hs'. cbn in Hs'. by rewrite list_insert_insert_eq in Hs'.
  - destruct (IH (mkShared (value_ s) d1 (<[i := Holding op x']> (cpus s)) (history s)) (list_lookup_insert_eq _ _ _ Hlt) eq_refl)
      as (s' & Hr & ->). eexists. split; [by eapply rtc_l|]. cbn. by rewrite list_insert_insert_eq.
Qed.

Definition waits (c : cpu) (op : Op) : Prop := c = Trying op \/ c = Spinning op.

Section Total.
Context (total : forall x d, exists a d', completes x d a d').

(** The processor inside the lock leaves it, and the others stay where they are. *)
Lemma lock_gets_free d0 s i c op : lock_inv d0 s -> cpus s !! i = Some c -> waits c op ->
  exists s', rtc lock_step s s' /\ value_ s' = 0 /\ cpus s' !! i = Some c.
Proof.
  intros (d & Hs & [(Hv & _)|(Hv & k & ck & Hk & Hu & _)]) Hi Hw; [by exists s|].
  assert (Hne : k <> i). { intros ->. apply under_way_inside in Hu. assert (ck = c) as -> by congruence. by destruct Hw as [-> | ->]. }
  destruct ck as [|op'|op'|op' x|op' a]; try done.
  - destruct (total x (data s)) as (a & d' & Hc). destruct (finishes k op' x s a d' Hk Hc) as (s' & Hr & ->).
    eexists. split; [exact Hr|]. split; [done|]. cbn. by rewrite list_lookup_insert_ne.
  - eexists. split; [apply rtc_once, (step_cpu s k _ Hk)|]. split; [done|]. cbn. by rewrite list_lookup_insert_ne.
Qed.

Lemma waiting_completes d0 s i c op : lock_inv d0 s -> cpus s !! i = Some c -> waits c op ->
  exists s' a h, rtc lock_step s s' /\ history s' = (i, op, a) :: h.
Proof.
  intros Hinv Hi Hw. destruct (lock_gets_free _ _ _ _ _ Hinv Hi Hw) as (s1 & Hr1 & Hv1 & Hi1).
  assert (Hlt : (i < length (cpus s1))%nat) by (by eapply lookup_lt_Some).
  assert (exists s2, rtc lock_step s1 s2 /\ value_ s2 = 0 /\ cpus s2 !! i = Some (Trying op)) as (s2 & Hr2 & Hv2 & Hi2).
  { destruct Hw as [-> | ->]; [by exists s1|]. eexists. split; [apply rtc_once, (step_cpu s1 i _ Hi1)|]. cbn.
    rewrite Hv1. split; [done|]. by apply list_lookup_insert_eq. }
  pose proof (step_cpu s2 i _ Hi2) as Hs. cbn in Hs. rewrite Hv2 in Hs. cbn in Hs.
  destruct (total (enter op) (data s2)) as (a & d' & Hc). assert (Hlt2 : (i < length (cpus s2))%nat) by (by eapply lookup_lt_Some).
  destruct (finishes i op (enter op) (mkShared 1 (data s2) (<[i := Holding op (enter op)]> (cpus s2)) (history s2)) a d'
              (list_lookup_insert_eq _ _ _ Hlt2) Hc) as (s3 & Hr3 & ->).
  eexists _, a, (history s2). split; [etrans; [exact Hr1|]; etrans; [exact Hr2|]; eapply rtc_l; [exact Hs|exact Hr3]|done].
Qed.
End Total.
End Machine.

(** ** The page allocator under its lock *)

(** Where a processor is in [allocate_page]: before the count of calls, at a page of the
    first or of the second loop, between the marking of a page and the rest of the update,
    or before the count of failures. *)
Inductive allocating := CountCall | ScanUp (page : Z) | ScanLow (page : Z) | Marked (page : Z) | CountFailure.

Definition allocate_work (x : allocating) (s : PhysicalMemoryManager) : PhysicalMemoryManager * (allocating + Z) :=
  match x with
  | CountCall => (s <| diagnostics_ ::= fun d => d <| allocate_page_calls ::= inc64 |> |>, inl (ScanUp (scan_hint_ s)))
  | ScanUp page =>
    if total_pages_ s <=? page then (s, inl (ScanLow 0x100))
    else if is_used page s then (s, inl (ScanUp (page + 1))) else (set_used page true s, inl (Marked page))
  | ScanLow page =>
    if scan_hint_ s <=? page then (s, inl CountFailure)
    else if is_used page s then (s, inl (ScanLow (page + 1))) else (set_used page true s, inl (Marked page))
  | Marked page =>
    let s := sync_stats (s <| free_pages_ ::= dec64 |>) in
    (update_peak_used (s <| scan_hint_ := w64 (page + 1) |>
                         <| diagnostics_ ::= fun d => d <| last_allocated_page := page |> |>), inr (w64 (page * kPageSize)))
  | CountFailure => (fail_allocation s, inr 0)
  end.

#[export] Instance allocate_stepwise : Stepwise PhysicalMemoryManager unit allocating Z :=
  {| enter _ := CountCall; work := allocate_work |}.

Lemma completes_marked page s :
  completes (Marked page) (set_used page true s) (w64 (page * kPageSize)) (claim_page page s).
Proof. by apply completes_return. Qed.

(** The scans end, and find the first free page of their range. *)
Lemma completes_scan_low n page s a s' : Z.of_nat n = Z.max 0 (scan_hint_ s - page) ->
  match find_first (fun page => negb (is_used page s)) page (scan_hint_ s) with
  | Some p => (claim_page p s, w64 (p * kPageSize))
  | None => (fail_allocation s, 0)
  end = (s', a) -> completes (ScanLow page) s a s'.
Proof.
  unfold find_first. revert page. induction n as [|n IH]; intros page Hn.
  - replace (Z.to_nat (scan_hint_ s - page)) with O by lia. cbn. intros [= <- <-].
    apply (completes_work _ _ s CountFailure); [|by apply completes_return]. cbn.
    by rewrite (proj2 (Z.leb_le _ _)) by lia.
  - replace (Z.to_nat (scan_hint_ s - page)) with (S n) by lia. cbn.
    destruct (is_used page s) eqn:Eu; cbn; intros E.
    + apply (completes_work _ _ s (ScanLow (page + 1))); [cbn; by rewrite (proj2 (Z.leb_gt _ _)), Eu by lia|].
      apply IH; [lia|]. by replace (Z.to_nat (scan_hint_ s - (page + 1))) with n by lia.
    + injection E as <- <-. eapply completes_work; [cbn; rewrite (proj2 (Z.leb_gt _ _)), Eu by lia; reflexivity|].
      apply completes_marked.
Qed.
Lemma completes_scan_up n page s a s' : Z.of_nat n = Z.max 0 (total_pages_ s - page) ->
  match find_first (fun page => negb (is_used page s)) page (total_pages_ s) with
  | Some p => (claim_page p s, w64 (p * kPageSize))
  | None =>
    match find_first (fun page => negb (is_used page s)) 0x100 (scan_hint_ s) with
    | Some p => (claim_page p s, w64 (p * kPageSize))
    | None => (fail_allocation s, 0)
    end
  end = (s', a) -> completes (ScanUp page) s a s'.
Proof.
  unfold find_first at 1. revert page. induction n as [|n IH]; intros page Hn.
  - replace (Z.to_nat (total_pages_ s - page)) with O by lia. intros E.
    apply (completes_work _ _ s (ScanLow 0x100)); [cbn; by rewrite (proj2 (Z.leb_le _ _)) by lia|].
    by apply (completes_scan_low (Z.to_nat (scan_hint_ s - 0x100))); [lia|].
  - replace (Z.to_nat (total_pages_ s - page)) with (S n) by lia. cbn [find_from].
    destruct (is_used page s) eqn:Eu; cbn [negb]; intros E.
    + apply (completes_work _ _ s (ScanUp (page + 1))); [cbn; by rewrite (proj2 (Z.leb_gt _ _)), Eu by lia|].
      apply IH; [lia|]. by replace (Z.to_nat (total_pages_ s - (page + 1))) with n by lia.
    + injection E as <- <-. eapply completes_work; [cbn; rewrite (proj2 (Z.leb_gt _ _)), Eu by lia; reflexivity|].
      apply completes_marked.
Qed.

(** The steps together are the operation of [Pmm.v], and there are finitely many. *)
Lemma allocate_completes s : completes CountCall s (allocate_page s).2 (allocate_page s).1.
Proof.
  eapply completes_work; [reflexivity|]. set (s1 := s <| diagnostics_ ::= _ |>).
  apply (completes_scan_up (Z.to_nat (total_pages_ s1 - scan_hint_ s))); [lia|].
  change (scan_hint_ s) with (scan_hint_ s1). apply (surjective_pairing (allocate_page s)).
Qed.

Lemma completes_allocate s a s' : completes CountCall s a s' -> allocate_page s = (s', a).
Proof.
  intros Hc. destruct (completes_unique _ _ _ _ _ _ Hc (allocate_completes s)) as [<- <-]. apply surjective_pairing.
Qed.

(** The addresses handed out, in the order of the releases, the last one first. *)
Definition handed_out (h : list (nat * unit * Z)) : list Z := filter (fun a => a <> 0) (snd <$> h).

Lemma serial_allocations s0 h s : pmm_wf s0 -> serial s0 h s -> pmm_wf s /\ NoDup (handed_out h) /\
  Forall (fun a => page_free s0 (a / 4096) = true /\ page_free s (a / 4096) = false /\ a mod 4096 = 0 /\ 0 <= a / 4096) (handed_out h) /\
  forall q, 0 <= q -> page_free s q = true -> page_free s0 q = true.
Proof.
  intros Hw Hs. induction Hs as [|i op a h s s' _ (Hws & Hnd & Hall & Hsub) Hc]; [by split_and!; [|constructor..|]|].
  apply completes_allocate in Hc. destruct (allocate_page_cases s Hws) as (Hw' & _ & Hcase). rewrite Hc in Hw', Hcase. cbn in Hw', Hcase.
  destruct Hcase as [(-> & _ & Hb & _)|(Ha & Hm & Hrange & Hf & _ & Hq)].
  - assert (Hfree : forall q, page_free s' q = page_free s q) by (intros q; unfold page_free, is_used; by rewrite Hb).
    unfold handed_out in *. cbn. split_and!; [done|done| |intros q Hq; rewrite Hfree; by apply Hsub].
    eapply Forall_impl; [exact Hall|]. cbn. intros a. by rewrite Hfree.
  - unfold handed_out in *. cbn. rewrite decide_True by done. split_and!; [done| | |].
    + constructor; [|done]. intros (_ & Hna & _)%(proj1 (Forall_forall _ _) Hall). congruence.
    + constructor.
      * rewrite Hq, Hf, Z.eqb_refl by lia. split_and!; [apply Hsub; [lia|done]|done|done|lia].
      * eapply Forall_impl; [exact Hall|]. cbn. intros b (H1 & H2 & H3 & H4). rewrite Hq, H2 by done. done.
    + intros q Hq0. rewrite Hq by done. intros [Hfq _]%andb_true_iff. by apply Hsub.
Qed.

(** C12. Processors that allocate pages at the same time get different ones.  However the scans
    of the bitmap and the marking of pages on several processors interleave, the addresses
    that the calls return are distinct, page aligned, and those of pages that were free at
    the start. *)
Theorem processors_get_different_pages n s0 (s : shared) :
  pmm_wf s0 -> rtc lock_step (unlocked n s0) s ->
  NoDup (handed_out (history s)) /\
  Forall (fun a => a mod 4096 = 0 /\ page_free s0 (a / 4096) = true) (handed_out (history s)).
Proof.
  intros Hw Hr. destruct (inv_reached n s0 s Hr) as (d & Hs & _).
  destruct (serial_allocations _ _ _ Hw Hs) as (_ & Hnd & Hall & _). split; [done|].
  eapply Forall_impl; [exact Hall|]. by intros a (? & _ & ? & _).
Qed.

Lemma allocate_total x s : exists a s', completes x s a s'.
Proof.
  assert (Hlow : forall page s, exists a s', completes (ScanLow page) s a s').
  { intros page s1. eexists _, _. apply (completes_scan_low (Z.to_nat (scan_hint_ s1 - page))); [lia|]. apply surjective_pairing. }
  destruct x as [|page|page|page|].
  - eexists _, _. apply allocate_completes.
  - eexists _, _. apply (completes_scan_up (Z.to_nat (total_pages_ s - page))); [lia|]. apply surjective_pairing.
  - apply Hlow.
  - eexists _, _. by apply completes_return.
  - eexists _, _. by apply completes_return.
Qed.

(** The lock of the page allocator cannot deadlock.  In every state that processors reach,
    a processor that waits for the lock can still be served: the holder finishes its scan in
    finitely many steps of its own and releases the lock, and the call of the waiting
    processor then completes. *)
Theorem page_lock_serves_waiting_processors n s0 (s : shared) i c :
  rtc lock_step (unlocked n s0) s -> cpus s !! i = Some c -> waits c tt ->
  exists s' a h, rtc lock_step s s' /\ history s' = (i, tt, a) :: h.
Proof. intros Hr. eapply waiting_completes; [apply allocate_total|by eapply inv_reached]. Qed.

(** Two processors start together; the second one spins while the first one scans. *)
Definition demo_schedule : list (nat * option unit) :=
  [(0%nat, Some tt); (1%nat, Some tt); (0%nat, None); (1%nat, None)] ++
  concat (replicate 12 [(0%nat, None); (1%nat, None); (1%nat, None)]).
Definition demo_run : shared := run_schedule demo_schedule (unlocked 2 demo_pmm).
Definition demo_waiting : shared := run_schedule (take 8 demo_schedule) (unlocked 2 demo_pmm).

Lemma locked_operations_are_serial_witness :
  length (history demo_run) = 2%nat /\ exists d, serial demo_pmm (history demo_run) d /\ (value_ demo_run = 0 -> data demo_run = d).
Proof.
  split; [vm_compute; reflexivity|].
  exact (proj2 (locked_operations_are_serial 2 demo_pmm demo_run (run_schedule_steps demo_schedule _))).
Defined.

Lemma processors_get_different_pages_witness :
  handed_out (history demo_run) = [0x104000; 0x102000] /\ NoDup (handed_out (history demo_run)).
Proof.
  split; [vm_compute; reflexivity|].
  exact (proj1 (processors_get_different_pages 2 demo_pmm demo_run demo_pmm_wf (run_schedule_steps demo_schedule _))).
Defined.

Lemma page_lock_serves_waiting_processors_witness :
  cpus demo_waiting !! 1%nat = Some (Spinning tt) /\
  exists s' a h, rtc lock_step demo_waiting s' /\ history s' = (1%nat, tt, a) :: h.
Proof.
  assert (Hc : cpus demo_waiting !! 1%nat = Some (Spinning tt)) by (vm_compute; reflexivity). split; [exact Hc|].
  apply (page_lock_serves_waiting_processors 2 demo_pmm demo_waiting 1 (Spinning tt)); [apply run_schedule_steps|exact Hc|by right].
Defined.
