(* ===== verification/Vmm.v ===== *)
(** * The kernel's virtual memory manager (kernel/src/mm/vmm.cpp)

    [map_page], [map_range], [unmap_page], [translate] and
    [initialize_identity] over the page tables of PageTable.v, for any frame
    allocator.  The theorems read the tables as a map from virtual pages to
    entries ([pte_of]): mapping is insertion, unmapping is deletion, and
    [translate] is lookup. *)

From S2P Require Import Prelude Pmm PageTable PmmFrames.
From stdpp Require Import strings.
#[local] Open Scope Z_scope.

Definition kDefaultTableFlags : Z := Z.lor PagePresent PageWrite.

Record MappingResult := mkResult { ok : bool; error : string }.
Arguments mkResult _ _%_string.

Record VirtualMemoryDiagnostics := mkVmDiag {
  map_page_calls : Z;
  map_range_calls : Z;
  unmap_page_calls : Z;
  mapped_pages : Z;
  unmapped_pages : Z;
  failed_maps : Z;
  failed_unmaps : Z;
  duplicate_map_rejects : Z;
  unaligned_map_rejects : Z;
  absent_unmap_rejects : Z;
  remote_shootdowns_requested : Z;
  last_mapped_virt : Z;
  last_unmapped_virt : Z;
}.
#[export] Instance eta_VmDiag : Eta VirtualMemoryDiagnostics := fun r =>
  mkVmDiag (map_page_calls r) (map_range_calls r) (unmap_page_calls r) (mapped_pages r)
    (unmapped_pages r) (failed_maps r) (failed_unmaps r) (duplicate_map_rejects r)
    (unaligned_map_rejects r) (absent_unmap_rejects r) (remote_shootdowns_requested r)
    (last_mapped_virt r) (last_unmapped_virt r).

Record VirtualMemoryManager := mkVmm { root_ : Z; vdiagnostics_ : VirtualMemoryDiagnostics }.
#[export] Instance eta_Vmm : Eta VirtualMemoryManager := fun r =>
  mkVmm (root_ r) (vdiagnostics_ r).

Definition vmm_zero : VirtualMemoryManager :=
  mkVmm 0 (mkVmDiag 0 0 0 0 0 0 0 0 0 0 0 0 0).

(** The manager together with the machine it works on. *)
Record vmst (A : Type) := mkVmst { vmm : VirtualMemoryManager; mach : machine A }.
Arguments mkVmst {A} _ _.
Arguments vmm {A} _.
Arguments mach {A} _.
#[export] Instance eta_vmst A : Eta (vmst A) := fun r => mkVmst (vmm r) (mach r).

Section vmm.
Context {A : Type} `{PageAllocator A}.

(** [++diagnostics_.f], and any other update of the counters. *)
Definition diag (f : VirtualMemoryDiagnostics -> VirtualMemoryDiagnostics) (st : vmst A)
  : vmst A := st <| vmm ::= fun v => v <| vdiagnostics_ ::= f |> |>.

Definition load_cr3 (physical : Z) (st : vmst A) : vmst A :=
  let st := st <| vmm ::= fun v => v <| root_ := Z.land physical kAddrMask |> |> in
  st <| mach ::= fun M => M <| cr3 := root_ (vmm st) |> |>.

Definition initialize_identity (st : vmst A) : vmst A :=
  let firmware_root := Z.land (cr3 (mach st)) kAddrMask in
  let '(s, owned_root) := pa_alloc (frames (mach st)) in
  let st := st <| mach ::= fun M => M <| frames := s |> |> in
  if owned_root =? 0 then st <| vmm ::= fun v => v <| root_ := firmware_root |> |> else
  let st := st <| mach ::= fun M => M <| ram ::= copy_page owned_root firmware_root |> |> in
  load_cr3 owned_root st.

Definition ensure_table (t index : Z) (M : machine A) : machine A * Z :=
  ensure_table_with kDefaultTableFlags t index M.

(** [invalidate_local_page], and the shootdown that follows it outside LAPIC
    timer preemption (lines 93-97 and 144-148). *)
Definition invalidate (virt : Z) (st : vmst A) : vmst A :=
  let st := st <| mach ::= fun M => M <| tlb_log ::= app [Invlpg virt] |> |> in
  if negb (lapic_timer_active (mach st)) then
    let st := st <| mach ::= fun M => M <| tlb_log ::= app [ShootdownRemote virt] |> |> in
    diag (fun d => d <| remote_shootdowns_requested ::= inc64 |>) st
  else st.

Definition map_page (virt phys flags : Z) (st : vmst A) : vmst A * MappingResult :=
  let st := diag (fun d => d <| map_page_calls ::= inc64 |>) st in
  if negb (Z.land virt 4095 =? 0) || negb (Z.land phys 4095 =? 0) then
    (diag (fun d => d <| failed_maps ::= inc64 |> <| unaligned_map_rejects ::= inc64 |>) st,
     mkResult false "unaligned map_page address") else
  let pml4 := table (root_ (vmm st)) in
  let '(M, pdpt) := ensure_table pml4 (pml4_index virt) (mach st) in
  if pdpt =? 0 then
    (diag (fun d => d <| failed_maps ::= inc64 |>) (st <| mach := M |>),
     mkResult false "failed to allocate PDPT") else
  let '(M, pd) := ensure_table pdpt (pdpt_index virt) M in
  if pd =? 0 then
    (diag (fun d => d <| failed_maps ::= inc64 |>) (st <| mach := M |>),
     mkResult false "failed to allocate PD") else
  let '(M, pt) := ensure_table pd (pd_index virt) M in
  if pt =? 0 then
    (diag (fun d => d <| failed_maps ::= inc64 |>) (st <| mach := M |>),
     mkResult false "failed to allocate PT") else
  if present (entry M pt (pt_index virt)) then
    (diag (fun d => d <| failed_maps ::= inc64 |> <| duplicate_map_rejects ::= inc64 |>)
       (st <| mach := M |>),
     mkResult false "virtual page is already mapped") else
  let M := M <| ram ::= fun m => sa_set m (slot pt (pt_index virt)) (page_entry phys flags) |> in
  let st := invalidate virt (st <| mach := M |>) in
  (diag (fun d => d <| mapped_pages ::= inc64 |> <| last_mapped_virt := virt |>) st,
   mkResult true "ok").

(** The loop body of [map_range] (lines 106-109). *)
Definition map_range_step (virt phys flags i : Z) (st : vmst A)
  : flow (vmst A) (vmst A * MappingResult) :=
  let '(st, result) := map_page (w64 (virt + w64 (i * 4096))) (w64 (phys + w64 (i * 4096))) flags st in
  if negb (ok result) then Stop (st, result) else Next st.

Definition map_range (virt phys length flags : Z) (st : vmst A) : vmst A * MappingResult :=
  let st := diag (fun d => d <| map_range_calls ::= inc64 |>) st in
  let pages := Z.land (w64 (length + 4095)) (not64 4095) / 4096 in
  match loop_range 0 pages (map_range_step virt phys flags) st with
  | Stop r => r
  | Next st => (st, mkResult true "ok")
  end.

Definition reject_unmap (st : vmst A) : vmst A :=
  diag (fun d => d <| failed_unmaps ::= inc64 |> <| absent_unmap_rejects ::= inc64 |>) st.

Definition unmap_page (virt : Z) (st : vmst A) : vmst A * MappingResult :=
  let st := diag (fun d => d <| unmap_page_calls ::= inc64 |>) st in
  let M := mach st in
  let pml4 := table (root_ (vmm st)) in
  let pml4e := entry M pml4 (pml4_index virt) in
  if negb (present pml4e) then (reject_unmap st, mkResult false "PML4 entry absent") else
  let pdpt := table pml4e in
  let pdpte := entry M pdpt (pdpt_index virt) in
  if negb (present pdpte) then (reject_unmap st, mkResult false "PDPT entry absent") else
  let pd := table pdpte in
  let pde := entry M pd (pd_index virt) in
  if negb (present pde) then (reject_unmap st, mkResult false "PD entry absent") else
  let pt := table pde in
  let pte := entry M pt (pt_index virt) in
  if negb (present pte) then (reject_unmap st, mkResult false "PT entry absent") else
  let st := st <| mach ::= fun M =>
                    M <| ram ::= fun m => sa_set m (slot pt (pt_index virt)) 0 |> |> in
  let st := invalidate virt st in
  (diag (fun d => d <| unmapped_pages ::= inc64 |> <| last_unmapped_virt := virt |>) st,
   mkResult true "ok").

Definition translate (virt : Z) (st : vmst A) : Z :=
  let M := mach st in
  let pml4 := table (root_ (vmm st)) in
  let pml4e := entry M pml4 (pml4_index virt) in
  if negb (present pml4e) then 0 else
  let pdpt := table pml4e in
  let pdpte := entry M pdpt (pdpt_index virt) in
  if negb (present pdpte) then 0 else
  if negb (Z.land pdpte (2 ^ 7) =? 0) then
    w64 (Z.land pdpte 0x000fffffc0000000 + Z.land virt 0x3fffffff) else
  let pd := table pdpte in
  let pde := entry M pd (pd_index virt) in
  if negb (present pde) then 0 else
  if negb (Z.land pde (2 ^ 7) =? 0) then
    w64 (Z.land pde 0x000fffffffe00000 + Z.land virt 0x1fffff) else
  let pt := table pde in
  let pte := entry M pt (pt_index virt) in
  if negb (present pte) then 0 else
  w64 (Z.land pte kAddrMask + Z.land virt 0xfff).
End vmm.

(** ** The tables as a map of pages *)

Section theorems.
Context {A : Type} `{PageAllocatorLaws A}.
(** The PML4 slots the manager owns; the others may hold firmware mappings. *)
Context (dom : Z -> bool).

Definition vm_wf (st : vmst A) : Prop := tree_wf dom (root_ (vmm st)) (mach st).
Definition pte (st : vmst A) (v : Z) : option Z := pte_of (root_ (vmm st)) (mach st) v.
Definition owned (v : Z) : Prop := dom (pml4_index v) = true.
Definition aligned (a : Z) : Prop := a mod 4096 = 0.

(** [st'] has the same page map as [st]. *)
Definition same_map (st st' : vmst A) : Prop := forall v, owned v -> pte st' v = pte st v.

Lemma tree_wf_ext root (M M' : machine A) :
  ram M' = ram M -> frames M' = frames M -> tree_wf dom root M -> tree_wf dom root M'.
Proof.
  intros Er Ef [Ha Hi Hf Hu Hm Hs]. split; unfold entry in *; rewrite ?Er, ?Ef; done.
Qed.

Lemma page_low a : Z.land a 4095 = a mod 4096.
Proof. exact (land_low a 12 ltac:(lia)). Qed.

Lemma root_table st : vm_wf st -> table (root_ (vmm st)) = root_ (vmm st).
Proof.
  intros Hw. apply table_frame. apply (tw_frame _ _ _ Hw []); [|done].
  split; [simpl; lia|]. split; [constructor|done].
Qed.

Lemma invalidate_facts virt (st : vmst A) :
  root_ (vmm (invalidate virt st)) = root_ (vmm st) /\
  ram (mach (invalidate virt st)) = ram (mach st) /\
  frames (mach (invalidate virt st)) = frames (mach st).
Proof. unfold invalidate. simpl. by destruct (lapic_timer_active (mach st)). Qed.

Lemma default_flags_ok : table_flags_ok kDefaultTableFlags.
Proof. by repeat split. Qed.

(** Every table of [st'] was there in [st], or is a frame that was free. *)
Definition tables_grow (st st' : vmst A) : Prop :=
  forall q t, vpath dom q -> table_of (ram (mach st')) (root_ (vmm st)) q = Some t ->
    table_of (ram (mach st)) (root_ (vmm st)) q = Some t \/ pa_avail (frames (mach st)) t = true.

(** What a call of [map_page] does, by outcome. *)
Definition map_outcome (virt phys flags : Z) (st : vmst A) (o : vmst A * MappingResult) : Prop :=
  vm_wf o.1 /\ (root_ (vmm o.1) = root_ (vmm st) /\ tables_grow st o.1) /\
  ((ok o.2 = false /\ same_map st o.1 /\
    (~ aligned virt \/ ~ aligned phys \/ pte st virt <> None \/ pa_count (frames (mach st)) < 3)) \/
   (ok o.2 = true /\ aligned virt /\ aligned phys /\ pte st virt = None /\
    forall v, owned v ->
      pte o.1 v = if decide (vpn v = vpn virt) then Some (page_entry phys flags) else pte st v)).

(** Storing the entry once the tables are there. *)
Lemma map_store virt phys flags (st st' : vmst A) M' t :
  vm_wf st -> owned virt -> aligned virt -> aligned phys ->
  extends dom (root_ (vmm st)) (mach st) M' ->
  table_of (ram M') (root_ (vmm st)) (path_of virt) = Some t ->
  present (entry M' t (pt_index virt)) = false ->
  root_ (vmm st') = root_ (vmm st) ->
  ram (mach st') = sa_set (ram M') (slot t (pt_index virt)) (page_entry phys flags) ->
  frames (mach st') = frames M' ->
  map_outcome virt phys flags st (st', mkResult true "ok").
Proof.
  intros Hw Ho Hav Hap X Ht Habs Er Em Ef.
  pose proof (ex_wf _ _ _ _ X) as Hw'.
  set (M1 := M' <| ram ::= fun m => sa_set m (slot t (pt_index virt)) (page_entry phys flags) |>).
  pose proof (path_of_vpath dom virt Ho) as Hp. pose proof (pt_index_ok virt) as Hi.
  split; simpl; [|split; [split; [done|]|right]].
  - unfold vm_wf. rewrite Er. apply (tree_wf_ext _ M1); [done|done|].
    by apply (set_leaf_wf dom _ M' (path_of virt)).
  - intros q t' Hq. rewrite Em. change (sa_set _ _ _) with (ram M1).
    unfold M1. rewrite (set_leaf_table dom (root_ (vmm st)) M' (path_of virt)) by done.
    by apply (ex_new _ _ _ _ X).
  - split_and!; try done.
    + unfold pte. rewrite <- (extends_pte dom _ _ _ virt X Ho).
      unfold pte_of, leaf. rewrite Ht. simpl. unfold entry in Habs. by rewrite Habs.
    + intros v Hv. unfold pte. rewrite Er. unfold pte_of. rewrite Em.
      change (pte_of (root_ (vmm st)) M1 v = if decide (vpn v = vpn virt)
        then Some (page_entry phys flags) else pte_of (root_ (vmm st)) (mach st) v).
      unfold M1. rewrite (set_leaf_pte dom _ M') by done.
      rewrite page_entry_present. case_decide; [done|]. by apply (extends_pte dom).
Qed.

(** A refusal that at most added empty tables. *)
Lemma map_refuse virt phys flags (st st' : vmst A) M' msg :
  extends dom (root_ (vmm st)) (mach st) M' -> root_ (vmm st') = root_ (vmm st) -> mach st' = M' ->
  (~ aligned virt \/ ~ aligned phys \/ pte st virt <> None \/ pa_count (frames (mach st)) < 3) ->
  map_outcome virt phys flags st (st', mkResult false msg).
Proof.
  intros X Er Em Hwhy. split; simpl; [|split; [split; [done|]|left; split_and!; try done]].
  - unfold vm_wf. rewrite Er, Em. apply X.
  - intros q t Hq. rewrite Em. by apply (ex_new _ _ _ _ X).
  - intros v Hv. unfold pte. rewrite Er, Em. by apply (extends_pte dom).
Qed.

Lemma map_page_cases virt phys flags st :
  vm_wf st -> owned virt -> map_outcome virt phys flags st (map_page virt phys flags st).
Proof.
  intros Hw Ho. unfold map_page. rewrite !page_low.
  assert (Hrefl : extends dom (root_ (vmm st)) (mach st) (mach st)) by (by apply extends_refl).
  destruct (Z.eqb_spec (virt mod 4096) 0) as [Hav|Hav]; simpl.
  2: { eapply map_refuse; [done..|]. by left. }
  destruct (Z.eqb_spec (phys mod 4096) 0) as [Hap|Hap]; simpl.
  2: { eapply map_refuse; [done..|]. right. by left. }
  rewrite root_table by done.
  match goal with |- map_outcome _ _ _ _ ?g =>
    change g with (with_tables kDefaultTableFlags (root_ (vmm st)) virt (mach st)
      (fun i M => (diag (fun d => d <| failed_maps ::= inc64 |>)
         (diag (fun d => d <| map_page_calls ::= inc64 |>) st <| mach := M |>),
         mkResult false (match i with O => "failed to allocate PDPT"%string | 1%nat => "failed to allocate PD"%string
                         | _ => "failed to allocate PT"%string end)))
      (fun pt M => if present (entry M pt (pt_index virt)) then
         (diag (fun d => d <| failed_maps ::= inc64 |> <| duplicate_map_rejects ::= inc64 |>)
           (diag (fun d => d <| map_page_calls ::= inc64 |>) st <| mach := M |>),
          mkResult false "virtual page is already mapped") else
         (diag (fun d => d <| mapped_pages ::= inc64 |> <| last_mapped_virt := virt |>)
           (invalidate virt (diag (fun d => d <| map_page_calls ::= inc64 |>) st <| mach := 
             M <| ram ::= fun m => sa_set m (slot pt (pt_index virt)) (page_entry phys flags) |> |>)),
          mkResult true "ok"))) end.
  apply (with_tables_spec dom _ (map_outcome virt phys flags st)); [done|done|apply default_flags_ok|..].
  - intros M' i X Hc. eapply map_refuse; [done..|]. right. right. by right.
  - intros M' t X Ht. destruct (present (entry M' t (pt_index virt))) eqn:Hpr.
    + eapply map_refuse; [done..|]. right. right. left.
      unfold pte. rewrite <- (extends_pte dom _ _ _ virt X Ho).
      unfold pte_of, leaf. rewrite Ht. simpl. unfold entry in Hpr. by rewrite Hpr.
    + match goal with |- map_outcome _ _ _ _ (diag _ (invalidate _ ?s), _) =>
        destruct (invalidate_facts virt s) as (E1 & E2 & E3) end.
      eapply (map_store _ _ _ _ _ M' t); try done.
Qed.

(** ** Lookup *)

Lemma small_entry st p t i :
  vm_wf st -> vpath dom (p ++ [i]) -> (1 <= length p)%nat ->
  table_of (ram (mach st)) (root_ (vmm st)) p = Some t ->
  present (entry (mach st) t i) = true ->
  negb (Z.land (entry (mach st) t i) (2 ^ 7) =? 0) = false.
Proof.
  intros Hw Hp Hl Ht Hpr. rewrite (land_pow2 _ 7 ltac:(lia)). by apply (tw_small _ _ _ Hw p).
Qed.

(** [translate] looks the page up and adds the offset. *)
Lemma translate_lookup v st :
  vm_wf st -> owned v ->
  translate v st = match pte st v with Some e => w64 (table e + v mod 4096) | None => 0 end.
Proof.
  intros Hw Ho. pose proof (path_of_vpath dom v Ho) as Hv.
  unfold translate. rewrite root_table by done.
  unfold pte, pte_of, leaf, path_of in *. simpl. fold (entry (mach st) (root_ (vmm st)) (pml4_index v)).
  set (e4 := entry _ _ (pml4_index v)). destruct (present e4) eqn:E4; simpl; [|done].
  set (e3 := entry _ (table e4) (pdpt_index v)).
  fold (entry (mach st) (table e4) (pdpt_index v)). fold e3.
  destruct (present e3) eqn:E3; simpl; [|done].
  assert (T4 : table_of (ram (mach st)) (root_ (vmm st)) [pml4_index v] = Some (table e4)).
  { simpl. unfold e4, entry in *. by rewrite E4. }
  assert (S3 : negb (Z.land e3 (2 ^ 7) =? 0) = false).
  { apply (small_entry st [pml4_index v] (table e4)); try done.
    exact (vpath_prefix _ [pml4_index v; pdpt_index v] _ Hv). }
  rewrite S3.
  set (e2 := entry _ (table e3) (pd_index v)).
  fold (entry (mach st) (table e3) (pd_index v)). fold e2.
  destruct (present e2) eqn:E2; simpl; [|done].
  assert (S2 : negb (Z.land e2 (2 ^ 7) =? 0) = false).
  { apply (small_entry st [pml4_index v; pdpt_index v] (table e3)); [done|done|simpl; lia| |done].
    rewrite (table_of_app _ _ [pml4_index v] [pdpt_index v] : table_of _ _ [_; _] = _), T4. simpl. unfold e3, entry in *. by rewrite E3. }
  rewrite S2.
  fold (entry (mach st) (table e2) (pt_index v)).
  rewrite page_low. by destruct (present (entry (mach st) (table e2) (pt_index v))).
Qed.

(** ** Deletion *)

Lemma same_map_diag f (st : vmst A) : same_map st (diag f st).
Proof. by intros v Hv. Qed.

Lemma unmap_page_cases virt st :
  vm_wf st -> owned virt ->
  let o := unmap_page virt st in
  vm_wf o.1 /\ root_ (vmm o.1) = root_ (vmm st) /\ ok o.2 = bool_decide (is_Some (pte st virt)) /\
  forall v, owned v -> pte o.1 v = if decide (vpn v = vpn virt) then None else pte st v.
Proof.
  intros Hw Ho. cbv zeta.
  assert (Hno : pte st virt = None -> forall v, owned v ->
    pte st v = if decide (vpn v = vpn virt) then None else pte st v).
  { intros E v _. case_decide as Hd; [|done]. unfold pte. by rewrite (pte_of_page _ _ v virt). }
  pose proof (path_of_vpath dom virt Ho) as Hv.
  unfold unmap_page. set (st0 := diag _ st).
  change (vm_wf st0) in Hw. change (pte st) with (pte st0) in *. change (root_ (vmm st)) with (root_ (vmm st0)).
  clearbody st0. clear st. rename st0 into st. cbv zeta. rewrite root_table by done.
  assert (Ep : pte st virt = pte_of (root_ (vmm st)) (mach st) virt) by done.
  assert (Et : table_of (ram (mach st)) (root_ (vmm st)) (path_of virt) =
               table_of (ram (mach st)) (root_ (vmm st)) (path_of virt)) by done.
  unfold pte_of, leaf, path_of in Ep. unfold path_of in Et at 2. cbn [table_of] in Et, Ep.
  do 3 match type of Et with
  | _ = (if present (sa_get (ram (mach st)) (slot ?t ?i)) then _ else _) =>
    change (sa_get (ram (mach st)) (slot t i)) with (entry (mach st) t i) in Et, Ep;
    destruct (present (entry (mach st) t i)); cbn [negb mbind option_bind] in Et, Ep |- *;
    [|rewrite Ep; split_and!; [done..|by apply Hno]]
  end.
  match type of Et with _ = Some ?x => set (t := x) in * end.
  change (sa_get (ram (mach st)) (slot t (pt_index virt))) with (entry (mach st) t (pt_index virt)) in Ep.
  destruct (present (entry (mach st) t (pt_index virt))); cbn [negb] in Ep |- *;
    [|rewrite Ep; split_and!; [done..|by apply Hno]].
  match goal with |- context [invalidate virt ?s] =>
    destruct (invalidate_facts virt s) as (E1 & E2 & E3); set (st1 := invalidate virt s) in * end.
  simpl in E1, E2, E3. rewrite Ep.
  set (M1 := mach st <| ram ::= fun m => sa_set m (slot t (pt_index virt)) 0 |>).
  split_and!; [|done|done|].
  - unfold vm_wf. simpl. rewrite E1. apply (tree_wf_ext _ M1); [done|done|].
    apply (set_leaf_wf dom _ _ (path_of virt)); eauto using pt_index_ok.
  - intros v Hv'. transitivity (pte_of (root_ (vmm st)) M1 v).
    + unfold pte, pte_of. simpl. by rewrite E1, E2.
    + unfold M1. by rewrite (set_leaf_pte dom).
Qed.

(** C1. [map_page] is insertion into the page map.  It succeeds exactly by
    adding the entry of an aligned frame at an aligned, unmapped page; when it
    refuses, the map is unchanged, and it refuses only a misaligned argument, a
    page already mapped, or for want of three free frames. *)
Theorem map_page_refines_insert virt phys flags st st' r :
  vm_wf st -> owned virt -> map_page virt phys flags st = (st', r) ->
  vm_wf st' /\
  (if ok r
   then pte st virt = None /\ aligned virt /\ aligned phys /\
        forall v, owned v ->
          pte st' v = if decide (vpn v = vpn virt) then Some (page_entry phys flags) else pte st v
   else same_map st st' /\
        (~ aligned virt \/ ~ aligned phys \/ pte st virt <> None \/
         pa_count (frames (mach st)) < 3)).
Proof.
  intros Hw Ho E. destruct (map_page_cases virt phys flags st Hw Ho) as (Hw' & _ & Hc).
  rewrite E in *. cbn [fst snd] in *. split; [done|]. destruct Hc as [(-> & ?)|(-> & ?)]; tauto.
Qed.

(** After a successful [map_page], [translate] sends every byte of the page
    to the byte of the frame at the same offset, and every other page of the
    manager's slots translates as before. *)
Theorem map_page_translate virt phys flags st st' r off :
  vm_wf st -> owned virt -> u64 flags -> 0 <= phys < 2 ^ 52 -> 0 <= off < 4096 ->
  map_page virt phys flags st = (st', r) -> ok r = true ->
  translate (virt + off) st' = phys + off /\
  (forall v, owned v -> vpn v <> vpn virt -> translate v st' = translate v st).
Proof.
  intros Hw Ho Hf Hp Hoff E Hok.
  destruct (map_page_cases virt phys flags st Hw Ho) as (Hw' & _ & Hc).
  rewrite E in *. cbn [fst snd] in *.
  destruct Hc as [(? & _)|(_ & Hav & Hap & _ & Hm)]; [congruence|].
  assert (Hpg : vpn (virt + off) = vpn virt).
  { unfold vpn, aligned in *. f_equal. Z.to_euclidean_division_equations. lia. }
  apply path_of_inj in Hpg as Hpath. destruct Hpath as [Hpath _].
  split.
  - assert (owned (virt + off)).
    { unfold owned, path_of in *. injection Hpath as -> _ _. done. }
    rewrite translate_lookup, Hm, decide_True, page_entry_table by done.
    unfold aligned in *. word_lia.
  - intros v Hv Hne. rewrite !translate_lookup, Hm, decide_False by done. done.
Qed.

(** C39. [unmap_page] is deletion from the page map: it reports success exactly
    for a mapped page, and afterwards that page alone is unmapped. *)
Theorem unmap_page_refines_delete virt st st' r :
  vm_wf st -> owned virt -> unmap_page virt st = (st', r) ->
  vm_wf st' /\ (ok r = true <-> is_Some (pte st virt)) /\ translate virt st' = 0 /\
  (forall v, owned v -> pte st' v = if decide (vpn v = vpn virt) then None else pte st v).
Proof.
  intros Hw Ho E. destruct (unmap_page_cases virt st Hw Ho) as (Hw' & _ & Hok & Hm).
  rewrite E in *. cbn [fst snd] in *.
  split_and!; [done|by rewrite Hok, bool_decide_eq_true| |done].
  rewrite translate_lookup by done. by rewrite Hm, decide_True.
Qed.

(** ** Ranges *)

(** The page map after the first [k] pages of a range. *)
Definition range_mapped (virt phys flags k : Z) (st st' : vmst A) : Prop :=
  forall v, owned v ->
    pte st' v = let j := (vpn v - vpn virt) mod 2 ^ 36 in
                if j <? k then Some (page_entry (w64 (phys + w64 (j * 4096))) flags) else pte st v.

Lemma vpn_step virt i : vpn (w64 (virt + w64 (i * 4096))) = (vpn virt + i) mod 2 ^ 36.
Proof. unfold vpn. change (2 ^ 36) with 68719476736. word_lia. Qed.

Lemma map_range_step_spec virt phys flags n st i st1 :
  0 <= i < n -> n <= 2 ^ 36 -> owned (w64 (virt + w64 (i * 4096))) ->
  vm_wf st1 -> range_mapped virt phys flags i st st1 ->
  flow_spec (fun st2 => vm_wf st2 /\ range_mapped virt phys flags (i + 1) st st2)
    (fun r => vm_wf r.1 /\ ok r.2 = false /\ range_mapped virt phys flags i st r.1)
    (map_range_step virt phys flags i st1).
Proof.
  intros Hi Hn Ho Hw Hr. unfold map_range_step.
  set (vi := w64 (virt + w64 (i * 4096))) in *. set (pi := w64 (phys + w64 (i * 4096))).
  destruct (map_page_cases vi pi flags st1 Hw Ho) as (Hw' & _ & Hc).
  destruct (map_page vi pi flags st1) as [st2 r]. cbn [fst snd] in *.
  destruct Hc as [(Hok & Hs & _)|(Hok & _ & _ & _ & Hm)]; rewrite Hok; simpl.
  - split_and!; [done|done|]. intros v Hv. rewrite Hs by done. by apply Hr.
  - split; [done|]. intros v Hv. rewrite Hm by done. cbv zeta.
    assert (Hb : 0 <= (vpn v - vpn virt) mod 2 ^ 36 < 2 ^ 36) by (apply Z.mod_pos_bound; lia).
    assert (Hiff : vpn v = vpn vi <-> (vpn v - vpn virt) mod 2 ^ 36 = i).
    { unfold vi. rewrite vpn_step.
      assert (0 <= vpn v < 2 ^ 36) by (apply Z.mod_pos_bound; lia).
      clear - H0 Hi Hn. change (2 ^ 36) with 68719476736 in *. word_lia. }
    case_decide as Hd.
    + apply Hiff in Hd. rewrite Hd, (proj2 (Z.ltb_lt i (i + 1))) by lia. done.
    + rewrite Hr by done. cbv zeta.
      destruct (Z.ltb_spec ((vpn v - vpn virt) mod 2 ^ 36) i), (Z.ltb_spec ((vpn v - vpn virt) mod 2 ^ 36) (i + 1));
        try done; lia.
Qed.

(** The number of pages of a range. *)
Definition range_pages (length : Z) : Z := (length + 4095) / 4096.

(** [map_range] maps the pages of the range in order up to the first one
    [map_page] refuses: on success every page of the range points to the frame
    at the same distance from [phys], on failure exactly a proper prefix of the
    range does, and no page outside the range is affected. *)
Theorem map_range_prefix virt phys length flags st st' r :
  vm_wf st -> 0 <= length <= 2 ^ 48 ->
  (forall i, 0 <= i < range_pages length -> owned (w64 (virt + w64 (i * 4096)))) ->
  map_range virt phys length flags st = (st', r) ->
  vm_wf st' /\
  exists k, 0 <= k <= range_pages length /\ (ok r = true <-> k = range_pages length) /\
    range_mapped virt phys flags k st st'.
Proof.
  intros Hw Hlen Ho E. unfold map_range in E. set (st0 := diag _ st) in E.
  assert (En : Z.land (w64 (length + 4095)) (not64 4095) / 4096 = range_pages length).
  { change 4095 with (2 ^ 12 - 1) at 2. rewrite land_high by (apply w64_range || lia).
    rewrite w64_small by word_lia. unfold range_pages. change (2 ^ 12) with 4096. word_lia. }
  rewrite En in E. set (n := range_pages length) in *.
  assert (Hn : 0 <= n <= 2 ^ 36).
  { unfold n, range_pages. change (2 ^ 36) with 68719476736. word_lia. }
  assert (Hl : flow_spec (fun s => vm_wf s /\ range_mapped virt phys flags (Z.max 0 n) st s)
    (fun o => vm_wf o.1 /\ ok o.2 = false /\
       exists k, 0 <= k < n /\ range_mapped virt phys flags k st o.1)
    (loop_range 0 n (map_range_step virt phys flags) st0)).
  { apply (loop_range_inv (fun i s => vm_wf s /\ range_mapped virt phys flags i st s)).
    - split; [done|]. intros v Hv. cbv zeta.
      assert (0 <= (vpn v - vpn virt) mod 2 ^ 36) by (apply Z.mod_pos_bound; lia).
      by rewrite (proj2 (Z.ltb_ge _ 0)) by done.
    - intros i s1 Hi [Hw1 Hr1]. pose proof (map_range_step_spec virt phys flags n st i s1 Hi
        (proj2 Hn) (Ho i Hi) Hw1 Hr1) as Hs.
      destruct (map_range_step virt phys flags i s1); simpl in *; [done|].
      destruct Hs as (? & ? & ?). eauto. }
  destruct (loop_range 0 n _ st0) as [s|o]; cbn [flow_spec] in Hl.
  - injection E as <- <-. destruct Hl as [Hw' Hr]. split; [done|]. exists n.
    split; [lia|]. split; [done|]. by replace (Z.max 0 n) with n in Hr by lia.
  - subst o. destruct Hl as (Hw' & Hf & k & Hk & Hr). cbn [fst snd] in *.
    split; [done|]. exists k. split; [lia|]. split; [|done]. rewrite Hf. split; [done|lia].
Qed.
End theorems.

(** ** The switch to an owned root *)

Lemma copy_page_in dst src m i :
  frame_ok dst -> frame_ok src -> dst <> src -> idx_ok i ->
  sa_get (copy_page dst src m) (slot dst i) = sa_get m (slot src i).
Proof.
  intros Hd Hs Hne Hi. unfold copy_page.
  set (P := fun k m' => (forall j, 0 <= j < k -> sa_get m' (slot dst j) = sa_get m (slot src j)) /\
    forall j, idx_ok j -> sa_get m' (slot src j) = sa_get m (slot src j)).
  enough (HP : P (Z.max 0 512) (for_range 0 512
    (fun i m => sa_set m (slot dst i) (sa_get m (slot src i))) m)) by (apply HP; exact Hi).
  apply for_range_inv; [split; [lia|done]|]. intros k m' Hk [IH1 IH2]. split.
  - intros j Hj. destruct (decide (j = k)) as [->|].
    + rewrite sa_get_set_eq. by apply IH2.
    + rewrite sa_get_set_ne by (unfold slot; lia). apply IH1. lia.
  - intros j Hj. rewrite sa_get_set_ne; [by apply IH2|].
    intros Es. by destruct (slot_inj dst src k j).
Qed.

(** [initialize_identity] leaves the processor on a root of the kernel's own
    whose 512 entries are those of the firmware's root, or on the firmware's
    root when no frame is left. *)
Lemma initialize_identity_root {A} `{PageAllocatorLaws A} (st : vmst A) i :
  pa_wf (frames (mach st)) -> frame_ok (table (cr3 (mach st))) ->
  pa_avail (frames (mach st)) (table (cr3 (mach st))) = false -> idx_ok i ->
  let st' := initialize_identity st in
  entry (mach st') (root_ (vmm st')) i = entry (mach st) (table (cr3 (mach st))) i /\
  (root_ (vmm st') = table (cr3 (mach st)) /\ pa_count (frames (mach st)) = 0 \/
   root_ (vmm st') = cr3 (mach st') /\ pa_avail (frames (mach st)) (cr3 (mach st')) = true).
Proof.
  intros Hs Hfw Hused Hi. unfold initialize_identity.
  change (Z.land (cr3 (mach st)) kAddrMask) with (table (cr3 (mach st))).
  pose proof (pa_alloc_cases _ Hs) as Hc. destruct (pa_alloc (frames (mach st))) as [s page].
  cbn [fst snd] in Hc. destruct Hc as [(-> & Hz & _)|(Hok & Hav & _)].
  - simpl. auto.
  - destruct (Z.eqb_spec page 0) as [->|_]; [destruct Hok; lia|].
    assert (Hpg : Z.land page kAddrMask = page) by (by apply table_frame).
    cbv zeta. unfold load_cr3. simpl. rewrite !Hpg. split; [|by right].
    unfold entry. simpl. apply copy_page_in; try done. congruence.
Qed.

(** ** Concrete runs *)

Definition demo_vm : vmst PhysicalMemoryManager :=
  mkVmst (vmm_zero <| root_ := demo_root |>) demo_machine.
Definition all_slots (i : Z) : bool := true.

Lemma demo_vm_wf : vm_wf all_slots demo_vm.
Proof. apply demo_machine_wf. Qed.

Lemma map_page_refines_insert_witness :
  pte (map_page 0xffff800000000000 0x5000 PageWrite demo_vm).1 0xffff800000000000 = Some 0x5003 /\
  same_map all_slots demo_vm (map_page 0xffff800000000000 0x5008 PageWrite demo_vm).1.
Proof.
  destruct (map_page_refines_insert all_slots 0xffff800000000000 0x5000 PageWrite demo_vm
    (map_page 0xffff800000000000 0x5000 PageWrite demo_vm).1 (mkResult true "ok")
    demo_vm_wf eq_refl) as (_ & _ & _ & _ & Hm); [apply pair_snd; vm_compute; reflexivity|].
  destruct (map_page_refines_insert all_slots 0xffff800000000000 0x5008 PageWrite demo_vm
    (map_page 0xffff800000000000 0x5008 PageWrite demo_vm).1 (mkResult false "unaligned map_page address")
    demo_vm_wf eq_refl) as (_ & Hs & _); [apply pair_snd; vm_compute; reflexivity|].
  split; [|exact Hs]. rewrite Hm; [|done]. vm_compute. reflexivity.
Defined.

Lemma map_page_translate_witness :
  translate (0xffff800000000000 + 0x120) (map_page 0xffff800000000000 0x5000 PageWrite demo_vm).1
  = 0x5000 + 0x120.
Proof.
  apply (map_page_translate all_slots 0xffff800000000000 0x5000 PageWrite demo_vm _
    (mkResult true "ok") 0x120 demo_vm_wf eq_refl);
    [by unfold u64, two64, PageWrite|by split|by split|apply pair_snd; vm_compute; reflexivity|reflexivity].
Defined.

(** The state after mapping one page. *)
Definition demo_vm1 : vmst PhysicalMemoryManager :=
  (map_page 0xffff800000000000 0x5000 PageWrite demo_vm).1.

Lemma demo_vm1_wf : vm_wf all_slots demo_vm1.
Proof. apply (map_page_cases all_slots 0xffff800000000000 0x5000 PageWrite demo_vm demo_vm_wf eq_refl). Qed.

Lemma unmap_page_refines_delete_witness :
  translate 0xffff800000000000 (unmap_page 0xffff800000000000 demo_vm1).1 = 0 /\
  is_Some (pte demo_vm1 0xffff800000000000).
Proof.
  destruct (unmap_page_refines_delete all_slots 0xffff800000000000 demo_vm1
    (unmap_page 0xffff800000000000 demo_vm1).1 (mkResult true "ok") demo_vm1_wf eq_refl)
    as (_ & Hok & Ht & _); [apply pair_snd; vm_compute; reflexivity|].
  split; [exact Ht|]. by apply Hok.
Defined.

Lemma map_range_prefix_witness :
  exists k, range_mapped all_slots 0xffff800000000000 0x200000 PageWrite k demo_vm
    (map_range 0xffff800000000000 0x200000 0x2001 PageWrite demo_vm).1 /\ k = 3.
Proof.
  destruct (map_range_prefix all_slots 0xffff800000000000 0x200000 0x2001 PageWrite demo_vm
    (map_range 0xffff800000000000 0x200000 0x2001 PageWrite demo_vm).1 (mkResult true "ok")
    demo_vm_wf) as (_ & k & _ & Hk & Hr).
  - by split.
  - done.
  - apply pair_snd. vm_compute. reflexivity.
  - exists k. split; [exact Hr|]. by apply Hk.
Defined.

(** ** Large pages

    [translate] follows a large-page entry; [map_page] does not look at the
    size bit and takes the large page for a table.  Below, a 2 MiB page at
    0x200000 is mapped to the frame 0x200000; mapping a 4 KiB page inside it
    reports success, overwrites a word of the data at 0x200000, and leaves
    [translate] where it was. *)
Definition large_vm : vmst PhysicalMemoryManager :=
  let m := sa_set (sa_const 0) (slot demo_root 0) 0x300003 in
  let m := sa_set m (slot 0x300000 0) 0x301003 in
  let m := sa_set m (slot 0x301000 1) 0x200083 in
  demo_vm <| mach ::= fun M => M <| ram := m |> |>.

Lemma map_page_ignores_large_pages :
  let '(st', r) := map_page 0x201000 0x7000 PageWrite large_vm in
  ok r = true /\ translate 0x201000 st' = 0x201000 /\
  sa_get (ram (mach large_vm)) (slot 0x200000 1) = 0 /\
  sa_get (ram (mach st')) (slot 0x200000 1) = 0x7003.
Proof. vm_compute. by split_and!. Qed.
