(* ===== verification/AddressSpace.v ===== *)
(** * User address spaces (kernel/src/mm/address_space.cpp)

    Creation of a root that shares the kernel's upper half, mapping and lookup
    in the lower half, and the walk that frees every table of the lower half.
    The theorems show that a space is created empty, that mapping is insertion
    and reaches no other space, and that destruction returns each table to the
    allocator exactly once. *)

From S2P Require Import Prelude Pmm PageTable PmmFrames Vmm.
From stdpp Require Import strings.
#[local] Open Scope Z_scope.

Record AddressSpace := mkSpace { pml4 : Z }.

Section address_space.
Context {A : Type} `{PageAllocator A}.

Definition as_ensure_table (parent index flags : Z) (M : machine A) : machine A * Z :=
  ensure_table_with (Z.lor (Z.lor PagePresent PageWrite) (Z.land flags PageUser)) parent index M.

(** Line 32: the kernel's half of the root. *)
Definition copy_kernel_half (dst src : Z) (M : machine A) : machine A :=
  for_range 256 512 (fun i M =>
    M <| ram ::= fun m => sa_set m (slot dst i) (sa_get m (slot src i)) |>) M.

Definition create_address_space (M : machine A) : machine A * AddressSpace :=
  let '(s, root) := pa_alloc (frames M) in
  let M := M <| frames := s |> in
  if root =? 0 then (M, mkSpace 0) else
  let M := M <| ram ::= zero_page root |> in
  let dst := table root in
  let src := table (cr3 M) in
  (copy_kernel_half dst src M, mkSpace root).

Definition as_map_page (space : AddressSpace) (virt phys flags : Z) (M : machine A)
  : machine A * MappingResult :=
  if pml4 space =? 0 then (M, mkResult false "address space has no PML4") else
  if negb (Z.land virt 4095 =? 0) || negb (Z.land phys 4095 =? 0)
  then (M, mkResult false "unaligned address-space map") else
  let root := table (pml4 space) in
  let '(M, pdpt) := as_ensure_table root (pml4_index virt) flags M in
  if pdpt =? 0 then (M, mkResult false "failed to allocate address-space PDPT") else
  let '(M, pd) := as_ensure_table pdpt (pdpt_index virt) flags M in
  if pd =? 0 then (M, mkResult false "failed to allocate address-space PD") else
  let '(M, pt) := as_ensure_table pd (pd_index virt) flags M in
  if pt =? 0 then (M, mkResult false "failed to allocate address-space PT") else
  if present (entry M pt (pt_index virt))
  then (M, mkResult false "address-space virtual page is already mapped") else
  (M <| ram ::= fun m => sa_set m (slot pt (pt_index virt)) (page_entry phys flags) |>,
   mkResult true "ok").

Definition as_translate (space : AddressSpace) (virt : Z) (M : machine A) : Z :=
  if pml4 space =? 0 then 0 else
  let root := table (pml4 space) in
  let pml4e := entry M root (pml4_index virt) in
  if negb (present pml4e) then 0 else
  let pdpt := table pml4e in
  let pdpte := entry M pdpt (pdpt_index virt) in
  if negb (present pdpte) then 0 else
  let pd := table pdpte in
  let pde := entry M pd (pd_index virt) in
  if negb (present pde) then 0 else
  let pt := table pde in
  let pte := entry M pt (pt_index virt) in
  if negb (present pte) then 0 else
  w64 (Z.land pte kAddrMask + Z.land virt 0xfff).

Definition page_flags (space : AddressSpace) (virt : Z) (M : machine A) : Z :=
  if pml4 space =? 0 then 0 else
  let root := table (pml4 space) in
  let pml4e := entry M root (pml4_index virt) in
  if negb (present pml4e) then 0 else
  let pdpt := table pml4e in
  let pdpte := entry M pdpt (pdpt_index virt) in
  if negb (present pdpte) then 0 else
  let pd := table pdpte in
  let pde := entry M pd (pd_index virt) in
  if negb (present pde) then 0 else
  entry M (table pde) (pt_index virt).

Definition free_frame (a : Z) (M : machine A) : machine A := M <| frames ::= pa_free a |>.

(** The three nested loops of [destroy_address_space], innermost first (lines
    94-98, 90-100 and 86-102). *)
Definition destroy_pd (pd pdi : Z) (M : machine A) : machine A :=
  let pde := entry M pd pdi in
  if negb (present pde) then M else free_frame (Z.land pde kAddrMask) M.

Definition destroy_pdpt (pdpt pdpti : Z) (M : machine A) : machine A :=
  let pdpte := entry M pdpt pdpti in
  if negb (present pdpte) then M else
  let M := for_range 0 512 (destroy_pd (table pdpte)) M in
  free_frame (Z.land pdpte kAddrMask) M.

Definition destroy_pml4 (root pml4i : Z) (M : machine A) : machine A :=
  let pml4e := entry M root pml4i in
  if negb (present pml4e) then M else
  let M := for_range 0 512 (destroy_pdpt (table pml4e)) M in
  free_frame (Z.land pml4e kAddrMask) M.

Definition destroy_address_space (space : AddressSpace) (M : machine A)
  : machine A * AddressSpace :=
  if pml4 space =? 0 then (M, space) else
  let M := for_range 0 256 (destroy_pml4 (table (pml4 space))) M in
  let M := free_frame (pml4 space) M in
  (M, mkSpace 0).
End address_space.

(** ** Spaces as page maps *)

(** The PML4 slots of the lower half belong to the space. *)
Definition lower (i : Z) : bool := i <? 256.

Section theorems.
Context {A : Type} `{PageAllocatorLaws A}.

Record space_wf (sp : AddressSpace) (M : machine A) : Prop := {
  sw_tree : tree_wf lower (pml4 sp) M;
  sw_root : pa_managed (frames M) (pml4 sp) = true;
}.

Definition user (v : Z) : Prop := lower (pml4_index v) = true.
Definition as_pte (sp : AddressSpace) (M : machine A) (v : Z) : option Z := pte_of (pml4 sp) M v.

Lemma root_path : vpath lower [].
Proof. split; [simpl; lia|]. split; [constructor|done]. Qed.

Lemma space_root sp M : space_wf sp M -> frame_ok (pml4 sp) /\ pml4 sp <> 0 /\ table (pml4 sp) = pml4 sp.
Proof.
  intros [Hw _]. assert (Hf : frame_ok (pml4 sp)) by (by apply (tw_frame _ _ _ Hw []); [apply root_path|]).
  split_and!; [done|destruct Hf; lia|by apply table_frame].
Qed.

Lemma as_flags_ok flags : table_flags_ok (Z.lor (Z.lor PagePresent PageWrite) (Z.land flags PageUser)).
Proof.
  assert (Hc : Z.land flags PageUser = 0 \/ Z.land flags PageUser = 4).
  { unfold PageUser. change 4 with (2 ^ 2). destruct (Z.testbit flags 2) eqn:E.
    - right. apply Z.bits_inj'. intros n Hn. rewrite Z.land_spec, Z.pow2_bits_eqb by lia.
      destruct (Z.eqb_spec 2 n) as [<-|]; [by rewrite E|apply andb_false_r].
    - left. apply Z.bits_inj'. intros n Hn. rewrite Z.land_spec, Z.pow2_bits_eqb, Z.bits_0 by lia.
      destruct (Z.eqb_spec 2 n) as [<-|]; [by rewrite E|apply andb_false_r]. }
  destruct Hc as [-> | ->]; by repeat split.
Qed.

(** [M'] is [M] after a call on the space [sp], seen from outside it: only
    words of its tables and of free frames have changed. *)
Definition confined (root : Z) (M M' : machine A) : Prop :=
  (forall a, untouched lower root M a -> sa_get (ram M') a = sa_get (ram M) a) /\
  (forall q t, vpath lower q -> table_of (ram M') root q = Some t ->
     table_of (ram M) root q = Some t \/ pa_avail (frames M) t = true) /\
  (forall f, frame_ok f -> pa_avail (frames M') f = true -> pa_avail (frames M) f = true) /\
  (forall f, pa_managed (frames M') f = pa_managed (frames M) f) /\ pa_wf (frames M').

(** Its tables stay, and the frames it takes become tables of the space. *)
Definition spends (root : Z) (M M' : machine A) : Prop :=
  (forall q t, vpath lower q -> table_of (ram M) root q = Some t -> table_of (ram M') root q = Some t) /\
  (forall f, frame_ok f -> pa_avail (frames M) f = true ->
     pa_avail (frames M') f = true \/ exists q, vpath lower q /\ table_of (ram M') root q = Some f) /\
  pa_count (frames M') <= pa_count (frames M).

Definition as_map_outcome (sp : AddressSpace) (virt phys flags : Z) (M : machine A)
    (o : machine A * MappingResult) : Prop :=
  space_wf sp o.1 /\ confined (pml4 sp) M o.1 /\ spends (pml4 sp) M o.1 /\
  ((ok o.2 = false /\ (forall v, user v -> as_pte sp o.1 v = as_pte sp M v) /\
    (~ aligned virt \/ ~ aligned phys \/ as_pte sp M virt <> None \/ pa_count (frames M) < 3)) \/
   (ok o.2 = true /\ aligned virt /\ aligned phys /\ as_pte sp M virt = None /\
    forall v, user v -> as_pte sp o.1 v =
      if decide (vpn v = vpn virt) then Some (page_entry phys flags) else as_pte sp M v)).

Lemma extends_confined root M M' : extends lower root M M' -> confined root M M'.
Proof.
  intros X. pose proof (tw_alloc _ _ _ (ex_wf _ _ _ _ X)). by destruct X.
Qed.

Lemma as_refuse sp virt phys flags M M' msg :
  space_wf sp M -> extends lower (pml4 sp) M M' ->
  (~ aligned virt \/ ~ aligned phys \/ as_pte sp M virt <> None \/ pa_count (frames M) < 3) ->
  as_map_outcome sp virt phys flags M (M', mkResult false msg).
Proof.
  intros Hs X Hwhy. split; [|split; [by apply extends_confined|split; [by destruct X|left]]]; simpl.
  - split; [apply X|]. rewrite (ex_managed _ _ _ _ X). apply Hs.
  - split_and!; [done| |done]. intros v Hv. by apply (extends_pte lower).
Qed.

Lemma as_store sp virt phys flags M M' t :
  space_wf sp M -> user virt -> aligned virt -> aligned phys ->
  extends lower (pml4 sp) M M' ->
  table_of (ram M') (pml4 sp) (path_of virt) = Some t ->
  present (entry M' t (pt_index virt)) = false ->
  as_map_outcome sp virt phys flags M
    (M' <| ram ::= fun m => sa_set m (slot t (pt_index virt)) (page_entry phys flags) |>, mkResult true "ok").
Proof.
  intros Hs Hu Hav Hap X Ht Habs. pose proof (ex_wf _ _ _ _ X) as Hw.
  pose proof (path_of_vpath lower virt Hu) as Hp. pose proof (pt_index_ok virt) as Hi.
  destruct (extends_confined _ _ _ X) as (K1 & K2 & K3 & K4 & K5).
  split; [|split; [|split; [|right]]]; cbn [fst snd ok].
  - split; [by apply (set_leaf_wf lower _ M' (path_of virt))|].
    simpl. rewrite K4. apply Hs.
  - unfold confined. split_and!; try done.
    + intros a Ha. rewrite (set_leaf_ram lower (pml4 sp) M' (path_of virt)); eauto using extends_untouched.
    + intros q t' Hq. rewrite (set_leaf_table lower (pml4 sp) M' (path_of virt)) by done. by apply K2.
  - unfold spends. split_and!; [| |apply X].
    + intros q t' Hq Et. rewrite (set_leaf_table lower (pml4 sp) M' (path_of virt)) by done.
      by apply (ex_table _ _ _ _ X).
    + intros f Hf Hf1. destruct (ex_taken _ _ _ _ X f Hf Hf1) as [?|(q & Hq & Et)]; [by left|]. right. exists q.
      split; [done|]. by rewrite (set_leaf_table lower (pml4 sp) M' (path_of virt)).
  - split_and!; try done.
    + unfold as_pte. rewrite <- (extends_pte lower _ _ _ virt X Hu).
      unfold pte_of, leaf. rewrite Ht. simpl. unfold entry in Habs. by rewrite Habs.
    + intros v Hv. unfold as_pte. rewrite (set_leaf_pte lower _ M') by done.
      rewrite page_entry_present. case_decide; [done|]. by apply (extends_pte lower).
Qed.

Lemma as_map_page_cases sp virt phys flags M :
  space_wf sp M -> user virt ->
  as_map_outcome sp virt phys flags M (as_map_page sp virt phys flags M).
Proof.
  intros Hs Hu. destruct (space_root sp M Hs) as (Hroot & Hne & Htab).
  unfold as_map_page. rewrite !page_low, (proj2 (Z.eqb_neq _ 0) Hne), Htab.
  assert (Hrefl : extends lower (pml4 sp) M M) by (apply extends_refl, Hs).
  destruct (Z.eqb_spec (virt mod 4096) 0) as [Hav|Hav]; simpl.
  2: { apply as_refuse; auto. }
  destruct (Z.eqb_spec (phys mod 4096) 0) as [Hap|Hap]; simpl.
  2: { apply as_refuse; auto. }
  match goal with |- as_map_outcome _ _ _ _ _ ?g =>
    change g with (with_tables (Z.lor (Z.lor PagePresent PageWrite) (Z.land flags PageUser)) (pml4 sp) virt M
      (fun i M => (M, mkResult false (match i with
         | O => "failed to allocate address-space PDPT"%string
         | 1%nat => "failed to allocate address-space PD"%string
         | _ => "failed to allocate address-space PT"%string end)))
      (fun pt M => if present (entry M pt (pt_index virt))
         then (M, mkResult false "address-space virtual page is already mapped") else
         (M <| ram ::= fun m => sa_set m (slot pt (pt_index virt)) (page_entry phys flags) |>,
          mkResult true "ok"))) end.
  apply (with_tables_spec lower _ (as_map_outcome sp virt phys flags M));
    [apply Hs|done|apply as_flags_ok|..].
  - intros M' i X Hc. apply as_refuse; auto.
  - intros M' t X Ht. destruct (present (entry M' t (pt_index virt))) eqn:Hpr.
    + apply as_refuse; [done..|]. right. right. left.
      unfold as_pte. rewrite <- (extends_pte lower _ _ _ virt X Hu).
      unfold pte_of, leaf. rewrite Ht. simpl. unfold entry in Hpr. by rewrite Hpr.
    + by apply as_store.
Qed.

(** ** Lookup *)

Lemma as_translate_lookup sp v M :
  space_wf sp M ->
  as_translate sp v M = match as_pte sp M v with Some e => w64 (table e + v mod 4096) | None => 0 end.
Proof.
  intros Hs. destruct (space_root sp M Hs) as (_ & Hne & Htab).
  unfold as_translate. rewrite Htab, (proj2 (Z.eqb_neq _ 0) Hne), page_low.
  unfold as_pte, pte_of, leaf, path_of. cbn [table_of].
  do 3 match goal with |- context [present (entry M ?t ?i)] =>
    change (sa_get (ram M) (slot t i)) with (entry M t i);
    destruct (present (entry M t i)); cbn [negb mbind option_bind]; [|done] end.
  match goal with |- context [present (entry M ?t ?i)] =>
    change (sa_get (ram M) (slot t i)) with (entry M t i); by destruct (present (entry M t i)) end.
Qed.

Lemma page_flags_lookup sp v M e :
  space_wf sp M -> as_pte sp M v = Some e -> page_flags sp v M = e.
Proof.
  intros Hs. destruct (space_root sp M Hs) as (_ & Hne & Htab).
  unfold page_flags. rewrite Htab, (proj2 (Z.eqb_neq _ 0) Hne).
  unfold as_pte, pte_of, leaf, path_of. cbn [table_of].
  do 3 match goal with |- context [present (entry M ?t ?i)] =>
    change (sa_get (ram M) (slot t i)) with (entry M t i);
    destruct (present (entry M t i)); cbn [negb mbind option_bind]; [|done] end.
  intros E. destruct (present (sa_get _ _)); [by injection E|done].
Qed.

(** Mapping a page in a user space is insertion into its page map: on
    success the page translates, byte for byte, to the frame, [page_flags]
    reports the requested permissions, and no other page of the space moves; a
    refusal changes nothing and has one of four causes. *)
Theorem as_map_page_inserts sp virt phys flags M M' r :
  space_wf sp M -> user virt -> u64 flags -> 0 <= phys < 2 ^ 52 ->
  as_map_page sp virt phys flags M = (M', r) ->
  space_wf sp M' /\
  (if ok r
   then as_pte sp M virt = None /\
        (forall off, 0 <= off < 4096 -> as_translate sp (virt + off) M' = phys + off) /\
        (forall n, 0 < n < 12 -> Z.testbit (page_flags sp virt M') n = Z.testbit flags n) /\
        (forall v, user v -> vpn v <> vpn virt -> as_translate sp v M' = as_translate sp v M)
   else (forall v, user v -> as_translate sp v M' = as_translate sp v M) /\
        (~ aligned virt \/ ~ aligned phys \/ as_pte sp M virt <> None \/ pa_count (frames M) < 3)).
Proof.
  intros Hs Hu Hf Hp E. destruct (as_map_page_cases sp virt phys flags M Hs Hu) as (Hs' & _ & _ & Hc).
  rewrite E in *. cbn [fst snd] in *. split; [done|].
  destruct Hc as [(-> & Hm & Hwhy)|(-> & Hav & Hap & Hnone & Hm)].
  { split; [|done]. intros v Hv. by rewrite !as_translate_lookup, Hm by done. }
  split_and!; [done|..].
  - intros off Hoff. assert (Hpg : vpn (virt + off) = vpn virt).
    { unfold vpn, aligned in *. f_equal. Z.to_euclidean_division_equations. lia. }
    rewrite as_translate_lookup by done. unfold as_pte. rewrite (pte_of_page _ _ _ virt) by done.
    fold (as_pte sp M' virt). rewrite Hm, decide_True, page_entry_table by done.
    unfold aligned in *. word_lia.
  - intros n Hn. rewrite (page_flags_lookup sp virt M' (page_entry phys flags)); [|done|].
    + by apply page_entry_flag.
    + by rewrite Hm, decide_True.
  - intros v Hv Hne. by rewrite !as_translate_lookup, Hm, decide_False by done.
Qed.

(** ** Isolation *)

(** No table of one space is a table of the other. *)
Definition disjoint_spaces (sp1 sp2 : AddressSpace) (M : machine A) : Prop :=
  forall p q t, vpath lower p -> vpath lower q ->
    table_of (ram M) (pml4 sp1) p = Some t -> table_of (ram M) (pml4 sp2) q = Some t -> False.

(** A step confined to one space leaves the entries of another alone. *)
Lemma confined_other sp1 sp2 M M' q t i :
  space_wf sp1 M -> space_wf sp2 M -> disjoint_spaces sp1 sp2 M -> confined (pml4 sp1) M M' ->
  vpath lower q -> idx_ok i -> table_of (ram M) (pml4 sp2) q = Some t ->
  sa_get (ram M') (slot t i) = sa_get (ram M) (slot t i).
Proof.
  intros [H1 _] [H2 _] Hd (K1 & _) Hq Hi Et. apply K1.
  assert (Ht : frame_ok t) by eauto using tw_frame. split.
  - intros q' t' j Hq' Hj Et' Es. destruct (slot_inj t t' i j) as [<- _]; eauto using tw_frame.
  - intros f j Hf Hj Hav Es. destruct (slot_inj t f i j) as [<- _]; try done.
    rewrite (tw_used _ _ _ H2 q t) in Hav; done.
Qed.

(** A machine that agrees with [M] on the entries of a space, and frees
    nothing, still has that space. *)
Lemma space_agree sp (M M' : machine A) :
  space_wf sp M -> pa_wf (frames M') ->
  (forall q t i, vpath lower q -> idx_ok i -> table_of (ram M) (pml4 sp) q = Some t ->
     sa_get (ram M') (slot t i) = sa_get (ram M) (slot t i)) ->
  (forall f, frame_ok f -> pa_avail (frames M') f = true -> pa_avail (frames M) f = true) ->
  (forall f, pa_managed (frames M') f = pa_managed (frames M) f) ->
  space_wf sp M' /\
  (forall q, vpath lower q -> table_of (ram M') (pml4 sp) q = table_of (ram M) (pml4 sp) q) /\
  (forall v, user v -> as_pte sp M' v = as_pte sp M v).
Proof.
  intros [W Hroot] Hs HO Hav Hman.
  assert (HT : forall q, vpath lower q -> table_of (ram M') (pml4 sp) q = table_of (ram M) (pml4 sp) q).
  { intros q Hq. apply table_of_agree. intros p i r t -> Et.
    apply (HO p); eauto using vpath_prefix, vpath_idx. }
  split_and!; [split; [split; [done|..]|by rewrite Hman]|done|].
  - intros p q t Hp Hq. rewrite !HT by done. eauto using tw_inj.
  - intros p t Hp. rewrite HT by done. eauto using tw_frame.
  - intros p t Hp. rewrite HT by done. intros Et.
    destruct (pa_avail (frames M') t) eqn:Ea; [|done]. apply Hav in Ea; [|eauto using tw_frame].
    rewrite (tw_used _ _ _ W p t) in Ea; done.
  - intros p t Hp Hn. rewrite HT, Hman by done. eauto using tw_managed.
  - intros p t i Hp Hl. assert (vpath lower p) by eauto using vpath_prefix. rewrite HT by done.
    intros Et. unfold entry. rewrite (HO p t i); eauto using vpath_idx. by apply (tw_small _ _ _ W p).
  - intros v Hv. unfold as_pte, pte_of, leaf. pose proof (path_of_vpath lower v Hv) as Hp.
    rewrite HT by done. destruct (table_of (ram M) (pml4 sp) (path_of v)) as [t|] eqn:Et; [|done].
    simpl. rewrite (HO (path_of v) t); eauto using pt_index_ok.
Qed.

Lemma confined_isolated sp1 sp2 M M' :
  space_wf sp1 M -> space_wf sp2 M -> disjoint_spaces sp1 sp2 M -> confined (pml4 sp1) M M' ->
  space_wf sp2 M' /\ disjoint_spaces sp1 sp2 M' /\
  (forall v, user v -> as_pte sp2 M' v = as_pte sp2 M v).
Proof.
  intros H1 H2 Hd K. pose proof K as (_ & K2 & K3 & K4 & K5).
  destruct (space_agree sp2 M M') as (Hw & HT & Hp); try done.
  { intros q t i Hq Hi Et. by apply (confined_other sp1 sp2 M M' q). }
  split_and!; [done| |done]. intros p q t Hp' Hq Ep. rewrite HT by done. intros Eq.
  destruct (K2 p t Hp' Ep) as [?|Hav]; [by apply (Hd p q t)|].
  rewrite (tw_used _ _ _ (sw_tree _ _ H2) q t) in Hav; done.
Qed.

(** C32. Address spaces are isolated: whatever [map_page] does in one space,
    every other space with no table in common keeps its invariant, its
    translations, and stays disjoint from it. *)
Theorem as_map_page_isolated sp1 sp2 virt phys flags M M' r :
  space_wf sp1 M -> space_wf sp2 M -> disjoint_spaces sp1 sp2 M -> user virt ->
  as_map_page sp1 virt phys flags M = (M', r) ->
  space_wf sp2 M' /\ disjoint_spaces sp1 sp2 M' /\
  (forall v, user v -> as_translate sp2 v M' = as_translate sp2 v M).
Proof.
  intros H1 H2 Hd Hu E. destruct (as_map_page_cases sp1 virt phys flags M H1 Hu) as (_ & K & _).
  rewrite E in K. destruct (confined_isolated sp1 sp2 M M' H1 H2 Hd K) as (Hw & Hd' & Hp).
  split_and!; [done|done|]. intros v Hv. by rewrite !as_translate_lookup, Hp.
Qed.

(** ** Creation *)

(** The loop that copies the kernel's half of the root. *)
Lemma copy_upper dst src (M : machine A) :
  frame_ok dst -> frame_ok src -> dst <> src ->
  let M' := copy_kernel_half dst src M in
  frames M' = frames M /\ cr3 M' = cr3 M /\
  (forall i, 256 <= i < 512 -> entry M' dst i = entry M src i) /\
  (forall a, (forall i, 256 <= i < 512 -> a <> slot dst i) -> sa_get (ram M') a = sa_get (ram M) a).
Proof.
  intros Hd Hs Hne.
  set (P := fun k (M' : machine A) => frames M' = frames M /\ cr3 M' = cr3 M /\
    (forall i, 256 <= i < k -> entry M' dst i = entry M src i) /\
    (forall a, (forall i, 256 <= i < k -> a <> slot dst i) -> sa_get (ram M') a = sa_get (ram M) a)).
  apply (for_range_inv P); [by split_and!; try lia|].
  intros k M1 Hk (I1 & I2 & I3 & I4). unfold P, entry in *. simpl. split_and!; [done|done|..].
  - intros i Hi. destruct (decide (i = k)) as [->|].
    + rewrite sa_get_set_eq. apply I4. intros i Hi' Es.
      destruct (slot_inj src dst k i); try done; unfold idx_ok; try lia; congruence.
    + rewrite sa_get_set_ne by (unfold slot; lia). apply I3. lia.
  - intros a Ha. rewrite sa_get_set_ne by (apply not_eq_sym, Ha; lia). apply I4. intros; apply Ha; lia.
Qed.

#[local] Opaque copy_kernel_half.

(** Adding a fresh root does not touch a space that is already there. *)
Lemma fresh_root_other sp (M M' : machine A) root q t i :
  space_wf sp M -> frame_ok root -> pa_avail (frames M) root = true ->
  (forall a, (forall i, idx_ok i -> a <> slot root i) -> sa_get (ram M') a = sa_get (ram M) a) ->
  vpath lower q -> idx_ok i -> table_of (ram M) (pml4 sp) q = Some t ->
  t <> root /\ sa_get (ram M') (slot t i) = sa_get (ram M) (slot t i).
Proof.
  intros [Hw _] Hr Hav Hram Hq Hi Et. assert (Hne : t <> root).
  { intros ->. rewrite (tw_used _ _ _ Hw q root) in Hav by done. done. }
  split; [done|]. apply Hram. intros j Hj Es. destruct (slot_inj t root i j); eauto using tw_frame.
Qed.

(** The machine with the fresh root, exactly. *)
Record fresh_space (sp : AddressSpace) (M M' : machine A) : Prop := {
  fs_root : frame_ok (pml4 sp) /\ pa_avail (frames M) (pml4 sp) = true;
  fs_avail f : frame_ok f -> pa_avail (frames M') f = pa_avail (frames M) f && negb (f =? pml4 sp);
  fs_managed f : pa_managed (frames M') f = pa_managed (frames M) f;
  fs_ram a : (forall i, idx_ok i -> a <> slot (pml4 sp) i) -> sa_get (ram M') a = sa_get (ram M) a;
  fs_tables q t : vpath lower q -> table_of (ram M') (pml4 sp) q = Some t -> q = [] /\ t = pml4 sp;
  fs_empty v : user v -> as_pte sp M' v = None
}.

Lemma create_address_space_cases M M' sp :
  pa_wf (frames M) -> frame_ok (table (cr3 M)) -> pa_avail (frames M) (table (cr3 M)) = false ->
  create_address_space M = (M', sp) ->
  (pml4 sp = 0 /\ pa_count (frames M) = 0) \/
  (fresh_space sp M M' /\ pa_avail (frames M) (pml4 sp) = true /\ pa_count (frames M') = pa_count (frames M) - 1 /\
   space_wf sp M' /\ (forall v, user v -> as_translate sp v M' = 0) /\
   (forall i, 256 <= i < 512 -> entry M' (pml4 sp) i = entry M (table (cr3 M)) i) /\
   (forall sp0, space_wf sp0 M -> space_wf sp0 M' /\ disjoint_spaces sp sp0 M' /\
      forall v, user v -> as_pte sp0 M' v = as_pte sp0 M v)).
Proof.
  intros Hs Hcr Hused E. unfold create_address_space in E.
  pose proof (pa_alloc_cases _ Hs) as Hc. pose proof (pa_alloc_wf _ Hs) as Hs'.
  pose proof (fun a => pa_alloc_managed _ a Hs) as Hm.
  destruct (pa_alloc (frames M)) as [s root]. cbn [fst snd] in *.
  destruct Hc as [(-> & Hz & _)|(Hok & Hav & Hman & Hcnt & _ & Hrest)].
  { injection E as <- <-. by left. }
  right. rewrite (proj2 (Z.eqb_neq root 0)) in E by (destruct Hok; lia).
  rewrite (table_frame root) in E by done. cbv zeta in E.
  set (M1 := M <| frames := s |> <| ram ::= zero_page root |>) in E.
  change (cr3 M1) with (cr3 M) in E.
  assert (Hne : root <> table (cr3 M)) by congruence.
  destruct (copy_upper root (table (cr3 M)) M1 Hok Hcr Hne) as (F1 & F2 & F3 & F4).
  injection E as <- <-. set (M2 := copy_kernel_half _ _ M1) in *. clearbody M2. cbn [pml4].
  assert (Hz1 : forall i, idx_ok i -> entry M1 root i = 0) by (intros; by apply zero_page_in).
  assert (Hram : forall a, (forall i, idx_ok i -> a <> slot root i) -> sa_get (ram M2) a = sa_get (ram M) a).
  { intros a Ha. rewrite F4 by (intros i Hi; apply Ha; unfold idx_ok; lia). by apply zero_page_out. }
  destruct (empty_tree_wf lower root M2) as [Hw2 Hn2]; [by rewrite F1|done|..].
  { rewrite F1. simpl. by rewrite Hrest, Z.eqb_refl, andb_false_r. }
  { intros i Hi Hl. unfold lower in Hl. bsimp. unfold entry. rewrite F4 by (unfold slot; lia).
    fold (entry M1 root i). by rewrite Hz1. }
  assert (Hsw : space_wf (mkSpace root) M2) by (split; [done|rewrite F1; simpl; by rewrite Hm]).
  assert (Hnil : forall p t, vpath lower p -> table_of (ram M2) root p = Some t -> p = [] /\ t = root).
  { intros [|i p] t Hp Ep; simpl in Ep; [by injection Ep as <-|].
    destruct Hp as (_ & Hi & Hl). fold (entry M2 root i) in Ep. revert Ep.
    unfold lower in Hl. bsimp. unfold entry. rewrite F4 by (unfold slot; lia).
    fold (entry M1 root i). by rewrite Hz1 by (by inversion Hi). }
  split_and!; [|done|by rewrite F1|done|..].
  - split; [done|..]; cbn [pml4]; try done; intros f; rewrite F1; simpl; auto.
  - intros v Hv. rewrite as_translate_lookup by done. unfold as_pte. simpl. by rewrite Hn2.
  - intros i Hi. rewrite F3 by done. unfold entry. apply zero_page_out. intros j Hj Es.
    destruct (slot_inj (table (cr3 M)) root i j); unfold idx_ok; try done; try lia; congruence.
  - intros sp0 H0.
    destruct (space_agree sp0 M M2) as (Hw0 & HT & Hp0); [done|by rewrite F1|..].
    { intros q t i Hq Hi Et. by apply (fresh_root_other sp0 M M2 root q t i). }
    { intros f Hf. rewrite F1. simpl. rewrite Hrest by done. by intros [? _]%andb_true_iff. }
    { intros f. rewrite F1. simpl. by rewrite Hm. }
    split_and!; [done| |done]. intros p q t Hp Hq Ep. rewrite HT by done. intros Eq.
    destruct (fresh_root_other sp0 M M2 root q t 0) as [Hnt _]; try done.
    by destruct (Hnil p t Hp Ep) as [_ ->].
Qed.

(** [create_address_space] takes one free frame for the root of a
    well-formed space with no user page mapped, whose upper half is entry for
    entry that of the running root; it disturbs no existing space, and it fails
    only when no frame is free. *)
Theorem create_address_space_fresh M M' sp :
  pa_wf (frames M) -> frame_ok (table (cr3 M)) -> pa_avail (frames M) (table (cr3 M)) = false ->
  create_address_space M = (M', sp) ->
  (pml4 sp = 0 /\ pa_count (frames M) = 0) \/
  (pa_avail (frames M) (pml4 sp) = true /\ pa_count (frames M') = pa_count (frames M) - 1 /\
   space_wf sp M' /\ (forall v, user v -> as_translate sp v M' = 0) /\
   (forall i, 256 <= i < 512 -> entry M' (pml4 sp) i = entry M (table (cr3 M)) i) /\
   (forall sp0, space_wf sp0 M -> space_wf sp0 M' /\ disjoint_spaces sp sp0 M' /\
      forall v, user v -> as_pte sp0 M' v = as_pte sp0 M v)).
Proof.
  intros Hs Hf Hu E. destruct (create_address_space_cases M M' sp Hs Hf Hu E) as [?|[_ ?]]; [by left|by right].
Qed.

(** ** Destruction *)

(** The tables up to [n] levels below the first [hi] entries of [t], each with
    its path, in the order in which the loops of [destroy_address_space] free
    them. *)
Fixpoint walk (m : sarr) (n : nat) (hi t : Z) : list (list Z * Z) :=
  match n with
  | O => []
  | S n => i ← seqZ 0 hi;
           let e := sa_get m (slot t i) in
           if present e
           then (prod_map (cons i) id <$> walk m n 512 (table e)) ++ [([i], table e)]
           else []
  end.

Definition free_all (L : list Z) (M : machine A) : machine A :=
  M <| frames ::= fun s => foldl (fun s a => pa_free a s) s L |>.

Lemma free_all_nil M : free_all [] M = M.
Proof. by destruct M. Qed.

Lemma free_all_app L1 L2 M : free_all (L1 ++ L2) M = free_all L2 (free_all L1 M).
Proof. unfold free_all. simpl. by rewrite foldl_app. Qed.

(** A loop whose every iteration frees a list of frames. *)
Lemma for_range_free (f : Z -> list Z) lo hi body M :
  (forall i M', ram M' = ram M -> body i M' = free_all (f i) M') ->
  for_range lo hi body M = free_all (seqZ lo (hi - lo) ≫= f) M.
Proof.
  intros Hb. unfold for_range, seqZ. revert M Hb.
  generalize (Z.to_nat (hi - lo)) as n. intros n. revert lo. induction n as [|n IH]; intros lo M Hb.
  - simpl. by rewrite free_all_nil.
  - cbn [iter_from]. rewrite Hb by done. rewrite (IH (lo + 1)) by (intros; by apply Hb).
    rewrite <- free_all_app. f_equal. change (seq 0 (S n)) with (0%nat :: seq 1 n).
    rewrite fmap_cons, bind_cons. f_equal. f_equal.
    rewrite <- (fmap_S_seq 0 n), <- list_fmap_compose. apply list_fmap_ext. intros. simpl. lia.
Qed.

Lemma fmap_bind {B C D} (g : C -> D) (f : B -> list C) l : g <$> (l ≫= f) = l ≫= (fun x => g <$> f x).
Proof. induction l as [|x l IH]; [done|]. by rewrite !bind_cons, fmap_app, IH. Qed.

(** One level of the walk, as a list of frames. *)
Lemma walk_frames m n hi t :
  (walk m (S n) hi t).*2 =
  i ← seqZ 0 hi;
  let e := sa_get m (slot t i) in
  if present e then (walk m n 512 (table e)).*2 ++ [table e] else [].
Proof.
  cbn [walk]. rewrite fmap_bind. apply list_bind_ext; [|done]. intros i. cbv zeta.
  destruct (present _); [|done]. rewrite fmap_app, <- list_fmap_compose. by f_equal.
Qed.

Lemma destroy_pd_loop pd M :
  for_range 0 512 (destroy_pd pd) M = free_all ((walk (ram M) 1 512 pd).*2) M.
Proof.
  rewrite walk_frames. apply for_range_free. intros i M' E. unfold destroy_pd, entry. rewrite E.
  cbv zeta. destruct (present _); simpl; [done|by rewrite free_all_nil].
Qed.

Lemma destroy_pdpt_loop pdpt M :
  for_range 0 512 (destroy_pdpt pdpt) M = free_all ((walk (ram M) 2 512 pdpt).*2) M.
Proof.
  rewrite walk_frames. apply for_range_free. intros i M' E. unfold destroy_pdpt, entry. rewrite E.
  cbv zeta. destruct (present _); cbn [negb]; [|by rewrite free_all_nil].
  by rewrite destroy_pd_loop, E, free_all_app.
Qed.

Lemma destroy_pml4_loop root M :
  for_range 0 256 (destroy_pml4 root) M = free_all ((walk (ram M) 3 256 root).*2) M.
Proof.
  rewrite walk_frames. apply for_range_free. intros i M' E. unfold destroy_pml4, entry. rewrite E.
  cbv zeta. destruct (present _); cbn [negb]; [|by rewrite free_all_nil].
  by rewrite destroy_pdpt_loop, E, free_all_app.
Qed.

(** The walk visits the paths of up to [n] indices that lead to a table. *)
Lemma elem_of_walk m n hi t p a :
  hi <= 512 ->
  (p, a) ∈ walk m n hi t <->
  (1 <= length p <= n)%nat /\ Forall idx_ok p /\ match p with [] => False | i :: _ => i < hi end /\
  table_of m t p = Some a.
Proof.
  revert hi t p. induction n as [|n IH]; intros hi t p Hhi; cbn [walk].
  { rewrite elem_of_nil. destruct p; simpl; lia. }
  rewrite list_elem_of_bind. split.
  - intros (i & Hin & Hi). apply elem_of_seqZ in Hi. cbv zeta in Hin.
    destruct (present _) eqn:Epr; [|by apply elem_of_nil in Hin].
    apply elem_of_app in Hin as [Hin|Hin].
    + apply list_elem_of_fmap in Hin as ([p' a'] & [= -> ->] & Hin). apply IH in Hin; [|lia].
      destruct Hin as (Hl & Hf & _ & Ht). simpl. rewrite Epr.
      split_and!; try done; try lia. constructor; [split; lia|done].
    + apply list_elem_of_singleton in Hin as [= -> ->]. simpl. rewrite Epr.
      split_and!; try done; try lia. repeat constructor; lia.
  - intros (Hl & Hf & Hlt & Ht). destruct p as [|i p]; [done|]. simpl in Ht.
    apply Forall_cons in Hf as [Hi Hf]. exists i. cbv zeta.
    destruct (present _) eqn:Epr; [|done]. split; [|apply elem_of_seqZ; unfold idx_ok in Hi; lia].
    apply elem_of_app. destruct p as [|j p].
    + right. apply list_elem_of_singleton. by injection Ht as <-.
    + left. apply list_elem_of_fmap. exists (j :: p, a). split; [done|]. apply IH; [lia|].
      split_and!; simpl in *; try lia; try done. apply Forall_cons in Hf as [[? ?] _]. done.
Qed.

Lemma NoDup_walk m n hi t : NoDup (walk m n hi t).
Proof.
  revert hi t. induction n as [|n IH]; intros hi t; cbn [walk]; [constructor|].
  apply NoDup_bind; [| |apply NoDup_seqZ].
  - intros i j [p a] _ _ Hi Hj. cbv zeta in Hi, Hj.
    assert (Hhd : forall k, (p, a) ∈ (let e := sa_get m (slot t k) in
      if present e then (prod_map (cons k) id <$> walk m n 512 (table e)) ++ [([k], table e)] else [])
      -> head p = Some k).
    { intros k. cbv zeta. destruct (present (sa_get m (slot t k))); [|by intros ?%elem_of_nil].
      rewrite elem_of_app, list_elem_of_fmap, list_elem_of_singleton.
      by intros [([p' a'] & [= -> ->] & _)|[= -> ->]]. }
    apply Hhd in Hi, Hj. congruence.
  - intros i _. cbv zeta. destruct (present _); [|constructor].
    apply NoDup_app. split_and!; [|..|apply NoDup_singleton].
    + apply NoDup_fmap_2_strong; [|apply IH]. by intros [p a] [p' a'] _ _ [= -> ->].
    + intros [p a] Hin Hs. apply list_elem_of_singleton in Hs as [= -> ->].
      apply list_elem_of_fmap in Hin as ([p' a'] & [= <- ->] & Hin).
      apply elem_of_walk in Hin as ((? & _) & _); simpl in *; lia.
Qed.

(** Freeing distinct frames that are in use makes each of them available. *)
Lemma free_all_spec L M :
  pa_wf (frames M) -> NoDup L ->
  (forall f, f ∈ L -> frame_ok f /\ pa_managed (frames M) f = true /\ pa_avail (frames M) f = false) ->
  pa_wf (frames (free_all L M)) /\
  pa_count (frames (free_all L M)) = pa_count (frames M) + Z.of_nat (length L) /\
  (forall f, frame_ok f ->
     pa_avail (frames (free_all L M)) f = true <-> pa_avail (frames M) f = true \/ f ∈ L) /\
  (forall f, pa_managed (frames (free_all L M)) f = pa_managed (frames M) f).
Proof.
  intros Hs Hnd Hall. revert M Hs Hall. induction Hnd as [|a L Ha Hnd IH]; intros M Hs Hall.
  - rewrite free_all_nil. split_and!; [done|simpl; lia| |done]. intros f _. rewrite elem_of_nil. tauto.
  - destruct (Hall a) as (Hok & Hm & Hav); [by left|].
    destruct (pa_free_spec (frames M) a Hs Hok Hm) as (Hs1 & Hm1 & Hc1 & Ha1). rewrite Hav in Hc1.
    set (M1 := M <| frames ::= pa_free a |>).
    change (free_all (a :: L) M) with (free_all L M1).
    destruct (IH M1) as (Hs2 & Hc2 & Ha2 & Hm2); [done|..].
    { intros f Hf. destruct (Hall f) as (Hok' & Hm' & Hav'); [by right|].
      split_and!; [done|by rewrite <- Hm1 in Hm'|]. simpl. rewrite Ha1, Hav' by done.
      apply Z.eqb_neq. by intros ->. }
    split_and!; [done|rewrite Hc2; simpl; lia| |intros f; rewrite Hm2; apply Hm1].
    intros f Hf. rewrite Ha2 by done. simpl. rewrite Ha1, orb_true_iff, Z.eqb_eq, elem_of_cons by done.
    tauto.
Qed.

(** The tables of a space: those of the walk, and the root. *)
Definition space_tables (sp : AddressSpace) (M : machine A) : list Z :=
  (walk (ram M) 3 256 (pml4 sp)).*2 ++ [pml4 sp].

Lemma elem_of_space_tables sp M f :
  f ∈ space_tables sp M <-> exists p, vpath lower p /\ table_of (ram M) (pml4 sp) p = Some f.
Proof.
  unfold space_tables. rewrite elem_of_app, list_elem_of_fmap, list_elem_of_singleton. split.
  - intros [([p a] & -> & Hin)| ->]; [|by exists []; split; [apply root_path|]].
    apply elem_of_walk in Hin as (Hl & Hf & Hhd & Ht); [|lia]. exists p. split; [|done].
    split; [lia|]. split; [done|]. destruct p; [done|]. by apply Z.ltb_lt.
  - intros (p & (Hl & Hf & Hhd) & Ht). destruct p as [|i p]; [right; by injection Ht|].
    left. exists (i :: p, f). split; [done|]. apply elem_of_walk; [lia|].
    split_and!; try done; simpl in *; try lia. by apply Z.ltb_lt.
Qed.

Lemma NoDup_space_tables sp M : space_wf sp M -> NoDup (space_tables sp M).
Proof.
  intros [Hw _]. unfold space_tables.
  assert (Hv : forall p a, (p, a) ∈ walk (ram M) 3 256 (pml4 sp) ->
    vpath lower p /\ p <> [] /\ table_of (ram M) (pml4 sp) p = Some a).
  { intros p a Hin. apply elem_of_walk in Hin as (Hl & Hf & Hhd & Ht); [|lia].
    destruct p as [|i p]; [done|]. split_and!; [|done|done].
    split; [lia|]. split; [done|]. by apply Z.ltb_lt. }
  apply NoDup_app. split_and!; [| |apply NoDup_singleton].
  - apply NoDup_fmap_2_strong; [|apply NoDup_walk]. intros [p a] [q b] Hp Hq. simpl. intros ->.
    apply Hv in Hp as (Hp & _ & Ep), Hq as (Hq & _ & Eq). f_equal. by apply (tw_inj _ _ _ Hw p q b).
  - intros f Hin ->%list_elem_of_singleton. apply list_elem_of_fmap in Hin as ([p a] & Ea & Hin).
    apply Hv in Hin as (Hp & Hne & Ep). simpl in Ea. subst a. apply Hne.
    by apply (tw_inj _ _ _ Hw p [] (pml4 sp)); [| apply root_path|..].
Qed.

Lemma destroy_address_space_cases sp M M' sp' :
  space_wf sp M -> destroy_address_space sp M = (M', sp') ->
  pml4 sp' = 0 /\ ram M' = ram M /\ pa_wf (frames M') /\
  NoDup (space_tables sp M) /\
  pa_count (frames M') = pa_count (frames M) + Z.of_nat (length (space_tables sp M)) /\
  (forall f, frame_ok f ->
     pa_avail (frames M') f = true <->
     pa_avail (frames M) f = true \/
     exists p, vpath lower p /\ table_of (ram M) (pml4 sp) p = Some f).
Proof.
  intros Hs E. destruct (space_root sp M Hs) as (Hok & Hne & Htab).
  unfold destroy_address_space in E. rewrite Htab, (proj2 (Z.eqb_neq _ 0) Hne), destroy_pml4_loop in E.
  assert (EM : M' = free_all (space_tables sp M) M /\ sp' = mkSpace 0).
  { unfold space_tables. rewrite free_all_app. generalize dependent (walk (ram M) 3 256 (pml4 sp)).
    intros L E. split; [exact (eq_sym (f_equal fst E))|exact (eq_sym (f_equal snd E))]. }
  clear E. destruct EM as [EM ->].
  pose proof (NoDup_space_tables sp M Hs) as Hnd.
  destruct (free_all_spec (space_tables sp M) M) as (F1 & F2 & F3 & _); [apply Hs|done|..].
  { intros f (p & Hp & Ep)%elem_of_space_tables. destruct Hs as [Hw Hm].
    split_and!; [eauto using tw_frame| |eauto using tw_used].
    destruct p as [|i p]; [by injection Ep as <-|]. by eapply tw_managed. }
  rewrite <- EM in *. split_and!; try done.
  - by rewrite EM.
  - intros f Hf. rewrite F3 by done. by rewrite elem_of_space_tables.
Qed.

(** C33. [destroy_address_space] gives back exactly the tables of the space's
    lower half and its root, each of them once: afterwards a frame is free if
    and only if it was free before or was one of these tables, the free count
    grows by their number, memory is not written, and the space is void. *)
Theorem destroy_address_space_frees_tables sp M M' sp' :
  space_wf sp M -> destroy_address_space sp M = (M', sp') ->
  pml4 sp' = 0 /\ ram M' = ram M /\ pa_wf (frames M') /\
  NoDup (space_tables sp M) /\
  pa_count (frames M') = pa_count (frames M) + Z.of_nat (length (space_tables sp M)) /\
  (forall f, frame_ok f ->
     pa_avail (frames M') f = true <->
     pa_avail (frames M) f = true \/
     exists p, vpath lower p /\ table_of (ram M) (pml4 sp) p = Some f).
Proof. apply destroy_address_space_cases. Qed.
End theorems.

(** ** Concrete runs

    Two spaces on the demo machine, the first with the user page 0x400000
    mapped. *)

Definition demo_space1 : AddressSpace := (create_address_space demo_machine).2.
Definition demo_m1 : machine PhysicalMemoryManager := (create_address_space demo_machine).1.
Definition demo_flags : Z := Z.lor PageWrite PageUser.
Definition demo_m2 : machine PhysicalMemoryManager :=
  (as_map_page demo_space1 0x400000 0x5000 demo_flags demo_m1).1.
Definition demo_space2 : AddressSpace := (create_address_space demo_m2).2.
Definition demo_m3 : machine PhysicalMemoryManager := (create_address_space demo_m2).1.

Lemma demo_flags_u64 : u64 demo_flags.
Proof. by unfold u64, two64, demo_flags. Qed.

Lemma demo_create (M : machine PhysicalMemoryManager) :
  pa_wf (frames M) -> frame_ok (table (cr3 M)) ->
  pa_avail (frames M) (table (cr3 M)) = false -> free_pages_ (frames M) <> 0 ->
  let sp := (create_address_space M).2 in
  let M' := (create_address_space M).1 in
  space_wf sp M' /\
  (forall sp0, space_wf sp0 M -> space_wf sp0 M' /\ disjoint_spaces sp sp0 M').
Proof.
  intros Hs Hf Hu Hc. cbv zeta.
  destruct (create_address_space_cases M (create_address_space M).1 (create_address_space M).2 Hs Hf Hu)
    as [[_ ?]|(_ & _ & _ & Hw & _ & _ & Hd)]; [apply surjective_pairing|done|].
  split; [done|]. intros sp0 H0. by destruct (Hd sp0 H0) as (? & ? & _).
Qed.

Lemma demo_space1_wf : space_wf demo_space1 demo_m1.
Proof.
  destruct (demo_create demo_machine) as [Hw _];
    [apply demo_machine_wf|by split|by vm_compute|by vm_compute|exact Hw].
Qed.

Lemma demo_m2_wf : space_wf demo_space1 demo_m2.
Proof. by apply (as_map_page_cases demo_space1 0x400000 0x5000 demo_flags demo_m1 demo_space1_wf). Qed.

Lemma demo_m3_wf :
  space_wf demo_space2 demo_m3 /\ space_wf demo_space1 demo_m3 /\
  disjoint_spaces demo_space2 demo_space1 demo_m3.
Proof.
  destruct (demo_create demo_m2) as [H2 H1];
    [apply demo_m2_wf|by split; vm_compute|by vm_compute|by vm_compute|].
  split; [exact H2|apply H1, demo_m2_wf].
Qed.

Lemma as_map_page_inserts_witness :
  as_translate demo_space1 (0x400000 + 0x120) demo_m2 = 0x5000 + 0x120.
Proof.
  destruct (as_map_page_inserts demo_space1 0x400000 0x5000 demo_flags demo_m1 demo_m2
    (mkResult true "ok") demo_space1_wf eq_refl demo_flags_u64) as (_ & _ & Ht & _).
  - by split.
  - unfold demo_m2. apply pair_snd. vm_compute. reflexivity.
  - apply Ht. by split.
Defined.

Lemma as_map_page_isolated_witness :
  as_translate demo_space1 0x400010
    (as_map_page demo_space2 0x400000 0x6000 demo_flags demo_m3).1 =
  as_translate demo_space1 0x400010 demo_m3.
Proof.
  destruct demo_m3_wf as (H2 & H1 & Hd).
  destruct (as_map_page_isolated demo_space2 demo_space1 0x400000 0x6000 demo_flags demo_m3
    (as_map_page demo_space2 0x400000 0x6000 demo_flags demo_m3).1 (mkResult true "ok") H2 H1 Hd eq_refl)
    as (_ & _ & Ht).
  - apply pair_snd. vm_compute. reflexivity.
  - by apply Ht.
Defined.

Lemma create_address_space_fresh_witness :
  pml4 demo_space1 = 0x104000 /\
  forall v, user v -> as_translate demo_space1 v demo_m1 = 0.
Proof.
  destruct (create_address_space_fresh demo_machine demo_m1 demo_space1) as [[Hz _]|(_ & _ & _ & Ht & _)].
  - apply demo_machine_wf.
  - by split.
  - vm_compute. reflexivity.
  - unfold demo_m1, demo_space1. apply surjective_pairing.
  - by vm_compute in Hz.
  - split; [vm_compute; reflexivity|exact Ht].
Defined.

Lemma destroy_address_space_frees_tables_witness :
  pa_count (frames (destroy_address_space demo_space1 demo_m2).1) =
  pa_count (frames demo_m2) + Z.of_nat (length (space_tables demo_space1 demo_m2)).
Proof.
  apply (destroy_address_space_frees_tables demo_space1 demo_m2 _ (mkSpace 0) demo_m2_wf).
  apply pair_snd. vm_compute. reflexivity.
Defined.
