(* ===== verification/Heap.v ===== *)
(** * The kernel heap (kernel/src/mm/heap.cpp)

    A first-fit allocator over a singly linked list of blocks, grown a few
    pages at a time through the physical and virtual memory managers.  The list
    is modelled in [next] order with each block's address; a header is 24 bytes
    and its payload follows.  The theorems show that the blocks always tile the
    heap, that an allocation lies inside one free block and disturbs no block
    in use, that freeing undoes it, and what a failed growth leaves behind. *)

From S2P Require Import Prelude Pmm PageTable PmmFrames Vmm.
From stdpp Require Import strings.
#[local] Open Scope Z_scope.

Definition kHeapInitialPages : Z := 16.
Definition kMinSplitPayload : Z := 32.
Definition sizeof_Block : Z := 24.
Definition kPage : Z := 4096.

Record Block := mkBlock { b_addr : Z; b_size : Z; b_free : bool }.
#[export] Instance eta_Block : Eta Block := fun r => mkBlock (b_addr r) (b_size r) (b_free r).

Record HeapDiagnostics := mkHeapDiag {
  allocation_calls : Z;
  calloc_calls : Z;
  free_calls : Z;
  h_failed_allocations : Z;
  h_invalid_frees : Z;
  peak_used_bytes : Z;
  last_alloc_size : Z;
}.
#[export] Instance eta_HeapDiag : Eta HeapDiagnostics := fun r =>
  mkHeapDiag (allocation_calls r) (calloc_calls r) (free_calls r) (h_failed_allocations r)
    (h_invalid_frees r) (peak_used_bytes r) (last_alloc_size r).

Record KernelHeap := mkHeap {
  heap_start_ : Z;
  heap_end_ : Z;
  blocks_ : list Block;
  hdiagnostics_ : HeapDiagnostics;
}.
#[export] Instance eta_Heap : Eta KernelHeap := fun r =>
  mkHeap (heap_start_ r) (heap_end_ r) (blocks_ r) (hdiagnostics_ r).

Definition kHeapBase : Z := 0xffff800000000000.
Definition heap_zero : KernelHeap :=
  mkHeap kHeapBase kHeapBase [] (mkHeapDiag 0 0 0 0 0 0 0).

Record HeapStats := mkHeapStats {
  hs_heap_start : Z;
  hs_heap_end : Z;
  hs_heap_bytes : Z;
  hs_block_count : Z;
  hs_used_blocks : Z;
  hs_free_blocks : Z;
  hs_used_bytes : Z;
  hs_free_bytes : Z;
  hs_largest_free_block : Z;
}.
#[export] Instance eta_HeapStats : Eta HeapStats := fun r =>
  mkHeapStats (hs_heap_start r) (hs_heap_end r) (hs_heap_bytes r) (hs_block_count r)
    (hs_used_blocks r) (hs_free_blocks r) (hs_used_bytes r) (hs_free_bytes r)
    (hs_largest_free_block r).

Definition align_ptr (value align : Z) : Z :=
  Z.land (w64 (value + align - 1)) (not64 (w64 (align - 1))).

Definition used_bytes_locked (bs : list Block) : Z :=
  foldl (fun used b => if negb (b_free b) then w64 (used + b_size b) else used) 0 bs.

Definition update_peak_used_locked (h : KernelHeap) : KernelHeap :=
  let used := used_bytes_locked (blocks_ h) in
  if peak_used_bytes (hdiagnostics_ h) <? used
  then h <| hdiagnostics_ ::= fun d => d <| peak_used_bytes := used |> |> else h.

(** The first-fit scan of [allocate] (lines 59-79): the list with the chosen
    block taken, split when enough is left over, and the pointer returned. *)
Fixpoint take_block (size alignment : Z) (bs : list Block) : option (list Block * Z) :=
  match bs with
  | [] => None
  | b :: rest =>
    let payload := w64 (b_addr b + sizeof_Block) in
    let aligned := align_ptr payload alignment in
    let padding := w64 (aligned - payload) in
    if b_free b && (w64 (size + padding) <=? b_size b) then
      let block_end := w64 (payload + b_size b) in
      let used_end := w64 (aligned + size) in
      let '(b, rest) :=
        if w64 (w64 (used_end + sizeof_Block) + kMinSplitPayload) <? block_end then
          let next := mkBlock used_end (w64 (w64 (block_end - used_end) - sizeof_Block)) true in
          (b <| b_size := w64 (used_end - payload) |>, next :: rest)
        else (b, rest) in
      Some (b <| b_free := false |> :: rest, aligned)
    else
      match take_block size alignment rest with
      | Some (rest, ptr) => Some (b :: rest, ptr)
      | None => None
      end
  end.

(** The inner loop of [free] (lines 108-113): absorb the free blocks that
    follow [b] without a gap. *)
Fixpoint merge_next (b : Block) (rest : list Block) : list Block :=
  match rest with
  | [] => [b]
  | n :: rest' =>
    if b_free n then
      let block_end := w64 (w64 (b_addr b + sizeof_Block) + b_size b) in
      if negb (block_end =? b_addr n) then b :: rest
      else merge_next (b <| b_size ::= fun z => w64 (z + w64 (sizeof_Block + b_size n)) |>) rest'
    else b :: rest
  end.

(** The second loop (lines 114-123): absorb the block at [addr] into the free
    block before it. *)
Fixpoint merge_prev (addr : Z) (bs : list Block) : list Block :=
  match bs with
  | prev :: ((b :: rest) as tl) =>
    if (b_addr b =? addr) && b_free prev then
      let prev_end := w64 (w64 (b_addr prev + sizeof_Block) + b_size prev) in
      if prev_end =? addr
      then prev <| b_size ::= fun z => w64 (z + w64 (sizeof_Block + b_size b)) |> :: rest
      else bs
    else prev :: merge_prev addr tl
  | _ => bs
  end.

(** The outer loop: find the block whose payload holds [raw], free it and merge
    forward; the result carries the address of the block freed. *)
Fixpoint free_block (raw : Z) (bs : list Block) : option (list Block * Z) :=
  match bs with
  | [] => None
  | b :: rest =>
    let begin := w64 (b_addr b + sizeof_Block) in
    let end_ := w64 (begin + b_size b) in
    if (begin <=? raw) && (raw <? end_) then
      Some (merge_next (b <| b_free := true |>) rest, b_addr b)
    else match free_block raw rest with
         | Some (rest, a) => Some (b :: rest, a)
         | None => None
         end
  end.

Definition free (ptr : Z) (h : KernelHeap) : KernelHeap :=
  if ptr =? 0 then h else
  match free_block ptr (blocks_ h) with
  | Some (bs, addr) =>
    h <| blocks_ := merge_prev addr bs |>
      <| hdiagnostics_ ::= fun d => d <| free_calls ::= inc64 |> |>
  | None => h <| hdiagnostics_ ::= fun d => d <| h_invalid_frees ::= inc64 |> |>
  end.

Definition stats_step (out : HeapStats) (b : Block) : HeapStats :=
  let out := out <| hs_block_count ::= inc64 |> in
  if b_free b then
    let out := out <| hs_free_blocks ::= inc64 |>
                   <| hs_free_bytes ::= fun z => w64 (z + b_size b) |> in
    if hs_largest_free_block out <? b_size b
    then out <| hs_largest_free_block := b_size b |> else out
  else out <| hs_used_blocks ::= inc64 |> <| hs_used_bytes ::= fun z => w64 (z + b_size b) |>.

Definition heap_stats (h : KernelHeap) : HeapStats :=
  let bytes := if heap_start_ h <=? heap_end_ h then w64 (heap_end_ h - heap_start_ h) else 0 in
  foldl stats_step (mkHeapStats (heap_start_ h) (heap_end_ h) bytes 0 0 0 0 0 0) (blocks_ h).

Section heap.
Context {A : Type} `{PageAllocator A}.

(** The page loop of [expand] (lines 31-37); [memset] goes through the mapping
    just made. *)
Definition expand_step (virt i : Z) (st : vmst A) : flow (vmst A) (vmst A) :=
  let '(s, phys) := pa_alloc (frames (mach st)) in
  let st := st <| mach ::= fun M => M <| frames := s |> |> in
  if phys =? 0 then Stop st else
  let page := w64 (virt + w64 (i * kPage)) in
  let '(st, mapped) := map_page page phys (Z.lor PageWrite PageGlobal) st in
  if negb (ok mapped) then Stop st else
  Next (st <| mach ::= fun M => M <| ram ::= zero_page (translate page st) |> |>).

Definition expand (bytes : Z) (h : KernelHeap) (st : vmst A) : KernelHeap * vmst A * bool :=
  let pages := Z.land (w64 (bytes + 4095)) (not64 4095) / kPage in
  let virt := heap_end_ h in
  match loop_range 0 pages (expand_step virt) st with
  | Stop st => (h, st, false)
  | Next st =>
    let block := mkBlock virt (w64 (w64 (pages * kPage) - sizeof_Block)) true in
    (h <| blocks_ ::= fun bs => (bs ++ [block])%list |>
       <| heap_end_ := w64 (heap_end_ h + w64 (pages * kPage)) |>, st, true)
  end.

Definition heap_initialize (h : KernelHeap) (st : vmst A) : KernelHeap * vmst A :=
  match blocks_ h with
  | [] => let '(h, st, _) := expand (kHeapInitialPages * kPage) h st in (h, st)
  | _ => (h, st)
  end.

(** The loop of [allocate]; [fuel] bounds the number of scans. *)
Fixpoint allocate_loop (fuel : nat) (size alignment : Z) (h : KernelHeap) (st : vmst A)
  : option (KernelHeap * vmst A * Z) :=
  match fuel with
  | O => None
  | S fuel =>
    match take_block size alignment (blocks_ h) with
    | Some (bs, ptr) =>
      let h := h <| blocks_ := bs |>
                 <| hdiagnostics_ ::= fun d => d <| last_alloc_size := size |> |> in
      Some (update_peak_used_locked h, st, ptr)
    | None =>
      let '(h, st, grown) := expand (w64 (w64 (size + alignment) + sizeof_Block)) h st in
      if negb grown
      then Some (h <| hdiagnostics_ ::= fun d => d <| h_failed_allocations ::= inc64 |> |>, st, 0)
      else allocate_loop fuel size alignment h st
    end
  end.

Definition allocate (fuel : nat) (size alignment : Z) (h : KernelHeap) (st : vmst A)
  : option (KernelHeap * vmst A * Z) :=
  if size =? 0 then Some (h, st, 0) else
  let alignment := if alignment <? 16 then 16 else alignment in
  let h := h <| hdiagnostics_ ::= fun d => d <| allocation_calls ::= inc64 |> |> in
  allocate_loop fuel size alignment h st.

(** [calloc]; the contents of payloads are not part of the model, so the
    [memset] of the new block is not visible here. *)
Definition calloc (fuel : nat) (count size : Z) (h : KernelHeap) (st : vmst A)
  : option (KernelHeap * vmst A * Z) :=
  let h := h <| hdiagnostics_ ::= fun d => d <| calloc_calls ::= inc64 |> |> in
  let total := w64 (count * size) in
  allocate fuel total 16 h st.
End heap.

(** ** The tiling invariant *)

(** The blocks cover [lo, hi) without gap or overlap. *)
Fixpoint tiles (lo hi : Z) (bs : list Block) : Prop :=
  match bs with
  | [] => lo = hi
  | b :: rest => b_addr b = lo /\ 0 <= b_size b /\ tiles (lo + 24 + b_size b) hi rest
  end.

Record heap_wf (h : KernelHeap) : Prop := {
  hw_start : 0 < heap_start_ h;
  hw_end : heap_end_ h < two64;
  hw_page : heap_end_ h mod 4096 = 0;
  hw_tiles : tiles (heap_start_ h) (heap_end_ h) (blocks_ h);
}.

(** The blocks in use. *)
Definition in_use (bs : list Block) : list Block := filter (fun b => b_free b = false) bs.

(** [addr, addr + n) lies in the payload of [b]. *)
Definition inside (b : Block) (addr n : Z) : Prop :=
  b_addr b + 24 <= addr /\ addr + n <= b_addr b + 24 + b_size b.

Lemma tiles_le lo hi bs : tiles lo hi bs -> lo <= hi.
Proof.
  revert lo. induction bs as [|b bs IH]; intros lo; simpl; [lia|].
  intros (_ & ? & ?%IH). lia.
Qed.

Lemma tiles_app lo hi l1 l2 :
  tiles lo hi (l1 ++ l2) <-> exists mid, tiles lo mid l1 /\ tiles mid hi l2.
Proof.
  revert lo. induction l1 as [|b l1 IH]; intros lo; simpl.
  - split; [by exists lo|]. by intros (mid & -> & ?).
  - rewrite IH. split.
    + intros (? & ? & mid & ? & ?). by exists mid.
    + intros (mid & (? & ? & ?) & ?). split_and!; [done|done|by exists mid].
Qed.

Lemma tiles_elem lo hi bs b :
  tiles lo hi bs -> b ∈ bs -> lo <= b_addr b /\ 0 <= b_size b /\ b_addr b + 24 + b_size b <= hi.
Proof.
  revert lo. induction bs as [|c bs IH]; intros lo; simpl; [by intros _ ?%elem_of_nil|].
  intros (Ha & Hc & Ht) [->|Hin]%elem_of_cons.
  - apply tiles_le in Ht. lia.
  - destruct (IH _ Ht Hin). lia.
Qed.

(** Distinct blocks of a tiling do not overlap. *)
Lemma tiles_disjoint lo hi l1 b l2 c :
  tiles lo hi (l1 ++ b :: l2) -> c ∈ l1 ++ l2 ->
  b_addr c + 24 + b_size c <= b_addr b \/ b_addr b + 24 + b_size b <= b_addr c.
Proof.
  rewrite tiles_app. simpl. intros (mid & H1 & Ha & Hb & H2) [Hin|Hin]%elem_of_app; rewrite Ha.
  - left. apply (tiles_elem _ _ _ _ H1 Hin).
  - right. apply (tiles_elem _ _ _ _ H2 Hin).
Qed.

(** An address lies in the payload of one block. *)
Lemma tiles_inside_unique l1 b l2 m1 c m2 lo hi p :
  tiles lo hi (l1 ++ b :: l2) -> l1 ++ b :: l2 = m1 ++ c :: m2 -> inside b p 1 -> inside c p 1 ->
  l1 = m1 /\ b = c /\ l2 = m2.
Proof.
  unfold inside. revert m1 lo. induction l1 as [|x l1 IH]; intros m1 lo Ht E Hb Hc.
  - destruct m1 as [|y m1]; [by injection E as -> ->|]. exfalso. injection E as <- E.
    destruct (tiles_disjoint lo hi [] b l2 c Ht); [|lia|lia].
    rewrite E. simpl. apply elem_of_app. right. by left.
  - destruct m1 as [|y m1].
    + exfalso. injection E as <- E.
      destruct (tiles_disjoint lo hi [] x (l1 ++ b :: l2) b Ht); [|lia|lia].
      simpl. apply elem_of_app. right. by left.
    + injection E as -> E. destruct Ht as (_ & _ & Ht). by destruct (IH m1 _ Ht E Hb Hc) as (-> & -> & ->).
Qed.

Lemma in_use_app l1 l2 : in_use (l1 ++ l2) = in_use l1 ++ in_use l2.
Proof. apply filter_app. Qed.

Lemma in_use_cons_free b l : b_free b = true -> in_use (b :: l) = in_use l.
Proof. intros E. unfold in_use. rewrite filter_cons_False; congruence. Qed.

Lemma in_use_cons_used b l : b_free b = false -> in_use (b :: l) = b :: in_use l.
Proof. intros E. unfold in_use. by rewrite filter_cons_True. Qed.

(** ** First fit *)

Lemma align_ptr_spec v k :
  0 <= v -> 0 <= k < 63 -> v + 2 ^ k <= two64 ->
  v <= align_ptr v (2 ^ k) < v + 2 ^ k /\ align_ptr v (2 ^ k) mod 2 ^ k = 0.
Proof.
  intros Hv Hk Hb. assert (Hp : 0 < 2 ^ k) by (apply Z.pow_pos_nonneg; lia).
  unfold align_ptr. rewrite (w64_small (2 ^ k - 1)), (w64_small (v + 2 ^ k - 1)) by word_lia.
  rewrite land_high by word_lia.
  pose proof (Z.mod_pos_bound (v + 2 ^ k - 1) (2 ^ k) Hp). split; [lia|].
  rewrite Zminus_mod, Z.mod_mod, Z.sub_diag by lia. done.
Qed.

(** The aligned address is the first one from [v] on. *)
Lemma aligned_least m v a q : 0 < m -> v <= a < v + m -> a mod m = 0 -> q mod m = 0 -> v <= q -> a <= q.
Proof.
  intros Hm Ha Ham Hqm Hq. apply Z.mod_divide in Ham as [x ->]; [|lia]. apply Z.mod_divide in Hqm as [y ->]; [|lia].
  destruct (Z.le_gt_cases x y); [nia|]. assert (y * m <= (x - 1) * m) by nia. lia.
Qed.

(** What the scan does to the block it chooses. *)
Record taken (size align : Z) (b b' : Block) (rest : list Block) (p : Z) : Prop := {
  tk_free : b_free b = true;
  tk_used : b_free b' = false;
  tk_addr : b_addr b' = b_addr b;
  tk_rest : Forall (fun c => b_free c = true) rest;
  tk_tiles : forall lo hi l, tiles lo hi (b :: l) -> tiles lo hi (b' :: rest ++ l);
  tk_align : p mod align = 0;
  tk_inside : inside b' p size;
  tk_within : inside b p size;
}.

Section first_fit.
Context (size k : Z) (hi : Z).
Context (Hsize : 0 < size) (Hk : 4 <= k < 63) (Hroom : hi + size + 2 ^ k + 8192 <= two64).

Lemma take_here b rest lo (l : list Block) :
  0 < lo -> tiles lo hi (b :: l) -> b_free b = true ->
  let payload := w64 (b_addr b + sizeof_Block) in
  let aligned := align_ptr payload (2 ^ k) in
  (w64 (size + w64 (aligned - payload)) <=? b_size b) = true ->
  exists b' tail, take_block size (2 ^ k) (b :: rest) = Some (b' :: tail ++ rest, aligned) /\
    taken size (2 ^ k) b b' tail aligned.
Proof.
  intros Hlo Ht Hf payload aligned Hfit. simpl. fold payload aligned.
  rewrite Hf, Hfit. simpl. destruct Ht as (Ha & Hs & Ht). pose proof (tiles_le _ _ _ Ht) as Hle.
  assert (Hp2 : 2 ^ 4 <= 2 ^ k) by (apply Z.pow_le_mono_r; lia). change (2 ^ 4) with 16 in Hp2.
  assert (Epay : payload = b_addr b + 24) by (unfold payload, sizeof_Block; apply w64_small; word_lia).
  destruct (align_ptr_spec payload k) as [Hal Hmod]; [word_lia|lia|word_lia|].
  fold aligned in Hal, Hmod. clearbody aligned.
  rewrite (w64_small (aligned - payload)), (w64_small (size + _)) in Hfit by word_lia. bsimp.
  rewrite (w64_small (payload + b_size b)), (w64_small (aligned + size)) by word_lia.
  rewrite (w64_small (aligned + size + sizeof_Block)) by (unfold sizeof_Block; word_lia).
  rewrite (w64_small (aligned + size + sizeof_Block + kMinSplitPayload))
    by (unfold sizeof_Block, kMinSplitPayload; word_lia).
  rewrite (w64_small (aligned + size - payload)) by word_lia.
  unfold sizeof_Block, kMinSplitPayload.
  destruct (Z.ltb_spec (aligned + size + 24 + 32) (payload + b_size b)) as [Hsplit|Hnot].
  - rewrite (w64_small (payload + b_size b - (aligned + size))), (w64_small (_ - 24)) by word_lia.
    eexists _, [_]. split; [reflexivity|].
    constructor; simpl; try done; unfold inside; simpl; try lia; [repeat constructor|].
    intros lo' hi' l' (Hlo' & _ & Hl'). split_and!; try lia.
    match goal with |- tiles ?x _ _ => replace x with (lo' + 24 + b_size b) by lia end. done.
  - eexists _, []. split; [reflexivity|].
    constructor; simpl; try done; unfold inside; simpl; lia.
Qed.

Lemma take_block_spec bs lo bs' p :
  0 < lo -> tiles lo hi bs -> take_block size (2 ^ k) bs = Some (bs', p) ->
  exists l1 b l2 b' tail, bs = l1 ++ b :: l2 /\ bs' = l1 ++ b' :: tail ++ l2 /\
    taken size (2 ^ k) b b' tail p.
Proof.
  revert lo bs'. induction bs as [|b bs IH]; intros lo bs' Hlo Ht E; [done|].
  destruct (b_free b && (w64 (size + w64 (align_ptr (w64 (b_addr b + sizeof_Block)) (2 ^ k) -
    w64 (b_addr b + sizeof_Block))) <=? b_size b)) eqn:Hc.
  - apply andb_true_iff in Hc as [Hf Hfit].
    destruct (take_here b bs lo bs Hlo Ht Hf Hfit) as (b' & tail & E' & Htk).
    rewrite E' in E. injection E as <- <-. by exists [], b, bs, b', tail.
  - cbn [take_block] in E. rewrite Hc in E.
    destruct (take_block size (2 ^ k) bs) as [[r q]|] eqn:Er; [|done]. injection E as <- <-.
    destruct Ht as (Ha & Hs & Ht).
    destruct (IH (lo + 24 + b_size b) r ltac:(lia) Ht eq_refl) as (l1 & c & l2 & c' & tail & -> & -> & Htk).
    by exists (b :: l1), c, l2, c', tail.
Qed.

(** The scan does not overlook a free block that has an aligned range of [size] bytes. *)
Lemma take_block_fits bs lo b q :
  0 < lo -> tiles lo hi bs -> b ∈ bs -> b_free b = true -> q mod 2 ^ k = 0 -> inside b q size ->
  is_Some (take_block size (2 ^ k) bs).
Proof.
  revert lo. induction bs as [|c bs IH]; intros lo Hlo Ht Hin Hf Hq Hi; [by apply elem_of_nil in Hin|].
  destruct (b_free c && (w64 (size + w64 (align_ptr (w64 (b_addr c + sizeof_Block)) (2 ^ k) -
    w64 (b_addr c + sizeof_Block))) <=? b_size c)) eqn:Hc.
  { apply andb_true_iff in Hc as [Hcf Hfit].
    destruct (take_here c bs lo bs Hlo Ht Hcf Hfit) as (? & ? & -> & _). by eexists. }
  assert (Hne : b <> c).
  { intros ->. rewrite Hf in Hc. destruct Ht as (Ha & Hs & Ht). pose proof (tiles_le _ _ _ Ht).
    assert (Hp : 0 < 2 ^ k) by (apply Z.pow_pos_nonneg; lia). destruct Hi as [Hi1 Hi2].
    unfold sizeof_Block in Hc. rewrite (w64_small (b_addr c + 24)) in Hc by word_lia.
    destruct (align_ptr_spec (b_addr c + 24) k) as [Hal Hmod]; [lia|lia|word_lia|].
    pose proof (aligned_least (2 ^ k) _ _ q Hp Hal Hmod Hq Hi1).
    rewrite (w64_small (_ - _)), (w64_small (size + _)) in Hc by word_lia. simpl in Hc. bsimp. lia. }
  apply elem_of_cons in Hin as [?|Hin]; [done|]. destruct Ht as (Ha & Hs & Ht).
  destruct (IH (lo + 24 + b_size c) ltac:(lia) Ht Hin Hf Hq Hi) as [[r q'] Er].
  cbn [take_block]. rewrite Hc, Er. by eexists.
Qed.
End first_fit.

(** A block with room to spare has an aligned range. *)
Lemma room_inside size k b : 0 < size -> 4 <= k < 63 -> size + 2 ^ k <= b_size b -> 0 <= b_addr b ->
  b_addr b + 24 + b_size b <= two64 -> exists q, q mod 2 ^ k = 0 /\ inside b q size.
Proof.
  intros Hs Hk Hb Ha He. destruct (align_ptr_spec (b_addr b + 24) k) as [Hal Hmod]; [lia|lia|lia|].
  exists (align_ptr (b_addr b + 24) (2 ^ k)). split; [done|]. unfold inside. lia.
Qed.

(** ** Freeing *)

Definition all_free (bs : list Block) : Prop := Forall (fun b => b_free b = true) bs.
(** The blocks do not go on with a free one. *)
Definition stops (bs : list Block) : Prop := match bs with [] => True | b :: _ => b_free b = false end.
(** The bytes that blocks take up, headers included. *)
Definition extent (bs : list Block) : Z := foldr (fun b n => 24 + b_size b + n) 0 bs.

Lemma in_use_free bs : all_free bs -> in_use bs = [].
Proof. induction 1 as [|b bs Hb _ IH]; [done|]. by rewrite in_use_cons_free. Qed.

Section freeing.
Context (hi : Z) (Hhi : hi < two64).

Lemma block_end lo b l :
  0 < lo -> tiles lo hi (b :: l) ->
  w64 (b_addr b + sizeof_Block) = lo + 24 /\
  w64 (w64 (b_addr b + sizeof_Block) + b_size b) = lo + 24 + b_size b /\
  lo + 24 + b_size b <= hi.
Proof.
  intros Hlo (-> & Hs & Ht). pose proof (tiles_le _ _ _ Ht). unfold sizeof_Block.
  rewrite (w64_small (lo + 24)), (w64_small (lo + 24 + _)) by word_lia. done.
Qed.

Lemma merge_next_spec rest lo b :
  0 < lo -> tiles lo hi (b :: rest) -> b_free b = true ->
  tiles lo hi (merge_next b rest) /\
  exists b' run l2, rest = run ++ l2 /\ all_free run /\ stops l2 /\ merge_next b rest = b' :: l2 /\
    b_addr b' = b_addr b /\ b_free b' = true /\ b_size b' = b_size b + extent run.
Proof.
  revert b. induction rest as [|n rest IH]; intros b Hlo Ht Hf.
  { split; [done|]. exists b, [], []. split_and!; try done; [constructor|cbn; lia]. }
  destruct (block_end lo b _ Hlo Ht) as (E1 & E2 & Hle). cbn [merge_next].
  destruct (b_free n) eqn:Hn.
  2: { split; [done|]. exists b, [], (n :: rest). split_and!; try done; [constructor|cbn; lia]. }
  rewrite E2. destruct Ht as (Ha & Hs & Hna & Hns & Hr). pose proof (tiles_le _ _ _ Hr).
  rewrite (proj2 (Z.eqb_eq _ _) (eq_sym Hna)). cbn [negb].
  unfold sizeof_Block. set (b1 := b <| b_size ::= _ |>).
  assert (Hsz : b_size b1 = b_size b + 24 + b_size n).
  { unfold b1. simpl. rewrite (w64_small (24 + b_size n)), w64_small by word_lia. lia. }
  destruct (IH b1 Hlo) as (T1 & b' & run & l2 & -> & T2 & T3 & T4 & T5 & T6 & T7).
  { split; [done|]. rewrite Hsz. split; [lia|].
    by replace (lo + 24 + (b_size b + 24 + b_size n)) with (lo + 24 + b_size b + 24 + b_size n) by lia. }
  { done. }
  split; [done|]. exists b', (n :: run), l2. split_and!; try done; [by constructor|cbn [extent foldr]; fold (extent run); lia].
Qed.

Lemma free_block_spec raw bs lo bs' a :
  0 < lo -> tiles lo hi bs -> free_block raw bs = Some (bs', a) ->
  tiles lo hi bs' /\
  exists l1 b run l2 b', bs = l1 ++ b :: run ++ l2 /\ bs' = l1 ++ b' :: l2 /\ inside b raw 1 /\ all_free run /\ stops l2 /\
    b_addr b = a /\ b_addr b' = a /\ b_free b' = true /\ b_size b' = b_size b + extent run.
Proof.
  revert lo bs'. induction bs as [|b bs IH]; intros lo bs' Hlo Ht E; [done|].
  destruct (block_end lo b _ Hlo Ht) as (E1 & E2 & Hle). cbn [free_block] in E. rewrite E2, E1 in E.
  destruct ((lo + 24 <=? raw) && (raw <? lo + 24 + b_size b)) eqn:Hc.
  - injection E as <- <-. bsimp.
    destruct (merge_next_spec bs lo (b <| b_free := true |>) Hlo) as (T1 & b' & run & l2 & T2 & T3 & T4 & T5 & T6 & T7 & T8);
      [done|done|].
    split; [done|]. exists [], b, run, l2, b'. rewrite <- T5. destruct Ht as [Ha _].
    split_and!; try done; [by rewrite T2|unfold inside; lia..].
  - destruct (free_block raw bs) as [[r1 a1]|] eqn:Er; [|done]. injection E as <- <-.
    destruct Ht as (Ha & Hs & Ht).
    destruct (IH (lo + 24 + b_size b) r1 ltac:(lia) Ht eq_refl)
      as (T & l1 & c & run & l2 & c' & -> & -> & Hi).
    split; [done|]. by exists (b :: l1), c, run, l2, c'.
Qed.

Lemma free_block_none raw bs lo b :
  0 < lo -> tiles lo hi bs -> free_block raw bs = None -> b ∈ bs -> ~ inside b raw 1.
Proof.
  revert lo. induction bs as [|c bs IH]; intros lo Hlo Ht E Hin; [by apply elem_of_nil in Hin|].
  destruct (block_end lo c _ Hlo Ht) as (E1 & E2 & Hle). cbn [free_block] in E. rewrite E2, E1 in E.
  destruct ((lo + 24 <=? raw) && (raw <? lo + 24 + b_size c)) eqn:Hc; [done|].
  destruct (free_block raw bs) as [[? ?]|] eqn:Er; [done|]. destruct Ht as (Ha & Hs & Ht).
  apply elem_of_cons in Hin as [->|Hin].
  - unfold inside. apply andb_false_iff in Hc as [Hc|Hc]; bsimp; lia.
  - by apply (IH (lo + 24 + b_size c)); [lia|..].
Qed.

(** The block freed joins the one before it, if that is free. *)
Definition joins (l1 : list Block) (b : Block) (l1' : list Block) (m : Block) : Prop :=
  l1' = l1 /\ m = b /\ stops (rev l1) \/
  exists prev, l1 = l1' ++ [prev] /\ b_free prev = true /\ b_free m = true /\ b_addr m = b_addr prev /\
    b_size m = b_size prev + 24 + b_size b.

Lemma merge_prev_cons addr p b rest : merge_prev addr (p :: b :: rest) =
  if (b_addr b =? addr) && b_free p then
    if w64 (w64 (b_addr p + sizeof_Block) + b_size p) =? addr
    then p <| b_size ::= fun z => w64 (z + w64 (sizeof_Block + b_size b)) |> :: rest else p :: b :: rest
  else p :: merge_prev addr (b :: rest).
Proof. done. Qed.

Lemma merge_prev_other addr bs : (forall c, c ∈ bs -> b_addr c <> addr) -> forall b, merge_prev addr (b :: bs) = b :: bs.
Proof.
  induction bs as [|c bs IH]; intros Hne b; [done|]. rewrite merge_prev_cons.
  rewrite (proj2 (Z.eqb_neq _ _) (Hne c ltac:(by left))). cbn [andb]. f_equal. apply IH. intros d Hd. apply Hne. by right.
Qed.

Lemma merge_prev_spec b l1 l2 lo :
  0 < lo -> tiles lo hi (l1 ++ b :: l2) -> b_free b = true ->
  exists l1' m, merge_prev (b_addr b) (l1 ++ b :: l2) = l1' ++ m :: l2 /\ tiles lo hi (l1' ++ m :: l2) /\ joins l1 b l1' m.
Proof.
  revert lo. induction l1 as [|p l1 IH]; intros lo Hlo Ht Hf.
  - exists [], b. split_and!; [|done|by left]. apply merge_prev_other. intros c Hc.
    destruct Ht as (Ha & Hs & Ht). destruct (tiles_elem _ _ _ c Ht Hc). lia.
  - destruct (block_end lo p _ Hlo Ht) as (E1 & E2 & Hle). destruct Ht as (Hpa & Hps & Ht). destruct l1 as [|q l1].
    + destruct Ht as (Hba & Hbs & Hr). pose proof (tiles_le _ _ _ Hr). cbn [app].
      rewrite merge_prev_cons, Z.eqb_refl. cbn [andb]. destruct (b_free p) eqn:Hp.
      * rewrite E2, (proj2 (Z.eqb_eq _ _) (eq_sym Hba)). set (m := p <| b_size ::= _ |>).
        assert (Hm : b_size m = b_size p + 24 + b_size b).
        { unfold m, sizeof_Block. cbn. rewrite (w64_small (24 + b_size b)), w64_small by word_lia. lia. }
        exists [], m. split_and!; [done| |by right; exists p]. split; [done|]. rewrite Hm. split; [lia|].
        by replace (lo + 24 + (b_size p + 24 + b_size b)) with (lo + 24 + b_size p + 24 + b_size b) by lia.
      * rewrite merge_prev_other; [|intros c Hc; destruct (tiles_elem _ _ _ c Hr Hc); lia].
        exists [p], b. split_and!; [done|by split_and!|by left].
    + destruct (IH (lo + 24 + b_size p)) as (l1' & m & Em & Tm & Hj); [lia|done|done|].
      assert (b_addr q <> b_addr b) as Hq.
      { cbn [app tiles] in Ht. destruct Ht as (Hqa & Hqs & Ht).
        destruct (tiles_elem _ _ _ b Ht); [apply elem_of_app; right; by left|]. lia. }
      exists (p :: l1'), m. cbn [app]. rewrite merge_prev_cons, (proj2 (Z.eqb_neq _ _) Hq). cbn [andb app] in *.
      split_and!; [by rewrite Em|done|]. destruct Hj as [(-> & -> & Hst)|(prev & E & Hj)].
      * left. split_and!; [done|done|]. cbn [rev] in *. destruct (rev l1 ++ [q]) as [|x y] eqn:Er; [by destruct (rev l1)|done].
      * right. exists prev. by rewrite E.
Qed.
End freeing.

(** The block at [b] is freed and joined with the free blocks [run] after it and with a
    free block before it. *)
Definition released (p : Z) (bs bs' : list Block) : Prop :=
  exists l1 b run l2 l1' m, bs = l1 ++ b :: run ++ l2 /\ inside b p 1 /\ all_free run /\ stops l2 /\
    bs' = l1' ++ m :: l2 /\ b_free m = true /\ b_addr m + 24 + b_size m = b_addr b + extent (b :: run) /\
    (l1' = l1 /\ b_addr m = b_addr b /\ stops (rev l1) \/
     exists prev, l1 = l1' ++ [prev] /\ b_free prev = true /\ b_addr m = b_addr prev).

Lemma released_in_use p bs bs' : released p bs bs' ->
  exists l1 b l2, bs = l1 ++ b :: l2 /\ inside b p 1 /\ in_use bs' = in_use l1 ++ in_use l2.
Proof.
  intros (l1 & b & run & l2 & l1' & m & -> & Hi & Hrun & _ & -> & Hm & _ & Hj). exists l1, b, (run ++ l2).
  split_and!; [done|done|]. rewrite !in_use_app, (in_use_free run), (in_use_cons_free m) by done. cbn [app]. f_equal.
  destruct Hj as [(-> & _)|(prev & -> & Hp & _)]; [done|]. by rewrite in_use_app, (in_use_cons_free prev), app_nil_r.
Qed.

(** What [free] does, by whether the pointer falls in a payload. *)
Lemma free_cases p h :
  heap_wf h -> p <> 0 ->
  heap_wf (free p h) /\
  (released p (blocks_ h) (blocks_ (free p h)) \/
   (forall b, b ∈ blocks_ h -> ~ inside b p 1) /\ blocks_ (free p h) = blocks_ h /\
     h_invalid_frees (hdiagnostics_ (free p h)) = inc64 (h_invalid_frees (hdiagnostics_ h))).
Proof.
  intros [W1 W2 W3 W4] Hp. unfold free. rewrite (proj2 (Z.eqb_neq p 0) Hp).
  destruct (free_block p (blocks_ h)) as [[bs a]|] eqn:E.
  - destruct (free_block_spec _ W2 p _ _ _ _ W1 W4 E)
      as (Ht & l1 & b & run & l2 & b' & E1 & -> & Hi & Hrun & Hst & Eb & <- & Hf & Hsz).
    destruct (merge_prev_spec _ W2 b' l1 l2 _ W1 Ht Hf) as (l1' & m & Em & Tm & Hj).
    cbn [blocks_ setf heap_start_ heap_end_]. split; [split; cbn; by rewrite ?Em|]. left. rewrite Em.
    exists l1, b, run, l2, l1', m. cbn [extent foldr]. fold (extent run).
    destruct Hj as [(-> & -> & Hs1)|(prev & E2 & Hp1 & Hm & Ha & Hms)].
    + split_and!; try done; [lia|]. left. by rewrite Eb.
    + split_and!; try done; [|right; by exists prev]. rewrite Ha, Hms, Hsz.
      rewrite E2, <-!app_assoc in Ht. apply tiles_app in Ht as (mid & _ & Hpa & _ & Hba & _). lia.
  - cbn. split; [by split|]. right. split_and!; [|done|done].
    intros b Hb. by apply (free_block_none (heap_end_ h) W2 p (blocks_ h) (heap_start_ h) b).
Qed.

(** ** Growth *)

Section growth.
Context {A : Type} `{PageAllocatorLaws A}.
(** The manager owns the upper half, where the heap lives. *)
Context (dom : Z -> bool) (Hupper : forall i, 256 <= i < 512 -> dom i = true).
#[local] Abbreviation vm_wf := (vm_wf dom).

Lemma upper_owned v : kHeapBase <= v < two64 -> owned dom v.
Proof.
  intros Hv. apply Hupper. unfold pml4_index. rewrite index_spec by lia.
  unfold kHeapBase in Hv. change (2 ^ 39) with 549755813888. word_lia.
Qed.

(** [st'] maps at least the pages that [st] maps. *)
Definition map_grows (st st' : vmst A) : Prop :=
  vm_wf st' /\ forall v, owned dom v -> is_Some (pte st v) -> is_Some (pte st' v).

Lemma map_grows_trans st1 st2 st3 : map_grows st1 st2 -> map_grows st2 st3 -> map_grows st1 st3.
Proof. intros [? H1] [? H2]. split; [done|]. intros v Hv Hs. by apply H2, H1. Qed.

Lemma expand_step_spec virt i st :
  let page := w64 (virt + w64 (i * kPage)) in
  vm_wf st -> owned dom page ->
  flow_spec (fun st' => map_grows st st' /\ pte st page = None /\ is_Some (pte st' page))
    (fun st' => map_grows st st') (expand_step virt i st).
Proof.
  intros page Hw Ho. unfold expand_step. fold page.
  pose proof (alloc_tree_wf dom _ _ Hw) as Hw1.
  pose proof (pa_alloc_cases _ (tw_alloc _ _ _ Hw)) as Hc.
  destruct (pa_alloc (frames (mach st))) as [s phys]. cbn [fst snd] in *.
  set (st1 := st <| mach ::= fun M => M <| frames := s |> |>).
  change (vm_wf st1) in Hw1. change (pte st page) with (pte st1 page).
  assert (H1 : map_grows st st1) by (split; [done|auto]).
  destruct Hc as [(-> & _)|(Hok & Hav & _ & _ & _ & Hrest)]; [done|].
  rewrite (proj2 (Z.eqb_neq phys 0)) by (destruct Hok; lia).
  destruct (map_page_cases dom page phys (Z.lor PageWrite PageGlobal) st1 Hw1 Ho)
    as (Hw2 & [Hroot Hgrow] & Hm).
  destruct (map_page page phys (Z.lor PageWrite PageGlobal) st1) as [st2 r]. cbn [fst snd] in *.
  destruct Hm as [(-> & Hs & _)|(-> & Hpm & Hap & Hnone & Hm)]; cbn [negb flow_spec].
  { apply (map_grows_trans _ st1); [done|]. split; [done|]. intros v Hv. by rewrite Hs. }
  assert (Hpte : pte st2 page = Some (page_entry phys (Z.lor PageWrite PageGlobal)))
    by (by rewrite Hm, decide_True).
  assert (Etr : translate page st2 = phys).
  { rewrite (translate_lookup dom) by done. rewrite Hpte, page_entry_table; [|destruct Hok; lia|done].
    unfold aligned in Hpm. rewrite Hpm. destruct Hok. word_lia. }
  rewrite Etr.
  destruct (zero_other dom (root_ (vmm st2)) (mach st2) phys Hw2 Hok) as (Hw3 & _ & Hl).
  { intros q Hq Eq. rewrite Hroot in Eq. destruct (Hgrow q phys Hq Eq) as [Hold|Hnew].
    - rewrite (tw_used _ _ _ Hw q phys) in Hav; done.
    - simpl in Hnew. by rewrite Hrest, Z.eqb_refl, andb_false_r in Hnew. }
  assert (Hsame : forall v, owned dom v ->
    pte (st2 <| mach ::= fun M => M <| ram ::= zero_page phys |> |>) v = pte st2 v).
  { intros v Hv. apply Hl; [by apply path_of_vpath|done|apply pt_index_ok]. }
  split_and!; [|done|by rewrite Hsame, Hpte].
  apply (map_grows_trans _ st1); [done|]. split; [done|].
  intros v Hv Hs. rewrite Hsame, Hm by done. case_decide; [done|exact Hs].
Qed.

(** The number of pages of an expansion. *)
Definition expand_pages (bytes : Z) : Z := (bytes + 4095) / 4096.

(** The pages mapped after [k] iterations of the page loop. *)
Definition pages_mapped (virt k : Z) (st : vmst A) : Prop :=
  forall i, 0 <= i < k -> is_Some (pte st (virt + i * 4096)).

(** Not even the first page can be added. *)
Definition stuck (virt : Z) (st : vmst A) : Prop := match expand_step virt 0 st with Next _ => False | Stop _ => True end.

Lemma expand_loop_spec virt n st :
  kHeapBase <= virt -> virt + n * 4096 <= two64 -> 0 <= n -> vm_wf st ->
  flow_spec
    (fun st' => map_grows st st' /\ pages_mapped virt n st' /\ (0 < n -> pte st virt = None))
    (fun st' => map_grows st st' /\ exists k, 0 <= k < n /\ pages_mapped virt k st' /\ (k = 0 -> stuck virt st))
    (loop_range 0 n (expand_step virt) st).
Proof.
  intros Hv Hend Hn Hw.
  pose proof (loop_range_inv
    (fun i s => map_grows st s /\ pages_mapped virt i s /\ (0 < i -> pte st virt = None) /\ (i = 0 -> s = st))
    (fun s => map_grows st s /\ exists k, 0 <= k < n /\ pages_mapped virt k s /\ (k = 0 -> stuck virt st))
    0 n (expand_step virt) st) as Hl.
  rewrite Z.max_r in Hl by lia.
  assert (Hl' : flow_spec (fun s => map_grows st s /\ pages_mapped virt n s /\
    (0 < n -> pte st virt = None) /\ (n = 0 -> s = st))
    (fun s => map_grows st s /\ exists k, 0 <= k < n /\ pages_mapped virt k s /\ (k = 0 -> stuck virt st))
    (loop_range 0 n (expand_step virt) st)).
  { apply Hl.
    - split_and!; [split; [done|auto]|intros i Hi; lia|lia|done].
    - intros i s Hi (Hg & Hp & Hnone & Hst).
      assert (Epage : w64 (virt + w64 (i * kPage)) = virt + i * 4096).
      { unfold kPage. rewrite (w64_small (i * 4096)), w64_small by (unfold kHeapBase in *; word_lia). done. }
      pose proof (expand_step_spec virt i s) as Hs. cbv zeta in Hs. rewrite Epage in Hs.
      specialize (Hs (proj1 Hg)).
      assert (Hown : forall j, 0 <= j <= i -> owned dom (virt + j * 4096))
        by (intros j Hj; apply upper_owned; unfold kHeapBase in *; word_lia).
      specialize (Hs (Hown i ltac:(lia))).
      destruct (expand_step virt i s) as [s'|s'] eqn:Estep; cbn [flow_spec] in *.
      + destruct Hs as (Hg' & Hnone' & Hsome). split_and!; [by eapply map_grows_trans| | |lia].
        * intros j Hj. destruct (decide (j = i)) as [->|]; [done|].
          apply (proj2 Hg'); [apply Hown; lia|]. apply Hp. lia.
        * intros _. destruct (decide (i = 0)) as [->|]; [|apply Hnone; lia].
          rewrite <- (Hst eq_refl). by rewrite Z.add_0_r in Hnone'.
      + split; [by eapply map_grows_trans|]. exists i. split; [lia|]. split.
        * intros j Hj. apply (proj2 Hs); [apply Hown; lia|]. by apply Hp.
        * intros ->. rewrite (Hst eq_refl) in Estep. unfold stuck. by rewrite Estep. }
  destruct (loop_range 0 n (expand_step virt) st); cbn [flow_spec] in *; [|done].
  by destruct Hl' as (? & ? & ? & _).
Qed.

Lemma expand_pages_spec bytes :
  0 <= bytes -> bytes + 4095 < two64 ->
  Z.land (w64 (bytes + 4095)) (not64 4095) / kPage = expand_pages bytes.
Proof.
  intros Hb Hr. change 4095 with (2 ^ 12 - 1) at 2. rewrite land_high by (apply w64_range || lia).
  rewrite w64_small by word_lia. unfold expand_pages, kPage. change (2 ^ 12) with 4096. word_lia.
Qed.

(** An expansion adds one free block at the end of the heap, its pages mapped,
    or leaves the heap as it was with some pages mapped past its end. *)
Lemma expand_cases bytes h st h' st' grown :
  0 <= bytes -> kHeapBase <= heap_end_ h -> heap_end_ h + bytes + 8192 <= two64 -> vm_wf st ->
  expand bytes h st = (h', st', grown) ->
  map_grows st st' /\
  (if grown
   then blocks_ h' = blocks_ h ++ [mkBlock (heap_end_ h) (w64 (expand_pages bytes * 4096 - 24)) true] /\
        heap_end_ h' = heap_end_ h + expand_pages bytes * 4096 /\ heap_start_ h' = heap_start_ h /\
        pages_mapped (heap_end_ h) (expand_pages bytes) st' /\
        (0 < expand_pages bytes -> pte st (heap_end_ h) = None)
   else h' = h /\ exists k, 0 <= k < expand_pages bytes /\ pages_mapped (heap_end_ h) k st' /\ (k = 0 -> stuck (heap_end_ h) st)).
Proof.
  intros Hb Hbase Hroom Hw E. unfold expand in E.
  rewrite expand_pages_spec in E by (unfold kHeapBase in *; word_lia).
  assert (Hn : 0 <= expand_pages bytes /\ expand_pages bytes * 4096 <= bytes + 4095)
    by (unfold expand_pages; word_lia).
  set (n := expand_pages bytes) in *.
  pose proof (expand_loop_spec (heap_end_ h) n st Hbase ltac:(lia) ltac:(lia) Hw) as Hl.
  destruct (loop_range 0 n (expand_step (heap_end_ h)) st) as [s|s]; cbn [flow_spec] in Hl;
    injection E as <- <- <-.
  - destruct Hl as (Hg & Hp & Hno). unfold kPage, sizeof_Block. simpl.
    rewrite (w64_small (n * 4096)) by (unfold kHeapBase in *; word_lia).
    rewrite (w64_small (heap_end_ h + _)) by (unfold kHeapBase in *; word_lia). done.
  - destruct Hl as (Hg & k & Hk). split; [done|]. split; [done|]. by exists k.
Qed.

(** ** Allocation *)

Lemma expand_wf bytes h st h' st' :
  heap_wf h -> 0 < bytes -> kHeapBase <= heap_end_ h -> heap_end_ h + bytes + 8192 <= two64 ->
  vm_wf st -> expand bytes h st = (h', st', true) ->
  heap_wf h' /\ heap_end_ h <= heap_end_ h' <= heap_end_ h + bytes + 4095 /\
  heap_start_ h' = heap_start_ h /\ in_use (blocks_ h') = in_use (blocks_ h) /\
  exists b, b ∈ blocks_ h' /\ b_free b = true /\ bytes - 24 <= b_size b.
Proof.
  intros Hh Hb Hbase Hroom Hw E.
  destruct (expand_cases bytes h st h' st' true) as (_ & Eb & Ee & Es & _); try done; [lia|].
  assert (Hn : 1 <= expand_pages bytes /\ bytes <= expand_pages bytes * 4096 <= bytes + 4095)
    by (unfold expand_pages; word_lia).
  destruct Hh as [W1 W2 W3 W4].
  rewrite w64_small in Eb by (unfold kHeapBase in *; word_lia).
  split; [constructor|]; rewrite ?Es, ?Ee; try lia.
  - rewrite Zplus_mod, Z.mod_mul, W3 by lia. done.
  - rewrite Eb. apply tiles_app. exists (heap_end_ h). split; [done|]. simpl. lia.
  - split; [lia|]. split; [done|]. rewrite Eb, in_use_app, (in_use_cons_free _ []) by done.
    split; [by rewrite app_nil_r|]. eexists. split; [apply elem_of_app; right; by left|]. simpl. lia.
Qed.

(** A successful allocation of [size] bytes at alignment [align]: a block is
    added to those in use, and the pointer lies in its payload. *)
Definition alloc_ok (size align : Z) (h : KernelHeap) (st : vmst A)
    (r : KernelHeap * vmst A * Z) : Prop :=
  let '(h', st', p) := r in
  heap_wf h' /\ map_grows st st' /\ heap_start_ h' = heap_start_ h /\
  p mod align = 0 /\ heap_start_ h < p /\
  exists l1 b l2, blocks_ h' = l1 ++ b :: l2 /\ b_free b = false /\
    in_use (blocks_ h) = in_use l1 ++ in_use l2 /\ inside b p size.

Definition alloc_failed (h : KernelHeap) (st : vmst A) (r : KernelHeap * vmst A * Z) : Prop :=
  let '(h', st', p) := r in
  p = 0 /\ map_grows st st' /\ blocks_ h' = blocks_ h /\
  heap_start_ h' = heap_start_ h /\ heap_end_ h' = heap_end_ h.

Lemma peak_blocks h : blocks_ (update_peak_used_locked h) = blocks_ h /\
  heap_start_ (update_peak_used_locked h) = heap_start_ h /\
  heap_end_ (update_peak_used_locked h) = heap_end_ h.
Proof. unfold update_peak_used_locked. by destruct (_ <? _). Qed.

Lemma heap_wf_transfer h h' :
  blocks_ h' = blocks_ h -> heap_start_ h' = heap_start_ h -> heap_end_ h' = heap_end_ h ->
  heap_wf h -> heap_wf h'.
Proof. intros E1 E2 E3 [? ? ? ?]. split; by rewrite ?E1, ?E2, ?E3. Qed.

(** A scan that finds a block. *)
Lemma take_result size k h st bs p h' :
  heap_wf h -> vm_wf st -> 0 < size -> 4 <= k < 63 ->
  heap_end_ h + size + 2 ^ k + 8192 <= two64 ->
  take_block size (2 ^ k) (blocks_ h) = Some (bs, p) ->
  blocks_ h' = bs -> heap_start_ h' = heap_start_ h -> heap_end_ h' = heap_end_ h ->
  alloc_ok size (2 ^ k) h st (h', st, p).
Proof.
  intros [W1 W2 W3 W4] Hw Hs Hk Hroom E P1 P2 P3.
  destruct (take_block_spec size k (heap_end_ h) Hs Hk Hroom _ _ _ _ W1 W4 E)
    as (l1 & b & l2 & b' & tail & E1 & E2 & T).
  rewrite E1, tiles_app in W4. destruct W4 as (mid & Hl1 & Hl2).
  assert (Hm : heap_start_ h <= mid) by (by eapply tiles_le).
  pose proof (tk_within _ _ _ _ _ _ T) as [Hp _]. pose proof (proj1 Hl2) as Hba.
  unfold alloc_ok. split_and!; try done.
  - split; rewrite ?P1, ?P2, ?P3; try done. rewrite E2. apply tiles_app. exists mid.
    split; [done|]. by apply (tk_tiles _ _ _ _ _ _ T).
  - apply (tk_align _ _ _ _ _ _ T).
  - lia.
  - exists l1, b', (tail ++ l2). rewrite P1, E1, E2, !in_use_app.
    split_and!; [done|apply T| |apply T]. rewrite in_use_cons_free by apply T. f_equal.
    pose proof (tk_rest _ _ _ _ _ _ T) as Hfree. clear -Hfree.
    induction Hfree as [|c tl Hc _ IH]; [done|]. by rewrite in_use_cons_free.
Qed.

(** Two scans are enough: the first growth makes room for the request. *)
Lemma allocate_loop_spec size k h st :
  heap_wf h -> vm_wf st -> 0 < size -> 4 <= k < 63 -> kHeapBase <= heap_start_ h ->
  heap_end_ h + 2 * size + 2 * 2 ^ k + 32768 <= two64 ->
  exists r, allocate_loop 2 size (2 ^ k) h st = Some r /\
    (alloc_ok size (2 ^ k) h st r \/
     alloc_failed h st r /\ take_block size (2 ^ k) (blocks_ h) = None /\
       (expand (size + 2 ^ k + 24) h st).2 = false).
Proof.
  intros Hh Hw Hs Hk Hbase Hroom. assert (Hp : 0 < 2 ^ k) by (apply Z.pow_pos_nonneg; lia).
  pose proof (tiles_le _ _ _ (hw_tiles _ Hh)) as Hse. cbn [allocate_loop].
  destruct (take_block size (2 ^ k) (blocks_ h)) as [[bs p]|] eqn:Et.
  { eexists. split; [reflexivity|]. left.
    match goal with |- context [update_peak_used_locked ?x] => destruct (peak_blocks x) as (P1 & P2 & P3) end.
    by apply (take_result size k h st bs p); [..|lia|done|rewrite P1|rewrite P2|rewrite P3]. }
  unfold sizeof_Block. rewrite (w64_small (size + 2 ^ k)), (w64_small (_ + 24)) by (unfold kHeapBase in *; word_lia).
  destruct (expand (size + 2 ^ k + 24) h st) as [[h1 st1] grown] eqn:Ee.
  destruct (expand_cases (size + 2 ^ k + 24) h st h1 st1 grown) as (Hg & Hc); try done; try lia.
  destruct grown; cbn [negb].
  2: { eexists. split; [reflexivity|]. right. by destruct Hc as [-> _]. }
  destruct (expand_wf (size + 2 ^ k + 24) h st h1 st1) as (Hh1 & He1 & Hs1 & Hu1 & b & Hb & Hbf & Hbs);
    try done; try lia.
  destruct (room_inside size k b) as (q & Hq & Hi); [lia|done|lia|
    destruct (tiles_elem _ _ _ _ (hw_tiles _ Hh1) Hb); pose proof (hw_start _ Hh1); lia|
    destruct (tiles_elem _ _ _ _ (hw_tiles _ Hh1) Hb); lia|].
  destruct (take_block_fits size k (heap_end_ h1) Hs Hk ltac:(lia) _ _ b q (hw_start _ Hh1) (hw_tiles _ Hh1))
    as [[bs p] Et1]; [done..|].
  rewrite Et1. eexists. split; [reflexivity|]. left.
  match goal with |- context [update_peak_used_locked ?x] =>
    destruct (peak_blocks x) as (P1 & P2 & P3); set (h2 := update_peak_used_locked x) in * end.
  destruct (take_result size k h1 st1 bs p h2) as (R1 & R2 & R3 & R4 & R5 & R6); try done; [apply Hg|lia|].
  rewrite Hu1, Hs1 in *. unfold alloc_ok. split_and!; done || by eapply map_grows_trans.
Qed.

Lemma align_exponent alignment k : Z.max 16 alignment = 2 ^ k -> 4 <= k.
Proof.
  intros Hal. destruct (Z.ltb_spec k 4); [|done]. exfalso. destruct (Z.ltb_spec k 0).
  - rewrite Z.pow_neg_r in Hal by done. lia.
  - assert (2 ^ k < 2 ^ 4) by (apply Z.pow_lt_mono_r; lia). change (2 ^ 4) with 16 in *. lia.
Qed.

Lemma allocate_spec size alignment k h st :
  heap_wf h -> vm_wf st -> 0 < size -> Z.max 16 alignment = 2 ^ k -> k < 63 ->
  kHeapBase <= heap_start_ h -> heap_end_ h + 2 * size + 2 * 2 ^ k + 32768 <= two64 ->
  exists r, allocate 2 size alignment h st = Some r /\
    (alloc_ok size (2 ^ k) h st r \/
     alloc_failed h st r /\ take_block size (2 ^ k) (blocks_ h) = None /\
       (expand (size + 2 ^ k + 24) h st).2 = false).
Proof.
  intros Hh Hw Hs Hal Hk Hbase Hroom. unfold allocate.
  rewrite (proj2 (Z.eqb_neq size 0)) by lia.
  replace (if alignment <? 16 then 16 else alignment) with (2 ^ k)
    by (rewrite <- Hal; destruct (Z.ltb_spec alignment 16); lia).
  pose proof (align_exponent _ _ Hal) as Hk4.
  set (h0 := h <| hdiagnostics_ ::= _ |>).
  destruct (allocate_loop_spec size k h0 st) as (r & E & Hr); try done.
  { by apply (heap_wf_transfer h). }
  exists r. split; [done|]. destruct Hr as [Hr|(Hr & Ht & He)]; [by left|]. right.
  split_and!; [done|done|]. revert He. unfold expand, h0. simpl.
  by destruct (loop_range _ _ _ _).
Qed.

(** C14. [allocate] always returns, after at most two scans.  On success the
    pointer has the alignment asked for and the bytes [p, p+size) lie in the
    payload of one block that is newly in use; the blocks in use before are the
    others in use now, in the same order with the same extents, none of them
    overlapping the new one.  It returns null, with the blocks as they were, only
    when no payload of a free block has an aligned range of the size asked for and
    the heap cannot grow. *)
Theorem allocate_returns_fresh_block size alignment k h st :
  heap_wf h -> vm_wf st -> 0 < size -> Z.max 16 alignment = 2 ^ k -> k < 63 ->
  kHeapBase <= heap_start_ h -> heap_end_ h + 2 * size + 2 * 2 ^ k + 32768 <= two64 ->
  exists h' st' p, allocate 2 size alignment h st = Some (h', st', p) /\ heap_wf h' /\ vm_wf st' /\
  (p = 0 /\ blocks_ h' = blocks_ h /\
     (forall b q, b ∈ blocks_ h -> b_free b = true -> q mod 2 ^ k = 0 -> ~ inside b q size) /\
     (expand (size + 2 ^ k + 24) h st).2 = false \/
   p <> 0 /\ p mod 2 ^ k = 0 /\
   exists l1 b l2, blocks_ h' = l1 ++ b :: l2 /\ b_free b = false /\ inside b p size /\
     in_use (blocks_ h) = in_use l1 ++ in_use l2 /\
     forall c, c ∈ in_use (blocks_ h) ->
       b_addr c + 24 + b_size c <= b_addr b \/ b_addr b + 24 + b_size b <= b_addr c).
Proof.
  intros Hh Hw Hs Hal Hk Hbase Hroom.
  destruct (allocate_spec size alignment k h st) as ([[h' st'] p] & E & Hr); try done.
  exists h', st', p. split; [done|]. destruct Hr as [Hr|(Hr & Hnone & Hx)].
  - destruct Hr as (Hh' & Hg & _ & Hm & Hlt & l1 & b & l2 & E2 & Hb & U & Hi).
    split_and!; [done|apply Hg|]. right. pose proof (hw_start _ Hh).
    split_and!; [lia|done|]. exists l1, b, l2. split_and!; try done.
    intros c Hc. pose proof (hw_tiles _ Hh') as Ht. rewrite E2 in Ht.
    apply (tiles_disjoint _ _ l1 b l2 c Ht). rewrite U, <- in_use_app in Hc.
    by apply list_elem_of_filter in Hc as [_ Hc].
  - destruct Hr as (-> & Hg & Eb & Es & Ee).
    split_and!; [by apply (heap_wf_transfer h)|apply Hg|]. left. split_and!; [done|done| |done].
    intros b q Hb Hf Hq Hi. pose proof (align_exponent _ _ Hal) as Hk4. destruct (take_block_fits size k (heap_end_ h) Hs ltac:(lia)
      ltac:(lia) (blocks_ h) (heap_start_ h) b q (hw_start _ Hh) (hw_tiles _ Hh) Hb Hf Hq Hi) as [r Er]. congruence.
Qed.

(** C34. [free] of a pointer into a payload releases exactly that block: it becomes one
    free block with all the free blocks that follow it and, if the block before it is
    free, with that one; it ends where they ended, and the other blocks stay as they
    were.  The heap stays tiled.  Any other pointer only counts as an invalid free. *)
Theorem free_releases_block p h :
  heap_wf h -> p <> 0 ->
  heap_wf (free p h) /\
  ((exists l1 b run l2 l1' m, blocks_ h = l1 ++ b :: run ++ l2 /\ inside b p 1 /\ all_free run /\ stops l2 /\
      blocks_ (free p h) = l1' ++ m :: l2 /\ b_free m = true /\
      b_addr m + 24 + b_size m = b_addr b + extent (b :: run) /\
      (l1' = l1 /\ b_addr m = b_addr b /\ stops (rev l1) \/
       exists prev, l1 = l1' ++ [prev] /\ b_free prev = true /\ b_addr m = b_addr prev)) \/
   (forall b, b ∈ blocks_ h -> ~ inside b p 1) /\ blocks_ (free p h) = blocks_ h /\
     h_invalid_frees (hdiagnostics_ (free p h)) = inc64 (h_invalid_frees (hdiagnostics_ h))).
Proof. apply free_cases. Qed.

(** Freeing the pointer that [allocate] returned restores the blocks in
    use. *)
Theorem allocate_free_restores size alignment k h st h' st' p :
  heap_wf h -> vm_wf st -> 0 < size -> Z.max 16 alignment = 2 ^ k -> k < 63 ->
  kHeapBase <= heap_start_ h -> heap_end_ h + 2 * size + 2 * 2 ^ k + 32768 <= two64 ->
  allocate 2 size alignment h st = Some (h', st', p) -> p <> 0 ->
  heap_wf (free p h') /\ in_use (blocks_ (free p h')) = in_use (blocks_ h).
Proof.
  intros Hh Hw Hs Hal Hk Hbase Hroom E Hp.
  destruct (allocate_spec size alignment k h st) as (r & E' & Hr); try done.
  rewrite E in E'. injection E' as <-. destruct Hr as [Hr|[[-> _] _]]; [|done].
  destruct Hr as (Hh' & _ & _ & _ & _ & l1 & b & l2 & E2 & Hb & U & Hi).
  destruct (free_cases p h' Hh' Hp) as [Hf Hc]. split; [done|]. rewrite U.
  assert (Hb1 : inside b p 1) by (unfold inside in *; lia).
  destruct Hc as [(m1 & c & m2 & E1 & Hi1 & ->)%released_in_use|[Hno _]].
  - pose proof (hw_tiles _ Hh') as Ht. rewrite E2 in Ht, E1.
    by destruct (tiles_inside_unique l1 b l2 m1 c m2 _ _ p Ht E1 Hb1 Hi1) as (-> & _ & ->).
  - destruct (Hno b); [rewrite E2; apply elem_of_app; right; by left|done].
Qed.

(** A growth by one page that succeeds adds the first page. *)
Lemma grow_not_stuck h st : (expand 1 h st).2 = true -> ~ stuck (heap_end_ h) st.
Proof.
  unfold expand, stuck. change (Z.land (w64 (1 + 4095)) (not64 4095) / kPage) with 1. unfold loop_range.
  change (Z.to_nat (1 - 0)) with 1%nat. cbn [loop_from]. destruct (expand_step (heap_end_ h) 0 st); [by intros _ []|done].
Qed.

(** C40. A growth that fails for want of frames spoils the heap for good. Where the heap
    could have grown by one page, a larger growth that fails on the way leaves its first
    pages mapped behind the end of the heap: every later growth, by however little and
    with however many frames free again, is refused as long as the mappings stay. *)
Theorem expand_failure_is_permanent bytes h st h1 st1 bytes2 st2 :
  0 <= bytes -> 0 < bytes2 -> kHeapBase <= heap_end_ h ->
  heap_end_ h + bytes + 8192 <= two64 -> heap_end_ h + bytes2 + 8192 <= two64 -> vm_wf st ->
  (expand 1 h st).2 = true -> expand bytes h st = (h1, st1, false) ->
  vm_wf st2 -> same_map dom st1 st2 ->
  (expand bytes2 h1 st2).2 = false.
Proof.
  intros Hb Hb2 Hbase Hroom Hroom2 Hw Hone E Hw2 Hsame.
  destruct (expand_cases bytes h st h1 st1 false Hb Hbase Hroom Hw E) as (_ & -> & k & Hk & Hp & Hst).
  assert (is_Some (pte st1 (heap_end_ h))) as Hsome.
  { specialize (Hp 0). rewrite Z.add_0_r in Hp. apply Hp. pose proof (grow_not_stuck _ _ Hone) as Hns.
    destruct (Z.eq_dec k 0) as [Ek|]; [by destruct (Hns (Hst Ek))|lia]. }
  destruct (expand bytes2 h st2) as [[h2 st3] grown] eqn:E2.
  destruct (expand_cases bytes2 h st2 h2 st3 grown) as (_ & Hc); try done; [lia|].
  destruct grown; [|done]. exfalso. destruct Hc as (_ & _ & _ & _ & Hnone).
  rewrite <- Hsame in Hsome by (apply upper_owned; lia).
  rewrite Hnone in Hsome; [by destruct Hsome|]. unfold expand_pages. word_lia.
Qed.
End growth.

(** ** Accounting *)

Definition live_bytes (bs : list Block) : Z :=
  foldr (fun b n => (if b_free b then 0 else b_size b) + n) 0 bs.
Definition free_bytes (bs : list Block) : Z :=
  foldr (fun b n => (if b_free b then b_size b else 0) + n) 0 bs.

Lemma bytes_of_tiles lo hi bs :
  tiles lo hi bs ->
  0 <= live_bytes bs /\ 0 <= free_bytes bs /\
  hi - lo = live_bytes bs + free_bytes bs + 24 * Z.of_nat (length bs).
Proof.
  revert lo. induction bs as [|b bs IH]; intros lo; simpl; [lia|].
  intros (_ & Hs & Ht%IH). destruct (b_free b); lia.
Qed.

(** The counters of [stats] after the blocks of [bs], starting from [o]. *)
Record counted (bs : list Block) (o o' : HeapStats) : Prop := {
  ct_used : hs_used_bytes o' = hs_used_bytes o + live_bytes bs;
  ct_free : hs_free_bytes o' = hs_free_bytes o + free_bytes bs;
  ct_count : hs_block_count o' = hs_block_count o + Z.of_nat (length bs);
  ct_blocks : hs_block_count o' - hs_used_blocks o' - hs_free_blocks o' =
              hs_block_count o - hs_used_blocks o - hs_free_blocks o;
  ct_nonneg : 0 <= hs_used_blocks o' /\ 0 <= hs_free_blocks o';
  ct_largest : hs_largest_free_block o' <= hs_free_bytes o';
  ct_heap : hs_heap_bytes o' = hs_heap_bytes o;
}.

Lemma stats_step_spec o b :
  0 <= hs_used_bytes o -> 0 <= hs_free_bytes o -> 0 <= hs_used_blocks o -> 0 <= hs_free_blocks o ->
  hs_used_blocks o + hs_free_blocks o = hs_block_count o -> 0 <= b_size b ->
  hs_largest_free_block o <= hs_free_bytes o ->
  hs_used_bytes o + hs_free_bytes o + 24 * hs_block_count o + 24 + b_size b < two64 ->
  counted [b] o (stats_step o b).
Proof.
  intros. assert (Hc : inc64 (hs_block_count o) = hs_block_count o + 1 /\
    inc64 (hs_free_blocks o) = hs_free_blocks o + 1 /\ inc64 (hs_used_blocks o) = hs_used_blocks o + 1 /\
    w64 (hs_free_bytes o + b_size b) = hs_free_bytes o + b_size b /\
    w64 (hs_used_bytes o + b_size b) = hs_used_bytes o + b_size b) by (split_and!; word_lia).
  destruct Hc as (C1 & C2 & C3 & C4 & C5).
  unfold stats_step. destruct (b_free b) eqn:Hf; simpl.
  - destruct (Z.ltb_spec (hs_largest_free_block o) (b_size b)); split; simpl; rewrite ?Hf; lia.
  - split; simpl; rewrite ?Hf; lia.
Qed.

Lemma stats_fold_spec bs lo hi o :
  tiles lo hi bs -> 0 <= hs_used_bytes o -> 0 <= hs_free_bytes o ->
  0 <= hs_used_blocks o -> 0 <= hs_free_blocks o ->
  hs_used_blocks o + hs_free_blocks o = hs_block_count o ->
  hs_largest_free_block o <= hs_free_bytes o ->
  hs_used_bytes o + hs_free_bytes o + 24 * hs_block_count o + (hi - lo) < two64 ->
  counted bs o (foldl stats_step o bs).
Proof.
  revert lo o. induction bs as [|b bs IH]; intros lo o Ht U F UB FB BC LG Hb.
  { split; simpl; lia. }
  destruct Ht as (_ & Hs & Ht). pose proof (tiles_le _ _ _ Ht).
  pose proof (stats_step_spec o b U F UB FB BC Hs LG ltac:(lia)) as [S1 S2 S3 S4 S5 S6 S7].
  simpl in S1, S2, S3. cbn [foldl].
  destruct (IH _ (stats_step o b) Ht) as [I1 I2 I3 I4 I5 I6 I7]; try (destruct (b_free b); lia).
  split; simpl; try lia.
Qed.

(** [stats] accounts for every byte of the heap: the used and the free
    payload bytes and one header per block add up to its size. *)
Theorem heap_stats_account h :
  heap_wf h ->
  let o := heap_stats h in
  hs_heap_bytes o = hs_used_bytes o + hs_free_bytes o + 24 * hs_block_count o /\
  hs_block_count o = hs_used_blocks o + hs_free_blocks o /\
  hs_used_bytes o = live_bytes (blocks_ h) /\ hs_largest_free_block o <= hs_free_bytes o.
Proof.
  intros [W1 W2 W3 W4]. unfold heap_stats. pose proof (tiles_le _ _ _ W4) as Hle.
  rewrite (proj2 (Z.leb_le _ _) Hle), (w64_small (heap_end_ h - heap_start_ h)) by word_lia.
  pose proof (bytes_of_tiles _ _ _ W4) as (_ & _ & Hsum).
  match goal with |- context [foldl stats_step ?o _] =>
    destruct (stats_fold_spec (blocks_ h) _ _ o W4) as [S1 S2 S3 S4 S5 S6 S7]; simpl in *; try lia end.
Qed.

(** ** Concrete runs *)

Lemma all_upper : forall i, 256 <= i < 512 -> all_slots i = true.
Proof. done. Qed.

Lemma heap_zero_wf : heap_wf heap_zero.
Proof. by split. Qed.

(** The heap and machine after one allocation of 100 bytes. *)
Definition demo_alloc : KernelHeap * vmst PhysicalMemoryManager * Z :=
  default (heap_zero, demo_vm, 0) (allocate 2 100 16 heap_zero demo_vm).
Definition demo_heap : KernelHeap := demo_alloc.1.1.
Definition demo_ptr : Z := 0xffff800000000020.

Lemma demo_heap_wf : heap_wf demo_heap.
Proof.
  destruct (allocate_spec all_slots all_upper 100 16 4 heap_zero demo_vm heap_zero_wf demo_vm_wf)
    as (r & E & Hr); [done..|].
  unfold demo_heap, demo_alloc. rewrite E. simpl. destruct r as [[h' st'] p].
  destruct Hr as [Hr|(Hr & _)].
  - apply Hr.
  - destruct Hr as (_ & _ & Eb & Es & Ee). by apply (heap_wf_transfer heap_zero); [..|apply heap_zero_wf].
Qed.

Lemma allocate_returns_fresh_block_witness :
  exists h' st' p, allocate 2 100 16 heap_zero demo_vm = Some (h', st', p) /\ heap_wf h'.
Proof.
  destruct (allocate_returns_fresh_block all_slots all_upper 100 16 4 heap_zero demo_vm)
    as (h' & st' & p & E & Hw & _);
    [exact heap_zero_wf|exact demo_vm_wf|reflexivity|reflexivity|reflexivity|done|done|].
  exists h', st', p. split; [exact E|exact Hw].
Defined.

Lemma free_releases_block_witness : heap_wf (free demo_ptr demo_heap).
Proof. apply (free_releases_block demo_ptr demo_heap demo_heap_wf). discriminate. Defined.

Lemma allocate_free_restores_witness :
  in_use (blocks_ (free demo_ptr demo_heap)) = in_use (blocks_ heap_zero).
Proof.
  apply (allocate_free_restores all_slots all_upper 100 16 4 heap_zero demo_vm demo_heap
    demo_alloc.1.2 demo_ptr heap_zero_wf demo_vm_wf);
    [reflexivity|reflexivity|reflexivity|done|done| |discriminate].
  unfold demo_heap, demo_alloc. 
  destruct (allocate 2 100 16 heap_zero demo_vm) as [[[h st] p]|] eqn:E.
  - assert (Ep : (default (heap_zero, demo_vm, 0) (allocate 2 100 16 heap_zero demo_vm)).2 = demo_ptr)
      by (vm_compute; reflexivity).
    rewrite E in Ep. simpl in *. by rewrite Ep.
  - assert (Es : match allocate 2 100 16 heap_zero demo_vm with Some _ => true | None => false end = true)
      by (vm_compute; reflexivity).
    by rewrite E in Es.
Defined.

Lemma heap_stats_account_witness :
  hs_heap_bytes (heap_stats demo_heap) = 4096 /\
  hs_heap_bytes (heap_stats demo_heap) =
  hs_used_bytes (heap_stats demo_heap) + hs_free_bytes (heap_stats demo_heap) + 24 * hs_block_count (heap_stats demo_heap).
Proof.
  split; [vm_compute; reflexivity|]. apply (heap_stats_account demo_heap demo_heap_wf).
Defined.

(** A growth by 64 KiB on a machine with fewer free frames than that. *)
Definition demo_fail : KernelHeap * vmst PhysicalMemoryManager * bool := expand 0x10000 heap_zero demo_vm.

Lemma demo_fail_wf : vm_wf all_slots demo_fail.1.2.
Proof.
  destruct (expand_cases all_slots all_upper 0x10000 heap_zero demo_vm demo_fail.1.1 demo_fail.1.2 demo_fail.2)
    as ((Hw & _) & _); [done|done|done|apply demo_vm_wf| |exact Hw]. unfold demo_fail.
  by destruct (expand 0x10000 heap_zero demo_vm) as [[? ?] ?].
Qed.

Lemma expand_failure_is_permanent_witness :
  (expand 1 heap_zero demo_vm).2 = true /\ (expand 1 demo_fail.1.1 demo_fail.1.2).2 = false.
Proof.
  assert (Hone : (expand 1 heap_zero demo_vm).2 = true) by (vm_compute; reflexivity). split; [exact Hone|].
  apply (expand_failure_is_permanent all_slots all_upper 0x10000 heap_zero demo_vm
    demo_fail.1.1 demo_fail.1.2 1 demo_fail.1.2);
    [done|reflexivity|done|done|done|exact demo_vm_wf|exact Hone| |exact demo_fail_wf|intros v Hv; reflexivity].
  assert (E : demo_fail.2 = false) by (vm_compute; reflexivity). rewrite <- E. unfold demo_fail.
  by destruct (expand 0x10000 heap_zero demo_vm) as [[? ?] ?].
Defined.

(** [calloc] does not check its product: a request for 2^61 + 1 objects of eight
    bytes is satisfied with eight bytes. *)
Lemma calloc_overflow :
  match calloc 2 (2 ^ 61 + 1) 8 heap_zero demo_vm with
  | Some (h', _, p) => p = demo_ptr /\ last_alloc_size (hdiagnostics_ h') = 8
  | None => False
  end.
Proof. vm_compute. by split. Qed.
