(* ===== verification/Scheduler.v ===== *)
(** * The kernel thread scheduler (kernel/src/sched/scheduler.cpp)

    The thread table, creation of kernel threads with their mapped stacks, and
    the cooperative and preemptive switches.  The table is the list of its first
    [count_] entries and a [Thread*] is an index into it.  The theorems show, by
    induction over the steps of the machine, that exactly the current thread is
    running, that stacks are disjoint and the dead stay dead, and that a ready
    thread runs within one turn of the table. *)

From S2P Require Import Prelude Pmm PageTable PmmFrames Vmm.
From stdpp Require Import strings.
#[local] Open Scope Z_scope.

Definition kKernelStackVirtBase : Z := 0xffff800000400000.
Definition kKernelStackPages : Z := 4.
Definition kKernelStackStride : Z := kKernelStackPages * 4096.
Definition kMaxThreads : Z := 32.

Inductive ThreadState := Ready | Running | Blocked | Sleeping | Dead.
#[export] Instance ThreadState_eq_dec : EqDecision ThreadState.
Proof. solve_decision. Defined.

Record Thread := mkThread {
  t_id : Z;
  t_state : ThreadState;
  kernel_stack_base : Z;
  kernel_stack_top : Z;
  saved_rsp : Z;
  t_entry : Z;
  t_argument : Z;
  t_name : string;
  affinity_mask : Z;
  switches : Z;
  wake_tick : Z;
}.
#[export] Instance eta_Thread : Eta Thread := fun r =>
  mkThread (t_id r) (t_state r) (kernel_stack_base r) (kernel_stack_top r) (saved_rsp r)
    (t_entry r) (t_argument r) (t_name r) (affinity_mask r) (switches r) (wake_tick r).

Record ThreadSnapshot := mkThreadSnapshot {
  sn_id : Z;
  sn_state : ThreadState;
  sn_name : string;
  sn_affinity_mask : Z;
  sn_switches : Z;
  sn_wake_tick : Z;
}.

Record Scheduler := mkScheduler {
  threads_ : list Thread;
  next_id_ : Z;
  switch_count_ : Z;
  yield_count_ : Z;
  preempt_count_ : Z;
  current_ : option nat;
  idle_ : option nat;
  current_index_ : nat;
}.
#[export] Instance eta_Scheduler : Eta Scheduler := fun r =>
  mkScheduler (threads_ r) (next_id_ r) (switch_count_ r) (yield_count_ r) (preempt_count_ r)
    (current_ r) (idle_ r) (current_index_ r).

Definition count_ (s : Scheduler) : nat := length (threads_ s).

(** [thread->f = ...] through a [Thread*]. *)
Definition upd (i : nat) (f : Thread -> Thread) (s : Scheduler) : Scheduler :=
  s <| threads_ ::= alter f i |>.

Definition set_state (i : nat) (st : ThreadState) (s : Scheduler) : Scheduler :=
  upd i (fun t => t <| t_state := st |>) s.

Definition state_of (s : Scheduler) (i : nat) : option ThreadState := t_state <$> threads_ s !! i.

(** A 64-bit store through a virtual address. *)
Definition store64 {A} (virt v : Z) (st : vmst A) : vmst A :=
  let p := translate virt st in
  st <| mach ::= fun M => M <| ram ::= fun m => sa_set m p v |> |>.

(** The interrupt frame a new thread is entered through (lines 68-78);
    [trampoline] is the address of [thread_trampoline]. *)
Definition build_frame {A} (trampoline entry argument stack_top : Z) (st : vmst A) : vmst A :=
  let frame := stack_top - 22 * 8 in
  let st := for_range 0 22 (fun i st => store64 (frame + 8 * i) 0 st) st in
  let st := store64 (frame + 8 * 9) entry st in
  let st := store64 (frame + 8 * 10) argument st in
  let st := store64 (frame + 8 * 15) 0 st in
  let st := store64 (frame + 8 * 16) 0 st in
  let st := store64 (frame + 8 * 17) trampoline st in
  let st := store64 (frame + 8 * 18) 0x08 st in
  let st := store64 (frame + 8 * 19) 0x202 st in
  let st := store64 (frame + 8 * 20) stack_top st in
  store64 (frame + 8 * 21) 0x10 st.

Definition create_kernel_thread (trampoline : Z) (name : string) (entry argument affinity : Z)
    (s : Scheduler) (st : vmst PhysicalMemoryManager)
  : Scheduler * vmst PhysicalMemoryManager * option nat :=
  if (kMaxThreads <=? Z.of_nat (count_ s)) || (entry =? 0) then (s, st, None) else
  let '(pm, stack_phys) := allocate_contiguous 4 (frames (mach st)) in
  let st := st <| mach ::= fun M => M <| frames := pm |> |> in
  if stack_phys =? 0 then (s, st, None) else
  let stack_virt := w64 (kKernelStackVirtBase + w64 (Z.of_nat (count_ s) * kKernelStackStride)) in
  let '(st, mapped) := map_range stack_virt stack_phys kKernelStackStride (Z.lor PageWrite PageGlobal) st in
  if negb (ok mapped) then (s, st, None) else
  let stack_top := w64 (stack_virt + kKernelStackStride - 64) in
  let frame := stack_top - 22 * 8 in
  let st := build_frame trampoline entry argument stack_top st in
  let i := count_ s in
  let thread := mkThread (next_id_ s) Ready stack_virt stack_top frame entry argument name affinity 0 0 in
  let s := s <| threads_ ::= fun ts => (ts ++ [thread])%list |> <| next_id_ ::= inc64 |> in
  (s, st, Some i).

(** [idle_entry] is the address of the idle loop. *)
Definition sched_initialize (trampoline idle_entry : Z) (s : Scheduler)
    (st : vmst PhysicalMemoryManager) : Scheduler * vmst PhysicalMemoryManager :=
  let s := s <| threads_ := [] |> <| next_id_ := 1 |> <| switch_count_ := 0 |>
             <| yield_count_ := 0 |> <| preempt_count_ := 0 |> <| current_ := None |>
             <| current_index_ := O |> in
  let bootstrap := mkThread (next_id_ s) Running 0 0 0 0 0 "bootstrap" 1 0 0 in
  let s := s <| threads_ := [bootstrap] |> <| next_id_ ::= inc64 |> <| current_ := Some O |> in
  let '(s, st, idle) := create_kernel_thread trampoline "idle" idle_entry 0 1 s st in
  let s := s <| idle_ := idle |> in
  match idle with
  | Some i => (set_state i Ready s, st)
  | None => (s, st)
  end.

(** The search of [pick_next] for the first step at which a thread other than
    the idle thread is ready. *)
Definition pick_ready (s : Scheduler) : option nat :=
  step ← find_first (fun step =>
           let index := (current_index_ s + Z.to_nat step) mod count_ s in
           bool_decide (idle_ s <> Some index) && bool_decide (state_of s index = Some Ready))%nat
         1 (Z.of_nat (count_ s) + 1);
  Some ((current_index_ s + Z.to_nat step) mod count_ s)%nat.

Definition pick_next (s : Scheduler) : Scheduler * option nat :=
  if decide (count_ s = O) then (s, None) else
  match pick_ready s with
  | Some index => (s <| current_index_ := index |>, Some index)
  | None => (s, idle_ s)
  end.

(** Record the switch to [next] (lines 107-110 and 124-128). *)
Definition dispatch (next : nat) (s : Scheduler) : Scheduler :=
  let s := s <| current_ := Some next |> in
  let s := set_state next Running s in
  let s := s <| switch_count_ ::= inc64 |> in
  upd next (fun t => t <| switches ::= inc64 |>) s.

(** The second component is the context switch performed, as the pair of
    threads handed to [context_switch]. *)
Definition switch_from_current (previous_state : ThreadState) (s : Scheduler)
  : Scheduler * option (nat * nat) :=
  match current_ s with
  | None => (s, None)
  | Some previous =>
    let s := set_state previous previous_state s in
    let '(s, next) := pick_next s in
    match next with
    | Some n => if decide (n = previous) then (set_state previous Running s, None)
                else (dispatch n s, Some (previous, n))
    | None => (set_state previous Running s, None)
    end
  end.

Definition wake_step (now_tick : Z) (t : Thread) : Thread :=
  if bool_decide (t_state t = Sleeping) && (wake_tick t <=? now_tick)
  then t <| t_state := Ready |> <| wake_tick := 0 |> else t.

Definition wake_sleepers (now_tick : Z) (s : Scheduler) : Scheduler :=
  s <| threads_ ::= fmap (wake_step now_tick) |>.

(** The timer interrupt at tick [now]; the result is the stack pointer to
    return to. *)
Definition schedule_from_interrupt (now interrupted_rsp : Z) (s : Scheduler) : Scheduler * Z :=
  match current_ s with
  | None => (s, interrupted_rsp)
  | Some c =>
    let s := upd c (fun t => t <| saved_rsp := interrupted_rsp |>) s in
    let s := if bool_decide (state_of s c = Some Running) then set_state c Ready s else s in
    let s := wake_sleepers now s in
    let '(s, next) := pick_next s in
    match next with
    | Some n =>
      if decide (n = c) then (set_state c Running s, interrupted_rsp)
      else
        let s := dispatch n s <| preempt_count_ ::= inc64 |> in
        (s, default 0 (saved_rsp <$> threads_ s !! n))
    | None => (set_state c Running s, interrupted_rsp)
    end
  end.

Definition yield (s : Scheduler) : Scheduler * option (nat * nat) :=
  match current_ s with
  | None => (s, None)
  | Some _ => switch_from_current Ready (s <| yield_count_ ::= inc64 |>)
  end.

Definition block_current_thread (s : Scheduler) : Scheduler * option (nat * nat) :=
  switch_from_current Blocked s.

Definition sleep_current_until (tick : Z) (s : Scheduler) : Scheduler * option (nat * nat) :=
  let s := match current_ s with
           | Some c => if bool_decide (idle_ s <> Some c)
                       then upd c (fun t => t <| wake_tick := tick |>) s else s
           | None => s
           end in
  switch_from_current Sleeping s.

(** [None] is the fault of dereferencing a null [current_]. *)
Definition exit_current_thread (s : Scheduler) : option (Scheduler * (nat * nat)) :=
  let s := match current_ s with
           | Some c => if bool_decide (idle_ s <> Some c) then set_state c Dead s else s
           | None => s
           end in
  let '(s, next) := pick_next s in
  let next := match next with Some n => Some n | None => idle_ s end in
  previous ← current_ s;
  n ← next;
  let s := s <| current_ := Some n |> in
  let s := set_state n Running s in
  Some (s <| switch_count_ ::= inc64 |>, (previous, n)).

Definition count_state (st : ThreadState) (s : Scheduler) : Z :=
  foldl (fun total t => if bool_decide (t_state t = st) then w64 (total + 1) else total) 0 (threads_ s).
Definition ready_count (s : Scheduler) : Z := count_state Ready s.
Definition sleeping_count (s : Scheduler) : Z := count_state Sleeping s.
Definition dead_count (s : Scheduler) : Z := count_state Dead s.

Definition snapshot_thread (index : nat) (s : Scheduler) : option ThreadSnapshot :=
  t ← threads_ s !! index;
  Some (mkThreadSnapshot (t_id t) (t_state t) (t_name t) (affinity_mask t) (switches t) (wake_tick t)).

(** ** The invariant *)

(** What does not depend on who is running: identifiers count up from 1, the
    stack of each created thread has its own place, and the indices held by the
    scheduler are in range. *)
Record sched_base (s : Scheduler) : Prop := {
  sb_count : (0 < count_ s <= 32)%nat;
  sb_index : (current_index_ s < count_ s)%nat;
  sb_idle : forall d, idle_ s = Some d -> (d < count_ s)%nat;
  sb_next : next_id_ s = Z.of_nat (count_ s) + 1;
  sb_thread : forall i t, threads_ s !! i = Some t ->
    t_id t = Z.of_nat i + 1 /\
    (i <> O -> kernel_stack_base t = kKernelStackVirtBase + Z.of_nat i * kKernelStackStride);
}.

(** The running threads are exactly [r]. *)
Definition running_is (r : option nat) (s : Scheduler) : Prop :=
  forall i, state_of s i = Some Running <-> r = Some i.

Record sched_wf (s : Scheduler) : Prop := {
  sw_base : sched_base s;
  sw_running : running_is (current_ s) s;
  sw_current : current_ s <> None;
  sw_idle_alive : forall d, idle_ s = Some d -> state_of s d <> Some Dead;
}.

Lemma state_of_upd i f s j :
  state_of (upd i f s) j =
  if decide (i = j) then (fun t => t_state (f t)) <$> threads_ s !! j else state_of s j.
Proof.
  unfold state_of, upd. simpl. case_decide as Hd.
  - subst j. rewrite list_lookup_alter_eq. by destruct (threads_ s !! i).
  - by rewrite list_lookup_alter_ne.
Qed.

Lemma state_of_set i st s j :
  state_of (set_state i st s) j =
  if decide (i = j) then (fun _ => st) <$> state_of s j else state_of s j.
Proof.
  unfold set_state. rewrite state_of_upd. case_decide; [|done].
  unfold state_of. by destruct (threads_ s !! j).
Qed.

Lemma state_of_lt s i st : state_of s i = Some st -> (i < count_ s)%nat.
Proof.
  unfold state_of. intros (t & Et & _)%fmap_Some. by apply lookup_lt_Some in Et.
Qed.

Lemma state_of_is_Some s i : (i < count_ s)%nat -> exists st, state_of s i = Some st.
Proof.
  intros Hi. apply lookup_lt_is_Some in Hi as [t Et]. exists (t_state t). unfold state_of. by rewrite Et.
Qed.

Lemma base_upd i f s :
  (forall t, t_id (f t) = t_id t /\ kernel_stack_base (f t) = kernel_stack_base t) ->
  sched_base s -> sched_base (upd i f s).
Proof.
  intros Hf [B1 B2 B3 B4 B5]. unfold upd, count_ in *.
  split; unfold count_; simpl; rewrite ?length_alter; try done.
  intros j t. destruct (decide (i = j)) as [->|Hne].
  - rewrite list_lookup_alter_eq. intros (t0 & Et & ->)%fmap_Some. destruct (Hf t0) as [-> ->]. by apply B5.
  - rewrite list_lookup_alter_ne by done. apply B5.
Qed.

Lemma base_wake now s : sched_base s -> sched_base (wake_sleepers now s).
Proof.
  intros [B1 B2 B3 B4 B5]. unfold count_ in *.
  split; unfold count_; simpl; rewrite ?length_fmap; try done.
  intros j t. rewrite list_lookup_fmap. intros (t0 & Et & ->)%fmap_Some.
  apply B5 in Et. unfold wake_step. by destruct (_ && _).
Qed.

(** ** Choosing a thread *)

(** Thread [i] can be chosen by the search. *)
Definition eligible (s : Scheduler) (i : nat) : Prop :=
  idle_ s <> Some i /\ state_of s i = Some Ready.

(** How many steps after the last choice the search reaches [i]. *)
Definition distance (s : Scheduler) (i : nat) : nat := ring_distance (count_ s) (current_index_ s) i.

Lemma pick_ready_test s k :
  (let index := ((current_index_ s + Z.to_nat k) mod count_ s)%nat in
   bool_decide (idle_ s <> Some index) && bool_decide (state_of s index = Some Ready)) = true <->
  eligible s ((current_index_ s + Z.to_nat k) mod count_ s).
Proof. cbv zeta. unfold eligible. by rewrite andb_true_iff, !bool_decide_eq_true. Qed.

(** The search chooses the eligible thread at the least distance. *)
Lemma pick_ready_Some s i :
  (current_index_ s < count_ s)%nat -> pick_ready s = Some i ->
  eligible s i /\ (i < count_ s)%nat /\ (forall j, eligible s j -> (distance s i <= distance s j)%nat).
Proof.
  intros Hc E. unfold pick_ready in E. destruct (find_first _ _ _) as [k|] eqn:Ef; [|done].
  injection E as <-. apply find_first_Some in Ef as (Hk & Ht & Hmin). apply pick_ready_test in Ht.
  unfold distance. destruct (ring_step (count_ s) (current_index_ s) (Z.to_nat k) Hc ltac:(lia)) as [Hi ->]. split_and!; [done|done|].
  intros j Hj. assert (Hjl : (j < count_ s)%nat) by (eapply state_of_lt, Hj).
  destruct (ring_reaches (count_ s) (current_index_ s) j Hc Hjl) as [Er Hd].
  destruct (Nat.le_gt_cases (Z.to_nat k - 1) (ring_distance (count_ s) (current_index_ s) j)) as [|Hgt]; [done|]. exfalso.
  specialize (Hmin (Z.of_nat (ring_distance (count_ s) (current_index_ s) j + 1)) ltac:(lia)).
  apply not_true_iff_false in Hmin. apply Hmin, pick_ready_test. by rewrite Nat2Z.id, Er.
Qed.

Lemma pick_ready_None s i :
  (current_index_ s < count_ s)%nat -> pick_ready s = None -> ~ eligible s i.
Proof.
  intros Hc E He. unfold pick_ready in E. destruct (find_first _ _ _) as [k|] eqn:Ef; [done|].
  assert (Hi : (i < count_ s)%nat) by (eapply state_of_lt, He).
  destruct (ring_reaches (count_ s) (current_index_ s) i Hc Hi) as [Er Hd]. rewrite find_first_None in Ef.
  specialize (Ef (Z.of_nat (ring_distance (count_ s) (current_index_ s) i + 1)) ltac:(lia)).
  apply not_true_iff_false in Ef. apply Ef, pick_ready_test. by rewrite Nat2Z.id, Er.
Qed.

(** What a choice is. *)
Lemma pick_next_spec s s' n :
  sched_base s -> pick_next s = (s', n) ->
  sched_base s' /\ threads_ s' = threads_ s /\ idle_ s' = idle_ s /\ current_ s' = current_ s /\
  match n with
  | Some i => (i < count_ s)%nat /\
      (eligible s i /\ s' = s <| current_index_ := i |> /\
         (forall j, eligible s j -> (distance s i <= distance s j)%nat) \/
       idle_ s = Some i /\ s' = s /\ forall j, ~ eligible s j)
  | None => idle_ s = None /\ s' = s /\ forall j, ~ eligible s j
  end.
Proof.
  intros B E. unfold pick_next in E. pose proof (sb_count _ B). pose proof (sb_index _ B) as Hc.
  rewrite decide_False in E by lia. destruct (pick_ready s) as [i|] eqn:Ep; injection E as <- <-.
  - destruct (pick_ready_Some s i Hc Ep) as (He & Hi & Hmin). split_and!; try done.
    + by destruct B.
    + by left.
  - pose proof (fun j => pick_ready_None s j Hc Ep) as Hno. split_and!; try done.
    destruct (idle_ s) as [d|] eqn:Ed; [|done]. split; [by apply B|]. by right.
Qed.

(** ** Switching *)

(** From [s1], in which the old current thread [c] no longer runs, thread [r]
    is made current: the nearest eligible thread, else the idle thread, else
    [c] itself. *)
Record switched (c : nat) (s1 s' : Scheduler) (r : nat) : Prop := {
  sd_base : sched_base s';
  sd_current : current_ s' = Some r;
  sd_idle : idle_ s' = idle_ s1;
  sd_count : count_ s' = count_ s1;
  sd_state : forall j, state_of s' j = if decide (j = r) then Some Running else state_of s1 j;
  sd_choice :
    (eligible s1 r /\ current_index_ s' = r /\
       (forall j, eligible s1 j -> (distance s1 r <= distance s1 j)%nat)) \/
    ((forall j, ~ eligible s1 j) /\ current_index_ s' = current_index_ s1 /\
       (idle_ s1 = Some r \/ idle_ s1 = None /\ r = c));
}.

Lemma set_running_state i s j :
  (i < count_ s)%nat ->
  state_of (set_state i Running s) j = if decide (j = i) then Some Running else state_of s j.
Proof.
  intros Hi. rewrite state_of_set. destruct (decide (i = j)) as [->|Hne].
  - rewrite decide_True by done. destruct (state_of_is_Some s j Hi) as [st ->]. done.
  - by rewrite decide_False by congruence.
Qed.

Lemma base_set i st s : sched_base s -> sched_base (set_state i st s).
Proof. apply base_upd. by intros t. Qed.

Lemma base_current c s : sched_base s -> sched_base (s <| current_ := c |>).
Proof. by intros [? ? ? ? ?]. Qed.

Lemma dispatch_facts n s :
  (n < count_ s)%nat -> sched_base s ->
  sched_base (dispatch n s) /\ current_ (dispatch n s) = Some n /\ idle_ (dispatch n s) = idle_ s /\
  count_ (dispatch n s) = count_ s /\ current_index_ (dispatch n s) = current_index_ s /\
  (forall j, state_of (dispatch n s) j = if decide (j = n) then Some Running else state_of s j).
Proof.
  intros Hn B. unfold dispatch. split_and!; try done.
  - apply base_upd; [by intros t|].
    assert (B' : sched_base (set_state n Running (s <| current_ := Some n |>)))
      by (by apply base_set, base_current). by destruct B'.
  - unfold count_. simpl. by rewrite !length_alter.
  - intros j. rewrite state_of_upd. destruct (decide (n = j)) as [->|Hne].
    + rewrite decide_True by done. simpl. rewrite list_lookup_alter_eq.
      apply lookup_lt_is_Some in Hn as [t Et]. by rewrite Et.
    + transitivity (state_of (set_state n Running s) j); [done|]. by apply set_running_state.
Qed.

(** Resuming [c] when nothing else was chosen. *)
Lemma resume_switched c s1 s2 :
  sched_base s2 -> (c < count_ s1)%nat -> threads_ s2 = threads_ s1 -> idle_ s2 = idle_ s1 ->
  current_ s2 = Some c ->
  ((eligible s1 c /\ current_index_ s2 = c /\
       (forall j, eligible s1 j -> (distance s1 c <= distance s1 j)%nat)) \/
   ((forall j, ~ eligible s1 j) /\ current_index_ s2 = current_index_ s1 /\
       (idle_ s1 = Some c \/ idle_ s1 = None))) ->
  switched c s1 (set_state c Running s2) c.
Proof.
  intros B Hc Et Ei Ec Hch. assert (Ecount : count_ s2 = count_ s1) by (unfold count_; by rewrite Et).
  split; simpl; try done.
  - by apply base_set.
  - unfold count_ in *. simpl. by rewrite length_alter.
  - intros j. rewrite set_running_state by lia. unfold state_of. by rewrite Et.
  - destruct Hch as [?|(? & ? & [?|?])]; [by left|right; auto..].
Qed.

Lemma dispatch_switched c s1 s2 n :
  sched_base s2 -> (n < count_ s1)%nat -> threads_ s2 = threads_ s1 -> idle_ s2 = idle_ s1 ->
  ((eligible s1 n /\ current_index_ s2 = n /\
       (forall j, eligible s1 j -> (distance s1 n <= distance s1 j)%nat)) \/
   ((forall j, ~ eligible s1 j) /\ current_index_ s2 = current_index_ s1 /\ idle_ s1 = Some n)) ->
  switched c s1 (dispatch n s2) n.
Proof.
  intros B Hn Et Ei Hch. assert (Ecount : count_ s2 = count_ s1) by (unfold count_; by rewrite Et).
  destruct (dispatch_facts n s2) as (D1 & D2 & D3 & D4 & D5 & D6); [lia|done|].
  split; try done; try congruence.
  - intros j. rewrite D6. unfold state_of. by rewrite Et.
  - rewrite D5. destruct Hch as [?|(? & ? & ?)]; [by left|right; auto].
Qed.

(** Both switching routines, after the current thread has been put aside. *)
Lemma pick_switched c s1 s2 n :
  sched_base s1 -> current_ s1 = Some c -> (c < count_ s1)%nat -> pick_next s1 = (s2, n) ->
  match n with
  | Some n => if decide (n = c) then switched c s1 (set_state c Running s2) c
              else switched c s1 (dispatch n s2) n
  | None => switched c s1 (set_state c Running s2) c
  end.
Proof.
  intros B Ec Hc E. destruct (pick_next_spec s1 s2 n B E) as (B2 & Et & Ei & Ecur & Hn).
  rewrite Ec in Ecur. destruct n as [n|].
  - destruct Hn as [Hlt Hn]. destruct (decide (n = c)) as [->|].
    + apply resume_switched; try done. destruct Hn as [(? & -> & ?)|(? & -> & ?)]; [by left|right; auto].
    + apply dispatch_switched; try done. destruct Hn as [(? & -> & ?)|(? & -> & ?)]; [by left|right; auto].
  - apply resume_switched; try done. destruct Hn as (? & -> & ?). right; auto.
Qed.

Lemma switched_wf c s1 s' r :
  (forall i, state_of s1 i <> Some Running) ->
  (forall d, idle_ s1 = Some d -> state_of s1 d <> Some Dead) ->
  switched c s1 s' r -> sched_wf s'.
Proof.
  intros Hno Hal [D1 D2 D3 D4 D5 D6]. split.
  - done.
  - intros i. rewrite D5, D2. case_decide; [by subst|].
    split; [intros Hr; by destruct (Hno i)|congruence].
  - by rewrite D2.
  - intros d Hd. rewrite D5. case_decide; [done|]. apply Hal. by rewrite <- D3.
Qed.

Lemma wf_current s : sched_wf s -> exists c, current_ s = Some c /\ (c < count_ s)%nat /\ state_of s c = Some Running.
Proof.
  intros [B R C _]. destruct (current_ s) as [c|] eqn:E; [|done]. exists c.
  assert (Hc : state_of s c = Some Running) by (by apply R). split_and!; [done|by eapply state_of_lt|done].
Qed.

(** Putting the current thread aside leaves nobody running. *)
Lemma aside_not_running s c st :
  sched_wf s -> current_ s = Some c -> st <> Running ->
  forall i, state_of (set_state c st s) i <> Some Running.
Proof.
  intros W Ec Hst i. rewrite state_of_set. case_decide as Hd.
  - intros (? & _ & ?)%fmap_Some. congruence.
  - intros Hr. apply (sw_running _ W) in Hr. congruence.
Qed.

Lemma aside_alive s c st :
  sched_wf s -> st <> Dead -> forall d, idle_ s = Some d -> state_of (set_state c st s) d <> Some Dead.
Proof.
  intros W Hst d Hd. rewrite state_of_set. case_decide as Hc.
  - intros (? & _ & ?)%fmap_Some. congruence.
  - by apply W.
Qed.

Lemma switch_from_current_switched ps s c :
  sched_wf s -> current_ s = Some c ->
  exists r, switched c (set_state c ps s) (switch_from_current ps s).1 r.
Proof.
  intros W Ec. destruct (wf_current s W) as (c' & Ec' & Hlt & _).
  assert (c' = c) as -> by congruence. unfold switch_from_current. rewrite Ec.
  destruct (pick_next (set_state c ps s)) as [s2 n] eqn:E.
  pose proof (pick_switched c (set_state c ps s) s2 n) as Hp.
  destruct n as [n|]; [destruct (decide (n = c))|]; simpl; eexists; apply Hp; try done;
    try (apply base_set, W); unfold count_; simpl; by rewrite length_alter.
Qed.

Lemma switch_wf ps s : sched_wf s -> ps <> Running -> ps <> Dead -> sched_wf (switch_from_current ps s).1.
Proof.
  intros W H1 H2. destruct (wf_current s W) as (c & Ec & _).
  destruct (switch_from_current_switched ps s c W Ec) as [r Hr].
  eapply switched_wf; [by apply aside_not_running| |exact Hr]. intros d Hd. by apply aside_alive.
Qed.

(** The table as a timer interrupt leaves it before choosing. *)
Definition interrupted (now rsp : Z) (c : nat) (s : Scheduler) : Scheduler :=
  wake_sleepers now (set_state c Ready (upd c (fun t => t <| saved_rsp := rsp |>) s)).

Lemma state_of_wake now s i :
  state_of (wake_sleepers now s) i = (fun t => t_state (wake_step now t)) <$> threads_ s !! i.
Proof. unfold state_of, wake_sleepers. simpl. rewrite list_lookup_fmap. by destruct (threads_ s !! i). Qed.

Lemma wake_running now s i :
  (state_of (wake_sleepers now s) i = Some Running <-> state_of s i = Some Running) /\
  (state_of (wake_sleepers now s) i = Some Dead <-> state_of s i = Some Dead) /\
  (state_of s i = Some Ready -> state_of (wake_sleepers now s) i = Some Ready).
Proof.
  rewrite state_of_wake. unfold state_of, wake_step. destruct (threads_ s !! i) as [t|]; simpl; [|done].
  destruct (t_state t) eqn:E, (wake_tick t <=? now); simpl; rewrite ?E; split_and!; split || intros; done.
Qed.

Lemma upd_state_same i f s j :
  (forall t, t_state (f t) = t_state t) -> state_of (upd i f s) j = state_of s j.
Proof.
  intros Hf. rewrite state_of_upd. case_decide; [|done]. unfold state_of.
  destruct (threads_ s !! j); simpl; [by rewrite Hf|done].
Qed.

Lemma interrupt_switched now rsp s c :
  sched_wf s -> current_ s = Some c ->
  exists r, switched c (interrupted now rsp c s) (schedule_from_interrupt now rsp s).1 r.
Proof.
  intros W Ec. destruct (wf_current s W) as (c' & Ec' & Hlt & Hrun).
  assert (c' = c) as -> by congruence. unfold schedule_from_interrupt. rewrite Ec.
  set (s0 := upd c (fun t => t <| saved_rsp := rsp |>) s).
  rewrite bool_decide_eq_true_2 by (unfold s0; by rewrite upd_state_same).
  fold (interrupted now rsp c s). set (s1 := interrupted now rsp c s).
  assert (B1 : sched_base s1) by (apply base_wake, base_set, base_upd; [by intros t|apply W]).
  assert (C1 : count_ s1 = count_ s)
    by (unfold count_; simpl; by rewrite length_fmap, !length_alter).
  change (wake_sleepers now (set_state c Ready s0)) with s1.
  destruct (pick_next s1) as [s2 n] eqn:E.
  pose proof (pick_switched c s1 s2 n B1 Ec ltac:(lia) E) as Hp.
  destruct n as [n|]; [destruct (decide (n = c))|]; simpl; [eauto| |eauto].
  exists n. destruct Hp as [D1 D2 D3 D4 D5 D6]. split; try done. by destruct D1.
Qed.

Lemma interrupted_state now rsp c s i :
  sched_wf s -> current_ s = Some c ->
  state_of (interrupted now rsp c s) i <> Some Running /\
  (state_of (interrupted now rsp c s) i = Some Dead -> state_of s i = Some Dead) /\
  (i <> c -> state_of s i = Some Ready -> state_of (interrupted now rsp c s) i = Some Ready).
Proof.
  intros W Ec. unfold interrupted. set (s0 := upd c _ s).
  assert (E0 : forall j, state_of s0 j = state_of s j) by (intros; by apply upd_state_same).
  destruct (wake_running now (set_state c Ready s0) i) as (W1 & W2 & W3).
  rewrite W1, W2, !state_of_set in *. split_and!.
  - case_decide as Hd; [intros (? & _ & ?)%fmap_Some; congruence|].
    rewrite E0. intros Hr. apply (sw_running _ W) in Hr. congruence.
  - case_decide as Hd; [intros (? & _ & ?)%fmap_Some; congruence|]. by rewrite E0.
  - intros Hne Hr. apply W3. rewrite decide_False by congruence. by rewrite E0.
Qed.

Lemma interrupt_wf now rsp s : sched_wf s -> sched_wf (schedule_from_interrupt now rsp s).1.
Proof.
  intros W. destruct (wf_current s W) as (c & Ec & _).
  destruct (interrupt_switched now rsp s c W Ec) as [r Hr].
  eapply switched_wf; [..|exact Hr].
  - intros i. by apply interrupted_state.
  - intros d Hd Hdead. apply interrupted_state in Hdead; [|done|done]. by apply (sw_idle_alive _ W d).
Qed.

(** ** The other operations *)

Lemma wake_wf now s : sched_wf s -> sched_wf (wake_sleepers now s).
Proof.
  intros [B R C I]. split.
  - by apply base_wake.
  - intros i. destruct (wake_running now s i) as (-> & _ & _). apply R.
  - done.
  - intros d Hd. destruct (wake_running now s d) as (_ & -> & _). by apply I.
Qed.

Lemma sleep_wf tick s : sched_wf s -> sched_wf (sleep_current_until tick s).1.
Proof.
  intros W. unfold sleep_current_until. destruct (current_ s) as [c|] eqn:Ec; [|by apply switch_wf].
  case_bool_decide; [|by apply switch_wf]. apply switch_wf; [|done|done].
  assert (E : forall j, state_of (upd c (fun t => t <| wake_tick := tick |>) s) j = state_of s j)
    by (intros; by apply upd_state_same).
  destruct W as [B R C I]. split.
  - by apply base_upd; [intros t|].
  - intros i. rewrite E. apply R.
  - done.
  - intros d Hd. rewrite E. by apply I.
Qed.

Lemma yield_wf s : sched_wf s -> sched_wf (yield s).1.
Proof.
  intros W. unfold yield. destruct (current_ s) as [c|]; [|done].
  apply switch_wf; [|done|done]. destruct W as [[? ? ? ? ?] ? ? ?]. by split.
Qed.

(** A thread other than the idle one exits: it is dead, and the next runs. *)
Lemma exit_spec s s' sw c :
  sched_wf s -> current_ s = Some c -> idle_ s <> Some c -> exit_current_thread s = Some (s', sw) ->
  sched_wf s' /\ state_of s' c = Some Dead /\
  (forall i, state_of s i = Some Dead -> state_of s' i = Some Dead).
Proof.
  intros W Ec Hidle E. destruct (wf_current s W) as (c' & Ec' & Hlt & Hrun).
  assert (c' = c) as -> by congruence. unfold exit_current_thread in E.
  rewrite Ec, bool_decide_eq_true_2 in E by done. set (s1 := set_state c Dead s) in E.
  assert (B1 : sched_base s1) by apply base_set, W.
  assert (Hc1 : state_of s1 c = Some Dead).
  { unfold s1. rewrite state_of_set, decide_True by done. by rewrite Hrun. }
  assert (Hno : forall i, state_of s1 i <> Some Running) by (by apply aside_not_running).
  assert (Hs1 : forall i, i <> c -> state_of s1 i = state_of s i).
  { intros i Hi. unfold s1. by rewrite state_of_set, decide_False by congruence. }
  destruct (pick_next s1) as [s2 n] eqn:Ep.
  destruct (pick_next_spec s1 s2 n B1 Ep) as (B2 & Et & Ei & Ecur & Hn).
  change (current_ s1) with (current_ s) in Ecur. rewrite Ecur, Ec in E. simpl in E.
  assert (Hnx : exists m, (match n with Some m => Some m | None => idle_ s2 end) = Some m /\
    (m < count_ s2)%nat /\ state_of s1 m <> Some Dead /\ m <> c).
  { destruct n as [m|]; [|destruct Hn as (Hnone & _); rewrite Ei, Hnone in E; done].
    destruct Hn as [Hlt' Hn]. exists m. unfold count_ in *. rewrite Et. split_and!; [done|done|..].
    - destruct Hn as [([_ Hr] & _)|(Hd & _)]; [by rewrite Hr|].
      destruct (decide (m = c)) as [->|Hne]; [by destruct Hidle|]. rewrite Hs1 by done.
      by apply (sw_idle_alive _ W).
    - intros ->. destruct Hn as [([_ Hr] & _)|(Hd & _)]; [congruence|by destruct Hidle]. }
  destruct Hnx as (m & Em & Hm & Hmd & Hmc). rewrite Em in E. simpl in E. injection E as <- _.
  set (s3 := set_state m Running (s2 <| current_ := Some m |>)).
  assert (B3 : sched_base s3) by (by apply base_set, base_current).
  assert (S3 : forall j, state_of s3 j = if decide (j = m) then Some Running else state_of s1 j).
  { intros j. unfold s3. rewrite set_running_state by done. unfold state_of. simpl. by rewrite Et. }
  split_and!.
  - split.
    + by destruct B3.
    + intros i. change (state_of _ i) with (state_of s3 i). rewrite S3.
      case_decide; [by subst|]. split; [intros Hr; by destruct (Hno i)|intros [= ?]; congruence].
    + done.
    + intros d Hd. change (state_of _ d) with (state_of s3 d). simpl in Hd. rewrite Ei in Hd.
      change (idle_ s1) with (idle_ s) in Hd.
      rewrite S3. case_decide; [done|]. rewrite Hs1 by congruence. by apply (sw_idle_alive _ W).
  - change (state_of s3 c = Some Dead). by rewrite S3, decide_False.
  - intros i Hi. change (state_of s3 i = Some Dead). rewrite S3.
    destruct (decide (i = c)) as [->|Hne]; [by rewrite decide_False|].
    rewrite decide_False by (intros ->; rewrite Hs1 in Hmd; done). by rewrite Hs1.
Qed.

Lemma base_append s t :
  sched_base s -> (count_ s < 32)%nat -> t_id t = next_id_ s ->
  kernel_stack_base t = kKernelStackVirtBase + Z.of_nat (count_ s) * kKernelStackStride ->
  sched_base (s <| threads_ ::= fun ts => (ts ++ [t])%list |> <| next_id_ ::= inc64 |>).
Proof.
  intros [B1 B2 B3 B4 B5] Hlt Hid Hst. unfold count_ in *.
  split; unfold count_; simpl; rewrite ?length_app; simpl; try lia.
  - intros d Hd. specialize (B3 d Hd). lia.
  - rewrite B4. unfold inc64. rewrite w64_small by word_lia. lia.
  - intros i u Hu. apply lookup_app_Some in Hu as [Hu|[Hge Hu]]; [by apply B5|].
    apply list_lookup_singleton_Some in Hu as [Hi <-].
    replace i with (length (threads_ s)) by lia. split; [by rewrite Hid, B4|done].
Qed.

Lemma create_cases tr name entry arg aff s st s' st' r :
  sched_base s -> create_kernel_thread tr name entry arg aff s st = (s', st', r) ->
  (s' = s /\ r = None) \/
  (exists t, s' = s <| threads_ ::= fun ts => (ts ++ [t])%list |> <| next_id_ ::= inc64 |> /\
     r = Some (count_ s) /\ t_state t = Ready /\ sched_base s').
Proof.
  intros B E. unfold create_kernel_thread in E.
  destruct ((kMaxThreads <=? Z.of_nat (count_ s)) || (entry =? 0)) eqn:Hg; [left; by injection E as <- _ <-|].
  destruct (allocate_contiguous 4 _) as [pm phys]. destruct (phys =? 0); [left; by injection E as <- _ <-|].
  destruct (map_range _ _ _ _ _) as [st1 r1]. destruct (negb (ok r1)); [left; by injection E as <- _ <-|].
  right. injection E as <- _ <-. eexists. split_and!; [reflexivity|done|done|].
  bsimp. unfold kMaxThreads in *. pose proof (sb_count _ B).
  apply base_append; [done|lia|done|]. simpl.
  unfold kKernelStackVirtBase, kKernelStackStride, kKernelStackPages.
  rewrite (w64_small (_ * _)), w64_small by word_lia. done.
Qed.

Lemma state_of_append s t i :
  state_of (s <| threads_ ::= fun ts => (ts ++ [t])%list |> <| next_id_ ::= inc64 |>) i =
  if decide (i = count_ s) then Some (t_state t) else state_of s i.
Proof.
  unfold state_of, count_. simpl. case_decide as Hd.
  - subst i. by rewrite list_lookup_middle.
  - destruct (decide (i < length (threads_ s))%nat).
    + by rewrite lookup_app_l.
    + rewrite !lookup_ge_None_2; [done|lia|rewrite length_app; simpl; lia].
Qed.

Lemma create_wf tr name entry arg aff s st :
  sched_wf s -> sched_wf (create_kernel_thread tr name entry arg aff s st).1.1.
Proof.
  intros W. destruct (create_kernel_thread _ _ _ _ _ _ _) as [[s' st'] r] eqn:E. simpl.
  destruct (create_cases _ _ _ _ _ _ _ _ _ _ (sw_base _ W) E) as [[-> _]|(t & -> & _ & Ht & B)]; [done|].
  pose proof (wf_current s W) as (c & Ec & Hc & _). destruct W as [_ R C I]. split; [done|..|done|].
  - intros i. rewrite state_of_append. case_decide as Hd; [|apply R].
    rewrite Ht. simpl. rewrite Ec. split; [done|]. intros [= ->]. lia.
  - intros d Hd. rewrite state_of_append. case_decide; [by rewrite Ht|]. by apply I.
Qed.

(** ** The scheduler as a transition system *)

Inductive step : Scheduler -> Scheduler -> Prop :=
  | step_yield s : step s (yield s).1
  | step_block s : step s (block_current_thread s).1
  | step_sleep s tick : step s (sleep_current_until tick s).1
  | step_timer s now rsp : step s (schedule_from_interrupt now rsp s).1
  | step_wake s now : step s (wake_sleepers now s)
  | step_exit s s' sw : current_ s <> idle_ s -> exit_current_thread s = Some (s', sw) -> step s s'
  | step_create s st tr name entry arg aff :
      step s (create_kernel_thread tr name entry arg aff s st).1.1.

Lemma step_wf s s' : sched_wf s -> step s s' -> sched_wf s'.
Proof.
  intros W Hs. destruct Hs.
  - by apply yield_wf.
  - by apply switch_wf.
  - by apply sleep_wf.
  - by apply interrupt_wf.
  - by apply wake_wf.
  - destruct (wf_current s W) as (c & Ec & _). eapply exit_spec; [done|done| |done]. congruence.
  - by apply create_wf.
Qed.

Lemma switched_dead c s1 s' r i :
  switched c s1 s' r -> (forall d, idle_ s1 = Some d -> state_of s1 d <> Some Dead) ->
  state_of s1 c <> Some Dead -> state_of s1 i = Some Dead -> state_of s' i = Some Dead.
Proof.
  intros [D1 D2 D3 D4 D5 D6] Hal Hc Hi. rewrite D5. case_decide as Hd; [|done]. subst i. exfalso.
  destruct D6 as [([_ Hr] & _)|(_ & _ & [Hidle|[_ ->]])]; [congruence|by apply (Hal r)|done].
Qed.

Lemma switch_dead ps s i :
  sched_wf s -> ps <> Dead -> state_of s i = Some Dead ->
  state_of (switch_from_current ps s).1 i = Some Dead.
Proof.
  intros W Hps Hi. destruct (wf_current s W) as (c & Ec & _ & Hrun).
  destruct (switch_from_current_switched ps s c W Ec) as [r Hr].
  assert (Hne : c <> i) by congruence.
  eapply switched_dead; [exact Hr|intros d Hd; by apply aside_alive|..].
  - rewrite state_of_set, decide_True, Hrun by done. simpl. congruence.
  - by rewrite state_of_set, decide_False.
Qed.

Lemma step_dead s s' i :
  sched_wf s -> step s s' -> state_of s i = Some Dead -> state_of s' i = Some Dead.
Proof.
  intros W H Hi. destruct H.
  - unfold yield. destruct (current_ s) eqn:E; [|done]. apply switch_dead; [|done|done].
    destruct W as [[? ? ? ? ?] ? ? ?]. by split.
  - by apply switch_dead.
  - unfold sleep_current_until. destruct (current_ s) as [c|] eqn:Ec; [|by apply switch_dead].
    case_bool_decide; [|by apply switch_dead].
    assert (E : forall j, state_of (upd c (fun t => t <| wake_tick := tick |>) s) j = state_of s j)
      by (intros; by apply upd_state_same).
    apply switch_dead; [|done|by rewrite E]. destruct W as [B R C I]. split; [|..|done|].
    + by apply base_upd; [intros t|].
    + intros j. rewrite E. apply R.
    + intros d Hd. rewrite E. by apply I.
  - destruct (wf_current s W) as (c & Ec & _ & Hrun).
    destruct (interrupt_switched now rsp s c W Ec) as [r Hr].
    assert (Hint : forall j, state_of s j = Some Dead -> state_of (interrupted now rsp c s) j = Some Dead).
    { intros j Hj. unfold interrupted.
      destruct (wake_running now (set_state c Ready (upd c (fun t => t <| saved_rsp := rsp |>) s)) j) as (_ & -> & _).
      rewrite state_of_set, decide_False by congruence. by rewrite upd_state_same. }
    eapply switched_dead; [exact Hr|..|by apply Hint].
    + intros d Hd Hdead. apply interrupted_state in Hdead; [|done|done]. by apply (sw_idle_alive _ W d).
    + intros Hdead. apply interrupted_state in Hdead; [congruence|done|done].
  - by apply wake_running.
  - destruct (wf_current s W) as (c & Ec & _). eapply exit_spec; [done|done| |done|done]. congruence.
  - destruct (create_kernel_thread _ _ _ _ _ _ _) as [[s' st'] r] eqn:E. simpl.
    destruct (create_cases _ _ _ _ _ _ _ _ _ _ (sw_base _ W) E) as [[-> _]|(t & -> & _)]; [done|].
    rewrite state_of_append. case_decide; [|done]. subst. apply state_of_lt in Hi. lia.
Qed.

(** Boot leaves a well-formed table with the bootstrap thread running. *)
Lemma sched_initialize_wf tr ie s st : idle_ s = None -> sched_wf (sched_initialize tr ie s st).1.
Proof.
  intros Hidle. unfold sched_initialize.
  match goal with |- context [create_kernel_thread _ _ _ _ _ ?x _] => set (s0 := x) end.
  assert (W0 : sched_wf s0).
  { assert (Hlk : forall i t, threads_ s0 !! i = Some t -> i = O /\ t_id t = 1 /\ t_state t = Running).
    { intros i t [-> <-]%list_lookup_singleton_Some. done. }
    split; [split|..]; try done; unfold count_; simpl; try lia; try congruence.
    - intros i t Hit. destruct (Hlk i t Hit) as (-> & -> & _). done.
    - intros i. unfold state_of. split.
      + intros (t & Et & _)%fmap_Some. by destruct (Hlk i t Et) as (-> & _).
      + by intros [= <-]. }
  destruct (create_kernel_thread tr "idle" ie 0 1 s0 st) as [[s1 st1] idle] eqn:E.
  pose proof (create_wf tr "idle" ie 0 1 s0 st W0) as W1. rewrite E in W1. simpl in W1.
  destruct (create_cases _ _ _ _ _ _ _ _ _ _ (sw_base _ W0) E) as [[-> ->]|(t & Es & -> & Ht & B)].
  - destruct W1 as [[? ? ? ? ?] ? ? ?]. by split; [split|..].
  - assert (S1 : forall i, state_of s1 i = if decide (i = 1%nat) then Some Ready else state_of s0 i).
    { intros i. rewrite Es, state_of_append, Ht. done. }
    set (s2 := s1 <| idle_ := Some 1%nat |>).
    assert (S2 : forall i, state_of (set_state 1 Ready s2) i = state_of s1 i).
    { intros i. rewrite state_of_set. change (state_of s2 i) with (state_of s1 i).
      case_decide; [|done]. subst i. by rewrite S1. }
    assert (C1 : count_ s1 = 2%nat) by (by rewrite Es).
    change (count_ s0) with 1%nat. cbn [fst]. split.
    + apply base_set. destruct B as [B1 B2 B3 B4 B5]. split; try done.
      intros d [= <-]. change (1 < count_ s1)%nat. lia.
    + intros i. rewrite S2. apply (sw_running _ W1).
    + apply (sw_current _ W1).
    + intros d [= <-]. by rewrite S2, S1.
Qed.

(** C2. In every state the scheduler can reach after boot, through any
    sequence of yields, blocks, sleeps, timer interrupts, wake-ups, exits of
    threads other than idle and thread creations: exactly the current thread is
    running, the idle thread is not dead, identifiers are distinct, each stack
    has its own place, and a thread that has died stays dead. *)
Theorem reachable_states_wf tr ie s0 st s1 s2 :
  idle_ s0 = None ->
  rtc step (sched_initialize tr ie s0 st).1 s1 -> rtc step s1 s2 ->
  sched_wf s2 /\ (forall i, state_of s1 i = Some Dead -> state_of s2 i = Some Dead).
Proof.
  intros Hi R1 R2.
  assert (W1 : sched_wf s1).
  { pose proof (sched_initialize_wf tr ie s0 st Hi) as W.
    revert W R1. generalize (sched_initialize tr ie s0 st).1. intros s W R1.
    induction R1; eauto using step_wf. }
  clear R1. induction R2 as [s|s s' s'' Hs R2 IH]; [done|].
  destruct IH as [W2 Hd]; [by eapply step_wf|]. split; [done|].
  intros i Hdead. apply Hd. by apply (step_dead s s').
Qed.

(** A sequence of timer interrupts, each with its tick and stack pointer. *)
Definition interrupts (evs : list (Z * Z)) (s : Scheduler) : Scheduler :=
  foldl (fun s e => (schedule_from_interrupt e.1 e.2 s).1) s evs.

(** One interrupt runs an eligible thread or brings it nearer. *)
Lemma interrupt_progress now rsp s i :
  sched_wf s -> eligible s i ->
  let s' := (schedule_from_interrupt now rsp s).1 in
  sched_wf s' /\ (current_ s' = Some i \/ eligible s' i /\ (distance s' i < distance s i)%nat).
Proof.
  intros W [Hid Hr] s'. split; [by apply interrupt_wf|].
  destruct (wf_current s W) as (c & Ec & _ & Hrun).
  destruct (interrupt_switched now rsp s c W Ec) as [r [D1 D2 D3 D4 D5 D6]]. fold s' in D1, D2, D3, D4, D5, D6.
  set (s1 := interrupted now rsp c s) in *.
  assert (He : eligible s1 i) by (split; [done|]; apply interrupted_state; congruence).
  assert (C1 : count_ s1 = count_ s) by (unfold count_; simpl; by rewrite length_fmap, !length_alter).
  assert (E1 : distance s1 i = distance s i) by (unfold distance; by rewrite C1).
  destruct D6 as [(Her & Hix & Hmin)|(Hno & _)]; [|by destruct (Hno i)].
  destruct (decide (r = i)) as [->|Hne]; [by left|]. right. split.
  - split; [by rewrite D3|]. rewrite D5, decide_False by done. apply He.
  - pose proof (sb_index _ (sw_base _ W)) as Hci.
    pose proof (state_of_lt _ _ _ (proj2 He)). pose proof (state_of_lt _ _ _ (proj2 Her)).
    rewrite <- E1. replace (distance s' i) with (distance (s1 <| current_index_ := r |>) i).
    + apply ring_after; try done; [by rewrite C1|by apply Hmin].
    + unfold distance. rewrite D4, Hix. done.
Qed.

Lemma eligible_runs n : forall s i evs,
  sched_wf s -> eligible s i -> (distance s i < n)%nat -> (n <= length evs)%nat ->
  exists k, (k <= n)%nat /\ current_ (interrupts (take k evs) s) = Some i.
Proof.
  induction n as [|n IH]; intros s i evs W He Hd Hl; [lia|].
  destruct evs as [|[now rsp] evs]; simpl in Hl; [lia|].
  destruct (interrupt_progress now rsp s i W He) as [W' [Hc|[He' Hd']]].
  - exists 1%nat. split; [lia|done].
  - destruct (IH _ i evs W' He' ltac:(lia) ltac:(lia)) as (k & Hk & Ek).
    exists (S k). split; [lia|]. done.
Qed.

(** C29. No starvation: a ready thread runs within one turn of the table,
    whatever the other threads are, provided the timer keeps ticking. *)
Theorem ready_thread_runs s i evs :
  sched_wf s -> idle_ s <> Some i -> state_of s i = Some Ready -> (count_ s <= length evs)%nat ->
  exists k, (k <= count_ s)%nat /\ current_ (interrupts (take k evs) s) = Some i.
Proof.
  intros W Hid Hr Hl. apply eligible_runs; try done.
  apply ring_reaches; [apply W|by eapply state_of_lt].
Qed.

(** A sleeping thread is left asleep until its tick and runs after it: at
    an interrupt before the deadline it stays asleep with the same deadline,
    and from an interrupt at or after the deadline it runs within one more turn
    of the table. *)
Theorem sleeper_runs_after_deadline s i t now rsp evs :
  sched_wf s -> idle_ s <> Some i -> threads_ s !! i = Some t -> t_state t = Sleeping ->
  (count_ s <= length evs)%nat ->
  let s' := (schedule_from_interrupt now rsp s).1 in
  if wake_tick t <=? now
  then exists k, (k <= count_ s)%nat /\ current_ (interrupts (take k evs) s') = Some i
  else state_of s' i = Some Sleeping.
Proof.
  intros W Hid Et Hs Hl s'. destruct (wf_current s W) as (c & Ec & _ & Hrun).
  assert (Hst : state_of s i = Some Sleeping) by (unfold state_of; rewrite Et; simpl; by rewrite Hs).
  assert (Hne : i <> c) by congruence.
  destruct (interrupt_switched now rsp s c W Ec) as [r [D1 D2 D3 D4 D5 D6]]. fold s' in D1, D2, D3, D4, D5, D6.
  set (s1 := interrupted now rsp c s) in *.
  assert (C1 : count_ s1 = count_ s) by (unfold count_; simpl; by rewrite length_fmap, !length_alter).
  assert (S1 : state_of s1 i = Some (if wake_tick t <=? now then Ready else Sleeping)).
  { unfold s1, interrupted. rewrite state_of_wake. unfold set_state, upd. simpl.
    rewrite !list_lookup_alter_ne, Et by done. simpl. unfold wake_step.
    rewrite (bool_decide_eq_true_2 _ Hs). simpl. destruct (wake_tick t <=? now); simpl; congruence. }
  destruct (wake_tick t <=? now).
  - destruct (decide (r = i)) as [->|Hri]; [by exists O; split; [lia|]|].
    rewrite <- C1, <- D4. rewrite <- C1, <- D4 in Hl. apply eligible_runs; try done.
    + by apply interrupt_wf.
    + split; [by rewrite D3|]. by rewrite D5, decide_False.
    + apply ring_reaches; [apply D1|]. rewrite D4. by eapply state_of_lt.
  - rewrite D5. case_decide as Hd; [|done]. subst r. exfalso.
    destruct D6 as [([_ Hr] & _)|(_ & _ & [Hx|[_ ?]])]; [congruence|by apply Hid|done].
Qed.

(** ** Concrete runs *)

Definition sched_zero : Scheduler := mkScheduler [] 1 0 0 0 None None O.

(** Boot on the demo machine, then one worker thread. *)
Definition demo_boot_sched : Scheduler * vmst PhysicalMemoryManager :=
  sched_initialize 0x1000 0x2000 sched_zero demo_vm.
Definition demo_sched : Scheduler :=
  (create_kernel_thread 0x1000 "worker" 0x3000 7 1 demo_boot_sched.1 demo_boot_sched.2).1.1.

Lemma demo_sched_wf : sched_wf demo_sched.
Proof. apply create_wf, sched_initialize_wf. done. Qed.

Lemma reachable_states_wf_witness :
  sched_wf (yield (sched_initialize 0x1000 0x2000 sched_zero demo_vm).1).1.
Proof.
  apply (reachable_states_wf 0x1000 0x2000 sched_zero demo_vm
    (sched_initialize 0x1000 0x2000 sched_zero demo_vm).1).
  - reflexivity.
  - apply rtc_refl.
  - apply rtc_once, step_yield.
Defined.

Definition demo_ticks : list (Z * Z) := [(1, 100); (2, 100); (3, 100)].

Lemma ready_thread_runs_witness :
  exists k, (k <= 3)%nat /\ current_ (interrupts (take k demo_ticks) demo_sched) = Some 2%nat.
Proof.
  apply (ready_thread_runs demo_sched 2 demo_ticks demo_sched_wf); vm_compute; congruence || lia.
Defined.

(** The worker asleep until tick 5: preempt to it, then let it sleep. *)
Definition demo_asleep : Scheduler :=
  (sleep_current_until 5 (schedule_from_interrupt 1 100 demo_sched).1).1.

Lemma demo_asleep_wf : sched_wf demo_asleep.
Proof. apply sleep_wf, interrupt_wf, demo_sched_wf. Qed.

Definition demo_sleeper : Thread :=
  default (mkThread 0 Ready 0 0 0 0 0 "none" 0 0 0) (threads_ demo_asleep !! 2%nat).

Lemma sleeper_runs_after_deadline_witness :
  exists k, (k <= count_ demo_asleep)%nat /\
    current_ (interrupts (take k demo_ticks) (schedule_from_interrupt 9 100 demo_asleep).1) = Some 2%nat.
Proof.
  pose proof (sleeper_runs_after_deadline demo_asleep 2 demo_sleeper 9 100 demo_ticks demo_asleep_wf) as Hx.
  assert (Ew : (wake_tick demo_sleeper <=? 9) = true) by (vm_compute; reflexivity).
  cbv zeta in Hx. rewrite Ew in Hx. apply Hx.
  - vm_compute. discriminate.
  - vm_compute. reflexivity.
  - vm_compute. reflexivity.
  - vm_compute. lia.
Defined.

(** The idle thread is not protected by [exit_current_thread]: if it ran that
    routine while another thread is ready, two threads would be running. *)
Lemma idle_exit_two_running :
  let idle_current := demo_sched <| current_ := Some 1%nat |>
                      <| threads_ := threads_ (set_state 0 Ready (set_state 1 Running demo_sched)) |> in
  match exit_current_thread idle_current with
  | Some (s', _) => state_of s' 1 = Some Running /\ state_of s' 2 = Some Running
  | None => False
  end.
Proof. vm_compute. by split. Qed.
