(* ===== verification/Path.v ===== *)
(** * Paths (kernel/src/userspace/userspace.cpp, kernel/src/fs/vfs.cpp)

    The normalisation of absolute paths into fixed buffers, resolution against
    a process's current directory, and the path predicates of the file system.
    A C string is the list of its characters before the terminator; a buffer of
    [N] characters is its string, the rest being zero.  The specification is a
    stack of components: the theorems show that normalisation computes it, that
    its results are canonical and fixed, and how parents and children relate. *)

From S2P Require Import Prelude.
From stdpp Require Import strings.
From Stdlib Require Import Ascii.
#[local] Open Scope Z_scope.

Definition cstr : Type := list ascii.
Definition slash : ascii := "/"%char.
Definition dot : ascii := "."%char.
Definition len (s : cstr) : Z := Z.of_nat (length s).

(** ** Normalisation *)

(** [while (path[cursor] == '/') ++cursor] *)
Fixpoint skip_slashes (p : cstr) : cstr :=
  match p with
  | c :: p' => if decide (c = slash) then skip_slashes p' else p
  | [] => []
  end.

(** [while (path[cursor] != 0 && path[cursor] != '/') ++cursor], giving the
    component passed over and what follows. *)
Fixpoint take_component (p : cstr) : cstr * cstr :=
  match p with
  | c :: p' => if decide (c = slash) then ([], p)
               else let '(name, rest) := take_component p' in (c :: name, rest)
  | [] => ([], [])
  end.

(** Lines 100-103 on the output read backwards: drop the last name, then the
    slash before it, never the leading slash. *)
Fixpoint drop_name (r : cstr) : cstr :=
  match r with
  | c :: ((_ :: _) as r') => if decide (c = slash) then r else drop_name r'
  | _ => r
  end.
Definition drop_slash (r : cstr) : cstr :=
  match r with
  | c :: ((_ :: _) as r') => if decide (c = slash) then r' else r
  | _ => r
  end.
Definition pop_component (out : cstr) : cstr := reverse (drop_slash (drop_name (reverse out))).

(** The main loop, over [out] and the unread part of the path; the outer option
    is the fuel, the inner one the overflow of a buffer of [N] characters. *)
Fixpoint normalize_loop (fuel : nat) (N : Z) (out rest : cstr) : option (option cstr) :=
  match fuel with
  | O => None
  | S fuel =>
    match rest with
    | [] => Some (Some out)
    | _ =>
      match skip_slashes rest with
      | [] => Some (Some out)
      | rest =>
        let '(name, rest) := take_component rest in
        if decide (name = [dot]) then normalize_loop fuel N out rest
        else if decide (name = [dot; dot]) then normalize_loop fuel N (pop_component out) rest
        else
          if negb (len out =? 1) && (N <=? len out + 1) then Some None else
          let out := if negb (len out =? 1) then out ++ [slash] else out in
          if N <=? len out + len name then Some None
          else normalize_loop fuel N (out ++ name) rest
      end
    end
  end.

Definition normalize_absolute_path (N : Z) (path : cstr) : option cstr :=
  match path with
  | c :: rest =>
    if decide (c = slash) then
      if N <? 2 then None else default None (normalize_loop (S (length path)) N [slash] rest)
    else None
  | [] => None
  end.

(** The file system has its own copy of the routine, for 64 characters. *)
Definition normalize_path (path : cstr) : option cstr := normalize_absolute_path 64 path.

(** ** Resolution *)

(** [string_length_bounded(text, max)] *)
Definition string_length_bounded (text : cstr) (max : Z) : Z :=
  if len text <=? max then len text else max + 1.

Definition copy_path_bounded (N : Z) (path : cstr) : option cstr :=
  match path with
  | c :: _ => if decide (c = slash) then (if len path + 1 <=? N then Some path else None) else None
  | [] => None
  end.

Definition string_equal (a b : cstr) : bool := bool_decide (a = b).

(** Copy [path] after [combined], a character at a time (lines 154-157). *)
Fixpoint append_bounded (N : Z) (combined path : cstr) : option cstr :=
  match path with
  | [] => Some combined
  | c :: path => if N <=? len combined + 1 then None else append_bounded N (combined ++ [c]) path
  end.

Definition resolve_process_path (cwd path : cstr) : option cstr :=
  match path with
  | [] => None
  | c :: _ =>
    if decide (c = slash) then normalize_absolute_path 64 path else
    let cwd_len := string_length_bounded cwd 63 in
    let path_len := string_length_bounded path 63 in
    if (cwd_len =? 0) || (64 <=? cwd_len) || (path_len =? 0) || (64 <=? path_len) then None else
    if negb (cwd_len =? 1) || negb (bool_decide (head cwd = Some slash)) then
      if 64 <=? cwd_len + 1 then None else
      combined ← append_bounded 64 (cwd ++ [slash]) path;
      normalize_absolute_path 64 combined
    else
      combined ← append_bounded 64 cwd path;
      normalize_absolute_path 64 combined
  end.

(** ** Predicates of the file system *)

Definition path_equal (a b : cstr) : bool := bool_decide (a = b).

(** The comparison loop of [path_has_prefix_child]: [directory] read off the
    front of [path]; a [path] that ends first differs at its terminator. *)
Fixpoint strip_prefix (path directory : cstr) {struct directory} : option cstr :=
  match directory with
  | [] => Some path
  | d :: directory =>
    match path with
    | c :: path => if decide (c = d) then strip_prefix path directory else None
    | [] => None
    end
  end.

Definition path_has_prefix_child (path directory : cstr) : bool :=
  if path_equal path directory then false else
  match strip_prefix path directory with
  | None => false
  | Some rest => bool_decide (last directory = Some slash) || bool_decide (head rest = Some slash)
  end.

Definition path_is_direct_child (path directory : cstr) : bool :=
  if negb (path_has_prefix_child path directory) then false else
  let rest := drop (length directory) path in
  let rest := if 1 <? len directory
              then match rest with c :: r => if decide (c = slash) then Some r else None | [] => None end
              else Some rest in
  match rest with
  | None => false
  | Some [] => false
  | Some rest => negb (bool_decide (slash ∈ rest))
  end.

(** The scan of [basename_of]: the suffix after the last slash that is not the
    last character. *)
Fixpoint basename_from (name path : cstr) : cstr :=
  match path with
  | [] => name
  | c :: rest => basename_from (if decide (c = slash /\ rest <> []) then rest else name) rest
  end.
Definition basename_of (path : cstr) : cstr := basename_from path path.

Definition copy_path (path : cstr) : cstr := take 63 path.
Definition copy_text (N : nat) (text : cstr) : cstr := take (N - 1) text.

Definition copy_path_checked (path : cstr) : option cstr :=
  out ← normalize_path path;
  if decide (length out <= 1)%nat then None else Some out.

(** The position of the last slash (lines 3000-3001), as what precedes it. *)
Fixpoint before_last_slash (r : cstr) : cstr :=
  match r with
  | [] => []
  | c :: r => if decide (c = slash) then r else before_last_slash r
  end.

Definition parent_path (path : cstr) : option cstr :=
  normalized ← normalize_path path;
  if decide (length normalized <= 1)%nat then None else
  let up := reverse (before_last_slash (reverse normalized)) in
  match up with
  | [] => Some [slash]
  | _ => Some up
  end.

(** ** Specification: paths as stacks of components *)

Fixpoint split_slash (p : cstr) : list cstr :=
  match p with
  | [] => [[]]
  | c :: p =>
    if decide (c = slash) then [] :: split_slash p
    else match split_slash p with h :: t => (c :: h) :: t | [] => [[c]] end
  end.

Definition components (p : cstr) : list cstr := filter (fun c => c <> []) (split_slash p).

(** The path of a stack of components, the innermost first. *)
Definition render (st : list cstr) : cstr :=
  match st with
  | [] => [slash]
  | _ => concat (cons slash <$> reverse st)
  end.

#[global] Arguments render : simpl never.

(** One component: [.] is ignored, [..] leaves a directory (staying at the
    root), anything else enters one if the result fits. *)
Definition enter (N : Z) (st : option (list cstr)) (name : cstr) : option (list cstr) :=
  st ← st;
  if decide (name = [dot]) then Some st
  else if decide (name = [dot; dot]) then Some (tail st)
  else if len (render (name :: st)) <? N then Some (name :: st) else None.

Definition walk_components (N : Z) (names : list cstr) : option (list cstr) :=
  foldl (enter N) (Some []) names.

(** A component of a canonical path. *)
Definition plain (c : cstr) : Prop := c <> [] /\ slash ∉ c.
Definition canonical_component (c : cstr) : Prop := plain c /\ c <> [dot] /\ c <> [dot; dot].
#[export] Instance canonical_component_dec c : Decision (canonical_component c).
Proof. unfold canonical_component, plain. apply _. Defined.

(** ** Splitting *)

Lemma split_slash_cons p : exists h t, split_slash p = h :: t.
Proof.
  induction p as [|c p (h & t & IH)]; simpl; [by eexists _, _|].
  case_decide; [by eexists _, _|]. rewrite IH. by eexists _, _.
Qed.

Lemma components_nil : components [] = [].
Proof. done. Qed.

Lemma components_slash p : components (slash :: p) = components p.
Proof. unfold components. simpl. rewrite filter_cons_False; [done|]. tauto. Qed.

Lemma components_skip p : components (skip_slashes p) = components p.
Proof.
  induction p as [|c p IH]; [done|]. simpl. case_decide as Hc; [|done].
  subst c. by rewrite components_slash.
Qed.

Lemma skip_slashes_head p c r : skip_slashes p = c :: r -> c <> slash.
Proof.
  induction p as [|d p IH]; [done|]. simpl. case_decide; [done|]. by intros [= -> ->].
Qed.

Lemma skip_slashes_length p : (length (skip_slashes p) <= length p)%nat.
Proof. induction p as [|c p IH]; simpl; [lia|]. case_decide; simpl; lia. Qed.

Lemma take_component_spec p name rest :
  take_component p = (name, rest) ->
  p = name ++ rest /\ (slash ∉ name) /\ (rest = [] \/ exists r, rest = slash :: r).
Proof.
  revert name rest. induction p as [|c p IH]; intros name rest; simpl.
  - intros [= <- <-]. split_and!; [done|apply not_elem_of_nil|by left].
  - case_decide as Hc.
    + subst c. intros [= <- <-]. split_and!; [done|apply not_elem_of_nil|right; by eexists].
    + destruct (take_component p) as [n r]. intros [= <- <-].
      destruct (IH n r eq_refl) as (-> & Hn & Hr). split_and!; [done| |done].
      rewrite elem_of_cons. intros [?|?]; [by subst|done].
Qed.

Lemma split_slash_name name rest :
  slash ∉ name -> split_slash (name ++ rest) =
  match split_slash rest with h :: t => (name ++ h) :: t | [] => [name] end.
Proof.
  induction name as [|c name IH]; intros Hn; simpl.
  - by destruct (split_slash_cons rest) as (h & t & ->).
  - rewrite elem_of_cons in Hn. rewrite decide_False by (intros ->; tauto).
    rewrite IH by tauto. by destruct (split_slash_cons rest) as (h & t & ->).
Qed.

(** A name followed by the end of the path or by a slash is a component. *)
Lemma components_name name rest :
  plain name -> (rest = [] \/ exists r, rest = slash :: r) ->
  components (name ++ rest) = name :: components rest.
Proof.
  intros [Hne Hns] Hr. unfold components. rewrite split_slash_name by done.
  destruct Hr as [->|(r & ->)]; simpl.
  - rewrite app_nil_r, filter_cons_True by done. done.
  - rewrite app_nil_r, filter_cons_True by done. rewrite filter_cons_False; [done|]. tauto.
Qed.

(** ** Rendering *)

Lemma render_cons c st :
  render (c :: st) = (if decide (st = []) then [] else render st) ++ slash :: c.
Proof.
  unfold render. case_decide as Hs; [subst; simpl; by rewrite app_nil_r|].
  rewrite reverse_cons, fmap_app, concat_app. simpl. rewrite app_nil_r. by destruct st.
Qed.

Lemma render_ne_nil st : exists r, render st = slash :: r.
Proof.
  destruct (decide (st = [])) as [->|Hne]; [by eexists|].
  induction st as [|c st IH]; [done|]. rewrite render_cons. case_decide; [by eexists|].
  destruct (IH H) as (r & ->). by eexists.
Qed.

Lemma len_render_one st : Forall plain st -> (len (render st) =? 1) = bool_decide (st = []).
Proof.
  intros Hst. case_bool_decide as Hs; [by subst|]. apply Z.eqb_neq.
  destruct st as [|c st]; [done|]. apply Forall_cons in Hst as [[Hc _] _].
  rewrite render_cons. unfold len. rewrite length_app. simpl. destruct c; simpl; [done|lia].
Qed.

(** The text written for a component that is entered. *)
Lemma render_push c st :
  Forall plain st ->
  render (c :: st) = (if negb (len (render st) =? 1) then render st ++ [slash] else render st) ++ c.
Proof.
  intros Hst. rewrite len_render_one, render_cons by done.
  case_bool_decide as Hs; [by subst|]. rewrite decide_False by done. simpl. by rewrite <- app_assoc.
Qed.

Lemma drop_name_spec n r : slash ∉ n -> r <> [] -> head r = Some slash -> drop_name (n ++ r) = drop_name r.
Proof.
  intros Hn Hr Hh. induction n as [|c n IH]; [done|]. rewrite elem_of_cons in Hn. simpl.
  destruct (n ++ r) as [|d l] eqn:E; [by apply app_eq_nil in E as [_ ->]|].
  rewrite decide_False by (intros ->; tauto). rewrite <- IH by tauto. done.
Qed.

Lemma drop_name_slash r : drop_name (slash :: r) = slash :: r.
Proof. by destruct r. Qed.

Lemma pop_render st : Forall plain st -> pop_component (render st) = render (tail st).
Proof.
  intros Hst. destruct st as [|c st]; [done|]. apply Forall_cons in Hst as [[Hc Hs] Hst].
  unfold pop_component. rewrite render_cons. simpl tail.
  rewrite reverse_app, reverse_cons, <- app_assoc.
  rewrite drop_name_spec; [|by rewrite elem_of_reverse|done|done]. simpl app. rewrite drop_name_slash.
  case_decide as Hd; [by subst|]. destruct (render_ne_nil st) as (r & Er).
  destruct (reverse (render st)) as [|x l] eqn:E.
  - apply (f_equal length) in E. rewrite length_reverse, Er in E. done.
  - simpl. by rewrite <- E, reverse_involutive.
Qed.

(** ** The loop computes the specification *)

Lemma enter_plain N st name st' :
  Forall plain st -> plain name -> enter N (Some st) name = Some st' -> Forall plain st'.
Proof.
  intros Hst Hn. unfold enter. simpl. repeat case_decide.
  - by intros [= <-].
  - intros [= <-]. destruct st; [done|]. by apply Forall_cons in Hst as [_ ?].
  - destruct (_ <? _); [|done]. intros [= <-]. by constructor.
Qed.

(** Entering a component, as the code does it. *)
Lemma enter_code N st name :
  Forall plain st -> plain name -> name <> [dot] -> name <> [dot; dot] ->
  (if negb (len (render st) =? 1) && (N <=? len (render st) + 1) then None else
   let out := if negb (len (render st) =? 1) then render st ++ [slash] else render st in
   if N <=? len out + len name then None else Some (out ++ name)) =
  render <$> enter N (Some st) name.
Proof.
  intros Hst Hn H1 H2. unfold enter. simpl. rewrite !decide_False by done.
  pose proof (render_push name st Hst) as Hp. cbv zeta.
  set (out := if negb (len (render st) =? 1) then render st ++ [slash] else render st) in *.
  assert (El : len (render (name :: st)) = len out + len name)
    by (rewrite Hp; unfold len; rewrite length_app; lia).
  assert (Hpos : 0 < len name) by (destruct Hn as [Hn _]; unfold len; destruct name; simpl; [done|lia]).
  assert (Hlo : negb (len (render st) =? 1) = true -> len out = len (render st) + 1).
  { intros Hx. unfold out. rewrite Hx. unfold len. rewrite length_app. simpl. lia. }
  rewrite El. destruct (negb (len (render st) =? 1)) eqn:E1; cbn [andb].
  - specialize (Hlo eq_refl). destruct (Z.leb_spec N (len (render st) + 1)).
    + rewrite (proj2 (Z.ltb_ge _ _)) by lia. done.
    + destruct (Z.leb_spec N (len out + len name)), (Z.ltb_spec (len out + len name) N); try lia; [done|].
      simpl. by rewrite Hp.
  - destruct (Z.leb_spec N (len out + len name)), (Z.ltb_spec (len out + len name) N); try lia; [done|].
    simpl. by rewrite Hp.
Qed.

Lemma foldl_enter_None N names : foldl (enter N) None names = None.
Proof. by induction names. Qed.

Lemma normalize_loop_spec N fuel st rest :
  (length rest < fuel)%nat -> Forall plain st ->
  normalize_loop fuel N (render st) rest =
  Some (render <$> foldl (enter N) (Some st) (components rest)).
Proof.
  revert st rest. induction fuel as [|fuel IH]; intros st rest Hf Hst; [lia|].
  cbn [normalize_loop]. destruct rest as [|c0 rest0]; [done|]. set (rest := c0 :: rest0) in *.
  rewrite <- (components_skip rest). pose proof (skip_slashes_length rest) as Hlen.
  destruct (skip_slashes rest) as [|c r] eqn:Es; [done|].
  apply skip_slashes_head in Es as Hc.
  destruct (take_component (c :: r)) as [name rest'] eqn:Et.
  pose proof (take_component_spec _ _ _ Et) as (E & Hns & Hr).
  assert (Hne : name <> []).
  { intros ->. simpl in E. destruct Hr as [->|(r' & ->)]; congruence. }
  assert (Hl : (length rest' < fuel)%nat).
  { rewrite E, length_app in Hlen. destruct name; [done|]. unfold rest in Hf. simpl in Hlen, Hf. lia. }
  rewrite E, components_name by done. cbn [foldl].
  destruct (decide (name = [dot])) as [->|H1].
  { rewrite IH by done. done. }
  destruct (decide (name = [dot; dot])) as [->|H2].
  { rewrite pop_render, IH; [done|done| |done]. destruct st; [done|]. by apply Forall_cons in Hst as [_ ?]. }
  pose proof (enter_code N st name Hst (conj Hne Hns) H1 H2) as Hcode. cbv zeta in Hcode |- *.
  destruct (negb _ && _); [|destruct (N <=? _)].
  - destruct (enter N (Some st) name); [done|]. by rewrite foldl_enter_None.
  - destruct (enter N (Some st) name); [done|]. by rewrite foldl_enter_None.
  - destruct (enter N (Some st) name) as [st'|] eqn:Ee; [|done]. injection Hcode as ->.
    apply IH; [done|]. eapply enter_plain; [exact Hst|by split|exact Ee].
Qed.

(** C24. Normalising an absolute path into a buffer of [N] characters walks its
    components from the root: [.] and empty components are skipped, [..] goes
    up (and stays at the root), and the routine fails exactly when a directory
    entered on the way does not fit the buffer with its terminator. *)
Theorem normalize_walks_components N rest :
  2 <= N ->
  normalize_absolute_path N (slash :: rest) = render <$> walk_components N (components rest).
Proof.
  intros HN. unfold normalize_absolute_path. rewrite decide_True by done.
  rewrite (proj2 (Z.ltb_ge N 2)) by lia.
  rewrite (normalize_loop_spec N _ [] rest); [done|simpl; lia|constructor].
Qed.

(** ** Canonical paths *)

Lemma components_plain p : Forall plain (components p).
Proof.
  unfold components. apply Forall_forall. intros c [Hne Hin]%list_elem_of_filter. split; [done|].
  revert c Hne Hin. induction p as [|d p IH]; intros c Hne Hin; simpl in Hin.
  - by apply list_elem_of_singleton in Hin.
  - case_decide as Hd.
    + apply elem_of_cons in Hin as [->|Hin]; [done|]. by apply IH.
    + destruct (split_slash_cons p) as (h & t & E). rewrite E in *.
      apply elem_of_cons in Hin as [->|Hin]; [|apply IH; [done|by right]].
      rewrite elem_of_cons. intros [?|Hs]; [congruence|]. destruct h as [|x h]; [by apply elem_of_nil in Hs|].
      by apply (IH (x :: h)); [|left|].
Qed.

Lemma split_slash_app a b : split_slash (a ++ slash :: b) = split_slash a ++ split_slash b.
Proof.
  induction a as [|c a IH]; simpl; [done|]. case_decide; simpl; [by rewrite IH|].
  rewrite IH. by destruct (split_slash_cons a) as (h & t & ->).
Qed.

Lemma components_app a b : components (a ++ slash :: b) = components a ++ components b.
Proof. unfold components. by rewrite split_slash_app, filter_app. Qed.

Lemma components_single c : plain c -> components c = [c].
Proof. intros Hc. pose proof (components_name c [] Hc (or_introl eq_refl)) as E. by rewrite app_nil_r in E. Qed.

Lemma components_render st : Forall plain st -> components (render st) = reverse st.
Proof.
  induction st as [|c st IH]; intros Hst; [done|]. apply Forall_cons in Hst as [Hc Hst].
  rewrite render_cons, components_app, (components_single c), reverse_cons by done. f_equal.
  case_decide; [by subst|]. by apply IH.
Qed.

Lemma render_mono c st : len (render st) <= len (render (c :: st)).
Proof.
  rewrite render_cons. unfold len. rewrite length_app. simpl.
  case_decide; [subst; unfold render; simpl; lia|lia].
Qed.

Lemma render_tail st : len (render (tail st)) <= len (render st).
Proof. destruct st as [|c st]; [done|]. apply render_mono. Qed.

Lemma walk_canonical N names st st' :
  Forall plain names -> Forall canonical_component st -> len (render st) < N ->
  foldl (enter N) (Some st) names = Some st' ->
  Forall canonical_component st' /\ len (render st') < N.
Proof.
  revert st. induction names as [|c names IH]; intros st Hn Hst Hl; cbn [foldl]; [by intros [= <-]|].
  apply Forall_cons in Hn as [Hc Hn]. unfold enter at 2. cbn [mbind option_bind].
  repeat case_decide.
  - by apply IH.
  - apply IH; [done| |]; [|pose proof (render_tail st); lia].
    destruct st; [done|]. by apply Forall_cons in Hst as [_ ?].
  - destruct (Z.ltb_spec (len (render (c :: st))) N); [|by rewrite foldl_enter_None].
    apply IH; try done. by constructor.
Qed.

Lemma canonical_plain st : Forall canonical_component st -> Forall plain st.
Proof. intros H. eapply Forall_impl; [exact H|]. by intros c [? _]. Qed.

(** A canonical path walks back to itself. *)
Lemma walk_reverse N st :
  Forall canonical_component st -> len (render st) < N -> walk_components N (reverse st) = Some st.
Proof.
  unfold walk_components. induction st as [|c st IH]; intros Hst Hl; [done|].
  apply Forall_cons in Hst as [(Hp & H1 & H2) Hst]. pose proof (render_mono c st).
  rewrite reverse_cons, foldl_app, IH by (done || lia). simpl. unfold enter. simpl.
  rewrite !decide_False by done. by rewrite (proj2 (Z.ltb_lt _ _)).
Qed.

Lemma normalize_render N st :
  2 <= N -> Forall canonical_component st -> len (render st) < N ->
  normalize_absolute_path N (render st) = Some (render st).
Proof.
  intros HN Hst Hl. destruct (render_ne_nil st) as (r & Er).
  unfold normalize_absolute_path. rewrite Er, decide_True by done.
  rewrite (proj2 (Z.ltb_ge N 2)) by lia.
  rewrite (normalize_loop_spec N _ [] r); [|simpl; lia|constructor].
  assert (Ec : components r = reverse st).
  { rewrite <- components_render by (by apply canonical_plain). by rewrite Er, components_slash. }
  rewrite Ec. change (foldl (enter N) (Some []) (reverse st)) with (walk_components N (reverse st)).
  by rewrite walk_reverse, <- Er.
Qed.

Lemma normalize_canonical N path out :
  normalize_absolute_path N path = Some out ->
  2 <= N /\ exists st, out = render st /\ Forall canonical_component st /\ len out < N.
Proof.
  unfold normalize_absolute_path. destruct path as [|c rest]; [done|]. case_decide; [|done].
  destruct (Z.ltb_spec N 2) as [|HN]; [done|].
  rewrite (normalize_loop_spec N _ [] rest); [|simpl; lia|constructor].
  intros (st & E & ->)%fmap_Some. split; [done|]. exists st.
  destruct (walk_canonical N (components rest) [] st) as [H1 H2]; try done; [apply components_plain|].
  unfold len, render. simpl. lia.
Qed.

(** What normalisation returns is canonical: it begins with a slash, its
    components are nonempty and none is [.] or [..], it fits the buffer, and
    normalising it again changes nothing. *)
Theorem normalize_idempotent N path out :
  normalize_absolute_path N path = Some out ->
  (exists st, out = render st /\ Forall canonical_component st) /\ len out < N /\
  normalize_absolute_path N out = Some out.
Proof.
  intros E. destruct (normalize_canonical N path out E) as (HN & st & -> & Hst & Hl).
  split_and!; [by exists st|done|]. by apply normalize_render.
Qed.

(** ** Relative paths *)

Lemma append_bounded_spec N path combined :
  append_bounded N combined path =
  if decide (path = []) then Some combined
  else if len combined + len path <? N then Some (combined ++ path) else None.
Proof.
  revert combined. induction path as [|c path IH]; intros combined; [done|].
  rewrite decide_False by done. cbn [append_bounded].
  assert (El : len (c :: path) = 1 + len path) by (unfold len; simpl; lia).
  assert (Hp : 0 <= len path) by (unfold len; lia). rewrite El.
  destruct (Z.leb_spec N (len combined + 1)).
  - by rewrite (proj2 (Z.ltb_ge _ _)) by lia.
  - rewrite IH. assert (len (combined ++ [c]) = len combined + 1) as ->
      by (unfold len; rewrite length_app; simpl; lia).
    case_decide as Hd.
    + subst path. rewrite (proj2 (Z.ltb_lt _ _)) by (unfold len; simpl; unfold len in *; lia). done.
    + rewrite <- app_assoc. replace (len combined + 1 + len path) with (len combined + (1 + len path)) by lia. done.
Qed.

(** The text handed to normalisation for a relative path. *)
Definition joined (st : list cstr) (path : cstr) : cstr :=
  (if decide (st = []) then [] else render st) ++ slash :: path.

Lemma normalize_joined st path :
  Forall canonical_component st -> len (render st) < 64 ->
  normalize_absolute_path 64 (joined st path) =
  render <$> foldl (enter 64) (Some st) (components path).
Proof.
  intros Hst Hl. assert (exists r, joined st path = slash :: r) as (r & Er).
  { unfold joined. case_decide; [by eexists|]. destruct (render_ne_nil st) as (r & ->). by eexists. }
  rewrite Er. unfold normalize_absolute_path. rewrite decide_True by done. simpl (64 <? 2).
  rewrite (normalize_loop_spec 64 _ [] r); [|simpl; lia|constructor]. cbn [default].
  assert (Ec : components r = reverse st ++ components path).
  { rewrite <- components_slash, <- Er. unfold joined. rewrite components_app. f_equal.
    case_decide; [by subst|]. apply components_render. by apply canonical_plain. }
  rewrite Ec, foldl_app. change (foldl (enter 64) (Some []) (reverse st)) with (walk_components 64 (reverse st)).
  by rewrite walk_reverse.
Qed.

(** A relative path is resolved by walking its components from the current
    directory; it is refused when the joined text, or a directory on the way,
    does not fit the 64-character buffer. *)
Theorem resolve_walks_from_cwd st path :
  Forall canonical_component st -> len (render st) < 64 -> path <> [] -> head path <> Some slash ->
  resolve_process_path (render st) path =
  if len (joined st path) <? 64
  then render <$> foldl (enter 64) (Some st) (components path) else None.
Proof.
  intros Hst Hl Hne Hh. unfold resolve_process_path. destruct path as [|c path']; [done|].
  rewrite decide_False by (simpl in Hh; congruence). set (path := c :: path') in *.
  assert (Hpl : 0 < len path) by (unfold len; simpl; lia).
  destruct (render_ne_nil st) as (r & Er).
  assert (Hrl : 0 < len (render st)) by (rewrite Er; unfold len; simpl; lia).
  assert (Hrh : head (render st) = Some slash) by (by rewrite Er).
  assert (Hjl : len (joined st path) = (if decide (st = []) then 0 else len (render st)) + 1 + len path).
  { unfold joined. unfold len. rewrite length_app. simpl. case_decide; simpl; lia. }
  rewrite <- normalize_joined by done. unfold string_length_bounded.
  rewrite (proj2 (Z.leb_le (len (render st)) 63)) by lia.
  rewrite (proj2 (Z.eqb_neq (len (render st)) 0)), (proj2 (Z.leb_gt 64 (len (render st)))) by lia.
  destruct (Z.leb_spec (len path) 63) as [Hp|Hp].
  2: { change (63 + 1) with 64. simpl. by rewrite (proj2 (Z.ltb_ge _ _)) by (case_decide; lia). }
  rewrite (proj2 (Z.eqb_neq (len path) 0)), (proj2 (Z.leb_gt 64 (len path))) by lia.
  rewrite (len_render_one st), Hrh by (by apply canonical_plain).
  rewrite !append_bounded_spec, !(decide_False (P := path = [])) by done. unfold joined in *.
  case_bool_decide as Hs; simpl negb; cbn [orb].
  - subst st. rewrite decide_True in * by done.
    change (render []) with [slash]. change (len [slash]) with 1. rewrite Hjl, decide_True by done.
    destruct (Z.ltb_spec (1 + len path) 64), (Z.ltb_spec (0 + 1 + len path) 64); try lia; done.
  - rewrite Hjl, !decide_False by done.
    assert (len (render st ++ [slash]) = len (render st) + 1) as ->
      by (unfold len; rewrite length_app; simpl; lia).
    destruct (Z.leb_spec 64 (len (render st) + 1)).
    + by rewrite (proj2 (Z.ltb_ge _ _)) by lia.
    + destruct (Z.ltb_spec (len (render st) + 1 + len path) 64); [|done]. simpl. by rewrite <- app_assoc.
Qed.

(** ** Parents and children *)

Lemma strip_prefix_spec p d r : strip_prefix p d = Some r <-> p = d ++ r.
Proof.
  revert p. induction d as [|x d IH]; intros p; simpl.
  - split; [by intros [= ->]|by intros ->].
  - destruct p as [|c p]; [done|]. case_decide as Hc.
    + subst c. rewrite IH. split; [by intros ->|by intros [= ->]].
    + split; [done|]. intros [= -> ->]. done.
Qed.

Lemma render_inj s1 s2 : Forall plain s1 -> Forall plain s2 -> render s1 = render s2 -> s1 = s2.
Proof.
  intros H1 H2 E. apply (f_equal components) in E. rewrite !components_render in E by done.
  by apply (inj reverse).
Qed.

(** The remainder after a directory and the slash that follows it. *)
Lemma direct_child_iff s1 s2 :
  Forall plain s1 -> Forall plain s2 ->
  path_is_direct_child (render s1) (render s2) = true <-> exists c, s1 = c :: s2.
Proof.
  intros H1 H2. unfold path_is_direct_child, path_has_prefix_child, path_equal.
  pose proof (len_render_one s2 H2) as Hone.
  assert (Hlt : (1 <? len (render s2)) = negb (bool_decide (s2 = []))).
  { rewrite <- Hone. destruct (render_ne_nil s2) as (r & ->). unfold len. cbn [length].
    destruct (Z.ltb_spec 1 (Z.of_nat (S (length r)))), (Z.eqb_spec (Z.of_nat (S (length r))) 1); done || lia. }
  rewrite Hlt. split.
  - destruct (bool_decide (render s1 = render s2)); [done|]. destruct (strip_prefix _ _) as [rest|] eqn:Es; [|done].
    apply strip_prefix_spec in Es. rewrite Es, drop_app_length.
    destruct (_ || _); [|done]. cbn [negb]. case_bool_decide as Hs; cbn [negb].
    + destruct rest as [|x rest]; [done|]. intros Hsl. apply negb_true_iff, bool_decide_eq_false in Hsl.
      exists (x :: rest). apply render_inj; [done|by repeat constructor|]. subst s2.
      rewrite Es, render_cons, decide_True by done. done.
    + destruct rest as [|x rest]; [done|]. case_decide as Hx; [|done]. subst x.
      destruct rest as [|x rest]; [done|]. intros Hsl. apply negb_true_iff, bool_decide_eq_false in Hsl.
      exists (x :: rest). apply render_inj; [done|by repeat constructor|].
      by rewrite Es, render_cons, decide_False.
  - intros (c & ->). apply Forall_cons in H1 as [[Hc Hcs] _].
    rewrite bool_decide_eq_false_2.
    2: { intros E. apply (f_equal len) in E. rewrite render_cons in E. unfold len in E.
         rewrite length_app in E. simpl in E. case_decide; [subst; destruct c; [done|]; simpl in E; lia|lia]. }
    rewrite render_cons. case_bool_decide as Hs.
    + subst s2. rewrite decide_True by done. change (render []) with [slash].
      change (strip_prefix ([] ++ slash :: c) [slash]) with (Some c). simpl.
      destruct c as [|x c]; [done|]. by rewrite bool_decide_eq_false_2.
    + rewrite decide_False by done. rewrite (proj2 (strip_prefix_spec _ _ (slash :: c)) eq_refl).
      rewrite orb_comm. simpl orb. rewrite drop_app_length. cbn [negb]. rewrite decide_True by done.
      destruct c as [|x c]; [done|]. by rewrite bool_decide_eq_false_2.
Qed.

Lemma before_last_slash_spec n r : slash ∉ n -> before_last_slash (n ++ slash :: r) = r.
Proof.
  induction n as [|c n IH]; intros Hn; simpl; [done|].
  rewrite elem_of_cons in Hn. rewrite decide_False by (intros ->; tauto). apply IH. tauto.
Qed.

Lemma parent_render c st :
  Forall canonical_component (c :: st) -> len (render (c :: st)) < 64 ->
  parent_path (render (c :: st)) = Some (render st).
Proof.
  intros Hst Hl. unfold parent_path, normalize_path. rewrite normalize_render by (done || lia).
  cbn [mbind option_bind]. apply Forall_cons in Hst as [[[Hne Hs] _] _].
  rewrite decide_False.
  2: { rewrite render_cons, length_app. destruct c; [done|]. simpl. lia. }
  rewrite render_cons, reverse_app, reverse_cons, <- app_assoc. simpl app.
  rewrite before_last_slash_spec by (by rewrite elem_of_reverse). rewrite reverse_involutive.
  case_decide as Hd; [by subst|]. by destruct (render_ne_nil st) as (r & ->).
Qed.

Lemma basename_from_name n c : slash ∉ c -> basename_from n c = n.
Proof.
  revert n. induction c as [|x c IH]; intros n Hc; simpl; [done|]. rewrite elem_of_cons in Hc.
  rewrite decide_False by (intros [-> _]; tauto). apply IH. tauto.
Qed.

Lemma basename_from_spec n a c : plain c -> basename_from n (a ++ slash :: c) = c.
Proof.
  intros [Hne Hs]. revert n. induction a as [|x a IH]; intros n; simpl; [|apply IH].
  rewrite decide_True by done. by apply basename_from_name.
Qed.

(** For a canonical path [p] other than the root: [parent_path] strips its
    last component, [basename_of] is that component, and [p] is a direct child
    of a canonical directory exactly when that directory is its parent. *)
Theorem parent_and_child c st d :
  Forall canonical_component (c :: st) -> Forall canonical_component d ->
  len (render (c :: st)) < 64 ->
  parent_path (render (c :: st)) = Some (render st) /\ basename_of (render (c :: st)) = c /\
  (path_is_direct_child (render (c :: st)) (render d) = true <->
   parent_path (render (c :: st)) = Some (render d)).
Proof.
  intros Hst Hd Hl. rewrite parent_render by done. split_and!; [done|..].
  - unfold basename_of. rewrite render_cons. apply basename_from_spec.
    by apply Forall_cons in Hst as [[? _] _].
  - rewrite direct_child_iff by (by apply canonical_plain). split.
    + by intros (x & [= -> ->]).
    + intros [= E]. exists c. f_equal. apply Forall_cons in Hst as [_ Hst].
      apply render_inj; [by apply canonical_plain..|done].
Qed.

(** ** Concrete runs *)

Definition cs (s : string) : cstr := String.list_ascii_of_string s.

Lemma normalize_walks_components_witness :
  normalize_absolute_path 64 (cs "/home//./user/../guest/") = Some (cs "/home/guest").
Proof.
  exact (normalize_walks_components 64 (cs "home//./user/../guest/") ltac:(lia)).
Defined.

Lemma normalize_idempotent_witness :
  normalize_absolute_path 64 (cs "/bin") = Some (cs "/bin") /\
  normalize_absolute_path 4 (cs "/bin") = None.
Proof.
  split; [|reflexivity].
  apply (normalize_idempotent 64 (cs "/usr/../bin/.") (cs "/bin")). reflexivity.
Defined.

Lemma demo_stack_ok : Forall canonical_component [cs "user"; cs "home"].
Proof. by apply (bool_decide_unpack (Forall canonical_component [cs "user"; cs "home"])). Qed.

Lemma resolve_walks_from_cwd_witness :
  resolve_process_path (cs "/home/user") (cs "../etc") = Some (cs "/home/etc").
Proof.
  exact (resolve_walks_from_cwd [cs "user"; cs "home"] (cs "../etc") demo_stack_ok
    ltac:(reflexivity) ltac:(discriminate) ltac:(discriminate)).
Defined.

Lemma parent_and_child_witness :
  parent_path (cs "/home/user") = Some (cs "/home") /\ basename_of (cs "/home/user") = cs "user".
Proof.
  destruct (parent_and_child (cs "user") [cs "home"] [] demo_stack_ok ltac:(constructor) ltac:(reflexivity))
    as (H1 & H2 & _).
  split; [exact H1|exact H2].
Defined.
