(* ===== verification/Vfs.v ===== *)
(** * Virtual file system (kernel/src/fs/vfs.cpp, kernel/include/hk/fs/vfs.hpp)

    The node table, the RAM files, directories and hard links behind it, the
    open file handles and the mount records, with every operation that changes
    them.  A [Node*], [RamFile*] or [const char*] kept in a table is the index of
    the object it points into, so that the aliasing between a node, the name
    buffer it borrows and the file it shares is that of the code.  The text of
    generated files, the bytes of boot modules and the terminal are interfaces. *)

From S2P Require Import Prelude Path.
From stdpp Require Import strings.
#[local] Open Scope Z_scope.

(** ** Data *)

Inductive NodeType := Empty | Directory | MemoryFile | CharacterDevice | VirtualFile.
Inductive DeviceKind := NoDevice | Null | Zero | Tty | Console.
Inductive VirtualFileKind :=
  | NoVirtual
  | ProcMeminfo | ProcIomem | ProcRtc | ProcUptime | ProcLoadavg | ProcSchedDebug | ProcStat | ProcProcesses
  | ProcSelfStatus | ProcSelfStat | ProcSelfMaps | ProcSelfCmdline | ProcSelfComm | ProcSelfEnviron
  | ProcSelfCwd | ProcSelfExe | ProcSelfRoot | ProcSelfFd | ProcSelfFdinfo | ProcSelfLimits | ProcSelfIo
  | ProcMounts | ProcMountinfo | ProcSelfMountinfo | ProcFilesystems | ProcVfsStats | ProcBlockBootdisk
  | ProcDiskstats | ProcPartitions | ProcPciSummary | ProcPciDevices | ProcDevices | ProcDriverSummary
  | ProcDriverDevices | ProcIrqSummary | ProcInterrupts | ProcTtySummary | ProcCpuinfo | ProcCpuSummary
  | ProcCpuTopology | ProcMmSummary | ProcHeapinfo | ProcVmstat | ProcBuddyinfo | ProcKmsg | ProcNetSummary
  | ProcNetDev | ProcNetRoute | ProcModules | ProcBootinfo | ProcFeatures | ProcAbi | ProcCmdline
  | ProcHostname | ProcOstype | ProcOsrelease | ProcPidMax | ProcThreadsMax | ProcCpuCount
  | ProcOnlineCpuCount | ProcCpuOnlineMask | ProcCpuSchedulerMask | ProcCpuParkedMask
  | ProcTtyInputMode | ProcTtyBufferedInput | ProcTtyColumns | ProcTtyRows | ProcVmFreePages
  | ProcVmUsedPages | ProcVmTotalPages | ProcVmMappedPages | ProcVmHeapBytes | ProcBootMode
  | ProcBootFlags | ProcBootOptions | ProcMachine | ProcModuleCount | ProcFeatureFlags | ProcAbiVersion
  | ProcVersionString.

#[export] Instance NodeType_eq : EqDecision NodeType.
Proof. solve_decision. Defined.
#[export] Instance DeviceKind_eq : EqDecision DeviceKind.
Proof. solve_decision. Defined.

Definition kMaxVfsNodes : nat := 512.
Definition kMaxFileHandles : nat := 32.
Definition kMaxRamFiles : nat := 32.
Definition kMaxRamDirectories : nat := 8.
Definition kMaxRamLinks : nat := 8.
Definition kMaxMounts : nat := 8.
Definition kMaxRamFileBytes : Z := 4096.
Definition kVirtualFileScratchBytes : Z := 8192.

Record RamFile := mkRamFile { rf_used : bool; rf_path : cstr; rf_data : sarr; rf_size : Z }.
Record RamDirectory := mkRamDirectory { rd_used : bool; rd_path : cstr }.
Record RamLink := mkRamLink { rl_used : bool; rl_path : cstr; rl_target : option nat }.

(** A [const char*] held by a node: a string that lives as long as the kernel
    (a literal, a boot module's or a mounted file's path), or the name buffer
    inside a RAM file, directory or link. *)
Inductive path_ptr :=
  | Literal (text : cstr)
  | FilePath (file : nat)
  | DirPath (directory : nat)
  | LinkPath (link : nat).

Record Node := mkNode {
  nd_path : option path_ptr;
  nd_type : NodeType;
  nd_base : Z;
  nd_size : Z;
  nd_writable : bool;
  nd_disk_backed : bool;
  nd_ram_file : option nat;
  nd_device_kind : DeviceKind;
  nd_virtual_kind : VirtualFileKind
}.

Record FileHandle := mkFileHandle {
  fh_id : Z;
  fh_node : option nat;
  fh_offset : Z;
  fh_ref_count : Z;
  fh_open : bool;
  fh_dynamic_virtual : bool;
  fh_path : cstr
}.

Record MountRecord := mkMountRecord {
  mr_used : bool;
  mr_flags : Z;
  mr_node_count : Z;
  mr_total_bytes : Z;
  mr_path : cstr;
  mr_fs_type : cstr;
  mr_source : cstr
}.

Record VfsStats := mkVfsStats {
  ram_file_creates : Z;
  ram_file_create_rejects : Z;
  ram_directory_creates : Z;
  ram_directory_create_rejects : Z;
  ram_links : Z;
  ram_link_rejects : Z;
  ram_truncates : Z;
  ram_truncate_rejects : Z;
  ram_renames : Z;
  ram_rename_rejects : Z;
  ram_file_deletes : Z;
  ram_file_delete_rejects : Z;
  ram_directory_deletes : Z;
  ram_directory_delete_rejects : Z;
  ram_write_bytes : Z;
  ram_write_clipped_bytes : Z
}.

Record Vfs := mkVfs {
  nodes_ : list Node;
  handles_ : list FileHandle;
  ram_files_ : list RamFile;
  ram_directories_ : list RamDirectory;
  ram_links_ : list RamLink;
  mounts_ : list MountRecord;
  count_ : nat;
  next_handle_id_ : Z;
  stats_ : VfsStats
}.

#[export] Instance RamFile_eta : Eta RamFile :=
  fun r => mkRamFile (rf_used r) (rf_path r) (rf_data r) (rf_size r).
#[export] Instance RamDirectory_eta : Eta RamDirectory :=
  fun r => mkRamDirectory (rd_used r) (rd_path r).
#[export] Instance RamLink_eta : Eta RamLink :=
  fun r => mkRamLink (rl_used r) (rl_path r) (rl_target r).
#[export] Instance Node_eta : Eta Node := fun r =>
  mkNode (nd_path r) (nd_type r) (nd_base r) (nd_size r) (nd_writable r) (nd_disk_backed r)
    (nd_ram_file r) (nd_device_kind r) (nd_virtual_kind r).
#[export] Instance FileHandle_eta : Eta FileHandle := fun r =>
  mkFileHandle (fh_id r) (fh_node r) (fh_offset r) (fh_ref_count r) (fh_open r)
    (fh_dynamic_virtual r) (fh_path r).
#[export] Instance MountRecord_eta : Eta MountRecord := fun r =>
  mkMountRecord (mr_used r) (mr_flags r) (mr_node_count r) (mr_total_bytes r) (mr_path r)
    (mr_fs_type r) (mr_source r).
#[export] Instance VfsStats_eta : Eta VfsStats := fun r =>
  mkVfsStats (ram_file_creates r) (ram_file_create_rejects r) (ram_directory_creates r)
    (ram_directory_create_rejects r) (ram_links r) (ram_link_rejects r) (ram_truncates r)
    (ram_truncate_rejects r) (ram_renames r) (ram_rename_rejects r) (ram_file_deletes r)
    (ram_file_delete_rejects r) (ram_directory_deletes r) (ram_directory_delete_rejects r)
    (ram_write_bytes r) (ram_write_clipped_bytes r).
#[export] Instance Vfs_eta : Eta Vfs := fun r =>
  mkVfs (nodes_ r) (handles_ r) (ram_files_ r) (ram_directories_ r) (ram_links_ r) (mounts_ r)
    (count_ r) (next_handle_id_ r) (stats_ r).

#[export] Instance path_ptr_eq : EqDecision path_ptr.
Proof. solve_decision. Defined.

(** [RamFile{}] and the like: value-initialised objects. *)
Definition RamFile0 : RamFile := mkRamFile false [] (sa_const 0) 0.
Definition RamDirectory0 : RamDirectory := mkRamDirectory false [].
Definition RamLink0 : RamLink := mkRamLink false [] None.
Definition Node0 : Node := mkNode None Empty 0 0 false false None NoDevice NoVirtual.
Definition FileHandle0 : FileHandle := mkFileHandle 0 None 0 0 false false [].
Definition MountRecord0 : MountRecord := mkMountRecord false 0 0 0 [] [] [].
Definition VfsStats0 : VfsStats := mkVfsStats 0 0 0 0 0 0 0 0 0 0 0 0 0 0 0 0.

(** ** What the file system takes from the rest of the kernel

    [ram_data_addr f] is the address of [ram_files_[f].data]; [memory_byte] is
    physical memory, where boot modules and disk files were loaded.  The
    renderers give the text of a generated file at the time of the call, as far
    as a buffer of the given capacity takes it; it is empty when there is no
    such file. *)
Class Kernel := {
  ram_data_addr : nat -> Z;
  memory_byte : Z -> Z;
  render_virtual_file : VirtualFileKind -> Z -> list Z;
  render_dynamic_proc_file : cstr -> Z -> list Z
}.

(** The terminal behind [/dev/tty] and [/dev/console]. *)
Class Terminal := {
  tty : Type;
  terminal_read_input : Z -> tty -> list Z * tty;
  terminal_write : list Z -> tty -> Z * tty
}.


(** ** Lookup *)

(** The string a pointer held by a node denotes. *)
Definition ptr_text (v : Vfs) (p : path_ptr) : option cstr :=
  match p with
  | Literal text => Some text
  | FilePath f => rf_path <$> ram_files_ v !! f
  | DirPath d => rd_path <$> ram_directories_ v !! d
  | LinkPath l => rl_path <$> ram_links_ v !! l
  end.
Definition node_text (v : Vfs) (n : Node) : option cstr := nd_path n ≫= ptr_text v.

(** The nodes in use: [nodes_[0 .. count_)]. *)
Definition live (v : Vfs) : list Node := take (count_ v) (nodes_ v).

(** The index of the first element of a table that satisfies a test. *)
Definition index_of {A} (P : A -> Prop) `{forall x, Decision (P x)} (l : list A) : option nat :=
  fst <$> list_find P l.

(** [find], giving the index of the node it points to. *)
Definition find (v : Vfs) (path : cstr) : option nat :=
  normalized ← normalize_path path;
  index_of (fun n => node_text v n = Some normalized) (live v).

Definition node_at (v : Vfs) (i : option nat) : option Node := i ← i; nodes_ v !! i.

Definition is_directory (v : Vfs) (i : option nat) : bool :=
  match node_at v i with
  | Some n => bool_decide (nd_type n = Directory)
  | None => false
  end.

(** ** Registration *)

Definition add_node (node : Node) (v : Vfs) : Vfs * bool :=
  match node_text v node with
  | None => (v, false)
  | Some path =>
    if bool_decide (nd_type node = Empty) then (v, false)
    else if (kMaxVfsNodes <=? count_ v)%nat then (v, false)
    else if bool_decide (is_Some (find v path)) then (v, false)
    else (v <| nodes_ ::= <[count_ v := node]> |> <| count_ ::= S |>, true)
  end.

Definition register_directory (path : cstr) (writable : bool) (v : Vfs) : Vfs * bool :=
  add_node (mkNode (Some (Literal path)) Directory 0 0 writable false None NoDevice NoVirtual) v.

Definition register_memory_file (path : cstr) (base size : Z) (v : Vfs) : Vfs * bool :=
  if (base =? 0) || (size =? 0) then (v, false) else
  add_node (mkNode (Some (Literal path)) MemoryFile base size false false None NoDevice NoVirtual) v.

Definition register_disk_file (path : cstr) (base size : Z) (v : Vfs) : Vfs * bool :=
  if (base =? 0) || (size =? 0) then (v, false) else
  add_node (mkNode (Some (Literal path)) MemoryFile base size false true None NoDevice NoVirtual) v.

Definition register_character_device (path : cstr) (kind : DeviceKind) (v : Vfs) : Vfs * bool :=
  if bool_decide (kind = NoDevice) then (v, false) else
  add_node (mkNode (Some (Literal path)) CharacterDevice 0 0 true false None kind NoVirtual) v.

Definition register_virtual_file (path : cstr) (kind : VirtualFileKind) (v : Vfs) : Vfs * bool :=
  match kind with
  | NoVirtual => (v, false)
  | _ => add_node (mkNode (Some (Literal path)) VirtualFile 0 0 false false None NoDevice kind) v
  end.

Definition register_mount (path fs_type source : cstr) (flags node_count total_bytes : Z) (v : Vfs)
  : Vfs * bool :=
  match normalize_path path with
  | None => (v, false)
  | Some normalized =>
    match index_of (fun m => mr_used m = true /\ mr_path m = normalized) (mounts_ v) with
    | Some i =>
      (v <| mounts_ ::= alter (fun m =>
          m <| mr_flags := flags |> <| mr_node_count := node_count |>
            <| mr_total_bytes := total_bytes |> <| mr_fs_type := copy_text 16 fs_type |>
            <| mr_source := copy_text 32 source |>) i |>, true)
    | None =>
      match index_of (fun m => mr_used m = false) (mounts_ v) with
      | Some i =>
        (v <| mounts_ ::= <[i := mkMountRecord true flags node_count total_bytes
                                   (copy_path normalized) (copy_text 16 fs_type)
                                   (copy_text 32 source)]> |>, true)
      | None => (v, false)
      end
    end
  end.

(** ** The RAM file system *)

(** [++stats_.field] *)
Definition bump (field : VfsStats -> Z) `{!Setter field} (v : Vfs) : Vfs :=
  v <| stats_ ::= setf field inc64 |>.
(** [++stats_.field; return false;] *)
Definition reject (field : VfsStats -> Z) `{!Setter field} (v : Vfs) : Vfs * bool :=
  (bump field v, false).

(** The loop over [ram_files_]: take the first free slot. *)
Definition create_file_slot `{Kernel} (normalized : cstr) (v : Vfs) : Vfs * bool :=
  match index_of (fun f => rf_used f = false) (ram_files_ v) with
  | None => reject ram_file_create_rejects v
  | Some f =>
    match copy_path_checked normalized with
    | None => reject ram_file_create_rejects v
    | Some file_path =>
      let v := v <| ram_files_ ::= <[f := mkRamFile true file_path (sa_const 0) 0]> |> in
      let '(v, ok) := add_node (mkNode (Some (FilePath f)) MemoryFile (ram_data_addr f) 0
                                  true false (Some f) NoDevice NoVirtual) v in
      if ok : bool then (bump ram_file_creates v, true)
      else reject ram_file_create_rejects (v <| ram_files_ ::= <[f := RamFile0]> |>)
    end
  end.

Definition create_ram_file `{Kernel} (path : cstr) (v : Vfs) : Vfs * bool :=
  match copy_path_checked path with
  | None => reject ram_file_create_rejects v
  | Some normalized =>
    if bool_decide (is_Some (find v normalized)) then reject ram_file_create_rejects v else
    match parent_path normalized with
    | None => reject ram_file_create_rejects v
    | Some parent =>
      if negb (is_directory v (find v parent)) then reject ram_file_create_rejects v
      else create_file_slot normalized v
    end
  end.

(** The test on the node of an existing file in [link_ram_file] and
    [truncate_ram_file]: the RAM file of a writable memory file. *)
Definition writable_ram_file (v : Vfs) (i : option nat) : option nat :=
  n ← node_at v i;
  if bool_decide (nd_type n <> MemoryFile) || negb (nd_writable n) || nd_disk_backed n then None
  else nd_ram_file n.

(** The loop over [ram_links_]. *)
Definition create_link_slot `{Kernel} (linked : cstr) (target : nat) (v : Vfs) : Vfs * bool :=
  match index_of (fun l => rl_used l = false) (ram_links_ v) with
  | None => reject ram_link_rejects v
  | Some l =>
    let size := from_option rf_size 0 (ram_files_ v !! target) in
    let v := v <| ram_links_ ::= <[l := mkRamLink true (copy_path linked) (Some target)]> |> in
    let '(v, ok) := add_node (mkNode (Some (LinkPath l)) MemoryFile (ram_data_addr target) size
                                true false (Some target) NoDevice NoVirtual) v in
    if ok : bool then (bump ram_links v, true)
    else reject ram_link_rejects (v <| ram_links_ ::= <[l := RamLink0]> |>)
  end.

Definition link_ram_file `{Kernel} (existing_path new_path : cstr) (v : Vfs) : Vfs * bool :=
  match normalize_path existing_path, copy_path_checked new_path with
  | Some existing, Some linked =>
    if bool_decide (is_Some (find v linked)) then reject ram_link_rejects v else
    match writable_ram_file v (find v existing) with
    | None => reject ram_link_rejects v
    | Some target =>
      match parent_path linked with
      | None => reject ram_link_rejects v
      | Some parent =>
        if negb (is_directory v (find v parent)) then reject ram_link_rejects v
        else create_link_slot linked target v
      end
    end
  | _, _ => reject ram_link_rejects v
  end.

(** The RAM file behind a handle: [handle.node->ram_file], through whatever
    node now sits where the handle points. *)
Definition handle_ram_file (v : Vfs) (h : FileHandle) : option nat :=
  if fh_open h then n ← node_at v (fh_node h); nd_ram_file n else None.

Definition truncate_file (size : Z) (f : RamFile) : RamFile :=
  (if rf_size f <? size then f <| rf_data ::= clear_bytes (rf_size f) size |> else f)
  <| rf_size := size |>.

Definition truncate_ram_file `{Kernel} (path : cstr) (size : Z) (v : Vfs) : Vfs * bool :=
  match normalize_path path with
  | None => reject ram_truncate_rejects v
  | Some normalized =>
    if kMaxRamFileBytes <? size then reject ram_truncate_rejects v else
    match writable_ram_file v (find v normalized) with
    | None => reject ram_truncate_rejects v
    | Some file =>
      let v := v <| ram_files_ ::= alter (truncate_file size) file |> in
      let v := v <| nodes_ ::= imap (fun i n =>
                 if bool_decide ((i < count_ v)%nat /\ nd_ram_file n = Some file)
                 then n <| nd_base := ram_data_addr file |> <| nd_size := size |> else n) |> in
      let v := v <| handles_ ::= fmap (fun h =>
                 if bool_decide (handle_ram_file v h = Some file) && (size <? fh_offset h)
                 then h <| fh_offset := size |> else h) |> in
      (bump ram_truncates v, true)
    end
  end.

(** The body of the loop of [rename_ram_node] at node [i]; [None] goes on to the
    next node. *)
Definition rename_step (old_normalized new_normalized : cstr) (v : Vfs) (i : nat)
  : option (Vfs * bool) :=
  node ← nodes_ v !! i;
  if bool_decide (node_text v node <> Some old_normalized) || negb (nd_writable node)
     || nd_disk_backed node then None else
  match nd_type node, nd_ram_file node with
  | MemoryFile, Some f =>
    match index_of (fun l => rl_used l = true /\ rl_path l = old_normalized) (ram_links_ v) with
    | Some l =>
      let v := v <| ram_links_ ::= alter (fun l => l <| rl_path := copy_path new_normalized |>) l |>
                 <| nodes_ ::= alter (fun n => n <| nd_path := Some (LinkPath l) |>) i |> in
      Some (bump ram_renames v, true)
    | None =>
      let renamable := match ram_files_ v !! f with
                       | Some file => rf_used file && path_equal (rf_path file) old_normalized
                       | None => false
                       end in
      if negb renamable then Some (reject ram_rename_rejects v) else
      let v := v <| ram_files_ ::= alter (fun f => f <| rf_path := copy_path new_normalized |>) f |>
                 <| nodes_ ::= alter (fun n => n <| nd_path := Some (FilePath f) |>) i |> in
      Some (bump ram_renames v, true)
    end
  | Directory, None =>
    let child := fun n : Node => from_option (fun p => path_has_prefix_child p old_normalized) false (node_text v n) in
    if existsb child (take i (live v)) || existsb child (drop (S i) (live v))
    then Some (reject ram_rename_rejects v) else
    match index_of (fun d => rd_used d = true /\ rd_path d = old_normalized) (ram_directories_ v) with
    | Some d =>
      let v := v <| ram_directories_ ::= alter (fun d => d <| rd_path := copy_path new_normalized |>) d |>
                 <| nodes_ ::= alter (fun n => n <| nd_path := Some (DirPath d) |>) i |> in
      Some (bump ram_renames v, true)
    | None => None
    end
  | _, _ => None
  end.

(** The first index of a list at which a step decides the call. *)
Fixpoint first_some {B} (step : nat -> option B) (idxs : list nat) : option B :=
  match idxs with
  | [] => None
  | i :: idxs => match step i with Some r => Some r | None => first_some step idxs end
  end.

Definition rename_ram_node (old_path new_path : cstr) (v : Vfs) : Vfs * bool :=
  match normalize_path old_path, copy_path_checked new_path with
  | Some old_normalized, Some new_normalized =>
    if path_equal old_normalized new_normalized || bool_decide (is_Some (find v new_normalized))
    then reject ram_rename_rejects v else
    match parent_path new_normalized with
    | None => reject ram_rename_rejects v
    | Some parent =>
      if negb (is_directory v (find v parent)) then reject ram_rename_rejects v else
      match first_some (rename_step old_normalized new_normalized v) (seq 0 (count_ v)) with
      | Some r => r
      | None => reject ram_rename_rejects v
      end
    end
  | _, _ => reject ram_rename_rejects v
  end.

(** [for (j = i; j + 1 < count_; ++j) nodes_[j] = nodes_[j + 1];
     nodes_[count_ - 1] = Node{}; --count_;] *)
Definition remove_node (i : nat) (v : Vfs) : Vfs :=
  v <| nodes_ := take i (nodes_ v) ++ drop (S i) (live v) ++ Node0 :: drop (count_ v) (nodes_ v) |>
    <| count_ ::= pred |>.

(** The loop that clears the link record with a given path. *)
Definition forget_link (normalized : cstr) (v : Vfs) : Vfs :=
  v <| ram_links_ ::= fun links =>
    match index_of (fun l => rl_used l = true /\ rl_path l = normalized) links with
    | Some l => <[l := RamLink0]> links
    | None => links
    end |>.

(** The file's slot is freed when no node refers to it any more. *)
Definition release_file (target : nat) (v : Vfs) : Vfs :=
  let still_linked := existsb (fun n => bool_decide (nd_type n = MemoryFile /\
                                                     nd_ram_file n = Some target)) (live v) in
  if still_linked then v else v <| ram_files_ ::= <[target := RamFile0]> |>.

Definition delete_ram_file (path : cstr) (v : Vfs) : Vfs * bool :=
  match normalize_path path with
  | None => reject ram_file_delete_rejects v
  | Some normalized =>
    match index_of (fun n => node_text v n = Some normalized /\ nd_writable n = true /\
                             nd_ram_file n <> None) (live v) with
    | None => reject ram_file_delete_rejects v
    | Some i =>
      match node_at v (Some i) ≫= nd_ram_file with
      | None => reject ram_file_delete_rejects v
      | Some target =>
        if existsb (fun h => bool_decide (handle_ram_file v h = Some target)) (handles_ v)
        then reject ram_file_delete_rejects v else
        (bump ram_file_deletes (release_file target (remove_node i (forget_link normalized v))), true)
      end
    end
  end.

(** The loop over [ram_directories_]. *)
Definition create_directory_slot (normalized : cstr) (v : Vfs) : Vfs * bool :=
  match index_of (fun d => rd_used d = false) (ram_directories_ v) with
  | None => reject ram_directory_create_rejects v
  | Some d =>
    match copy_path_checked normalized with
    | None => reject ram_directory_create_rejects v
    | Some directory_path =>
      let v := v <| ram_directories_ ::= <[d := mkRamDirectory true directory_path]> |> in
      let '(v, ok) := add_node (mkNode (Some (DirPath d)) Directory 0 0 true false None
                                  NoDevice NoVirtual) v in
      if ok : bool then (bump ram_directory_creates v, true)
      else reject ram_directory_create_rejects (v <| ram_directories_ ::= <[d := RamDirectory0]> |>)
    end
  end.

Definition create_ram_directory (path : cstr) (v : Vfs) : Vfs * bool :=
  match copy_path_checked path with
  | None => reject ram_directory_create_rejects v
  | Some normalized =>
    if bool_decide (is_Some (find v normalized)) then reject ram_directory_create_rejects v else
    match parent_path normalized with
    | None => reject ram_directory_create_rejects v
    | Some parent =>
      if negb (is_directory v (find v parent)) then reject ram_directory_create_rejects v
      else create_directory_slot normalized v
    end
  end.

(** The loop that clears the directory record with a given path. *)
Definition forget_directory (normalized : cstr) (v : Vfs) : Vfs :=
  v <| ram_directories_ ::= fun directories =>
    match index_of (fun d => rd_used d = true /\ rd_path d = normalized) directories with
    | Some d => <[d := RamDirectory0]> directories
    | None => directories
    end |>.

Definition delete_ram_directory (path : cstr) (v : Vfs) : Vfs * bool :=
  match normalize_path path with
  | None => reject ram_directory_delete_rejects v
  | Some normalized =>
    if (length normalized <=? 1)%nat then reject ram_directory_delete_rejects v else
    match index_of (fun n => node_text v n = Some normalized /\ nd_type n = Directory /\
                             nd_writable n = true) (live v) with
    | None => reject ram_directory_delete_rejects v
    | Some i =>
      if existsb (fun n => from_option (fun p => path_has_prefix_child p normalized) false
                             (node_text v n)) (live v)
      then reject ram_directory_delete_rejects v else
      (bump ram_directory_deletes (remove_node i (forget_directory normalized v)), true)
    end
  end.

(** ** Sizes and reading by path *)

Definition virtual_file_size `{Kernel} (kind : VirtualFileKind) : Z := 
  zlen (render_virtual_file kind kVirtualFileScratchBytes).
Definition dynamic_proc_file_size `{Kernel} (normalized : cstr) : Z :=
  zlen (render_dynamic_proc_file normalized 2048).

Definition file_size (v : Vfs) (f : nat) : Z := from_option rf_size 0 (ram_files_ v !! f).

Definition node_size_for `{Kernel} (v : Vfs) (n : Node) : Z :=
  if bool_decide (nd_type n = VirtualFile) then virtual_file_size (nd_virtual_kind n)
  else match nd_ram_file n with
       | Some f => file_size v f
       | None => nd_size n
       end.

(** [memcpy(buffer, generated + offset, min(size, generated_size - offset))],
    nothing when the offset is past the end. *)
Definition copy_generated (generated : list Z) (offset size : Z) : list Z :=
  if zlen generated <=? offset then []
  else take (Z.to_nat (Z.min size (zlen generated - offset))) (drop (Z.to_nat offset) generated).

(** The bytes of a memory file. *)
Definition node_byte `{Kernel} (v : Vfs) (n : Node) (i : Z) : Z :=
  match nd_ram_file n with
  | Some f => sa_get (from_option rf_data (sa_const 0) (ram_files_ v !! f)) i
  | None => memory_byte (w64 (nd_base n + i))
  end.

Definition copy_memory_file `{Kernel} (v : Vfs) (n : Node) (offset size : Z) : list Z :=
  let node_size := node_size_for v n in
  if node_size <=? offset then []
  else bytes_at (node_byte v n) offset (Z.min size (node_size - offset)).

Definition read `{Kernel} (path : cstr) (offset size : Z) (v : Vfs) : list Z :=
  if size =? 0 then [] else
  let generated := match normalize_path path with
                   | Some normalized => render_dynamic_proc_file normalized kVirtualFileScratchBytes
                   | None => []
                   end in
  if negb (zlen generated =? 0) then copy_generated generated offset size else
  match node_at v (find v path) with
  | None => []
  | Some node =>
    match nd_type node with
    | VirtualFile => copy_generated (render_virtual_file (nd_virtual_kind node) kVirtualFileScratchBytes) offset size
    | MemoryFile => copy_memory_file v node offset size
    | _ => []
    end
  end.

(** ** Handles *)

Definition handle_for (v : Vfs) (handle : Z) : option nat :=
  if handle =? 0 then None else
  index_of (fun e => fh_open e = true /\ fh_id e = handle) (handles_ v).

Definition open_slot (node : option nat) (path : cstr) (dynamic_virtual : bool) (v : Vfs) : Vfs * Z :=
  match index_of (fun h => fh_open h = false) (handles_ v) with
  | None => (v, 0)
  | Some slot =>
    let id := next_handle_id_ v in
    let next := inc32 id in
    let '(id, next) := if id =? 0 then (next, inc32 next) else (id, next) in
    (v <| next_handle_id_ := next |>
       <| handles_ ::= <[slot := mkFileHandle id node 0 1 true dynamic_virtual (copy_path path)]> |>, id)
  end.

Definition vopen `{Kernel} (path : cstr) (v : Vfs) : Vfs * Z :=
  match find v path with
  | None =>
    match normalize_path path with
    | None => (v, 0)
    | Some normalized =>
      if dynamic_proc_file_size normalized =? 0 then (v, 0) else open_slot None normalized true v
    end
  | Some i =>
    match node_at v (Some i) with
    | None => (v, 0)
    | Some node =>
      match nd_type node with
      | MemoryFile | CharacterDevice | VirtualFile =>
        open_slot (Some i) (default [] (node_text v node)) false v
      | _ => (v, 0)
      end
    end
  end.

(** [entry->offset += n] *)
Definition advance (slot : nat) (n : Z) (v : Vfs) : Vfs :=
  v <| handles_ ::= alter (fun h => h <| fh_offset ::= fun o => w64 (o + n) |>) slot |>.

Definition read_handle `{Kernel} `{Terminal} (handle size : Z) (v : Vfs) (t : tty)
  : Vfs * tty * list Z :=
  match handle_for v handle with
  | None => (v, t, [])
  | Some slot =>
    match handles_ v !! slot with
    | None => (v, t, [])
    | Some entry =>
      if size =? 0 then (v, t, []) else
      let give (bytes : list Z) := (advance slot (zlen bytes) v, t, bytes) in
      if fh_dynamic_virtual entry then
        give (copy_generated (render_dynamic_proc_file (fh_path entry) kVirtualFileScratchBytes) (fh_offset entry) size)
      else
      match node_at v (fh_node entry) with
      | None => (v, t, [])
      | Some node =>
        match nd_type node with
        | CharacterDevice =>
          match nd_device_kind node with
          | Zero => give (replicate (Z.to_nat size) 0)
          | Tty | Console =>
            let '(bytes, t) := terminal_read_input size t in
            (advance slot (zlen bytes) v, t, bytes)
          | _ => (v, t, [])
          end
        | VirtualFile =>
          give (copy_generated (render_virtual_file (nd_virtual_kind node) kVirtualFileScratchBytes) (fh_offset entry) size)
        | _ => give (copy_memory_file v node (fh_offset entry) size)
        end
      end
    end
  end.

Definition write_ram `{Kernel} (slot i f : nat) (offset : Z) (buffer : list Z) (v : Vfs) : Vfs * Z :=
  if kMaxRamFileBytes <=? offset then (v, 0) else
  let to_copy := Z.min (zlen buffer) (kMaxRamFileBytes - offset) in
  let v := if to_copy <? zlen buffer
           then v <| stats_ ::= setf ram_write_clipped_bytes (fun n => w64 (n + (zlen buffer - to_copy))) |>
           else v in
  let v := v <| ram_files_ ::= alter (fun f =>
             f <| rf_data ::= write_bytes offset (take (Z.to_nat to_copy) buffer) |>) f |> in
  let v := advance slot to_copy v <| stats_ ::= setf ram_write_bytes (fun n => w64 (n + to_copy)) |> in
  let v := v <| ram_files_ ::= alter (fun f =>
             if rf_size f <? offset + to_copy then f <| rf_size := offset + to_copy |> else f) f |> in
  (v <| nodes_ ::= alter (fun n => n <| nd_base := ram_data_addr f |> <| nd_size := file_size v f |>) i |>,
   to_copy).

Definition write_handle `{Kernel} `{Terminal} (handle : Z) (buffer : list Z) (v : Vfs) (t : tty)
  : Vfs * tty * Z :=
  match handle_for v handle with
  | None => (v, t, 0)
  | Some slot =>
    match handles_ v !! slot with
    | None => (v, t, 0)
    | Some entry =>
      match fh_node entry with
      | None => (v, t, 0)
      | Some i =>
        match nodes_ v !! i with
        | None => (v, t, 0)
        | Some node =>
          if zlen buffer =? 0 then (v, t, 0) else
          match nd_type node with
          | CharacterDevice =>
            match nd_device_kind node with
            | Null | Zero => (advance slot (zlen buffer) v, t, zlen buffer)
            | Tty | Console =>
              let '(written, t) := terminal_write buffer t in (advance slot written v, t, written)
            | _ => (v, t, 0)
            end
          | _ =>
            if negb (nd_writable node) then (v, t, 0) else
            match nd_ram_file node with
            | None => (v, t, 0)
            | Some f => let '(v, n) := write_ram slot i f (fh_offset entry) buffer v in (v, t, n)
            end
          end
        end
      end
    end
  end.

Definition seek_handle `{Kernel} (handle offset : Z) (v : Vfs) : Vfs * bool :=
  match handle_for v handle with
  | None => (v, false)
  | Some slot =>
    match handles_ v !! slot with
    | None => (v, false)
    | Some entry =>
      let set := v <| handles_ ::= alter (fun h => h <| fh_offset := offset |>) slot |> in
      if fh_dynamic_virtual entry then
        if dynamic_proc_file_size (fh_path entry) <? offset then (v, false) else (set, true)
      else
      match node_at v (fh_node entry) with
      | None => (v, false)
      | Some node => if node_size_for v node <? offset then (v, false) else (set, true)
      end
    end
  end.

Definition retain_handle (handle : Z) (v : Vfs) : Vfs * bool :=
  match handle_for v handle with
  | None => (v, false)
  | Some slot =>
    match handles_ v !! slot with
    | None => (v, false)
    | Some entry =>
      if fh_ref_count entry =? 0xffffffff then (v, false)
      else (v <| handles_ ::= alter (fun h => h <| fh_ref_count ::= inc32 |>) slot |>, true)
    end
  end.

Definition handle_offset (v : Vfs) (handle : Z) : Z :=
  match handle_for v handle with
  | Some slot => from_option fh_offset 0 (handles_ v !! slot)
  | None => 0
  end.

Definition close (handle : Z) (v : Vfs) : Vfs * bool :=
  match handle_for v handle with
  | None => (v, false)
  | Some slot =>
    match handles_ v !! slot with
    | None => (v, false)
    | Some entry =>
      if 1 <? fh_ref_count entry
      then (v <| handles_ ::= alter (fun h => h <| fh_ref_count ::= fun n => n - 1 |>) slot |>, true)
      else (v <| handles_ ::= <[slot := FileHandle0]> |>, true)
    end
  end.

(** ** Counts and node information *)

Definition open_handle_count (v : Vfs) : Z := zlen (filter (fun h => fh_open h = true) (handles_ v)).
Definition mount_count (v : Vfs) : Z := zlen (filter (fun m => mr_used m = true) (mounts_ v)).
Definition memory_file_count (v : Vfs) : Z :=
  zlen (filter (fun n => nd_type n = MemoryFile) (live v)).

Definition total_memory_file_bytes (v : Vfs) : Z :=
  foldl (fun total n =>
    if bool_decide (nd_type n <> MemoryFile) then total
    else w64 (total + match nd_ram_file n with Some f => file_size v f | None => nd_size n end))
    0 (live v).

Definition VfsNodeReadable : Z := 1.
Definition VfsNodeWritable : Z := 2.
Definition VfsNodeDirectory : Z := 4.
Definition VfsNodeMemoryBacked : Z := 8.
Definition VfsNodeDiskBacked : Z := 16.
Definition VfsNodeCharacterDevice : Z := 32.
Definition VfsNodeVirtual : Z := 64.

(** The ABI's node types carry the kernel's names in the same order. *)
Definition abi_type (type : NodeType) : Z :=
  match type with
  | Directory => 1 | MemoryFile => 2 | CharacterDevice => 3 | VirtualFile => 4 | Empty => 0
  end.

Definition abi_flags (node : Node) : Z :=
  let flags := 0 in
  let flags := if bool_decide (nd_type node = MemoryFile)
               then Z.lor flags (Z.lor VfsNodeReadable VfsNodeMemoryBacked) else flags in
  let flags := if bool_decide (nd_type node = Directory) then Z.lor flags VfsNodeDirectory else flags in
  let flags :=
    if bool_decide (nd_type node = CharacterDevice) then
      let flags := Z.lor flags VfsNodeCharacterDevice in
      let flags := match nd_device_kind node with
                   | Zero | Tty | Console => Z.lor flags VfsNodeReadable | _ => flags end in
      match nd_device_kind node with
      | Null | Zero | Tty | Console => Z.lor flags VfsNodeWritable | _ => flags
      end
    else flags in
  let flags := if bool_decide (nd_type node = VirtualFile)
               then Z.lor flags (Z.lor VfsNodeReadable VfsNodeVirtual) else flags in
  let flags := if nd_writable node then Z.lor flags VfsNodeWritable else flags in
  if nd_disk_backed node
  then Z.land (Z.lor flags (Z.lor VfsNodeReadable VfsNodeDiskBacked)) (two32 - 1 - VfsNodeMemoryBacked)
  else flags.

Definition link_count_for (nodes : list Node) (node : Node) : Z :=
  match nd_ram_file node with
  | None => 1
  | Some f =>
    let links := zlen (filter (fun n => nd_type n = MemoryFile /\ nd_ram_file n = Some f) nodes) in
    if links =? 0 then 1 else links
  end.

Record VfsNodeInfo := mkVfsNodeInfo {
  ni_type : Z; ni_flags : Z; ni_base : Z; ni_size : Z; ni_links : Z; ni_path : cstr
}.

Definition copy_node_info `{Kernel} (index : nat) (v : Vfs) : option VfsNodeInfo :=
  if (count_ v <=? index)%nat then None else
  node ← nodes_ v !! index;
  path ← node_text v node;
  if bool_decide (nd_type node = Empty) then None else
  Some (mkVfsNodeInfo (abi_type (nd_type node)) (abi_flags node) (nd_base node)
          (node_size_for v node) (link_count_for (live v) node) (copy_path path)).

(** The empty file system [Vfs::initialize] starts from. *)
Definition fresh_vfs : Vfs :=
  mkVfs (replicate kMaxVfsNodes Node0) (replicate kMaxFileHandles FileHandle0)
    (replicate kMaxRamFiles RamFile0) (replicate kMaxRamDirectories RamDirectory0)
    (replicate kMaxRamLinks RamLink0) (replicate kMaxMounts MountRecord0) 0 1 VfsStats0.
