(* ===== verification/RamFs.v ===== *)
(** * The RAM file system: refinement of a file system of names and inodes

    [abs v] forgets the tables of [Vfs.v]: what is left is a finite map from
    canonical paths to directory entries, and the contents of the RAM files
    those entries share.  [fs_step] says what each operation does to that pair;
    the theorems show that the code does exactly this, that it refuses only when
    the specification or a full table does, and that the tables stay well
    formed. *)

From stdpp Require Import strings.
From S2P Require Import Prelude Path Vfs.
#[local] Open Scope Z_scope.

(** ** Specification *)

Record entry := Entry {
  e_type : NodeType;
  e_writable : bool;
  e_disk_backed : bool;
  e_file : option nat;
  e_device : DeviceKind;
  e_virtual : VirtualFileKind;
  e_ram_directory : bool;
  e_extent : option (Z * Z)
}.

Definition entry_of (n : Node) : entry :=
  Entry (nd_type n) (nd_writable n) (nd_disk_backed n) (nd_ram_file n) (nd_device_kind n)
    (nd_virtual_kind n) (match nd_path n with Some (DirPath _) => true | _ => false end)
    (match nd_ram_file n with Some _ => None | None => Some (nd_base n, nd_size n) end).

(** What a RAM file's name and a RAM directory's name stand for. *)
Definition file_entry (f : nat) : entry :=
  Entry MemoryFile true false (Some f) NoDevice NoVirtual false None.
Definition directory_entry : entry :=
  Entry Directory true false None NoDevice NoVirtual true (Some (0, 0)).

Record fs := Fs { fs_names : gmap cstr entry; fs_inodes : nat -> option (list Z) }.

Definition bytes_of (file : RamFile) : list Z := bytes_at (sa_get (rf_data file)) 0 (rf_size file).
Definition inode (v : Vfs) (f : nat) : option (list Z) :=
  file ← ram_files_ v !! f; if rf_used file then Some (bytes_of file) else None.

Definition listing (v : Vfs) (l : list Node) : list (cstr * entry) :=
  (fun n => (default [] (node_text v n), entry_of n)) <$> l.
Definition names (v : Vfs) : gmap cstr entry := list_to_map (listing v (live v)).

Definition abs (v : Vfs) : fs := Fs (names v) (inode v).

Inductive fs_op :=
  | CreateFile (path : cstr)
  | LinkFile (existing_path new_path : cstr)
  | Truncate (path : cstr) (size : Z)
  | Rename (old_path new_path : cstr)
  | DeleteFile (path : cstr)
  | CreateDirectory (path : cstr)
  | DeleteDirectory (path : cstr).

Definition run_op `{Kernel} (op : fs_op) (v : Vfs) : Vfs * bool :=
  match op with
  | CreateFile path => create_ram_file path v
  | LinkFile existing_path new_path => link_ram_file existing_path new_path v
  | Truncate path size => truncate_ram_file path size v
  | Rename old_path new_path => rename_ram_node old_path new_path v
  | DeleteFile path => delete_ram_file path v
  | CreateDirectory path => create_ram_directory path v
  | DeleteDirectory path => delete_ram_directory path v
  end.

(** [p] is a path at which a new name may be made: it has no entry, and its
    parent is a directory. *)
Definition vacant (m : gmap cstr entry) (path p : cstr) : Prop :=
  copy_path_checked path = Some p /\ m !! p = None /\
  exists up e, parent_path p = Some up /\ m !! up = Some e /\ e_type e = Directory.

(** [p] names a writable RAM file. *)
Definition ram_file_at (m : gmap cstr entry) (path p : cstr) (f : nat) : Prop :=
  normalize_path path = Some p /\
  exists e, m !! p = Some e /\ e_type e = MemoryFile /\ e_writable e = true /\
            e_disk_backed e = false /\ e_file e = Some f.

Definition childless (m : gmap cstr entry) (p : cstr) : Prop :=
  forall q, is_Some (m !! q) -> path_has_prefix_child q p = false.

Definition same_inodes (s s' : fs) : Prop := forall g, fs_inodes s' g = fs_inodes s g.
Definition update_inode (s s' : fs) (f : nat) (c : option (list Z)) : Prop :=
  forall g, fs_inodes s' g = if decide (g = f) then c else fs_inodes s g.

(** The first [n] bytes, followed by zeros. *)
Definition resize_bytes (n : Z) (c : list Z) : list Z :=
  take (Z.to_nat n) (c ++ replicate (Z.to_nat n) 0).

Inductive fs_step : fs_op -> fs -> fs -> Prop :=
  | step_create path p f s s' :
      vacant (fs_names s) path p -> fs_inodes s f = None ->
      fs_names s' = <[p := file_entry f]> (fs_names s) -> update_inode s s' f (Some []) ->
      fs_step (CreateFile path) s s'
  | step_link existing_path new_path p q f s s' :
      ram_file_at (fs_names s) existing_path p f -> vacant (fs_names s) new_path q ->
      fs_names s' = <[q := file_entry f]> (fs_names s) -> same_inodes s s' ->
      fs_step (LinkFile existing_path new_path) s s'
  | step_truncate path p f size c s s' :
      ram_file_at (fs_names s) path p f -> size <= kMaxRamFileBytes -> fs_inodes s f = Some c ->
      fs_names s' = fs_names s -> update_inode s s' f (Some (resize_bytes size c)) ->
      fs_step (Truncate path size) s s'
  | step_rename old_path new_path p q e s s' :
      normalize_path old_path = Some p -> vacant (fs_names s) new_path q ->
      fs_names s !! p = Some e -> e_writable e = true -> e_disk_backed e = false ->
      is_Some (e_file e) \/ (e_ram_directory e = true /\ childless (fs_names s) p) ->
      fs_names s' = <[q := e]> (delete p (fs_names s)) -> same_inodes s s' ->
      fs_step (Rename old_path new_path) s s'
  | step_delete path p f s s' :
      ram_file_at (fs_names s) path p f -> fs_names s' = delete p (fs_names s) ->
      update_inode s s' f
        (if decide (map_Exists (fun _ e => e_file e = Some f) (fs_names s'))
         then fs_inodes s f else None) ->
      fs_step (DeleteFile path) s s'
  | step_mkdir path p s s' :
      vacant (fs_names s) path p ->
      fs_names s' = <[p := directory_entry]> (fs_names s) -> same_inodes s s' ->
      fs_step (CreateDirectory path) s s'
  | step_rmdir path p e s s' :
      normalize_path path = Some p -> p <> [slash] -> fs_names s !! p = Some e ->
      e_type e = Directory -> e_writable e = true -> childless (fs_names s) p ->
      fs_names s' = delete p (fs_names s) -> same_inodes s s' ->
      fs_step (DeleteDirectory path) s s'.

(** What else the code needs: a free slot in its tables, and for a deletion
    that no open handle uses the file. *)
Definition room (v : Vfs) : Prop := (count_ v < kMaxVfsNodes)%nat.
Definition ready (op : fs_op) (v : Vfs) : Prop :=
  match op with
  | CreateFile _ => room v /\ exists f file, ram_files_ v !! f = Some file /\ rf_used file = false
  | LinkFile _ _ => room v /\ exists l link, ram_links_ v !! l = Some link /\ rl_used link = false
  | CreateDirectory _ => room v /\ exists d dir, ram_directories_ v !! d = Some dir /\ rd_used dir = false
  | DeleteFile path => forall n f h, node_at v (find v path) = Some n -> nd_ram_file n = Some f ->
      h ∈ handles_ v -> handle_ram_file v h <> Some f
  | _ => True
  end.

(** ** Well-formed tables *)

Definition canonical (p : cstr) : Prop := normalize_path p = Some p.

(** Who owns the name buffer a node points to. *)
Definition ptr_ok (v : Vfs) (n : Node) : Prop :=
  match nd_path n with
  | Some (Literal _) => nd_ram_file n = None
  | Some (FilePath f) => nd_ram_file n = Some f
  | Some (DirPath d) => nd_ram_file n = None /\ nd_type n = Directory /\
      exists dir, ram_directories_ v !! d = Some dir /\ rd_used dir = true
  | Some (LinkPath l) => exists f link, nd_ram_file n = Some f /\
      ram_links_ v !! l = Some link /\ rl_used link = true /\ rl_target link = Some f
  | None => False
  end.

Record node_ok (v : Vfs) (n : Node) : Prop := {
  no_type : nd_type n <> Empty;
  no_ptr : ptr_ok v n;
  no_text : exists p, node_text v n = Some p /\ canonical p;
  no_file : forall f, nd_ram_file n = Some f ->
    nd_type n = MemoryFile /\ nd_writable n = true /\ nd_disk_backed n = false /\
    exists file, ram_files_ v !! f = Some file /\ rf_used file = true
}.

Record vfs_wf (v : Vfs) : Prop := {
  vw_nodes : length (nodes_ v) = kMaxVfsNodes;
  vw_count : (count_ v <= kMaxVfsNodes)%nat;
  vw_live : Forall (node_ok v) (live v);
  vw_names : NoDup (node_text v <$> live v);
  vw_files : forall f file, ram_files_ v !! f = Some file -> rf_used file = true ->
    0 <= rf_size file <= kMaxRamFileBytes /\ exists n, n ∈ live v /\ nd_ram_file n = Some f;
  vw_dirs : forall d dir, ram_directories_ v !! d = Some dir -> rd_used dir = true ->
    exists n, n ∈ live v /\ nd_path n = Some (DirPath d);
  vw_links : forall l link, ram_links_ v !! l = Some link -> rl_used link = true ->
    exists n, n ∈ live v /\ nd_path n = Some (LinkPath l)
}.

(** ** Tables *)

Lemma index_of_Some {A} (P : A -> Prop) `{forall x, Decision (P x)} (l : list A) i :
  index_of P l = Some i ->
  exists x, l !! i = Some x /\ P x /\ (forall j y, l !! j = Some y -> (j < i)%nat -> ~ P y).
Proof.
  unfold index_of. intros ([j x] & Hf & ->)%fmap_Some. apply list_find_Some in Hf as (? & ? & ?).
  by exists x.
Qed.

Lemma index_of_None {A} (P : A -> Prop) `{forall x, Decision (P x)} (l : list A) :
  index_of P l = None -> forall x, x ∈ l -> ~ P x.
Proof.
  unfold index_of. intros Hf%fmap_None. apply list_find_None in Hf. by apply Forall_forall.
Qed.

Lemma index_of_elem {A} (P : A -> Prop) `{forall x, Decision (P x)} (l : list A) x :
  x ∈ l -> P x -> is_Some (index_of P l).
Proof.
  intros Hx HP. destruct (index_of P l) eqn:E; [done|]. by destruct (index_of_None P l E x).
Qed.

(** ** Lookup *)

Lemma normalize_is_canonical path p : normalize_path path = Some p -> canonical p.
Proof.
  intros E. destruct (normalize_canonical 64 path p E) as (H & st & -> & Hst & Hl).
  by apply normalize_render.
Qed.

Lemma live_lookup v i n : live v !! i = Some n -> nodes_ v !! i = Some n /\ (i < count_ v)%nat.
Proof. unfold live. rewrite lookup_take_Some. done. Qed.

Lemma live_length v : vfs_wf v -> length (live v) = count_ v.
Proof. intros Hwf. unfold live. rewrite length_take, vw_nodes by done. pose proof (vw_count v Hwf). lia. Qed.

Lemma listing_keys v l : Forall (node_ok v) l -> Some <$> (listing v l).*1 = node_text v <$> l.
Proof.
  intros H. unfold listing. rewrite <- !list_fmap_compose. apply list_fmap_ext. intros i n Hn.
  rewrite Forall_lookup in H. destruct (no_text v n (H i n Hn)) as (p & E & _). simpl. by rewrite E.
Qed.

Lemma listing_nodup v l : Forall (node_ok v) l -> NoDup (node_text v <$> l) -> NoDup (listing v l).*1.
Proof. intros H HN. rewrite <- listing_keys in HN by done. by apply NoDup_fmap_1 in HN. Qed.

Lemma names_lookup v p e :
  vfs_wf v -> names v !! p = Some e <-> exists n, n ∈ live v /\ node_text v n = Some p /\ entry_of n = e.
Proof.
  intros Hwf. unfold names. rewrite <- elem_of_list_to_map by (apply listing_nodup; apply Hwf).
  unfold listing. rewrite list_elem_of_fmap. split; intros (n & H1 & H2).
  - exists n. injection H1 as -> ->. split_and!; try done.
    pose proof (vw_live v Hwf) as HF. rewrite Forall_forall in HF.
    destruct (no_text v n (HF n H2)) as (q & -> & _). done.
  - destruct H2 as (H2 & <-). exists n. by rewrite H2.
Qed.

(** Two nodes of the table with the same path are the same entry. *)
Lemma live_inj v i j n m p :
  vfs_wf v -> live v !! i = Some n -> live v !! j = Some m ->
  node_text v n = Some p -> node_text v m = Some p -> i = j.
Proof.
  intros Hwf Hi Hj Hn Hm. pose proof (vw_names v Hwf) as HN.
  eapply NoDup_lookup; [exact HN| |]; rewrite list_lookup_fmap.
  - rewrite Hi. simpl. by rewrite Hn.
  - rewrite Hj. simpl. by rewrite Hm.
Qed.

Lemma find_spec v path p :
  vfs_wf v -> normalize_path path = Some p ->
  match find v path with
  | Some i => exists n, live v !! i = Some n /\ nodes_ v !! i = Some n /\ node_text v n = Some p /\
                        names v !! p = Some (entry_of n)
  | None => names v !! p = None
  end.
Proof.
  intros Hwf E. unfold find. rewrite E. cbn [mbind option_bind].
  destruct (index_of _ _) as [i|] eqn:Ei.
  - apply index_of_Some in Ei as (n & Hn & Ht & _). exists n. destruct (live_lookup v i n Hn).
    split_and!; try done. apply names_lookup; [done|]. exists n. split; [|done].
    by apply list_elem_of_lookup_2 in Hn.
  - destruct (names v !! p) eqn:En; [|done]. apply names_lookup in En as (n & Hn & Ht & _); [|done].
    by destruct (index_of_None _ _ Ei n).
Qed.

Lemma find_is_Some v path p :
  vfs_wf v -> normalize_path path = Some p -> bool_decide (is_Some (find v path)) = bool_decide (is_Some (names v !! p)).
Proof.
  intros Hwf E. pose proof (find_spec v path p Hwf E) as H. apply bool_decide_ext.
  destruct (find v path) as [i|]; [destruct H as (n & _ & _ & _ & ->)|rewrite H]; split; intros [? ?]; done || by eexists.
Qed.

Lemma node_at_find v path p :
  vfs_wf v -> normalize_path path = Some p -> entry_of <$> node_at v (find v path) = names v !! p.
Proof.
  intros Hwf E. pose proof (find_spec v path p Hwf E) as H. unfold node_at.
  destruct (find v path) as [i|]; simpl; [|by rewrite H].
  destruct H as (n & _ & -> & _ & ->). done.
Qed.

(** ** Frames: slots in use that a change leaves alone *)

Record kept (v v' : Vfs) : Prop := {
  k_files : forall f file, ram_files_ v !! f = Some file -> rf_used file = true ->
    exists file', ram_files_ v' !! f = Some file' /\ rf_used file' = true /\ rf_path file' = rf_path file;
  k_dirs : forall d dir, ram_directories_ v !! d = Some dir -> rd_used dir = true ->
    ram_directories_ v' !! d = Some dir;
  k_links : forall l link, ram_links_ v !! l = Some link -> rl_used link = true ->
    ram_links_ v' !! l = Some link
}.

Lemma kept_text v v' n : node_ok v n -> kept v v' -> node_text v' n = node_text v n.
Proof.
  intros Hn Hk. pose proof (no_ptr v n Hn) as Hp. unfold ptr_ok in Hp. unfold node_text.
  destruct (nd_path n) as [[t|f|d|l]|] eqn:E; simpl; try done.
  - destruct (no_file v n Hn f Hp) as (_ & _ & _ & file & Hf & Hu).
    destruct (k_files v v' Hk f file Hf Hu) as (file' & -> & _ & Hpath). rewrite Hf. simpl. by rewrite Hpath.
  - destruct Hp as (_ & _ & dir & Hd & Hu). rewrite (k_dirs v v' Hk d dir Hd Hu). by rewrite Hd.
  - destruct Hp as (f & link & _ & Hl & Hu & _). rewrite (k_links v v' Hk l link Hl Hu). by rewrite Hl.
Qed.

Lemma kept_node_ok v v' n : node_ok v n -> kept v v' -> node_ok v' n.
Proof.
  intros Hn Hk. destruct (Hn) as [H1 H2 H3 H4]. split; try done.
  - unfold ptr_ok in *. destruct (nd_path n) as [[t|f|d|l]|] eqn:E; try done.
    + destruct H2 as (? & ? & dir & Hd & Hu). split_and!; try done. exists dir. split; [|done].
      by apply (k_dirs v v' Hk).
    + destruct H2 as (f & link & ? & Hl & Hu & ?). exists f, link. split_and!; try done.
      by apply (k_links v v' Hk).
  - by rewrite (kept_text v v').
  - intros f Hf. destruct (H4 f Hf) as (? & ? & ? & file & Hfile & Hu). split_and!; try done.
    destruct (k_files v v' Hk f file Hfile Hu) as (file' & ? & ? & _). by exists file'.
Qed.

Lemma kept_refl v : kept v v.
Proof. split; try done. intros f file Hf Hu. by exists file. Qed.

Lemma live_ok v n : vfs_wf v -> n ∈ live v -> node_ok v n.
Proof. intros Hwf Hn. pose proof (vw_live v Hwf) as HF. rewrite Forall_forall in HF. by apply HF. Qed.

Lemma find_kept v v' path :
  vfs_wf v -> live v' = live v -> kept v v' -> find v' path = find v path.
Proof.
  intros Hwf Hl Hk. unfold find. destruct (normalize_path path) as [p|]; [|done].
  cbn [mbind option_bind]. rewrite Hl. unfold index_of.
  assert (HF : Forall (fun n => node_text v' n = node_text v n) (live v)).
  { apply Forall_forall. intros n Hn. apply kept_text; [by apply live_ok|done]. }
  apply (f_equal (fmap fst)). clear Hl.
  induction HF as [|n l Hn HF IH]; [done|]. cbn [list_find]. rewrite Hn, IH. done.
Qed.

(** ** A name appended to the table *)

Lemma listing_same v v' l :
  (forall n, n ∈ l -> node_text v' n = node_text v n) -> listing v' l = listing v l.
Proof.
  intros H. apply list_fmap_ext. intros i n Hn. rewrite H; [done|]. by apply list_elem_of_lookup_2 in Hn.
Qed.

Lemma names_grow v v' x p :
  vfs_wf v -> live v' = live v ++ [x] -> (forall n, n ∈ live v -> node_text v' n = node_text v n) ->
  node_text v' x = Some p -> names v !! p = None ->
  names v' = <[p := entry_of x]> (names v) /\ NoDup (node_text v' <$> live v').
Proof.
  intros Hwf Hl Ht Hx Hp. unfold names in *. rewrite Hl. unfold listing at 1. rewrite fmap_app.
  fold (listing v' (live v)). rewrite (listing_same v v') by done. cbn [fmap list_fmap]. rewrite Hx.
  simpl default. apply not_elem_of_list_to_map in Hp. split; [by apply list_to_map_snoc|].
  rewrite fmap_app. cbn [fmap list_fmap]. rewrite Hx.
  assert (node_text v' <$> live v = node_text v <$> live v) as ->.
  { apply list_fmap_ext. intros i n Hn. apply Ht. by apply list_elem_of_lookup_2 in Hn. }
  apply NoDup_app. split_and!; [apply Hwf| |by apply NoDup_singleton].
  intros t Hin ->%list_elem_of_singleton. apply Hp.
  rewrite <- listing_keys in Hin by apply Hwf. by apply list_elem_of_fmap in Hin as (q & [= ->] & ?).
Qed.

Lemma grow_wf v v' x p :
  vfs_wf v -> kept v v' -> live v' = live v ++ [x] ->
  length (nodes_ v') = kMaxVfsNodes -> (count_ v' <= kMaxVfsNodes)%nat ->
  node_ok v' x -> node_text v' x = Some p -> names v !! p = None ->
  (forall f file, ram_files_ v' !! f = Some file -> rf_used file = true ->
     (nd_ram_file x = Some f /\ 0 <= rf_size file <= kMaxRamFileBytes) \/
     (ram_files_ v !! f = Some file)) ->
  (forall d dir, ram_directories_ v' !! d = Some dir -> rd_used dir = true ->
     nd_path x = Some (DirPath d) \/ ram_directories_ v !! d = Some dir) ->
  (forall l link, ram_links_ v' !! l = Some link -> rl_used link = true ->
     nd_path x = Some (LinkPath l) \/ ram_links_ v !! l = Some link) ->
  vfs_wf v' /\ names v' = <[p := entry_of x]> (names v).
Proof.
  intros Hwf Hk Hl Hn Hc Hx Ht Hp Hf Hd Hlk.
  assert (Hin : forall n, n ∈ live v -> n ∈ live v') by (intros n ?; rewrite Hl, elem_of_app; by left).
  assert (Hxin : x ∈ live v') by (rewrite Hl, elem_of_app; right; by apply list_elem_of_singleton).
  destruct (names_grow v v' x p) as [Hnames Hnd]; try done.
  { intros n Hin'. apply kept_text; [by apply live_ok|done]. }
  split; [|done]. split; try done.
  - rewrite Hl. apply Forall_app. split; [|by constructor].
    apply Forall_forall. intros n Hin'. apply kept_node_ok with v; [by apply live_ok|done].
  - intros f file H1 H2. destruct (Hf f file H1 H2) as [[H3 H4]|H3]; [by eauto|].
    destruct (vw_files v Hwf f file H3 H2) as (H4 & n & H5 & H6). eauto.
  - intros d dir H1 H2. destruct (Hd d dir H1 H2) as [H3|H3]; [by eauto|].
    destruct (vw_dirs v Hwf d dir H3 H2) as (n & H5 & H6). eauto.
  - intros l link H1 H2. destruct (Hlk l link H1 H2) as [H3|H3]; [by eauto|].
    destruct (vw_links v Hwf l link H3 H2) as (n & H5 & H6). eauto.
Qed.

(** The table with one more node, as [add_node] leaves it. *)
Definition push (x : Node) (v : Vfs) : Vfs :=
  v <| nodes_ := <[count_ v := x]> (nodes_ v) |> <| count_ := S (count_ v) |>.

(** [add_node] on a state whose tables already hold the new name. *)
Lemma add_node_spec v v1 x p :
  vfs_wf v -> nodes_ v1 = nodes_ v -> count_ v1 = count_ v -> kept v v1 ->
  node_text v1 x = Some p -> canonical p -> nd_type x <> Empty -> names v !! p = None ->
  add_node x v1 = if decide (room v) then (push x v1, true) else (v1, false).
Proof.
  intros Hwf Hn Hc Hk Ht Hcan Hty Hp.
  assert (Hl : live v1 = live v) by (unfold live; by rewrite Hn, Hc). unfold add_node. rewrite Ht.
  rewrite bool_decide_eq_false_2 by done. rewrite Hc, (find_kept v v1) by done.
  rewrite (find_is_Some v p p) by done. rewrite Hp. unfold room, kMaxVfsNodes.
  destruct (Nat.leb_spec 512 (count_ v)); [by rewrite decide_False by lia|].
  rewrite decide_True by lia. unfold push. cbn -[insert]. by rewrite Hc.
Qed.

Lemma push_wf v v1 x p :
  vfs_wf v -> nodes_ v1 = nodes_ v -> count_ v1 = count_ v -> kept v v1 -> room v ->
  node_ok v1 x -> node_text v1 x = Some p -> names v !! p = None ->
  (forall f file, ram_files_ v1 !! f = Some file -> rf_used file = true ->
     (nd_ram_file x = Some f /\ 0 <= rf_size file <= kMaxRamFileBytes) \/
     (ram_files_ v !! f = Some file)) ->
  (forall d dir, ram_directories_ v1 !! d = Some dir -> rd_used dir = true ->
     nd_path x = Some (DirPath d) \/ ram_directories_ v !! d = Some dir) ->
  (forall l link, ram_links_ v1 !! l = Some link -> rl_used link = true ->
     nd_path x = Some (LinkPath l) \/ ram_links_ v !! l = Some link) ->
  vfs_wf (push x v1) /\ names (push x v1) = <[p := entry_of x]> (names v).
Proof.
  intros Hwf Hn Hc Hk Hr Hx Ht Hp Hf Hd Hl. unfold room in Hr.
  apply grow_wf; try done.
  - destruct Hk as [K1 K2 K3]. by split.
  - unfold live, push. simpl. rewrite Hn, Hc. rewrite (take_S_r _ _ x).
    + by rewrite take_insert_ge.
    + apply list_lookup_insert_eq. by rewrite vw_nodes.
  - simpl. rewrite length_insert, Hn. by apply vw_nodes.
  - simpl. lia.
  - by destruct Hx.
Qed.

(** ** A name taken out of the table, or given another text *)

Lemma live_split v i x p :
  vfs_wf v -> live v !! i = Some x -> node_text v x = Some p ->
  names v !! p = Some (entry_of x) /\
  delete p (names v) = list_to_map (listing v (delete i (live v))) /\
  NoDup (Some p :: (node_text v <$> delete i (live v))) /\
  (forall n, n ∈ live v <-> n = x \/ n ∈ delete i (live v)).
Proof.
  intros Hwf Hi Hx. pose proof (delete_Permutation _ _ _ Hi) as HP.
  pose proof (vw_names v Hwf) as HN. rewrite HP in HN. cbn [fmap list_fmap] in HN. rewrite Hx in HN.
  assert (Hnames : names v = <[p := entry_of x]> (list_to_map (listing v (delete i (live v))))).
  { unfold names. rewrite <- (list_to_map_proper (listing v (x :: delete i (live v))) (listing v (live v))).
    - unfold listing. cbn [fmap list_fmap]. by rewrite Hx.
    - apply listing_nodup; [|cbn [fmap list_fmap]; by rewrite Hx].
      pose proof (vw_live v Hwf) as HF. by rewrite HP in HF.
    - unfold listing. by rewrite <- HP. }
  split_and!.
  - rewrite Hnames. by rewrite lookup_insert_eq.
  - rewrite Hnames. apply delete_insert_id, not_elem_of_list_to_map.
    intros Hin. apply NoDup_cons in HN as [HN _]. apply HN. rewrite <- listing_keys.
    + by apply list_elem_of_fmap_2.
    + pose proof (vw_live v Hwf) as HF. rewrite HP in HF. by apply Forall_cons in HF as [_ ?].
  - done.
  - intros n. rewrite HP at 1. apply elem_of_cons.
Qed.

(** The conditions on the slots, for a change that adds none. *)
Definition slots_named (v v' : Vfs) : Prop :=
  (forall f file, ram_files_ v' !! f = Some file -> rf_used file = true ->
     0 <= rf_size file <= kMaxRamFileBytes /\ exists n, n ∈ live v' /\ nd_ram_file n = Some f) /\
  (forall d dir, ram_directories_ v' !! d = Some dir -> rd_used dir = true ->
     exists n, n ∈ live v' /\ nd_path n = Some (DirPath d)) /\
  (forall l link, ram_links_ v' !! l = Some link -> rl_used link = true ->
     exists n, n ∈ live v' /\ nd_path n = Some (LinkPath l)).

Lemma shrink_wf v v' i x p :
  vfs_wf v -> live v !! i = Some x -> node_text v x = Some p -> live v' = delete i (live v) ->
  length (nodes_ v') = kMaxVfsNodes -> (count_ v' <= kMaxVfsNodes)%nat ->
  (forall n, n ∈ live v' -> node_ok v' n /\ node_text v' n = node_text v n) ->
  slots_named v v' ->
  vfs_wf v' /\ names v' = delete p (names v).
Proof.
  intros Hwf Hi Hx Hl Hn Hc Hok (H1 & H2 & H3).
  destruct (live_split v i x p Hwf Hi Hx) as (_ & Hdel & HND & _). rewrite <- Hl in Hdel, HND.
  split.
  - split; try done.
    + apply Forall_forall. intros n Hin. by apply Hok.
    + apply NoDup_cons in HND as [_ HND].
      assert (node_text v' <$> live v' = node_text v <$> live v') as ->; [|done].
      apply list_fmap_ext. intros j n Hj. apply Hok. by apply list_elem_of_lookup_2 in Hj.
  - rewrite Hdel. unfold names. f_equal. apply listing_same. intros n Hin. by apply Hok.
Qed.

Lemma move_wf v v' i x p q :
  vfs_wf v -> live v !! i = Some x -> node_text v x = Some p -> nodes_ v' = nodes_ v ->
  count_ v' = count_ v -> names v !! q = None -> node_text v' x = Some q -> canonical q ->
  (forall n, n ∈ live v -> n <> x -> node_text v' n = node_text v n) ->
  (forall n, n ∈ live v -> ptr_ok v' n /\ (forall f, nd_ram_file n = Some f ->
      exists file, ram_files_ v' !! f = Some file /\ rf_used file = true)) ->
  slots_named v v' ->
  vfs_wf v' /\ names v' = <[q := entry_of x]> (delete p (names v)).
Proof.
  intros Hwf Hi Hx Hnodes Hcount Hq Hxq Hcan Ht Hok (H1 & H2 & H3).
  assert (Hl : live v' = live v) by (unfold live; by rewrite Hnodes, Hcount).
  destruct (live_split v i x p Hwf Hi Hx) as (_ & Hdel & HND & Hin).
  assert (Hne : forall n, n ∈ delete i (live v) -> n <> x).
  { intros n Hn ->. apply NoDup_cons in HND as [HND _]. apply HND. rewrite <- Hx. by apply list_elem_of_fmap_2. }
  assert (Hrest : forall n, n ∈ delete i (live v) -> node_text v' n = node_text v n).
  { intros n Hn. apply Ht; [apply Hin; by right|by apply Hne]. }
  pose proof (delete_Permutation _ _ _ Hi) as HP.
  assert (HND' : NoDup (node_text v' <$> x :: delete i (live v))).
  { cbn [fmap list_fmap]. rewrite Hxq.
    assert (node_text v' <$> delete i (live v) = node_text v <$> delete i (live v)) as ->
      by (apply list_fmap_ext; intros j n Hj; apply Hrest; by apply list_elem_of_lookup_2 in Hj).
    apply NoDup_cons in HND as [_ HND]. apply NoDup_cons. split; [|done].
    intros (n & E & Hn)%list_elem_of_fmap. symmetry in E.
    assert (Hs : is_Some (names v !! q)); [|rewrite Hq in Hs; by destruct Hs].
    exists (entry_of n). apply names_lookup; [done|]. exists n. split; [apply Hin; by right|done]. }
  assert (Hwf' : vfs_wf v').
  { split; try done.
    - by rewrite Hnodes, vw_nodes.
    - rewrite Hcount. by apply vw_count.
    - rewrite Hl. apply Forall_forall. intros n Hn. destruct (live_ok v n Hwf Hn) as [O1 O2 O3 O4].
      destruct (Hok n Hn) as [P1 P2]. split; try done.
      + apply Hin in Hn as [->|Hn]; [by exists q|]. by rewrite Hrest.
      + intros f Hf. destruct (O4 f Hf) as (? & ? & ? & _). split_and!; try done. by apply P2.
    - by rewrite Hl, HP. }
  split; [done|]. rewrite Hdel. unfold names.
  rewrite <- (listing_same v v' (delete i (live v))) by done. rewrite Hl.
  rewrite <- (list_to_map_proper (M := gmap cstr) (listing v' (x :: delete i (live v))) (listing v' (live v))).
  - unfold listing. cbn [fmap list_fmap]. by rewrite Hxq.
  - apply listing_nodup; [|done]. rewrite <- HP, <- Hl. apply Hwf'.
  - unfold listing. by rewrite <- HP.
Qed.

(** ** Paths the operations accept *)

Lemma copy_checked_spec path p :
  copy_path_checked path = Some p ->
  exists c st, p = render (c :: st) /\ Forall canonical_component (c :: st) /\ len p < 64.
Proof.
  unfold copy_path_checked, normalize_path. intros (q & E & H)%bind_Some. case_decide as Hl; [done|].
  injection H as ->. destruct (normalize_canonical 64 path p E) as (_ & st & -> & Hst & Hlen).
  destruct st as [|c st]; [by destruct Hl|]. by exists c, st.
Qed.

Lemma copy_checked_canonical path p : copy_path_checked path = Some p -> canonical p.
Proof.
  intros (c & st & -> & Hst & Hl)%copy_checked_spec. by apply normalize_render.
Qed.

Lemma copy_checked_idem path p : copy_path_checked path = Some p -> copy_path_checked p = Some p.
Proof.
  intros H. pose proof (copy_checked_canonical path p H) as E. unfold copy_path_checked in *.
  rewrite E. apply bind_Some in H as (q & _ & H). simpl. case_decide as Hd; [done|].
  injection H as ->. by rewrite decide_False.
Qed.

Lemma copy_path_fits path p : copy_path_checked path = Some p -> copy_path p = p.
Proof.
  intros (c & st & _ & _ & Hl)%copy_checked_spec. unfold copy_path, len in *. apply take_ge. lia.
Qed.

Lemma checked_parent path p :
  copy_path_checked path = Some p -> exists up, parent_path p = Some up /\ canonical up.
Proof.
  intros (c & st & -> & Hst & Hl)%copy_checked_spec. exists (render st). rewrite parent_render by done.
  split; [done|]. apply Forall_cons in Hst as [_ Hst]. pose proof (render_mono c st).
  unfold canonical. apply normalize_render; [lia|done|lia].
Qed.

Lemma is_directory_names v up :
  vfs_wf v -> canonical up ->
  is_directory v (find v up) = true <-> exists e, names v !! up = Some e /\ e_type e = Directory.
Proof.
  intros Hwf Hc. unfold is_directory. rewrite <- (node_at_find v up up) by done.
  destruct (node_at v (find v up)) as [n|]; simpl.
  - rewrite bool_decide_eq_true. split; [intros; by eexists|]. by intros (e & [= <-] & ?).
  - split; [done|]. by intros (e & ? & _).
Qed.

(** The guards shared by the operations that make a name. *)
Lemma vacant_code v path p :
  vfs_wf v -> copy_path_checked path = Some p ->
  exists up, parent_path p = Some up /\
  (vacant (names v) path p <->
   bool_decide (is_Some (find v p)) = false /\ is_directory v (find v up) = true).
Proof.
  intros Hwf Hp. destruct (checked_parent path p Hp) as (up & Hup & Hc). exists up. split; [done|].
  rewrite (find_is_Some v p p), is_directory_names by (done || by eapply copy_checked_canonical).
  unfold vacant. rewrite bool_decide_eq_false, <- eq_None_not_Some. split.
  - intros (_ & H1 & up' & e & H2 & H3). rewrite Hup in H2. injection H2 as <-. by eauto.
  - intros (H1 & e & H2 & H3). split_and!; try done. by exists up, e.
Qed.

(** ** The outcome of an operation *)

Definition refines (op : fs_op) (v v' : Vfs) (b : bool) : Prop :=
  vfs_wf v' /\
  if b then fs_step op (abs v) (abs v')
  else names v' = names v /\ (forall g, inode v' g = inode v g) /\
       (ready op v -> forall s', ~ fs_step op (abs v) s').

Lemma same_tables v v' :
  nodes_ v' = nodes_ v -> count_ v' = count_ v -> ram_files_ v' = ram_files_ v ->
  ram_directories_ v' = ram_directories_ v -> ram_links_ v' = ram_links_ v ->
  (vfs_wf v -> vfs_wf v') /\ names v' = names v /\ (forall g, inode v' g = inode v g).
Proof.
  destruct v, v'; simpl. intros -> -> -> -> ->. split_and!; [|done|done].
  intros [H1 H2 H3 H4 H5 H6 H7]. split; try done.
  eapply Forall_impl; [exact H3|]. intros n Hn. by destruct Hn.
Qed.

Lemma refuse_from op v v0 (field : VfsStats -> Z) `{!Setter field} v' b :
  vfs_wf v0 /\ names v0 = names v /\ (forall g, inode v0 g = inode v g) ->
  (ready op v -> forall s', ~ fs_step op (abs v) s') ->
  reject field v0 = (v', b) -> refines op v v' b.
Proof.
  intros (Hwf & Hn & Hi) H [= <- <-].
  destruct (same_tables v0 (bump field v0)) as (H1 & H2 & H3); try done.
  split; [by apply H1|]. split_and!; [by rewrite H2|intros g; by rewrite H3|done].
Qed.

Lemma refuse op v (field : VfsStats -> Z) `{!Setter field} v' b :
  vfs_wf v -> (ready op v -> forall s', ~ fs_step op (abs v) s') ->
  reject field v = (v', b) -> refines op v v' b.
Proof. intros Hwf H. by apply refuse_from. Qed.

Lemma bumped op v v' (field : VfsStats -> Z) `{!Setter field} :
  vfs_wf v' /\ fs_step op (abs v) (abs v') -> refines op v (bump field v') true.
Proof.
  intros [Hwf Hs]. destruct (same_tables v' (bump field v')) as (H1 & _); try done.
  split; [by apply H1|]. exact Hs.
Qed.

(** Changes to slots that are not in use. *)
Lemma idle_wf v v' :
  vfs_wf v -> nodes_ v' = nodes_ v -> count_ v' = count_ v -> kept v v' ->
  (forall f file, ram_files_ v' !! f = Some file -> rf_used file = true -> ram_files_ v !! f = Some file) ->
  (forall d dir, ram_directories_ v' !! d = Some dir -> rd_used dir = true -> ram_directories_ v !! d = Some dir) ->
  (forall l link, ram_links_ v' !! l = Some link -> rl_used link = true -> ram_links_ v !! l = Some link) ->
  vfs_wf v' /\ names v' = names v.
Proof.
  intros Hwf Hn Hc Hk Hf Hd Hl. assert (Hlive : live v' = live v) by (unfold live; by rewrite Hn, Hc).
  assert (Ht : forall n, n ∈ live v -> node_text v' n = node_text v n)
    by (intros; apply kept_text; [by apply live_ok|done]).
  split; [split|].
  - by rewrite Hn, vw_nodes.
  - rewrite Hc. by apply vw_count.
  - rewrite Hlive. apply Forall_forall. intros n Hin. apply kept_node_ok with v; [by apply live_ok|done].
  - rewrite Hlive. rewrite (list_fmap_ext _ (node_text v) (live v)); [apply Hwf|].
    intros i n Hi. apply Ht. by apply list_elem_of_lookup_2 in Hi.
  - intros f file H1 H2. rewrite Hlive. apply (vw_files v Hwf); auto.
  - intros d dir H1 H2. rewrite Hlive. apply (vw_dirs v Hwf) with dir; auto.
  - intros l link H1 H2. rewrite Hlive. apply (vw_links v Hwf) with link; auto.
  - unfold names. rewrite Hlive. f_equal. by apply listing_same.
Qed.

Lemma insert_slot {A} (used : A -> bool) (t : list A) i (old new : A) :
  t !! i = Some old -> used old = false ->
  (forall j x, t !! j = Some x -> used x = true -> <[i := new]> t !! j = Some x) /\
  (forall j x, <[i := new]> t !! j = Some x -> (j = i /\ x = new) \/ t !! j = Some x).
Proof.
  intros Hi Hu. split.
  - intros j x Hj Hx. rewrite list_lookup_insert_ne; [done|]. intros ->. congruence.
  - intros j x Hj. apply list_lookup_insert_Some in Hj as [(? & ? & _)|[_ ?]]; [left|right]; done.
Qed.

Lemma kept_by_slots v v' :
  (forall f file, ram_files_ v !! f = Some file -> rf_used file = true -> ram_files_ v' !! f = Some file) ->
  (forall d dir, ram_directories_ v !! d = Some dir -> rd_used dir = true -> ram_directories_ v' !! d = Some dir) ->
  (forall l link, ram_links_ v !! l = Some link -> rl_used link = true -> ram_links_ v' !! l = Some link) ->
  kept v v'.
Proof. intros H1 H2 H3. split; try done. intros f file Hf Hu. exists file. auto. Qed.

Lemma inode_insert v f file : 
  (f < length (ram_files_ v))%nat -> forall g,
  inode (v <| ram_files_ ::= <[f := file]> |>) g =
  if decide (g = f) then (if rf_used file then Some (bytes_of file) else None) else inode v g.
Proof.
  intros Hf g. unfold inode. simpl. case_decide as E.
  - subst g. by rewrite list_lookup_insert_eq.
  - by rewrite list_lookup_insert_ne.
Qed.

(** A slot filled and, the node table being full, emptied again. *)
Lemma undo_file v f old file :
  vfs_wf v -> ram_files_ v !! f = Some old -> rf_used old = false ->
  let v' := v <| ram_files_ ::= <[f := file]> |> <| ram_files_ ::= <[f := RamFile0]> |> in
  vfs_wf v' /\ names v' = names v /\ (forall g, inode v' g = inode v g).
Proof.
  intros Hwf Hold Hu v'.
  assert (E0 : ram_files_ v' = <[f := RamFile0]> (ram_files_ v)) by apply list_insert_insert_eq.
  destruct (insert_slot rf_used (ram_files_ v) f old RamFile0 Hold Hu) as [T1 T2].
  destruct (idle_wf v v') as [W N]; try done.
  - apply kept_by_slots; try done. by rewrite E0.
  - rewrite E0. intros g file' H1 H2. by destruct (T2 g file' H1) as [[-> ->]|].
  - split_and!; try done. intros g. unfold inode at 1. rewrite E0.
    change (inode (v <| ram_files_ ::= <[f := RamFile0]> |>) g = inode v g).
    rewrite inode_insert by (by eapply lookup_lt_Some). case_decide as Eg; [|done]. subst g. unfold inode.
    rewrite Hold. simpl. by rewrite Hu.
Qed.

Lemma undo_dir v d old dir :
  vfs_wf v -> ram_directories_ v !! d = Some old -> rd_used old = false ->
  let v' := v <| ram_directories_ ::= <[d := dir]> |> <| ram_directories_ ::= <[d := RamDirectory0]> |> in
  vfs_wf v' /\ names v' = names v.
Proof.
  intros Hwf Hold Hu v'.
  assert (E0 : ram_directories_ v' = <[d := RamDirectory0]> (ram_directories_ v)) by apply list_insert_insert_eq.
  destruct (insert_slot rd_used (ram_directories_ v) d old RamDirectory0 Hold Hu) as [T1 T2].
  apply idle_wf; try done.
  - apply kept_by_slots; try done. by rewrite E0.
  - rewrite E0. intros g file' H1 H2. by destruct (T2 g file' H1) as [[-> ->]|].
Qed.

Lemma undo_link v l old link :
  vfs_wf v -> ram_links_ v !! l = Some old -> rl_used old = false ->
  let v' := v <| ram_links_ ::= <[l := link]> |> <| ram_links_ ::= <[l := RamLink0]> |> in
  vfs_wf v' /\ names v' = names v.
Proof.
  intros Hwf Hold Hu v'.
  assert (E0 : ram_links_ v' = <[l := RamLink0]> (ram_links_ v)) by apply list_insert_insert_eq.
  destruct (insert_slot rl_used (ram_links_ v) l old RamLink0 Hold Hu) as [T1 T2].
  apply idle_wf; try done.
  - apply kept_by_slots; try done. by rewrite E0.
  - rewrite E0. intros g file' H1 H2. by destruct (T2 g file' H1) as [[-> ->]|].
Qed.

(** The guards of [create_ram_file] and [create_ram_directory]. *)
Lemma guarded {A} v path (bad : A) (k : cstr -> A) :
  vfs_wf v ->
  let code := match copy_path_checked path with
              | None => bad
              | Some p => if bool_decide (is_Some (find v p)) then bad else
                          match parent_path p with
                          | None => bad
                          | Some up => if negb (is_directory v (find v up)) then bad else k p
                          end
              end in
  (code = bad /\ forall p, ~ vacant (names v) path p) \/
  (exists p, code = k p /\ vacant (names v) path p).
Proof.
  intros Hwf. destruct (copy_path_checked path) as [p|] eqn:Ep.
  2: { left. split; [done|]. intros p (? & _). congruence. }
  assert (Hp : forall q, vacant (names v) path q -> q = p) by (intros q (? & _); congruence).
  destruct (vacant_code v path p Hwf Ep) as (up & -> & Hvac).
  destruct (bool_decide (is_Some (find v p))).
  { left. split; [done|]. intros q Hq. pose proof (Hp q Hq) as ->. apply Hvac in Hq as [? _]. done. }
  destruct (is_directory v (find v up)); cbn [negb].
  - right. exists p. split; [done|]. by apply Hvac.
  - left. split; [done|]. intros q Hq. pose proof (Hp q Hq) as ->. apply Hvac in Hq as [_ ?]. done.
Qed.

Lemma create_refines `{Kernel} path v v' b :
  vfs_wf v -> create_ram_file path v = (v', b) -> refines (CreateFile path) v v' b.
Proof.
  intros Hwf. unfold create_ram_file.
  destruct (guarded v path (reject ram_file_create_rejects v) (fun p => create_file_slot p v) Hwf)
    as [[E Hno]|(p & E & V)]; rewrite E; clear E.
  { apply refuse; [done|]. intros _ s' Hs. inversion Hs; subst. by eapply Hno. }
  unfold create_file_slot.
  destruct (index_of _ _) as [f|] eqn:Ef.
  2: { apply refuse; [done|]. intros (_ & f & file & Hf & Hu). exfalso.
       apply (index_of_None _ _ Ef file); [by apply list_elem_of_lookup_2 in Hf|done]. }
  pose proof (copy_checked_canonical path p (proj1 V)) as Hcan. destruct (V) as (Ep & Hnone & _).
  rewrite (copy_checked_idem path p) by done. apply index_of_Some in Ef as (old & Hold & Hu & _).
  pose proof (lookup_lt_Some _ _ _ Hold) as Hlt.
  set (file := mkRamFile true p (sa_const 0) 0).
  set (x := mkNode (Some (FilePath f)) MemoryFile (ram_data_addr f) 0 true false (Some f) NoDevice NoVirtual).
  set (v1 := v <| ram_files_ ::= <[f := file]> |>).
  destruct (insert_slot rf_used (ram_files_ v) f old file Hold Hu) as [S1 S2].
  assert (Hk : kept v v1) by (by apply kept_by_slots).
  assert (Ht : node_text v1 x = Some p) by (cbn; by rewrite list_lookup_insert_eq).
  rewrite (add_node_spec v v1 x p) by done. case_decide as Hroom.
  2: { apply refuse_from; [by eapply undo_file|by intros [Hr _]]. }
  intros [= <- <-]. apply bumped. destruct (push_wf v v1 x p) as [W N]; try done.
  - split; try done; [by exists p|]. intros g [= <-]. split_and!; try done. exists file.
    split; [|done]. by apply list_lookup_insert_eq.
  - intros g file' H1 H2. destruct (S2 g file' H1) as [[-> ->]|]; [left|by right].
    split; [done|]. unfold file. simpl. unfold kMaxRamFileBytes. lia.
  - by right.
  - by right.
  - split; [done|]. apply step_create with p f; try done.
    + simpl. unfold inode. rewrite Hold. simpl. by rewrite Hu.
    + intros g. exact (inode_insert v f file Hlt g).
Qed.

Lemma mkdir_refines path v v' b :
  vfs_wf v -> create_ram_directory path v = (v', b) -> refines (CreateDirectory path) v v' b.
Proof.
  intros Hwf. unfold create_ram_directory.
  destruct (guarded v path (reject ram_directory_create_rejects v) (fun p => create_directory_slot p v) Hwf)
    as [[E Hno]|(p & E & V)]; rewrite E; clear E.
  { apply refuse; [done|]. intros _ s' Hs. inversion Hs; subst. by eapply Hno. }
  unfold create_directory_slot.
  destruct (index_of _ _) as [d|] eqn:Ed.
  2: { apply refuse; [done|]. intros (_ & f & file & Hf & Hu). exfalso.
       apply (index_of_None _ _ Ed file); [by apply list_elem_of_lookup_2 in Hf|done]. }
  pose proof (copy_checked_canonical path p (proj1 V)) as Hcan. destruct (V) as (Ep & Hnone & _).
  rewrite (copy_checked_idem path p) by done. apply index_of_Some in Ed as (old & Hold & Hu & _).
  pose proof (lookup_lt_Some _ _ _ Hold) as Hlt.
  set (dir := mkRamDirectory true p).
  set (x := mkNode (Some (DirPath d)) Directory 0 0 true false None NoDevice NoVirtual).
  set (v1 := v <| ram_directories_ ::= <[d := dir]> |>).
  destruct (insert_slot rd_used (ram_directories_ v) d old dir Hold Hu) as [S1 S2].
  assert (Hk : kept v v1) by (by apply kept_by_slots).
  assert (Ht : node_text v1 x = Some p) by (cbn; by rewrite list_lookup_insert_eq).
  rewrite (add_node_spec v v1 x p) by done. case_decide as Hroom.
  2: { apply refuse_from; [|by intros [Hr _]].
       destruct (undo_dir v d old dir) as [W N]; [done..|]. by split_and!. }
  intros [= <- <-]. apply bumped. destruct (push_wf v v1 x p) as [W N]; try done.
  - split; try done; [|by exists p]. split_and!; try done. exists dir.
    split; [|done]. by apply list_lookup_insert_eq.
  - by right.
  - intros g dir' H1 H2. destruct (S2 g dir' H1) as [[-> ->]|]; [by left|by right].
  - by right.
  - split; [done|]. by apply step_mkdir with p.
Qed.

(** ** Operations on existing files *)

Lemma writable_ram_file_names v path p f :
  vfs_wf v -> normalize_path path = Some p ->
  writable_ram_file v (find v p) = Some f <-> ram_file_at (names v) path p f.
Proof.
  intros Hwf Hp. pose proof (normalize_is_canonical path p Hp) as Hc. unfold ram_file_at, writable_ram_file.
  rewrite <- (node_at_find v p p) by done. destruct (node_at v (find v p)) as [n|]; simpl.
  2: { split; [done|]. by intros (_ & e & ? & _). }
  split.
  - destruct (_ || _) eqn:Eb; [done|]. bsimp. rewrite bool_decide_eq_false in H.
    intros ?. split; [done|]. eexists. split; [done|]. split_and!; try done. by apply dec_stable.
  - intros (_ & e & [= <-] & H1 & H2 & H3 & H4). simpl in *.
    by rewrite H1, H2, H3.
Qed.

Lemma ram_file_used v path p f :
  vfs_wf v -> ram_file_at (names v) path p f ->
  exists file, ram_files_ v !! f = Some file /\ rf_used file = true.
Proof.
  intros Hwf (_ & e & He & _ & _ & _ & Hf). apply names_lookup in He as (n & Hn & _ & <-); [|done].
  by destruct (no_file v n (live_ok v n Hwf Hn) f Hf) as (_ & _ & _ & ?).
Qed.

Lemma link_slot_refines `{Kernel} existing_path new_path p q f v v' b :
  vfs_wf v -> ram_file_at (names v) existing_path p f -> vacant (names v) new_path q ->
  create_link_slot q f v = (v', b) -> refines (LinkFile existing_path new_path) v v' b.
Proof.
  intros Hwf Ef V. destruct (V) as (Eq & Hnone & _).
  destruct (ram_file_used v _ _ _ Hwf Ef) as (file & Hfile & Hfu).
  pose proof (copy_checked_canonical new_path q Eq) as Hcan.
  unfold create_link_slot. destruct (index_of _ _) as [l|] eqn:El.
  2: { apply refuse; [done|]. intros (_ & l & link & Hl & Hu). exfalso.
       apply (index_of_None _ _ El link); [by apply list_elem_of_lookup_2 in Hl|done]. }
  apply index_of_Some in El as (old & Hold & Hu & _). pose proof (lookup_lt_Some _ _ _ Hold) as Hlt.
  rewrite (copy_path_fits new_path q) by done. rewrite Hfile. cbn [from_option].
  set (link := mkRamLink true q (Some f)).
  set (x := mkNode (Some (LinkPath l)) MemoryFile _ _ true false (Some f) NoDevice NoVirtual).
  set (v1 := v <| ram_links_ ::= <[l := link]> |>).
  destruct (insert_slot rl_used (ram_links_ v) l old link Hold Hu) as [S1 S2].
  assert (Hk : kept v v1) by (by apply kept_by_slots).
  assert (Ht : node_text v1 x = Some q) by (cbn; by rewrite list_lookup_insert_eq).
  rewrite (add_node_spec v v1 x q) by done. case_decide as Hroom.
  2: { apply refuse_from; [|by intros [Hr _]].
       destruct (undo_link v l old link) as [W N]; [done..|]. by split_and!. }
  intros [= <- <-]. apply bumped. destruct (push_wf v v1 x q) as [W N]; try done.
  - split; try done; [|by exists q|].
    + exists f, link. split_and!; try done. by apply list_lookup_insert_eq.
    + intros g [= <-]. split_and!; try done. by exists file.
  - by right.
  - by right.
  - intros g link' H1 H2. destruct (S2 g link' H1) as [[-> ->]|]; [by left|by right].
  - split; [done|]. by apply step_link with p q f.
Qed.

Lemma link_refines `{Kernel} existing_path new_path v v' b :
  vfs_wf v -> link_ram_file existing_path new_path v = (v', b) ->
  refines (LinkFile existing_path new_path) v v' b.
Proof.
  intros Hwf. unfold link_ram_file. destruct (normalize_path existing_path) as [p|] eqn:Ep.
  2: { apply refuse; [done|]. intros _ s' Hs. inversion Hs as [|? ? ? ? ? ? ? (? & _)| | | | |]; subst. congruence. }
  destruct (copy_path_checked new_path) as [q|] eqn:Eq.
  2: { apply refuse; [done|]. intros _ s' Hs. inversion Hs as [|? ? ? ? ? ? ? ? (? & _)| | | | |]; subst. congruence. }
  destruct (vacant_code v new_path q Hwf Eq) as (up & Eup & Hvac). rewrite Eup.
  assert (Hno : (forall f, ram_file_at (names v) existing_path p f -> ~ vacant (names v) new_path q) ->
                forall s', ~ fs_step (LinkFile existing_path new_path) (abs v) s').
  { intros Hn s' Hs. inversion Hs as [|? ? p' q' ? ? ? HR HV| | | | |]; subst.
    assert (p' = p) as -> by (destruct HR; congruence). assert (q' = q) as -> by (destruct HV; congruence).
    by eapply Hn. }
  destruct (bool_decide (is_Some (find v q))) eqn:E1.
  { apply refuse; [done|]. intros _. apply Hno. by intros f _ []%Hvac. }
  destruct (writable_ram_file v (find v p)) as [f|] eqn:Ef.
  2: { apply refuse; [done|]. intros _. apply Hno. intros f HR%writable_ram_file_names; [congruence|done..]. }
  destruct (is_directory v (find v up)) eqn:E2; cbn [negb].
  2: { apply refuse; [done|]. intros _. apply Hno. by intros g _ []%Hvac. }
  assert (V : vacant (names v) new_path q) by (by apply Hvac). clear Hno Hvac.
  apply (writable_ram_file_names v existing_path) in Ef; [|done..]. by apply link_slot_refines with p.
Qed.

(** ** Removal *)

Lemma remove_node_live v i :
  length (nodes_ v) = kMaxVfsNodes -> (count_ v <= kMaxVfsNodes)%nat -> (i < count_ v)%nat ->
  live (remove_node i v) = delete i (live v) /\ length (nodes_ (remove_node i v)) = kMaxVfsNodes /\
  (count_ (remove_node i v) <= kMaxVfsNodes)%nat.
Proof.
  intros HL HC Hi. unfold live, remove_node, kMaxVfsNodes in *. simpl. fold (live v). unfold live. split_and!.
  - rewrite delete_take_drop, take_take, Nat.min_l by lia. rewrite app_assoc. apply take_app_length'.
    rewrite length_app, length_take, length_drop, length_take. lia.
  - rewrite !length_app, length_take, length_drop, length_take. simpl. rewrite length_drop. lia.
  - lia.
Qed.

Lemma node_frame v v' n :
  node_ok v n -> (forall f, nd_ram_file n = Some f -> ram_files_ v' !! f = ram_files_ v !! f) ->
  (forall d, nd_path n = Some (DirPath d) -> ram_directories_ v' !! d = ram_directories_ v !! d) ->
  (forall l, nd_path n = Some (LinkPath l) -> ram_links_ v' !! l = ram_links_ v !! l) ->
  node_ok v' n /\ node_text v' n = node_text v n.
Proof.
  intros [H1 H2 H3 H4] Hf Hd Hl.
  assert (Ht : node_text v' n = node_text v n).
  { unfold node_text, ptr_ok in *. destruct (nd_path n) as [[t|f|d|l]|]; simpl; try done.
    - by rewrite Hf.
    - by rewrite Hd.
    - by rewrite Hl. }
  split; [|done]. split; try done.
  - unfold ptr_ok in *. destruct (nd_path n) as [[t|f|d|l]|]; try done.
    + by rewrite Hd.
    + by rewrite Hl.
  - by rewrite Ht.
  - intros f E. rewrite Hf by done. by apply H4.
Qed.

(** The record that lends a node its name is the one with that path. *)
Lemma link_owner v i x p l link :
  vfs_wf v -> live v !! i = Some x -> node_text v x = Some p ->
  ram_links_ v !! l = Some link -> rl_used link = true ->
  rl_path link = p <-> nd_path x = Some (LinkPath l).
Proof.
  intros Hwf Hi Hx Hl Hu. split.
  - intros Hp. destruct (vw_links v Hwf l link Hl Hu) as (n & Hn & Hptr).
    apply list_elem_of_lookup in Hn as (j & Hj).
    assert (node_text v n = Some p) by (unfold node_text; rewrite Hptr; simpl; rewrite Hl; simpl; by rewrite Hp).
    assert (i = j) as <- by (by eapply live_inj). congruence.
  - intros Hptr. unfold node_text in Hx. rewrite Hptr in Hx. simpl in Hx. rewrite Hl in Hx.
    by injection Hx.
Qed.

Lemma dir_owner v i x p d dir :
  vfs_wf v -> live v !! i = Some x -> node_text v x = Some p ->
  ram_directories_ v !! d = Some dir -> rd_used dir = true ->
  rd_path dir = p <-> nd_path x = Some (DirPath d).
Proof.
  intros Hwf Hi Hx Hl Hu. split.
  - intros Hp. destruct (vw_dirs v Hwf d dir Hl Hu) as (n & Hn & Hptr).
    apply list_elem_of_lookup in Hn as (j & Hj).
    assert (node_text v n = Some p) by (unfold node_text; rewrite Hptr; simpl; rewrite Hl; simpl; by rewrite Hp).
    assert (i = j) as <- by (by eapply live_inj). congruence.
  - intros Hptr. unfold node_text in Hx. rewrite Hptr in Hx. simpl in Hx. rewrite Hl in Hx.
    by injection Hx.
Qed.

(** Clearing the slot that lends its name to the node at hand, if there is one:
    the other slots keep their contents. *)
Lemma clear_owner {A} (used : A -> bool) (text : A -> cstr) (t : list A) (zero : A) p (own : nat -> Prop) :
  used zero = false -> (forall j k, own j -> own k -> j = k) ->
  (forall j a, t !! j = Some a -> used a = true -> text a = p <-> own j) ->
  let t' := match index_of (fun a => used a = true /\ text a = p) t with
            | Some j => <[j := zero]> t | None => t end in
  (forall j, ~ own j -> t' !! j = t !! j) /\
  (forall j a, t' !! j = Some a -> used a = true -> t !! j = Some a /\ ~ own j).
Proof.
  intros Hz Huniq Hown. destruct (index_of _ _) as [k|] eqn:Ek.
  - apply index_of_Some in Ek as (b & Hb & (Hbu & Hbt) & _). apply (Hown k b Hb Hbu) in Hbt. split.
    + intros j Hj. apply list_lookup_insert_ne. by intros ->.
    + intros j a Hj Ha. apply list_lookup_insert_Some in Hj as [(_ & <- & _)|[Hne Hj]]; [congruence|].
      split; [done|]. intros Ho. by apply Hne, Huniq.
  - split; [done|]. intros j a Hj Ha. split; [done|]. intros Ho. apply (Hown j a) in Ho; [|done..].
    apply (index_of_None _ _ Ek a); [by apply list_elem_of_lookup_2 in Hj|done].
Qed.

(** Facts about the node a deletion removes and those it keeps. *)
Lemma others_kept v i x p n :
  vfs_wf v -> live v !! i = Some x -> node_text v x = Some p -> n ∈ delete i (live v) ->
  node_ok v n /\ n ∈ live v /\ (forall q, nd_path n = Some q -> nd_path x <> Some q).
Proof.
  intros Hwf Hi Hx Hn. destruct (live_split v i x p Hwf Hi Hx) as (_ & _ & HND & Hin).
  assert (Hnl : n ∈ live v) by (apply Hin; by right). split_and!; [by apply live_ok|done|].
  intros q E1 E2. apply NoDup_cons in HND as [HND _]. apply HND, list_elem_of_fmap. exists n.
  split; [|done]. unfold node_text in *. rewrite E1. by rewrite E2 in Hx.
Qed.

Lemma forget_link_spec v i x p :
  vfs_wf v -> live v !! i = Some x -> node_text v x = Some p ->
  (forall l, nd_path x <> Some (LinkPath l) -> ram_links_ (forget_link p v) !! l = ram_links_ v !! l) /\
  (forall l link, ram_links_ (forget_link p v) !! l = Some link -> rl_used link = true ->
     ram_links_ v !! l = Some link /\ nd_path x <> Some (LinkPath l)).
Proof.
  intros Hwf Hi Hx. apply (clear_owner rl_used rl_path (ram_links_ v) RamLink0 p
    (fun l => nd_path x = Some (LinkPath l))); [done|congruence|].
  intros j link Hj Hu. by eapply link_owner.
Qed.

Lemma forget_directory_spec v i x p :
  vfs_wf v -> live v !! i = Some x -> node_text v x = Some p ->
  (forall d, nd_path x <> Some (DirPath d) -> ram_directories_ (forget_directory p v) !! d = ram_directories_ v !! d) /\
  (forall d dir, ram_directories_ (forget_directory p v) !! d = Some dir -> rd_used dir = true ->
     ram_directories_ v !! d = Some dir /\ nd_path x <> Some (DirPath d)).
Proof.
  intros Hwf Hi Hx. apply (clear_owner rd_used rd_path (ram_directories_ v) RamDirectory0 p
    (fun d => nd_path x = Some (DirPath d))); [done|congruence|].
  intros j dir Hj Hu. by eapply dir_owner.
Qed.

(** Membership in what is left. *)
Lemma left_over v i x p n :
  vfs_wf v -> live v !! i = Some x -> node_text v x = Some p -> n ∈ live v -> n <> x ->
  n ∈ delete i (live v).
Proof.
  intros Hwf Hi Hx Hn Hne. destruct (live_split v i x p Hwf Hi Hx) as (_ & _ & _ & Hin).
  by apply Hin in Hn as [|].
Qed.

Lemma still_linked_iff v i x p f :
  vfs_wf v -> live v !! i = Some x -> node_text v x = Some p ->
  existsb (fun n => bool_decide (nd_type n = MemoryFile /\ nd_ram_file n = Some f)) (delete i (live v)) = true <->
  exists n, n ∈ delete i (live v) /\ nd_ram_file n = Some f.
Proof.
  intros Hwf Hi Hx. rewrite existsb_exists. split; intros (n & Hn & H).
  - apply bool_decide_eq_true in H as [_ ?]. exists n. by rewrite list_elem_of_In.
  - exists n. split; [by apply list_elem_of_In|]. apply bool_decide_eq_true.
    destruct (others_kept v i x p n) as (Hok & _); try done. by destruct (no_file v n Hok f H).
Qed.

Lemma removal_wf v v' i x p :
  vfs_wf v -> live v !! i = Some x -> node_text v x = Some p -> live v' = delete i (live v) ->
  length (nodes_ v') = kMaxVfsNodes -> (count_ v' <= kMaxVfsNodes)%nat ->
  (forall n f, n ∈ delete i (live v) -> nd_ram_file n = Some f -> ram_files_ v' !! f = ram_files_ v !! f) ->
  (forall f file, ram_files_ v' !! f = Some file -> rf_used file = true ->
     ram_files_ v !! f = Some file /\ exists n, n ∈ delete i (live v) /\ nd_ram_file n = Some f) ->
  (forall d, nd_path x <> Some (DirPath d) -> ram_directories_ v' !! d = ram_directories_ v !! d) ->
  (forall d dir, ram_directories_ v' !! d = Some dir -> rd_used dir = true ->
     ram_directories_ v !! d = Some dir /\ nd_path x <> Some (DirPath d)) ->
  (forall l, nd_path x <> Some (LinkPath l) -> ram_links_ v' !! l = ram_links_ v !! l) ->
  (forall l link, ram_links_ v' !! l = Some link -> rl_used link = true ->
     ram_links_ v !! l = Some link /\ nd_path x <> Some (LinkPath l)) ->
  vfs_wf v' /\ names v' = delete p (names v).
Proof.
  intros Hwf Hi Hx Hl HL HC F1 F2 D1 D2 K1 K2. apply shrink_wf with i x; try done.
  - rewrite Hl. intros n Hn. destruct (others_kept v i x p n) as (Hok & _ & Hptr); try done.
    apply node_frame; [done|..]; eauto.
  - split_and!; rewrite Hl.
    + intros f file H1 H2. destruct (F2 f file H1 H2) as [H3 H4]. split; [|done].
      by apply (vw_files v Hwf f file).
    + intros d dir H1 H2. destruct (D2 d dir H1 H2) as [H3 H4].
      destruct (vw_dirs v Hwf d dir H3 H2) as (n & Hn & Hptr). exists n. split; [|done].
      apply (left_over v i x p); try done. by intros ->.
    + intros l link H1 H2. destruct (K2 l link H1 H2) as [H3 H4].
      destruct (vw_links v Hwf l link H3 H2) as (n & Hn & Hptr). exists n. split; [|done].
      apply (left_over v i x p); try done. by intros ->.
Qed.

(** The tables after [release_file]. *)
Lemma release_file_spec v v2 i x p f :
  vfs_wf v -> live v !! i = Some x -> node_text v x = Some p -> nd_ram_file x = Some f ->
  live v2 = delete i (live v) -> ram_files_ v2 = ram_files_ v ->
  let v' := release_file f v2 in
  (forall n g, n ∈ delete i (live v) -> nd_ram_file n = Some g -> ram_files_ v' !! g = ram_files_ v !! g) /\
  (forall g file, ram_files_ v' !! g = Some file -> rf_used file = true ->
     ram_files_ v !! g = Some file /\ exists n, n ∈ delete i (live v) /\ nd_ram_file n = Some g) /\
  (forall g, inode v' g = inode v g \/ (g = f /\ inode v' g = None)) /\
  (inode v' f = inode v f <-> exists n, n ∈ delete i (live v) /\ nd_ram_file n = Some f).
Proof.
  intros Hwf Hi Hx Hf Hl Hfiles v'. pose proof (still_linked_iff v i x p f Hwf Hi Hx) as Hstill.
  destruct (no_file v x (live_ok v x Hwf (list_elem_of_lookup_2 _ _ _ Hi)) f Hf) as (_ & _ & _ & file & Hfile & Hu).
  pose proof (lookup_lt_Some _ _ _ Hfile) as Hlt.
  assert (Hother : forall g old, ram_files_ v !! g = Some old -> rf_used old = true -> g <> f ->
            exists n, n ∈ delete i (live v) /\ nd_ram_file n = Some g).
  { intros g old Hg Hgu Hne. destruct (vw_files v Hwf g old Hg Hgu) as (_ & n & Hn & Hng).
    exists n. split; [|done]. apply (left_over v i x p); try done. intros ->. congruence. }
  unfold v', release_file. rewrite Hl. destruct (existsb _ _).
  - destruct (proj1 Hstill eq_refl) as (n & Hn & Hnf). rewrite Hfiles. unfold inode. rewrite Hfiles.
    split_and!; [done| |by left|by split; eauto]. intros g old Hg Hgu. split; [done|].
    destruct (decide (g = f)) as [->|]; [by exists n|]. by eapply Hother.
  - assert (Hno : ~ exists n, n ∈ delete i (live v) /\ nd_ram_file n = Some f)
      by (intros Hn; by apply Hstill in Hn).
    change (ram_files_ (v2 <| ram_files_ ::= <[f := RamFile0]> |>)) with (<[f := RamFile0]> (ram_files_ v2)).
    assert (Hin : forall g, inode (v2 <| ram_files_ ::= <[f := RamFile0]> |>) g =
              if decide (g = f) then None else inode v g)
      by (intros g; rewrite inode_insert by (by rewrite Hfiles); unfold inode; by rewrite Hfiles).
    rewrite Hfiles. split_and!.
    + intros n g Hn Hng. apply list_lookup_insert_ne. intros <-. apply Hno. by exists n.
    + intros g old Hg Hgu. apply list_lookup_insert_Some in Hg as [(_ & <- & _)|[Hne Hg]]; [done|].
      split; [done|]. by eapply Hother.
    + intros g. rewrite Hin. case_decide; [by right|by left].
    + rewrite Hin, decide_True by done. split; [|done]. unfold inode. rewrite Hfile. simpl. by rewrite Hu.
Qed.

Lemma unlink_wf v i x p f :
  vfs_wf v -> live v !! i = Some x -> node_text v x = Some p -> nd_ram_file x = Some f ->
  let v' := release_file f (remove_node i (forget_link p v)) in
  vfs_wf v' /\ names v' = delete p (names v) /\
  update_inode (abs v) (abs v') f
    (if decide (map_Exists (fun _ e => e_file e = Some f) (names v')) then inode v f else None).
Proof.
  intros Hwf Hi Hx Hf v'. pose proof (live_lookup v i x Hi) as [_ Hic].
  set (v2 := remove_node i (forget_link p v)).
  destruct (remove_node_live (forget_link p v) i (vw_nodes v Hwf) (vw_count v Hwf) Hic) as (L1 & L2 & L3).
  assert (Hl : live v' = delete i (live v)) by (unfold v', release_file; by destruct (existsb _ _)).
  destruct (forget_link_spec v i x p Hwf Hi Hx) as [K1 K2].
  destruct (release_file_spec v v2 i x p f) as (F1 & F2 & N1 & N2); try done.
  assert (Hlk : ram_links_ v' = ram_links_ (forget_link p v)) by (unfold v', release_file; by destruct (existsb _ _)).
  assert (Hd : ram_directories_ v' = ram_directories_ v) by (unfold v', release_file; by destruct (existsb _ _)).
  assert (Hptr : forall d, nd_path x <> Some (DirPath d)).
  { intros d E. pose proof (no_ptr v x (live_ok v x Hwf (list_elem_of_lookup_2 _ _ _ Hi))) as HP.
    unfold ptr_ok in HP. rewrite E in HP. destruct HP as (HP & _). congruence. }
  destruct (removal_wf v v' i x p) as [W N]; try done.
  - unfold v', release_file. by destruct (existsb _ _).
  - unfold v', release_file. by destruct (existsb _ _).
  - intros d _. by rewrite Hd.
  - rewrite Hd. done.
  - by rewrite Hlk.
  - by rewrite Hlk.
  - split_and!; try done. intros g. simpl.
    assert (Hex : map_Exists (fun _ e => e_file e = Some f) (names v') <->
              exists n, n ∈ delete i (live v) /\ nd_ram_file n = Some f).
    { split.
      - intros (q & e & Hq & He). apply names_lookup in Hq as (n & Hn & _ & <-); [|done].
        rewrite Hl in Hn. by exists n.
      - intros (n & Hn & He). rewrite <- Hl in Hn. destruct (no_text v' n (live_ok v' n W Hn)) as (q & Hq & _).
        exists q, (entry_of n). split; [|done]. apply names_lookup; [done|]. by exists n. }
    destruct (N1 g) as [E|[-> E]].
    + case_decide as Hg; [|done]. subst g. case_decide as Hm; [done|].
      exfalso. apply Hm, Hex, N2, E.
    + rewrite decide_True by done. case_decide as Hm; [|done]. by apply Hex, N2 in Hm.
Qed.

Lemma named_node v path p e :
  vfs_wf v -> normalize_path path = Some p -> names v !! p = Some e ->
  exists i x, live v !! i = Some x /\ node_text v x = Some p /\ entry_of x = e /\
              node_at v (find v path) = Some x.
Proof.
  intros Hwf Hp He. pose proof (find_spec v path p Hwf Hp) as H. unfold node_at.
  destruct (find v path) as [i|]; [|congruence]. destruct H as (x & H1 & H2 & H3 & H4).
  exists i, x. split_and!; try done. congruence.
Qed.

Lemma delete_refines path v v' b :
  vfs_wf v -> delete_ram_file path v = (v', b) -> refines (DeleteFile path) v v' b.
Proof.
  intros Hwf. unfold delete_ram_file. destruct (normalize_path path) as [p|] eqn:Ep.
  2: { apply refuse; [done|]. intros _ s' Hs. inversion Hs as [| | | |? ? ? ? ? (? & _)| |]; subst. congruence. }
  destruct (index_of _ _) as [i|] eqn:Ei.
  2: { apply refuse; [done|]. intros _ s' Hs. inversion Hs as [| | | |? p' f ? ? (E' & e & He & _ & Hw & _ & Hf)| |]; subst.
       rewrite Ep in E'. injection E' as <-. destruct (named_node v path p e) as (i & x & Hi & Hx & <- & _); try done.
       apply (index_of_None _ _ Ei x); [by apply list_elem_of_lookup_2 in Hi|]. simpl in *. by rewrite Hf. }
  apply index_of_Some in Ei as (x & Hi & (Hx & Hw & Hrf) & _). destruct (live_lookup v i x Hi) as [Hn _].
  unfold node_at at 1. cbn [mbind option_bind]. rewrite Hn. cbn [mbind option_bind].
  destruct (nd_ram_file x) as [f|] eqn:Hf; [|done].
  pose proof (live_ok v x Hwf (list_elem_of_lookup_2 _ _ _ Hi)) as Hok.
  destruct (no_file v x Hok f Hf) as (Hty & _ & Hdb & _).
  assert (He : names v !! p = Some (entry_of x)).
  { apply names_lookup; [done|]. exists x. split_and!; try done. by apply list_elem_of_lookup_2 in Hi. }
  destruct (existsb _ _) eqn:Eh.
  { apply refuse; [done|]. intros Hr. exfalso. apply existsb_exists in Eh as (h & Hh & Hhf).
    apply bool_decide_eq_true in Hhf. destruct (named_node v path p _ Hwf Ep He) as (j & y & Hj & Hy & _ & Hat).
    assert (i = j) as <- by (by eapply live_inj). assert (x = y) as <- by congruence.
    by apply (Hr x f h); [..|apply list_elem_of_In|]. }
  intros [= <- <-]. apply bumped. destruct (unlink_wf v i x p f) as (W & N & I); try done.
  split; [done|]. apply step_delete with p f; try done. split; [done|]. exists (entry_of x). done.
Qed.

Definition is_child (v : Vfs) (p : cstr) (n : Node) : bool :=
  from_option (fun q => path_has_prefix_child q p) false (node_text v n).

Lemma childless_code v p :
  vfs_wf v -> existsb (is_child v p) (live v) = false <-> childless (names v) p.
Proof.
  intros Hwf. unfold childless. split.
  - intros H q (e & He). apply names_lookup in He as (n & Hn & Hq & _); [|done].
    destruct (path_has_prefix_child q p) eqn:E; [|done].
    rewrite <- not_true_iff_false, existsb_exists in H. exfalso. apply H. exists n.
    split; [by apply list_elem_of_In|]. unfold is_child. by rewrite Hq.
  - intros H. apply not_true_iff_false. rewrite existsb_exists. intros (n & Hn & Hc).
    apply list_elem_of_In in Hn. unfold is_child in Hc. destruct (node_text v n) as [q|] eqn:Hq; [|done].
    simpl in Hc. rewrite H in Hc; [done|]. exists (entry_of n). apply names_lookup; [done|]. by exists n.
Qed.

Lemma rmdir_wf v i x p :
  vfs_wf v -> live v !! i = Some x -> node_text v x = Some p -> nd_type x = Directory ->
  let v' := remove_node i (forget_directory p v) in
  vfs_wf v' /\ names v' = delete p (names v).
Proof.
  intros Hwf Hi Hx Hty v'. destruct (live_lookup v i x Hi) as [Hn Hic].
  destruct (remove_node_live (forget_directory p v) i (vw_nodes v Hwf) (vw_count v Hwf) Hic) as (L1 & L2 & L3).
  destruct (forget_directory_spec v i x p Hwf Hi Hx) as [K1 K2].
  pose proof (live_ok v x Hwf (list_elem_of_lookup_2 _ _ _ Hi)) as Hok.
  assert (Hrf : nd_ram_file x = None).
  { destruct (nd_ram_file x) as [f|] eqn:Ef; [|done]. destruct (no_file v x Hok f Ef). congruence. }
  apply (removal_wf v v' i x p); try done.
  - intros f file Hf Hu. split; [done|]. destruct (vw_files v Hwf f file Hf Hu) as (_ & n & Hn' & Hnf).
    exists n. split; [|done]. apply (left_over v i x p); try done. intros ->. congruence.
  - intros l link Hl Hu. split; [done|]. intros E. pose proof (no_ptr v x Hok) as HP. unfold ptr_ok in HP.
    rewrite E in HP. destruct HP as (f & ? & ? & _). congruence.
Qed.

Lemma name_of_node v i x p :
  vfs_wf v -> live v !! i = Some x -> node_text v x = Some p -> names v !! p = Some (entry_of x).
Proof.
  intros Hwf Hi Hx. apply names_lookup; [done|]. exists x. split_and!; try done.
  by apply list_elem_of_lookup_2 in Hi.
Qed.

Lemma rmdir_refines path v v' b :
  vfs_wf v -> delete_ram_directory path v = (v', b) -> refines (DeleteDirectory path) v v' b.
Proof.
  intros Hwf. unfold delete_ram_directory. destruct (normalize_path path) as [p|] eqn:Ep.
  2: { apply refuse; [done|]. intros _ s' Hs. inversion Hs; subst. congruence. }
  assert (Hroot : (length p <=? 1)%nat = bool_decide (p = [slash])).
  { destruct (normalize_canonical 64 path p Ep) as (_ & st & -> & Hst & _).
    destruct (render_ne_nil st) as (r & ->). simpl. destruct r; [done|]. by rewrite bool_decide_eq_false_2. }
  rewrite Hroot. case_bool_decide as Hr.
  { apply refuse; [done|]. intros _ s' Hs. inversion Hs; subst. congruence. }
  destruct (index_of _ _) as [i|] eqn:Ei.
  2: { apply refuse; [done|]. intros _ s' Hs. inversion Hs as [| | | | | |? p' e ? ? E' ? He]; subst.
       rewrite Ep in E'. injection E' as <-. destruct (named_node v path p e) as (i & x & Hi & Hx & <- & _); try done.
       by apply (index_of_None _ _ Ei x); [apply list_elem_of_lookup_2 in Hi|]. }
  apply index_of_Some in Ei as (x & Hi & (Hx & Hty & Hw) & _).
  change (existsb _ (live v)) with (existsb (is_child v p) (live v)).
  destruct (existsb (is_child v p) (live v)) eqn:Ec.
  { apply refuse; [done|]. intros _ s' Hs. inversion Hs as [| | | | | |? p' e ? ? E' ? ? ? ? Hch]; subst.
    rewrite Ep in E'. injection E' as <-. apply childless_code in Hch; [|done]. congruence. }
  apply childless_code in Ec; [|done].
  intros [= <- <-]. apply bumped. destruct (rmdir_wf v i x p) as [W N]; try done.
  split; [done|]. apply step_rmdir with p (entry_of x); try done. by apply (name_of_node v i).
Qed.

(** ** Renaming *)

Lemma alter_view {A B} (g : A -> B) (f : A -> A) i (l : list A) j :
  (forall a, g (f a) = g a) -> g <$> (alter f i l !! j) = g <$> (l !! j).
Proof.
  intros Hg. destruct (decide (i = j)) as [->|Hne].
  - rewrite list_lookup_alter_eq. destruct (l !! j); simpl; [by rewrite Hg|done].
  - by rewrite list_lookup_alter_ne.
Qed.

Lemma alter_fixed {A} (f : A -> A) i (l : list A) x : l !! i = Some x -> f x = x -> alter f i l = l.
Proof.
  intros Hi Hf. apply list_eq. intros j. destruct (decide (i = j)) as [->|Hne].
  - rewrite list_lookup_alter_eq, Hi. simpl. by rewrite Hf.
  - by rewrite list_lookup_alter_ne.
Qed.

Lemma view_Some {A B} (g : A -> B) (o o' : option A) a :
  g <$> o' = g <$> o -> o' = Some a -> exists b, o = Some b /\ g b = g a.
Proof. intros H ->. destruct o as [b|]; [|done]. exists b. split; [done|]. by injection H. Qed.

(** One name buffer, that of node [x], holds the text [q] instead. *)
Record renamed (v v' : Vfs) (x : Node) (q : cstr) : Prop := {
  rn_nodes : nodes_ v' = nodes_ v;
  rn_count : count_ v' = count_ v;
  rn_files : forall f, (fun r => (rf_used r, rf_data r, rf_size r)) <$> ram_files_ v' !! f =
                       (fun r => (rf_used r, rf_data r, rf_size r)) <$> ram_files_ v !! f;
  rn_dirs : forall d, rd_used <$> ram_directories_ v' !! d = rd_used <$> ram_directories_ v !! d;
  rn_links : forall l, (fun r => (rl_used r, rl_target r)) <$> ram_links_ v' !! l =
                       (fun r => (rl_used r, rl_target r)) <$> ram_links_ v !! l;
  rn_text : forall ptr, ptr_text v' ptr = if decide (nd_path x = Some ptr) then Some q else ptr_text v ptr
}.

Lemma renamed_ptr_ok v v' x q n : renamed v v' x q -> ptr_ok v n -> ptr_ok v' n.
Proof.
  intros R. unfold ptr_ok. destruct (nd_path n) as [[t|f|d|l]|]; try done.
  - intros (? & ? & dir & Hd & Hu). split_and!; try done.
    destruct (view_Some rd_used (ram_directories_ v' !! d) (ram_directories_ v !! d) dir) as (b & -> & E); try done.
    { symmetry. by apply (rn_dirs v v' x q). }
    exists b. by rewrite E.
  - intros (f & link & ? & Hl & Hu & Ht).
    destruct (view_Some (fun r => (rl_used r, rl_target r)) (ram_links_ v' !! l) (ram_links_ v !! l) link)
      as (b & -> & [= E1 E2]); try done.
    { symmetry. by apply (rn_links v v' x q). }
    exists f, b. by rewrite E1, E2.
Qed.

Lemma renamed_slots v v' x q : vfs_wf v -> renamed v v' x q -> slots_named v v'.
Proof.
  intros Hwf R.
  assert (Hl : live v' = live v) by (unfold live; by rewrite (rn_nodes v v' x q R), (rn_count v v' x q R)).
  split_and!; rewrite Hl.
  - intros f file Hf Hu. destruct (view_Some _ _ _ file (rn_files v v' x q R f) Hf) as (b & Hb & [= E1 E2 E3]).
    rewrite <- E3. apply (vw_files v Hwf f b Hb). congruence.
  - intros d dir Hd Hu. destruct (view_Some _ _ _ dir (rn_dirs v v' x q R d) Hd) as (b & Hb & E).
    apply (vw_dirs v Hwf d b Hb). congruence.
  - intros l link Hlk Hu. destruct (view_Some _ _ _ link (rn_links v v' x q R l) Hlk) as (b & Hb & [= E1 E2]).
    apply (vw_links v Hwf l b Hb). congruence.
Qed.

Lemma renamed_wf v v' i x p q :
  vfs_wf v -> live v !! i = Some x -> node_text v x = Some p -> names v !! q = None -> canonical q ->
  renamed v v' x q ->
  vfs_wf v' /\ names v' = <[q := entry_of x]> (delete p (names v)) /\ (forall g, inode v' g = inode v g).
Proof.
  intros Hwf Hi Hx Hq Hcan R.
  destruct (move_wf v v' i x p q) as [W N]; try done.
  - apply (rn_nodes v v' x q R).
  - apply (rn_count v v' x q R).
  - unfold node_text in *. destruct (nd_path x) as [ptr|] eqn:Ex; [|done]. cbn [mbind option_bind].
    by rewrite (rn_text v v' x q R), decide_True.
  - intros n Hn Hne. unfold node_text. destruct (nd_path n) as [ptr|] eqn:En; [|done]. cbn [mbind option_bind].
    rewrite (rn_text v v' x q R), decide_False; [done|].
    destruct (others_kept v i x p n) as (_ & _ & Hp); try done; [by apply (left_over v i x p)|]. by apply Hp.
  - intros n Hn. pose proof (live_ok v n Hwf Hn) as Hok.
    split; [apply (renamed_ptr_ok v v' x q); [done|apply Hok]|].
    intros f Hf. destruct (no_file v n Hok f Hf) as (_ & _ & _ & file & Hfile & Hu).
    destruct (view_Some (fun r => (rf_used r, rf_data r, rf_size r)) (ram_files_ v' !! f) (ram_files_ v !! f) file)
      as (b & Hb & [= E1 _ _]); [symmetry; by apply (rn_files v v' x q)|done|].
    exists b. split; [done|congruence].
  - by apply (renamed_slots v v' x q).
  - split_and!; try done. intros g. unfold inode. pose proof (rn_files v v' x q R g) as E.
    destruct (ram_files_ v' !! g) as [r|], (ram_files_ v !! g) as [r0|]; try done.
    injection E as E1 E2 E3. simpl. unfold bytes_of. by rewrite E1, E2, E3.
Qed.

Lemma other_children v i x p :
  live v !! i = Some x -> node_text v x = Some p ->
  existsb (is_child v p) (take i (live v)) || existsb (is_child v p) (drop (S i) (live v)) =
  existsb (is_child v p) (live v).
Proof.
  intros Hi Hx. rewrite <- (take_drop_middle (live v) i x Hi) at 3. rewrite existsb_app. cbn [existsb].
  assert (is_child v p x = false) as ->; [|done].
  unfold is_child. rewrite Hx. simpl. unfold path_has_prefix_child, path_equal. by rewrite bool_decide_eq_true_2.
Qed.

Lemma first_some_seq {B} (step : nat -> option B) n i :
  (i < n)%nat -> (forall j, (j < n)%nat -> j <> i -> step j = None) -> first_some step (seq 0 n) = step i.
Proof.
  intros Hi Hs.
  assert (Hgen : forall m k, (k + m)%nat = n -> first_some step (seq k m) = if (k <=? i)%nat then step i else None).
  { induction m as [|m IH]; intros k Hk; cbn [seq first_some].
    - destruct (Nat.leb_spec k i); [lia|done].
    - rewrite IH by lia. destruct (decide (k = i)) as [->|Hne].
      + rewrite Nat.leb_refl. destruct (step i); [done|]. by destruct (_ <=? _)%nat.
      + rewrite Hs by lia. destruct (Nat.leb_spec k i), (Nat.leb_spec (S k) i); lia || done. }
  by rewrite Hgen by lia.
Qed.

Lemma first_some_none {B} (step : nat -> option B) n :
  (forall j, (j < n)%nat -> step j = None) -> first_some step (seq 0 n) = None.
Proof.
  intros Hs. assert (Hgen : forall m k, (k + m <= n)%nat -> first_some step (seq k m) = None).
  { induction m as [|m IH]; intros k Hk; cbn [seq first_some]; [done|]. rewrite Hs by lia. apply IH. lia. }
  by apply Hgen.
Qed.

Definition renamable (v : Vfs) (x : Node) (p : cstr) : Prop :=
  nd_writable x = true /\ nd_disk_backed x = false /\
  (is_Some (nd_ram_file x) \/ (e_ram_directory (entry_of x) = true /\ childless (names v) p)).

Definition rename_outcome (v : Vfs) (i : nat) (x : Node) (p q : cstr) : Prop :=
  (renamable v x p /\ exists v0, renamed v v0 x q /\ rename_step p q v i = Some (bump ram_renames v0, true)) \/
  (~ renamable v x p /\ (rename_step p q v i = None \/ rename_step p q v i = Some (reject ram_rename_rejects v))).

Lemma set_path_same (x : Node) ptr : nd_path x = ptr -> x <| nd_path := ptr |> = x.
Proof. by destruct x; simpl; intros <-. Qed.

Lemma rename_file_step v i x p q f :
  vfs_wf v -> live v !! i = Some x -> node_text v x = Some p -> copy_path q = q ->
  nd_ram_file x = Some f -> rename_outcome v i x p q.
Proof.
  intros Hwf Hi Hx Hq Hf. destruct (live_lookup v i x Hi) as [Hn _]. left.
  pose proof (live_ok v x Hwf (list_elem_of_lookup_2 _ _ _ Hi)) as Hok.
  destruct (no_file v x Hok f Hf) as (Hty & Hw & Hdb & file & Hfile & Hu).
  split; [unfold renamable; rewrite Hf; by eauto|].
  unfold rename_step. rewrite Hn. cbn [mbind option_bind]. rewrite Hx, Hw, Hdb, Hty, Hf, Hq.
  rewrite bool_decide_eq_false_2 by tauto. cbn [negb orb].
  destruct (index_of _ _) as [l|] eqn:El.
  - apply index_of_Some in El as (link & Hl & (Hlu & Hlp) & _).
    apply (link_owner v i x p l link) in Hlp; [|done..]. eexists. split; [|done].
    split; simpl; try done.
    + by apply (alter_fixed _ _ _ x), set_path_same.
    + intros k. by apply (alter_view (fun r => (rl_used r, rl_target r))).
    + intros ptr. rewrite Hlp. destruct ptr as [t|g|d|k]; simpl; try done.
      case_decide as E; [injection E as <-; rewrite list_lookup_alter_eq, Hl; done|].
      rewrite list_lookup_alter_ne; [done|]. intros ->. done.
  - assert (Hptr : nd_path x = Some (FilePath f)).
    { pose proof (no_ptr v x Hok) as HP. unfold ptr_ok in HP. destruct (nd_path x) as [[t|g|d|l]|] eqn:Ex; try done.
      - congruence.
      - congruence.
      - destruct HP as (HP & _). congruence.
      - destruct HP as (g & link & _ & Hl & Hlu & _). exfalso.
        apply (index_of_None _ _ El link); [by apply list_elem_of_lookup_2 in Hl|]. split; [done|].
        by apply (link_owner v i x p l link). }
    rewrite Hfile. assert (rf_path file = p) as Hfp.
    { unfold node_text in Hx. rewrite Hptr in Hx. simpl in Hx. rewrite Hfile in Hx. by injection Hx. }
    unfold path_equal. rewrite Hu, Hfp, bool_decide_eq_true_2 by done. cbn [andb negb]. eexists. split; [|done].
    split; simpl; try done.
    + by apply (alter_fixed _ _ _ x), set_path_same.
    + intros k. by apply (alter_view (fun r => (rf_used r, rf_data r, rf_size r))).
    + intros ptr. rewrite Hptr. destruct ptr as [t|g|d|k]; simpl; try done.
      case_decide as E; [injection E as <-; rewrite list_lookup_alter_eq, Hfile; done|].
      rewrite list_lookup_alter_ne; [done|]. intros ->. done.
Qed.

Lemma rename_other_step v i x p q :
  vfs_wf v -> live v !! i = Some x -> node_text v x = Some p -> copy_path q = q ->
  nd_ram_file x = None -> rename_outcome v i x p q.
Proof.
  intros Hwf Hi Hx Hq Hf. destruct (live_lookup v i x Hi) as [Hn _].
  pose proof (live_ok v x Hwf (list_elem_of_lookup_2 _ _ _ Hi)) as Hok. pose proof (no_ptr v x Hok) as HP.
  unfold rename_outcome, renamable, rename_step. rewrite Hn. cbn [mbind option_bind]. rewrite Hx, Hf.
  rewrite bool_decide_eq_false_2 by tauto.
  destruct (nd_writable x); cbn [negb orb]; [|right; split; [by intros (? & _)|by left]].
  destruct (nd_disk_backed x); [right; split; [by intros (_ & ? & _)|by left]|].
  assert (Hdir : e_ram_directory (entry_of x) = true -> nd_type x = Directory /\
            exists d dir, nd_path x = Some (DirPath d) /\ ram_directories_ v !! d = Some dir /\ rd_used dir = true).
  { unfold ptr_ok in HP. simpl. destruct (nd_path x) as [[]|] eqn:Ex; try done. intros _.
    destruct HP as (_ & ? & dir & ? & ?). split; [done|]. by exists directory, dir. }
  destruct (nd_type x) eqn:Hty.
  1, 3-5: right; split; [intros (_ & _ & [[? ?]|[[? _]%Hdir _]]); done|by left].
  change (existsb _ (take i (live v)) || existsb _ (drop (S i) (live v))) with
    (existsb (is_child v p) (take i (live v)) || existsb (is_child v p) (drop (S i) (live v))).
  rewrite (other_children v i x p) by done.
  destruct (existsb (is_child v p) (live v)) eqn:Ec.
  { right. split; [|by right]. intros (_ & _ & [[? ?]|[_ Hch]]); [done|].
    apply childless_code in Hch; [|done]. congruence. }
  apply childless_code in Ec; [|done].
  destruct (index_of _ _) as [d|] eqn:Ed.
  - apply index_of_Some in Ed as (dir & Hd & (Hdu & Hdp) & _).
    apply (dir_owner v i x p d dir) in Hdp; [|done..]. left. split.
    { split_and!; try done. right. simpl. by rewrite Hdp. }
    eexists. split; [|done]. rewrite Hq. split; simpl; try done.
    + by apply (alter_fixed _ _ _ x), set_path_same.
    + intros k. by apply (alter_view rd_used).
    + intros ptr. rewrite Hdp. destruct ptr as [t|g|k|k]; simpl; try done.
      case_decide as E; [injection E as <-; rewrite list_lookup_alter_eq, Hd; done|].
      rewrite list_lookup_alter_ne; [done|]. intros ->. done.
  - right. split; [|by left]. intros (_ & _ & [[? ?]|[(_ & d & dir & Hp & Hd & Hu)%Hdir _]]); [done|].
    apply (index_of_None _ _ Ed dir); [by apply list_elem_of_lookup_2 in Hd|]. split; [done|].
    by apply (dir_owner v i x p d dir).
Qed.

Lemma rename_step_skip v j n p q :
  live v !! j = Some n -> node_text v n <> Some p -> rename_step p q v j = None.
Proof.
  intros Hj Hn. destruct (live_lookup v j n Hj) as [E _]. unfold rename_step. rewrite E.
  cbn [mbind option_bind]. by rewrite bool_decide_eq_true_2.
Qed.

Lemma live_is_Some v j : vfs_wf v -> (j < count_ v)%nat -> is_Some (live v !! j).
Proof. intros Hwf Hj. apply lookup_lt_is_Some. by rewrite live_length. Qed.

Lemma rename_needs v old_path new_path p q s' :
  vfs_wf v -> normalize_path old_path = Some p -> copy_path_checked new_path = Some q ->
  fs_step (Rename old_path new_path) (abs v) s' ->
  vacant (names v) new_path q /\
  exists i x, live v !! i = Some x /\ node_text v x = Some p /\ renamable v x p.
Proof.
  intros Hwf Ep Eq Hs. inversion Hs as [| | |? ? p' q' e ? ? E' HV He H1 H2 H3| | |]; subst.
  rewrite Ep in E'. injection E' as <-. assert (q' = q) as -> by (destruct HV; congruence).
  destruct (named_node v old_path p e) as (i & x & Hi & Hx & <- & _); try done. split; [done|]. by exists i, x.
Qed.

Lemma rename_scan v old_path new_path p q v' b :
  vfs_wf v -> normalize_path old_path = Some p -> vacant (names v) new_path q ->
  match first_some (rename_step p q v) (seq 0 (count_ v)) with
  | Some r => r
  | None => reject ram_rename_rejects v
  end = (v', b) ->
  refines (Rename old_path new_path) v v' b.
Proof.
  intros Hwf Ep V. destruct (V) as (Eq & Hq & _).
  assert (Hskip : forall j n, live v !! j = Some n -> node_text v n <> Some p -> rename_step p q v j = None)
    by (intros; by eapply rename_step_skip).
  destruct (names v !! p) as [e|] eqn:He.
  - destruct (named_node v old_path p e) as (i & x & Hi & Hx & <- & _); try done.
    rewrite (first_some_seq _ _ i); [|by apply live_lookup in Hi as [_ ?]|].
    2: { intros j Hj Hne. destruct (live_is_Some v j Hwf Hj) as (n & Hn). apply (Hskip j n); [done|].
         intros Hp. apply Hne. by eapply live_inj. }
    assert (O : rename_outcome v i x p q).
    { destruct (nd_ram_file x) eqn:Ef; [eapply rename_file_step|eapply rename_other_step]; try done;
        by eapply copy_path_fits. }
    destruct O as [(HR & v0 & R & ->)|(HR & Hbad)].
    + intros [= <- <-]. apply bumped. destruct (renamed_wf v v0 i x p q) as (W & N & I); try done.
      { by eapply copy_checked_canonical. }
      split; [done|]. destruct HR as (H1 & H2 & H3). by apply step_rename with p q (entry_of x).
    + assert (Hfail : forall s', ~ fs_step (Rename old_path new_path) (abs v) s').
      { intros s' Hs. destruct (rename_needs v old_path new_path p q s' Hwf Ep Eq Hs) as (_ & j & y & Hj & Hy & HR').
        assert (i = j) as <- by (by eapply live_inj). congruence. }
      destruct Hbad as [-> | ->]; by apply refuse.
  - rewrite (first_some_none (rename_step p q v) (count_ v)).
    + apply refuse; [done|]. intros _ s' Hs.
      destruct (rename_needs v old_path new_path p q s' Hwf Ep Eq Hs) as (_ & j & y & Hj & Hy & _).
      rewrite (name_of_node v j y p) in He by done. done.
    + intros j Hj. destruct (live_is_Some v j Hwf Hj) as (n & Hn). apply (Hskip j n); [done|].
      intros Hp. rewrite (name_of_node v j n p) in He by done. done.
Qed.

Lemma rename_refines old_path new_path v v' b :
  vfs_wf v -> rename_ram_node old_path new_path v = (v', b) -> refines (Rename old_path new_path) v v' b.
Proof.
  intros Hwf. unfold rename_ram_node. destruct (normalize_path old_path) as [p|] eqn:Ep.
  2: { apply refuse; [done|]. intros _ s' Hs. inversion Hs; subst. congruence. }
  destruct (copy_path_checked new_path) as [q|] eqn:Eq.
  2: { apply refuse; [done|]. intros _ s' Hs. inversion Hs as [| | |? ? ? ? ? ? ? ? (? & _)| | |]; subst. congruence. }
  destruct (vacant_code v new_path q Hwf Eq) as (up & Eup & Hvac). rewrite Eup.
  destruct (path_equal p q || bool_decide (is_Some (find v q))) eqn:E1.
  { apply refuse; [done|]. intros _ s' Hs.
    destruct (rename_needs v old_path new_path p q s' Hwf Ep Eq Hs) as ((_ & Hq & _) & i & x & Hi & Hx & _).
    apply orb_true_iff in E1 as [->%bool_decide_eq_true|E1].
    - rewrite (name_of_node v i x q) in Hq by done. done.
    - rewrite (find_is_Some v q q) in E1 by (done || by eapply copy_checked_canonical).
      apply bool_decide_eq_true in E1. rewrite Hq in E1. by destruct E1. }
  apply orb_false_iff in E1 as [_ E1]. destruct (is_directory v (find v up)) eqn:E2; cbn [negb].
  - apply rename_scan; [done..|]. by apply Hvac.
  - apply refuse; [done|]. intros _ s' Hs.
    destruct (rename_needs v old_path new_path p q s' Hwf Ep Eq Hs) as ([]%Hvac & _). done.
Qed.

(** ** Changes to file contents *)

Definition same_entry (n n' : Node) : Prop := nd_path n' = nd_path n /\ entry_of n' = entry_of n.

Lemma same_entry_ok v n n' : same_entry n n' -> node_ok v n -> node_ok v n' /\ node_text v n' = node_text v n.
Proof.
  intros [Hp He] [H1 H2 H3 H4]. injection He as E1 E2 E3 E4 _ _ _ _.
  assert (Ht : node_text v n' = node_text v n) by (unfold node_text; by rewrite Hp).
  split; [|done]. split.
  - by rewrite E1.
  - unfold ptr_ok in *. by rewrite Hp, E4, E1.
  - by rewrite Ht.
  - by rewrite E1, E2, E3, E4.
Qed.

Lemma reshape_wf v v' :
  vfs_wf v -> Forall2 same_entry (live v) (live v') -> length (nodes_ v') = length (nodes_ v) ->
  count_ v' = count_ v -> kept v v' ->
  (forall f file, ram_files_ v' !! f = Some file -> rf_used file = true ->
     0 <= rf_size file <= kMaxRamFileBytes /\ exists old, ram_files_ v !! f = Some old /\ rf_used old = true) ->
  ram_directories_ v' = ram_directories_ v -> ram_links_ v' = ram_links_ v ->
  vfs_wf v' /\ names v' = names v.
Proof.
  intros Hwf HF Hn Hc Hk Hf Hd Hl.
  assert (Hok : Forall2 (fun n n' => node_ok v' n' /\ node_text v' n' = node_text v n /\ entry_of n' = entry_of n)
            (live v) (live v')).
  { apply Forall2_same_length_lookup_2; [by apply Forall2_length in HF|]. intros i n n' Hi Hi'.
    pose proof (Forall2_lookup_lr _ _ _ _ _ _ HF Hi Hi') as Hs.
    pose proof (live_ok v n Hwf (list_elem_of_lookup_2 _ _ _ Hi)) as Ho.
    destruct (same_entry_ok v' n n' Hs) as [Ho' Ht]; [by apply kept_node_ok with v|].
    rewrite Ht, (kept_text v v') by done. by destruct Hs. }
  assert (Hex : forall (P : Node -> Prop), (forall n n', same_entry n n' -> P n -> P n') ->
            (exists n, n ∈ live v /\ P n) -> exists n, n ∈ live v' /\ P n).
  { intros P HP (n & Hin & Hpn). apply list_elem_of_lookup in Hin as (i & Hi).
    destruct (Forall2_lookup_l _ _ _ _ _ HF Hi) as (n' & Hi' & Hs). exists n'.
    split; [by apply list_elem_of_lookup_2 in Hi'|]. by eapply HP. }
  split; [split|].
  - by rewrite Hn, vw_nodes.
  - rewrite Hc. by apply vw_count.
  - apply Forall_lookup. intros i n' Hi'. by destruct (Forall2_lookup_r _ _ _ _ _ Hok Hi') as (n & _ & ? & _).
  - assert (node_text v' <$> live v' = node_text v <$> live v) as ->; [|apply Hwf].
    symmetry. apply list_eq_Forall2, Forall2_fmap. eapply Forall2_impl; [exact Hok|]. by intros n n' (_ & ? & _).
  - intros f file H1 H2. destruct (Hf f file H1 H2) as (H3 & old & H4 & H5). split; [done|].
    apply Hex; [|by apply (vw_files v Hwf f old)]. intros n n' [_ [= _ _ _ -> _ _ _ _]]. done.
  - intros d dir. rewrite Hd. intros H1 H2. apply Hex; [|by apply (vw_dirs v Hwf d dir)].
    by intros n n' [-> _].
  - intros l link. rewrite Hl. intros H1 H2. apply Hex; [|by apply (vw_links v Hwf l link)].
    by intros n n' [-> _].
  - unfold names. f_equal. symmetry. apply list_eq_Forall2, Forall2_fmap. eapply Forall2_impl; [exact Hok|].
    intros n n' (_ & E1 & E2). by rewrite E1, E2.
Qed.

Lemma live_imap v v' (h : nat -> Node -> Node) :
  nodes_ v' = imap h (nodes_ v) -> count_ v' = count_ v -> (forall i n, same_entry n (h i n)) ->
  Forall2 same_entry (live v) (live v').
Proof.
  intros Hn Hc Hh. unfold live. rewrite Hn, Hc. apply Forall2_take.
  apply Forall2_same_length_lookup_2; [by rewrite length_imap|].
  intros i n n' Hi Hi'. rewrite list_lookup_imap, Hi in Hi'. injection Hi' as <-. apply Hh.
Qed.

(** A file's data and size replaced, its name and use kept. *)
Lemma content_slots v v' f file file' :
  ram_files_ v !! f = Some file -> rf_used file = true -> ram_files_ v' = <[f := file']> (ram_files_ v) ->
  rf_used file' = true -> rf_path file' = rf_path file -> 0 <= rf_size file' <= kMaxRamFileBytes ->
  ram_directories_ v' = ram_directories_ v -> ram_links_ v' = ram_links_ v -> vfs_wf v ->
  kept v v' /\
  (forall g r, ram_files_ v' !! g = Some r -> rf_used r = true ->
     0 <= rf_size r <= kMaxRamFileBytes /\ exists old, ram_files_ v !! g = Some old /\ rf_used old = true) /\
  (forall g, inode v' g = if decide (g = f) then Some (bytes_of file') else inode v g).
Proof.
  intros Hf Hu Hfs Hu' Hp Hs Hd Hl Hwf. pose proof (lookup_lt_Some _ _ _ Hf) as Hlt. split_and!.
  - split; [|by rewrite Hd|by rewrite Hl]. intros g r Hg Hgu. rewrite Hfs.
    destruct (decide (g = f)) as [->|Hne].
    + exists file'. rewrite list_lookup_insert_eq by done. split_and!; try done. congruence.
    + exists r. by rewrite list_lookup_insert_ne.
  - intros g r Hg Hgu. rewrite Hfs in Hg. apply list_lookup_insert_Some in Hg as [(<- & <- & _)|[Hne Hg]].
    + split; [done|]. by exists file.
    + split; [by apply (vw_files v Hwf g r)|by exists r].
  - intros g. unfold inode. rewrite Hfs. case_decide as E.
    + subst g. rewrite list_lookup_insert_eq by done. simpl. by rewrite Hu'.
    + by rewrite list_lookup_insert_ne.
Qed.

Lemma truncated_bytes file size :
  0 <= rf_size file -> 0 <= size ->
  bytes_of (truncate_file size file) = resize_bytes size (bytes_of file).
Proof.
  intros H0 Hs. unfold bytes_of, resize_bytes, truncate_file. apply list_eq. intros k.
  rewrite bytes_at_lookup. simpl rf_size. case_decide as Hk.
  - rewrite lookup_take_lt by done. destruct (decide (k < Z.to_nat (rf_size file))%nat) as [Hi|Hi].
    + rewrite lookup_app_l by (by rewrite bytes_at_length). rewrite bytes_at_lookup, decide_True by done. f_equal.
      destruct (Z.ltb_spec (rf_size file) size); simpl; [|done].
      rewrite clear_bytes_get by lia. by rewrite decide_False by lia.
    + rewrite lookup_app_r by (rewrite bytes_at_length; lia). rewrite bytes_at_length, lookup_replicate_2 by lia.
      f_equal. destruct (Z.ltb_spec (rf_size file) size); [|lia]. simpl.
      rewrite clear_bytes_get by lia. by rewrite decide_True by lia.
  - symmetry. apply lookup_take_ge. lia.
Qed.

Definition op_args (op : fs_op) : Prop :=
  match op with Truncate _ size => 0 <= size | _ => True end.

Lemma truncate_refines `{Kernel} path size v v' b :
  vfs_wf v -> 0 <= size -> truncate_ram_file path size v = (v', b) -> refines (Truncate path size) v v' b.
Proof.
  intros Hwf Hsz. unfold truncate_ram_file. destruct (normalize_path path) as [p|] eqn:Ep.
  2: { apply refuse; [done|]. intros _ s' Hs. inversion Hs as [| |? ? ? ? ? ? ? (? & _)| | | |]; subst. congruence. }
  destruct (Z.ltb_spec kMaxRamFileBytes size) as [Hbig|Hbig].
  { apply refuse; [done|]. intros _ s' Hs. inversion Hs; subst. lia. }
  destruct (writable_ram_file v (find v p)) as [f|] eqn:Ef.
  2: { apply refuse; [done|]. intros _ s' Hs. inversion Hs as [| |? p' f ? ? ? ? HR| | | |]; subst.
       assert (p' = p) as -> by (destruct HR; congruence).
       apply writable_ram_file_names in HR; [congruence|done..]. }
  apply (writable_ram_file_names v path) in Ef; [|done..].
  destruct (ram_file_used v _ _ _ Hwf Ef) as (file & Hfile & Hu).
  destruct (vw_files v Hwf f file Hfile Hu) as ([Hsize _] & _).
  intros [= <- <-]. apply bumped.
  match goal with |- vfs_wf ?w /\ _ => set (v3 := w) end.
  destruct (content_slots v v3 f file (truncate_file size file)) as (K & F & I); try done.
  { by apply (alter_insert (truncate_file size)). }
  { unfold truncate_file. by destruct (_ <? _). }
  { unfold truncate_file. by destruct (_ <? _). }
  destruct (reshape_wf v v3) as [W N]; try done.
  - eapply live_imap; [done..|]. intros i n. simpl. case_bool_decide as Hc; [|done]. destruct Hc as [_ Hc].
    split; [done|]. unfold entry_of. simpl. by rewrite Hc.
  - simpl. by rewrite length_imap.
  - split; [done|]. apply step_truncate with p f (bytes_of file); try done.
    + simpl. unfold inode. rewrite Hfile. simpl. by rewrite Hu.
    + intros g. simpl. rewrite I. case_decide; [|done]. f_equal. by apply truncated_bytes.
Qed.

(** ** Registration *)

Lemma register_refines v x path :
  vfs_wf v -> nd_path x = Some (Literal path) -> canonical path -> nd_type x <> Empty ->
  nd_ram_file x = None ->
  vfs_wf (add_node x v).1 /\ (forall g, inode (add_node x v).1 g = inode v g) /\
  names (add_node x v).1 = (if (add_node x v).2 then <[path := entry_of x]> (names v) else names v) /\
  ((add_node x v).2 = true <-> room v /\ names v !! path = None).
Proof.
  intros Hwf Hp Hc Hty Hf. assert (Ht : node_text v x = Some path) by (unfold node_text; by rewrite Hp).
  destruct (names v !! path) eqn:En.
  - unfold add_node. rewrite Ht, bool_decide_eq_false_2 by done.
    rewrite (find_is_Some v path path), En, bool_decide_eq_true_2 by done.
    destruct (_ <=? _)%nat; simpl; split_and!; try done; (split; [done|by intros [_ ?]]).
  - rewrite (add_node_spec v v x path) by (done || apply kept_refl). case_decide as Hr; simpl.
    2: { split_and!; try done. split; [done|]. by intros [? _]. }
    destruct (push_wf v v x path) as [W N]; try done.
    + apply kept_refl.
    + split; try done; [unfold ptr_ok; by rewrite Hp|by exists path|congruence].
    + by right.
    + by right.
    + by right.
Qed.

Lemma fresh_vfs_wf : vfs_wf fresh_vfs.
Proof.
  split.
  - apply length_replicate.
  - apply Nat.le_0_l.
  - constructor.
  - constructor.
  - intros f file Hf%lookup_replicate_1. by destruct Hf as [-> _].
  - intros f file Hf%lookup_replicate_1. by destruct Hf as [-> _].
  - intros f file Hf%lookup_replicate_1. by destruct Hf as [-> _].
Qed.

Lemma op_refines `{Kernel} op v v' b :
  vfs_wf v -> op_args op -> run_op op v = (v', b) -> refines op v v' b.
Proof.
  intros Hwf Ha. destruct op; simpl in *.
  - by apply create_refines.
  - by apply link_refines.
  - by apply truncate_refines.
  - by apply rename_refines.
  - by apply delete_refines.
  - by apply mkdir_refines.
  - by apply rmdir_refines.
Qed.

(** C3. Each operation of the RAM file system (create, hard link, truncate,
    rename, delete, and the two on directories) keeps the tables well formed.
    When it returns true it has performed the corresponding step of the
    specification on the map of names and on the contents of the files; when it
    returns false names and contents are as before, and either the
    specification allows no such step or a table is full (or, for a deletion,
    the file is open). *)
Theorem ramfs_refines_names_and_inodes `{Kernel} op v v' b :
  vfs_wf v -> op_args op -> run_op op v = (v', b) ->
  vfs_wf v' /\
  if b then fs_step op (abs v) (abs v')
  else names v' = names v /\ (forall g, inode v' g = inode v g) /\
       (ready op v -> forall s', ~ fs_step op (abs v) s').
Proof. apply op_refines. Qed.

(** ** A concrete file system *)

#[local] Instance demo_kernel : Kernel :=
  {| ram_data_addr := fun f => 0x400000 + Z.of_nat f * 0x1000; memory_byte := fun _ => 0;
     render_virtual_file := fun _ _ => []; render_dynamic_proc_file := fun _ _ => [] |}.

Definition demo_dir (path : cstr) (writable : bool) : Node :=
  mkNode (Some (Literal path)) Directory 0 0 writable false None NoDevice NoVirtual.
Definition demo_root : Vfs := (add_node (demo_dir (cs "/") false) fresh_vfs).1.
Definition demo_vfs : Vfs := (add_node (demo_dir (cs "/tmp") true) demo_root).1.

Lemma demo_vfs_wf : vfs_wf demo_vfs.
Proof.
  apply (register_refines demo_root (demo_dir (cs "/tmp") true) (cs "/tmp")); try done.
  apply (register_refines fresh_vfs (demo_dir (cs "/") false) (cs "/")); try done. apply fresh_vfs_wf.
Qed.

(** Two files, the second with a hard link. *)
Definition demo_ops : list fs_op :=
  [CreateFile (cs "/tmp/a"); CreateFile (cs "/tmp/b"); LinkFile (cs "/tmp/b") (cs "/tmp/c");
   Truncate (cs "/tmp/c") 3].
Definition run_ops (ops : list fs_op) (v : Vfs) : Vfs := foldl (fun v op => (run_op op v).1) v ops.
Definition demo_files : Vfs := run_ops demo_ops demo_vfs.

Lemma run_ops_wf ops v : vfs_wf v -> Forall op_args ops -> vfs_wf (run_ops ops v).
Proof.
  revert v. induction ops as [|op ops IH]; intros v Hwf Ha; [done|]. apply Forall_cons in Ha as [Ha Has].
  simpl. apply IH; [|done]. by apply (op_refines op v _ (run_op op v).2 Hwf Ha (surjective_pairing _)).
Qed.

Lemma demo_files_wf : vfs_wf demo_files.
Proof. apply run_ops_wf; [apply demo_vfs_wf|]. repeat constructor; done. Qed.

Lemma ramfs_refines_names_and_inodes_witness :
  vfs_wf (run_op (DeleteFile (cs "/tmp/b")) demo_files).1 /\
  fs_step (DeleteFile (cs "/tmp/b")) (abs demo_files) (abs (run_op (DeleteFile (cs "/tmp/b")) demo_files).1).
Proof.
  apply (ramfs_refines_names_and_inodes (DeleteFile (cs "/tmp/b")) demo_files
    (run_op (DeleteFile (cs "/tmp/b")) demo_files).1 true demo_files_wf I).
  apply pair_snd. vm_compute. reflexivity.
Defined.
