(* ===== verification/VfsHandles.v ===== *)
(** * Open files: reading, writing and the life of a handle

    What a descriptor's operations do to the contents of RAM files, when a
    handle dies, and what deleting a file does to handles on other files. *)

From stdpp Require Import strings.
From S2P Require Import Prelude Path Vfs RamFs.
#[local] Open Scope Z_scope.

(** Handle [h] is open at [offset] on the RAM file [f], through node [i]. *)
Record on_file (v : Vfs) (h : Z) (slot i f : nat) (offset : Z) : Prop := {
  of_slot : handle_for v h = Some slot;
  of_entry : exists e, handles_ v !! slot = Some e /\ fh_dynamic_virtual e = false /\
                       fh_node e = Some i /\ fh_offset e = offset;
  of_node : exists n, live v !! i = Some n /\ nd_ram_file n = Some f
}.

(** The first bytes of [data] written over [c] at [offset]. *)
Definition overwrite (c : list Z) (offset : Z) (data : list Z) : list Z :=
  take (Z.to_nat offset) c ++ data ++ drop (Z.to_nat (offset + zlen data)) c.

(** ** Bytes *)

Lemma overwrite_bytes file offset data :
  0 <= offset <= rf_size file ->
  bytes_at (sa_get (write_bytes offset data (rf_data file))) 0 (Z.max (rf_size file) (offset + zlen data)) =
  overwrite (bytes_of file) offset data.
Proof.
  intros Ho. unfold overwrite, bytes_of, zlen. apply list_eq. intros k. rewrite bytes_at_lookup.
  rewrite write_bytes_get. unfold zlen. rewrite Z.add_0_l.
  assert (Hl : length (take (Z.to_nat offset) (bytes_at (sa_get (rf_data file)) 0 (rf_size file))) = Z.to_nat offset)
    by (rewrite length_take, bytes_at_length; lia).
  destruct (decide (k < Z.to_nat offset)%nat).
  - rewrite lookup_app_l by lia. rewrite lookup_take_lt by done. rewrite bytes_at_lookup.
    rewrite Z.add_0_l, !(decide_True (P := (k < _)%nat)) by lia.
    by rewrite (decide_False (P := offset <= _ < _)) by lia.
  - rewrite lookup_app_r by lia. rewrite Hl. destruct (decide (k < Z.to_nat offset + length data)%nat).
    + rewrite lookup_app_l by lia. rewrite decide_True by lia. rewrite decide_True by lia.
      replace (Z.to_nat (Z.of_nat k - offset)) with (k - Z.to_nat offset)%nat by lia.
      destruct (lookup_lt_is_Some_2 data (k - Z.to_nat offset)) as (b & ->); [lia|done].
    + rewrite lookup_app_r by lia. rewrite lookup_drop, bytes_at_lookup.
      rewrite (decide_False (P := offset <= Z.of_nat k < _)) by lia.
      replace (Z.to_nat (offset + Z.of_nat (length data)) + (k - Z.to_nat offset - length data))%nat with k by lia.
      rewrite Z.add_0_l. apply decide_ext. lia.
Qed.

Lemma copy_memory_bytes `{Kernel} v n f file offset size :
  nd_type n = MemoryFile -> nd_ram_file n = Some f -> ram_files_ v !! f = Some file ->
  0 <= offset -> 0 <= size ->
  copy_memory_file v n offset size = take (Z.to_nat size) (drop (Z.to_nat offset) (bytes_of file)).
Proof.
  intros Hty Hf Hfile Ho Hs. unfold copy_memory_file, node_size_for, file_size, bytes_of.
  rewrite bool_decide_eq_false_2 by congruence. rewrite Hf, Hfile. cbn [from_option].
  apply list_eq. intros k. destruct (Z.leb_spec (rf_size file) offset) as [Hle|Hle].
  - symmetry. rewrite lookup_nil. apply lookup_ge_None_2.
    rewrite length_take, length_drop, bytes_at_length. lia.
  - rewrite bytes_at_lookup. unfold node_byte. rewrite Hf, Hfile. cbn [from_option]. case_decide.
    + rewrite lookup_take_lt by lia. rewrite lookup_drop, bytes_at_lookup. rewrite decide_True by lia.
      f_equal. f_equal. lia.
    + symmetry. apply lookup_ge_None_2. rewrite length_take, length_drop, bytes_at_length. lia.
Qed.

(** ** Writing *)

(** How many bytes a write of [n] bytes at [offset] stores. *)
Definition stored (n offset : Z) : Z := Z.min n (kMaxRamFileBytes - offset).

Definition written_file (offset : Z) (data : list Z) (file : RamFile) : RamFile :=
  file <| rf_data ::= write_bytes offset data |> <| rf_size := Z.max (rf_size file) (offset + zlen data) |>.

Lemma write_ram_spec `{Kernel} slot i f offset buffer v file :
  ram_files_ v !! f = Some file -> 0 <= offset < kMaxRamFileBytes ->
  let m := stored (zlen buffer) offset in
  let data := take (Z.to_nat m) buffer in
  let '(v', n) := write_ram slot i f offset buffer v in
  n = m /\ zlen data = m /\
  ram_files_ v' = <[f := written_file offset data file]> (ram_files_ v) /\
  ram_directories_ v' = ram_directories_ v /\ ram_links_ v' = ram_links_ v /\ count_ v' = count_ v /\
  handles_ v' = alter (fun h => h <| fh_offset ::= fun o => w64 (o + m) |>) slot (handles_ v) /\
  exists size, nodes_ v' = alter (fun n => n <| nd_base := ram_data_addr f |> <| nd_size := size |>) i (nodes_ v).
Proof.
  intros Hf Ho m data. pose proof (lookup_lt_Some _ _ _ Hf) as Hlt.
  assert (Hm : 0 <= m <= zlen buffer) by (unfold m, stored, zlen in *; lia).
  assert (Hd : zlen data = m) by (unfold data, zlen in *; rewrite length_take; lia).
  unfold write_ram. rewrite (proj2 (Z.leb_gt _ _)) by lia. change (Z.min _ _) with m.
  assert (Hfs : alter (fun f => if rf_size f <? offset + m then f <| rf_size := offset + m |> else f) f
     (alter (fun f => f <| rf_data ::= write_bytes offset (take (Z.to_nat m) buffer) |>) f (ram_files_ v)) =
     <[f := written_file offset data file]> (ram_files_ v)).
  { rewrite (alter_insert _ _ (ram_files_ v) file) by done.
    rewrite (alter_insert _ _ _ (file <| rf_data ::= write_bytes offset data |>))
      by (by apply list_lookup_insert_eq).
    rewrite list_insert_insert_eq. f_equal. unfold written_file. rewrite Hd. simpl.
    destruct (Z.ltb_spec (rf_size file) (offset + m)).
    - by rewrite Z.max_r by lia.
    - rewrite Z.max_l by lia. by destruct file. }
  destruct (m <? zlen buffer); simpl; split_and!; try done; by eexists.
Qed.

Lemma alter_same_entry v v' i f size base n :
  live v !! i = Some n -> nd_ram_file n = Some f -> count_ v' = count_ v ->
  nodes_ v' = alter (fun n => n <| nd_base := base |> <| nd_size := size |>) i (nodes_ v) ->
  Forall2 same_entry (live v) (live v') /\ length (nodes_ v') = length (nodes_ v).
Proof.
  intros Hi Hf Hc Hn. destruct (live_lookup v i n Hi) as [Hni _]. split; [|by rewrite Hn, length_alter].
  unfold live. rewrite Hc, Hn. apply Forall2_take. apply Forall2_same_length_lookup_2; [by rewrite length_alter|].
  intros j x y Hx Hy. destruct (decide (i = j)) as [<-|Hne].
  - rewrite list_lookup_alter_eq, Hni in Hy. rewrite Hni in Hx. injection Hx as <-. injection Hy as <-.
    split; [done|]. unfold entry_of. simpl. by rewrite Hf.
  - rewrite list_lookup_alter_ne, Hx in Hy by done. by injection Hy as <-.
Qed.

Lemma index_of_alter {A} (P : A -> Prop) `{forall x, Decision (P x)} (g : A -> A) i (l : list A) :
  (forall x, P (g x) <-> P x) -> index_of P (alter g i l) = index_of P l.
Proof.
  intros Hg. unfold index_of. revert i.
  assert (Hcons : forall x (l : list A), fst <$> list_find P (x :: l) =
            if decide (P x) then Some O else S <$> (fst <$> list_find P l)).
  { intros x l'. simpl. case_decide; [done|]. by destruct (list_find P l') as [[? ?]|]. }
  induction l as [|x l IH]; intros [|i]; try done.
  - change (alter g 0%nat (x :: l)) with (g x :: l). rewrite !Hcons. destruct (decide (P (g x))) as [HP|HP], (decide (P x)) as [HP'|HP']; try done; exfalso; by apply HP', Hg + apply HP, Hg.
  - change (alter g (S i) (x :: l)) with (x :: alter g i l). by rewrite !Hcons, IH.
Qed.

(** Moving the offset of one handle changes no handle's identity. *)
Lemma on_file_offset v v' (g : Z -> Z) slot :
  (forall j n f, live v !! j = Some n -> nd_ram_file n = Some f ->
     exists n', live v' !! j = Some n' /\ nd_ram_file n' = Some f) ->
  handles_ v' = alter (fun h => h <| fh_offset ::= g |>) slot (handles_ v) ->
  forall h s i f o, on_file v h s i f o -> on_file v' h s i f (if decide (s = slot) then g o else o).
Proof.
  intros Hlive Hh h s i f o [H1 (e & He & H2 & H3 & H4) (n & Hn & Hf)]. split.
  - unfold handle_for in *. destruct (h =? 0); [done|]. rewrite Hh, index_of_alter; done.
  - rewrite Hh. case_decide as Hs.
    + subst s. rewrite list_lookup_alter_eq, He. eexists. split; [done|]. simpl. by rewrite H4.
    + exists e. by rewrite list_lookup_alter_ne.
  - by apply (Hlive i n).
Qed.

Lemma inode_file v f c :
  vfs_wf v -> inode v f = Some c ->
  exists file, ram_files_ v !! f = Some file /\ rf_used file = true /\ c = bytes_of file /\
               zlen c = rf_size file /\ 0 <= rf_size file <= kMaxRamFileBytes.
Proof.
  intros Hwf Hc. unfold inode in Hc. apply bind_Some in Hc as (file & Hf & Hc).
  destruct (rf_used file) eqn:Hu; [|done]. injection Hc as <-. exists file.
  destruct (vw_files v Hwf f file Hf Hu) as [Hs _]. split_and!; try done; try lia.
  unfold zlen, bytes_of. rewrite bytes_at_length. lia.
Qed.

Lemma write_handle_file `{Kernel} `{Terminal} v t h slot i f offset c buffer :
  vfs_wf v -> on_file v h slot i f offset -> inode v f = Some c ->
  0 <= offset <= zlen c -> offset < kMaxRamFileBytes -> buffer <> [] ->
  let m := stored (zlen buffer) offset in
  exists v', write_handle h buffer v t = (v', t, m) /\ vfs_wf v' /\ names v' = names v /\
    (forall g, inode v' g = if decide (g = f) then Some (overwrite c offset (take (Z.to_nat m) buffer)) else inode v g) /\
    (forall h s j g o, on_file v h s j g o -> on_file v' h s j g (if decide (s = slot) then w64 (o + m) else o)).
Proof.
  intros Hwf [Hslot (e & He & Hdyn & Hnode & Hoff) (n & Hn & Hnf)] Hc Ho Hmax Hb m.
  destruct (inode_file v f c Hwf Hc) as (file & Hfile & Hu & -> & Hlen & Hsize).
  pose proof (live_ok v n Hwf (list_elem_of_lookup_2 _ _ _ Hn)) as Hok.
  destruct (no_file v n Hok f Hnf) as (Hty & Hw & _ & _). destruct (live_lookup v i n Hn) as [Hni _].
  pose proof (write_ram_spec slot i f offset buffer v file Hfile ltac:(lia)) as HW. cbv zeta in HW.
  unfold write_handle. rewrite Hslot, He, Hnode, Hni, Hty, Hw, Hnf, Hoff. cbn [negb].
  rewrite (proj2 (Z.eqb_neq (zlen buffer) 0)) by (destruct buffer; done).
  destruct (write_ram slot i f offset buffer v) as [v' m'].
  destruct HW as (-> & Hd & Hfs & Hds & Hls & Hct & Hhs & size & Hns). fold m in Hd, Hfs, Hhs |- *.
  set (data := take (Z.to_nat m) buffer) in *.
  assert (Hmax2 : offset + m <= kMaxRamFileBytes) by (unfold m, stored; lia).
  destruct (content_slots v v' f file (written_file offset data file)) as (K & F & I); try done.
  { unfold written_file. simpl. unfold zlen in *. lia. }
  destruct (alter_same_entry v v' i f size (ram_data_addr f) n) as [Hsame HL]; try done.
  destruct (reshape_wf v v') as [W N]; try done.
  exists v'. split_and!; try done.
  - intros g. rewrite I. case_decide; [|done]. f_equal. rewrite <- overwrite_bytes by lia. done.
  - apply on_file_offset; [|done]. intros j x g Hj Hg.
    destruct (Forall2_lookup_l _ _ _ _ _ Hsame Hj) as (x' & Hj' & _ & [= _ _ _ E _ _ _ _]).
    exists x'. split; [done|congruence].
Qed.

(** ** Seeking and reading *)

Lemma handles_only v hs :
  let v' := v <| handles_ := hs |> in
  (vfs_wf v -> vfs_wf v') /\ names v' = names v /\ (forall g, inode v' g = inode v g).
Proof. by apply same_tables. Qed.

Lemma seek_handle_file `{Kernel} v h slot i f o c offset :
  vfs_wf v -> on_file v h slot i f o -> inode v f = Some c -> offset <= zlen c ->
  exists v', seek_handle h offset v = (v', true) /\ on_file v' h slot i f offset /\
    vfs_wf v' /\ names v' = names v /\ (forall g, inode v' g = inode v g).
Proof.
  intros Hwf Hon Hc Ho. destruct (inode_file v f c Hwf Hc) as (file & Hfile & Hu & -> & Hlen & Hsize).
  destruct (Hon) as [Hslot (e & He & Hdyn & Hnode & Hoff) (n & Hn & Hnf)].
  pose proof (live_ok v n Hwf (list_elem_of_lookup_2 _ _ _ Hn)) as Hok.
  destruct (no_file v n Hok f Hnf) as (Hty & _). destruct (live_lookup v i n Hn) as [Hni _].
  unfold seek_handle. rewrite Hslot, He, Hdyn, Hnode. unfold node_at. cbn [mbind option_bind].
  rewrite Hni. unfold node_size_for, file_size. rewrite bool_decide_eq_false_2 by congruence.
  rewrite Hnf, Hfile. cbn [from_option]. rewrite (proj2 (Z.ltb_ge _ _)) by lia.
  eexists. split; [done|]. split_and!.
  - pose proof (on_file_offset v (v <| handles_ ::= alter (fun h => h <| fh_offset := offset |>) slot |>)
      (fun _ => offset) slot) as H1.
    specialize (H1 ltac:(intros j x g Hj Hg; by exists x) eq_refl h slot i f o Hon). by rewrite decide_True in H1.
  - by apply (handles_only v).
  - by apply (handles_only v).
  - by apply (handles_only v).
Qed.

Lemma read_handle_file `{Kernel} `{Terminal} v t h slot i f offset c size :
  vfs_wf v -> on_file v h slot i f offset -> inode v f = Some c -> 0 <= offset -> 0 < size ->
  exists v', read_handle h size v t = (v', t, take (Z.to_nat size) (drop (Z.to_nat offset) c)) /\
    vfs_wf v' /\ names v' = names v /\ (forall g, inode v' g = inode v g).
Proof.
  intros Hwf Hon Hc Ho Hs. destruct (inode_file v f c Hwf Hc) as (file & Hfile & Hu & -> & Hlen & Hsize).
  destruct (Hon) as [Hslot (e & He & Hdyn & Hnode & Hoff) (n & Hn & Hnf)].
  pose proof (live_ok v n Hwf (list_elem_of_lookup_2 _ _ _ Hn)) as Hok.
  destruct (no_file v n Hok f Hnf) as (Hty & _). destruct (live_lookup v i n Hn) as [Hni _].
  unfold read_handle. rewrite Hslot, He, (proj2 (Z.eqb_neq size 0)), Hdyn, Hnode by lia.
  unfold node_at. cbn [mbind option_bind]. rewrite Hni, Hty, Hoff.
  rewrite (copy_memory_bytes v n f file) by (done || lia). eexists. split; [done|].
  split_and!; by apply (handles_only v).
Qed.

Lemma overwrite_read c offset data :
  0 <= offset <= zlen c -> take (length data) (drop (Z.to_nat offset) (overwrite c offset data)) = data.
Proof.
  intros Ho. unfold overwrite, zlen in *. rewrite drop_app_length' by (rewrite length_take; lia).
  apply take_app_length.
Qed.

(** C35. Writing through an open RAM file stores as many bytes as fit in the
    file's 4096, replaces exactly those bytes of the contents and touches no
    other file or name; any handle on the same file (the same one, or one opened
    through another hard link) that seeks back to that offset reads them. *)
Theorem written_bytes_are_read `{Kernel} `{Terminal} v t h slot i f offset c buffer h2 slot2 i2 o2 :
  vfs_wf v -> on_file v h slot i f offset -> on_file v h2 slot2 i2 f o2 -> inode v f = Some c ->
  0 <= offset <= zlen c -> offset < kMaxRamFileBytes -> buffer <> [] ->
  let m := stored (zlen buffer) offset in
  let data := take (Z.to_nat m) buffer in
  exists v1 v2 v3,
    write_handle h buffer v t = (v1, t, m) /\ seek_handle h2 offset v1 = (v2, true) /\
    read_handle h2 m v2 t = (v3, t, data) /\ names v3 = names v /\
    (forall g, inode v3 g = if decide (g = f) then Some (overwrite c offset data) else inode v g).
Proof.
  intros Hwf Hon Hon2 Hc Ho Hmax Hb m data.
  assert (Hm : 0 < m <= zlen buffer) by (unfold m, stored, zlen in *; destruct buffer; simpl in *; [done|lia]).
  assert (Hd : length data = Z.to_nat m) by (unfold data; rewrite length_take; unfold zlen in *; lia).
  destruct (write_handle_file v t h slot i f offset c buffer) as (v1 & E1 & W1 & N1 & I1 & O1); try done.
  fold m data in E1, I1, O1. pose proof (I1 f) as If. rewrite decide_True in If by done.
  destruct (seek_handle_file v1 h2 slot2 i2 f _ _ offset W1 (O1 _ _ _ _ _ Hon2) If) as (v2 & E2 & O2 & W2 & N2 & I2).
  { unfold overwrite, zlen in *. rewrite !length_app, length_take, length_drop. lia. }
  destruct (read_handle_file v2 t h2 slot2 i2 f offset _ m W2 O2 (eq_trans (I2 f) If)) as (v3 & E3 & W3 & N3 & I3);
    [lia..|].
  exists v1, v2, v3. split_and!; try done.
  - pose proof (overwrite_read c offset data Ho) as R. rewrite Hd in R. by rewrite E3, R.
  - congruence.
  - intros g. by rewrite I3, I2, I1.
Qed.

(** ** The life of a handle *)

Definition distinct_ids (v : Vfs) : Prop :=
  forall s1 s2 e1 e2, handles_ v !! s1 = Some e1 -> handles_ v !! s2 = Some e2 ->
    fh_open e1 = true -> fh_open e2 = true -> fh_id e1 = fh_id e2 -> s1 = s2.

(** Slot [s] holds the open handle [e], and no other does under its number. *)
Definition holds (v : Vfs) (s : nat) (e : FileHandle) : Prop :=
  distinct_ids v /\ handles_ v !! s = Some e /\ fh_open e = true /\ fh_id e <> 0.

Lemma holds_handle_for v s e : holds v s e -> handle_for v (fh_id e) = Some s.
Proof.
  intros (HD & Hs & Ho & Hid). unfold handle_for. rewrite (proj2 (Z.eqb_neq _ _)) by done.
  destruct (index_of_elem (fun x => fh_open x = true /\ fh_id x = fh_id e) (handles_ v) e) as (j & Hj); [|done|].
  { by apply list_elem_of_lookup_2 in Hs. }
  rewrite Hj. f_equal. apply index_of_Some in Hj as (x & Hx & (Hxo & Hxi) & _). by eapply HD.
Qed.

(** An update of the open handle in slot [s] that keeps its number. *)
Lemma holds_alter v s e (g : FileHandle -> FileHandle) v' :
  holds v s e -> handles_ v' = alter g s (handles_ v) -> fh_id (g e) = fh_id e -> fh_open (g e) = true ->
  holds v' s (g e).
Proof.
  intros (HD & Hs & Ho & Hid) Hh Hg Hgo. split_and!; try done.
  - intros s1 s2 e1 e2 H1 H2 O1 O2 Heq. rewrite Hh in H1, H2.
    assert (Hv : forall t x, alter g s (handles_ v) !! t = Some x -> fh_open x = true ->
              exists y, handles_ v !! t = Some y /\ fh_open y = true /\ fh_id y = fh_id x).
    { intros t x Ht Hx. destruct (decide (s = t)) as [->|Hne].
      - rewrite list_lookup_alter_eq, Hs in Ht. injection Ht as <-. by exists e.
      - rewrite list_lookup_alter_ne in Ht by done. by exists x. }
    destruct (Hv s1 e1 H1 O1) as (y1 & ? & ? & ?), (Hv s2 e2 H2 O2) as (y2 & ? & ? & ?).
    apply (HD s1 s2 y1 y2); try done. congruence.
  - by rewrite Hh, list_lookup_alter_eq, Hs.
  - by rewrite Hg.
Qed.

Definition ref (e : FileHandle) (r : Z) : FileHandle := e <| fh_ref_count := r |>.

Lemma retain_step v s e r :
  holds v s (ref e r) -> 0 <= r < 0xffffffff -> fh_id e <> 0 ->
  exists v', retain_handle (fh_id e) v = (v', true) /\ holds v' s (ref e (r + 1)).
Proof.
  intros Hh Hr Hid. pose proof (holds_handle_for v s _ Hh) as Hf. simpl in Hf.
  destruct (Hh) as (_ & Hs & _). unfold retain_handle. rewrite Hf, Hs. simpl fh_ref_count.
  rewrite (proj2 (Z.eqb_neq _ _)) by lia. eexists. split; [done|].
  replace (ref e (r + 1)) with (ref e r <| fh_ref_count ::= inc32 |>).
  - eapply holds_alter; try done. apply Hh.
  - unfold ref. simpl. f_equal. word_lia.
Qed.

Lemma close_step v s e r :
  holds v s (ref e r) -> 1 < r ->
  exists v', close (fh_id e) v = (v', true) /\ holds v' s (ref e (r - 1)).
Proof.
  intros Hh Hr. pose proof (holds_handle_for v s _ Hh) as Hf. simpl in Hf.
  destruct (Hh) as (_ & Hs & Ho & _). unfold close. rewrite Hf, Hs. simpl fh_ref_count.
  rewrite (proj2 (Z.ltb_lt _ _)) by lia. eexists. split; [done|].
  replace (ref e (r - 1)) with (ref e r <| fh_ref_count ::= fun n => n - 1 |>) by done.
  by eapply holds_alter.
Qed.

Lemma close_last v s e :
  holds v s (ref e 1) ->
  exists v', close (fh_id e) v = (v', true) /\ handle_for v' (fh_id e) = None /\
    handles_ v' = <[s := FileHandle0]> (handles_ v).
Proof.
  intros Hh. pose proof (holds_handle_for v s _ Hh) as Hf. simpl in Hf.
  destruct (Hh) as (HD & Hs & Ho & Hid). unfold close. rewrite Hf, Hs. simpl fh_ref_count.
  change (1 <? 1) with false. cbv iota. eexists. split; [done|]. split; [|done]. unfold handle_for.
  rewrite (proj2 (Z.eqb_neq _ _)) by done. destruct (index_of _ _) as [j|] eqn:Ej; [|done].
  apply index_of_Some in Ej as (x & Hx & (Hxo & Hxi) & _). simpl in Hx.
  apply list_lookup_insert_Some in Hx as [(_ & <- & _)|[Hne Hx]]; [done|].
  exfalso. apply Hne. by apply (HD s j (ref e 1) x).
Qed.

Definition retains (id : Z) (k : nat) (v : Vfs) : Vfs := Nat.iter k (fun v => (retain_handle id v).1) v.
Definition closes (id : Z) (k : nat) (v : Vfs) : Vfs := Nat.iter k (fun v => (close id v).1) v.

Lemma retains_hold v s e r k :
  holds v s (ref e r) -> 0 <= r -> r + Z.of_nat k <= 0xffffffff -> fh_id e <> 0 ->
  holds (retains (fh_id e) k v) s (ref e (r + Z.of_nat k)).
Proof.
  intros Hh Hr. induction k as [|k IH]; intros Hk Hid; [by rewrite Z.add_0_r|].
  simpl. fold (retains (fh_id e) k v).
  destruct (retain_step (retains (fh_id e) k v) s e (r + Z.of_nat k)) as (v' & E & H'); [apply IH; lia || done|lia|done|].
  rewrite E. simpl. by replace (r + Z.of_nat (S k)) with (r + Z.of_nat k + 1) by lia.
Qed.

Lemma closes_hold v s e r k :
  holds v s (ref e r) -> Z.of_nat k < r -> holds (closes (fh_id e) k v) s (ref e (r - Z.of_nat k)).
Proof.
  intros Hh. induction k as [|k IH]; intros Hk; [by rewrite Z.sub_0_r|]. simpl. fold (closes (fh_id e) k v).
  destruct (close_step (closes (fh_id e) k v) s e (r - Z.of_nat k)) as (v' & E & H'); [apply IH; lia|lia|].
  rewrite E. simpl. by replace (r - Z.of_nat (S k)) with (r - Z.of_nat k - 1) by lia.
Qed.

(** A number that no open handle has. *)
Definition unused (v : Vfs) (id : Z) : Prop :=
  forall e, e ∈ handles_ v -> fh_open e = true -> fh_id e <> id.

Lemma open_slot_holds v node path dynamic v' id :
  distinct_ids v -> open_slot node path dynamic v = (v', id) -> id <> 0 -> unused v id ->
  exists s, holds v' s (mkFileHandle id node 0 1 true dynamic (copy_path path)).
Proof.
  intros HD Ho Hid Hu. unfold open_slot in Ho. destruct (index_of _ _) as [s|] eqn:Es.
  2: { by injection Ho as _ <-. }
  apply index_of_Some in Es as (old & Hs & Hold & _). pose proof (lookup_lt_Some _ _ _ Hs) as Hlt.
  destruct (if _ =? _ then _ else _) as [id' next]. injection Ho as <- <-. exists s.
  set (e := mkFileHandle _ _ _ _ _ _ _). split_and!; try done.
  2: by apply list_lookup_insert_eq.
  assert (Hnew : forall t x, <[s := e]> (handles_ v) !! t = Some x -> fh_open x = true ->
            (t = s /\ fh_id x = id') \/ (handles_ v !! t = Some x /\ fh_id x <> id')).
  { intros t x Ht Hx. apply list_lookup_insert_Some in Ht as [(<- & <- & _)|[Hne Ht]]; [by left|right].
    split; [done|]. apply Hu; [by apply list_elem_of_lookup_2 in Ht|done]. }
  intros s1 s2 e1 e2 H1 H2 O1 O2 Heq. simpl in H1, H2.
  destruct (Hnew s1 e1 H1 O1) as [[-> ?]|[? ?]], (Hnew s2 e2 H2 O2) as [[-> ?]|[? ?]]; try congruence.
  by eapply HD.
Qed.

(** A handle that [open] returned and that has been retained [k] times
    stays open through [k] closes and is gone after one more, provided its
    number was not in use when it was handed out. *)
Theorem handle_survives_its_references `{Kernel} path v v' id k :
  distinct_ids v -> vopen path v = (v', id) -> id <> 0 -> unused v id -> Z.of_nat k < 0xffffffff ->
  (forall j, (j <= k)%nat -> is_Some (handle_for (closes id j (retains id k v')) id)) /\
  handle_for (closes id (S k) (retains id k v')) id = None.
Proof.
  intros HD Ho Hid Hu Hk.
  assert (Hs : exists s e, holds v' s (ref e 1) /\ fh_id e = id).
  { assert (Hopen : forall node p dynamic, open_slot node p dynamic v = (v', id) ->
              exists s e, holds v' s (ref e 1) /\ fh_id e = id).
    { intros node p dynamic E. destruct (open_slot_holds v node p dynamic v' id) as (s & Hh); try done.
      by exists s, (mkFileHandle id node 0 1 true dynamic (copy_path p)). }
    unfold vopen in Ho. destruct (find v path) as [i|].
    - destruct (node_at v (Some i)) as [n|]; [|by injection Ho as _ <-].
      destruct (nd_type n); try (by injection Ho as _ <-); by eapply Hopen.
    - destruct (normalize_path path); [|by injection Ho as _ <-].
      destruct (_ =? 0); [by injection Ho as _ <-|]. by eapply Hopen. }
  destruct Hs as (s & e & Hh & <-).
  assert (Hr : holds (retains (fh_id e) k v') s (ref e (1 + Z.of_nat k))) by (apply retains_hold; done || lia).
  split.
  - intros j Hj. pose proof (closes_hold _ s e _ j Hr ltac:(lia)) as Hc. apply holds_handle_for in Hc. by eexists.
  - pose proof (closes_hold _ s e _ k Hr ltac:(lia)) as Hc.
    replace (1 + Z.of_nat k - Z.of_nat k) with 1 in Hc by lia. apply close_last in Hc as (v'' & E & Hn & _).
    simpl. fold (closes (fh_id e) k (retains (fh_id e) k v')). by rewrite E.
Qed.

(** ** Deletion and the handles of other files *)

(** Deleting a file moves the nodes after it down by one but leaves open
    handles pointing at the old places: a handle on a later node refers, from
    then on, to the file of the node that followed its own. *)
Theorem delete_shifts_open_handles v v' path i h j n :
  vfs_wf v -> delete_ram_file path v = (v', true) -> find v path = Some i ->
  h ∈ handles_ v -> fh_open h = true -> fh_node h = Some j -> (i <= j)%nat ->
  live v !! S j = Some n ->
  h ∈ handles_ v' /\ handle_ram_file v' h = nd_ram_file n.
Proof.
  intros Hwf Hdel Hfind Hh Hopen Hnode Hij Hn. unfold delete_ram_file in Hdel.
  destruct (normalize_path path) as [p|] eqn:Ep; [|done].
  destruct (index_of _ _) as [k|] eqn:Ek; [|done].
  apply index_of_Some in Ek as (x & Hk & (Hx & _) & _). destruct (live_lookup v k x Hk) as [Hkn Hkc].
  pose proof (find_spec v path p Hwf Ep) as HF. rewrite Hfind in HF. destruct HF as (y & Hy & _ & Hyt & _).
  assert (k = i) as -> by (by eapply live_inj).
  destruct (node_at v (Some i) ≫= nd_ram_file) as [f|]; [|done]. destruct (existsb _ _); [done|].
  injection Hdel as <-.
  destruct (remove_node_live (forget_link p v) i (vw_nodes v Hwf) (vw_count v Hwf) Hkc) as (L1 & _).
  set (v2 := remove_node i (forget_link p v)) in *.
  split; [unfold release_file; by destruct (existsb _ _)|].
  assert (Hat : nodes_ v2 !! j = Some n).
  { apply live_lookup. rewrite L1. rewrite list_lookup_delete_ge by done. done. }
  unfold handle_ram_file. rewrite Hopen, Hnode. unfold node_at. cbn [mbind option_bind].
  assert (nodes_ (bump ram_file_deletes (release_file f v2)) = nodes_ v2) as ->
    by (unfold release_file; by destruct (existsb _ _)).
  by rewrite Hat.
Qed.

(** ** Concrete runs *)

#[local] Instance demo_kernel : Kernel :=
  {| ram_data_addr := fun f => 0x400000 + Z.of_nat f * 0x1000; memory_byte := fun _ => 0;
     render_virtual_file := fun _ _ => []; render_dynamic_proc_file := fun _ _ => [] |}.
#[local] Instance demo_terminal : Terminal :=
  {| tty := unit; terminal_read_input := fun _ t => ([], t); terminal_write := fun b t => (zlen b, t) |}.

Definition demo_tty : @tty demo_terminal := tt.

(** [/tmp/b] opened by its name and through its hard link [/tmp/c]. *)
Definition demo_b : Vfs := (vopen (cs "/tmp/b") demo_files).1.
Definition demo_open : Vfs := (vopen (cs "/tmp/c") demo_b).1.

Lemma handles_change v v' :
  nodes_ v' = nodes_ v -> count_ v' = count_ v -> ram_files_ v' = ram_files_ v ->
  ram_directories_ v' = ram_directories_ v -> ram_links_ v' = ram_links_ v -> vfs_wf v -> vfs_wf v'.
Proof. intros H1 H2 H3 H4 H5. by apply same_tables. Qed.

Lemma vopen_wf path v : vfs_wf v -> vfs_wf (vopen path v).1.
Proof.
  assert (Hs : forall node p d, vfs_wf v -> vfs_wf (open_slot node p d v).1).
  { intros node p d. unfold open_slot. destruct (index_of _ _); [|done].
    destruct (if _ =? _ then _ else _). by apply handles_change. }
  intros Hwf. unfold vopen. destruct (find v path) as [i|].
  - destruct (node_at v (Some i)) as [n|]; [|done]. destruct (nd_type n); try done; by apply Hs.
  - destruct (normalize_path path); [|done]. destruct (_ =? 0); [done|]. by apply Hs.
Qed.

Lemma demo_open_wf : vfs_wf demo_open.
Proof. apply vopen_wf, vopen_wf, demo_files_wf. Qed.

Lemma written_bytes_are_read_witness :
  exists v1 v2 v3,
    write_handle 1 [104; 105; 33; 10] demo_open demo_tty = (v1, demo_tty, 4) /\
    seek_handle 2 0 v1 = (v2, true) /\ read_handle 2 4 v2 demo_tty = (v3, demo_tty, [104; 105; 33; 10]) /\
    names v3 = names demo_open /\
    (forall g, inode v3 g = if decide (g = 1%nat) then Some [104; 105; 33; 10] else inode demo_open g).
Proof.
  apply (written_bytes_are_read demo_open demo_tty 1 0 3 1 0 [0; 0; 0] [104; 105; 33; 10] 2 1 4 0 demo_open_wf).
  - split; [vm_compute; reflexivity|eexists; vm_compute; split_and!; reflexivity|eexists; vm_compute; split; reflexivity].
  - split; [vm_compute; reflexivity|eexists; vm_compute; split_and!; reflexivity|eexists; vm_compute; split; reflexivity].
  - vm_compute. reflexivity.
  - split; [lia|]. vm_compute. discriminate.
  - reflexivity.
  - discriminate.
Defined.

Lemma no_handles v : handles_ v = replicate kMaxFileHandles FileHandle0 -> distinct_ids v /\ (forall id, unused v id).
Proof.
  intros E. split.
  - intros s1 s2 e1 e2 H1 H2 O1. rewrite E in H1. apply lookup_replicate_1 in H1 as [-> _]. done.
  - intros id e He. rewrite E in He. apply elem_of_replicate in He as [-> _]. done.
Qed.

Lemma handle_survives_its_references_witness :
  (forall j, (j <= 2)%nat -> is_Some (handle_for (closes 1 j (retains 1 2 demo_b)) 1)) /\
  handle_for (closes 1 3 (retains 1 2 demo_b)) 1 = None.
Proof.
  apply (handle_survives_its_references (cs "/tmp/b") demo_files demo_b 1 2).
  - apply no_handles. vm_compute. reflexivity.
  - unfold demo_b. apply pair_snd. vm_compute. reflexivity.
  - discriminate.
  - apply no_handles. vm_compute. reflexivity.
  - lia.
Defined.

(** [/tmp/b] is open when [/tmp/a], registered before it, is deleted. *)
Definition demo_three : Vfs :=
  run_ops [CreateFile (cs "/tmp/a"); CreateFile (cs "/tmp/b"); CreateFile (cs "/tmp/d")] demo_vfs.
Definition demo_three_open : Vfs := (vopen (cs "/tmp/b") demo_three).1.
Definition demo_handle : FileHandle := mkFileHandle 1 (Some 3%nat) 0 1 true false (cs "/tmp/b").
Definition demo_deleted : Vfs := (delete_ram_file (cs "/tmp/a") demo_three_open).1.

Lemma demo_three_wf : vfs_wf demo_three_open.
Proof. apply vopen_wf, run_ops_wf; [apply demo_vfs_wf|]. repeat constructor; done. Qed.

Lemma delete_shifts_open_handles_witness :
  handle_ram_file demo_three_open demo_handle = Some 1%nat /\
  demo_handle ∈ handles_ demo_deleted /\ handle_ram_file demo_deleted demo_handle = Some 2%nat.
Proof.
  split; [vm_compute; reflexivity|].
  apply (delete_shifts_open_handles demo_three_open demo_deleted (cs "/tmp/a") 2 demo_handle 3
    (mkNode (Some (FilePath 2)) MemoryFile 0x402000 0 true false (Some 2%nat) NoDevice NoVirtual) demo_three_wf).
  - unfold demo_deleted. apply pair_snd. vm_compute. reflexivity.
  - vm_compute. reflexivity.
  - apply (list_elem_of_lookup_2 _ 0). vm_compute. reflexivity.
  - reflexivity.
  - reflexivity.
  - lia.
  - vm_compute. reflexivity.
Defined.

(** Renaming a directory to a path below itself succeeds, and leaves it with a
    parent that does not exist. *)
Example rename_into_itself :
  let v := run_ops [CreateDirectory (cs "/tmp/d"); Rename (cs "/tmp/d") (cs "/tmp/d/x")] demo_vfs in
  is_directory v (find v (cs "/tmp/d/x")) = true /\ find v (cs "/tmp/d") = None.
Proof. vm_compute. done. Qed.
