(* ===== verification/Block.v ===== *)
(** * Block device and sector cache (kernel/src/block/block_device.cpp)

    The boot disk behind a cache of sixteen sectors replaced in turn.  The AHCI
    driver is an interface: a state of its own, a read that may fail, and the law
    that a read that succeeds gives the sector's contents. *)

From S2P Require Import Prelude.
#[local] Open Scope Z_scope.

(** ** The driver *)

Class SectorDriver := {
  drv : Type;
  driver_read : Z -> drv -> drv * option (list Z)
}.

(** What the medium holds, and that the driver reports it. *)
Class Medium `{SectorDriver} := {
  sector_at : Z -> list Z;
  driver_read_sound : forall lba d d' bytes, driver_read lba d = (d', Some bytes) -> bytes = sector_at lba;
  sector_length : forall lba, length (sector_at lba) = 512%nat
}.

(** ** State *)

Record BlockStats := mkBlockStats {
  initialized : bool;
  sector_count : Z;
  sector_reads : Z;
  multi_sector_reads : Z;
  cache_hits : Z;
  cache_misses : Z;
  cache_evictions : Z;
  invalid_reads : Z;
  null_buffer_rejects : Z;
  zero_count_rejects : Z;
  oversized_request_rejects : Z;
  backend_read_failures : Z;
  cache_fills : Z;
  cached_entries : Z;
  largest_request_sectors : Z;
  last_lba : Z
}.

Record CacheEntry := mkCacheEntry { ce_valid : bool; ce_lba : Z; ce_data : list Z }.

Definition kCacheEntries : Z := 16.

Record BlockDevice := mkBlockDevice {
  cache_ : list CacheEntry;
  next_victim_ : Z;
  bstats_ : BlockStats
}.

#[export] Instance BlockStats_eta : Eta BlockStats := fun r =>
  mkBlockStats (initialized r) (sector_count r) (sector_reads r) (multi_sector_reads r) (cache_hits r)
    (cache_misses r) (cache_evictions r) (invalid_reads r) (null_buffer_rejects r) (zero_count_rejects r)
    (oversized_request_rejects r) (backend_read_failures r) (cache_fills r) (cached_entries r)
    (largest_request_sectors r) (last_lba r).
#[export] Instance BlockDevice_eta : Eta BlockDevice := fun r =>
  mkBlockDevice (cache_ r) (next_victim_ r) (bstats_ r).

Definition CacheEntry0 : CacheEntry := mkCacheEntry false 0 (replicate 512 0).
Definition BlockStats0 : BlockStats := mkBlockStats false 0 0 0 0 0 0 0 0 0 0 0 0 0 0 0.

(** ** Operations *)

(** [identify_success && read_lba0_success] and [identify_sector_count] of the
    controller. *)
Definition initialize_ahci (controller_ready : bool) (sectors : Z) : BlockDevice * bool :=
  (mkBlockDevice (replicate (Z.to_nat kCacheEntries) CacheEntry0) 0
     (BlockStats0 <| initialized := controller_ready |> <| sector_count := sectors |>), controller_ready).

Definition refresh_cached_entry_count (b : BlockDevice) : BlockDevice :=
  b <| bstats_ ::= fun s => s <| cached_entries := Z.of_nat (length (filter (fun e => ce_valid e = true) (cache_ b))) |> |>.

Definition count_stat (field : BlockStats -> Z) `{!Setter field} (b : BlockDevice) : BlockDevice :=
  b <| bstats_ ::= setf field inc64 |>.

(** The first valid entry for a sector. *)
Fixpoint cache_lookup (lba : Z) (cache : list CacheEntry) : option (list Z) :=
  match cache with
  | [] => None
  | e :: cache => if ce_valid e && (ce_lba e =? lba) then Some (ce_data e) else cache_lookup lba cache
  end.

(** [out] is whether the caller's buffer is not null; the bytes copied into it
    are the result. *)
Definition read_sector `{SectorDriver} (lba : Z) (out : bool) (b : BlockDevice) (d : drv)
  : BlockDevice * drv * option (list Z) :=
  if negb (initialized (bstats_ b)) then (count_stat invalid_reads b, d, None) else
  if negb (sector_count (bstats_ b) =? 0) && (sector_count (bstats_ b) <=? lba)
  then (count_stat invalid_reads b, d, None) else
  if negb out then (count_stat null_buffer_rejects (count_stat invalid_reads b), d, None) else
  let b := count_stat sector_reads b <| bstats_ ::= fun s => s <| last_lba := lba |> |> in
  match cache_lookup lba (cache_ b) with
  | Some bytes => (count_stat cache_hits b, d, Some bytes)
  | None =>
    let victim := Z.to_nat (next_victim_ b mod kCacheEntries) in
    let b := b <| next_victim_ ::= inc32 |> in
    let b := if from_option ce_valid false (cache_ b !! victim) then count_stat cache_evictions b else b in
    let '(d, bytes) := driver_read lba d in
    match bytes with
    | None => (count_stat backend_read_failures b, d, None)
    | Some bytes =>
      let b := b <| cache_ ::= <[victim := mkCacheEntry true lba bytes]> |> in
      let b := refresh_cached_entry_count (count_stat cache_misses (count_stat cache_fills b)) in
      (b, d, Some bytes)
    end
  end.

(** [for (i = 0; i < sector_count; ++i) if (!read_sector(start_lba + i, ...)) return false] *)
Fixpoint read_sector_run `{SectorDriver} (lba : Z) (n : nat) (b : BlockDevice) (d : drv)
  : BlockDevice * drv * option (list Z) :=
  match n with
  | O => (b, d, Some [])
  | S n =>
    let '(b, d, bytes) := read_sector (w64 lba) true b d in
    match bytes with
    | None => (b, d, None)
    | Some bytes =>
      let '(b, d, rest) := read_sector_run (lba + 1) n b d in
      (b, d, app bytes <$> rest)
    end
  end.

Definition read_sectors `{SectorDriver} (start_lba count : Z) (out : bool) (b : BlockDevice) (d : drv)
  : BlockDevice * drv * option (list Z) :=
  if negb (initialized (bstats_ b)) then (count_stat invalid_reads b, d, None) else
  if negb out then (count_stat null_buffer_rejects (count_stat invalid_reads b), d, None) else
  if count =? 0 then (count_stat zero_count_rejects (count_stat invalid_reads b), d, None) else
  if 64 <? count then (count_stat oversized_request_rejects (count_stat invalid_reads b), d, None) else
  if negb (sector_count (bstats_ b) =? 0) &&
     ((sector_count (bstats_ b) <=? start_lba) || (sector_count (bstats_ b) - start_lba <? count))
  then (count_stat invalid_reads b, d, None) else
  let b := count_stat multi_sector_reads b in
  let b := if largest_request_sectors (bstats_ b) <? count
           then b <| bstats_ ::= fun s => s <| largest_request_sectors := count |> |> else b in
  read_sector_run start_lba (Z.to_nat count) b d.

(** ** Coherence *)

Record coherent `{Medium} (b : BlockDevice) : Prop := {
  co_size : length (cache_ b) = Z.to_nat kCacheEntries;
  co_data : forall i e, cache_ b !! i = Some e -> ce_valid e = true -> ce_data e = sector_at (ce_lba e);
  co_unique : forall i j e e', cache_ b !! i = Some e -> cache_ b !! j = Some e' ->
    ce_valid e = true -> ce_valid e' = true -> ce_lba e = ce_lba e' -> i = j
}.

(** Whether the checks before the cache let a request through. *)
Definition in_range (lba : Z) (b : BlockDevice) : Prop :=
  initialized (bstats_ b) = true /\ (sector_count (bstats_ b) = 0 \/ lba < sector_count (bstats_ b)).
Definition cached (lba : Z) (b : BlockDevice) : Prop :=
  exists e, e ∈ cache_ b /\ ce_valid e = true /\ ce_lba e = lba.

Section block.
Context {SD : SectorDriver} {M : @Medium SD}.

Lemma cache_lookup_Some lba cache bytes :
  cache_lookup lba cache = Some bytes -> exists e, e ∈ cache /\ ce_valid e = true /\ ce_lba e = lba /\ ce_data e = bytes.
Proof.
  induction cache as [|e cache IH]; simpl; [done|]. destruct (_ && _) eqn:E.
  - intros [= <-]. bsimp. exists e. split; [by left|done].
  - intros (e' & Hin & He)%IH. exists e'. split; [by right|done].
Qed.

Lemma cache_lookup_None lba cache :
  cache_lookup lba cache = None <-> forall e, e ∈ cache -> ce_valid e = true -> ce_lba e <> lba.
Proof.
  induction cache as [|e cache IH]; simpl.
  - split; [|done]. intros _ e He. by apply elem_of_nil in He.
  - destruct (ce_valid e) eqn:Ev, (Z.eqb_spec (ce_lba e) lba) as [El|El]; simpl.
    + split; [done|]. intros H. exfalso. by apply (H e); [left|..].
    + rewrite IH. split; intros H x; [intros [->|Hx]%elem_of_cons; [done|by apply H]|intros Hx; apply H; by right].
    + rewrite IH. split; intros H x; [intros [->|Hx]%elem_of_cons; [congruence|by apply H]|intros Hx; apply H; by right].
    + rewrite IH. split; intros H x; [intros [->|Hx]%elem_of_cons; [congruence|by apply H]|intros Hx; apply H; by right].
Qed.

Lemma coherent_stats b b' : cache_ b' = cache_ b -> coherent b -> coherent b'.
Proof. intros E [H1 H2 H3]. split; by rewrite E. Qed.

Lemma coherent_fill b v lba :
  coherent b -> cache_lookup lba (cache_ b) = None ->
  forall b', cache_ b' = <[v := mkCacheEntry true lba (sector_at lba)]> (cache_ b) -> coherent b'.
Proof.
  intros [H1 H2 H3] Hn b' E. rewrite cache_lookup_None in Hn.
  assert (Hother : forall i e, cache_ b !! i = Some e -> ce_valid e = true -> ce_lba e <> lba).
  { intros i e Hi. apply Hn. by apply list_elem_of_lookup_2 in Hi. }
  split; rewrite E.
  - by rewrite length_insert.
  - intros i e Hi He. apply list_lookup_insert_Some in Hi as [(<- & <- & _)|[_ Hi]]; [done|]. by apply (H2 i).
  - intros i j e e' Hi Hj He He' Heq.
    apply list_lookup_insert_Some in Hi as [(<- & <- & _)|[_ Hi]];
      apply list_lookup_insert_Some in Hj as [(<- & <- & _)|[_ Hj]]; try done.
    + exfalso. by apply (Hother j e').
    + exfalso. by apply (Hother i e).
    + by apply (H3 i j e e').
Qed.

(** One read: what it returns, and that the cache stays coherent. *)
Lemma read_sector_cases lba out b d b' d' r :
  coherent b -> read_sector lba out b d = (b', d', r) ->
  coherent b' /\ (forall bytes, r = Some bytes -> bytes = sector_at lba /\ in_range lba b /\ out = true) /\
  (in_range lba b -> out = true -> cached lba b -> r = Some (sector_at lba) /\ d' = d) /\
  (in_range lba b -> out = true -> r = None -> (driver_read lba d).2 = None) /\
  initialized (bstats_ b') = initialized (bstats_ b) /\ sector_count (bstats_ b') = sector_count (bstats_ b).
Proof.
  intros Hc. unfold read_sector, in_range. destruct (initialized (bstats_ b)) eqn:Ei; cbn [negb].
  2: { intros [= <- <- <-]. split_and!; [by apply (coherent_stats b)|done|by intros [? _]|by intros [? _]|done|done]. }
  destruct (negb _ && _) eqn:Er.
  { intros [= <- <- <-]. bsimp.
    split_and!; [by apply (coherent_stats b)|done|intros [_ [?|?]]; lia|intros [_ [?|?]]; lia|done|done]. }
  assert (Hr : sector_count (bstats_ b) = 0 \/ lba < sector_count (bstats_ b)).
  { apply andb_false_iff in Er as [E|E]; bsimp; [by left|right; lia]. }
  destruct out; cbn [negb].
  2: { intros [= <- <- <-]. split_and!; [by apply (coherent_stats b)|done..]. }
  cbn -[cache_lookup insert Z.modulo]. destruct (cache_lookup lba (cache_ b)) as [bytes|] eqn:El.
  - intros [= <- <- <-]. apply cache_lookup_Some in El as (e & Hin & Hv & <- & <-).
    apply list_elem_of_lookup in Hin as (i & Hi). pose proof (co_data b Hc i e Hi Hv) as ->.
    split_and!; [by apply (coherent_stats b)|by intros ? [= <-]|done..].
  - assert (Hnc : ~ cached lba b).
    { intros (e & Hin & Hv & Hl). rewrite cache_lookup_None in El. by apply (El e). }
    destruct (driver_read lba d) as [d1 [bytes|]] eqn:Ed; intros [= <- <- <-].
    + pose proof (driver_read_sound _ _ _ _ Ed) as ->.
      split_and!; [|by intros ? [= <-]|done|done|by destruct (from_option _ _ _)..].
      eapply coherent_fill; [exact Hc|exact El|]. simpl. by destruct (from_option _ _ _).
    + split_and!; [|done|done|done|by destruct (from_option _ _ _)..].
      apply (coherent_stats b); [|done]. by destruct (from_option _ _ _).
Qed.

(** The sectors a request covers. *)
Definition sectors_from (lba : Z) (n : nat) : list Z := concat ((fun i => sector_at (w64 (lba + Z.of_nat i))) <$> seq 0 n).

Lemma sectors_from_S lba n : sectors_from lba (S n) = sector_at (w64 lba) ++ sectors_from (lba + 1) n.
Proof.
  unfold sectors_from. cbn [seq fmap list_fmap concat]. rewrite Z.add_0_r. f_equal.
  rewrite <- (seq_shift n 0), <- list_fmap_compose. f_equal. apply list_fmap_ext. intros i x Hx. simpl.
  do 2 f_equal. lia.
Qed.

Lemma read_sector_run_cases lba n b d b' d' r :
  coherent b -> read_sector_run lba n b d = (b', d', r) ->
  coherent b' /\ (forall bytes, r = Some bytes -> bytes = sectors_from lba n).
Proof.
  revert lba b d b' d' r. induction n as [|n IH]; intros lba b d b' d' r Hc; cbn [read_sector_run].
  - intros [= <- <- <-]. split; [done|]. by intros ? [= <-].
  - destruct (read_sector (w64 lba) true b d) as [[b1 d1] [bytes|]] eqn:E1.
    2: { intros [= <- <- <-]. destruct (read_sector_cases _ _ _ _ _ _ _ Hc E1) as (? & _). done. }
    destruct (read_sector_cases _ _ _ _ _ _ _ Hc E1) as (Hc1 & Hb & _).
    destruct (read_sector_run (lba + 1) n b1 d1) as [[b2 d2] rest] eqn:E2. intros [= <- <- <-].
    destruct (IH _ _ _ _ _ _ Hc1 E2) as [Hc2 Hrest]. split; [done|].
    intros bs Hbs. apply fmap_Some in Hbs as (rs & -> & ->). rewrite sectors_from_S.
    by rewrite (Hrest rs eq_refl), (proj1 (Hb bytes eq_refl)).
Qed.

End block.


Lemma initial_coherent {SD : SectorDriver} {M : @Medium SD} ready sectors :
  coherent (initialize_ahci ready sectors).1.
Proof.
  split; simpl.
  - done.
  - intros i e He%(lookup_replicate_1 16). by destruct He as [-> _].
  - intros i j e e' He%(lookup_replicate_1 16). by destruct He as [-> _].
Qed.

(** ** A concrete disk of a hundred sectors *)

#[local] Instance demo_driver : SectorDriver :=
  {| drv := nat;
     driver_read := fun lba d => (S d, if lba <? 100 then Some (replicate 512 (lba mod 256)) else None) |}.
#[local] Instance demo_medium : @Medium demo_driver.
Proof.
  refine {| sector_at := fun lba => replicate 512 (lba mod 256) |}.
  - intros lba d d' bytes [= _ H]. destruct (lba <? 100); [by injection H as <-|done].
  - intros lba. apply length_replicate.
Defined.

Definition demo_disk : BlockDevice := (initialize_ahci true 100).1.
Definition demo_drv : @drv demo_driver := O.

