(* ===== verification/Fat16.v ===== *)
(** * FAT16 reader (kernel/src/fs/vfs.cpp, the file system's disk part)

    The geometry of a FAT16 volume, names of directory entries, and loading a
    file: the chain of clusters is followed through the table on disk and the
    bytes are copied into contiguous physical memory.  The specification is the
    stream of bytes the chain denotes. *)

From S2P Require Import Prelude Pmm Block.
From Stdlib Require Import Ascii.
#[local] Open Scope Z_scope.

(** ** Reading fields *)

Definition byte (bytes : list Z) (i : Z) : Z := default 0 (bytes !! Z.to_nat i).

Definition read_le16 (bytes : list Z) (offset : Z) : Z :=
  w16 (Z.lor (byte bytes offset) (Z.shiftl (byte bytes (offset + 1)) 8)).
Definition read_le32 (bytes : list Z) (offset : Z) : Z :=
  w32 (Z.lor (Z.lor (Z.lor (byte bytes offset) (Z.shiftl (byte bytes (offset + 1)) 8))
                    (Z.shiftl (byte bytes (offset + 2)) 16))
             (Z.shiftl (byte bytes (offset + 3)) 24)).

Record Fat16Geometry := mkFat16Geometry {
  bytes_per_sector : Z;
  sectors_per_cluster : Z;
  reserved_sectors : Z;
  fat_count : Z;
  root_entries : Z;
  fat_sectors : Z;
  total_sectors : Z;
  root_sector : Z;
  root_dir_sectors : Z;
  data_sector : Z
}.

Definition parse_fat16_geometry (sector : list Z) : option Fat16Geometry :=
  if negb (byte sector 510 =? 0x55) || negb (byte sector 511 =? 0xaa) then None else
  if negb (byte sector 54 =? 70) || negb (byte sector 55 =? 65) || negb (byte sector 56 =? 84)
     || negb (byte sector 57 =? 49) || negb (byte sector 58 =? 54) then None else
  let bytes_per_sector := read_le16 sector 11 in
  let sectors_per_cluster := byte sector 13 in
  let reserved_sectors := read_le16 sector 14 in
  let fat_count := byte sector 16 in
  let root_entries := read_le16 sector 17 in
  let total16 := read_le16 sector 19 in
  let total_sectors := if negb (total16 =? 0) then total16 else read_le32 sector 32 in
  let fat_sectors := read_le16 sector 22 in
  if negb (bytes_per_sector =? 512) || (sectors_per_cluster =? 0) || (reserved_sectors =? 0)
     || (fat_count =? 0) || (root_entries =? 0) || (fat_sectors =? 0) || (total_sectors =? 0) then None else
  let root_dir_sectors := w32 (w32 (root_entries * 32) + 511) / 512 in
  let root_sector := w32 (reserved_sectors + w32 (fat_count * fat_sectors)) in
  let data_sector := w32 (root_sector + root_dir_sectors) in
  if data_sector <? total_sectors
  then Some (mkFat16Geometry bytes_per_sector sectors_per_cluster reserved_sectors fat_count root_entries
               fat_sectors total_sectors root_sector root_dir_sectors data_sector)
  else None.

Definition lower_ascii (c : Z) : Z := if (65 <=? c) && (c <=? 90) then c - 65 + 97 else c.

(** [for (i = from; i < to && entry[i] != ' '; ++i)] *)
Definition name_chars (entry : list Z) (from to : nat) : list Z :=
  let field := take (to - from) (drop from entry) in
  lower_ascii <$> take (from_option id (length field) (fst <$> list_find (fun c => c = 32) field)) field.

(** The buffer of 16 takes the eight characters, the dot and the extension. *)
Definition fat_short_name (entry : list Z) : option (list Z) :=
  if (byte entry 0 =? 0) || (byte entry 0 =? 0xe5) || (byte entry 0 =? 46) then None else
  let base := name_chars entry 0 8 in
  let has_ext := negb (byte entry 8 =? 32) || negb (byte entry 9 =? 32) || negb (byte entry 10 =? 32) in
  let name := if has_ext then base ++ [46] else base in
  let name := name ++ name_chars entry 8 11 in
  if (length name =? 0)%nat then None else Some name.

(** ** Loading a file *)

Section loading.
Context {SD : SectorDriver}.

Record fatst := mkFatst { f_disk : BlockDevice; f_drv : drv; f_pmm : PhysicalMemoryManager; f_mem : sarr }.

#[export] Instance fatst_eta : Eta fatst := fun r => mkFatst (f_disk r) (f_drv r) (f_pmm r) (f_mem r).

Definition disk_sector (lba : Z) (st : fatst) : fatst * option (list Z) :=
  let '(b, d, r) := read_sector lba true (f_disk st) (f_drv st) in
  (st <| f_disk := b |> <| f_drv := d |>, r).

Definition read_fat_entry (g : Fat16Geometry) (cluster : Z) (st : fatst) : fatst * option Z :=
  let offset := w32 (cluster * 2) in
  let sector_index := w32 (reserved_sectors g + offset / 512) in
  let '(st, r) := disk_sector sector_index st in
  (st, (fun sector => read_le16 sector (offset mod 512)) <$> r).

(** [for (s = ...; s < sectors_per_cluster && copied < file_size; ++s)], [n]
    sectors remaining; the result is [copied], or nothing on a read error. *)
Fixpoint load_sectors (file_size base sector : Z) (n : nat) (copied : Z) (st : fatst) : fatst * option Z :=
  match n with
  | O => (st, Some copied)
  | S n =>
    if negb (copied <? file_size) then (st, Some copied) else
    let '(st, r) := disk_sector (w32 sector) st in
    match r with
    | None => (st, None)
    | Some bytes =>
      let remaining := file_size - copied in
      let to_copy := if remaining <? 512 then remaining else 512 in
      let st := st <| f_mem ::= write_bytes (base + copied) (take (Z.to_nat to_copy) bytes) |> in
      load_sectors file_size base (sector + 1) n (copied + to_copy) st
    end
  end.

Definition first_sector_of (g : Fat16Geometry) (cluster : Z) : Z :=
  w32 (data_sector g + w32 (w32 (cluster - 2) * sectors_per_cluster g)).

(** The [while] loop; [guard] counts the iterations it may still make. *)
Fixpoint load_clusters (guard : nat) (g : Fat16Geometry) (file_size base cluster copied : Z) (st : fatst)
  : fatst * option Z :=
  match guard with
  | O => (st, Some copied)
  | S guard =>
    if (2 <=? cluster) && (cluster <? 0xfff8) && (copied <? file_size) then
      let '(st, r) := load_sectors file_size base (first_sector_of g cluster)
                        (Z.to_nat (sectors_per_cluster g)) copied st in
      match r with
      | None => (st, None)
      | Some copied =>
        let '(st, next) := read_fat_entry g cluster st in
        match next with
        | None => (st, None)
        | Some next => load_clusters guard g file_size base next copied st
        end
      end
    else (st, Some copied)
  end.

(** [guard++ < 4096] *)
Definition kChainLimit : nat := Z.to_nat 4096.

(** The address of the file's bytes when it could be loaded. *)
Definition load_fat_file (g : Fat16Geometry) (first_cluster file_size : Z) (st : fatst) : fatst * option Z :=
  if (first_cluster <? 2) || (file_size =? 0) then (st, None) else
  let pages := align_up file_size kPageSize / kPageSize in
  let '(pmm, base) := allocate_contiguous pages (f_pmm st) in
  let st := st <| f_pmm := pmm |> in
  if base =? 0 then (st, None) else
  let st := st <| f_mem ::= clear_bytes base (base + pages * kPageSize) |> in
  let '(st, copied) := load_clusters kChainLimit g file_size base first_cluster 0 st in
  match copied with
  | Some copied => (st, if copied =? file_size then Some base else None)
  | None => (st, None)
  end.

End loading.

(** ** Specification: the bytes a chain of clusters denotes *)

Section spec.
Context {SD : SectorDriver} {M : @Medium SD}.

Definition sectors_bytes (sector : Z) (n : nat) : list Z :=
  concat ((fun i => sector_at (w32 (sector + Z.of_nat i))) <$> seq 0 n).
Definition cluster_bytes (g : Fat16Geometry) (cluster : Z) : list Z :=
  sectors_bytes (data_sector g + (cluster - 2) * sectors_per_cluster g) (Z.to_nat (sectors_per_cluster g)).
Definition fat_next (g : Fat16Geometry) (cluster : Z) : Z :=
  let offset := w32 (cluster * 2) in
  read_le16 (sector_at (w32 (reserved_sectors g + offset / 512))) (offset mod 512).

(** Clusters below 2 and from 0xfff8 on end a chain. *)
Fixpoint chain_bytes (n : nat) (g : Fat16Geometry) (cluster : Z) : list Z :=
  match n with
  | O => []
  | S n => if (2 <=? cluster) && (cluster <? 0xfff8)
           then cluster_bytes g cluster ++ chain_bytes n g (fat_next g cluster) else []
  end.

Lemma cluster_bytes_eq g cluster :
  cluster_bytes g cluster = sectors_bytes (first_sector_of g cluster) (Z.to_nat (sectors_per_cluster g)).
Proof.
  unfold cluster_bytes, sectors_bytes, first_sector_of. f_equal. apply list_fmap_ext. intros i x _. f_equal.
  unfold w32. rewrite Z.add_mod_idemp_l, <- (Z.add_mod_idemp_l (data_sector g + _ mod _)) by done.
  rewrite (Z.add_mod_idemp_r (data_sector g)), <- (Z.add_mod_idemp_l (data_sector g + _)) by done.
  rewrite <- (Z.add_mod_idemp_r (data_sector g) ((_ mod _) * _)), Z.mul_mod_idemp_l by done.
  by rewrite Z.add_mod_idemp_r by done.
Qed.

Lemma sectors_bytes_S sector n :
  sectors_bytes sector (S n) = sector_at (w32 sector) ++ sectors_bytes (sector + 1) n.
Proof.
  unfold sectors_bytes. cbn [seq fmap list_fmap concat]. rewrite Z.add_0_r. f_equal.
  rewrite <- (seq_shift n 0), <- list_fmap_compose. f_equal. apply list_fmap_ext. intros i x Hx. simpl.
  do 2 f_equal. lia.
Qed.

(** Bytes [from .. to) of a file at [base] come from [stream]; the rest of
    memory is as before. *)
Definition filled (base from to : Z) (stream : list Z) (m m' : sarr) : Prop :=
  forall a, sa_get m' a = if decide (base + from <= a < base + to)
                          then default 0 (stream !! Z.to_nat (a - base - from)) else sa_get m a.

Lemma filled_nil base c stream m : filled base c c stream m m.
Proof. intros a. by rewrite decide_False by lia. Qed.

Lemma filled_app base a b c s1 s2 m m1 m2 :
  a <= b <= c -> zlen s1 = b - a \/ (b <= a + zlen s1 /\ b = c) ->
  filled base a b s1 m m1 -> filled base b c s2 m1 m2 -> filled base a c (s1 ++ s2) m m2.
Proof.
  unfold zlen. intros Hle Hlen H1 H2 x. rewrite H2. case_decide as D2.
  - rewrite decide_True by lia. assert (zlen s1 = b - a) as Hl by (unfold zlen; lia). unfold zlen in Hl.
    rewrite lookup_app_r by lia. f_equal. f_equal. lia.
  - rewrite H1. case_decide as D1.
    + rewrite decide_True by lia. by rewrite lookup_app_l by lia.
    + by rewrite decide_False by lia.
Qed.

Lemma filled_write base c n bytes m :
  0 <= n <= zlen bytes ->
  filled base c (c + n) bytes m (write_bytes (base + c) (take (Z.to_nat n) bytes) m).
Proof.
  unfold zlen. intros Hn a. rewrite write_bytes_get. unfold zlen. rewrite length_take.
  case_decide as D1.
  - rewrite decide_True by lia. rewrite lookup_take_lt by lia. f_equal. f_equal. lia.
  - by rewrite decide_False by lia.
Qed.

(** No request misses the disk and the driver never fails. *)
Definition reliable (b : BlockDevice) : Prop :=
  (forall lba, u32 lba -> in_range lba b) /\ (forall lba (d : drv), (driver_read lba d).2 <> None).

Lemma disk_sector_cases lba st st' r :
  coherent (f_disk st) -> disk_sector lba st = (st', r) ->
  coherent (f_disk st') /\ f_pmm st' = f_pmm st /\ f_mem st' = f_mem st /\
  (forall bytes, r = Some bytes -> bytes = sector_at lba) /\
  (reliable (f_disk st) -> reliable (f_disk st') /\ (u32 lba -> r <> None)).
Proof.
  intros Hc. unfold disk_sector. destruct (read_sector _ _ _ _) as [[b d] o] eqn:E. intros [= <- <-].
  destruct (read_sector_cases _ _ _ _ _ _ _ Hc E) as (H1 & H2 & _ & H4 & H5 & H6). split_and!; try done.
  - intros bytes Hb. by apply H2.
  - intros [R1 R2]. split.
    + split; [|done]. intros l Hl. destruct (R1 l Hl). split; simpl; by rewrite ?H5, ?H6.
    + intros Hl Hn. by apply (R2 lba (f_drv st)), H4; [apply R1|..].
Qed.

Lemma load_sectors_spec file_size base n sector copied st st' r :
  coherent (f_disk st) -> 0 <= copied <= file_size ->
  load_sectors file_size base sector n copied st = (st', r) ->
  coherent (f_disk st') /\ f_pmm st' = f_pmm st /\
  (reliable (f_disk st) -> reliable (f_disk st') /\ r <> None) /\
  forall c, r = Some c -> c = Z.min file_size (copied + zlen (sectors_bytes sector n)) /\
    filled base copied c (sectors_bytes sector n) (f_mem st) (f_mem st').
Proof.
  revert sector copied st st' r. induction n as [|n IH]; intros sector copied st st' r Hc Hcop; cbn [load_sectors].
  - intros [= <- <-]. split_and!; try done. intros c [= <-]. split; [unfold zlen; simpl; lia|apply filled_nil].
  - destruct (Z.ltb_spec copied file_size) as [Hlt|Hge]; cbn [negb].
    2: { intros [= <- <-]. split_and!; try done. intros c [= <-]. unfold zlen. split; [lia|apply filled_nil]. }
    destruct (disk_sector (w32 sector) st) as [st1 [bytes|]] eqn:E1;
      destruct (disk_sector_cases _ _ _ _ Hc E1) as (C1 & P1 & M1 & B1 & R1).
    2: { intros [= <- <-]. split_and!; try done. intros HR. destruct (R1 HR) as [_ Hn]. exfalso.
         by apply Hn; [apply w32_range|]. }
    pose proof (B1 bytes eq_refl) as ->. set (k := if _ <? _ then _ else _).
    assert (Hk : 0 <= k <= 512 /\ k = Z.min 512 (file_size - copied))
      by (unfold k; destruct (Z.ltb_spec (file_size - copied) 512); lia).
    assert (Hsl : zlen (sector_at (w32 sector)) = 512) by (unfold zlen; by rewrite sector_length).
    intros E2. apply IH in E2 as (C2 & P2 & R2 & F2); [|done|lia]. cbn -[write_bytes] in P2, F2. rewrite M1 in F2.
    split_and!; [done|congruence| |].
    + intros HR. apply R2. by apply R1.
    + intros c Ec. destruct (F2 c Ec) as [-> F3]. rewrite sectors_bytes_S. unfold zlen in *.
      rewrite length_app. split; [lia|]. eapply filled_app; [| |apply filled_write|exact F3].
      * lia.
      * unfold zlen. lia.
      * unfold zlen. lia.
Qed.

Lemma read_fat_entry_cases g cluster st st' r :
  coherent (f_disk st) -> read_fat_entry g cluster st = (st', r) ->
  coherent (f_disk st') /\ f_pmm st' = f_pmm st /\ f_mem st' = f_mem st /\
  (forall next, r = Some next -> next = fat_next g cluster) /\
  (reliable (f_disk st) -> reliable (f_disk st') /\ r <> None).
Proof.
  intros Hc. unfold read_fat_entry. destruct (disk_sector _ _) as [st1 o] eqn:E. intros [= <- <-].
  destruct (disk_sector_cases _ _ _ _ Hc E) as (C1 & P1 & M1 & B1 & R1). split_and!; try done.
  - intros next (bytes & -> & ->)%fmap_Some. by rewrite (B1 bytes eq_refl).
  - intros HR. destruct (R1 HR) as [R2 R3]. split; [done|]. destruct o; [done|].
    exfalso. by apply R3; [apply w32_range|].
Qed.

Lemma load_clusters_spec g file_size base guard cluster copied st st' r :
  coherent (f_disk st) -> 0 <= copied <= file_size ->
  load_clusters guard g file_size base cluster copied st = (st', r) ->
  coherent (f_disk st') /\ f_pmm st' = f_pmm st /\
  (reliable (f_disk st) -> r <> None) /\
  forall c, r = Some c -> c = Z.min file_size (copied + zlen (chain_bytes guard g cluster)) /\
    filled base copied c (chain_bytes guard g cluster) (f_mem st) (f_mem st').
Proof.
  revert cluster copied st st' r. induction guard as [|guard IH]; intros cluster copied st st' r Hc Hcop;
    cbn [load_clusters chain_bytes].
  - intros [= <- <-]. split_and!; try done. intros c [= <-]. split; [unfold zlen; simpl; lia|apply filled_nil].
  - destruct ((2 <=? cluster) && (cluster <? 0xfff8)) eqn:Ev; cbn [andb].
    2: { intros [= <- <-]. split_and!; try done. intros c [= <-]. split; [unfold zlen; simpl; lia|apply filled_nil]. }
    destruct (Z.ltb_spec copied file_size) as [Hlt|Hge].
    2: { intros [= <- <-]. split_and!; try done. intros c [= <-]. unfold zlen. split; [lia|apply filled_nil]. }
    destruct (load_sectors _ _ _ _ _ _) as [st1 [c1|]] eqn:E1;
      destruct (load_sectors_spec _ _ _ _ _ _ _ _ Hc Hcop E1) as (C1 & P1 & R1 & F1).
    2: { intros [= <- <-]. split_and!; try done. intros HR. by destruct (R1 HR). }
    destruct (F1 c1 eq_refl) as [Hc1 Fill1]. rewrite <- cluster_bytes_eq in Hc1, Fill1.
    destruct (read_fat_entry g cluster st1) as [st2 [next|]] eqn:E2;
      destruct (read_fat_entry_cases _ _ _ _ _ C1 E2) as (C2 & P2 & M2 & N2 & R2).
    2: { intros [= <- <-]. split_and!; try done; [congruence|]. intros HR. destruct (R1 HR) as [HR1 _].
         by destruct (R2 HR1). }
    pose proof (N2 next eq_refl) as ->. intros E3.
    apply IH in E3 as (C3 & P3 & R3 & F3); [|done|unfold zlen in *; lia].
    split_and!; [done|congruence| |].
    + intros HR. apply R3, R2, R1, HR.
    + intros c Ec. destruct (F3 c Ec) as [-> Fill3]. rewrite M2 in Fill3. unfold zlen in *. rewrite length_app.
      split; [lia|]. eapply filled_app; [| |exact Fill1|exact Fill3]; unfold zlen; lia.
Qed.

(** The memory after a chain was copied over a cleared area. *)
Lemma loaded_memory base size area stream m m' :
  0 <= size <= area -> size <= zlen stream ->
  filled base 0 size stream (clear_bytes base (base + area) m) m' ->
  bytes_at (sa_get m') base size = take (Z.to_nat size) stream /\
  (forall a, ~ (base <= a < base + area) -> sa_get m' a = sa_get m a).
Proof.
  intros Hs Hl Fill. split.
  - apply list_eq. intros k. rewrite bytes_at_lookup, Fill. case_decide as Hk.
    + rewrite decide_True by lia. rewrite lookup_take_lt by done.
      replace (Z.to_nat (base + Z.of_nat k - base - 0)) with k by lia. unfold zlen in *.
      destruct (lookup_lt_is_Some_2 stream k) as (x & ->); [lia|done].
    + symmetry. apply lookup_take_ge. lia.
  - intros a Ha. rewrite Fill, decide_False by lia. rewrite clear_bytes_get by lia. by rewrite decide_False by lia.
Qed.


End spec.

(** ** A concrete volume: one file of two clusters *)

Definition demo_fat : list Z := [0; 0; 0; 0; 3; 0; 255; 255] ++ replicate 504 0.
Definition demo_sector (lba : Z) : list Z :=
  if lba =? 1 then demo_fat else replicate 512 (lba mod 256).

#[local] Instance demo_driver : SectorDriver :=
  {| drv := unit; driver_read := fun lba d => (d, Some (demo_sector lba)) |}.
#[local] Instance demo_medium : @Medium demo_driver.
Proof.
  refine {| sector_at := demo_sector |}.
  - by intros lba d d' bytes [= _ <-].
  - intros lba. unfold demo_sector. by destruct (lba =? 1).
Defined.

Definition demo_geometry : Fat16Geometry := mkFat16Geometry 512 1 1 1 16 1 100 2 1 10.
Definition demo_state : fatst :=
  mkFatst (initialize_ahci true 100).1 (tt : @drv demo_driver) demo_pmm (sa_const 0).

