(* ===== verification/Userspace.v ===== *)
(** * Userspace manager: processes and threads (kernel/src/userspace/userspace.cpp)

    The process, thread and pipe tables with the state machine of user threads:
    activation, blocking, waking, exit and reaping, and the choice of the next
    thread to run.  The descriptors a process holds are in [UserFiles.v].  The
    state also carries the parts of the kernel these operations change: physical
    memory seen as bytes, the file system, and the flags of the timer. *)

From stdpp Require Import strings.
From S2P Require Import Prelude Path Vfs.
#[local] Open Scope Z_scope.

(** ** Data *)

Inductive ProcessState := ProcEmpty | ProcCreated | ProcRunnable | ProcStopped | ProcExited.
Inductive UserThreadState := UtEmpty | UtCreated | UtRunnable | UtRunning | UtBlocked | UtExited.
Inductive UserBlockReason := NotBlocked | PipeReadWait | PipeWriteWait | ProcessWait | SleepWait.
Inductive FileDescriptorKind := NoFile | VfsFile | PipeRead | PipeWrite.
Inductive ProcessTerminationReason := NotTerminated | Exited | SigTerm | SigKill.

#[export] Instance ProcessState_eq : EqDecision ProcessState.
Proof. solve_decision. Defined.
#[export] Instance UserThreadState_eq : EqDecision UserThreadState.
Proof. solve_decision. Defined.
#[export] Instance UserBlockReason_eq : EqDecision UserBlockReason.
Proof. solve_decision. Defined.
#[export] Instance FileDescriptorKind_eq : EqDecision FileDescriptorKind.
Proof. solve_decision. Defined.

Definition kDefaultUserStackTop : Z := 0x7ffffff000.
Definition kDefaultUserStackPages : Z := 4.
Definition kMaxUserProcesses : nat := 16.
Definition kMaxUserThreads : nat := 32.
Definition kMaxProcessFileDescriptors : nat := 8.
Definition kMaxOwnedUserPages : nat := 64.
Definition kMaxProcessArguments : nat := 8.
Definition kMaxArgumentLength : Z := 64.
Definition kMaxEnvironmentEntries : nat := 4.
Definition kMaxEnvironmentKeyLength : Z := 24.
Definition kMaxEnvironmentValueLength : Z := 80.
Definition kMaxPipes : nat := 8.
Definition kPipeCapacity : Z := 1024.
Definition kUserTimesliceQuantum : Z := 4.

Record FileDescriptor := mkFd {
  fd_number : Z;
  fd_vfs_handle : Z;
  fd_pipe_id : Z;
  fd_offset : Z;
  fd_kind : FileDescriptorKind;
  fd_open : bool;
  fd_path : cstr
}.

Record Pipe := mkPipe {
  pi_id : Z;
  pi_open : bool;
  pi_size : Z;
  pi_read_offset : Z;
  pi_data : sarr
}.

Record OwnedPage := mkOwnedPage { op_virt : Z; op_phys : Z }.

Record Process := mkProcess {
  pr_pid : Z;
  pr_parent_pid : Z;
  pr_state : ProcessState;
  pr_name : cstr;
  pr_entry : Z;
  pr_address_space_root : Z;
  pr_user_stack_top : Z;
  pr_user_stack_pages : Z;
  pr_image_base : Z;
  pr_image_pages : Z;
  pr_main_thread_id : Z;
  pr_exit_code : Z;
  pr_termination_reason : ProcessTerminationReason;
  pr_next_fd : Z;
  pr_file_descriptors : list FileDescriptor;
  pr_owned_pages : list OwnedPage;
  pr_current_directory : cstr;
  pr_arguments : list cstr;
  pr_environment : list (cstr * cstr);
  pr_owns_address_space : bool;
  pr_process_group_id : Z;
  pr_syscall_count : Z;
  pr_last_syscall : Z;
  pr_read_syscalls : Z;
  pr_write_syscalls : Z;
  pr_read_bytes : Z;
  pr_write_bytes : Z;
  pr_run_ticks : Z;
  pr_switch_count : Z;
  pr_preempt_count : Z
}.

Record UserThread := mkUserThread {
  ut_tid : Z;
  ut_pid : Z;
  ut_state : UserThreadState;
  ut_block_reason : UserBlockReason;
  ut_wait_pipe_id : Z;
  ut_wait_process_id : Z;
  ut_wait_wake_tick : Z;
  ut_wait_fd : Z;
  ut_wait_buffer : Z;
  ut_wait_size : Z;
  ut_syscall_count : Z;
  ut_last_syscall : Z;
  ut_run_ticks : Z;
  ut_switch_count : Z;
  ut_preempt_count : Z;
  ut_entry : Z;
  ut_user_stack_pointer : Z;
  ut_address_space_root : Z;
  ut_r15 : Z;
  ut_r14 : Z;
  ut_r13 : Z;
  ut_r12 : Z;
  ut_r11 : Z;
  ut_r10 : Z;
  ut_r9 : Z;
  ut_r8 : Z;
  ut_rbp : Z;
  ut_rdi : Z;
  ut_rsi : Z;
  ut_rdx : Z;
  ut_rcx : Z;
  ut_rbx : Z;
  ut_rax : Z;
  ut_rflags : Z
}.

Record UserLaunchContext := mkUserLaunchContext {
  lc_tid : Z;
  lc_pid : Z;
  lc_rip : Z;
  lc_rsp : Z;
  lc_cr3 : Z;
  lc_cs : Z;
  lc_ss : Z;
  lc_rflags : Z
}.

Record UserExecutionContext := mkUserExecutionContext {
  xc_tid : Z;
  xc_pid : Z;
  xc_cr3 : Z;
  xc_valid : bool
}.

Record UserspaceDiagnostics := mkUserspaceDiagnostics {
  pipe_read_blocks : Z;
  pipe_write_blocks : Z;
  pipe_read_wakes : Z;
  pipe_write_wakes : Z;
  process_wait_blocks : Z;
  process_wait_any_blocks : Z;
  process_wait_wakes : Z;
  sleep_blocks : Z;
  sleep_wakes : Z;
  preemption_gate_enables : Z;
  preemption_gate_disables : Z;
  preempt_switches : Z
}.

(** The manager's own fields; then [next_pipe_id], the static counter of
    [create_pipe]; then the rest of the kernel: the file system, physical memory
    as bytes, the two flags of the timer, and the calls made to free pages and
    destroy address spaces. *)
Record UserspaceManager := mkManager {
  enabled_ : bool;
  processes_ : list Process;
  uthreads_ : list UserThread;
  pipes_ : list Pipe;
  pcount_ : nat;
  tcount_ : nat;
  next_pid_ : Z;
  next_tid_ : Z;
  active_pid_ : Z;
  active_tid_ : Z;
  last_selected_tid_ : Z;
  last_user_pick_index_ : Z;
  current_slice_ticks_ : Z;
  expired_slices_ : Z;
  foreground_process_group_id_ : Z;
  udiagnostics_ : UserspaceDiagnostics;
  next_pipe_id : Z;
  k_vfs : Vfs;
  k_memory : sarr;
  k_lapic_timer_active : bool;
  k_user_preemption_enabled : bool;
  k_freed_pages : list Z;
  k_destroyed_spaces : list Z
}.

#[export] Instance FileDescriptor_eta : Eta FileDescriptor := fun r =>
  mkFd (fd_number r) (fd_vfs_handle r) (fd_pipe_id r) (fd_offset r) (fd_kind r) (fd_open r)
    (fd_path r).
#[export] Instance Pipe_eta : Eta Pipe := fun r =>
  mkPipe (pi_id r) (pi_open r) (pi_size r) (pi_read_offset r) (pi_data r).
#[export] Instance Process_eta : Eta Process := fun r =>
  mkProcess (pr_pid r) (pr_parent_pid r) (pr_state r) (pr_name r) (pr_entry r)
    (pr_address_space_root r) (pr_user_stack_top r) (pr_user_stack_pages r)
    (pr_image_base r) (pr_image_pages r) (pr_main_thread_id r) (pr_exit_code r)
    (pr_termination_reason r) (pr_next_fd r) (pr_file_descriptors r) (pr_owned_pages r)
    (pr_current_directory r) (pr_arguments r) (pr_environment r) (pr_owns_address_space r)
    (pr_process_group_id r) (pr_syscall_count r) (pr_last_syscall r) (pr_read_syscalls r)
    (pr_write_syscalls r) (pr_read_bytes r) (pr_write_bytes r) (pr_run_ticks r)
    (pr_switch_count r) (pr_preempt_count r).
#[export] Instance UserThread_eta : Eta UserThread := fun r =>
  mkUserThread (ut_tid r) (ut_pid r) (ut_state r) (ut_block_reason r) (ut_wait_pipe_id r)
    (ut_wait_process_id r) (ut_wait_wake_tick r) (ut_wait_fd r) (ut_wait_buffer r)
    (ut_wait_size r) (ut_syscall_count r) (ut_last_syscall r) (ut_run_ticks r)
    (ut_switch_count r) (ut_preempt_count r) (ut_entry r) (ut_user_stack_pointer r)
    (ut_address_space_root r) (ut_r15 r) (ut_r14 r) (ut_r13 r) (ut_r12 r) (ut_r11 r)
    (ut_r10 r) (ut_r9 r) (ut_r8 r) (ut_rbp r) (ut_rdi r) (ut_rsi r) (ut_rdx r) (ut_rcx r)
    (ut_rbx r) (ut_rax r) (ut_rflags r).
#[export] Instance UserLaunchContext_eta : Eta UserLaunchContext := fun r =>
  mkUserLaunchContext (lc_tid r) (lc_pid r) (lc_rip r) (lc_rsp r) (lc_cr3 r) (lc_cs r) (lc_ss r) (lc_rflags r).
#[export] Instance UserExecutionContext_eta : Eta UserExecutionContext := fun r =>
  mkUserExecutionContext (xc_tid r) (xc_pid r) (xc_cr3 r) (xc_valid r).
#[export] Instance UserspaceDiagnostics_eta : Eta UserspaceDiagnostics := fun r =>
  mkUserspaceDiagnostics (pipe_read_blocks r) (pipe_write_blocks r) (pipe_read_wakes r) (pipe_write_wakes r)
    (process_wait_blocks r) (process_wait_any_blocks r) (process_wait_wakes r)
    (sleep_blocks r) (sleep_wakes r) (preemption_gate_enables r)
    (preemption_gate_disables r) (preempt_switches r).
#[export] Instance UserspaceManager_eta : Eta UserspaceManager := fun r =>
  mkManager (enabled_ r) (processes_ r) (uthreads_ r) (pipes_ r) (pcount_ r) (tcount_ r) (next_pid_ r)
    (next_tid_ r) (active_pid_ r) (active_tid_ r) (last_selected_tid_ r)
    (last_user_pick_index_ r) (current_slice_ticks_ r) (expired_slices_ r)
    (foreground_process_group_id_ r) (udiagnostics_ r) (next_pipe_id r) (k_vfs r)
    (k_memory r) (k_lapic_timer_active r) (k_user_preemption_enabled r) (k_freed_pages r)
    (k_destroyed_spaces r).

Definition FileDescriptor0 : FileDescriptor := mkFd 0 0 0 0 NoFile false [].
Definition Pipe0 : Pipe := mkPipe 0 false 0 0 (sa_const 0).
Definition UserThread0 : UserThread :=
  mkUserThread 0 0 UtEmpty NotBlocked 0 0 0 0 0 0 0 0 0 0 0 0 0 0 0 0 0 0 0 0 0 0 0 0 0 0 0 0 0 0.
Definition UserspaceDiagnostics0 : UserspaceDiagnostics := mkUserspaceDiagnostics 0 0 0 0 0 0 0 0 0 0 0 0.

(** ** What the manager takes from the rest of the kernel

    [translate root virt] is the physical address an address space maps [virt]
    to, 0 when it does not; [start_lapic] is whether the local APIC timer can be
    started; the selectors are those of the user segments. *)
Class Machine := {
  translate : Z -> Z -> Z;
  start_lapic : bool;
  kUserCodeSelector : Z;
  kUserDataSelector : Z
}.

Definition kSyscallErrorNone : Z := 0.
Definition kSyscallErrorNotFound : Z := 3.
Definition kPageSize : Z := 4096.

(** ** Lookup

    A pointer into one of the tables is an index together with the record found
    there, as it is at that moment. *)
Definition processes (m : UserspaceManager) : list Process := take (pcount_ m) (processes_ m).
Definition threads (m : UserspaceManager) : list UserThread := take (tcount_ m) (uthreads_ m).

Definition find_process (m : UserspaceManager) (pid : Z) : option (nat * Process) :=
  list_find (fun p => pr_pid p = pid /\ pr_state p <> ProcEmpty) (processes m).

Definition find_thread (m : UserspaceManager) (tid : Z) : option (nat * UserThread) :=
  list_find (fun t => ut_tid t = tid /\ ut_state t <> UtEmpty) (threads m).

Definition find_pipe (m : UserspaceManager) (pipe_id : Z) : option (nat * Pipe) :=
  if pipe_id =? 0 then None else list_find (fun p => pi_open p = true /\ pi_id p = pipe_id) (pipes_ m).

Definition on_process (i : nat) (f : Process -> Process) (m : UserspaceManager) : UserspaceManager :=
  m <| processes_ ::= alter f i |>.
Definition on_thread (i : nat) (f : UserThread -> UserThread) (m : UserspaceManager) : UserspaceManager :=
  m <| uthreads_ ::= alter f i |>.
Definition on_pipe (i : nat) (f : Pipe -> Pipe) (m : UserspaceManager) : UserspaceManager :=
  m <| pipes_ ::= alter f i |>.

(** A process that is neither an empty slot nor exited. *)
Definition alive (p : Process) : Prop := pr_state p <> ProcEmpty /\ pr_state p <> ProcExited.
#[export] Instance alive_dec p : Decision (alive p).
Proof. unfold alive. apply _. Defined.

(** [find_process] followed by the test that the process has not exited. *)
Definition find_alive (m : UserspaceManager) (pid : Z) : option (nat * Process) :=
  '(i, p) ← find_process m pid; if decide (alive p) then Some (i, p) else None.

(** [find_process] followed by the test that it may be scheduled. *)
Definition find_runnable (m : UserspaceManager) (pid : Z) : option (nat * Process) :=
  '(i, p) ← find_process m pid; if decide (pr_state p = ProcRunnable) then Some (i, p) else None.

Definition is_found {A} (r : option A) : bool := match r with Some _ => true | None => false end.

Definition current_tid (m : UserspaceManager) : Z :=
  if active_tid_ m =? 0 then 0
  else if decide (Exists (fun t => ut_tid t = active_tid_ m /\ ut_state t <> UtEmpty /\
                                   ut_state t <> UtExited) (threads m))
  then active_tid_ m else 0.

(** [pid] when a live process has it, else 0. *)
Definition live_pid (m : UserspaceManager) (pid : Z) : Z :=
  if decide (Exists (fun p => pr_pid p = pid /\ alive p) (processes m)) then pid else 0.

Definition current_pid (m : UserspaceManager) : Z :=
  let tid := current_tid m in
  let fallback := if active_pid_ m =? 0 then 0 else live_pid m (active_pid_ m) in
  if tid =? 0 then fallback
  else match list_find (fun t => ut_tid t = tid) (threads m) with
       | Some (_, t) => live_pid m (ut_pid t)
       | None => fallback
       end.

Definition current_process (m : UserspaceManager) : option (nat * Process) :=
  let pid := current_pid m in if pid =? 0 then None else find_process m pid.

Definition current_thread (m : UserspaceManager) : option (nat * UserThread) :=
  let tid := current_tid m in if tid =? 0 then None else find_thread m tid.

(** ** Counts *)

Definition count_if {A} (P : A -> Prop) `{forall x, Decision (P x)} (l : list A) : Z :=
  zlen (filter P l).

Definition runnable_count (m : UserspaceManager) : Z :=
  count_if (fun p => pr_state p = ProcRunnable) (processes m).
Definition live_process_count (m : UserspaceManager) : Z := count_if alive (processes m).
Definition exited_count (m : UserspaceManager) : Z :=
  count_if (fun p => pr_state p = ProcExited) (processes m).
Definition runnable_thread_count (m : UserspaceManager) : Z :=
  count_if (fun t => ut_state t = UtRunnable) (threads m).
Definition running_thread_count (m : UserspaceManager) : Z :=
  count_if (fun t => ut_state t = UtRunning) (threads m).
Definition exited_thread_count (m : UserspaceManager) : Z :=
  count_if (fun t => ut_state t = UtExited) (threads m).

Definition schedulable (m : UserspaceManager) (t : UserThread) : Prop :=
  (ut_state t = UtRunnable \/ ut_state t = UtRunning) /\
  Exists (fun p => pr_pid p = ut_pid t /\ pr_state p = ProcRunnable) (processes m).
#[export] Instance schedulable_dec m t : Decision (schedulable m t).
Proof. unfold schedulable. apply _. Defined.

Definition schedulable_thread_count (m : UserspaceManager) : Z :=
  count_if (schedulable m) (threads m).

(** ** Threads *)

(** One more event counted in the diagnostics. *)
Definition tally (field : UserspaceDiagnostics -> Z) `{!Setter field} (m : UserspaceManager)
  : UserspaceManager :=
  m <| udiagnostics_ ::= setf field inc64 |>.

Section Threads.
Context `{Machine}.

Definition update_user_preemption_gate (m : UserspaceManager) : UserspaceManager * bool :=
  if 1 <? schedulable_thread_count m then
    if negb (k_lapic_timer_active m) && negb start_lapic then (m, false)
    else
      let m := m <| k_lapic_timer_active := true |> in
      if k_user_preemption_enabled m then (m, true)
      else (tally preemption_gate_enables (m <| k_user_preemption_enabled := true |>), true)
  else if k_user_preemption_enabled m then
    (tally preemption_gate_disables (m <| k_user_preemption_enabled := false |>), true)
  else (m, true).

Definition mark_runnable (pid : Z) (m : UserspaceManager) : UserspaceManager * bool :=
  match find_process m pid with
  | Some (i, p) =>
    if decide (pr_state p = ProcCreated) then
      let m := on_process i (fun p => p <| pr_state := ProcRunnable |>) m in
      let m := if active_pid_ m =? 0 then m <| active_pid_ := pr_pid p |> else m in
      let m := match find_thread m (pr_main_thread_id p) with
               | Some (k, t) =>
                 if decide (ut_state t = UtCreated)
                 then on_thread k (fun t => t <| ut_state := UtRunnable |>) m else m
               | None => m
               end in
      update_user_preemption_gate m
    else (m, false)
  | None => (m, false)
  end.

(** The thread leaves the processor: running becomes runnable. *)
Definition preempt (t : UserThread) : UserThread :=
  if decide (ut_state t = UtRunning) then t <| ut_state := UtRunnable |> else t.

Definition dispatchable (t : UserThread) : Prop := ut_state t = UtRunnable \/ ut_state t = UtRunning.
#[export] Instance dispatchable_dec t : Decision (dispatchable t).
Proof. unfold dispatchable. apply _. Defined.

Definition activate_thread (tid : Z) (m : UserspaceManager) : UserspaceManager * bool :=
  match find_thread m tid with
  | Some (k, next) =>
    if decide (dispatchable next) then
      match find_runnable m (ut_pid next) with
      | Some (i, process) =>
        let m := if negb (active_tid_ m =? 0) && negb (active_tid_ m =? tid)
                 then match find_thread m (active_tid_ m) with
                      | Some (c, _) => on_thread c preempt m
                      | None => m
                      end
                 else m in
        let m := on_thread k (fun t => t <| ut_state := UtRunning |> <| ut_switch_count ::= inc64 |>) m in
        let m := on_process i (fun p => p <| pr_switch_count ::= inc64 |>) m in
        let m := m <| active_tid_ := ut_tid next |> <| active_pid_ := ut_pid next |>
                   <| last_selected_tid_ := ut_tid next |> <| current_slice_ticks_ := 0 |> in
        (match index_of (fun t => ut_tid t = tid) (threads m) with
         | Some j => m <| last_user_pick_index_ := Z.of_nat j |>
         | None => m
         end, true)
      | None => (m, false)
      end
    else (m, false)
  | None => (m, false)
  end.

Definition save_active_thread_frame (rip rsp : Z) (m : UserspaceManager) : UserspaceManager * bool :=
  match current_thread m with
  | Some (k, t) =>
    if decide (ut_state t = UtEmpty \/ ut_state t = UtExited) then (m, false)
    else if (rip =? 0) || (rsp =? 0) then (m, false)
    else match find_runnable m (ut_pid t) with
         | None => (m, false)
         | Some _ =>
           if (translate (ut_address_space_root t) rip =? 0) ||
              (translate (ut_address_space_root t) rsp =? 0) then (m, false)
           else (on_thread k (fun t => t <| ut_entry := rip |> <| ut_user_stack_pointer := rsp |>) m, true)
         end
  | None => (m, false)
  end.

(** The thread is given [state], and what it waits for is recorded or cleared. *)
Definition set_wait (state : UserThreadState) (reason : UserBlockReason)
    (pipe_id process_id wake_tick fd buffer size : Z) (t : UserThread) : UserThread :=
  t <| ut_state := state |> <| ut_block_reason := reason |> <| ut_wait_pipe_id := pipe_id |>
    <| ut_wait_process_id := process_id |> <| ut_wait_wake_tick := wake_tick |>
    <| ut_wait_fd := fd |> <| ut_wait_buffer := buffer |> <| ut_wait_size := size |>.

Definition wake (t : UserThread) : UserThread := set_wait UtRunnable NotBlocked 0 0 0 0 0 0 t.

(** The current thread, when it is running. *)
Definition running_thread (m : UserspaceManager) : option (nat * UserThread) :=
  '(k, t) ← current_thread m; if decide (ut_state t = UtRunning) then Some (k, t) else None.

Definition mark_active_thread_runnable (m : UserspaceManager) : UserspaceManager * bool :=
  match running_thread m with
  | Some (k, _) => (on_thread k wake m, true)
  | None => (m, false)
  end.

Definition block_active_thread_on_pipe (pipe_id : Z) (write_end : bool) (fd buffer size : Z)
    (m : UserspaceManager) : UserspaceManager * bool :=
  match running_thread m, find_pipe m pipe_id with
  | Some (k, _), Some _ =>
    let m := on_thread k (set_wait UtBlocked (if write_end then PipeWriteWait else PipeReadWait)
                            pipe_id 0 0 fd buffer size) m in
    (if write_end then tally pipe_write_blocks m else tally pipe_read_blocks m, true)
  | _, _ => (m, false)
  end.

Definition block_active_thread_on_process (target_pid : Z) (m : UserspaceManager)
  : UserspaceManager * bool :=
  match running_thread m with
  | Some (k, _) =>
    if target_pid =? 0 then (m, false)
    else match find_alive m target_pid with
         | Some _ => (tally process_wait_blocks
                        (on_thread k (set_wait UtBlocked ProcessWait 0 target_pid 0 0 0 0) m), true)
         | None => (m, false)
         end
  | None => (m, false)
  end.

Definition process_wait_any_would_block (m : UserspaceManager) (waiter_pid : Z) : bool :=
  negb (waiter_pid =? 0) &&
  bool_decide (Exists (fun p => alive p /\ pr_parent_pid p = waiter_pid) (processes m)).

Definition block_active_thread_on_any_process (m : UserspaceManager) : UserspaceManager * bool :=
  match running_thread m with
  | Some (k, t) =>
    if process_wait_any_would_block m (ut_pid t)
    then (tally process_wait_any_blocks
            (on_thread k (set_wait UtBlocked ProcessWait 0 0 0 0 0 0) m), true)
    else (m, false)
  | None => (m, false)
  end.

Definition block_active_thread_until (wake_tick : Z) (m : UserspaceManager) : UserspaceManager * bool :=
  match running_thread m with
  | Some (k, _) =>
    if wake_tick =? 0 then (m, false)
    else (tally sleep_blocks (on_thread k (set_wait UtBlocked SleepWait 0 0 wake_tick 0 0 0) m), true)
  | None => (m, false)
  end.

(** ** Pipes: completing a blocked read or write *)

Definition holds_end (kind : FileDescriptorKind) (pipe_id : Z) (p : Process) : Prop :=
  alive p /\ Exists (fun d => fd_open d = true /\ fd_pipe_id d = pipe_id /\ fd_kind d = kind)
                    (pr_file_descriptors p).
#[export] Instance holds_end_dec kind pipe_id p : Decision (holds_end kind pipe_id p).
Proof. unfold holds_end. apply _. Defined.

Definition pipe_has_live_writer (m : UserspaceManager) (pipe_id : Z) : bool :=
  negb (pipe_id =? 0) && bool_decide (Exists (holds_end PipeWrite pipe_id) (processes m)).
Definition pipe_has_live_reader (m : UserspaceManager) (pipe_id : Z) : bool :=
  negb (pipe_id =? 0) && bool_decide (Exists (holds_end PipeRead pipe_id) (processes m)).

(** [n] bytes leave the pipe at its read offset; what remains moves to the front. *)
Definition consume_pipe (n : Z) (p : Pipe) : Pipe :=
  let p := p <| pi_read_offset ::= fun o => w64 (o + n) |> in
  if pi_read_offset p =? 0 then p
  else
    let remaining := w64 (pi_size p - pi_read_offset p) in
    let p := if remaining =? 0 then p
             else p <| pi_data ::= fun d =>
                    write_bytes 0 (bytes_at (sa_get d) (pi_read_offset p) remaining) d |> in
    p <| pi_size := remaining |> <| pi_read_offset := 0 |>.

(** [bytes] are appended to the pipe. *)
Definition fill_pipe (bytes : list Z) (p : Pipe) : Pipe :=
  p <| pi_data ::= write_bytes (pi_size p) bytes |> <| pi_size ::= fun s => w64 (s + zlen bytes) |>.

(** How much a transfer of [wanted] bytes moves: at most what is [available],
    and at most to the end of the page at [phys]. *)
Definition transfer_size (wanted available phys : Z) : Z :=
  let page_remaining := kPageSize - Z.land phys (kPageSize - 1) in
  let to_copy := if wanted <? available then wanted else available in
  if page_remaining <? to_copy then page_remaining else to_copy.

Definition set_result (rax rdx : Z) (t : UserThread) : UserThread :=
  t <| ut_rax := rax |> <| ut_rdx := rdx |>.

Definition has_buffer (t : UserThread) : bool :=
  negb (ut_wait_buffer t =? 0) && negb (ut_wait_size t =? 0).

(** The pipe [wake_pipe_waiters] looked up at its start, as it is now. *)
Definition pipe_now (m : UserspaceManager) (pipe : option nat) : option Pipe :=
  k ← pipe; pipes_ m !! k.

(** A blocked read completes, if it can: with bytes of the pipe, or with 0 when
    the pipe has nothing to give and no writer is left. *)
Definition complete_read (pipe : option nat) (pipe_id : Z) (i : nat) (t : UserThread)
    (m : UserspaceManager) : option UserspaceManager :=
  match pipe, pipe_now m pipe with
  | Some k, Some p =>
    if has_buffer t && (pi_read_offset p <? pi_size p) then
      let dest_phys := translate (ut_address_space_root t) (ut_wait_buffer t) in
      if dest_phys =? 0 then None
      else
        let to_copy := transfer_size (ut_wait_size t) (w64 (pi_size p - pi_read_offset p)) dest_phys in
        if to_copy =? 0 then None
        else Some (on_thread i (set_result to_copy kSyscallErrorNone)
                    (on_pipe k (consume_pipe to_copy)
                      (m <| k_memory ::= write_bytes dest_phys
                              (bytes_at (sa_get (pi_data p)) (pi_read_offset p) to_copy) |>)))
    else if pipe_has_live_writer m pipe_id then None
    else Some (on_thread i (set_result 0 kSyscallErrorNone) m)
  | _, _ =>
    if pipe_has_live_writer m pipe_id then None
    else Some (on_thread i (set_result 0 kSyscallErrorNone) m)
  end.

(** A blocked write completes, if it can: as broken when no reader is left, or by
    appending to the pipe. *)
Definition complete_write (pipe : option nat) (pipe_id : Z) (i : nat) (t : UserThread)
    (m : UserspaceManager) : option UserspaceManager :=
  if pipe_has_live_reader m pipe_id then
    match pipe, pipe_now m pipe with
    | Some k, Some p =>
      if has_buffer t && (pi_size p <? kPipeCapacity) then
        let source_phys := translate (ut_address_space_root t) (ut_wait_buffer t) in
        if source_phys =? 0 then None
        else
          let to_copy := transfer_size (ut_wait_size t) (w64 (kPipeCapacity - pi_size p)) source_phys in
          if to_copy =? 0 then None
          else Some (on_thread i (set_result to_copy kSyscallErrorNone)
                      (on_pipe k (fill_pipe (bytes_at (sa_get (k_memory m)) source_phys to_copy)) m))
      else None
    | _, _ => None
    end
  else Some (on_thread i (set_result 0 kSyscallErrorNotFound) m).

(** One pass over the threads: the state, the threads woken so far, and which
    kinds of transfer completed in the pass. *)
Record wake_scan := mkScan {
  sc_manager : UserspaceManager; sc_woken : Z; sc_read : bool; sc_write : bool }.
#[export] Instance wake_scan_eta : Eta wake_scan := fun r =>
  mkScan (sc_manager r) (sc_woken r) (sc_read r) (sc_write r).

Definition waits_on_pipe (pipe_id : Z) (t : UserThread) : Prop :=
  ut_state t = UtBlocked /\ ut_wait_pipe_id t = pipe_id.
#[export] Instance waits_on_pipe_dec pipe_id t : Decision (waits_on_pipe pipe_id t).
Proof. unfold waits_on_pipe. apply _. Defined.

(** The body of the inner loop, at thread [i]. *)
Definition wake_pipe_waiter (pipe : option nat) (pipe_id : Z) (allow_readers allow_writers : bool)
    (i : nat) (s : wake_scan) : wake_scan :=
  let m := sc_manager s in
  match uthreads_ m !! i with
  | Some t =>
    if decide (waits_on_pipe pipe_id t) then
      match find_runnable m (ut_pid t) with
      | Some _ =>
        match ut_block_reason t with
        | PipeReadWait =>
          match (if allow_readers then complete_read pipe pipe_id i t m else None) with
          | Some m => mkScan (tally pipe_read_wakes (on_thread i wake m)) (inc64 (sc_woken s)) true (sc_write s)
          | None => s
          end
        | PipeWriteWait =>
          match (if allow_writers then complete_write pipe pipe_id i t m else None) with
          | Some m => mkScan (tally pipe_write_wakes (on_thread i wake m)) (inc64 (sc_woken s)) (sc_read s) true
          | None => s
          end
        | _ => s
        end
      | None => s
      end
    else s
  | None => s
  end.

Definition wake_pass (pipe : option nat) (pipe_id : Z) (allow_readers allow_writers : bool)
    (m : UserspaceManager) (woken : Z) : wake_scan :=
  for_each (tcount_ m) (wake_pipe_waiter pipe pipe_id allow_readers allow_writers)
    (mkScan m woken false false).

(** The outer loop: passes until one completes nothing, at most [rounds] of them.
    A completed read lets the writers in, a completed write the readers. *)
Fixpoint wake_rounds (rounds : nat) (pipe : option nat) (pipe_id : Z)
    (allow_readers allow_writers : bool) (m : UserspaceManager) (woken : Z) : UserspaceManager * Z :=
  match rounds with
  | O => (m, woken)
  | S rounds =>
    let s := wake_pass pipe pipe_id allow_readers allow_writers m woken in
    if sc_read s || sc_write s
    then wake_rounds rounds pipe pipe_id (allow_readers || sc_write s) (allow_writers || sc_read s)
           (sc_manager s) (sc_woken s)
    else (sc_manager s, sc_woken s)
  end.

Definition wake_pipe_waiters (pipe_id : Z) (readers writers : bool) (m : UserspaceManager)
  : UserspaceManager * Z :=
  if pipe_id =? 0 then (m, 0)
  else wake_rounds (tcount_ m * 2 + 1) (fst <$> find_pipe m pipe_id) pipe_id readers writers m 0.

(** ** Waits for a process, and sleeps *)

(** A loop over the threads that wakes some of them: the state and the number woken. *)
Definition wake_threads (body : nat -> UserThread -> UserspaceManager -> option UserspaceManager)
    (m : UserspaceManager) : UserspaceManager * Z :=
  for_each (tcount_ m) (fun i '(m, woken) =>
    match t ← uthreads_ m !! i; body i t m with
    | Some m => (m, inc64 woken)
    | None => (m, woken)
    end) (m, 0).

(** What the wait of thread [t] for [target_pid] writes at [result_phys]. *)
Definition wait_result (any_wait : bool) (target_pid exit_code : Z) : list Z :=
  if any_wait then le_bytes 8 target_pid ++ le_bytes 8 exit_code else le_bytes 8 exit_code.

(** Where it is written: nowhere when the pointer is null, misaligned, unmapped
    or too close to the end of its page. *)
Definition wait_destination (any_wait : bool) (t : UserThread) : option Z :=
  let result_pointer := if any_wait then ut_rdi t else ut_rsi t in
  let result_size := if any_wait then 16 else 8 in
  if (result_pointer =? 0) || negb (Z.land result_pointer 7 =? 0) then None
  else
    let result_phys := translate (ut_address_space_root t) result_pointer in
    if (result_phys =? 0) || (kPageSize - result_size <? Z.land result_phys (kPageSize - 1))
    then None else Some result_phys.

Definition wake_process_waiter (target_pid exit_code : Z) (i : nat) (t : UserThread)
    (m : UserspaceManager) : option UserspaceManager :=
  if decide (ut_state t = UtBlocked /\ ut_block_reason t = ProcessWait) then
    '(_, waiter) ← find_runnable m (ut_pid t);
    '(_, target) ← find_process m target_pid;
    if negb (pr_parent_pid target =? pr_pid waiter) then None
    else
      let any_wait := ut_wait_process_id t =? 0 in
      if negb any_wait && negb (ut_wait_process_id t =? target_pid) then None
      else
        result_phys ← wait_destination any_wait t;
        Some (tally process_wait_wakes
               (on_thread i (fun t => wake (set_result 1 kSyscallErrorNone t))
                 (m <| k_memory ::= write_bytes result_phys
                         (wait_result any_wait target_pid exit_code) |>)))
  else None.

Definition wake_process_waiters (target_pid exit_code : Z) (m : UserspaceManager)
  : UserspaceManager * Z :=
  if target_pid =? 0 then (m, 0) else wake_threads (wake_process_waiter target_pid exit_code) m.

Definition wake_sleeper (now_tick : Z) (i : nat) (t : UserThread) (m : UserspaceManager)
  : option UserspaceManager :=
  if decide (ut_state t = UtBlocked /\ ut_block_reason t = SleepWait /\
             ut_wait_wake_tick t <> 0 /\ ut_wait_wake_tick t <= now_tick) then
    _ ← find_runnable m (ut_pid t);
    Some (tally sleep_wakes (on_thread i (fun t => wake (set_result 0 kSyscallErrorNone t)) m))
  else None.

Definition wake_sleepers (now_tick : Z) (m : UserspaceManager) : UserspaceManager * Z :=
  if now_tick =? 0 then (m, 0) else wake_threads (wake_sleeper now_tick) m.

(** ** Contexts and the choice of the next thread *)

Definition save_current_context (m : UserspaceManager) : option UserExecutionContext :=
  let tid := current_tid m in
  let pid := current_pid m in
  if (tid =? 0) || (pid =? 0) then None
  else
    '(_, t) ← list_find (fun t => ut_tid t = tid /\ ut_state t <> UtEmpty /\ ut_pid t = pid) (threads m);
    '(_, p) ← list_find (fun p => pr_pid p = pid /\ pr_state p = ProcRunnable) (processes m);
    if ut_address_space_root t =? 0 then None
    else Some (mkUserExecutionContext (ut_tid t) (pr_pid p) (ut_address_space_root t) true).

Definition restore_context (c : UserExecutionContext) (m : UserspaceManager) : UserspaceManager * bool :=
  if negb (xc_valid c) || (xc_tid c =? 0) || (xc_pid c =? 0) || (xc_cr3 c =? 0) then (m, false)
  else match find_thread m (xc_tid c), find_process m (xc_pid c) with
       | Some (_, t), Some (_, p) =>
         if negb (ut_pid t =? pr_pid p) || negb (ut_address_space_root t =? xc_cr3 c) then (m, false)
         else if decide (pr_state p = ProcRunnable) then
           if decide (ut_state t = UtExited \/ ut_state t = UtEmpty) then (m, false)
           else activate_thread (xc_tid c) m
         else (m, false)
       | _, _ => (m, false)
       end.

Definition build_launch_context (tid : Z) (m : UserspaceManager) : option UserLaunchContext :=
  '(_, t) ← find_thread m tid;
  if decide (dispatchable t) then
    _ ← find_runnable m (ut_pid t);
    if translate (ut_address_space_root t) (ut_entry t) =? 0 then None
    else if translate (ut_address_space_root t) (ut_user_stack_pointer t) =? 0 then None
    else Some (mkUserLaunchContext (ut_tid t) (ut_pid t) (ut_entry t) (ut_user_stack_pointer t)
                 (ut_address_space_root t) kUserCodeSelector kUserDataSelector
                 (if negb (ut_rflags t =? 0) then ut_rflags t else 0x202))
  else None.

(** A thread [select_next_runnable_thread] stops at. *)
Definition selectable (m : UserspaceManager) (t : UserThread) : bool :=
  bool_decide (ut_state t = UtRunnable) &&
  is_found (find_runnable m (ut_pid t)).

Definition selectable_at (m : UserspaceManager) (i : nat) : bool :=
  from_option (selectable m) false (uthreads_ m !! i).

(** The index visited at [step], starting after the last pick. *)
Definition pick_index (m : UserspaceManager) (step : nat) : nat :=
  Z.to_nat (w64 (last_user_pick_index_ m + Z.of_nat step) mod Z.of_nat (tcount_ m)).

Definition select_next_runnable_thread (m : UserspaceManager)
  : UserspaceManager * option UserLaunchContext :=
  if decide (tcount_ m = O) then (m, None)
  else match list_find (fun step => selectable_at m (pick_index m step) = true) (seq 1 (tcount_ m)) with
       | Some (_, step) =>
         match t ← uthreads_ m !! pick_index m step; build_launch_context (ut_tid t) m with
         | Some out => (m <| last_user_pick_index_ := Z.of_nat (pick_index m step) |>
                          <| last_selected_tid_ := from_option ut_tid 0 (uthreads_ m !! pick_index m step) |>,
                        Some out)
         | None => (m, None)
         end
       | None => (m, None)
       end.

Definition build_process_launch_context (pid : Z) (m : UserspaceManager) : option UserLaunchContext :=
  '(_, p) ← find_runnable m pid;
  if pr_main_thread_id p =? 0 then None else build_launch_context (pr_main_thread_id p) m.

(** ** Accounting *)

(** The current thread and its process, when both are live. *)
Definition current_pair (m : UserspaceManager) : option (nat * nat) :=
  '(k, t) ← current_thread m;
  if decide (ut_state t = UtEmpty \/ ut_state t = UtExited) then None
  else '(i, _) ← find_alive m (ut_pid t); Some (k, i).

Definition record_current_syscall (number : Z) (m : UserspaceManager) : UserspaceManager * bool :=
  match current_pair m with
  | Some (k, i) =>
    (on_process i (fun p => p <| pr_syscall_count ::= inc64 |> <| pr_last_syscall := number |>)
      (on_thread k (fun t => t <| ut_syscall_count ::= inc64 |> <| ut_last_syscall := number |>) m), true)
  | None => (m, false)
  end.

Definition note_current_user_tick (m : UserspaceManager) : UserspaceManager * bool :=
  match current_pair m with
  | Some (k, i) =>
    (on_process i (fun p => p <| pr_run_ticks ::= inc64 |>)
      (on_thread k (fun t => t <| ut_run_ticks ::= inc64 |>) m)
      <| current_slice_ticks_ ::= inc64 |>, true)
  | None => (m, false)
  end.

Definition user_timeslice_expired (m : UserspaceManager) : UserspaceManager * bool :=
  if schedulable_thread_count m <=? 1 then (m <| current_slice_ticks_ := 0 |>, false)
  else if current_slice_ticks_ m <? kUserTimesliceQuantum then (m, false)
  else (m <| current_slice_ticks_ := 0 |> <| expired_slices_ ::= inc64 |>, true).

Definition note_user_preempt_switch (from_tid to_tid : Z) (m : UserspaceManager)
  : UserspaceManager * bool :=
  if (from_tid =? 0) || (to_tid =? 0) || (from_tid =? to_tid) then (m, false)
  else match find_thread m from_tid with
       | Some (k, t) =>
         if decide (ut_state t = UtEmpty \/ ut_state t = UtExited) then (m, false)
         else match find_alive m (ut_pid t) with
              | Some (i, _) =>
                (tally preempt_switches
                  (on_process i (fun p => p <| pr_preempt_count ::= inc64 |>)
                    (on_thread k (fun t => t <| ut_preempt_count ::= inc64 |>) m)), true)
              | None => (m, false)
              end
       | None => (m, false)
       end.

(** ** Parents, groups and termination *)

Definition set_parent (pid parent_pid : Z) (m : UserspaceManager) : UserspaceManager * bool :=
  match find_alive m pid with
  | Some (i, _) =>
    if negb (parent_pid =? 0) && negb (is_found (find_process m parent_pid)) then (m, false)
    else (on_process i (fun p => p <| pr_parent_pid := parent_pid |>) m, true)
  | None => (m, false)
  end.

Definition set_process_group (caller_pid pid process_group_id : Z) (m : UserspaceManager)
  : UserspaceManager * bool :=
  if (caller_pid =? 0) || (pid =? 0) || (process_group_id =? 0) then (m, false)
  else match find_alive m pid with
       | Some (i, p) =>
         if negb (pr_pid p =? caller_pid) && negb (pr_parent_pid p =? caller_pid) then (m, false)
         else (on_process i (fun p => p <| pr_process_group_id := process_group_id |>) m, true)
       | None => (m, false)
       end.

Definition set_foreground_process_group (caller_pid process_group_id : Z) (m : UserspaceManager)
  : UserspaceManager * bool :=
  if caller_pid =? 0 then (m, false)
  else match find_alive m caller_pid with
       | Some (_, caller) =>
         let target_group := if process_group_id =? 0 then pr_process_group_id caller
                             else process_group_id in
         if target_group =? 0 then (m, false)
         else if (target_group =? pr_process_group_id caller) ||
                 bool_decide (Exists (fun p => alive p /\ pr_parent_pid p = caller_pid /\
                                               pr_process_group_id p = target_group) (processes m))
         then (m <| foreground_process_group_id_ := target_group |>, true)
         else (m, false)
       | None => (m, false)
       end.


(** The pipes a process holds an end of, in the order of its descriptors. *)
Definition held_pipes (kind : FileDescriptorKind) (p : Process) : list Z :=
  fd_pipe_id <$> filter (fun d => fd_open d = true /\ fd_pipe_id d <> 0 /\ fd_kind d = kind)
                        (pr_file_descriptors p).

Definition wake_pipes (readers writers : bool) (ids : list Z) (m : UserspaceManager)
  : UserspaceManager :=
  foldl (fun m id => (wake_pipe_waiters id readers writers m).1) m ids.

(** The process and its main thread are marked as exited. *)
Definition mark_exited (i : nat) (code : Z) (reason : ProcessTerminationReason) (tid : Z)
    (m : UserspaceManager) : UserspaceManager :=
  let m := on_process i (fun p => p <| pr_state := ProcExited |> <| pr_exit_code := code |>
                                    <| pr_termination_reason := reason |>) m in
  match find_thread m tid with
  | Some (k, _) => on_thread k (fun t => t <| ut_state := UtExited |>) m
  | None => m
  end.

(** The identifiers of what is current are cleared when they name what is gone. *)
Definition forget_active (tid pid : Z) (m : UserspaceManager) : UserspaceManager :=
  let m := if active_tid_ m =? tid then m <| active_tid_ := 0 |> else m in
  if active_pid_ m =? pid then m <| active_pid_ := 0 |> else m.

Definition exit_process (pid code : Z) (reason : ProcessTerminationReason) (m : UserspaceManager)
  : UserspaceManager * bool :=
  match find_alive m pid with
  | Some (i, p) =>
    let m := mark_exited i code reason (pr_main_thread_id p) m in
    let m := wake_pipes false true (held_pipes PipeRead p) m in
    let m := wake_pipes true false (held_pipes PipeWrite p) m in
    let m := (wake_process_waiters (pr_pid p) code m).1 in
    update_user_preemption_gate (forget_active (pr_main_thread_id p) (pr_pid p) m)
  | None => (m, false)
  end.

(** A loop over the processes of a group that changes some of them. *)
Definition for_group (caller_pid process_group_id : Z)
    (body : nat -> Process -> UserspaceManager -> UserspaceManager * bool) (m : UserspaceManager)
  : UserspaceManager * Z :=
  for_each (pcount_ m) (fun i '(m, changed) =>
    match processes_ m !! i with
    | Some p =>
      if decide (alive p /\ pr_process_group_id p = process_group_id /\ pr_pid p <> caller_pid) then
        let '(m, ok) := body i p m in (m, if ok : bool then inc64 changed else changed)
      else (m, changed)
    | None => (m, changed)
    end) (m, 0).

Definition kill_process_group (caller_pid process_group_id code : Z)
    (reason : ProcessTerminationReason) (m : UserspaceManager) : UserspaceManager * Z :=
  if (caller_pid =? 0) || (process_group_id =? 0) then (m, 0)
  else match find_alive m caller_pid with
       | Some (_, caller) =>
         for_group caller_pid process_group_id (fun _ p m =>
           let direct_child := pr_parent_pid p =? caller_pid in
           let same_parent := negb (pr_parent_pid caller =? 0) &&
                              (pr_parent_pid p =? pr_parent_pid caller) in
           if direct_child || same_parent then exit_process (pr_pid p) code reason m
           else (m, false)) m
       | None => (m, 0)
       end.


Definition stop_process (i : nat) (p : Process) (m : UserspaceManager) : UserspaceManager :=
  let m := on_process i (fun p => p <| pr_state := ProcStopped |>) m in
  let m := match find_thread m (pr_main_thread_id p) with
           | Some (k, _) => on_thread k preempt m
           | None => m
           end in
  let m := if active_pid_ m =? pr_pid p then m <| active_pid_ := 0 |> else m in
  if active_tid_ m =? pr_main_thread_id p then m <| active_tid_ := 0 |> else m.

Definition stop_process_group (caller_pid process_group_id : Z) (m : UserspaceManager)
  : UserspaceManager * Z :=
  if (caller_pid =? 0) || (process_group_id =? 0) then (m, 0)
  else for_group caller_pid process_group_id (fun i p m =>
         if decide (pr_parent_pid p = caller_pid /\ pr_state p = ProcRunnable)
         then (stop_process i p m, true) else (m, false)) m.

Definition continue_process_group (caller_pid process_group_id : Z) (m : UserspaceManager)
  : UserspaceManager * Z :=
  if (caller_pid =? 0) || (process_group_id =? 0) then (m, 0)
  else
    let '(m, continued) := for_group caller_pid process_group_id (fun i p m =>
         if decide (pr_parent_pid p = caller_pid /\ pr_state p = ProcStopped)
         then (on_process i (fun p => p <| pr_state := ProcRunnable |>) m, true) else (m, false)) m in
    if continued =? 0 then (m, continued)
    else let '(m, ok) := update_user_preemption_gate m in
         if ok : bool then (m, continued) else (m, 0).

(** ** Waiting *)

Definition wait_process (waiter_pid target_pid : Z) (m : UserspaceManager) : option Z :=
  '(_, p) ← find_process m target_pid;
  if negb (pr_parent_pid p =? waiter_pid) then None
  else if decide (pr_state p = ProcExited) then Some (pr_exit_code p) else None.

Definition wait_any_process (waiter_pid : Z) (m : UserspaceManager) : option (Z * Z) :=
  if waiter_pid =? 0 then None
  else '(_, p) ← list_find (fun p => pr_parent_pid p = waiter_pid /\ pr_state p = ProcExited) (processes m);
       Some (pr_pid p, pr_exit_code p).

Definition process_wait_would_block (waiter_pid target_pid : Z) (m : UserspaceManager) : bool :=
  if (waiter_pid =? 0) || (target_pid =? 0) then false
  else match find_process m target_pid with
       | Some (_, p) => (pr_parent_pid p =? waiter_pid) && negb (bool_decide (pr_state p = ProcExited))
       | None => false
       end.

End Threads.

(** ** What a lookup finds *)

Lemma list_find_take {A} (P : A -> Prop) `{forall x, Decision (P x)} (l : list A) n i x :
  list_find P (take n l) = Some (i, x) -> l !! i = Some x /\ (i < n)%nat /\ P x.
Proof. intros (Hi & HP & _)%list_find_Some. apply lookup_take_Some in Hi as [? ?]. done. Qed.

Lemma find_process_Some m pid i p :
  find_process m pid = Some (i, p) ->
  processes_ m !! i = Some p /\ (i < pcount_ m)%nat /\ pr_pid p = pid /\ pr_state p <> ProcEmpty.
Proof. intros (? & ? & ? & ?)%list_find_take. done. Qed.

Lemma find_thread_Some m tid k t :
  find_thread m tid = Some (k, t) ->
  uthreads_ m !! k = Some t /\ (k < tcount_ m)%nat /\ ut_tid t = tid /\ ut_state t <> UtEmpty.
Proof. intros (? & ? & ? & ?)%list_find_take. done. Qed.

Lemma find_alive_Some m pid i p :
  find_alive m pid = Some (i, p) -> find_process m pid = Some (i, p) /\ alive p.
Proof. unfold find_alive. intros ([j q] & Hf & Hq)%bind_Some. case_decide; by simplify_eq. Qed.

Lemma find_runnable_Some m pid i p :
  find_runnable m pid = Some (i, p) -> find_process m pid = Some (i, p) /\ pr_state p = ProcRunnable.
Proof. unfold find_runnable. intros ([j q] & Hf & Hq)%bind_Some. case_decide; by simplify_eq. Qed.
