(* ===== verification/UserFiles.v ===== *)
(** * Userspace manager: descriptors, pipes and files (kernel/src/userspace/userspace.cpp)

    What a process does through its descriptor table: opening, redirecting,
    duplicating and inheriting descriptors, reading and writing files and pipes,
    and what reaping a process gives back.  Paths are resolved with [Path.v], the
    calls to the file system are those of [Vfs.v], and the threads a transfer
    wakes are woken by [Userspace.v]. *)

From stdpp Require Import strings.
From S2P Require Import Prelude Path Vfs Userspace.
#[local] Open Scope Z_scope.

(** ** Descriptors *)

Definition kStdinFd : Z := 0.
Definition kStdoutFd : Z := 1.
Definition kStderrFd : Z := 2.

Definition copy_descriptor_path (path : cstr) : cstr := take 63 path.

Definition make_vfs_descriptor (fd_number handle : Z) (path : cstr) (offset : Z) : FileDescriptor :=
  mkFd fd_number handle 0 offset VfsFile true (copy_descriptor_path path).

Definition make_pipe_descriptor (fd_number pipe_id : Z) (write_end : bool) : FileDescriptor :=
  mkFd fd_number 0 pipe_id 0 (if write_end then PipeWrite else PipeRead) true [].

(** A descriptor that keeps a reference on a handle of the file system. *)
Definition holds_handle (d : FileDescriptor) : bool :=
  fd_open d && bool_decide (fd_kind d = VfsFile) && negb (fd_vfs_handle d =? 0).

Definition is_pipe_end (d : FileDescriptor) : bool :=
  bool_decide (fd_kind d = PipeRead \/ fd_kind d = PipeWrite).

(** [close_descriptor], seen from the file system. *)
Definition close_descriptor (d : FileDescriptor) (v : Vfs) : Vfs :=
  if holds_handle d then (close (fd_vfs_handle d) v).1 else v.

Definition fd_at (m : UserspaceManager) (i k : nat) : option FileDescriptor :=
  p ← processes_ m !! i; pr_file_descriptors p !! k.

Definition set_fd (i k : nat) (d : FileDescriptor) (m : UserspaceManager) : UserspaceManager :=
  on_process i (fun p => p <| pr_file_descriptors ::= <[k := d]> |>) m.

(** The descriptor in slot [k] of process [i] is closed and its slot cleared. *)
Definition close_process_descriptor (i k : nat) (m : UserspaceManager) : UserspaceManager :=
  match fd_at m i k with
  | Some d => if fd_open d
              then set_fd i k FileDescriptor0 (m <| k_vfs ::= close_descriptor d |>) else m
  | None => m
  end.

Definition fds_of (m : UserspaceManager) (i : nat) : list FileDescriptor :=
  from_option pr_file_descriptors [] (processes_ m !! i).

Definition find_fd (m : UserspaceManager) (i : nat) (fd : Z) : option (nat * FileDescriptor) :=
  list_find (fun d => fd_open d = true /\ fd_number d = fd) (fds_of m i).

Definition free_fd (m : UserspaceManager) (i : nat) : option nat :=
  index_of (fun d => fd_open d = false) (fds_of m i).

(** The loop that closes every descriptor numbered [fd]. *)
Definition close_numbered (i : nat) (fd : Z) (m : UserspaceManager) : UserspaceManager :=
  for_each kMaxProcessFileDescriptors (fun k m =>
    match fd_at m i k with
    | Some d => if fd_open d && (fd_number d =? fd) then close_process_descriptor i k m else m
    | None => m
    end) m.

Definition sync_descriptor_offsets (i : nat) (handle offset : Z) (m : UserspaceManager)
  : UserspaceManager :=
  if handle =? 0 then m
  else on_process i (fun p => p <| pr_file_descriptors ::=
         fmap (fun d => if fd_open d && bool_decide (fd_kind d = VfsFile) && (fd_vfs_handle d =? handle)
                        then d <| fd_offset := offset |> else d) |>) m.

Section Files.
Context `{Machine} `{Kernel} `{Terminal}.

(** ** Pipes *)

Definition cleanup_pipe_if_unreferenced (pipe_id : Z) (m : UserspaceManager) : UserspaceManager * bool :=
  match find_pipe m pipe_id with
  | None => (m, false)
  | Some (k, _) =>
    let has_reader := pipe_has_live_reader m pipe_id in
    let has_writer := pipe_has_live_writer m pipe_id in
    if has_reader || has_writer then
      let m := if negb has_reader then (wake_pipe_waiters pipe_id false true m).1 else m in
      let m := if negb has_writer then (wake_pipe_waiters pipe_id true false m).1 else m in
      (m, true)
    else
      let m := (wake_pipe_waiters pipe_id true true m).1 in
      (on_pipe k (fun _ => Pipe0) m, true)
  end.

Definition close_pipe (pipe_id : Z) (m : UserspaceManager) : UserspaceManager * bool :=
  cleanup_pipe_if_unreferenced pipe_id m.

Definition create_pipe (m : UserspaceManager) : UserspaceManager * Z :=
  match index_of (fun p => pi_open p = false) (pipes_ m) with
  | None => (m, 0)
  | Some k =>
    let id := next_pipe_id m in
    let next := inc32 id in
    let '(id, next) := if id =? 0 then (next, inc32 next) else (id, next) in
    (m <| next_pipe_id := next |> <| pipes_ ::= <[k := mkPipe id true 0 0 (sa_const 0)]> |>, id)
  end.

Definition attach_pipe_fd (pid target_fd pipe_id : Z) (write_end : bool) (m : UserspaceManager)
  : UserspaceManager * bool :=
  if (if write_end then negb (target_fd =? kStdoutFd) && negb (target_fd =? kStderrFd)
      else negb (target_fd =? kStdinFd)) then (m, false)
  else match find_process m pid, find_pipe m pipe_id with
       | Some (i, p), Some _ =>
         if decide (alive p) then
           let '(m, replaced_pipe) := for_each kMaxProcessFileDescriptors (fun k '(m, replaced_pipe) =>
             match fd_at m i k with
             | Some d => if fd_open d && (fd_number d =? target_fd)
                         then (close_process_descriptor i k m,
                               if is_pipe_end d then fd_pipe_id d else replaced_pipe)
                         else (m, replaced_pipe)
             | None => (m, replaced_pipe)
             end) (m, 0) in
           let m := if replaced_pipe =? 0 then m else (cleanup_pipe_if_unreferenced replaced_pipe m).1 in
           match free_fd m i with
           | Some k => (set_fd i k (make_pipe_descriptor target_fd pipe_id write_end) m, true)
           | None => (m, false)
           end
         else (m, false)
       | _, _ => (m, false)
       end.

(** The first live process with this pid. *)
Definition lookup_alive (m : UserspaceManager) (pid : Z) : option (nat * Process) :=
  list_find (fun p => pr_pid p = pid /\ alive p) (processes m).

Definition has_open_file (pid fd : Z) (m : UserspaceManager) : bool :=
  match lookup_alive m pid with
  | Some (i, _) => is_found (find_fd m i fd)
  | None => false
  end.

Definition is_pipe_fd (pid fd : Z) (m : UserspaceManager) : bool :=
  match '(i, _) ← lookup_alive m pid; find_fd m i fd with
  | Some (_, d) => is_pipe_end d
  | None => false
  end.

(** The first descriptor numbered [fd] that is this end of a pipe. *)
Definition pipe_end (kind : FileDescriptorKind) (pid fd : Z) (m : UserspaceManager) : option FileDescriptor :=
  '(i, _) ← lookup_alive m pid;
  '(_, d) ← list_find (fun d => (fd_open d = true /\ fd_number d = fd) /\ fd_kind d = kind) (fds_of m i);
  Some d.

Definition pipe_read_would_block (pid fd : Z) (m : UserspaceManager) : bool :=
  match d ← pipe_end PipeRead pid fd m; '(_, p) ← find_pipe m (fd_pipe_id d); Some (d, p) with
  | Some (d, p) => (pi_size p <=? pi_read_offset p) && pipe_has_live_writer m (fd_pipe_id d)
  | None => false
  end.

Definition pipe_write_would_block (pid fd : Z) (m : UserspaceManager) : bool :=
  match d ← pipe_end PipeWrite pid fd m; '(_, p) ← find_pipe m (fd_pipe_id d); Some (d, p) with
  | Some (d, p) => (kPipeCapacity <=? pi_size p) && pipe_has_live_reader m (fd_pipe_id d)
  | None => false
  end.

Definition resolve_pipe_fd (pid fd : Z) (write_end : bool) (m : UserspaceManager) : option Z :=
  '(i, _) ← lookup_alive m pid;
  '(_, d) ← find_fd m i fd;
  let expected := if write_end then PipeWrite else PipeRead in
  if bool_decide (fd_kind d = expected) && is_found (find_pipe m (fd_pipe_id d))
  then Some (fd_pipe_id d) else None.

(** ** Opening *)

(** A live process with [path] resolved against its current directory. *)
Definition resolve_for (m : UserspaceManager) (pid : Z) (path : cstr) : option (nat * cstr) :=
  '(i, p) ← find_alive m pid;
  resolved ← resolve_process_path (pr_current_directory p) path;
  Some (i, resolved).

(** [next_fd++], skipping the standard descriptors. *)
Definition take_fd_number (i : nat) (m : UserspaceManager) : UserspaceManager * Z :=
  let n := from_option pr_next_fd 0 (processes_ m !! i) in
  let '(n, next) := if n <? 3 then (inc32 n, inc32 (inc32 n)) else (n, inc32 n) in
  (on_process i (fun p => p <| pr_next_fd := next |>) m, n).

Definition vfs_open (path : cstr) (m : UserspaceManager) : UserspaceManager * Z :=
  let '(v, handle) := vopen path (k_vfs m) in (m <| k_vfs := v |>, handle).

Definition vfs_close (handle : Z) (m : UserspaceManager) : UserspaceManager :=
  m <| k_vfs ::= fun v => (close handle v).1 |>.

Definition open_file (pid : Z) (path : cstr) (m : UserspaceManager) : UserspaceManager * Z :=
  match resolve_for m pid path with
  | None => (m, 0)
  | Some (i, resolved) =>
    let '(m, handle) := vfs_open resolved m in
    if handle =? 0 then (m, 0)
    else match free_fd m i with
         | Some k =>
           let '(m, next_fd) := take_fd_number i m in
           (set_fd i k (make_vfs_descriptor next_fd handle resolved 0) m, next_fd)
         | None => (vfs_close handle m, 0)
         end
  end.

(** The file at [path] is opened and replaces whatever descriptor [fd] was. *)
Definition install_vfs_descriptor (i : nat) (fd : Z) (path : cstr) (m : UserspaceManager)
  : UserspaceManager * bool :=
  let '(m, handle) := vfs_open path m in
  if handle =? 0 then (m, false)
  else
    let m := close_numbered i fd m in
    match free_fd m i with
    | Some k => (set_fd i k (make_vfs_descriptor fd handle path 0) m, true)
    | None => (vfs_close handle m, false)
    end.

Definition dev_tty : cstr := cs "/dev/tty".

Definition install_default_standard_fds (i : nat) (m : UserspaceManager) : UserspaceManager * bool :=
  let '(m, ok) := install_vfs_descriptor i kStdinFd dev_tty m in
  if negb ok then (m, false)
  else let '(m, ok) := install_vfs_descriptor i kStdoutFd dev_tty m in
       if negb ok then (m, false) else install_vfs_descriptor i kStderrFd dev_tty m.

Definition redirect_file (pid target_fd : Z) (path : cstr) (m : UserspaceManager)
  : UserspaceManager * bool :=
  if negb (target_fd =? kStdinFd) && negb (target_fd =? kStdoutFd) && negb (target_fd =? kStderrFd)
  then (m, false)
  else match resolve_for m pid path with
       | None => (m, false)
       | Some (i, resolved) => install_vfs_descriptor i target_fd resolved m
       end.

Definition seek_file (pid fd offset : Z) (m : UserspaceManager) : UserspaceManager * bool :=
  match '(i, _) ← find_alive m pid; '(_, d) ← find_fd m i fd; Some (i, d) with
  | Some (i, d) =>
    if decide (fd_kind d = VfsFile) then
      let '(v, ok) := seek_handle (fd_vfs_handle d) offset (k_vfs m) in
      let m := m <| k_vfs := v |> in
      if ok : bool then (sync_descriptor_offsets i (fd_vfs_handle d) offset m, true) else (m, false)
    else (m, false)
  | None => (m, false)
  end.

Definition redirect_file_append (pid target_fd : Z) (path : cstr) (m : UserspaceManager)
  : UserspaceManager * bool :=
  if negb (target_fd =? kStdoutFd) && negb (target_fd =? kStderrFd) then (m, false)
  else match resolve_for m pid path with
       | None => (m, false)
       | Some (_, resolved) =>
         let v := k_vfs m in
         let end_offset := match node_at v (find v resolved) with
                           | Some n => match nd_ram_file n with
                                       | Some f => file_size v f
                                       | None => nd_size n
                                       end
                           | None => 0
                           end in
         let '(m, ok) := redirect_file pid target_fd path m in
         if ok : bool then seek_file pid target_fd end_offset m else (m, false)
       end.

(** ** Reading and writing *)

Definition count_read (i : nat) (n : Z) (m : UserspaceManager) : UserspaceManager :=
  on_process i (fun p => p <| pr_read_syscalls ::= inc64 |> <| pr_read_bytes ::= fun b => w64 (b + n) |>) m.
Definition count_write (i : nat) (n : Z) (m : UserspaceManager) : UserspaceManager :=
  on_process i (fun p => p <| pr_write_syscalls ::= inc64 |> <| pr_write_bytes ::= fun b => w64 (b + n) |>) m.

(** A live process with the descriptor numbered [fd]; no transfer when [size] is 0. *)
Definition transfer_fd (m : UserspaceManager) (pid fd size : Z) : option (nat * FileDescriptor) :=
  '(i, _) ← find_alive m pid;
  if size =? 0 then None else '(_, d) ← find_fd m i fd; Some (i, d).

(** At most [size] bytes of the pipe, which then lets blocked writers in. *)
Definition read_pipe (i : nat) (pipe_id size : Z) (m : UserspaceManager) : UserspaceManager * list Z :=
  match find_pipe m pipe_id with
  | None => (m, [])
  | Some (k, p) =>
    if pi_size p <=? pi_read_offset p then (m, [])
    else
      let available := w64 (pi_size p - pi_read_offset p) in
      let to_copy := if size <? available then size else available in
      let bytes := bytes_at (sa_get (pi_data p)) (pi_read_offset p) to_copy in
      let m := on_pipe k (consume_pipe to_copy) m in
      let m := (wake_pipe_waiters pipe_id false true m).1 in
      (count_read i to_copy m, bytes)
  end.

(** As much of [buffer] as the pipe has room for, which then lets blocked readers in. *)
Definition write_pipe (i : nat) (pipe_id : Z) (buffer : list Z) (m : UserspaceManager)
  : UserspaceManager * Z :=
  if negb (pipe_has_live_reader m pipe_id) then (m, 0)
  else match find_pipe m pipe_id with
       | None => (m, 0)
       | Some (k, p) =>
         if kPipeCapacity <=? pi_size p then (m, 0)
         else
           let available := w64 (kPipeCapacity - pi_size p) in
           let to_copy := if zlen buffer <? available then zlen buffer else available in
           let m := on_pipe k (fill_pipe (take (Z.to_nat to_copy) buffer)) m in
           let m := (wake_pipe_waiters pipe_id true false m).1 in
           (count_write i to_copy m, to_copy)
       end.

Definition read_file (pid fd size : Z) (m : UserspaceManager) (t : tty)
  : UserspaceManager * tty * list Z :=
  match transfer_fd m pid fd size with
  | Some (i, d) =>
    match fd_kind d with
    | VfsFile =>
      let '(v, t, bytes) := read_handle (fd_vfs_handle d) size (k_vfs m) t in
      let m := m <| k_vfs := v |> in
      let m := sync_descriptor_offsets i (fd_vfs_handle d) (handle_offset v (fd_vfs_handle d)) m in
      (count_read i (zlen bytes) m, t, bytes)
    | PipeRead => let '(m, bytes) := read_pipe i (fd_pipe_id d) size m in (m, t, bytes)
    | _ => (m, t, [])
    end
  | None => (m, t, [])
  end.

Definition write_file (pid fd : Z) (buffer : list Z) (m : UserspaceManager) (t : tty)
  : UserspaceManager * tty * Z :=
  match transfer_fd m pid fd (zlen buffer) with
  | Some (i, d) =>
    match fd_kind d with
    | VfsFile =>
      let '(v, t, n) := write_handle (fd_vfs_handle d) buffer (k_vfs m) t in
      let m := m <| k_vfs := v |> in
      let m := sync_descriptor_offsets i (fd_vfs_handle d) (handle_offset v (fd_vfs_handle d)) m in
      (count_write i n m, t, n)
    | PipeWrite => let '(m, n) := write_pipe i (fd_pipe_id d) buffer m in (m, t, n)
    | _ => (m, t, 0)
    end
  | None => (m, t, 0)
  end.


(** ** Closing and duplicating *)

Definition close_file (pid fd : Z) (m : UserspaceManager) : UserspaceManager * bool :=
  match '(i, _) ← find_process m pid; '(k, d) ← find_fd m i fd; Some (i, k, d) with
  | Some (i, k, d) =>
    let pipe_id := if is_pipe_end d then fd_pipe_id d else 0 in
    let m := close_process_descriptor i k m in
    (if pipe_id =? 0 then m else (cleanup_pipe_if_unreferenced pipe_id m).1, true)
  | None => (m, false)
  end.

(** One more reference for a descriptor about to be copied; nothing to take for a
    pipe. *)
Definition retain_descriptor (d : FileDescriptor) (m : UserspaceManager) : UserspaceManager * bool :=
  if bool_decide (fd_kind d = VfsFile) && negb (fd_vfs_handle d =? 0) then
    let '(v, ok) := retain_handle (fd_vfs_handle d) (k_vfs m) in (m <| k_vfs := v |>, ok)
  else (m, true).

Definition duplicate_file (pid source_fd : Z) (m : UserspaceManager) : UserspaceManager * Z :=
  match '(i, _) ← find_alive m pid; '(_, source) ← find_fd m i source_fd; Some (i, source) with
  | Some (i, source) =>
    match free_fd m i with
    | Some k =>
      let '(m, next_fd) := take_fd_number i m in
      let '(m, ok) := retain_descriptor source m in
      if ok : bool then (set_fd i k (source <| fd_number := next_fd |>) m, next_fd) else (m, 0)
    | None => (m, 0)
    end
  | None => (m, 0)
  end.

Definition duplicate_file_to (pid source_fd target_fd : Z) (m : UserspaceManager)
  : UserspaceManager * bool :=
  if Z.of_nat kMaxProcessFileDescriptors <=? target_fd then (m, false)
  else match '(i, _) ← find_alive m pid; '(_, source) ← find_fd m i source_fd; Some (i, source) with
       | Some (i, source) =>
         if source_fd =? target_fd then (m, true)
         else
           let m := close_numbered i target_fd m in
           match free_fd m i with
           | Some k =>
             let '(m, ok) := retain_descriptor source m in
             if ok : bool then
               let m := set_fd i k (source <| fd_number := target_fd |>) m in
               (on_process i (fun p => if pr_next_fd p <=? target_fd
                                       then p <| pr_next_fd := target_fd + 1 |> else p) m, true)
             else (m, false)
           | None => (m, false)
           end
       | None => (m, false)
       end.

(** What the child inherits for [source]: [None] is a failure, [Some None] nothing. *)
Definition inherited_descriptor (fd_number : Z) (source : FileDescriptor) (m : UserspaceManager)
  : UserspaceManager * option (option FileDescriptor) :=
  match fd_kind source with
  | VfsFile =>
    if bool_decide (fd_path source = []) || (fd_vfs_handle source =? 0) then (m, None)
    else
      let '(v, ok) := retain_handle (fd_vfs_handle source) (k_vfs m) in
      let m := m <| k_vfs := v |> in
      (m, if ok : bool
          then Some (Some (make_vfs_descriptor fd_number (fd_vfs_handle source) (fd_path source)
                             (handle_offset v (fd_vfs_handle source))))
          else None)
  | PipeRead | PipeWrite =>
    (m, if is_found (find_pipe m (fd_pipe_id source))
        then Some (Some (make_pipe_descriptor fd_number (fd_pipe_id source)
                           (bool_decide (fd_kind source = PipeWrite))))
        else None)
  | NoFile => (m, Some None)
  end.

(** One standard descriptor of the parent in slot [c] is passed to the child in slot [i]. *)
Definition inherit_fd (i c : nat) (fd_number : Z) (m : UserspaceManager) : UserspaceManager * bool :=
  match find_fd m c fd_number with
  | None => (m, true)
  | Some (s, _) =>
    let m := close_numbered i fd_number m in
    let source := default FileDescriptor0 (fd_at m c s) in
    match inherited_descriptor fd_number source m with
    | (m, None) => (m, false)
    | (m, Some None) => (m, true)
    | (m, Some (Some inherited)) =>
      match free_fd m i with
      | Some k => (set_fd i k inherited m, true)
      | None => (m <| k_vfs ::= close_descriptor inherited |>, false)
      end
    end
  end.

Definition inherit_standard_fds (child_pid parent_pid : Z) (m : UserspaceManager)
  : UserspaceManager * bool :=
  match find_alive m child_pid, find_alive m parent_pid with
  | Some (i, _), Some (c, _) =>
    let '(m, ok) := inherit_fd i c kStdinFd m in
    if negb ok then (m, false)
    else let '(m, ok) := inherit_fd i c kStdoutFd m in
         if negb ok then (m, false) else inherit_fd i c kStderrFd m
  | _, _ => (m, false)
  end.

(** ** Names *)

(** An operation of the file system on a path of a live process. *)
Definition on_path (pid : Z) (path : cstr) (op : cstr -> Vfs -> Vfs * bool) (m : UserspaceManager)
  : UserspaceManager * bool :=
  match resolve_for m pid path with
  | Some (_, resolved) => let '(v, ok) := op resolved (k_vfs m) in (m <| k_vfs := v |>, ok)
  | None => (m, false)
  end.

Definition on_paths (pid : Z) (a b : cstr) (op : cstr -> cstr -> Vfs -> Vfs * bool)
    (m : UserspaceManager) : UserspaceManager * bool :=
  match '(_, a) ← resolve_for m pid a; '(_, b) ← resolve_for m pid b; Some (a, b) with
  | Some (a, b) => let '(v, ok) := op a b (k_vfs m) in (m <| k_vfs := v |>, ok)
  | None => (m, false)
  end.

Definition create_file (pid : Z) (path : cstr) := on_path pid path create_ram_file.
Definition create_directory (pid : Z) (path : cstr) := on_path pid path create_ram_directory.
Definition delete_file (pid : Z) (path : cstr) := on_path pid path delete_ram_file.
Definition delete_directory (pid : Z) (path : cstr) := on_path pid path delete_ram_directory.
Definition truncate_path (pid : Z) (path : cstr) (size : Z) :=
  on_path pid path (fun p => truncate_ram_file p size).
Definition link_file (pid : Z) (existing_path new_path : cstr) :=
  on_paths pid existing_path new_path link_ram_file.
Definition rename_path (pid : Z) (old_path new_path : cstr) :=
  on_paths pid old_path new_path rename_ram_node.

Definition set_current_directory (pid : Z) (path : cstr) (m : UserspaceManager)
  : UserspaceManager * bool :=
  match resolve_for m pid path with
  | Some (i, next) =>
    if is_directory (k_vfs m) (find (k_vfs m) next)
    then (on_process i (fun p => p <| pr_current_directory := next |>) m, true) else (m, false)
  | None => (m, false)
  end.

Definition copy_current_directory (pid : Z) (m : UserspaceManager) : option cstr :=
  '(_, p) ← lookup_alive m pid;
  if bool_decide (head (pr_current_directory p) = Some slash)
  then Some (pr_current_directory p) else None.

(** ** Reaping *)

(** The pipes among the open descriptors, each descriptor being closed on the way. *)
Definition close_all_descriptors (i : nat) (m : UserspaceManager) : UserspaceManager * list Z :=
  for_each kMaxProcessFileDescriptors (fun k '(m, closed) =>
    match fd_at m i k with
    | Some d => (close_process_descriptor i k m,
                 if fd_open d && is_pipe_end d then closed ++ [fd_pipe_id d] else closed)
    | None => (m, closed)
    end) (m, []).

(** The slots of the threads of a process are cleared. *)
Definition clear_threads (pid : Z) (m : UserspaceManager) : UserspaceManager :=
  for_each (tcount_ m) (fun i m =>
    match uthreads_ m !! i with
    | Some t =>
      if decide (ut_pid t = pid /\ ut_state t <> UtEmpty) then
        let m := if active_tid_ m =? ut_tid t then m <| active_tid_ := 0 |> else m in
        let m := if last_selected_tid_ m =? ut_tid t then m <| last_selected_tid_ := 0 |> else m in
        on_thread i (fun _ => UserThread0) m
      else m
    | None => m
    end) m.

(** The record of a process whose slot may be used again. *)
Definition empty_process (p : Process) : Process :=
  p <| pr_state := ProcEmpty |> <| pr_name := [] |> <| pr_parent_pid := 0 |>
    <| pr_process_group_id := 0 |> <| pr_entry := 0 |> <| pr_address_space_root := 0 |>
    <| pr_user_stack_top := 0 |> <| pr_user_stack_pages := 0 |> <| pr_image_base := 0 |>
    <| pr_image_pages := 0 |> <| pr_main_thread_id := 0 |> <| pr_next_fd := 3 |>
    <| pr_termination_reason := NotTerminated |> <| pr_current_directory := [] |>
    <| pr_arguments := [] |> <| pr_environment := [] |> <| pr_owns_address_space := false |>
    <| pr_owned_pages := [] |>.

Definition reap_exited (pid : Z) (m : UserspaceManager) : UserspaceManager * bool :=
  match find_process m pid with
  | Some (i, p) =>
    if decide (pr_state p = ProcExited) then
      let '(m, closed_pipes) := close_all_descriptors i m in
      let m := foldl (fun m id => (cleanup_pipe_if_unreferenced id m).1) m closed_pipes in
      let m := m <| k_freed_pages ::= fun l => l ++ (op_phys <$> pr_owned_pages p) |> in
      let m := if pr_owns_address_space p && negb (pr_address_space_root p =? 0)
               then m <| k_destroyed_spaces ::= fun l => l ++ [pr_address_space_root p] |> else m in
      let m := clear_threads (pr_pid p) m in
      let m := if active_pid_ m =? pr_pid p then m <| active_pid_ := 0 |> else m in
      update_user_preemption_gate (on_process i empty_process m)
    else (m, false)
  | None => (m, false)
  end.


(** ** Creation *)

Definition initialize (m : UserspaceManager) : UserspaceManager :=
  m <| enabled_ := false |> <| pcount_ := O |> <| tcount_ := O |> <| next_pid_ := 1 |>
    <| next_tid_ := 1 |> <| active_pid_ := 0 |> <| active_tid_ := 0 |> <| last_selected_tid_ := 0 |>
    <| last_user_pick_index_ := 0 |> <| current_slice_ticks_ := 0 |> <| expired_slices_ := 0 |>
    <| foreground_process_group_id_ := 0 |> <| udiagnostics_ := UserspaceDiagnostics0 |>
    <| pipes_ ::= fmap (fun _ => Pipe0) |>.

Definition allocate_process_slot (m : UserspaceManager) : UserspaceManager * option nat :=
  match index_of (fun p => pr_state p = ProcEmpty) (processes m) with
  | Some i => (m, Some i)
  | None => if decide (kMaxUserProcesses <= pcount_ m)%nat then (m, None)
            else (m <| pcount_ ::= S |>, Some (pcount_ m))
  end.

Definition allocate_thread_slot (m : UserspaceManager) : UserspaceManager * option nat :=
  match index_of (fun t => ut_state t = UtEmpty) (threads m) with
  | Some i => (m, Some i)
  | None => if decide (kMaxUserThreads <= tcount_ m)%nat then (m, None)
            else (m <| tcount_ ::= S |>, Some (tcount_ m))
  end.

Definition create_main_thread (i : nat) (m : UserspaceManager) : UserspaceManager * option nat :=
  match processes_ m !! i with
  | None => (m, None)
  | Some p =>
    if (pr_entry p =? 0) || (pr_address_space_root p =? 0) || (pr_user_stack_top p =? 0)
    then (m, None)
    else match allocate_thread_slot m with
         | (m, None) => (m, None)
         | (m, Some k) =>
           let tid := next_tid_ m in
           let thread := UserThread0 <| ut_tid := tid |> <| ut_pid := pr_pid p |>
             <| ut_state := UtCreated |> <| ut_entry := pr_entry p |>
             <| ut_user_stack_pointer := w64 (pr_user_stack_top p - 16) |>
             <| ut_address_space_root := pr_address_space_root p |> <| ut_rflags := 0x202 |> in
           let m := m <| next_tid_ ::= inc64 |> <| uthreads_ ::= <[k := thread]> |> in
           (on_process i (fun p => p <| pr_main_thread_id := tid |>) m, Some k)
         end
  end.

(** The record written into the slot of a new process. *)
Definition new_process (pid : Z) (name : cstr) (entry root stack_top stack_pages image_base
    image_pages : Z) (owned : list OwnedPage) (owns_address_space : bool) : Process :=
  mkProcess pid 0 ProcCreated name entry root stack_top stack_pages image_base image_pages 0 0
    NotTerminated 3 (replicate kMaxProcessFileDescriptors FileDescriptor0) owned [slash] [] []
    owns_address_space pid 0 0 0 0 0 0 0 0 0.

(** The last part of the functions that create a process: a slot, the record, the
    main thread if there is one, and the standard descriptors.  A step that fails
    leaves what was done before it. *)
Definition publish_process (main_thread : bool) (make : Z -> Process) (m : UserspaceManager)
  : UserspaceManager * option nat :=
  match allocate_process_slot m with
  | (m, None) => (m, None)
  | (m, Some i) =>
    let m := m <| next_pid_ ::= inc64 |> <| processes_ ::= <[i := make (next_pid_ m)]> |> in
    let '(m, ok) := if main_thread
                    then let '(m, t) := create_main_thread i m in (m, is_found t) else (m, true) in
    if negb ok then (m, None)
    else let '(m, ok) := install_default_standard_fds i m in
         if ok : bool then (m, Some i) else (m, None)
  end.

Definition create_process_stub (name : cstr) (entry address_space_root : Z) (m : UserspaceManager)
  : UserspaceManager * option nat :=
  if entry =? 0 then (m, None)
  else publish_process false
         (fun pid => new_process pid name entry address_space_root 0 0 0 0 [] false) m.

End Files.

(** The static [UserspaceManager] before anything has run. *)
Definition initial_manager (v : Vfs) (memory : sarr) : UserspaceManager :=
  mkManager false
    (replicate kMaxUserProcesses (new_process 0 [] 0 0 0 0 0 0 [] false
       <| pr_state := ProcEmpty |> <| pr_next_fd := 0 |> <| pr_current_directory := [] |>))
    (replicate kMaxUserThreads UserThread0) (replicate kMaxPipes Pipe0) 0 0 1 1 0 0 0 0 0 0 0
    UserspaceDiagnostics0 1 v memory false false [] [].
