(* ===== verification/UserDemo.v ===== *)
(** * A small running system, for the examples of the userspace files

    Two processes, the second the child of the first, with a pipe from the output
    of the first to the input of the second, on which the thread of the second
    waits.  It is built by the operations of the manager from its initial state. *)

From stdpp Require Import strings.
From S2P Require Import Prelude Path Vfs Userspace UserFiles.
#[local] Open Scope Z_scope.

#[export] Instance demo_machine : Machine :=
  {| translate := fun root virt => virt; start_lapic := true;
     kUserCodeSelector := 0x23; kUserDataSelector := 0x1b |}.
#[export] Instance demo_kernel : Kernel :=
  {| ram_data_addr := fun f => 0; memory_byte := fun a => 0;
     render_virtual_file := fun _ _ => []; render_dynamic_proc_file := fun _ _ => [] |}.
#[export] Instance demo_terminal : Terminal :=
  {| tty := unit; terminal_read_input := fun _ t => ([], t);
     terminal_write := fun bytes t => (zlen bytes, t) |}.
Definition demo_tty : @tty demo_terminal := tt.

Definition demo_vfs : Vfs := (register_character_device dev_tty Tty fresh_vfs).1.

Definition demo_process (name : string) (pid : Z) : Process :=
  new_process pid (cs name) 0x400000 0x1000 kDefaultUserStackTop kDefaultUserStackPages 0x400000 1
    [mkOwnedPage 0x400000 0x9000] true.

(** Two processes, ready to run; the second is the child of the first. *)
Definition demo_two : UserspaceManager :=
  let m := initial_manager demo_vfs (sa_const 0) in
  let m := (publish_process true (demo_process "writer") m).1 in
  let m := (publish_process true (demo_process "reader") m).1 in
  let m := (set_parent 2 1 m).1 in
  let m := (mark_runnable 1 m).1 in
  (mark_runnable 2 m).1.

(** The pipe between them. *)
Definition demo_piped : UserspaceManager :=
  let m := (create_pipe demo_two).1 in
  let m := (attach_pipe_fd 1 kStdoutFd 1 true m).1 in
  (attach_pipe_fd 2 kStdinFd 1 false m).1.

(** The child runs and waits for at most 3 bytes, which it wants at 0x8000. *)
Definition demo_waiting : UserspaceManager :=
  let m := (activate_thread 2 demo_piped).1 in
  (block_active_thread_on_pipe 1 false kStdinFd 0x8000 3 m).1.
