(* ===== verification/UserImage.v ===== *)
(** * Process images (kernel/src/userspace/userspace.cpp)

    Creating a process: the ELF image in memory is read and checked, its segments
    and a stack are put into frames of the allocator and mapped in a new address
    space together with the kernel's own ranges, and the process is entered in the
    tables of the userspace manager.  The image, the page tables and the frames
    are all in the one memory of [PageTable], which is addressed here by bytes. *)

From stdpp Require Import strings.
From S2P Require Import Prelude Pmm PageTable PmmFrames Vmm AddressSpace Path Vfs Userspace UserFiles.
#[local] Open Scope Z_scope.

(** ** Bytes of memory (kernel/src/lib/string.cpp) *)

Definition byte_of (m : sarr) (a : Z) : Z :=
  Z.land (Z.shiftr (sa_get m (8 * (a / 8))) (8 * (a mod 8))) 255.

Definition set_byte (a b : Z) (m : sarr) : sarr :=
  let word := 8 * (a / 8) in
  let shift := 8 * (a mod 8) in
  sa_set m word (Z.lor (Z.ldiff (sa_get m word) (Z.shiftl 255 shift)) (Z.shiftl b shift)).

Definition memcpy (dst src n : Z) (m : sarr) : sarr :=
  for_range 0 n (fun i m => set_byte (dst + i) (byte_of m (src + i)) m) m.

(** A little-endian integer of [n] bytes. *)
Fixpoint le_read (n : nat) (m : sarr) (a : Z) : Z :=
  match n with
  | O => 0
  | S n => byte_of m a + 256 * le_read n m (a + 1)
  end.

(** ** The ELF file *)

Record Elf64_Ehdr := mkEhdr {
  e_ident : list Z; e_type : Z; e_machine : Z; e_version : Z; e_entry : Z; e_phoff : Z; e_shoff : Z;
  e_flags : Z; e_ehsize : Z; e_phentsize : Z; e_phnum : Z; e_shentsize : Z; e_shnum : Z; e_shstrndx : Z
}.

Record Elf64_Phdr := mkPhdr {
  p_type : Z; p_flags : Z; p_offset : Z; p_vaddr : Z; p_paddr : Z; p_filesz : Z; p_memsz : Z; p_align : Z
}.

Definition sizeof_Ehdr : Z := 64.
Definition sizeof_Phdr : Z := 56.
Definition kElfLoad : Z := 1.
Definition kElfExecute : Z := 1.
Definition kElfWrite : Z := 2.
Definition PageNoExecute : Z := 2 ^ 63.
Definition PageCacheDisable : Z := 16.
Definition PageWriteThrough : Z := 8.

(** The header at [a], with the layout of the structures. *)
Definition ehdr_at (m : sarr) (a : Z) : Elf64_Ehdr :=
  mkEhdr (bytes_at (byte_of m) a 16) (le_read 2 m (a + 16)) (le_read 2 m (a + 18)) (le_read 4 m (a + 20))
    (le_read 8 m (a + 24)) (le_read 8 m (a + 32)) (le_read 8 m (a + 40)) (le_read 4 m (a + 48))
    (le_read 2 m (a + 52)) (le_read 2 m (a + 54)) (le_read 2 m (a + 56)) (le_read 2 m (a + 58))
    (le_read 2 m (a + 60)) (le_read 2 m (a + 62)).

Definition phdr_at (m : sarr) (a : Z) : Elf64_Phdr :=
  mkPhdr (le_read 4 m a) (le_read 4 m (a + 4)) (le_read 8 m (a + 8)) (le_read 8 m (a + 16))
    (le_read 8 m (a + 24)) (le_read 8 m (a + 32)) (le_read 8 m (a + 40)) (le_read 8 m (a + 48)).

(** [ph[i]] *)
Definition phdr (m : sarr) (image_base phoff i : Z) : Elf64_Phdr :=
  phdr_at m (w64 (w64 (image_base + phoff) + i * sizeof_Phdr)).

Definition valid_elf64 (eh : Elf64_Ehdr) (size : Z) : bool :=
  let ident k := nth k (e_ident eh) 0 in
  if size <? sizeof_Ehdr then false
  else if negb (ident 0%nat =? 0x7f) || negb (ident 1%nat =? 0x45) || negb (ident 2%nat =? 0x4c) ||
          negb (ident 3%nat =? 0x46) then false
  else if negb (ident 4%nat =? 2) || negb (ident 5%nat =? 1) then false
  else if negb (e_machine eh =? 62) || negb (e_phentsize eh =? sizeof_Phdr) then false
  else negb (size <? w64 (e_phoff eh + w64 (e_phnum eh * sizeof_Phdr))).

Definition segment_flags (p_flags : Z) : Z :=
  let page_flags := PageUser in
  let page_flags := if negb (Z.land p_flags kElfWrite =? 0) then Z.lor page_flags PageWrite else page_flags in
  if Z.land p_flags kElfExecute =? 0 then Z.lor page_flags PageNoExecute else page_flags.

Section Image.
Context {A : Type} `{PageAllocator A}.

(** ** Loading *)

(** What the loader keeps in its local variables, and the machine. *)
Record Loading := mkLoading {
  ld_machine : machine A;
  ld_owned : list OwnedPage;
  ld_first_vaddr : Z;
  ld_last_vaddr : Z;
  ld_loaded_pages : Z
}.
#[export] Instance Loading_eta : Eta Loading := fun r =>
  mkLoading (ld_machine r) (ld_owned r) (ld_first_vaddr r) (ld_last_vaddr r) (ld_loaded_pages r).

Definition track_page (pages : list OwnedPage) (virt phys : Z) : option (list OwnedPage) :=
  if decide (kMaxOwnedUserPages <= length pages)%nat then None
  else Some (pages ++ [mkOwnedPage virt phys]).

(** A frame is mapped at [virt] and recorded; the function is left where a step fails. *)
Definition map_owned (space : AddressSpace) (virt phys flags : Z) (l : Loading)
  : flow Loading (machine A) :=
  let '(M, mapped) := as_map_page space virt phys flags (ld_machine l) in
  if negb (ok mapped) then Stop M
  else match track_page (ld_owned l) virt phys with
       | None => Stop M
       | Some owned => Next (l <| ld_machine := M |> <| ld_owned := owned |>)
       end.

(** The part of a segment that is in the file and in the page at [virt]: where it
    starts and where it ends. *)
Definition copy_range (ph : Elf64_Phdr) (virt : Z) : Z * Z :=
  let copy_start := if p_vaddr ph <? virt then virt else p_vaddr ph in
  let file_end := w64 (p_vaddr ph + p_filesz ph) in
  (copy_start, if w64 (virt + 4096) <? file_end then w64 (virt + 4096) else file_end).

(** One page of a segment. *)
Definition load_page (space : AddressSpace) (image_base : Z) (ph : Elf64_Phdr) (virt : Z) (l : Loading)
  : flow Loading (machine A) :=
  let '(s, phys) := pa_alloc (frames (ld_machine l)) in
  let M := ld_machine l <| frames := s |> in
  if phys =? 0 then Stop M
  else
    let M := M <| ram ::= zero_page phys |> in
    let '(copy_start, copy_end) := copy_range ph virt in
    let M := if copy_start <? copy_end
             then M <| ram ::= memcpy (w64 (phys + w64 (copy_start - virt)))
                        (w64 (image_base + p_offset ph + w64 (copy_start - p_vaddr ph)))
                        (copy_end - copy_start) |>
             else M in
    match map_owned space virt phys (segment_flags (p_flags ph)) (l <| ld_machine := M |>) with
    | Next l => Next (l <| ld_loaded_pages ::= inc64 |>)
    | Stop M => Stop M
    end.

(** One program header; the pages of its segment are [seg_start], [seg_start + 4096], ... *)
Definition load_segment (space : AddressSpace) (image_base image_size phoff i : Z) (l : Loading)
  : flow Loading (machine A) :=
  let ph := phdr (ram (ld_machine l)) image_base phoff i in
  if negb (p_type ph =? kElfLoad) then Next l
  else if p_memsz ph <? p_filesz ph then Stop (ld_machine l)
  else if image_size <? w64 (p_offset ph + p_filesz ph) then Stop (ld_machine l)
  else
    let seg_start := align_down (p_vaddr ph) 4096 in
    let seg_end := align_up (w64 (p_vaddr ph + p_memsz ph)) 4096 in
    let l := l <| ld_first_vaddr ::= fun v => if seg_start <? v then seg_start else v |>
               <| ld_last_vaddr ::= fun v => if v <? seg_end then seg_end else v |> in
    loop_range (seg_start / 4096) (seg_end / 4096) (fun page l =>
      load_page space image_base (phdr (ram (ld_machine l)) image_base phoff i) (page * 4096) l) l.

(** One page of the stack; [clear] is whether its frame is cleared. *)
Definition load_stack_page (space : AddressSpace) (clear : bool) (i : Z) (l : Loading)
  : flow Loading (machine A) :=
  let '(s, phys) := pa_alloc (frames (ld_machine l)) in
  let M := ld_machine l <| frames := s |> in
  if phys =? 0 then Stop M
  else
    let M := if clear then M <| ram ::= zero_page phys |> else M in
    map_owned space (w64 (kDefaultUserStackTop - (i + 1) * 4096)) phys (Z.lor PageWrite PageUser)
      (l <| ld_machine := M |>).

Definition load_stack (space : AddressSpace) (clear : bool) (l : Loading) : flow Loading (machine A) :=
  loop_range 0 kDefaultUserStackPages (load_stack_page space clear) l.

(** ** The kernel's ranges *)

(** Pages from [first] to [last] that are not mapped yet are mapped to themselves. *)
Definition map_identity (space : AddressSpace) (first last flags : Z) (M : machine A)
  : flow (machine A) (machine A) :=
  loop_range first last (fun page M =>
    if negb (as_translate space (page * 4096) M =? 0) then Next M
    else let '(M, mapped) := as_map_page space (page * 4096) (page * 4096) flags M in
         if negb (ok mapped) then Stop M else Next M) M.

Definition kMinimumIdentityLimit : Z := 256 * 1024 * 1024.

Definition map_kernel_identity_window (space : AddressSpace) (required_limit : Z) (M : machine A)
  : flow (machine A) (machine A) :=
  let limit := if required_limit <? kMinimumIdentityLimit then kMinimumIdentityLimit else required_limit in
  map_identity space 0 (align_up limit 4096 / 4096) PageWrite M.

Definition map_supervisor_range (space : AddressSpace) (base length flags : Z) (M : machine A)
  : flow (machine A) (machine A) :=
  if (base =? 0) || (length =? 0) then Next M
  else map_identity space (align_down base 4096 / 4096) (align_up (w64 (base + length)) 4096 / 4096) flags M.

Definition framebuffer_flags : Z := Z.lor (Z.lor PageWrite PageCacheDisable) PageWriteThrough.

Definition map_kernel_runtime_ranges (space : AddressSpace) (boot : BootInfo) (required_identity_limit : Z)
    (M : machine A) : flow (machine A) (machine A) :=
  match map_kernel_identity_window space required_identity_limit M with
  | Stop M => Stop M
  | Next M =>
    let fb_length := w64 (w64 (fb_pixels_per_scanline boot * fb_height boot) * fb_bytes_per_pixel boot) in
    map_supervisor_range space (fb_base boot) fb_length framebuffer_flags M
  end.

(** ** Whole address spaces *)

(** The segments, the stack and the kernel's ranges of an ELF image; the result is
    the entry point and what has been loaded. *)
Definition load_elf (space : AddressSpace) (boot : BootInfo) (image_base image_size : Z) (M : machine A)
  : flow (Z * Loading) (machine A) :=
  let eh := ehdr_at (ram M) image_base in
  match loop_range 0 (e_phnum eh) (load_segment space image_base image_size (e_phoff eh))
          (mkLoading M [] (2 ^ 64 - 1) 0 0) with
  | Stop M => Stop M
  | Next l =>
    let entry := e_entry (ehdr_at (ram (ld_machine l)) image_base) in
    if (ld_loaded_pages l =? 0) || (entry <? ld_first_vaddr l) || (ld_last_vaddr l <=? entry)
    then Stop (ld_machine l)
    else match load_stack space true l with
         | Stop M => Stop M
         | Next l =>
           match map_kernel_runtime_ranges space boot (w64 (image_base + image_size)) (ld_machine l) with
           | Stop M => Stop M
           | Next M => Next (entry, l <| ld_machine := M |>)
           end
         end
  end.

Definition load_stub (space : AddressSpace) (boot : BootInfo) (entry : Z) (M : machine A)
  : flow Loading (machine A) :=
  match load_stack space false (mkLoading M [] 0 0 0) with
  | Stop M => Stop M
  | Next l =>
    match map_kernel_runtime_ranges space boot (w64 (entry + 4096)) (ld_machine l) with
    | Stop M => Stop M
    | Next M => Next (l <| ld_machine := M |>)
    end
  end.
End Image.
Arguments Loading : clear implicits.

(** ** Processes *)

Section Create.
Context `{Machine} `{Kernel} `{Terminal}.
Context {A : Type} `{PageAllocator A}.

Definition create_process (boot : BootInfo) (name : cstr) (entry : Z) (M : machine A) (m : UserspaceManager)
  : machine A * UserspaceManager * option nat :=
  if entry =? 0 then (M, m, None)
  else
    let '(M, space) := create_address_space M in
    if pml4 space =? 0 then (M, m, None)
    else match load_stub space boot entry M with
         | Stop M => (M, m, None)
         | Next l =>
           let '(m, i) := publish_process true (fun pid =>
             new_process pid name entry (pml4 space) kDefaultUserStackTop kDefaultUserStackPages 0 0
               (ld_owned l) true) m in
           (ld_machine l, m, i)
         end.

Definition create_process_from_elf (boot : BootInfo) (name : cstr) (image_base image_size : Z)
    (M : machine A) (m : UserspaceManager) : machine A * UserspaceManager * option nat :=
  if image_base =? 0 then (M, m, None)
  else
    let eh := ehdr_at (ram M) image_base in
    if negb (valid_elf64 eh image_size) || (e_entry eh =? 0) then (M, m, None)
    else
      let '(M, space) := create_address_space M in
      if pml4 space =? 0 then (M, m, None)
      else match load_elf space boot image_base image_size M with
           | Stop M => (M, m, None)
           | Next (entry, l) =>
             let '(m, i) := publish_process true (fun pid =>
               new_process pid name entry (pml4 space) kDefaultUserStackTop kDefaultUserStackPages
                 (ld_first_vaddr l) (ld_loaded_pages l) (ld_owned l) true) m in
             (ld_machine l, m, i)
           end.

(** What [reap_exited] gives back to the allocator. *)
Definition release_memory (p : Process) (M : machine A) : machine A :=
  let M := foldl (fun M o => free_frame (op_phys o) M) M (pr_owned_pages p) in
  if pr_owns_address_space p && negb (pr_address_space_root p =? 0)
  then (destroy_address_space (mkSpace (pr_address_space_root p)) M).1 else M.

Definition validate_process_mappings (p : Process) (M : machine A) (m : UserspaceManager) : bool :=
  if (pr_address_space_root p =? 0) || (pr_entry p =? 0) || (pr_user_stack_top p =? 0) then false
  else match find_thread m (pr_main_thread_id p) with
       | None => false
       | Some (_, t) =>
         if negb (ut_pid t =? pr_pid p) || negb (ut_entry t =? pr_entry p) then false
         else if negb (ut_address_space_root t =? pr_address_space_root p) ||
                 (pr_user_stack_top p <=? ut_user_stack_pointer t) then false
         else
           let space := mkSpace (pr_address_space_root p) in
           let stack := w64 (pr_user_stack_top p - 8) in
           if as_translate space (pr_entry p) M =? 0 then false
           else if as_translate space stack M =? 0 then false
           else
             let entry_flags := page_flags space (pr_entry p) M in
             if (Z.land entry_flags PageUser =? 0) || negb (Z.land entry_flags PageNoExecute =? 0) then false
             else
               let stack_flags := page_flags space stack M in
               negb ((Z.land stack_flags PageUser =? 0) || (Z.land stack_flags PageWrite =? 0))
       end.
End Create.
