(* ===== verification/UserLoad.v ===== *)
(** * Loading a process image: what is in the address space (kernel/src/userspace/userspace.cpp)

    Every byte of every segment and of the stack is where the program expects it,
    with the permissions the file asks for; nothing else is reachable from user
    mode; all of it is in frames that were free, and reaping the process gives back
    exactly those.  A load is refused only for a cause that is in the file or for
    want of frames. *)

From stdpp Require Import strings.
From S2P Require Import Prelude Pmm PageTable PmmFrames Vmm AddressSpace Path Vfs Userspace UserFiles UserImage.
#[local] Open Scope Z_scope.

(** ** Bytes *)

Lemma byte_testbit m a n :
  0 <= n -> Z.testbit (byte_of m a) n = (n <? 8) && Z.testbit (sa_get m (8 * (a / 8))) (n + 8 * (a mod 8)).
Proof.
  intros Hn. unfold byte_of. rewrite Z.land_spec, Z.shiftr_spec by done. change 255 with (Z.ones 8).
  rewrite Z.testbit_ones_nonneg by lia. apply andb_comm.
Qed.

Lemma byte_range m a : 0 <= byte_of m a < 256.
Proof.
  unfold byte_of. change 255 with (Z.ones 8). rewrite Z.land_ones by lia. apply Z.mod_pos_bound. lia.
Qed.

Lemma small_testbit b n : 0 <= b < 256 -> 8 <= n -> Z.testbit b n = false.
Proof.
  intros Hb Hn. rewrite <- (Z.mod_small b (2 ^ 8)) by lia. by rewrite Z.mod_pow2_bits_high by lia.
Qed.

Lemma byte_of_set a b m a' :
  0 <= b < 256 -> byte_of (set_byte a b m) a' = if decide (a = a') then b else byte_of m a'.
Proof.
  intros Hb. apply Z.bits_inj'. intros n Hn. rewrite byte_testbit by done. unfold set_byte.
  pose proof (Z.mod_pos_bound a 8). pose proof (Z.mod_pos_bound a' 8).
  destruct (decide (8 * (a / 8) = 8 * (a' / 8))) as [Hw|Hw].
  - rewrite <- Hw, sa_get_set_eq, Z.lor_spec, Z.ldiff_spec, !Z.shiftl_spec by lia.
    change 255 with (Z.ones 8). rewrite Z.testbit_ones by lia.
    case_decide as Ha.
    + subst a'. replace (n + 8 * (a mod 8) - 8 * (a mod 8)) with n by lia.
      destruct (Z.ltb_spec n 8).
      * rewrite (proj2 (Z.leb_le 0 n) Hn). cbn. by rewrite andb_false_r.
      * by rewrite (small_testbit b n).
    + assert (a mod 8 <> a' mod 8) by (intros ?; apply Ha; rewrite (Z.div_mod a 8), (Z.div_mod a' 8); lia).
      rewrite byte_testbit, <- Hw by done. destruct (Z.ltb_spec n 8); [|done].
      destruct (decide (a mod 8 < a' mod 8)).
      * rewrite (small_testbit b) by lia. destruct (Z.ltb_spec (n + 8 * (a' mod 8) - 8 * (a mod 8)) 8); [lia|].
        by rewrite andb_false_r, andb_true_r, orb_false_r.
      * rewrite (Z.testbit_neg_r b) by lia. rewrite (proj2 (Z.leb_gt 0 _)) by lia.
        by rewrite andb_true_r, orb_false_r.
  - rewrite sa_get_set_ne by done. rewrite decide_False by congruence. by rewrite byte_testbit.
Qed.

Lemma set_byte_word a b m w : w <> 8 * (a / 8) -> sa_get (set_byte a b m) w = sa_get m w.
Proof. intros Hw. unfold set_byte. by rewrite sa_get_set_ne. Qed.

Lemma byte_of_word m m' a : sa_get m' (8 * (a / 8)) = sa_get m (8 * (a / 8)) -> byte_of m' a = byte_of m a.
Proof. unfold byte_of. by intros ->. Qed.

Lemma memcpy_word dst src n m w :
  (forall i, 0 <= i < n -> w <> 8 * ((dst + i) / 8)) -> sa_get (memcpy dst src n m) w = sa_get m w.
Proof.
  intros Hw. unfold memcpy. apply (for_range_inv (fun _ m' => sa_get m' w = sa_get m w)); [done|].
  intros i m' Hi IH. by rewrite set_byte_word by auto.
Qed.

Lemma memcpy_bytes dst src n m a :
  0 <= n -> (forall i j, 0 <= i < n -> 0 <= j < n -> src + i <> dst + j) ->
  byte_of (memcpy dst src n m) a = if decide (dst <= a < dst + n) then byte_of m (src + (a - dst)) else byte_of m a.
Proof.
  intros Hn Hd. unfold memcpy.
  pose proof (for_range_inv (fun k m' => forall a, byte_of m' a =
    if decide (dst <= a < dst + k) then byte_of m (src + (a - dst)) else byte_of m a) 0 n
    (fun i m => set_byte (dst + i) (byte_of m (src + i)) m) m) as Hi.
  rewrite Z.max_r in Hi by done. apply Hi; clear Hi a.
  - intros a. by rewrite decide_False by lia.
  - intros i m' Hi IH a. rewrite byte_of_set by apply byte_range. rewrite !IH.
    rewrite (decide_False (P := dst <= src + i < dst + i)).
    2: { intros ?. apply (Hd i (src + i - dst)); lia. }
    destruct (decide (dst + i = a)) as [<-|Hne].
    + rewrite decide_True by lia. f_equal. lia.
    + repeat case_decide; try lia; done.
Qed.

(** The bytes of a frame are in its words. *)
Lemma frame_word f a : frame_ok f -> f <= a < f + 4096 -> exists i, idx_ok i /\ 8 * (a / 8) = slot f i.
Proof.
  intros [_ Hm] Ha. exists ((a - f) / 8). unfold idx_ok, slot. apply Z.mod_divide in Hm as [k ->]; [|done].
  Z.to_euclidean_division_equations. lia.
Qed.

Lemma zero_page_bytes f m off : frame_ok f -> 0 <= off < 4096 -> byte_of (zero_page f m) (f + off) = 0.
Proof.
  intros Hf Ho. destruct (frame_word f (f + off) Hf) as (i & Hi & E); [lia|].
  unfold byte_of. rewrite E, zero_page_in by done. by rewrite Z.shiftr_0_l.
Qed.

Lemma le_read_range n m a : 0 <= le_read n m a < 256 ^ Z.of_nat n.
Proof.
  revert a. induction n as [|n IH]; intros a; cbn [le_read]; [by cbn|].
  pose proof (byte_range m a). specialize (IH (a + 1)). rewrite Nat2Z.inj_succ, Z.pow_succ_r by lia. lia.
Qed.

(** Reading the same bytes gives the same integer. *)
Lemma le_read_agree n m m' a :
  (forall i, 0 <= i < Z.of_nat n -> byte_of m' (a + i) = byte_of m (a + i)) -> le_read n m' a = le_read n m a.
Proof.
  revert a. induction n as [|n IH]; intros a Hb; cbn [le_read]; [done|].
  rewrite (IH (a + 1)).
  - specialize (Hb 0 ltac:(lia)). rewrite Z.add_0_r in Hb. by rewrite Hb.
  - intros i Hi. replace (a + 1 + i) with (a + (i + 1)) by lia. apply Hb. lia.
Qed.

(** ** The machine while a space is built *)

Section Load.
Context {A : Type} `{PageAllocatorLaws A}.
Context (sp : AddressSpace) (M0 : machine A).
#[local] Abbreviation root := (pml4 sp).
#[local] Abbreviation is_table M f := (exists q, vpath lower q /\ table_of (ram M) root q = Some f).

(** Words that are in no frame that was free at the start. *)
Definition outside (a : Z) : Prop :=
  forall f i, frame_ok f -> idx_ok i -> pa_avail (frames M0) f = true -> a <> slot f i.

(** [M] is a state after the start in which the frames [data] hold data and the
    space is the page map [pm]; every other frame that was taken is a table. *)
Record building (M : machine A) (data : list Z) (pm : gmap Z Z) : Prop := {
  bu_space : space_wf sp M;
  bu_ram a : outside a -> sa_get (ram M) a = sa_get (ram M0) a;
  bu_avail f : frame_ok f -> pa_avail (frames M) f = true -> pa_avail (frames M0) f = true;
  bu_taken f : frame_ok f -> pa_avail (frames M0) f = true ->
    pa_avail (frames M) f = true \/ is_table M f \/ f ∈ data;
  bu_new q t : vpath lower q -> table_of (ram M) root q = Some t -> pa_avail (frames M0) t = true;
  bu_managed f : pa_managed (frames M) f = pa_managed (frames M0) f;
  bu_frame f : f ∈ data -> frame_ok f /\ pa_avail (frames M0) f = true /\ pa_managed (frames M0) f = true;
  bu_used f : f ∈ data -> pa_avail (frames M) f = false /\ ~ is_table M f;
  bu_nodup : NoDup data;
  bu_pte v : user v -> as_pte sp M v = pm !! vpn v
}.

Lemma building_start M :
  fresh_space sp M0 M -> space_wf sp M -> building M [] ∅.
Proof.
  intros [[Hr Hrav] Hav Hman Hram Htab Hemp] Hw. split.
  - done.
  - intros a Ha. apply Hram. intros i Hi. by apply Ha.
  - intros f Hf. rewrite Hav by done. by intros [? _]%andb_true_iff.
  - intros f Hf Hf0. rewrite Hav, Hf0 by done. destruct (Z.eqb_spec f root) as [->|]; [|by left].
    right. left. exists []. split; [apply root_path|done].
  - intros q t Hq [-> ->]%Htab; done.
  - done.
  - by intros f ?%elem_of_nil.
  - by intros f ?%elem_of_nil.
  - constructor.
  - intros v Hv. rewrite lookup_empty. by apply Hemp.
Qed.

(** A frame is taken for data. *)
Lemma building_alloc M data pm :
  building M data pm ->
  let M1 := M <| frames := (pa_alloc (frames M)).1 |> in
  let f := (pa_alloc (frames M)).2 in
  (f = 0 /\ pa_count (frames M1) = 0) \/ (f <> 0 /\ building M1 (data ++ [f]) pm).
Proof.
  intros B. cbv zeta. pose proof (sw_tree _ _ (bu_space _ _ _ B)) as Hw.
  pose proof (tw_alloc _ _ _ Hw) as Hs. destruct (pa_alloc_cases _ Hs) as [(-> & _ & Hc & _)|(Hf & Hav & Hman & _ & _ & Hrest)].
  { left. done. }
  right. split; [destruct Hf; lia|]. set (f := (pa_alloc (frames M)).2) in *.
  assert (Hm : forall a, pa_managed (pa_alloc (frames M)).1 a = pa_managed (frames M0) a).
  { intros a. rewrite pa_alloc_managed by done. apply B. }
  assert (Hnt : ~ is_table M f).
  { intros (q & Hq & Et). rewrite (tw_used _ _ _ Hw q f) in Hav; done. }
  assert (Hnd : f ∉ data).
  { intros Hin. destruct (bu_used _ _ _ B f Hin) as [Hno _]. congruence. }
  split; cbn.
  - split; [by apply alloc_tree_wf|]. cbn. rewrite Hm, <- (bu_managed _ _ _ B). apply B.
  - apply B.
  - intros g Hg. rewrite Hrest by done. intros [Hg1 _]%andb_true_iff. by apply B.
  - intros g Hg Hg0. rewrite Hrest by done. destruct (Z.eqb_spec g f) as [->|].
    { right. right. apply elem_of_app. right. by apply list_elem_of_singleton. }
    rewrite elem_of_app. destruct (bu_taken _ _ _ B g Hg Hg0) as [->|[?|?]]; [by left|right; by left|tauto].
  - apply B.
  - done.
  - intros g [Hg| ->%list_elem_of_singleton]%elem_of_app; [by apply B|]. split; [done|].
    split; [by apply B|]. by rewrite <- (bu_managed _ _ _ B).
  - intros g [Hg| ->%list_elem_of_singleton]%elem_of_app.
    + destruct (bu_used _ _ _ B g Hg) as [Hno Hnt']. split; [|done]. rewrite Hrest by (by apply B). by rewrite Hno.
    + split; [|done]. by rewrite Hrest, Z.eqb_refl, andb_false_r.
  - apply NoDup_app. split; [apply B|]. split; [|apply NoDup_singleton].
    by intros g Hg ->%list_elem_of_singleton.
  - apply B.
Qed.

(** Its contents are written. *)
Lemma building_write M data pm f m' :
  building M data pm -> f ∈ data ->
  (forall a, (forall i, idx_ok i -> a <> slot f i) -> sa_get m' a = sa_get (ram M) a) ->
  building (M <| ram := m' |>) data pm.
Proof.
  intros B Hf Hm. destruct (bu_frame _ _ _ B f Hf) as (Hfr & Hf0 & _). destruct (bu_used _ _ _ B f Hf) as [Hno Hnt].
  pose proof (bu_space _ _ _ B) as Hs. pose proof (sw_tree _ _ Hs) as Hw.
  destruct (space_agree sp M (M <| ram := m' |>)) as (Hs' & HT & Hp); cbn; try done.
  { apply Hw. }
  { intros q t i Hq Hi Et. apply Hm. intros j Hj E. destruct (slot_inj t f i j) as [-> _]; eauto using tw_frame. }
  split; cbn; try apply B.
  - done.
  - intros a Ha. rewrite Hm; [by apply B|]. intros i Hi. by apply Ha.
  - intros g Hg Hg0. destruct (bu_taken _ _ _ B g Hg Hg0) as [?|[(q & Hq & Et)|?]]; [by left| |right; by right].
    right. left. exists q. cbn in HT. by rewrite HT.
  - intros q t Hq. cbn in HT. rewrite HT by done. by apply B.
  - intros g Hg. destruct (bu_used _ _ _ B g Hg) as [Hgo Hgt]. split; [done|].
    intros (q & Hq & Et). apply Hgt. exists q. cbn in HT. by rewrite <- HT.
  - intros v Hv. etrans; [by apply Hp|]. by apply B.
Qed.

(** The words of data frames are out of reach of the page tables. *)
Lemma data_untouched M data pm f i : building M data pm -> f ∈ data -> idx_ok i -> untouched lower root M (slot f i).
Proof.
  intros B Hf Hi. destruct (bu_frame _ _ _ B f Hf) as (Hfr & _). destruct (bu_used _ _ _ B f Hf) as [Hno Hnt].
  pose proof (sw_tree _ _ (bu_space _ _ _ B)) as Hw. split.
  - intros q t j Hq Hj Et E. destruct (slot_inj f t i j) as [-> _]; eauto using tw_frame.
  - intros g j Hg Hj Hav E. destruct (slot_inj f g i j) as [-> _]; [done..|]. congruence.
Qed.

(** Words outside the frames that were free are untouched too. *)
Lemma outside_untouched M data pm a : building M data pm -> outside a -> untouched lower root M a.
Proof.
  intros B Ha. pose proof (sw_tree _ _ (bu_space _ _ _ B)) as Hw. split.
  - intros q t j Hq Hj Et. apply Ha; [eauto using tw_frame|done|by eapply bu_new].
  - intros g j Hg Hj Hav. apply Ha; [done..|by apply B].
Qed.

(** A page is mapped, or the call is refused because it is mapped already or there
    is no frame for a table. *)
Lemma building_map M data pm virt phys flags :
  building M data pm -> user virt -> aligned virt -> aligned phys ->
  let '(M', r) := as_map_page sp virt phys flags M in
  (forall f i, f ∈ data -> idx_ok i -> sa_get (ram M') (slot f i) = sa_get (ram M) (slot f i)) /\
  if ok r then pm !! vpn virt = None /\ building M' data (<[vpn virt := page_entry phys flags]> pm)
  else building M' data pm /\ (pm !! vpn virt <> None \/ pa_count (frames M') < 3).
Proof.
  intros B Hu Hav Hap. pose proof (as_map_page_cases sp virt phys flags M (bu_space _ _ _ B) Hu) as Ho.
  destruct (as_map_page sp virt phys flags M) as [M' r]. destruct Ho as (Hs & Hc & (G1 & G2 & G3) & Hr). cbn [fst snd] in *.
  destruct Hc as (K1 & K2 & K3 & K4 & K5).
  assert (Hdata : forall f i, f ∈ data -> idx_ok i -> sa_get (ram M') (slot f i) = sa_get (ram M) (slot f i)).
  { intros f i Hf Hi. apply K1. by eapply data_untouched. }
  assert (HB : forall pm', (forall v, user v -> as_pte sp M' v = pm' !! vpn v) -> building M' data pm').
  { intros pm' Hpm. split; try apply B; try done.
    - intros a Ha. rewrite K1 by (by eapply outside_untouched). by apply B.
    - intros f Hf Hf1. apply B; [done|]. by apply K3.
    - intros f Hf Hf0. destruct (bu_taken _ _ _ B f Hf Hf0) as [Hf1|[(q & Hq & Et)|Hd]].
      + destruct (G2 f Hf Hf1) as [?|?]; [by left|right; by left].
      + right. left. exists q. split; [done|]. by apply G1.
      + right. by right.
    - intros q t Hq Et. destruct (K2 q t Hq Et) as [Et0|Hf]; [by eapply (bu_new _ _ _ B)|].
      apply B; [|done]. apply (tw_frame _ _ _ (sw_tree _ _ Hs) q t Hq Et).
    - intros f. rewrite K4. apply B.
    - intros f Hf. destruct (bu_frame _ _ _ B f Hf) as (Hfr & _). destruct (bu_used _ _ _ B f Hf) as [Hno Hnt]. split.
      + destruct (pa_avail (frames M') f) eqn:E; [|done]. apply K3 in E; [congruence|done].
      + intros (q & Hq & Et). destruct (K2 q f Hq Et) as [?|?]; [apply Hnt; by exists q|congruence]. }
  split; [done|]. destruct Hr as [(-> & Hp & Hwhy)|(-> & _ & _ & Hnone & Hp)].
  - split; [apply HB; intros v Hv; rewrite Hp by done; by apply B|].
    destruct Hwhy as [?|[?|[Hm|Hcnt]]]; [done|done|left|right; lia]. by rewrite <- (bu_pte _ _ _ B).
  - split; [by rewrite <- (bu_pte _ _ _ B)|]. apply HB. intros v Hv. rewrite Hp by done. case_decide as E.
    + by rewrite E, lookup_insert_eq.
    + rewrite lookup_insert_ne by done. by apply B.
Qed.

(** ** Pages with their contents *)

(** What is to be at a page: where, with which permissions, and its bytes. *)
Record page_spec := mkPage { ps_virt : Z; ps_flags : Z; ps_byte : Z -> Z }.

Definition pages_at (L : list page_spec) : list Z := (fun ps => vpn (ps_virt ps)) <$> L.

Definition placed (m : sarr) (pm : gmap Z Z) (ps : page_spec) (o : OwnedPage) : Prop :=
  op_virt o = ps_virt ps /\ pm !! vpn (ps_virt ps) = Some (page_entry (op_phys o) (ps_flags ps)) /\
  forall off, 0 <= off < 4096 -> byte_of m (op_phys o + off) = ps_byte ps off.

Record loaded (M : machine A) (L : list page_spec) (owned : list OwnedPage) (pm : gmap Z Z) : Prop := {
  lo_building : building M (op_phys <$> owned) pm;
  lo_placed : Forall2 (placed (ram M) pm) L owned;
  lo_dom k : is_Some (pm !! k) -> k ∈ pages_at L;
  lo_nodup : NoDup (pages_at L);
  lo_length : (length L <= kMaxOwnedUserPages)%nat
}.

(** Why a page could not be added. *)
Definition stuck (M : machine A) (L : list page_spec) (ps : page_spec) : Prop :=
  vpn (ps_virt ps) ∈ pages_at L \/ (kMaxOwnedUserPages <= length L)%nat \/ pa_count (frames M) < 3.

Lemma placed_mono m m' pm pm' L owned data :
  Forall2 (placed m pm) L owned -> op_phys <$> owned ⊆ data -> Forall frame_ok data -> pm ⊆ pm' ->
  (forall f i, f ∈ data -> idx_ok i -> sa_get m' (slot f i) = sa_get m (slot f i)) ->
  Forall2 (placed m' pm') L owned.
Proof.
  intros Hp Hsub Hfr Hpm Hm. apply Forall2_same_length_lookup. split; [by eapply Forall2_length|].
  intros k ps o Hps Ho. destruct (Forall2_lookup_lr _ _ _ _ _ _ Hp Hps Ho) as (Hv & He & Hb).
  apply list_elem_of_lookup_2 in Ho. assert (Hod : op_phys o ∈ data) by (apply Hsub, list_elem_of_fmap; eauto).
  split; [done|]. split; [by eapply lookup_weaken|]. intros off Hoff. rewrite <- (Hb off Hoff).
  rewrite Forall_forall in Hfr. destruct (frame_word (op_phys o) (op_phys o + off)) as (i & Hi & E); [auto|lia|].
  apply byte_of_word. rewrite E. by apply Hm.
Qed.

(** A frame that holds the bytes of a page is mapped and recorded. *)
Lemma map_owned_spec l L pm ps phys :
  building (ld_machine l) ((op_phys <$> ld_owned l) ++ [phys]) pm ->
  Forall2 (placed (ram (ld_machine l)) pm) L (ld_owned l) ->
  (forall k, is_Some (pm !! k) -> k ∈ pages_at L) -> NoDup (pages_at L) ->
  (forall off, 0 <= off < 4096 -> byte_of (ram (ld_machine l)) (phys + off) = ps_byte ps off) ->
  user (ps_virt ps) -> aligned (ps_virt ps) ->
  match map_owned sp (ps_virt ps) phys (ps_flags ps) l with
  | Next l' => exists pm' M' owned', l' = l <| ld_machine := M' |> <| ld_owned := owned' |> /\
                loaded M' (L ++ [ps]) owned' pm'
  | Stop M' => stuck M' L ps
  end.
Proof.
  intros B Hp Hdom Hnd Hb Hu Hal. unfold map_owned.
  assert (Hphys : phys ∈ (op_phys <$> ld_owned l) ++ [phys]).
  { apply elem_of_app. right. by apply list_elem_of_singleton. }
  destruct (bu_frame _ _ _ B phys Hphys) as (Hfr & _).
  assert (Hlen : length L = length (ld_owned l)) by (by eapply Forall2_length).
  pose proof (building_map _ _ _ (ps_virt ps) phys (ps_flags ps) B Hu Hal (proj2 Hfr)) as Hm.
  destruct (as_map_page sp (ps_virt ps) phys (ps_flags ps) (ld_machine l)) as [M' r]. destruct Hm as [Hkeep Hm].
  destruct (ok r); cbn [negb].
  2: { destruct Hm as [_ [Hm|?]]; [left|by right; right]. apply Hdom. by apply not_eq_None_Some. }
  destruct Hm as [Hnone B']. unfold track_page. case_decide; [right; left; lia|].
  eexists _, M', _. split; [done|]. set (pm' := <[_ := _]> pm) in *.
  assert (Hsub : pm ⊆ pm') by (by apply insert_subseteq).
  assert (Hframes : Forall frame_ok ((op_phys <$> ld_owned l) ++ [phys])).
  { apply Forall_forall. intros f Hf. by apply B. }
  split.
  - by rewrite fmap_app.
  - apply Forall2_app.
    + eapply placed_mono; [exact Hp| |exact Hframes|done|done]. intros f Hf. apply elem_of_app. by left.
    + constructor; [|constructor]. split; [done|]. split; [apply lookup_insert_eq|].
      intros off Hoff. rewrite <- (Hb off Hoff). cbn [op_phys].
      destruct (frame_word phys (phys + off) Hfr) as (i & Hi & E); [lia|].
      apply byte_of_word. rewrite E. by apply Hkeep.
  - intros k Hk. unfold pages_at. rewrite fmap_app. apply elem_of_app. unfold pm' in Hk.
    destruct (decide (k = vpn (ps_virt ps))) as [->|Hne]; [right; by apply list_elem_of_singleton|].
    left. apply Hdom. by rewrite lookup_insert_ne in Hk.
  - unfold pages_at. rewrite fmap_app. apply NoDup_app. split; [done|]. split; [|apply NoDup_singleton].
    intros k Hk ->%list_elem_of_singleton. apply list_elem_of_fmap in Hk as (ps' & Hk & Hps').
    apply list_elem_of_lookup in Hps' as [j Hj]. destruct (Forall2_lookup_l _ _ _ _ _ Hp Hj) as (o & _ & _ & He & _).
    rewrite <- Hk, Hnone in He. done.
  - rewrite length_app. cbn. lia.
Qed.

(** ** The image *)

Context (image_base image_size : Z).

Definition header : Elf64_Ehdr := ehdr_at (ram M0) image_base.
Definition segment (i : Z) : Elf64_Phdr := phdr (ram M0) image_base (e_phoff header) i.

(** An image the code is meant for: it is in memory that is not free, its header is
    valid, the program headers and the contents of the segments start inside it, and
    the segments are in the lower half of the address space.  The last two are what
    the code does not test. *)
Record image_ok : Prop := {
  io_base : 0 < image_base;
  io_end : image_base + image_size <= 2 ^ 47;
  io_outside a : image_base <= a < image_base + image_size -> outside (8 * (a / 8));
  io_valid : valid_elf64 header image_size = true;
  io_phoff : e_phoff header <= image_size;
  io_offset i : 0 <= i < e_phnum header -> p_type (segment i) = kElfLoad -> p_offset (segment i) <= image_size;
  io_lower i : 0 <= i < e_phnum header -> p_type (segment i) = kElfLoad ->
    p_vaddr (segment i) + p_memsz (segment i) <= 2 ^ 47
}.

Context (Himage : image_ok).

Lemma valid_header :
  sizeof_Ehdr <= image_size /\ 0 <= e_phoff header /\ 0 <= e_phnum header < 2 ^ 16 /\
  e_phoff header + e_phnum header * sizeof_Phdr <= image_size.
Proof.
  destruct Himage as [Hb He _ Hv Hp _ _]. unfold valid_elf64 in Hv.
  destruct (Z.ltb_spec image_size sizeof_Ehdr); [done|]. split; [done|].
  assert (Hn : 0 <= e_phnum header < 2 ^ 16) by apply (le_read_range 2).
  assert (Ho : 0 <= e_phoff header < 2 ^ 64) by apply (le_read_range 8).
  repeat match type of Hv with context [if ?b then false else _] => destruct b; [done|] end. bsimp.
  unfold sizeof_Phdr, sizeof_Ehdr in *. rewrite (w64_small (_ * 56)) in Hv by (unfold u64, two64; lia).
  rewrite w64_small in Hv by (unfold u64, two64; lia). lia.
Qed.

Lemma image_byte M data pm a :
  building M data pm -> image_base <= a < image_base + image_size -> byte_of (ram M) a = byte_of (ram M0) a.
Proof. intros B Ha. apply byte_of_word. apply B. by apply Himage. Qed.

Lemma header_kept M data pm : building M data pm -> ehdr_at (ram M) image_base = header.
Proof.
  intros B. destruct valid_header as (Hs & _). unfold sizeof_Ehdr in Hs. unfold header, ehdr_at.
  rewrite (bytes_at_ext (byte_of (ram M)) (byte_of (ram M0))) by (intros; eapply image_byte; [done|lia]).
  f_equal; apply le_read_agree; intros i Hi; (eapply image_byte; [done|lia]).
Qed.

Lemma segment_kept M data pm i :
  building M data pm -> 0 <= i < e_phnum header -> phdr (ram M) image_base (e_phoff header) i = segment i.
Proof.
  intros B Hi. destruct valid_header as (Hs & Ho & Hn & He). pose proof (io_end Himage). pose proof (io_base Himage).
  unfold sizeof_Phdr in *. unfold segment, phdr, sizeof_Phdr.
  rewrite (w64_small (image_base + _)) by (unfold u64, two64; lia). rewrite w64_small by (unfold u64, two64; lia).
  unfold phdr_at. f_equal; apply le_read_agree; intros j Hj; (eapply image_byte; [done|lia]).
Qed.

Lemma segment_range i :
  0 <= p_offset (segment i) < 2 ^ 64 /\ 0 <= p_vaddr (segment i) < 2 ^ 64 /\
  0 <= p_filesz (segment i) < 2 ^ 64 /\ 0 <= p_memsz (segment i) < 2 ^ 64 /\ 0 <= p_flags (segment i) < 2 ^ 32.
Proof.
  unfold segment, phdr, phdr_at. cbn [p_offset p_vaddr p_filesz p_memsz p_flags].
  split_and!; solve [apply (le_read_range 8)|apply (le_read_range 4)].
Qed.

#[local] Opaque segment header.

(** The page of a segment, as the file describes it. *)
Definition segment_page (ph : Elf64_Phdr) (page : Z) : page_spec :=
  mkPage (page * 4096) (segment_flags (p_flags ph)) (fun off =>
    let a := page * 4096 + off in
    if decide (p_vaddr ph <= a < p_vaddr ph + p_filesz ph)
    then byte_of (ram M0) (image_base + p_offset ph + (a - p_vaddr ph)) else 0).

(** A segment that passes the tests of [load_segment]. *)
Record loadable (ph : Elf64_Phdr) : Prop := {
  sg_offset : 0 <= p_offset ph /\ p_offset ph + p_filesz ph <= image_size;
  sg_vaddr : 0 <= p_vaddr ph;
  sg_filesz : 0 <= p_filesz ph <= p_memsz ph;
  sg_lower : p_vaddr ph + p_memsz ph <= 2 ^ 47
}.

(** The memory in which the frame [phys] has the contents of a page of a segment. *)
Definition page_memory (ph : Elf64_Phdr) (virt phys : Z) (m : sarr) : sarr :=
  let '(copy_start, copy_end) := copy_range ph virt in
  if copy_start <? copy_end
  then memcpy (w64 (phys + w64 (copy_start - virt))) (w64 (image_base + p_offset ph + w64 (copy_start - p_vaddr ph)))
         (copy_end - copy_start) (zero_page phys m)
  else zero_page phys m.

Lemma page_memory_spec ph page phys m :
  loadable ph -> p_vaddr ph / 4096 <= page -> page * 4096 < 2 ^ 47 -> frame_ok phys ->
  (forall a, image_base <= a < image_base + image_size -> byte_of m a = byte_of (ram M0) a /\ ~ (phys <= a < phys + 4096)) ->
  (forall a, (forall i, idx_ok i -> a <> slot phys i) -> sa_get (page_memory ph (page * 4096) phys m) a = sa_get m a) /\
  (forall off, 0 <= off < 4096 -> byte_of (page_memory ph (page * 4096) phys m) (phys + off) = ps_byte (segment_page ph page) off).
Proof.
  intros [[Ho Hoe] Hv Hf Hl] Hlo Hhi Hfr Himg. pose proof (io_base Himage). pose proof (io_end Himage).
  assert (Hpl : p_vaddr ph < page * 4096 + 4096) by (Z.to_euclidean_division_equations; lia).
  destruct (Hfr) as [Hfr1 _]. unfold page_memory, copy_range.
  rewrite (w64_small (page * 4096 + 4096)), (w64_small (p_vaddr ph + p_filesz ph))
    by (unfold u64, two64; Z.to_euclidean_division_equations; lia).
  set (cs := if p_vaddr ph <? page * 4096 then page * 4096 else p_vaddr ph).
  set (ce := if page * 4096 + 4096 <? p_vaddr ph + p_filesz ph then page * 4096 + 4096 else p_vaddr ph + p_filesz ph).
  assert (Hcs : cs = Z.max (page * 4096) (p_vaddr ph)) by (unfold cs; destruct (Z.ltb_spec (p_vaddr ph) (page * 4096)); lia).
  assert (Hce : ce = Z.min (page * 4096 + 4096) (p_vaddr ph + p_filesz ph))
    by (unfold ce; destruct (Z.ltb_spec (page * 4096 + 4096) (p_vaddr ph + p_filesz ph)); lia).
  clearbody cs ce. cbn [segment_page ps_byte]. destruct (Z.ltb_spec cs ce) as [Hlt|Hge].
  - assert (0 <= page * 4096) by (Z.to_euclidean_division_equations; lia).
    rewrite (w64_small (cs - page * 4096)), (w64_small (cs - p_vaddr ph)), (w64_small (phys + _)),
      (w64_small (image_base + _ + _)) by (unfold u64, two64; lia).
    split.
    + intros a Ha. rewrite memcpy_word; [by apply zero_page_out|]. intros i Hi ->.
      destruct (frame_word phys (phys + (cs - page * 4096) + i) Hfr) as (j & Hj & E); [lia|]. by apply (Ha j).
    + intros off Hoff. rewrite memcpy_bytes by (try lia; intros i j Hi Hj E;
        apply (Himg (image_base + p_offset ph + (cs - p_vaddr ph) + i)); lia).
      destruct (decide (p_vaddr ph <= page * 4096 + off < p_vaddr ph + p_filesz ph)).
      * rewrite decide_True by lia. destruct (Himg (image_base + p_offset ph + (page * 4096 + off - p_vaddr ph))) as [E Hn]; [lia|].
        rewrite <- E. replace (image_base + p_offset ph + (cs - p_vaddr ph) + _)
          with (image_base + p_offset ph + (page * 4096 + off - p_vaddr ph)) by lia.
        apply byte_of_word, zero_page_out. intros i Hi Es. apply Hn. unfold slot, idx_ok in *.
        Z.to_euclidean_division_equations. lia.
      * rewrite decide_False by lia. by apply zero_page_bytes.
  - split; [intros a Ha; by apply zero_page_out|]. intros off Hoff. rewrite zero_page_bytes by done.
    by rewrite decide_False by lia.
Qed.

Lemma load_page_eq ph virt l :
  load_page sp image_base ph virt l =
  let M1 := ld_machine l <| frames := (pa_alloc (frames (ld_machine l))).1 |> in
  let phys := (pa_alloc (frames (ld_machine l))).2 in
  if phys =? 0 then Stop M1
  else match map_owned sp virt phys (segment_flags (p_flags ph))
               (l <| ld_machine := M1 <| ram ::= page_memory ph virt phys |> |>) with
       | Next l => Next (l <| ld_loaded_pages ::= inc64 |>)
       | Stop M => Stop M
       end.
Proof.
  unfold load_page, page_memory. destruct (pa_alloc _) as [s phys]. cbn [fst snd].
  destruct (phys =? 0); [done|]. destruct (copy_range ph virt) as [cs ce]. by destruct (cs <? ce).
Qed.

(** The frame [f] of a space under construction holds no byte of the image. *)
Lemma image_apart M data pm f a :
  building M data pm -> f ∈ data -> image_base <= a < image_base + image_size -> ~ (f <= a < f + 4096).
Proof.
  intros B Hf Ha Hin. destruct (bu_frame _ _ _ B f Hf) as (Hfr & Hav & _).
  destruct (frame_word f a Hfr Hin) as (i & Hi & E). by apply (io_outside Himage a Ha f i).
Qed.

(** Taking a frame and giving it contents keeps the pages that are there. *)
Lemma loaded_fill M L owned pm m' :
  loaded M L owned pm -> (pa_alloc (frames M)).2 <> 0 ->
  let M1 := M <| frames := (pa_alloc (frames M)).1 |> in
  let phys := (pa_alloc (frames M)).2 in
  (forall a, (forall i, idx_ok i -> a <> slot phys i) -> sa_get m' a = sa_get (ram M1) a) ->
  building (M1 <| ram := m' |>) ((op_phys <$> owned) ++ [phys]) pm /\ Forall2 (placed m' pm) L owned.
Proof.
  intros [B Hp _ _ _] Hne. cbv zeta. destruct (building_alloc _ _ _ B) as [[? _]|[_ B1]]; [done|].
  set (phys := (pa_alloc (frames M)).2) in *. set (M1 := M <| frames := _ |>) in *. intros Hm.
  assert (Hin : phys ∈ (op_phys <$> owned) ++ [phys]) by (apply elem_of_app; right; by apply list_elem_of_singleton).
  split; [by apply (building_write M1 _ _ phys)|].
  eapply (placed_mono (ram M)); [exact Hp|reflexivity| |done|].
  - apply Forall_forall. intros f Hf. by apply B.
  - intros f i Hf Hi. rewrite Hm; [done|]. intros j Hj E.
    pose proof (bu_nodup _ _ _ B1) as (_ & Hnd & _)%NoDup_app.
    destruct (slot_inj f phys i j) as [-> _]; [by apply B|by apply B1|done..|].
    apply (Hnd phys Hf). by apply list_elem_of_singleton.
Qed.

Lemma load_page_spec ph page l L pm :
  loaded (ld_machine l) L (ld_owned l) pm -> loadable ph -> p_vaddr ph / 4096 <= page -> page * 4096 < 2 ^ 47 ->
  match load_page sp image_base ph (page * 4096) l with
  | Next l' => exists pm' M' owned',
      l' = l <| ld_machine := M' |> <| ld_owned := owned' |> <| ld_loaded_pages ::= inc64 |> /\
      loaded M' (L ++ [segment_page ph page]) owned' pm'
  | Stop M' => stuck M' L (segment_page ph page)
  end.
Proof.
  intros Hl Hph Hlo Hhi. rewrite load_page_eq. cbv zeta. pose proof (lo_building _ _ _ _ Hl) as B.
  destruct (building_alloc _ _ _ B) as [[-> Hc]|[Hne B1]]; [right; right; cbn in *; lia|].
  rewrite (proj2 (Z.eqb_neq _ 0) Hne).
  set (phys := (pa_alloc (frames (ld_machine l))).2) in *. set (M1 := ld_machine l <| frames := _ |>) in *.
  assert (Hin : phys ∈ (op_phys <$> ld_owned l) ++ [phys]) by (apply elem_of_app; right; by apply list_elem_of_singleton).
  destruct (page_memory_spec ph page phys (ram M1)) as [Hout Hbytes]; [done..| | |].
  { by apply B1. }
  { intros a Ha. split; [by eapply image_byte|by eapply image_apart]. }
  destruct (loaded_fill _ _ _ _ _ Hl Hne Hout) as [B2 Hp2].
  set (l2 := l <| ld_machine := M1 <| ram ::= page_memory ph (page * 4096) phys |> |>).
  assert (Hu : user (page * 4096) /\ aligned (page * 4096)).
  { split; [|by apply Z.mod_mul]. unfold user, lower, pml4_index. rewrite index_spec by done.
    apply Z.ltb_lt. pose proof (sg_vaddr ph Hph). Z.to_euclidean_division_equations. lia. }
  pose proof (map_owned_spec l2 L pm (segment_page ph page) phys B2 Hp2 (lo_dom _ _ _ _ Hl) (lo_nodup _ _ _ _ Hl)
    Hbytes (proj1 Hu) (proj2 Hu)) as Hmo.
  cbn [segment_page ps_virt ps_flags] in Hmo. destruct (map_owned sp _ phys _ l2) as [l'|M']; [|exact Hmo].
  destruct Hmo as (pm' & M' & owned' & -> & Hl'). by exists pm', M', owned'.
Qed.

(** ** Segments and stack *)

Lemma seqZ_snoc m n : 0 <= n -> seqZ m (n + 1) = seqZ m n ++ [m + n].
Proof. intros Hn. rewrite seqZ_app by lia. done. Qed.

Definition first_page (ph : Elf64_Phdr) : Z := p_vaddr ph / 4096.
Definition end_page (ph : Elf64_Phdr) : Z := (p_vaddr ph + p_memsz ph + 4095) / 4096.
Definition segment_pages (i : Z) : list page_spec :=
  if p_type (segment i) =? kElfLoad
  then segment_page (segment i) <$> seqZ (first_page (segment i)) (end_page (segment i) - first_page (segment i))
  else [].
Definition image_pages (n : Z) : list page_spec := seqZ 0 n ≫= segment_pages.
Definition stack_page (i : Z) : page_spec :=
  mkPage (kDefaultUserStackTop - (i + 1) * 4096) (Z.lor PageWrite PageUser) (fun _ => 0).
Definition stack_pages (n : Z) : list page_spec := stack_page <$> seqZ 0 n.
(** Everything the process owns. *)
Definition process_pages : list page_spec := image_pages (e_phnum header) ++ stack_pages kDefaultUserStackPages.

(** Why a list of pages cannot be loaded. *)
Definition unloadable (full : list page_spec) (M : machine A) : Prop :=
  ~ NoDup (pages_at full) \/ (kMaxOwnedUserPages < length full)%nat \/ pa_count (frames M) < 3.

Lemma stuck_unloadable M L ps full : stuck M L ps -> L ++ [ps] `prefix_of` full -> unloadable full M.
Proof.
  intros Hs [rest ->]. destruct Hs as [Hin|[Hlen|Hc]].
  - left. unfold pages_at. rewrite !fmap_app. intros Hnd. apply NoDup_app in Hnd as (Hnd & _).
    apply NoDup_app in Hnd as (_ & Hnd & _). apply (Hnd _ Hin). by apply list_elem_of_singleton.
  - right. left. rewrite !length_app. cbn. lia.
  - by right; right.
Qed.

(** The state of the loader when the pages [L] are there. *)
Definition progress (l : Loading A) (L : list page_spec) : Prop :=
  exists pm, loaded (ld_machine l) L (ld_owned l) pm.

Lemma load_segment_pages i l L full :
  progress l L -> 0 <= i < e_phnum header -> loadable (segment i) -> p_type (segment i) = kElfLoad ->
  L ++ segment_pages i `prefix_of` full -> ld_loaded_pages l = Z.of_nat (length L) ->
  flow_spec (fun l' => progress l' (L ++ segment_pages i) /\ ld_loaded_pages l' = Z.of_nat (length (L ++ segment_pages i)) /\
               ld_first_vaddr l' = ld_first_vaddr l /\ ld_last_vaddr l' = ld_last_vaddr l) (unloadable full)
    (loop_range (first_page (segment i)) (end_page (segment i)) (fun page l =>
       load_page sp image_base (phdr (ram (ld_machine l)) image_base (e_phoff header) i) (page * 4096) l) l).
Proof.
  intros Hpr Hi Hph Ht Hfull Hc. set (ph := segment i) in *. unfold segment_pages in *. fold ph in Hfull |- *.
  rewrite Ht in *. cbn [Z.eqb] in *. change (kElfLoad =? kElfLoad) with true in *. cbv iota in *.
  assert (Hle : first_page ph <= end_page ph).
  { unfold first_page, end_page. pose proof (sg_filesz ph Hph). apply Z.div_le_mono; lia. }
  set (pages := fun k => segment_page ph <$> seqZ (first_page ph) (k - first_page ph)) in *.
  apply (loop_range_le (fun k l' => progress l' (L ++ pages k) /\
     ld_loaded_pages l' = Z.of_nat (length (L ++ pages k)) /\
     ld_first_vaddr l' = ld_first_vaddr l /\ ld_last_vaddr l' = ld_last_vaddr l) (unloadable full));
    [done|..].
  - unfold pages. rewrite Z.sub_diag. cbn. rewrite app_nil_r. done.
  - intros k l' Hk (Hl & Hc' & Hf' & Hla'). destruct Hl as [pm Hl].
    assert (Hsnoc : L ++ pages (k + 1) = (L ++ pages k) ++ [segment_page ph k]).
    { rewrite <- app_assoc. f_equal. unfold pages. replace (k + 1 - first_page ph) with ((k - first_page ph) + 1) by lia.
      rewrite seqZ_snoc, fmap_app by lia. cbn. by rewrite Zplus_minus. }
    rewrite (segment_kept _ _ _ _ (lo_building _ _ _ _ Hl)) by done. fold ph.
    pose proof (sg_lower ph Hph). pose proof (sg_vaddr ph Hph).
    assert (Hhi : k * 4096 < 2 ^ 47) by (unfold end_page in Hk; Z.to_euclidean_division_equations; lia).
    pose proof (load_page_spec ph k l' _ pm Hl Hph ltac:(unfold first_page in Hk; lia) Hhi) as Hpage.
    destruct (load_page sp image_base ph (k * 4096) l') as [l2|M2]; cbn [flow_spec].
    + destruct Hpage as (pm2 & M2 & owned2 & -> & Hl2). rewrite <- Hsnoc in Hl2. split_and!; [by exists pm2| |done|done].
      pose proof (lo_length _ _ _ _ Hl2). unfold kMaxOwnedUserPages in *. cbn [ld_loaded_pages setf].
      assert (Hlen : length (L ++ pages (k + 1)) = S (length (L ++ pages k)))
        by (rewrite Hsnoc, length_app; apply Nat.add_1_r).
      rewrite Hlen in *. rewrite Hc'. unfold inc64. rewrite w64_small; unfold u64, two64; lia.
    + apply (stuck_unloadable _ _ _ _ Hpage). rewrite <- Hsnoc. etrans; [|exact Hfull].
      apply prefix_app. unfold pages. replace (end_page ph - first_page ph)
        with ((k + 1 - first_page ph) + (end_page ph - (k + 1))) by lia.
      rewrite seqZ_app, fmap_app by lia. by apply prefix_app_r.
Qed.

(** A segment the loader refuses. *)
Definition bad_segment : Prop :=
  exists i, 0 <= i < e_phnum header /\ p_type (segment i) = kElfLoad /\
    (p_memsz (segment i) < p_filesz (segment i) \/ image_size < p_offset (segment i) + p_filesz (segment i)).

(** The bounds the loader keeps are those of the first [n] segments. *)
Record spans (l : Loading A) (n : Z) : Prop := {
  sn_first : ld_first_vaddr l = 2 ^ 64 - 1 \/ exists i, 0 <= i < n /\ p_type (segment i) = kElfLoad /\
     ld_first_vaddr l = first_page (segment i) * 4096;
  sn_last : ld_last_vaddr l = 0 \/ exists i, 0 <= i < n /\ p_type (segment i) = kElfLoad /\
     ld_last_vaddr l = end_page (segment i) * 4096;
  sn_all i : 0 <= i < n -> p_type (segment i) = kElfLoad ->
     ld_first_vaddr l <= first_page (segment i) * 4096 /\ end_page (segment i) * 4096 <= ld_last_vaddr l
}.

Definition segments_loaded (n : Z) (l : Loading A) : Prop :=
  progress l (image_pages n) /\ ld_loaded_pages l = Z.of_nat (length (image_pages n)) /\ spans l n.

Lemma image_pages_snoc n : 0 <= n -> image_pages (n + 1) = image_pages n ++ segment_pages n.
Proof. intros Hn. unfold image_pages. rewrite seqZ_snoc, bind_app by done. cbn. by rewrite app_nil_r. Qed.

Lemma spans_skip l n : spans l n -> p_type (segment n) <> kElfLoad -> spans l (n + 1).
Proof.
  intros [Hf Hl Ha] Hn. split.
  - destruct Hf as [?|(i & Hi & ?)]; [by left|right]. exists i. split; [lia|done].
  - destruct Hl as [?|(i & Hi & ?)]; [by left|right]. exists i. split; [lia|done].
  - intros i Hi Ht. destruct (decide (i = n)) as [->|]; [done|]. apply Ha; [lia|done].
Qed.

Lemma spans_add l n :
  spans l n -> 0 <= n -> p_type (segment n) = kElfLoad ->
  spans (l <| ld_first_vaddr ::= fun v => if first_page (segment n) * 4096 <? v then first_page (segment n) * 4096 else v |>
           <| ld_last_vaddr ::= fun v => if v <? end_page (segment n) * 4096 then end_page (segment n) * 4096 else v |>) (n + 1).
Proof.
  intros [Hf Hl Ha] Hn Ht. split; cbn.
  - destruct (_ <? _); [right; exists n; split; [lia|done]|]. destruct Hf as [?|(i & Hi & ?)]; [by left|right].
    exists i. split; [lia|done].
  - destruct (_ <? _); [right; exists n; split; [lia|done]|]. destruct Hl as [?|(i & Hi & ?)]; [by left|right].
    exists i. split; [lia|done].
  - intros i Hi Hti. destruct (Z.ltb_spec (first_page (segment n) * 4096) (ld_first_vaddr l)),
      (Z.ltb_spec (ld_last_vaddr l) (end_page (segment n) * 4096)); destruct (decide (i = n)) as [->|]; try lia;
      (destruct (Ha i); [lia|done|lia]).
Qed.

Lemma load_segment_spec i l full :
  segments_loaded i l -> 0 <= i < e_phnum header -> image_pages (i + 1) `prefix_of` full ->
  flow_spec (segments_loaded (i + 1)) (fun M => bad_segment \/ unloadable full M)
    (load_segment sp image_base image_size (e_phoff header) i l).
Proof.
  intros (Hpr & Hc & Hsp) Hi Hfull. destruct Hpr as [pm Hl]. unfold load_segment.
  rewrite (segment_kept _ _ _ _ (lo_building _ _ _ _ Hl)) by done.
  destruct (segment_range i) as (Ho & Hv & Hfs & Hms & _).
  rewrite image_pages_snoc in Hfull by lia. unfold segments_loaded. rewrite image_pages_snoc by lia.
  destruct (Z.eqb_spec (p_type (segment i)) kElfLoad) as [Ht|Ht]; cbn [negb flow_spec].
  2: { unfold segment_pages. rewrite (proj2 (Z.eqb_neq _ _) Ht), app_nil_r.
       split; [by exists pm|]. split; [done|]. by apply spans_skip. }
  pose proof (io_lower Himage i Hi Ht) as Hlow. pose proof (io_offset Himage i Hi Ht) as Hoff.
  destruct (Z.ltb_spec (p_memsz (segment i)) (p_filesz (segment i))) as [Hbad|Hm]; cbn [flow_spec].
  { left. exists i. auto. }
  pose proof (io_end Himage). pose proof (io_base Himage). rewrite w64_small by (unfold u64, two64; lia).
  destruct (Z.ltb_spec image_size (p_offset (segment i) + p_filesz (segment i))) as [Hbad|Hs]; cbn [flow_spec].
  { left. exists i. auto. }
  assert (Hsg : loadable (segment i)) by (split; lia).
  rewrite (w64_small (_ + p_memsz _)) by (unfold u64, two64; lia).
  assert (Es : align_down (p_vaddr (segment i)) 4096 = first_page (segment i) * 4096).
  { etrans; [apply (align_down_4096 (p_vaddr (segment i))); unfold u64, two64; lia|]. unfold first_page.
    Z.to_euclidean_division_equations. lia. }
  assert (Ee : align_up (p_vaddr (segment i) + p_memsz (segment i)) 4096 = end_page (segment i) * 4096).
  { etrans; [apply (align_up_4096 (p_vaddr (segment i) + p_memsz (segment i))); unfold two64; lia|]. unfold end_page.
    Z.to_euclidean_division_equations. lia. }
  rewrite Es, Ee, !Z.div_mul by done. pose proof (spans_add l i Hsp ltac:(lia) Ht) as Hsp1.
  set (l1 := l <| ld_first_vaddr ::= _ |> <| ld_last_vaddr ::= _ |>) in *.
  pose proof (load_segment_pages i l1 (image_pages i) full (ex_intro _ pm Hl) Hi Hsg Ht Hfull Hc) as Hloop.
  destruct (loop_range _ _ _ l1) as [l2|M2]; cbn [flow_spec] in *; [|by right].
  destruct Hloop as (Hp2 & Hc2 & Hf2 & Hl2). split; [done|]. split; [done|].
  destruct Hsp1 as [A1 A2 A3]. split; rewrite ?Hf2, ?Hl2; done.
Qed.

Lemma load_segments_spec M pm :
  building M [] pm -> pm = ∅ ->
  flow_spec (segments_loaded (e_phnum header)) (fun M => bad_segment \/ unloadable process_pages M)
    (loop_range 0 (e_phnum header) (load_segment sp image_base image_size (e_phoff header))
       (mkLoading M [] (2 ^ 64 - 1) 0 0)).
Proof.
  intros B ->. destruct valid_header as (_ & _ & Hn & _).
  apply (loop_range_le segments_loaded); [lia|..].
  - split; [|split; [done|split; [by left|by left|lia]]]. exists ∅. split; cbn; try done.
    + intros k [? Hk]. by rewrite lookup_empty in Hk.
    + constructor.
    + apply Nat.le_0_l.
  - intros i l Hi Hl. apply load_segment_spec; [done|lia|]. unfold process_pages.
    apply prefix_app_r. exists (seqZ (i + 1) (e_phnum header - (i + 1)) ≫= segment_pages).
    unfold image_pages. trans (seqZ 0 ((i + 1) + (e_phnum header - (i + 1))) ≫= segment_pages);
      [do 2 f_equal; lia|]. by rewrite seqZ_app, bind_app by lia.
Qed.

Lemma load_stack_page_eq i l :
  load_stack_page sp true i l =
  let M1 := ld_machine l <| frames := (pa_alloc (frames (ld_machine l))).1 |> in
  let phys := (pa_alloc (frames (ld_machine l))).2 in
  if phys =? 0 then Stop M1
  else map_owned sp (w64 (kDefaultUserStackTop - (i + 1) * 4096)) phys (Z.lor PageWrite PageUser)
         (l <| ld_machine := M1 <| ram ::= zero_page phys |> |>).
Proof. unfold load_stack_page. by destruct (pa_alloc _) as [s phys]. Qed.

Lemma load_stack_page_spec i l L pm :
  loaded (ld_machine l) L (ld_owned l) pm -> 0 <= i < kDefaultUserStackPages ->
  match load_stack_page sp true i l with
  | Next l' => exists pm' M' owned', l' = l <| ld_machine := M' |> <| ld_owned := owned' |> /\
      loaded M' (L ++ [stack_page i]) owned' pm'
  | Stop M' => stuck M' L (stack_page i)
  end.
Proof.
  intros Hl Hi. rewrite load_stack_page_eq. cbv zeta. pose proof (lo_building _ _ _ _ Hl) as B.
  destruct (building_alloc _ _ _ B) as [[-> Hc]|[Hne B1]]; [right; right; cbn in *; lia|].
  rewrite (proj2 (Z.eqb_neq _ 0) Hne).
  set (phys := (pa_alloc (frames (ld_machine l))).2) in *. set (M1 := ld_machine l <| frames := _ |>) in *.
  assert (Hfr : frame_ok phys).
  { apply B1, elem_of_app. right. by apply list_elem_of_singleton. }
  destruct (loaded_fill _ _ _ _ (zero_page phys (ram M1)) Hl Hne) as [B2 Hp2].
  { intros a Ha. by apply zero_page_out. }
  unfold kDefaultUserStackPages in Hi.
  assert (Ev : w64 (kDefaultUserStackTop - (i + 1) * 4096) = ps_virt (stack_page i)).
  { unfold stack_page. cbn [ps_virt]. apply w64_small. unfold u64, two64, kDefaultUserStackTop. lia. }
  rewrite Ev. set (l2 := l <| ld_machine := M1 <| ram ::= zero_page phys |> |>).
  apply (map_owned_spec l2 L pm (stack_page i) phys B2 Hp2 (lo_dom _ _ _ _ Hl) (lo_nodup _ _ _ _ Hl)).
  - intros off Hoff. by apply zero_page_bytes.
  - assert (i = 0 \/ i = 1 \/ i = 2 \/ i = 3) as [->|[->|[->| ->]]] by lia; done.
  - assert (i = 0 \/ i = 1 \/ i = 2 \/ i = 3) as [->|[->|[->| ->]]] by lia; done.
Qed.

Lemma load_stack_spec l L full :
  progress l L -> L ++ stack_pages kDefaultUserStackPages `prefix_of` full ->
  flow_spec (fun l' => progress l' (L ++ stack_pages kDefaultUserStackPages) /\
               ld_first_vaddr l' = ld_first_vaddr l /\ ld_loaded_pages l' = ld_loaded_pages l) (unloadable full)
    (load_stack sp true l).
Proof.
  intros Hpr Hfull. apply (loop_range_inv (fun k l' => progress l' (L ++ stack_pages k) /\
    ld_first_vaddr l' = ld_first_vaddr l /\ ld_loaded_pages l' = ld_loaded_pages l) (unloadable full) 0 kDefaultUserStackPages).
  - unfold stack_pages. cbn. by rewrite app_nil_r.
  - intros i l' Hi ([pm Hl] & Hf & Hc). assert (Hsnoc : L ++ stack_pages (i + 1) = (L ++ stack_pages i) ++ [stack_page i]).
    { rewrite <- app_assoc. f_equal. unfold stack_pages. by rewrite seqZ_snoc, fmap_app by lia. }
    pose proof (load_stack_page_spec i l' _ pm Hl Hi) as Hpage. destruct (load_stack_page sp true i l') as [l2|M2]; cbn [flow_spec].
    + destruct Hpage as (pm2 & M2 & owned2 & -> & Hl2). rewrite <- Hsnoc in Hl2. split; [by exists pm2|done].
    + apply (stuck_unloadable _ _ _ _ Hpage). rewrite <- Hsnoc. etrans; [|exact Hfull]. apply prefix_app.
      exists (stack_page <$> seqZ (i + 1) (kDefaultUserStackPages - (i + 1))). unfold stack_pages.
      trans (stack_page <$> seqZ 0 ((i + 1) + (kDefaultUserStackPages - (i + 1)))); [do 2 f_equal; lia|].
      by rewrite seqZ_app, fmap_app by lia.
Qed.

(** ** The kernel's ranges *)

(** [pm'] is [pm] with the pages from [lo] to [hi] that it lacked mapped to themselves. *)
Record filled (pm pm' : gmap Z Z) (lo hi flags : Z) : Prop := {
  fi_old : pm ⊆ pm';
  fi_new j e : pm' !! j = Some e -> pm !! j = Some e \/ (lo <= j < hi /\ e = page_entry (j * 4096) flags);
  fi_all j : lo <= j < hi -> is_Some (pm' !! j)
}.

Lemma filled_insert pm pm' lo k flags :
  filled pm pm' lo k flags -> lo <= k -> pm' !! k = None ->
  filled pm (<[k := page_entry (k * 4096) flags]> pm') lo (k + 1) flags.
Proof.
  intros [Ho Hn Ha] Hk Hnone. split.
  - etrans; [exact Ho|]. by apply insert_subseteq.
  - intros j e. destruct (decide (j = k)) as [->|Hne].
    + rewrite lookup_insert_eq. intros [= <-]. right. split; [lia|done].
    + rewrite lookup_insert_ne by done. intros Hj. destruct (Hn j e Hj) as [?|[? ?]]; [by left|right; split; [lia|done]].
  - intros j Hj. destruct (decide (j = k)) as [->|Hne]; [by rewrite lookup_insert_eq|].
    rewrite lookup_insert_ne by done. apply Ha. lia.
Qed.

Lemma filled_skip pm pm' lo k flags : filled pm pm' lo k flags -> is_Some (pm' !! k) -> filled pm pm' lo (k + 1) flags.
Proof.
  intros [Ho Hn Ha] Hk. split; [done|..].
  - intros j e Hj. destruct (Hn j e Hj) as [?|[? ?]]; [by left|right; split; [lia|done]].
  - intros j Hj. destruct (decide (j = k)) as [->|Hne]; [done|]. apply Ha. lia.
Qed.

Lemma low_page k : 0 <= k -> k * 4096 < 2 ^ 47 -> vpn (k * 4096) = k /\ user (k * 4096) /\ aligned (k * 4096).
Proof.
  intros H0 Hk. unfold vpn, user, lower, pml4_index, aligned. rewrite index_spec, Z.div_mul, Z.mod_mul by done.
  split_and!; [apply Z.mod_small; lia| |done]. apply Z.ltb_lt. Z.to_euclidean_division_equations. lia.
Qed.

Lemma translate_page M data pm k :
  building M data pm -> 0 <= k -> k * 4096 < 2 ^ 47 ->
  as_translate sp (k * 4096) M = match pm !! k with Some e => table e | None => 0 end.
Proof.
  intros B H0 Hk. destruct (low_page k H0 Hk) as (Hv & Hu & Ha).
  rewrite as_translate_lookup by apply B. rewrite (bu_pte _ _ _ B), Hv by done.
  destruct (pm !! k) as [e|]; [|done]. unfold aligned in Ha. rewrite Ha, Z.add_0_r, table_spec.
  apply w64_small. unfold u64, two64. pose proof (Z.mod_pos_bound (e / 4096) (2 ^ 40)). lia.
Qed.

Lemma map_identity_spec M data pm lo hi flags :
  building M data pm -> 0 <= lo <= hi -> hi * 4096 <= 2 ^ 47 ->
  (forall j e, lo <= j -> pm !! j = Some e -> table e <> 0) ->
  flow_spec (fun M' => exists pm', building M' data pm' /\ filled pm pm' lo hi flags /\
      forall f i, f ∈ data -> idx_ok i -> sa_get (ram M') (slot f i) = sa_get (ram M) (slot f i))
    (fun M' => pa_count (frames M') < 3) (map_identity sp lo hi flags M).
Proof.
  intros B Hlo Hhi Hnz. unfold map_identity.
  apply (loop_range_le (fun k M' => exists pm', building M' data pm' /\ filled pm pm' lo k flags /\
      forall f i, f ∈ data -> idx_ok i -> sa_get (ram M') (slot f i) = sa_get (ram M) (slot f i)));
    [lia|..].
  - exists pm. split; [done|]. split; [|done]. split; [done|by left|lia].
  - intros k M' Hk (pm' & B' & Hfi & Hkeep). destruct (low_page k ltac:(lia) ltac:(lia)) as (Hv & Hu & Ha).
    rewrite (translate_page _ _ _ k B') by lia. destruct (Z.eqb_spec (match pm' !! k with Some e => table e | None => 0 end) 0) as [Hz|Hz]; cbn [negb].
    + assert (Hnone : pm' !! k = None).
      { destruct (pm' !! k) as [e|] eqn:Hke; [|done]. destruct (fi_new _ _ _ _ _ Hfi k e Hke) as [Hpm|[? _]]; [|lia].
        destruct (Hnz k e ltac:(lia) Hpm Hz). }
      pose proof (building_map _ _ _ (k * 4096) (k * 4096) flags B' Hu Ha Ha) as Hm. rewrite Hv in Hm.
      destruct (as_map_page sp (k * 4096) (k * 4096) flags M') as [M2 r]. destruct Hm as [Hk2 Hm].
      destruct (ok r); cbn [negb flow_spec].
      * exists (<[k := page_entry (k * 4096) flags]> pm'). split; [apply Hm|]. split; [by apply filled_insert; [| |]; try lia|].
        intros f i Hf Hi. rewrite Hk2 by done. by apply Hkeep.
      * destruct Hm as [_ [Hm|?]]; [by destruct Hm|done].
    + cbn [flow_spec]. exists pm'. split; [done|]. split; [|done]. apply filled_skip; [done|].
      destruct (pm' !! k); [done|]. by destruct Hz.
Qed.

Definition fb_length (boot : BootInfo) : Z :=
  w64 (w64 (fb_pixels_per_scanline boot * fb_height boot) * fb_bytes_per_pixel boot).

(** The framebuffer, if there is one, is in the lower half and not in the first page. *)
Definition fb_ok (boot : BootInfo) : Prop :=
  fb_base boot = 0 \/ (4096 <= fb_base boot /\ fb_base boot + fb_length boot <= 2 ^ 47).

Definition identity_end (limit : Z) : Z := (Z.max kMinimumIdentityLimit limit + 4095) / 4096.

(** [pm'] is [pm] with the kernel's ranges: pages mapped to themselves that user
    mode cannot reach, below [limit] and perhaps elsewhere. *)
Record kernel_filled (limit : Z) (pm pm' : gmap Z Z) : Prop := {
  kf_old : pm ⊆ pm';
  kf_new j e : pm' !! j = Some e -> pm !! j = Some e \/
    (0 <= j < 2 ^ 40 /\ exists flags, Z.testbit flags 2 = false /\ e = page_entry (j * 4096) flags);
  kf_all j : 0 <= j < identity_end limit -> is_Some (pm' !! j)
}.

Lemma identity_table j flags : 0 <= j < 2 ^ 40 -> table (page_entry (j * 4096) flags) = j * 4096.
Proof. intros Hj. apply page_entry_table; [lia|by apply Z.mod_mul]. Qed.

Lemma map_kernel_runtime_ranges_spec M data pm boot limit :
  building M data pm -> 0 <= limit <= 2 ^ 47 -> fb_ok boot -> (forall j e, pm !! j = Some e -> table e <> 0) ->
  flow_spec (fun M' => exists pm', building M' data pm' /\ kernel_filled limit pm pm' /\
      forall f i, f ∈ data -> idx_ok i -> sa_get (ram M') (slot f i) = sa_get (ram M) (slot f i))
    (fun M' => pa_count (frames M') < 3) (map_kernel_runtime_ranges sp boot limit M).
Proof.
  intros B Hlim Hfb Hnz. unfold map_kernel_runtime_ranges, map_kernel_identity_window.
  assert (Hl : (if limit <? kMinimumIdentityLimit then kMinimumIdentityLimit else limit) = Z.max kMinimumIdentityLimit limit)
    by (destruct (Z.ltb_spec limit kMinimumIdentityLimit); lia).
  rewrite Hl. unfold kMinimumIdentityLimit in *.
  assert (He : align_up (Z.max (256 * 1024 * 1024) limit) 4096 / 4096 = identity_end limit).
  { apply (align_up_page (Z.max (256 * 1024 * 1024) limit)); unfold two64; lia. }
  rewrite He. assert (Hend : 0 <= identity_end limit /\ identity_end limit * 4096 <= 2 ^ 47).
  { unfold identity_end, kMinimumIdentityLimit. Z.to_euclidean_division_equations. lia. }
  pose proof (map_identity_spec M data pm 0 (identity_end limit) PageWrite B ltac:(lia) ltac:(lia)
    (fun j e _ => Hnz j e)) as H1.
  destruct (map_identity sp 0 _ PageWrite M) as [M1|M1]; cbn [flow_spec] in *; [|done].
  destruct H1 as (pm1 & B1 & [Ho1 Hn1 Ha1] & Hk1).
  assert (K1 : kernel_filled limit pm pm1).
  { split; [done| |done]. intros j e Hj. destruct (Hn1 j e Hj) as [?|[Hr ->]]; [by left|right].
    split; [lia|]. by exists PageWrite. }
  unfold map_supervisor_range. fold (fb_length boot).
  destruct ((fb_base boot =? 0) || (fb_length boot =? 0)) eqn:Hz; cbn [flow_spec]; [by exists pm1|].
  destruct Hfb as [Hfb|[Hfb1 Hfb2]]; [by rewrite Hfb in Hz|].
  assert (Hlen : 0 <= fb_length boot) by (apply w64_range).
  rewrite (w64_small (fb_base boot + _)) by (unfold u64, two64; lia).
  assert (Hs : align_down (fb_base boot) 4096 / 4096 = fb_base boot / 4096)
    by (apply align_down_page; unfold u64, two64; lia).
  assert (Hx : align_up (fb_base boot + fb_length boot) 4096 / 4096 = (fb_base boot + fb_length boot + 4095) / 4096)
    by (apply align_up_page; unfold two64; lia).
  rewrite Hs, Hx. set (lo := fb_base boot / 4096). set (hi := (fb_base boot + fb_length boot + 4095) / 4096).
  assert (Hb : 1 <= lo <= hi /\ hi * 4096 <= 2 ^ 47).
  { unfold lo, hi. Z.to_euclidean_division_equations. lia. }
  pose proof (map_identity_spec M1 data pm1 lo hi framebuffer_flags B1 ltac:(lia) ltac:(lia)) as H2.
  assert (Hnz1 : forall j e, lo <= j -> pm1 !! j = Some e -> table e <> 0).
  { intros j e Hj Hje. destruct (Hn1 j e Hje) as [?|[Hr ->]]; [by apply (Hnz j)|]. rewrite identity_table by lia. lia. }
  specialize (H2 Hnz1). destruct (map_identity sp lo hi framebuffer_flags M1) as [M2|M2]; cbn [flow_spec] in *; [|done].
  destruct H2 as (pm2 & B2 & [Ho2 Hn2 Ha2] & Hk2). exists pm2. split; [done|]. split; [split|].
  - by etrans.
  - intros j e Hj. destruct (Hn2 j e Hj) as [?|[Hr ->]]; [by apply K1|right]. split; [lia|]. by exists framebuffer_flags.
  - intros j Hj. destruct (Ha1 j Hj) as [e Hje]. exists e. by eapply lookup_weaken.
  - intros f i Hf Hi. rewrite Hk2 by done. by apply Hk1.
Qed.

(** ** The whole image *)

(** The machine with everything in place: the pages of the process in the frames of
    [owned], and the kernel's ranges around them. *)
Definition complete (M : machine A) (owned : list OwnedPage) (pm : gmap Z Z) : Prop :=
  building M (op_phys <$> owned) pm /\ Forall2 (placed (ram M) pm) process_pages owned /\
  NoDup (pages_at process_pages) /\ (length process_pages <= kMaxOwnedUserPages)%nat /\
  exists pm0, kernel_filled (image_base + image_size) pm0 pm /\ forall k, is_Some (pm0 !! k) -> k ∈ pages_at process_pages.

(** The entry point is not between the segments. *)
Definition bad_entry : Prop :=
  image_pages (e_phnum header) = [] \/
  (forall i, 0 <= i < e_phnum header -> p_type (segment i) = kElfLoad -> e_entry header < first_page (segment i) * 4096) \/
  (forall i, 0 <= i < e_phnum header -> p_type (segment i) = kElfLoad -> end_page (segment i) * 4096 <= e_entry header).

Definition good_entry : Prop :=
  exists i j, 0 <= i < e_phnum header /\ p_type (segment i) = kElfLoad /\ 0 <= j < e_phnum header /\
    p_type (segment j) = kElfLoad /\ first_page (segment i) * 4096 <= e_entry header < end_page (segment j) * 4096.

Lemma loaded_nonzero M L owned pm j e : loaded M L owned pm -> pm !! j = Some e -> table e <> 0.
Proof.
  intros Hl Hj. destruct (list_elem_of_fmap_1 _ _ _ (lo_dom _ _ _ _ Hl j (mk_is_Some _ _ Hj))) as (ps & -> & Hps).
  apply list_elem_of_lookup in Hps as [k Hk].
  destruct (Forall2_lookup_l _ _ _ _ _ (lo_placed _ _ _ _ Hl) Hk) as (o & Ho & _ & He & _).
  assert (Hin : op_phys o ∈ op_phys <$> owned) by (apply list_elem_of_fmap; exists o; split; [done|by eapply list_elem_of_lookup_2]).
  destruct (bu_frame _ _ _ (lo_building _ _ _ _ Hl) _ Hin) as [[Hr Hm] _].
  rewrite Hj in He. apply (inj Some) in He as ->. rewrite page_entry_table by (done || lia). lia.
Qed.

Lemma entry_spans l :
  spans l (e_phnum header) -> ld_first_vaddr l <= e_entry header < ld_last_vaddr l -> good_entry.
Proof.
  intros [Hf Hl _] He. destruct Hl as [Hl|(j & Hj & Htj & Hl)].
  { assert (0 <= e_entry header) by apply (le_read_range 8). lia. }
  assert (Hlow : end_page (segment j) * 4096 <= 2 ^ 47).
  { pose proof (io_lower Himage j Hj Htj). unfold end_page. Z.to_euclidean_division_equations. lia. }
  destruct Hf as [Hf|(i & Hi & Hti & Hf)]; [lia|]. exists i, j. split_and!; [lia|lia|done|lia|lia|done|lia|lia].
Qed.

Lemma load_elf_cases boot M :
  building M [] ∅ -> fb_ok boot ->
  match load_elf sp boot image_base image_size M with
  | Next (entry, l) => entry = e_entry header /\ good_entry /\
      ld_loaded_pages l = Z.of_nat (length (image_pages (e_phnum header))) /\
      (exists i, 0 <= i < e_phnum header /\ p_type (segment i) = kElfLoad /\ ld_first_vaddr l = first_page (segment i) * 4096) /\
      exists pm, complete (ld_machine l) (ld_owned l) pm
  | Stop M' => bad_segment \/ bad_entry \/ unloadable process_pages M'
  end.
Proof.
  intros B Hfb. unfold load_elf. rewrite (header_kept _ _ _ B).
  pose proof (load_segments_spec M ∅ B eq_refl) as Hseg.
  destruct (loop_range 0 (e_phnum header) _ _) as [l|M1]; cbn [flow_spec] in Hseg; [|tauto].
  destruct Hseg as ([pm Hl] & Hc & Hsp). rewrite (header_kept _ _ _ (lo_building _ _ _ _ Hl)).
  destruct (Z.eqb_spec (ld_loaded_pages l) 0) as [Hz|Hz]; cbn [orb].
  { right. left. left. apply length_zero_iff_nil. lia. }
  destruct (Z.ltb_spec (e_entry header) (ld_first_vaddr l)) as [Hlt|Hge]; cbn [orb].
  { right. left. right. left. intros i Hi Ht. destruct (sn_all _ _ Hsp i Hi Ht). lia. }
  destruct (Z.leb_spec (ld_last_vaddr l) (e_entry header)) as [Hle|Hgt].
  { right. left. right. right. intros i Hi Ht. destruct (sn_all _ _ Hsp i Hi Ht). lia. }
  pose proof (entry_spans l Hsp (conj Hge Hgt)) as Hentry.
  pose proof (load_stack_spec l _ process_pages (ex_intro _ pm Hl) (reflexivity _)) as Hst.
  destruct (load_stack sp true l) as [l2|M2]; cbn [flow_spec] in Hst; [|tauto].
  destruct Hst as ([pm2 Hl2] & Hf2 & Hc2). fold process_pages in Hl2.
  pose proof (io_base Himage). pose proof (io_end Himage). destruct valid_header as [Hsz _]. unfold sizeof_Ehdr in Hsz.
  rewrite w64_small by (unfold u64, two64; lia).
  pose proof (map_kernel_runtime_ranges_spec _ _ _ boot (image_base + image_size) (lo_building _ _ _ _ Hl2)
    ltac:(lia) Hfb (fun j e => loaded_nonzero _ _ _ _ j e Hl2)) as Hk.
  destruct (map_kernel_runtime_ranges sp boot _ (ld_machine l2)) as [M3|M3]; cbn [flow_spec] in Hk.
  2: { right. right. right. by right. }
  destruct Hk as (pm3 & B3 & Hk3 & Hkeep). split; [done|]. split; [done|]. cbn [ld_loaded_pages ld_first_vaddr ld_machine ld_owned setf].
  split; [by rewrite Hc2|]. split.
  { rewrite Hf2. destruct (sn_first _ _ Hsp) as [Hf|(i & Hi & Ht & Hf)]; [|by exists i].
    destruct Hentry as (i & j & Hi & Hti & _). exfalso. destruct (sn_all _ _ Hsp i Hi Hti).
    pose proof (io_lower Himage i Hi Hti). destruct (segment_range i) as (_ & _ & _ & Hms & _).
    unfold first_page in *. Z.to_euclidean_division_equations. lia. }
  exists pm3. split; [done|]. split_and!; [|apply Hl2|apply Hl2|exists pm2; split; [done|apply Hl2]].
  eapply (placed_mono (ram (ld_machine l2))); [apply Hl2|reflexivity| |apply Hk3|done].
  apply Forall_forall. intros f Hf. by apply B3.
Qed.

(** ** What the process finds *)

(** The byte at a virtual address, and whether user mode may use the address. *)
Definition user_byte (M : machine A) (a : Z) : Z := byte_of (ram M) (as_translate sp a M).
Definition user_reaches (M : machine A) (a : Z) : bool :=
  match as_pte sp M a with Some e => Z.testbit e 2 | None => false end.

Definition in_segment (i a : Z) : Prop :=
  0 <= i < e_phnum header /\ p_type (segment i) = kElfLoad /\
  first_page (segment i) * 4096 <= a < end_page (segment i) * 4096.
Definition in_stack (a : Z) : Prop := kDefaultUserStackTop - kDefaultUserStackPages * 4096 <= a < kDefaultUserStackTop.
Definition segment_byte (ph : Elf64_Phdr) (a : Z) : Z :=
  if decide (p_vaddr ph <= a < p_vaddr ph + p_filesz ph)
  then byte_of (ram M0) (image_base + p_offset ph + (a - p_vaddr ph)) else 0.

Record image_in_place (M : machine A) : Prop := {
  ip_segment i a : in_segment i a -> user_byte M a = segment_byte (segment i) a /\
    exists e, as_pte sp M a = Some e /\ Z.testbit e 2 = true /\
      Z.testbit e 1 = Z.testbit (p_flags (segment i)) 1 /\ Z.testbit e 63 = negb (Z.testbit (p_flags (segment i)) 0);
  ip_stack a : in_stack a -> user_byte M a = 0 /\
    exists e, as_pte sp M a = Some e /\ Z.testbit e 2 = true /\ Z.testbit e 1 = true /\ Z.testbit e 63 = false;
  ip_only a : 0 <= a < 2 ^ 47 -> user_reaches M a = true -> (exists i, in_segment i a) \/ in_stack a;
  ip_kernel a : 0 <= a < Z.max kMinimumIdentityLimit (image_base + image_size) ->
    (exists i, in_segment i a) \/ in_stack a \/ as_translate sp a M = a
}.

Lemma page_entry_bit phys flags n :
  n = 1 \/ n = 2 \/ n = 63 -> Z.testbit (page_entry phys flags) n = Z.testbit flags n.
Proof.
  intros Hn. unfold page_entry. rewrite !Z.lor_spec, !Z.land_spec.
  rewrite testbit_not64 by (unfold u64, two64, kAddrMask; lia).
  replace (Z.testbit kAddrMask n) with false by (by destruct Hn as [->|[->| ->]]).
  replace (Z.testbit PagePresent n) with false by (by destruct Hn as [->|[->| ->]]).
  rewrite (proj2 (Z.ltb_lt n 64)) by lia. by rewrite andb_false_r, andb_true_r, orb_false_r.
Qed.

Lemma segment_flags_bits f :
  Z.testbit (segment_flags f) 2 = true /\ Z.testbit (segment_flags f) 1 = Z.testbit f 1 /\
  Z.testbit (segment_flags f) 63 = negb (Z.testbit f 0).
Proof.
  unfold segment_flags. pose proof (land_pow2 f 1 ltac:(lia)) as H1. pose proof (land_pow2 f 0 ltac:(lia)) as H0.
  change (2 ^ 1) with kElfWrite in H1. change (2 ^ 0) with kElfExecute in H0. rewrite <- H1, <- H0.
  destruct (Z.land f kElfWrite =? 0), (Z.land f kElfExecute =? 0); by vm_compute.
Qed.

Lemma elem_of_image_pages ps :
  ps ∈ image_pages (e_phnum header) <-> exists i k, 0 <= i < e_phnum header /\ p_type (segment i) = kElfLoad /\
    first_page (segment i) <= k < end_page (segment i) /\ ps = segment_page (segment i) k.
Proof.
  unfold image_pages. rewrite list_elem_of_bind. unfold segment_pages. split.
  - intros (i & Hps & Hi). apply elem_of_seqZ in Hi. destruct (Z.eqb_spec (p_type (segment i)) kElfLoad) as [Ht|];
      [|by apply elem_of_nil in Hps]. apply list_elem_of_fmap in Hps as (k & -> & Hk). apply elem_of_seqZ in Hk.
    exists i, k. split_and!; [lia|lia|done|lia|lia|done].
  - intros (i & k & Hi & Ht & Hk & ->). exists i. rewrite Ht. change (kElfLoad =? kElfLoad) with true. cbv iota.
    split; [|apply elem_of_seqZ; lia]. apply list_elem_of_fmap. exists k. split; [done|]. apply elem_of_seqZ. lia.
Qed.

Lemma elem_of_stack_pages ps :
  ps ∈ stack_pages kDefaultUserStackPages <-> exists k, 0 <= k < kDefaultUserStackPages /\ ps = stack_page k.
Proof.
  unfold stack_pages. rewrite list_elem_of_fmap. split.
  - intros (k & -> & Hk). apply elem_of_seqZ in Hk. exists k. split; [lia|done].
  - intros (k & Hk & ->). exists k. split; [done|]. apply elem_of_seqZ. lia.
Qed.

(** The pages are aligned and in the lower half. *)
Lemma process_page_low ps : ps ∈ process_pages -> exists k, ps_virt ps = k * 4096 /\ 0 <= k < 2 ^ 35.
Proof.
  intros [Hps|Hps]%elem_of_app.
  - apply elem_of_image_pages in Hps as (i & k & Hi & Ht & Hk & ->). exists k. split; [done|].
    pose proof (io_lower Himage i Hi Ht). destruct (segment_range i) as (_ & Hv & _ & Hms & _).
    unfold first_page, end_page in Hk. Z.to_euclidean_division_equations. lia.
  - apply elem_of_stack_pages in Hps as (k & Hk & ->). unfold kDefaultUserStackPages in Hk.
    exists (0x7ffffff - (k + 1)). cbn. unfold kDefaultUserStackTop. lia.
Qed.

Lemma page_of_address k off : 0 <= k < 2 ^ 35 -> 0 <= off < 4096 ->
  vpn (k * 4096 + off) = k /\ user (k * 4096 + off) /\ (k * 4096 + off) mod 4096 = off.
Proof.
  intros Hk Ho. assert (Hd : (k * 4096 + off) / 4096 = k) by (rewrite Z.div_add_l by done; rewrite Z.div_small; lia).
  unfold vpn, user, lower, pml4_index. rewrite Hd, index_spec by done. split_and!.
  - apply Z.mod_small. lia.
  - apply Z.ltb_lt. Z.to_euclidean_division_equations. lia.
  - rewrite Z.add_comm, Z.mod_add by done. by apply Z.mod_small.
Qed.

Lemma complete_page M owned pm ps off :
  complete M owned pm -> ps ∈ process_pages -> 0 <= off < 4096 ->
  user_byte M (ps_virt ps + off) = ps_byte ps off /\
  exists phys, frame_ok phys /\ as_pte sp M (ps_virt ps + off) = Some (page_entry phys (ps_flags ps)).
Proof.
  intros (B & Hp & _) Hps Hoff. destruct (process_page_low ps Hps) as (k & Ek & Hk).
  apply list_elem_of_lookup in Hps as [j Hj]. destruct (Forall2_lookup_l _ _ _ _ _ Hp Hj) as (o & Ho & _ & He & Hb).
  destruct (page_of_address k off Hk Hoff) as (Hv & Hu & Hm).
  destruct (page_of_address k 0 Hk ltac:(lia)) as (Hv0 & _). rewrite Z.add_0_r in Hv0. rewrite Ek, Hv0 in He.
  assert (Hin : op_phys o ∈ op_phys <$> owned)
    by (apply list_elem_of_fmap; exists o; split; [done|by eapply list_elem_of_lookup_2]).
  destruct (bu_frame _ _ _ B _ Hin) as [Hfr _].
  assert (Hpte : as_pte sp M (k * 4096 + off) = Some (page_entry (op_phys o) (ps_flags ps)))
    by (by rewrite (bu_pte _ _ _ B), Hv).
  rewrite Ek. split; [|by exists (op_phys o)].
  unfold user_byte. rewrite as_translate_lookup by apply B. rewrite Hpte, Hm.
  destruct Hfr as [Hr Hal]. rewrite page_entry_table by (done || lia).
  rewrite w64_small by (unfold u64, two64; lia). by apply Hb.
Qed.

(** An address is in a page of the process exactly when it is in a segment or the stack. *)
Lemma process_page_address a :
  (exists ps off, ps ∈ process_pages /\ 0 <= off < 4096 /\ a = ps_virt ps + off) ->
  (exists i, in_segment i a) \/ in_stack a.
Proof.
  intros (ps & off & [Hps|Hps]%elem_of_app & Hoff & ->).
  - apply elem_of_image_pages in Hps as (i & k & Hi & Ht & Hk & ->). left. exists i. cbn. split; [done|]. split; [done|]. lia.
  - apply elem_of_stack_pages in Hps as (k & Hk & ->). right. unfold in_stack, kDefaultUserStackPages in *. cbn. lia.
Qed.

(** Any other address of the lower half is as the kernel's ranges left it. *)
Lemma complete_other M owned pm a :
  complete M owned pm -> 0 <= a < 2 ^ 47 ->
  (exists i, in_segment i a) \/ in_stack a \/
  as_pte sp M a = pm !! (a / 4096) /\
  forall e, pm !! (a / 4096) = Some e ->
    0 <= a / 4096 < 2 ^ 40 /\ exists flags, Z.testbit flags 2 = false /\ e = page_entry (a / 4096 * 4096) flags.
Proof.
  intros (B & Hp & _ & _ & pm0 & Hkf & Hdom) Ha.
  assert (Hk : 0 <= a / 4096 < 2 ^ 35) by (Z.to_euclidean_division_equations; lia).
  destruct (page_of_address (a / 4096) (a mod 4096) Hk (Z.mod_pos_bound a 4096 ltac:(lia))) as (Hv & Hu & _).
  replace (a / 4096 * 4096 + a mod 4096) with a in Hv, Hu by (Z.to_euclidean_division_equations; lia).
  destruct (pm0 !! (a / 4096)) as [e|] eqn:E.
  - destruct (list_elem_of_fmap_1 _ _ _ (Hdom _ (mk_is_Some _ _ E))) as (ps & Eps & Hps).
    destruct (process_page_low ps Hps) as (k & Ek & Hkr).
    destruct (page_of_address k 0 Hkr ltac:(lia)) as (Hv0 & _). rewrite Z.add_0_r, <- Ek, <- Eps in Hv0.
    destruct (process_page_address a) as [?|?]; [|by left|right; by left].
    exists ps, (a mod 4096). split; [done|]. split; [apply Z.mod_pos_bound; lia|]. rewrite Ek, <- Hv0.
    Z.to_euclidean_division_equations. lia.
  - right. right. split; [by rewrite (bu_pte _ _ _ B), Hv|]. intros e He.
    destruct (kf_new _ _ _ Hkf _ _ He) as [?|?]; [congruence|done].
Qed.

Lemma complete_segment M owned pm i a :
  complete M owned pm -> in_segment i a -> user_byte M a = segment_byte (segment i) a /\
  exists phys, as_pte sp M a = Some (page_entry phys (segment_flags (p_flags (segment i)))).
Proof.
  intros C (Hi & Ht & Ha). set (k := a / 4096).
  destruct (complete_page M owned pm (segment_page (segment i) k) (a mod 4096) C) as (Hb & phys & _ & He);
    [|apply Z.mod_pos_bound; lia|].
  { apply elem_of_app. left. apply elem_of_image_pages. exists i, k. unfold k.
    split_and!; try done; Z.to_euclidean_division_equations; lia. }
  cbn in Hb, He. replace (k * 4096 + a mod 4096) with a in * by (unfold k; Z.to_euclidean_division_equations; lia).
  split; [done|]. by exists phys.
Qed.

Lemma complete_stack M owned pm a :
  complete M owned pm -> in_stack a -> user_byte M a = 0 /\
  exists phys, as_pte sp M a = Some (page_entry phys (Z.lor PageWrite PageUser)).
Proof.
  intros C Ha. set (k := (kDefaultUserStackTop - 1 - a) / 4096).
  destruct (complete_page M owned pm (stack_page k) (a mod 4096) C) as (Hb & phys & _ & He); [|apply Z.mod_pos_bound; lia|].
  { apply elem_of_app. right. apply elem_of_stack_pages. exists k. split; [|done].
    unfold k, in_stack, kDefaultUserStackTop, kDefaultUserStackPages in *. Z.to_euclidean_division_equations. lia. }
  cbn in Hb, He. replace (kDefaultUserStackTop - (k + 1) * 4096 + a mod 4096) with a in *
    by (unfold k, kDefaultUserStackTop; Z.to_euclidean_division_equations; lia).
  split; [done|]. by exists phys.
Qed.

Lemma complete_in_place M owned pm : complete M owned pm -> image_in_place M.
Proof.
  intros C. pose proof C as (B & _ & _ & _ & pm0 & Hkf & _). split.
  - intros i a Ha. destruct (complete_segment M owned pm i a C Ha) as (Hb & phys & He).
    split; [done|]. eexists. split; [done|]. destruct (segment_flags_bits (p_flags (segment i))) as (<- & <- & <-).
    split_and!; apply page_entry_bit; auto.
  - intros a Ha. destruct (complete_stack M owned pm a C Ha) as (Hb & phys & He).
    split; [done|]. eexists. split; [done|]. split_and!; rewrite page_entry_bit; auto.
  - intros a Ha. destruct (complete_other M owned pm a C Ha) as [?|[?|[Hpte Hk]]]; [by left|by right|].
    unfold user_reaches. rewrite Hpte. destruct (pm !! (a / 4096)) as [e|]; [|done].
    destruct (Hk e eq_refl) as (_ & flags & Hf & ->). rewrite page_entry_bit by auto. congruence.
  - intros a Ha. pose proof (io_end Himage). unfold kMinimumIdentityLimit in Ha.
    destruct (complete_other M owned pm a C ltac:(lia)) as [?|[?|[Hpte Hk]]]; [by left|right; by left|]. right. right.
    destruct (kf_all _ _ _ Hkf (a / 4096)) as [e E].
    { unfold identity_end, kMinimumIdentityLimit. Z.to_euclidean_division_equations. lia. }
    rewrite as_translate_lookup, Hpte, E by apply B. destruct (Hk e E) as (Hj & flags & _ & ->).
    rewrite identity_table by lia. rewrite w64_small; [|unfold u64, two64]; Z.to_euclidean_division_equations; lia.
Qed.

(** ** Giving the memory back *)

Lemma release_data M data pm :
  building M data pm ->
  let M2 := free_all data M in
  space_wf sp M2 /\ ram M2 = ram M /\
  (forall f, frame_ok f -> pa_avail (frames M2) f = true <-> pa_avail (frames M) f = true \/ f ∈ data).
Proof.
  intros B. cbv zeta. pose proof (sw_tree _ _ (bu_space _ _ _ B)) as Hw.
  destruct (free_all_spec data M) as (F1 & _ & F3 & F4); [apply Hw|apply B|..].
  { intros f Hf. destruct (bu_frame _ _ _ B f Hf) as (Hfr & _ & Hm). split_and!; [done| |by apply B].
    by rewrite (bu_managed _ _ _ B). }
  assert (Er : ram (free_all data M) = ram M) by done. split_and!; [|done|done].
  split; [split|]; rewrite ?Er; try apply Hw; [done|..].
  - intros q t Hq Et. destruct (pa_avail (frames (free_all data M)) t) eqn:E; [|done]. exfalso.
    apply F3 in E as [E|E]; [|by destruct (bu_used _ _ _ B t E) as [_ []]; exists q|eauto using tw_frame].
    rewrite (tw_used _ _ _ Hw q t) in E; done.
  - intros q t Hq Hn Et. rewrite F4. by eapply tw_managed.
  - rewrite F4. apply B.
Qed.

Lemma release_complete M owned pm p f :
  complete M owned pm -> pr_owned_pages p = owned -> pr_address_space_root p = root -> pr_owns_address_space p = true ->
  frame_ok f -> pa_avail (frames (release_memory p M)) f = pa_avail (frames M0) f.
Proof.
  intros (B & _) Ho Hr Hown Hf. unfold release_memory. rewrite Ho, Hr, Hown.
  destruct (release_data _ _ _ B) as (Hs2 & Er & Hav).
  assert (E2 : foldl (fun M o => free_frame (op_phys o) M) M owned = free_all (op_phys <$> owned) M).
  { clear. revert M. induction owned as [|o owned IH]; intros M; [by rewrite free_all_nil|]. apply IH. }
  rewrite E2. set (M2 := free_all _ M) in *. destruct (space_root sp M2 Hs2) as (_ & Hne & _).
  rewrite (proj2 (Z.eqb_neq _ 0) Hne). cbn [andb negb].
  destruct (destroy_address_space (mkSpace root) M2) as [M3 sp3] eqn:Ed.
  destruct (destroy_address_space_cases (mkSpace root) M2 M3 sp3) as (_ & _ & _ & _ & _ & H3); [by destruct sp|done|].
  cbn [fst pml4] in *. apply eq_true_iff_eq. rewrite H3, Hav, Er by done. split.
  - intros [[?|Hd]|(q & Hq & Et)]; [by apply B|by apply (bu_frame _ _ _ B)|by eapply (bu_new _ _ _ B q)].
  - intros H0. destruct (bu_taken _ _ _ B f Hf H0) as [?|[?|?]]; tauto.
Qed.
End Load.
