(* ===== verification/UserCreate.v ===== *)
(** * Creating a process (kernel/src/userspace/userspace.cpp)

    The composition of the ELF loader, the address spaces, the frame allocator and
    the userspace manager: what a created process has in memory, why a creation
    is refused, and that reaping gives back exactly the frames it took. *)

From stdpp Require Import strings.
From S2P Require Import Prelude Pmm PageTable PmmFrames Vmm AddressSpace Path Vfs Userspace UserFiles UserDemo UserImage UserLoad.
#[local] Open Scope Z_scope.

Section Create.
Context {A : Type} `{PageAllocatorLaws A}.

(** The running root is a table the allocator has handed out. *)
Definition machine_ok (M : machine A) : Prop :=
  pa_wf (frames M) /\ frame_ok (table (cr3 M)) /\ pa_avail (frames M) (table (cr3 M)) = false.

Lemma building_created M0 M sp :
  machine_ok M0 -> create_address_space M0 = (M, sp) -> pml4 sp <> 0 -> building sp M0 M [] ∅.
Proof.
  intros (Hw & Hf & Hu) E Hne. destruct (create_address_space_cases M0 M sp Hw Hf Hu E) as [[? _]|(Hfs & _ & _ & Hs & _)]; [done|].
  by apply building_start.
Qed.

(** C8.  Loading an ELF image into a new address space puts every byte of every
    segment, and zero bytes beyond its part in the file, at its virtual address with
    the permissions of the program header, and a cleared writable stack below its top;
    user mode reaches nothing else in the lower half, and outside these pages the
    kernel finds its identity mapping.  The load is refused only for a segment or an
    entry point that is out of bounds, for pages that coincide or are more than 64, or
    when fewer than three frames are left. *)
Theorem elf_image_is_loaded sp M0 M boot image_base image_size :
  machine_ok M0 -> create_address_space M0 = (M, sp) -> pml4 sp <> 0 ->
  image_ok M0 image_base image_size -> fb_ok boot ->
  match load_elf sp boot image_base image_size M with
  | Next (entry, l) =>
    entry = e_entry (header M0 image_base) /\ good_entry M0 image_base /\
    image_in_place sp M0 image_base image_size (ld_machine l) /\
    op_virt <$> ld_owned l = ps_virt <$> process_pages M0 image_base
  | Stop M' =>
    bad_segment M0 image_base image_size \/ bad_entry M0 image_base \/
    unloadable (process_pages M0 image_base) M'
  end.
Proof.
  intros Hm E Hne Him Hfb. pose proof (building_created _ _ _ Hm E Hne) as B.
  pose proof (load_elf_cases sp M0 image_base image_size Him boot M B Hfb) as Hc.
  destruct (load_elf sp boot image_base image_size M) as [[entry l]|M']; [|exact Hc].
  destruct Hc as (He & Hg & _ & _ & pm & C). split; [done|]. split; [done|]. split; [by eapply complete_in_place|].
  destruct C as (_ & Hp & _). clear -Hp. induction Hp as [|ps o L owned (Hv & _) _ IH]; [done|].
  rewrite !fmap_cons, IH. by f_equal.
Qed.
End Create.

(** ** Entering the process in the tables *)

(** What the descriptors and the main thread of a process leave alone. *)
Definition same_image (p p' : Process) : Prop :=
  pr_pid p' = pr_pid p /\ pr_entry p' = pr_entry p /\ pr_address_space_root p' = pr_address_space_root p /\
  pr_owned_pages p' = pr_owned_pages p /\ pr_owns_address_space p' = pr_owns_address_space p.

Definition keeps_images (m m' : UserspaceManager) : Prop :=
  forall j p, processes_ m !! j = Some p -> exists p', processes_ m' !! j = Some p' /\ same_image p p'.

#[local] Instance same_image_refl : Reflexive same_image.
Proof. by intros p. Qed.
#[local] Instance keeps_images_refl : Reflexive keeps_images.
Proof. intros m j p Hj. by exists p. Qed.
#[local] Instance keeps_images_trans : Transitive keeps_images.
Proof.
  intros a b c Hab Hbc j p Hj. destruct (Hab j p Hj) as (q & Hq & ? & ? & ? & ? & ?).
  destruct (Hbc j q Hq) as (r & Hr & ? & ? & ? & ? & ?). exists r. split; [done|].
  unfold same_image. split_and!; congruence.
Qed.

Lemma keeps_same m m' : processes_ m' = processes_ m -> keeps_images m m'.
Proof. intros E j p Hj. exists p. by rewrite E. Qed.

Lemma keeps_on_process i f m : (forall p, same_image p (f p)) -> keeps_images m (on_process i f m).
Proof.
  intros Hf j p Hj. cbn. destruct (decide (i = j)) as [->|Hne].
  - exists (f p). by rewrite list_lookup_alter_eq, Hj.
  - exists p. by rewrite list_lookup_alter_ne.
Qed.

Section Publish.
Context `{Machine} `{Kernel} `{Terminal}.

Lemma keeps_close_numbered i fd m : keeps_images m (close_numbered i fd m).
Proof.
  unfold close_numbered. apply (for_each_inv (fun _ m' => keeps_images m m')); [done|]. intros k m' _ IH.
  etrans; [exact IH|]. destruct (fd_at m' i k) as [d|] eqn:E; [|done]. destruct (_ && _); [|done].
  unfold close_process_descriptor. rewrite E. destruct (fd_open d); [|done].
  etrans; [|by apply keeps_on_process]. by apply keeps_same.
Qed.

Lemma keeps_install i fd path m : keeps_images m (install_vfs_descriptor i fd path m).1.
Proof.
  unfold install_vfs_descriptor, vfs_open. destruct (vopen path (k_vfs m)) as [v handle].
  assert (K0 : keeps_images m (m <| k_vfs := v |>)) by (by apply keeps_same).
  destruct (handle =? 0); [exact K0|].
  etrans; [exact K0|]. etrans; [apply (keeps_close_numbered i fd)|].
  generalize (close_numbered i fd (m <| k_vfs := v |>)). intros m'.
  destruct (free_fd m' i); [by apply keeps_on_process|by apply keeps_same].
Qed.

Lemma keeps_install_default i m : keeps_images m (install_default_standard_fds i m).1.
Proof.
  unfold install_default_standard_fds.
  pose proof (keeps_install i kStdinFd dev_tty m) as K1. destruct (install_vfs_descriptor i kStdinFd dev_tty m) as [m1 ok1].
  destruct ok1; cbn [negb]; [|done]. etrans; [exact K1|].
  pose proof (keeps_install i kStdoutFd dev_tty m1) as K2. destruct (install_vfs_descriptor i kStdoutFd dev_tty m1) as [m2 ok2].
  destruct ok2; cbn [negb]; [|done]. etrans; [exact K2|]. apply keeps_install.
Qed.

(** The process is in the slot that is returned, with a main thread. *)
Lemma publish_process_spec make m m' i :
  publish_process true make m = (m', Some i) ->
  exists pid p, processes_ m' !! i = Some p /\ same_image (make pid) p.
Proof.
  unfold publish_process. destruct (allocate_process_slot m) as [m1 [k|]]; [|done].
  set (m2 := m1 <| next_pid_ ::= inc64 |> <| processes_ ::= _ |>).
  unfold create_main_thread. destruct (processes_ m2 !! k) as [p|] eqn:Hp; [|done].
  assert (p = make (next_pid_ m1)) as ->.
  { cbn in Hp. apply list_lookup_insert_Some in Hp as [(_ & <- & _)|[Hne _]]; done. }
  destruct (_ || _); [done|]. destruct (allocate_thread_slot m2) as [m3 [t|]] eqn:Ht; [|done]. cbn [is_found negb].
  assert (E3 : processes_ m3 = processes_ m2).
  { unfold allocate_thread_slot in Ht. destruct (index_of _ _); [by simplify_eq|]. case_decide; by simplify_eq. }
  set (m4 := on_process k _ _).
  assert (K4 : exists p, processes_ m4 !! k = Some p /\ same_image (make (next_pid_ m1)) p).
  { apply (keeps_on_process k _ _); [done|]. cbn. by rewrite E3. }
  pose proof (keeps_install_default k m4) as Hk. destruct (install_default_standard_fds k m4) as [m5 ok].
  destruct ok; [|done]. intros [= <- <-]. destruct K4 as (p4 & Hp4 & Hs4).
  destruct (Hk k p4 Hp4) as (p5 & Hp5 & Hs5). exists (next_pid_ m1), p5. split; [done|].
  destruct Hs4 as (? & ? & ? & ? & ?), Hs5 as (? & ? & ? & ? & ?). unfold same_image. split_and!; congruence.
Qed.
End Publish.

Section Reap.
Context `{Machine} `{Kernel} `{Terminal}.
Context {A : Type} `{PageAllocatorLaws A}.

(** C18.  A process created from an ELF image has the entry point of the file and its
    segments and stack in memory, and the part of reaping that returns memory leaves
    free exactly the frames that were free before the creation: the image, the stack
    and every page table of the process, no more and no less. *)
Theorem created_process_returns_its_frames boot name image_base image_size M0 M' (m m' : UserspaceManager) i :
  machine_ok M0 -> image_ok M0 image_base image_size -> fb_ok boot ->
  create_process_from_elf boot name image_base image_size M0 m = (M', m', Some i) ->
  exists p, processes_ m' !! i = Some p /\ pr_entry p = e_entry (header M0 image_base) /\
    image_in_place (mkSpace (pr_address_space_root p)) M0 image_base image_size M' /\
    forall f, frame_ok f -> pa_avail (frames (release_memory p M')) f = pa_avail (frames M0) f.
Proof.
  intros Hm Him Hfb. unfold create_process_from_elf. destruct (image_base =? 0); [done|].
  destruct (_ || _); [done|]. destruct (create_address_space M0) as [M sp] eqn:E.
  destruct (Z.eqb_spec (pml4 sp) 0) as [|Hne]; [done|]. pose proof (building_created _ _ _ Hm E Hne) as B.
  pose proof (load_elf_cases sp M0 image_base image_size Him boot M B Hfb) as Hc.
  destruct (load_elf sp boot image_base image_size M) as [[entry l]|?]; [|done].
  destruct Hc as (-> & _ & _ & _ & pm & C). destruct (publish_process true _ m) as [m1 r] eqn:Ep. intros [= <- <- ->].
  destruct (publish_process_spec _ _ _ _ Ep) as (pid & p & Hp & _ & He & Hr & Ho & Hown). cbn in He, Hr, Ho, Hown.
  exists p. split; [done|]. split; [done|]. rewrite Hr. destruct sp as [root]. cbn [pml4].
  split; [by eapply complete_in_place|]. intros f Hf. by eapply release_complete.
Qed.

Lemma created_loaded boot name image_base image_size M0 M sp (m : UserspaceManager) i :
  create_address_space M0 = (M, sp) ->
  (create_process_from_elf boot name image_base image_size M0 m).2 = Some i ->
  match load_elf sp boot image_base image_size M with Next _ => True | Stop _ => False end.
Proof.
  intros E. unfold create_process_from_elf. destruct (image_base =? 0); [done|]. destruct (_ || _); [done|].
  rewrite E. destruct (pml4 sp =? 0); [done|]. by destruct (load_elf sp boot image_base image_size M).
Qed.
End Reap.

(** ** Example

    A machine with four megabytes, an image of two segments at 0x5000 and the
    manager in its initial state. *)

Definition demo_large_boot : BootInfo :=
  mkBootInfo 0x8000 0 0 0 0 0 0x9000 [mkRegion 0 0x400000 Usable] 24
    0x100000 0x102000 0 0 0xa000 [mkModule 0x103000 0x800].

Definition demo_image : list Z :=
  [0x7f; 0x45; 0x4c; 0x46; 2; 1; 1; 0; 0; 0; 0; 0; 0; 0; 0; 0] ++ le_bytes 2 2 ++ le_bytes 2 62 ++ le_bytes 4 1 ++
  le_bytes 8 0x400002 ++ le_bytes 8 64 ++ le_bytes 8 0 ++ le_bytes 4 0 ++ le_bytes 2 64 ++ le_bytes 2 56 ++
  le_bytes 2 2 ++ le_bytes 2 0 ++ le_bytes 2 0 ++ le_bytes 2 0 ++
  le_bytes 4 1 ++ le_bytes 4 5 ++ le_bytes 8 176 ++ le_bytes 8 0x400000 ++ le_bytes 8 0 ++ le_bytes 8 4 ++ le_bytes 8 4 ++ le_bytes 8 4096 ++
  le_bytes 4 1 ++ le_bytes 4 6 ++ le_bytes 8 180 ++ le_bytes 8 0x401ffe ++ le_bytes 8 0 ++ le_bytes 8 3 ++ le_bytes 8 8 ++ le_bytes 8 4096 ++
  [0x90; 0x90; 0xeb; 0xfe; 1; 2; 3].

Definition demo_memory : sarr :=
  (foldl (fun '(a, m) b => (a + 1, set_byte a b m)) (0x5000, sa_const 0) demo_image).2.

Definition demo_large : machine PhysicalMemoryManager :=
  mkMachine demo_memory (allocate_page (Pmm.initialize demo_large_boot pmm_zero)).1 0x102000 false [].

Lemma demo_large_boot_ok : boot_ok demo_large_boot.
Proof. apply boot_ok_check; vm_compute; reflexivity. Qed.

Lemma demo_large_wf : pmm_wf (frames demo_large).
Proof. apply allocate_page_cases, initialize_spec, demo_large_boot_ok. Qed.

Lemma demo_large_ok : machine_ok demo_large.
Proof.
  split; [exact demo_large_wf|]. split; [vm_compute; split; [split|]; reflexivity|vm_compute; reflexivity].
Qed.

Lemma demo_image_ok : image_ok demo_large 0x5000 (zlen demo_image).
Proof.
  assert (En : e_phnum (header demo_large 0x5000) = 2) by (vm_compute; reflexivity).
  assert (Es : zlen demo_image = 183) by (vm_compute; reflexivity).
  split; rewrite ?Es, ?En.
  - lia.
  - lia.
  - intros a Ha f i [Hr Hf] Hi Hav. intros E. unfold slot, idx_ok in *.
    assert (f = 0x5000) as ->; [|by vm_compute in Hav].
    apply Z.mod_divide in Hf as [k ->]; [|done]. Z.to_euclidean_division_equations. lia.
  - vm_compute. reflexivity.
  - vm_compute. discriminate.
  - intros i Hi _. assert (i = 0 \/ i = 1) as [->| ->] by lia; vm_compute; discriminate.
  - intros i Hi _. assert (i = 0 \/ i = 1) as [->| ->] by lia; vm_compute; discriminate.
Qed.

Definition demo_space : AddressSpace := (create_address_space demo_large).2.
Definition demo_created : machine PhysicalMemoryManager := (create_address_space demo_large).1.

Definition demo_manager : UserspaceManager := initial_manager demo_vfs (sa_const 0).

Lemma demo_process_created :
  (create_process_from_elf demo_large_boot [] 0x5000 (zlen demo_image) demo_large demo_manager).2 = Some 0%nat.
Proof. vm_compute. reflexivity. Qed.

Lemma elf_image_is_loaded_witness :
  exists entry l, load_elf demo_space demo_large_boot 0x5000 (zlen demo_image) demo_created = Next (entry, l) /\
    image_in_place demo_space demo_large 0x5000 (zlen demo_image) (ld_machine l).
Proof.
  pose proof (elf_image_is_loaded demo_space demo_large demo_created demo_large_boot 0x5000 (zlen demo_image)
    demo_large_ok (surjective_pairing _) ltac:(vm_compute; discriminate) demo_image_ok (or_introl eq_refl)) as Hl.
  pose proof (created_loaded _ _ _ _ _ demo_created demo_space _ _ (surjective_pairing _) demo_process_created) as Hd.
  destruct (load_elf _ _ _ _ _) as [[entry l]|M']; [|destruct Hd]. destruct Hl as (_ & _ & Hi & _).
  exists entry, l. split; [reflexivity|exact Hi].
Defined.

Lemma created_process_returns_its_frames_witness :
  exists M' m' p,
    create_process_from_elf demo_large_boot [] 0x5000 (zlen demo_image) demo_large demo_manager = (M', m', Some 0%nat) /\
    processes_ m' !! 0%nat = Some p /\
    pa_avail (frames (release_memory p M')) 0x104000 = pa_avail (frames demo_large) 0x104000.
Proof.
  pose proof demo_process_created as E.
  destruct (create_process_from_elf demo_large_boot [] 0x5000 (zlen demo_image) demo_large demo_manager)
    as [[M' m'] r] eqn:Er. cbn [snd] in E. subst r.
  destruct (created_process_returns_its_frames demo_large_boot [] 0x5000 (zlen demo_image) demo_large M' demo_manager m' 0
    demo_large_ok demo_image_ok (or_introl eq_refl) Er) as (p & Hp & _ & _ & Hf).
  exists M', m', p. split; [reflexivity|]. split; [exact Hp|]. apply Hf. split; [lia|reflexivity].
Defined.

(** ** What the loader does not test *)

(** The end of the program headers is computed modulo 2^64: headers that start below
    the image pass. *)
Example program_headers_before_image :
  let eh := mkEhdr [0x7f; 0x45; 0x4c; 0x46; 2; 1] 2 62 1 0x400000 (2 ^ 64 - 56) 0 0 64 56 1 0 0 0 in
  valid_elf64 eh 64 = true /\ w64 (0x5000 + e_phoff eh) < 0x5000.
Proof. vm_compute. done. Qed.

(** A segment in the upper half goes into the tables all spaces share with the
    kernel: after it is loaded for the new space, the page is mapped, for user mode,
    under the running root too. *)
Example upper_half_segment_is_shared :
  let kernel := mkSpace 0x102000 in
  let virt := 0xffff800000000000 in
  let M := (as_map_page kernel (virt + 0x1000) 0x7000 PageWrite demo_large).1 in
  let '(M, space) := create_address_space M in
  match load_page space 0x5000 (mkPhdr 1 5 176 virt 0 4 4 4096) virt (mkLoading M [] 0 0 0) with
  | Next l => as_translate kernel virt M = 0 /\ as_translate kernel virt (ld_machine l) <> 0 /\
      Z.testbit (page_flags kernel virt (ld_machine l)) 2 = true
  | Stop _ => False
  end.
Proof. vm_compute. split_and!; done. Qed.

(** A creation that fails keeps the frames it took: an image without segments costs
    the root of its space. *)
Example refused_image_loses_a_frame :
  let M := demo_large <| ram ::= set_byte 0x5038 0 |> in
  let '(M', _, r) := create_process_from_elf demo_large_boot [] 0x5000 (zlen demo_image) M demo_manager in
  r = None /\ free_pages_ (frames M') = free_pages_ (frames M) - 1.
Proof. vm_compute. done. Qed.
