(* ===== verification/UserEnv.v ===== *)
(** * Userspace manager: arguments and environment (kernel/src/userspace/userspace.cpp)

    The fixed tables of arguments and of environment variables a process carries.
    A table is the list of its live entries, a text the characters before its
    terminator.  The theorems show that the environment is a finite map of bounded
    size with bounded keys and values, and where a failing call still changes it. *)

From stdpp Require Import strings.
From Stdlib Require Import Ascii.
From S2P Require Import Prelude Path Vfs Userspace UserFiles UserDemo.
#[local] Open Scope Z_scope.

(** ** Texts *)

(** [value] copied into an array of [N] characters that holds [out]: what the array
    then holds, and whether it all fitted.  A text that does not fit has replaced
    the old one by the time that is found out. *)
Definition copy_text_bounded (N : Z) (out value : cstr) : cstr * bool :=
  match value with
  | [] => (out, false)
  | _ => if len value <? N then (value, true) else (take (Z.to_nat (N - 1)) value, false)
  end.

Definition copy_argument_bounded (out value : cstr) : cstr * bool :=
  copy_text_bounded kMaxArgumentLength out value.

Definition key_char (c : ascii) : bool :=
  let n := Z.of_nat (nat_of_ascii c) in
  let alpha := ((65 <=? n) && (n <=? 90)) || ((97 <=? n) && (n <=? 122)) in
  let digit := (48 <=? n) && (n <=? 57) in
  negb (n =? 61) && (alpha || digit || (n =? 95)).

Definition valid_environment_key (key : cstr) : bool :=
  match key with [] => false | _ => forallb key_char key end.

(** ** Tables *)

Abbreviation environment := (list (cstr * cstr)).

(** Every text of [texts] copied into the array, or nothing. *)
Fixpoint copy_arguments (args : list cstr) : option (list cstr) :=
  match args with
  | [] => Some []
  | a :: args =>
    let '(text, ok) := copy_argument_bounded [] a in
    if ok : bool then (text ::.) <$> copy_arguments args else None
  end.

(** One entry of [set_environment]. *)
Definition copy_entry (check_key : bool) (e : cstr * cstr) : option (cstr * cstr) :=
  if check_key && negb (valid_environment_key e.1) then None
  else
    let '(key, key_ok) := copy_text_bounded kMaxEnvironmentKeyLength [] e.1 in
    let '(value, value_ok) := copy_text_bounded kMaxEnvironmentValueLength [] e.2 in
    if key_ok && value_ok then Some (key, value) else None.

Definition set_variable (key value : cstr) (env : environment) : environment * bool :=
  if negb (valid_environment_key key) || bool_decide (value = []) then (env, false)
  else match list_find (fun e => e.1 = key) env with
       | Some (i, e) =>
         let '(text, ok) := copy_text_bounded kMaxEnvironmentValueLength e.2 value in
         (<[i := (e.1, text)]> env, ok)
       | None =>
         if Z.of_nat kMaxEnvironmentEntries <=? zlen env then (env, false)
         else match copy_entry false (key, value) with
              | Some e => (env ++ [e], true)
              | None => (env, false)
              end
       end.

Definition unset_variable (key : cstr) (env : environment) : environment * bool :=
  if negb (valid_environment_key key) then (env, false)
  else match list_find (fun e => e.1 = key) env with
       | Some (i, _) => (delete i env, true)
       | None => (env, false)
       end.

(** ** Operations of the manager *)

Definition set_arguments (pid : Z) (args : list cstr) (m : UserspaceManager) : UserspaceManager * bool :=
  match find_alive m pid with
  | Some (i, _) =>
    if Z.of_nat kMaxProcessArguments <? zlen args then (m, false)
    else match copy_arguments args with
         | Some texts => (on_process i (fun p => p <| pr_arguments := texts |>) m, true)
         | None => (on_process i (fun p => p <| pr_arguments := [] |>) m, false)
         end
  | None => (m, false)
  end.

Definition argument_count (pid : Z) (m : UserspaceManager) : Z :=
  match lookup_alive m pid with Some (_, p) => zlen (pr_arguments p) | None => 0 end.

Definition copy_argument (pid index : Z) (m : UserspaceManager) : option cstr :=
  '(_, p) ← lookup_alive m pid;
  text ← pr_arguments p !! Z.to_nat index;
  if bool_decide (text = []) then None else Some text.

Definition set_environment (pid : Z) (entries : environment) (m : UserspaceManager)
  : UserspaceManager * bool :=
  match find_alive m pid with
  | Some (i, _) =>
    if Z.of_nat kMaxEnvironmentEntries <? zlen entries then (m, false)
    else match mapM (copy_entry true) entries with
         | Some env => (on_process i (fun p => p <| pr_environment := env |>) m, true)
         | None => (on_process i (fun p => p <| pr_environment := [] |>) m, false)
         end
  | None => (m, false)
  end.

Definition on_environment (pid : Z) (f : environment -> environment * bool) (m : UserspaceManager)
  : UserspaceManager * bool :=
  match find_alive m pid with
  | Some (i, p) =>
    let '(env, ok) := f (pr_environment p) in
    (on_process i (fun p => p <| pr_environment := env |>) m, ok)
  | None => (m, false)
  end.

Definition set_environment_variable (pid : Z) (key value : cstr) :=
  on_environment pid (set_variable key value).
Definition unset_environment_variable (pid : Z) (key : cstr) :=
  on_environment pid (unset_variable key).

Definition inherit_environment (child_pid parent_pid : Z) (m : UserspaceManager)
  : UserspaceManager * bool :=
  match find_process m child_pid, find_alive m parent_pid with
  | Some (i, _), Some (c, parent) =>
    let m := on_process i (fun p => p <| pr_environment := [] |>) m in
    let source := from_option pr_environment [] (processes_ m !! c) in
    match mapM (copy_entry false) source with
    | Some env => (on_process i (fun p => p <| pr_environment := env |>) m, true)
    | None => (m, false)
    end
  | _, _ => (m, false)
  end.

Definition environment_count (pid : Z) (m : UserspaceManager) : Z :=
  match lookup_alive m pid with Some (_, p) => zlen (pr_environment p) | None => 0 end.

Definition copy_environment (pid index : Z) (m : UserspaceManager) : option (cstr * cstr) :=
  '(_, p) ← lookup_alive m pid;
  e ← pr_environment p !! Z.to_nat index;
  if bool_decide (e.1 = []) || bool_decide (e.2 = []) then None else Some e.

(** ** The environment as a finite map *)

Definition bounded_key (key : cstr) : Prop :=
  valid_environment_key key = true /\ len key < kMaxEnvironmentKeyLength.
Definition bounded_value (value : cstr) : Prop := 0 < len value < kMaxEnvironmentValueLength.

Record env_wf (env : environment) : Prop := {
  env_keys : NoDup env.*1;
  env_size : (length env <= kMaxEnvironmentEntries)%nat;
  env_texts : Forall (fun e => bounded_key e.1 /\ bounded_value e.2) env
}.

Definition env_map (env : environment) : gmap cstr cstr := list_to_map env.

Inductive env_op := SetVariable (key value : cstr) | UnsetVariable (key : cstr).

Definition run_env_op (op : env_op) : environment -> environment * bool :=
  match op with
  | SetVariable key value => set_variable key value
  | UnsetVariable key => unset_variable key
  end.

(** What the environment promises: a call that returns true has the effect of the
    map operation; one that returns false has none, except that a value too long
    for an existing variable has been cut to what fits. *)
Inductive env_step (e : gmap cstr cstr) : env_op -> bool -> gmap cstr cstr -> Prop :=
| env_set key value :
    bounded_key key -> bounded_value value ->
    (is_Some (e !! key) \/ (size e < kMaxEnvironmentEntries)%nat) ->
    env_step e (SetVariable key value) true (<[key := value]> e)
| env_set_cut key value :
    is_Some (e !! key) -> kMaxEnvironmentValueLength <= len value ->
    env_step e (SetVariable key value) false
      (<[key := take (Z.to_nat (kMaxEnvironmentValueLength - 1)) value]> e)
| env_set_rejected key value :
    e !! key = None \/ value = [] ->
    ~ (bounded_key key /\ bounded_value value /\ (size e < kMaxEnvironmentEntries)%nat) ->
    env_step e (SetVariable key value) false e
| env_unset key :
    is_Some (e !! key) -> env_step e (UnsetVariable key) true (delete key e)
| env_unset_missing key :
    e !! key = None -> env_step e (UnsetVariable key) false e.

Lemma env_map_find env key i e :
  NoDup env.*1 -> list_find (fun e => e.1 = key) env = Some (i, e) ->
  env !! i = Some e /\ e.1 = key /\ env_map env !! key = Some e.2.
Proof.
  intros Hnd (Hi & <- & _)%list_find_Some. split_and!; [done..|].
  apply elem_of_list_to_map; [done|]. destruct e. by eapply list_elem_of_lookup_2.
Qed.

Lemma env_map_missing env key :
  list_find (fun e => e.1 = key) env = None <-> env_map env !! key = None.
Proof.
  unfold env_map. rewrite list_find_None, <-not_elem_of_list_to_map. rewrite Forall_forall, list_elem_of_fmap.
  split; [intros Hf (e & -> & He); by apply (Hf e)|].
  intros Hn e He Heq. apply Hn. by exists e.
Qed.

Lemma env_map_size env : NoDup env.*1 -> size (env_map env) = length env.
Proof.
  intros Hnd. unfold env_map. rewrite <-(length_map_to_list (list_to_map env : gmap cstr cstr)).
  by rewrite map_to_list_to_map.
Qed.

Lemma env_wf_key env key v : env_wf env -> env_map env !! key = Some v -> bounded_key key /\ bounded_value v.
Proof.
  intros [Hnd _ Ht] Hk%elem_of_list_to_map_2. rewrite Forall_forall in Ht. by apply (Ht _ Hk).
Qed.

Lemma bounded_value_cut value :
  kMaxEnvironmentValueLength <= len value ->
  bounded_value (take (Z.to_nat (kMaxEnvironmentValueLength - 1)) value).
Proof.
  unfold bounded_value, kMaxEnvironmentValueLength, len. rewrite length_take. lia.
Qed.

Lemma env_map_delete env i e :
  NoDup env.*1 -> env !! i = Some e ->
  env_map env = <[e.1 := e.2]> (env_map (delete i env)) /\ env_map (delete i env) !! e.1 = None.
Proof.
  intros Hnd Hi. pose proof (delete_Permutation env i e Hi) as Hp.
  assert (Hnd' : NoDup (e :: delete i env).*1) by (by rewrite <-Hp). destruct e as [k v]. split.
  - unfold env_map. by rewrite (list_to_map_proper (M := gmap cstr) _ _ Hnd Hp).
  - unfold env_map. apply not_elem_of_list_to_map_1. by inversion Hnd'.
Qed.

Lemma env_keys_insert (env : list (cstr * cstr)) i e v :
  env !! i = Some e -> (<[i := (e.1, v)]> env).*1 = env.*1.
Proof.
  intros Hi. rewrite list_fmap_insert. apply list_insert_id. by rewrite list_lookup_fmap, Hi.
Qed.

Lemma env_map_insert (env : list (cstr * cstr)) i e v :
  NoDup env.*1 -> env !! i = Some e -> env_map (<[i := (e.1, v)]> env) = <[e.1 := v]> (env_map env).
Proof.
  intros Hnd Hi. pose proof (lookup_lt_Some _ _ _ Hi) as Hlt.
  destruct (env_map_delete env i e Hnd Hi) as [-> _].
  destruct (env_map_delete (<[i := (e.1, v)]> env) i (e.1, v)) as [-> _].
  - by rewrite (env_keys_insert env i e).
  - by apply list_lookup_insert_eq.
  - assert (delete i (<[i:=(e.1, v)]> env) = delete i env) as ->.
    { rewrite !delete_take_drop. by rewrite take_insert_ge, drop_insert_lt by lia. }
    simpl. by rewrite insert_insert_eq.
Qed.

Lemma env_wf_insert (env : list (cstr * cstr)) i e v :
  env_wf env -> env !! i = Some e -> bounded_value v -> env_wf (<[i := (e.1, v)]> env).
Proof.
  intros [Hnd Hs Ht] Hi Hv. split.
  - by rewrite (env_keys_insert env i e).
  - by rewrite length_insert.
  - apply Forall_insert; [done|]. split; [|done].
    rewrite Forall_lookup in Ht. by apply (Ht i e).
Qed.

Lemma unbounded_value value :
  value <> [] -> ~ bounded_value value -> kMaxEnvironmentValueLength <= len value.
Proof. unfold bounded_value, len. destruct value; [done|]. simpl. lia. Qed.

Lemma copy_text_bounded_value out value :
  copy_text_bounded kMaxEnvironmentValueLength out value =
  if bool_decide (value = []) then (out, false)
  else if decide (bounded_value value) then (value, true)
  else (take (Z.to_nat (kMaxEnvironmentValueLength - 1)) value, false).
Proof.
  unfold copy_text_bounded, bounded_value. destruct value as [|c value]; [done|].
  rewrite bool_decide_eq_false_2 by done.
  case_decide as Hd; [rewrite (proj2 (Z.ltb_lt _ _)) by lia; done|].
  rewrite (proj2 (Z.ltb_ge _ _)); [done|]. unfold len in *. simpl length in *. lia.
Qed.

Lemma copy_entry_spec (key value : cstr) :
  valid_environment_key key = true -> value <> [] ->
  copy_entry false (key, value) =
  if decide (bounded_key key /\ bounded_value value) then Some (key, value) else None.
Proof.
  intros Hk Hv. unfold copy_entry. cbn [fst snd andb]. rewrite copy_text_bounded_value.
  rewrite bool_decide_eq_false_2 by done. destruct key as [|c key]; [done|].
  unfold copy_text_bounded, bounded_key.
  destruct (Z.ltb_spec (len (c :: key)) kMaxEnvironmentKeyLength) as [Hl|Hl];
    destruct (decide (bounded_value value)) as [Hb|Hb];
    destruct (decide (_ /\ bounded_value value)) as [Hd|Hd]; try done; exfalso;
    [by apply Hd | by destruct Hd as [_ ?] | destruct Hd as [[_ ?] _]; lia ..].
Qed.

Lemma env_append env key value :
  env_wf env -> env_map env !! key = None -> (length env < kMaxEnvironmentEntries)%nat ->
  bounded_key key /\ bounded_value value ->
  env_wf (env ++ [(key, value)]) /\ env_map (env ++ [(key, value)]) = <[key := value]> (env_map env).
Proof.
  intros [Hnd Hs Ht] Hf Hle Hb. split; [split|].
  - rewrite fmap_app. apply NoDup_app. simpl. split_and!; [done| |apply NoDup_singleton].
    intros k Hk ->%list_elem_of_singleton. by apply not_elem_of_list_to_map_2 in Hf.
  - rewrite length_app. simpl. lia.
  - apply Forall_app. by rewrite Forall_singleton.
  - unfold env_map. rewrite list_to_map_app. simpl. rewrite <-insert_union_r by done.
    by rewrite map_union_empty.
Qed.

Lemma set_variable_refines key value env :
  env_wf env ->
  env_wf (set_variable key value env).1 /\
  env_step (env_map env) (SetVariable key value) (set_variable key value env).2
    (env_map (set_variable key value env).1).
Proof.
  intros Hwf. unfold set_variable. pose proof Hwf as [Hnd Hs Ht].
  destruct (valid_environment_key key) eqn:Hk; cbn [negb orb].
  2:{ split; [done|]. apply env_set_rejected; [left|by intros [[? ?] ?]; congruence].
      destruct (env_map env !! key) eqn:Hl; [|done]. destruct (env_wf_key _ _ _ Hwf Hl) as [[? _] _]. congruence. }
  case_bool_decide as Hv; [split; [done|apply env_set_rejected; [by right|]]|].
  { intros (_ & Hb & _). unfold bounded_value in Hb. subst. unfold len in Hb. simpl in Hb. lia. }
  destruct (list_find _ env) as [[i e]|] eqn:Hf.
  - destruct (env_map_find _ _ _ _ Hnd Hf) as (Hi & <- & Hl).
    rewrite copy_text_bounded_value, bool_decide_eq_false_2 by done.
    destruct (env_wf_key _ _ _ Hwf Hl) as [Hbk _].
    destruct (decide (bounded_value value)) as [Hb|Hb]; cbn [fst snd];
      (split; [apply env_wf_insert; [done..|]|rewrite env_map_insert by done]).
    + done.
    + apply env_set; eauto.
    + by apply bounded_value_cut, unbounded_value.
    + apply env_set_cut; [by eauto|by apply unbounded_value].
  - apply env_map_missing in Hf. pose proof (env_map_size _ Hnd) as Hsz.
    case Z.leb_spec; intros Hle; [split; [done|cbn [fst snd]]|].
    { apply env_set_rejected; [by left|]. intros (_ & _ & ?). unfold zlen in Hle. lia. }
    rewrite copy_entry_spec by done. case_decide as Hb; cbn [fst snd]; [|split; [done|]].
    2:{ apply env_set_rejected; [by left|]. intros (? & ? & _). by apply Hb. }
    unfold zlen in Hle. destruct (env_append env key value Hwf Hf ltac:(lia) Hb) as [Hwf' Heq].
    rewrite Heq. split; [done|]. apply env_set; [apply Hb..|]. right. lia.
Qed.

Lemma unset_variable_refines key env :
  env_wf env ->
  env_wf (unset_variable key env).1 /\
  env_step (env_map env) (UnsetVariable key) (unset_variable key env).2
    (env_map (unset_variable key env).1).
Proof.
  intros Hwf. unfold unset_variable. pose proof Hwf as [Hnd Hs Ht].
  destruct (valid_environment_key key) eqn:Hk; cbn [negb].
  2:{ split; [done|]. apply env_unset_missing.
      destruct (env_map env !! key) eqn:Hl; [|done]. destruct (env_wf_key _ _ _ Hwf Hl) as [[? _] _]. congruence. }
  destruct (list_find _ env) as [[i e]|] eqn:Hf; cbn [fst snd].
  - destruct (env_map_find _ _ _ _ Hnd Hf) as (Hi & <- & Hl).
    destruct (env_map_delete env i e Hnd Hi) as [Heq Hnone].
    pose proof (delete_Permutation env i e Hi) as Hp. split; [split|].
    + rewrite Hp in Hnd. by inversion Hnd.
    + rewrite length_delete by eauto. lia.
    + rewrite Hp in Ht. by inversion Ht.
    + rewrite <-(delete_insert_id (env_map (delete i env)) e.1 e.2) by done. rewrite <-Heq.
      apply env_unset. eauto.
  - split; [done|]. by apply env_unset_missing, env_map_missing.
Qed.

Lemma run_env_op_refines op env :
  env_wf env ->
  env_wf (run_env_op op env).1 /\
  env_step (env_map env) op (run_env_op op env).2 (env_map (run_env_op op env).1).
Proof. destruct op; [apply set_variable_refines|apply unset_variable_refines]. Qed.

(** The calls of a process on its own environment. *)
Definition run_environment (pid : Z) (op : env_op) : UserspaceManager -> UserspaceManager * bool :=
  match op with
  | SetVariable key value => set_environment_variable pid key value
  | UnsetVariable key => unset_environment_variable pid key
  end.

(** C37. The environment of a process is a finite map of at most 4 variables with keys of at
    most 23 characters and values of at most 79: setting and removing a variable
    through the manager are the operations of the map on the live process with that
    pid, and change nothing else.  A call that fails leaves the map as it was, with
    one exception that the code has: a value that is too long for an existing
    variable has been cut to 79 characters in its place. *)
Theorem environment_is_a_bounded_map pid op m i p :
  find_alive m pid = Some (i, p) -> env_wf (pr_environment p) ->
  let '(m', ok) := run_environment pid op m in
  exists env, m' = m <| processes_ := <[i := p <| pr_environment := env |>]> (processes_ m) |> /\
    env_wf env /\ env_step (env_map (pr_environment p)) op ok (env_map env).
Proof.
  intros Hp Hwf. destruct (find_alive_Some _ _ _ _ Hp) as [(Hi & _)%find_process_Some _].
  assert (run_environment pid op m = on_environment pid (run_env_op op) m) as -> by (by destruct op).
  unfold on_environment. rewrite Hp. pose proof (run_env_op_refines op (pr_environment p) Hwf) as [Hwf' Hstep].
  destruct (run_env_op op (pr_environment p)) as [env ok]. exists env. split_and!; [|done..].
  unfold on_process, setf. cbn. by rewrite (alter_insert _ _ _ p) by done.
Qed.

(** Setting a variable that is not there yet, in the first process of the example. *)
Lemma environment_is_a_bounded_map_witness :
  exists i p env,
    env_wf env /\ env_step (env_map (pr_environment p)) (SetVariable (cs "HOME") (cs "/tmp")) true (env_map env) /\
    processes_ (run_environment 1 (SetVariable (cs "HOME") (cs "/tmp")) demo_two).1 !! i = Some (p <| pr_environment := env |>).
Proof.
  destruct (find_alive demo_two 1) as [[i p]|] eqn:Hp; [|vm_compute in Hp; discriminate].
  exists i, p. destruct (find_alive_Some _ _ _ _ Hp) as [(Hi & _)%find_process_Some _].
  assert (He : pr_environment p = []) by (vm_compute in Hp; by injection Hp as <- <-).
  pose proof (environment_is_a_bounded_map 1 (SetVariable (cs "HOME") (cs "/tmp")) demo_two i p Hp) as Ht.
  rewrite (pair_snd (run_environment 1 _ demo_two) true) in Ht by (vm_compute; reflexivity).
  destruct Ht as (env & Hm & Hwf & Hstep); [rewrite He; split; [apply NoDup_nil_2|unfold kMaxEnvironmentEntries; simpl; lia|constructor]|].
  exists env. split_and!; [done..|]. rewrite Hm. cbn [processes_ setf]. apply list_lookup_insert_eq. by eapply lookup_lt_Some.
Defined.
