(* ===== verification/UserPipes.v ===== *)
(** * Userspace manager: what pipes promise (kernel/src/userspace/userspace.cpp)

    A pipe is a bounded queue of bytes.  The theorems show that [wake_pipe_waiters]
    is a run of completed transfers on that queue, one per thread it wakes, that
    its loop bound is never what stops it, and that no transfer that could complete
    is left waiting; and that [read_file] and [write_file] on a pipe are the queue's
    two operations followed by such a run. *)

From stdpp Require Import strings relations.
From S2P Require Import Prelude Path Vfs Userspace UserFiles UserDemo.
#[local] Open Scope Z_scope.

(** ** The queue *)

Definition queue (p : Pipe) : list Z :=
  bytes_at (sa_get (pi_data p)) (pi_read_offset p) (pi_size p - pi_read_offset p).

(** Reading moves what is left to the front, so that between operations the read
    offset is always 0 and the size is the number of bytes queued. *)
Definition pipe_wf (p : Pipe) : Prop := pi_read_offset p = 0 /\ 0 <= pi_size p <= kPipeCapacity.

Lemma queue_length p : pipe_wf p -> zlen (queue p) = pi_size p - pi_read_offset p.
Proof. intros [? ?]. unfold queue, zlen. rewrite bytes_at_length. lia. Qed.

Lemma consume_pipe_queue n p :
  pipe_wf p -> 0 < n <= pi_size p - pi_read_offset p ->
  pipe_wf (consume_pipe n p) /\
  queue p = bytes_at (sa_get (pi_data p)) (pi_read_offset p) n ++ queue (consume_pipe n p).
Proof.
  intros [Hro Hcap] Hn. unfold kPipeCapacity in *. unfold consume_pipe, pipe_wf, queue.
  assert (Ho : w64 (pi_read_offset p + n) = pi_read_offset p + n) by (apply w64_small; unfold u64, two64; lia).
  assert (Hr : w64 (pi_size p - (pi_read_offset p + n)) = pi_size p - (pi_read_offset p + n))
    by (apply w64_small; unfold u64, two64; lia).
  destruct p as [id op size ro d]; cbn -[write_bytes] in *. rewrite Ho, Hr.
  rewrite (proj2 (Z.eqb_neq (ro + n) 0)) by lia. rewrite (bytes_at_split _ ro n (size - ro)) by lia.
  replace (size - ro - n) with (size - (ro + n)) by lia.
  case Z.eqb_spec; intros Hz; cbn -[write_bytes].
  - rewrite Hz. split; [unfold kPipeCapacity; lia|done].
  - split; [unfold kPipeCapacity; lia|]. f_equal. rewrite Z.sub_0_r. symmetry.
    apply bytes_at_written. by rewrite bytes_at_zlen by lia.
Qed.

Lemma fill_pipe_queue bytes p :
  pipe_wf p -> pi_size p + zlen bytes <= kPipeCapacity ->
  pipe_wf (fill_pipe bytes p) /\ queue (fill_pipe bytes p) = queue p ++ bytes.
Proof.
  intros [Hro Hcap] Hn. unfold kPipeCapacity in *. unfold fill_pipe, pipe_wf, queue.
  assert (0 <= zlen bytes) by (unfold zlen; lia).
  assert (Ho : w64 (pi_size p + zlen bytes) = pi_size p + zlen bytes) by (apply w64_small; unfold u64, two64; lia).
  destruct p as [id op size ro d]; cbn -[write_bytes] in *. rewrite Ho.
  split; [unfold kPipeCapacity; lia|].
  replace (size + zlen bytes - ro) with (size - ro + zlen bytes) by lia.
  rewrite (bytes_at_split _ ro (size - ro)) by lia. f_equal.
  - apply bytes_at_ext. intros k Hk. rewrite write_bytes_get. bsimp. case_decide; [lia|done].
  - replace (ro + (size - ro)) with size by lia. replace (size - ro + zlen bytes - (size - ro)) with (zlen bytes) by lia.
    by apply bytes_at_written.
Qed.

(** ** Completed transfers *)

Section Wakes.
Context `{Machine}.

(** What no transfer touches. *)
Definition same_processes (m m' : UserspaceManager) : Prop :=
  processes_ m' = processes_ m /\ pcount_ m' = pcount_ m /\ tcount_ m' = tcount_ m /\
  k_vfs m' = k_vfs m /\ active_tid_ m' = active_tid_ m.

(** Thread [i], which waited on the pipe for [reason], is made runnable with its result. *)
Definition completes (id : Z) (reason : UserBlockReason) (i : nat) (t : UserThread) (rax rdx : Z)
    (m m' : UserspaceManager) : Prop :=
  uthreads_ m !! i = Some t /\ (i < tcount_ m)%nat /\ waits_on_pipe id t /\
  ut_block_reason t = reason /\ uthreads_ m' = <[i := wake (set_result rax rdx t)]> (uthreads_ m).

Inductive wake_step (id : Z) (m m' : UserspaceManager) : Prop :=
(** A read takes bytes from the front of the queue into the buffer of its thread. *)
| read_completes i t k p p' out :
    same_processes m m' ->
    completes id PipeReadWait i t (zlen out) kSyscallErrorNone m m' ->
    find_pipe m id = Some (k, p) -> queue p = out ++ queue p' ->
    out <> [] -> zlen out <= ut_wait_size t ->
    translate (ut_address_space_root t) (ut_wait_buffer t) <> 0 ->
    pipes_ m' = <[k := p']> (pipes_ m) ->
    k_memory m' = write_bytes (translate (ut_address_space_root t) (ut_wait_buffer t)) out (k_memory m) ->
    wake_step id m m'
(** A read ends with no bytes once no writer is left. *)
| read_ends i t :
    same_processes m m' ->
    completes id PipeReadWait i t 0 kSyscallErrorNone m m' ->
    pipe_has_live_writer m id = false ->
    pipes_ m' = pipes_ m -> k_memory m' = k_memory m ->
    wake_step id m m'
(** A write appends the first bytes of the buffer of its thread. *)
| write_completes i t k p p' bytes :
    same_processes m m' ->
    completes id PipeWriteWait i t (zlen bytes) kSyscallErrorNone m m' ->
    pipe_has_live_reader m id = true ->
    find_pipe m id = Some (k, p) -> queue p' = queue p ++ bytes ->
    bytes = bytes_at (sa_get (k_memory m))
              (translate (ut_address_space_root t) (ut_wait_buffer t)) (zlen bytes) ->
    bytes <> [] -> zlen bytes <= ut_wait_size t ->
    pipes_ m' = <[k := p']> (pipes_ m) -> k_memory m' = k_memory m ->
    wake_step id m m'
(** A write fails once no reader is left. *)
| write_breaks i t :
    same_processes m m' ->
    completes id PipeWriteWait i t 0 kSyscallErrorNotFound m m' ->
    pipe_has_live_reader m id = false ->
    pipes_ m' = pipes_ m -> k_memory m' = k_memory m ->
    wake_step id m m'.

Record pipes_ok (m : UserspaceManager) : Prop := {
  po_pipes : Forall pipe_wf (pipes_ m);
  po_waits : Forall (fun t => 0 <= ut_wait_size t) (uthreads_ m);
  po_length : length (uthreads_ m) = kMaxUserThreads;
  po_threads : (tcount_ m <= kMaxUserThreads)%nat
}.

Lemma transfer_size_bounds wanted available phys :
  0 < wanted -> 0 < available ->
  0 < transfer_size wanted available phys <= wanted /\ transfer_size wanted available phys <= available.
Proof.
  intros Hw Ha. unfold transfer_size, kPageSize.
  pose proof (Z.mod_pos_bound phys 4096 ltac:(lia)) as Hm.
  change (4096 - 1) with (Z.ones 12). rewrite Z.land_ones by lia. change (2 ^ 12) with 4096.
  repeat case Z.ltb_spec; lia.
Qed.

(** The two updates of a woken thread, as one. *)
Lemma woken_thread (f : UserThread -> UserThread) (l : list UserThread) i t :
  l !! i = Some t -> alter wake i (alter f i l) = <[i := wake (f t)]> l.
Proof.
  intros Hi. rewrite (alter_insert f _ _ t) by done. erewrite alter_insert; [by rewrite list_insert_insert_eq|].
  apply list_lookup_insert_eq. by eapply lookup_lt_Some.
Qed.

Lemma find_pipe_Some m id k p :
  find_pipe m id = Some (k, p) ->
  id <> 0 /\ pipes_ m !! k = Some p /\ pi_open p = true /\ pi_id p = id.
Proof.
  unfold find_pipe. case Z.eqb_spec; [done|]. intros Hid (? & [? ?] & _)%list_find_Some. done.
Qed.

(** The pipe stays where it was found when it is changed in place. *)
Lemma find_pipe_update m m' id k p p' :
  find_pipe m id = Some (k, p) -> pipes_ m' = <[k := p']> (pipes_ m) ->
  pi_open p' = pi_open p -> pi_id p' = pi_id p -> find_pipe m' id = Some (k, p').
Proof.
  unfold find_pipe. case Z.eqb_spec; [done|]. intros Hid (Hk & [Ho Hi] & Hfirst)%list_find_Some Heq Ho' Hi'.
  apply list_find_Some. rewrite Heq. split_and!.
  - apply list_lookup_insert_eq. by eapply lookup_lt_Some.
  - congruence.
  - congruence.
  - intros j y Hj Hlt. rewrite list_lookup_insert_ne in Hj by lia. by eapply Hfirst.
Qed.

Lemma consume_pipe_same n p : pi_open (consume_pipe n p) = pi_open p /\ pi_id (consume_pipe n p) = pi_id p.
Proof. unfold consume_pipe. destruct p; cbn -[write_bytes]. by repeat case_match. Qed.

Lemma pipes_ok_woken m m' i t pipes :
  pipes_ok m -> ut_wait_size t = 0 -> uthreads_ m' = <[i := t]> (uthreads_ m) ->
  tcount_ m' = tcount_ m -> pipes_ m' = pipes -> Forall pipe_wf pipes -> pipes_ok m'.
Proof.
  intros [Hp Hw Hl Ht] Hs Heq Hc Hp' Hwf. split.
  - by rewrite Hp'.
  - rewrite Heq. apply Forall_insert; [done|lia].
  - by rewrite Heq, length_insert.
  - by rewrite Hc.
Qed.

(** What a completed transfer leaves: a step, a good state, and the pipe in its place. *)
Definition completed (id : Z) (m m' : UserspaceManager) : Prop :=
  wake_step id m m' /\ pipes_ok m' /\ fst <$> find_pipe m' id = fst <$> find_pipe m id.

Lemma completed_quietly id m m' reason i t rax rdx :
  pipes_ok m -> same_processes m m' -> completes id reason i t rax rdx m m' ->
  pipes_ m' = pipes_ m -> k_memory m' = k_memory m ->
  reason = PipeReadWait /\ rax = 0 /\ rdx = kSyscallErrorNone /\ pipe_has_live_writer m id = false \/
  reason = PipeWriteWait /\ rax = 0 /\ rdx = kSyscallErrorNotFound /\ pipe_has_live_reader m id = false ->
  completed id m m'.
Proof.
  intros Hok Hs Hc Hp Hm Hcase. split_and!.
  - destruct Hcase as [(-> & -> & -> & ?)|(-> & -> & -> & ?)]; [by eapply read_ends|by eapply write_breaks].
  - destruct Hs as (_ & _ & Ht & _), Hc as (_ & _ & _ & _ & He).
    eapply pipes_ok_woken; [done| |done|done|done|rewrite ?Hp; apply Hok]. done.
  - unfold find_pipe. by rewrite Hp.
Qed.

Lemma completed_on_pipe id m m' i t k p p' reason n :
  pipes_ok m -> same_processes m m' -> completes id reason i t n kSyscallErrorNone m m' ->
  find_pipe m id = Some (k, p) -> pipe_wf p' -> pi_open p' = pi_open p /\ pi_id p' = pi_id p ->
  pipes_ m' = <[k := p']> (pipes_ m) -> wake_step id m m' -> completed id m m'.
Proof.
  intros Hok Hs Hc Hf Hwf [Ho Hi] Hp Hstep. split_and!; [done| |].
  - destruct Hs as (_ & _ & Ht & _), Hc as (_ & _ & _ & _ & He).
    eapply pipes_ok_woken; [done| |done|done|done|rewrite ?Hp; apply Forall_insert; [apply Hok|done]]. done.
  - by rewrite (find_pipe_update m m' id k p p'), Hf.
Qed.

(** The premises a waiting thread satisfies when its turn comes. *)
Definition waiting (id : Z) (reason : UserBlockReason) (i : nat) (t : UserThread)
    (m : UserspaceManager) : Prop :=
  uthreads_ m !! i = Some t /\ (i < tcount_ m)%nat /\ waits_on_pipe id t /\ ut_block_reason t = reason.

Lemma wait_size_pos m id reason i t :
  pipes_ok m -> waiting id reason i t m -> has_buffer t = true -> 0 < ut_wait_size t.
Proof.
  intros Hok (Hi & _) Hb. pose proof (po_waits m Hok) as Hw. rewrite Forall_lookup in Hw.
  specialize (Hw i t Hi). unfold has_buffer in Hb. bsimp. lia.
Qed.

Lemma pipe_now_found m id k p :
  find_pipe m id = Some (k, p) -> pipe_now m (fst <$> find_pipe m id) = Some p.
Proof. intros Hf. rewrite Hf. by apply find_pipe_Some in Hf as (_ & Hk & _). Qed.

Lemma found_pipe_wf m id k p : pipes_ok m -> find_pipe m id = Some (k, p) -> pipe_wf p.
Proof.
  intros Hok (_ & Hk & _)%find_pipe_Some. pose proof (po_pipes m Hok) as Hp. rewrite Forall_lookup in Hp. by eapply Hp.
Qed.

Lemma complete_read_step m m1 id i t :
  pipes_ok m -> waiting id PipeReadWait i t m ->
  complete_read (fst <$> find_pipe m id) id i t m = Some m1 ->
  completed id m (tally pipe_read_wakes (on_thread i wake m1)).
Proof.
  intros Hok Hw. pose proof Hw as (Hi & Hlt & Hwait & Hr).
  assert (Heof : (if pipe_has_live_writer m id then None
                  else Some (on_thread i (set_result 0 kSyscallErrorNone) m)) = Some m1 ->
                 completed id m (tally pipe_read_wakes (on_thread i wake m1))).
  { destruct (pipe_has_live_writer m id) eqn:Hlive; intros [= <-].
    eapply completed_quietly; [done|done| |done|done|by left].
    split_and!; [done..|]. by apply woken_thread. }
  unfold complete_read. destruct (find_pipe m id) as [[k p]|] eqn:Hf; [|exact Heof].
  pose proof (pipe_now_found m id k p Hf) as Hnow. rewrite Hf in Hnow.
  cbn [fmap option_fmap option_map fst] in Hnow |- *. rewrite Hnow.
  destruct (has_buffer t && (pi_read_offset p <? pi_size p)) eqn:Hb; [clear Heof|exact Heof]. bsimp.
  pose proof (found_pipe_wf _ _ _ _ Hok Hf) as Hpw. pose proof Hpw as [Hro Hcap]. unfold kPipeCapacity in Hcap.
  rewrite w64_small by (unfold u64, two64; lia).
  set (d := translate _ _). set (n := transfer_size _ _ _).
  destruct (transfer_size_bounds (ut_wait_size t) (pi_size p - pi_read_offset p) d) as [Hn1 Hn2];
    [by eapply wait_size_pos|lia|]. fold n in Hn1, Hn2.
  case Z.eqb_spec; [done|]. intros Hd. case Z.eqb_spec; [lia|]. intros _ [= <-].
  destruct (consume_pipe_queue n p Hpw ltac:(lia)) as [Hpw' Hq].
  set (out := bytes_at (sa_get (pi_data p)) (pi_read_offset p) n) in *.
  assert (Hout : zlen out = n) by (by apply bytes_at_zlen; lia).
  destruct (find_pipe_Some _ _ _ _ Hf) as (_ & Hk & _).
  eapply (completed_on_pipe id m _ i t k p (consume_pipe n p)); try done.
  - split_and!; [done..|]. by apply woken_thread.
  - apply consume_pipe_same.
  - cbn. by apply alter_insert.
  - eapply (read_completes id m _ i t k p (consume_pipe n p) out); try done.
    + split_and!; [done..|]. rewrite Hout. by apply woken_thread.
    + intros Ho. rewrite Ho in Hout. unfold zlen in Hout. simpl in Hout. lia.
    + lia.
    + cbn. by apply alter_insert.
Qed.

Lemma complete_write_step m m1 id i t :
  pipes_ok m -> waiting id PipeWriteWait i t m ->
  complete_write (fst <$> find_pipe m id) id i t m = Some m1 ->
  completed id m (tally pipe_write_wakes (on_thread i wake m1)).
Proof.
  intros Hok Hw. pose proof Hw as (Hi & Hlt & Hwait & Hr). unfold complete_write.
  destruct (pipe_has_live_reader m id) eqn:Hlive.
  2:{ intros [= <-]. eapply completed_quietly; [done|done| |done|done|by right].
      split_and!; [done..|]. by apply woken_thread. }
  destruct (find_pipe m id) as [[k p]|] eqn:Hf; [|done].
  pose proof (pipe_now_found m id k p Hf) as Hnow. rewrite Hf in Hnow.
  cbn [fmap option_fmap option_map fst] in Hnow |- *. rewrite Hnow.
  destruct (has_buffer t && (pi_size p <? kPipeCapacity)) eqn:Hb; [|done]. bsimp.
  pose proof (found_pipe_wf _ _ _ _ Hok Hf) as Hpw. pose proof Hpw as [Hro Hcap]. unfold kPipeCapacity in *.
  rewrite w64_small by (unfold u64, two64; lia).
  set (d := translate _ _). set (n := transfer_size _ _ _).
  destruct (transfer_size_bounds (ut_wait_size t) (1024 - pi_size p) d) as [Hn1 Hn2];
    [by eapply wait_size_pos|lia|]. fold n in Hn1, Hn2.
  case Z.eqb_spec; [done|]. intros Hd. case Z.eqb_spec; [lia|]. intros _ [= <-].
  set (bytes := bytes_at (sa_get (k_memory m)) d n).
  assert (Hbytes : zlen bytes = n) by (by apply bytes_at_zlen; lia).
  destruct (fill_pipe_queue bytes p Hpw) as [Hpw' Hq]; [unfold kPipeCapacity; lia|].
  destruct (find_pipe_Some _ _ _ _ Hf) as (_ & Hk & _).
  eapply (completed_on_pipe id m _ i t k p (fill_pipe bytes p)); try done.
  - split_and!; [done..|]. by apply woken_thread.
  - cbn -[fill_pipe]. by apply alter_insert.
  - eapply (write_completes id m _ i t k p (fill_pipe bytes p) bytes); try done.
    + split_and!; [done..|]. rewrite Hbytes. by apply woken_thread.
    + by rewrite Hbytes.
    + intros Ho. rewrite Ho in Hbytes. unfold zlen in Hbytes. simpl in Hbytes. lia.
    + lia.
    + cbn -[fill_pipe]. by apply alter_insert.
Qed.

(** ** Every wake is one waiter less *)

Definition blocked (id : Z) (m : UserspaceManager) : nat := length (filter (waits_on_pipe id) (threads m)).

Lemma wake_step_thread id m m' :
  wake_step id m m' ->
  exists reason i t rax rdx, completes id reason i t rax rdx m m' /\ same_processes m m'.
Proof. intros Hs. inversion Hs; do 5 eexists; split; eassumption. Qed.

Lemma wake_step_blocked id m m' : wake_step id m m' -> blocked id m = S (blocked id m').
Proof.
  intros (reason & i & t & rax & rdx & (Hi & Hlt & Hw & _ & He) & _ & _ & Ht & _)%wake_step_thread.
  unfold blocked, threads. rewrite Ht, He, take_insert_lt by lia.
  apply length_filter_insert with t; [by rewrite lookup_take_lt|done|by intros [? _]].
Qed.

Lemma wake_steps_blocked id n m m' :
  nsteps (wake_step id) n m m' -> (blocked id m = n + blocked id m')%nat.
Proof.
  revert m. induction n as [|n IH]; intros m Hs; inversion Hs as [|? ? y ? Hstep Hrest]; subst; [done|].
  rewrite (wake_step_blocked _ _ _ Hstep), (IH y Hrest). lia.
Qed.

Lemma blocked_bound id m : pipes_ok m -> (blocked id m <= kMaxUserThreads)%nat.
Proof.
  intros Hok. unfold blocked, threads. etrans; [apply length_filter|]. rewrite length_take.
  pose proof (po_threads m Hok). lia.
Qed.

(** ** One pass *)

(** A waiting read that can complete. *)
Definition read_ready (m : UserspaceManager) (id : Z) (t : UserThread) : Prop :=
  (exists k p, find_pipe m id = Some (k, p) /\ queue p <> [] /\ has_buffer t = true /\
               translate (ut_address_space_root t) (ut_wait_buffer t) <> 0) \/
  ((has_buffer t = false \/ forall k p, find_pipe m id = Some (k, p) -> queue p = []) /\
   pipe_has_live_writer m id = false).

(** A waiting write that can complete. *)
Definition write_ready (m : UserspaceManager) (id : Z) (t : UserThread) : Prop :=
  pipe_has_live_reader m id = false \/
  exists k p, find_pipe m id = Some (k, p) /\ pi_size p < kPipeCapacity /\ has_buffer t = true /\
              translate (ut_address_space_root t) (ut_wait_buffer t) <> 0.

Lemma queue_nil p : pipe_wf p -> queue p = [] <-> pi_size p <= pi_read_offset p.
Proof.
  intros Hwf. pose proof (queue_length p Hwf) as Hl. destruct (queue p); unfold zlen in Hl; simpl in Hl.
  - split; [lia|done].
  - split; [done|lia].
Qed.

Lemma read_ready_completes m id i t :
  pipes_ok m -> waiting id PipeReadWait i t m -> read_ready m id t ->
  is_Some (complete_read (fst <$> find_pipe m id) id i t m).
Proof.
  intros Hok Hw Hready. unfold complete_read.
  destruct (find_pipe m id) as [[k p]|] eqn:Hf.
  2:{ destruct Hready as [(k & p & ? & _)|[_ Hl]]; [congruence|]. simpl. rewrite Hl. eauto. }
  pose proof (pipe_now_found m id k p Hf) as Hnow. rewrite Hf in Hnow.
  cbn [fmap option_fmap option_map fst] in Hnow |- *. rewrite Hnow.
  pose proof (found_pipe_wf _ _ _ _ Hok Hf) as Hpw. pose proof (queue_nil p Hpw) as Hnil.
  destruct Hready as [(k' & p' & Hf' & Hq & Hb & Htr)|[Hcase Hl]].
  - rewrite Hf in Hf'. injection Hf' as <- <-. rewrite Hb. destruct (Z.ltb_spec (pi_read_offset p) (pi_size p)); [|by rewrite Hnil in Hq].
    rewrite (proj2 (Z.eqb_neq _ 0)) by done. cbn [andb]. case Z.eqb_spec; [|eauto].
    intros Hz. destruct Hpw as [Hro Hcap]. unfold kPipeCapacity in Hcap. rewrite w64_small in Hz by (unfold u64, two64; lia).
    pose proof (transfer_size_bounds (ut_wait_size t) (pi_size p - pi_read_offset p)
      (translate (ut_address_space_root t) (ut_wait_buffer t)) (wait_size_pos _ _ _ _ _ Hok Hw Hb) ltac:(lia)). lia.
  - assert (has_buffer t && (pi_read_offset p <? pi_size p) = false) as ->.
    { apply andb_false_iff. destruct Hcase as [?|Hall]; [by left|right]. apply Z.ltb_ge, Hnil. by eapply Hall. }
    rewrite Hl. eauto.
Qed.

Lemma write_ready_completes m id i t :
  pipes_ok m -> waiting id PipeWriteWait i t m -> write_ready m id t ->
  is_Some (complete_write (fst <$> find_pipe m id) id i t m).
Proof.
  intros Hok Hw Hready. unfold complete_write.
  destruct (pipe_has_live_reader m id) eqn:Hl; [|eauto].
  destruct Hready as [?|(k & p & Hf & Hsz & Hb & Htr)]; [congruence|].
  pose proof (pipe_now_found m id k p Hf) as Hnow. rewrite Hf in Hnow |- *.
  cbn [fmap option_fmap option_map fst] in Hnow |- *. rewrite Hnow, Hb, (proj2 (Z.ltb_lt _ _)) by done.
  rewrite (proj2 (Z.eqb_neq _ 0)) by done. cbn [andb]. case Z.eqb_spec; [|eauto]. intros Hz.
  destruct (found_pipe_wf _ _ _ _ Hok Hf) as [Hro Hcap]. unfold kPipeCapacity in *.
  rewrite w64_small in Hz by (unfold u64, two64; lia).
  pose proof (transfer_size_bounds (ut_wait_size t) (1024 - pi_size p)
    (translate (ut_address_space_root t) (ut_wait_buffer t)) (wait_size_pos _ _ _ _ _ Hok Hw Hb) ltac:(lia)). lia.
Qed.

(** No transfer that the flags let through could complete for thread [i]. *)
Definition idle_at (id : Z) (readers writers : bool) (m : UserspaceManager) (i : nat) : Prop :=
  forall t, is_Some (find_runnable m (ut_pid t)) ->
    (readers = true -> waiting id PipeReadWait i t m -> ~ read_ready m id t) /\
    (writers = true -> waiting id PipeWriteWait i t m -> ~ write_ready m id t).

Definition progress (s : wake_scan) : bool := sc_read s || sc_write s.

(** The body of the inner loop: nothing, because nothing can complete, or one step. *)
Lemma wake_pipe_waiter_cases id readers writers i s :
  let m := sc_manager s in
  let s' := wake_pipe_waiter (fst <$> find_pipe m id) id readers writers i s in
  pipes_ok m -> (i < tcount_ m)%nat ->
  s' = s /\ idle_at id readers writers m i \/
  completed id m (sc_manager s') /\ sc_woken s' = inc64 (sc_woken s) /\ progress s' = true.
Proof.
  intros m s' Hok Hlt. subst s'. unfold wake_pipe_waiter. fold m.
  assert (Hidle : (forall t reason, waiting id reason i t m -> is_Some (find_runnable m (ut_pid t)) ->
                     reason <> PipeReadWait /\ reason <> PipeWriteWait) -> idle_at id readers writers m i).
  { intros Hn t Hr. split; intros _ Hw; by destruct (Hn _ _ Hw Hr). }
  destruct (uthreads_ m !! i) as [t|] eqn:Hi.
  2:{ left. split; [done|]. apply Hidle. intros t ? (? & _). congruence. }
  destruct (decide (waits_on_pipe id t)) as [Hwait|Hwait].
  2:{ left. split; [done|]. apply Hidle. intros t' ? (? & _ & ? & _). congruence. }
  destruct (find_runnable m (ut_pid t)) as [q|] eqn:Hrun.
  2:{ left. split; [done|]. apply Hidle. intros t' ? (? & _). assert (t' = t) as -> by congruence.
      rewrite Hrun. by intros [? ?]. }
  destruct (ut_block_reason t) eqn:Hr;
    try (left; split; [done|]; apply Hidle; intros t' ? (? & _ & _ & <-); by assert (t' = t) as -> by congruence; rewrite Hr).
  - assert (Hw : waiting id PipeReadWait i t m) by done.
    destruct (if readers then _ else _) as [m1|] eqn:Hc; [right|left].
    + destruct readers; [|done]. split; [by apply (complete_read_step m m1 id i t)|done].
    + split; [done|]. intros t' _. split; intros -> (? & _ & _ & Hr'); assert (t' = t) as -> by congruence; [|congruence].
      intros Hready. destruct (read_ready_completes m id i t Hok Hw Hready). congruence.
  - assert (Hw : waiting id PipeWriteWait i t m) by done.
    destruct (if writers then _ else _) as [m1|] eqn:Hc; [right|left].
    + destruct writers; [|done]. split_and!; [by apply (complete_write_step m m1 id i t)|done|].
      unfold progress. simpl. apply orb_true_r.
    + split; [done|]. intros t' _. split; intros -> (? & _ & _ & Hr'); assert (t' = t) as -> by congruence; [congruence|].
      intros Hready. destruct (write_ready_completes m id i t Hok Hw Hready). congruence.
Qed.

(** A run of [n] wakes from [m], counted from [woken]. *)
Definition wake_run (id : Z) (n : nat) (m : UserspaceManager) (woken : Z)
    (m' : UserspaceManager) (woken' : Z) : Prop :=
  nsteps (wake_step id) n m m' /\ pipes_ok m' /\ fst <$> find_pipe m' id = fst <$> find_pipe m id /\
  tcount_ m' = tcount_ m /\ woken' = w64 (woken + Z.of_nat n).

Lemma wake_run_0 id m woken : pipes_ok m -> u64 woken -> wake_run id 0 m woken m woken.
Proof. intros Hok Hu. split_and!; [constructor|done..|]. rewrite Z.add_0_r, w64_small; done. Qed.

Lemma inc64_w64 z n : inc64 (w64 (z + Z.of_nat n)) = w64 (z + Z.of_nat (S n)).
Proof. word_lia. Qed.

Lemma wake_run_S id n m woken m1 woken1 m2 :
  wake_run id n m woken m1 woken1 -> completed id m1 m2 -> wake_run id (S n) m woken m2 (inc64 woken1).
Proof.
  intros (Hs & _ & Hf & Ht & ->) (Hstep & Hok & Hf'). split_and!.
  - by eapply nsteps_r.
  - done.
  - congruence.
  - apply wake_step_thread in Hstep as (? & ? & ? & ? & ? & _ & _ & _ & Ht' & _). congruence.
  - apply inc64_w64.
Qed.

Lemma wake_run_trans id n n' m woken m1 woken1 m2 woken2 :
  wake_run id n m woken m1 woken1 -> wake_run id n' m1 woken1 m2 woken2 ->
  wake_run id (n + n') m woken m2 woken2.
Proof.
  intros (Hs & _ & Hf & Ht & ->) (Hs' & Hok & Hf' & Ht' & ->). split_and!.
  - by eapply nsteps_trans.
  - done.
  - congruence.
  - congruence.
  - word_lia.
Qed.

Lemma wake_pass_run id readers writers m woken :
  pipes_ok m -> u64 woken ->
  let s := wake_pass (fst <$> find_pipe m id) id readers writers m woken in
  exists n, wake_run id n m woken (sc_manager s) (sc_woken s) /\
    if progress s then (0 < n)%nat
    else n = O /\ sc_manager s = m /\ forall i, (i < tcount_ m)%nat -> idle_at id readers writers m i.
Proof.
  intros Hok Hu. unfold wake_pass.
  pose (P k s := exists n, wake_run id n m woken (sc_manager s) (sc_woken s) /\
    if progress s then (0 < n)%nat
    else n = O /\ s = mkScan m woken false false /\
         forall i, (i < k)%nat -> idle_at id readers writers m i).
  assert (HP : P (tcount_ m) (for_each (tcount_ m)
    (wake_pipe_waiter (fst <$> find_pipe m id) id readers writers) (mkScan m woken false false))).
  { apply for_each_inv.
    - exists O. split; [by apply wake_run_0|]. split_and!; [done..|]. intros i Hi. lia.
    - intros i s Hi (n & Hrun & Hprog). pose proof Hrun as (_ & Hok' & Hf & Ht & _). rewrite <-Hf.
      destruct (wake_pipe_waiter_cases id readers writers i s Hok' ltac:(lia)) as [[-> Hidle]|(Hc & Hw & Hp)].
      + exists n. split; [done|]. destruct (progress s); [done|]. destruct Hprog as (-> & Hs & Hall).
        split_and!; [done..|]. intros j Hj. destruct (decide (j = i)) as [->|]; [|apply Hall; lia].
        by rewrite Hs in Hidle.
      + exists (S n). rewrite Hp. split; [|lia]. rewrite Hw. by eapply wake_run_S. }
  destruct HP as (n & Hrun & Hprog). exists n. split; [done|].
  destruct (progress _); [done|]. destruct Hprog as (-> & -> & Hall). done.
Qed.

(** ** The rounds *)

Lemma wake_run_blocked id n m woken m' woken' :
  wake_run id n m woken m' woken' -> (blocked id m = n + blocked id m')%nat.
Proof. intros (Hs & _). by apply wake_steps_blocked. Qed.

Lemma wake_rounds_run rounds id readers writers m woken :
  pipes_ok m -> u64 woken -> (blocked id m < rounds)%nat ->
  let '(m', woken') := wake_rounds rounds (fst <$> find_pipe m id) id readers writers m woken in
  exists n readers' writers', wake_run id n m woken m' woken' /\
    (readers = true -> readers' = true) /\ (writers = true -> writers' = true) /\
    forall i, (i < tcount_ m')%nat -> idle_at id readers' writers' m' i.
Proof.
  revert readers writers m woken.
  induction rounds as [|rounds IH]; intros readers writers m woken Hok Hu Hlt; [lia|].
  cbn [wake_rounds]. pose proof (wake_pass_run id readers writers m woken Hok Hu) as (n & Hrun & Hprog).
  set (s := wake_pass _ _ _ _ _ _) in *. unfold progress in Hprog.
  pose proof Hrun as (_ & Hok' & Hf & Ht & Hw). destruct (sc_read s || sc_write s).
  - pose proof (wake_run_blocked _ _ _ _ _ _ Hrun) as Hb. rewrite <-Hf.
    specialize (IH (readers || sc_write s) (writers || sc_read s) (sc_manager s) (sc_woken s) Hok').
    destruct (wake_rounds _ _ _ _ _ _) as [m' woken'].
    destruct IH as (n' & r' & w' & Hrun' & Hr & Hwr & Hidle); [rewrite Hw; apply w64_range|lia|].
    exists (n + n')%nat, r', w'. split_and!; [by eapply wake_run_trans| | |done].
    + intros ->. by apply Hr.
    + intros ->. by apply Hwr.
  - destruct Hprog as (-> & Hm & Hidle). exists O, readers, writers. rewrite Hm in *. done.
Qed.

(** [wake_pipe_waiters] from a good state: a counted run after which nothing that was
    asked for is left. *)
Lemma wake_pipe_waiters_spec id readers writers m :
  pipes_ok m ->
  let '(m', woken) := wake_pipe_waiters id readers writers m in
  wake_run id (Z.to_nat woken) m 0 m' woken /\ 0 <= woken <= Z.of_nat kMaxUserThreads /\
  (id <> 0 -> forall i, (i < tcount_ m')%nat -> idle_at id readers writers m' i).
Proof.
  intros Hok. unfold wake_pipe_waiters. case Z.eqb_spec; intros Hid.
  { split_and!; [by apply wake_run_0|done|unfold kMaxUserThreads; lia|done]. }
  assert (Hb : (blocked id m <= tcount_ m)%nat).
  { unfold blocked, threads. etrans; [apply length_filter|]. rewrite length_take. lia. }
  pose proof (wake_rounds_run (tcount_ m * 2 + 1) id readers writers m 0 Hok ltac:(done) ltac:(lia)) as Hr.
  destruct (wake_rounds _ _ _ _ _ _ _) as [m' woken]. destruct Hr as (n & r' & w' & Hrun & Hr & Hw & Hidle).
  pose proof (wake_run_blocked _ _ _ _ _ _ Hrun) as Hn. pose proof (blocked_bound id m Hok) as Hbound.
  pose proof Hrun as (_ & _ & _ & _ & Hwoken). unfold kMaxUserThreads in *.
  rewrite Z.add_0_l, w64_small in Hwoken by (unfold u64, two64; lia).
  split_and!; [|lia..|].
  - by replace (Z.to_nat woken) with n by lia.
  - intros _ i Hi t Hrun'. destruct (Hidle i Hi t Hrun') as [H1 H2]. split; intros ?; [by apply H1, Hr|by apply H2, Hw].
Qed.

(** ** Reading and writing *)

Lemma pipes_ok_pipe m k p p' m' :
  pipes_ok m -> pipes_ m !! k = Some p -> pipe_wf p' -> m' = on_pipe k (fun _ => p') m -> pipes_ok m'.
Proof.
  intros [Hp Hw Hl Ht] Hk Hwf ->. split; [|done..]. cbn. rewrite (alter_insert _ _ _ p) by done.
  by apply Forall_insert.
Qed.

Lemma on_pipe_const k f p m : pipes_ m !! k = Some p -> on_pipe k f m = on_pipe k (fun _ => f p) m.
Proof. intros Hk. unfold on_pipe, setf. cbn. by rewrite !(alter_insert _ _ _ p) by done. Qed.

(** The state between the transfer itself and the wakes it causes. *)
Lemma read_pipe_spec m i id size k p :
  pipes_ok m -> find_pipe m id = Some (k, p) -> 0 < size -> queue p <> [] ->
  exists p1 m2 woken,
    read_pipe i id size m = (count_read i (zlen (take (Z.to_nat size) (queue p))) m2, take (Z.to_nat size) (queue p)) /\
    pipe_wf p1 /\ queue p1 = drop (Z.to_nat size) (queue p) /\
    wake_pipe_waiters id false true (on_pipe k (fun _ => p1) m) = (m2, woken).
Proof.
  intros Hok Hf Hsize Hq. pose proof (found_pipe_wf _ _ _ _ Hok Hf) as Hwf. pose proof Hwf as [Hro Hcap].
  destruct (find_pipe_Some _ _ _ _ Hf) as (_ & Hk & _). pose proof (queue_nil p Hwf) as Hnil.
  pose proof (queue_length p Hwf) as Hlen. unfold read_pipe. rewrite Hf.
  destruct (Z.leb_spec (pi_size p) (pi_read_offset p)); [by rewrite Hnil in Hq|].
  unfold kPipeCapacity in Hcap. rewrite w64_small by (unfold u64, two64; lia).
  set (n := if size <? _ then _ else _).
  assert (Hn : n = Z.min size (pi_size p - pi_read_offset p)) by (unfold n; case Z.ltb_spec; lia).
  destruct (consume_pipe_queue n p Hwf ltac:(lia)) as [Hwf' Hq'].
  set (out := bytes_at _ _ _) in *. assert (Hout : length out = Z.to_nat n) by apply bytes_at_length.
  assert (Ht : take (Z.to_nat size) (queue p) = out /\ drop (Z.to_nat size) (queue p) = queue (consume_pipe n p)).
  { unfold zlen in Hlen. destruct (decide (size <= pi_size p - pi_read_offset p)).
    - rewrite Hq', take_app_length', drop_app_length' by lia. done.
    - assert (queue (consume_pipe n p) = []) as Hnone.
      { apply length_zero_iff_nil. rewrite Hq', length_app in Hlen. lia. }
      rewrite take_ge, drop_ge by lia. split; [by rewrite Hq', Hnone, app_nil_r|done]. }
  destruct Ht as [-> ->]. exists (consume_pipe n p). rewrite (on_pipe_const _ _ p) by done.
  destruct (wake_pipe_waiters id false true _) as [m2 woken] eqn:Hwake. exists m2, woken. split_and!; [|done..].
  cbn [fst]. do 2 f_equal. unfold zlen. rewrite Hout. lia.
Qed.

Lemma write_pipe_spec m i id buffer k p :
  pipes_ok m -> find_pipe m id = Some (k, p) -> pipe_has_live_reader m id = true ->
  zlen (queue p) < kPipeCapacity ->
  let n := Z.min (zlen buffer) (kPipeCapacity - zlen (queue p)) in
  exists p1 m2 woken,
    write_pipe i id buffer m = (count_write i n m2, n) /\
    pipe_wf p1 /\ queue p1 = queue p ++ take (Z.to_nat n) buffer /\
    wake_pipe_waiters id true false (on_pipe k (fun _ => p1) m) = (m2, woken).
Proof.
  intros Hok Hf Hlive Hroom. pose proof (found_pipe_wf _ _ _ _ Hok Hf) as Hwf. pose proof Hwf as [Hro Hcap].
  destruct (find_pipe_Some _ _ _ _ Hf) as (_ & Hk & _). pose proof (queue_length p Hwf) as Hlen.
  rewrite Hro, Z.sub_0_r in Hlen. intros n. unfold write_pipe. rewrite Hlive, Hf. cbn [negb].
  destruct (Z.leb_spec kPipeCapacity (pi_size p)); [lia|]. assert (0 <= zlen buffer) by (unfold zlen; lia).
  unfold kPipeCapacity in *. rewrite w64_small by (unfold u64, two64; lia).
  assert ((if zlen buffer <? 1024 - pi_size p then zlen buffer else 1024 - pi_size p) = n) as ->
    by (unfold n; case Z.ltb_spec; lia).
  assert (zlen (take (Z.to_nat n) buffer) = n) by (unfold zlen in *; rewrite length_take; lia).
  destruct (fill_pipe_queue (take (Z.to_nat n) buffer) p Hwf) as [Hwf' Hq]; [unfold kPipeCapacity; lia|].
  exists (fill_pipe (take (Z.to_nat n) buffer) p). rewrite (on_pipe_const _ _ p) by done.
  destruct (wake_pipe_waiters id true false _) as [m2 woken] eqn:Hwake. by exists m2, woken.
Qed.

(** C13. [wake_pipe_waiters] only completes transfers, one for each thread it reports as
    woken: reads take bytes from the front of the pipe's queue into the reader's
    memory, writes append bytes of the writer's memory, a read ends when no writer
    is left and a write fails when no reader is.  Its rounds are enough: afterwards
    no thread of a runnable process is left waiting for a transfer, of a kind it was
    asked to wake, that could complete. *)
Theorem wake_pipe_waiters_completes_transfers id readers writers m m' woken :
  pipes_ok m -> id <> 0 -> wake_pipe_waiters id readers writers m = (m', woken) ->
  nsteps (wake_step id) (Z.to_nat woken) m m' /\ pipes_ok m' /\
  forall i t, is_Some (find_runnable m' (ut_pid t)) ->
    (readers = true -> waiting id PipeReadWait i t m' -> ~ read_ready m' id t) /\
    (writers = true -> waiting id PipeWriteWait i t m' -> ~ write_ready m' id t).
Proof.
  intros Hok Hid Heq. pose proof (wake_pipe_waiters_spec id readers writers m Hok) as Hs.
  rewrite Heq in Hs. destruct Hs as ((Hsteps & Hok' & _) & _ & Hidle). split_and!; [done..|].
  intros i t Hr. split; intros Hb Hw; pose proof Hw as (_ & Hi & _); by apply (Hidle Hid i Hi t Hr).
Qed.

Context `{Kernel} `{Terminal}.

(** A pipe is a bounded queue for [read_file] and [write_file]: what the claim below says. *)
Definition reads_front (pid fd i : _) (id : Z) (k : nat) (p : Pipe) (m : UserspaceManager) (t : tty) : Prop :=
  (queue p = [] -> forall size, 0 < size -> read_file pid fd size m t = (m, t, [])) /\
  (queue p <> [] -> forall size, 0 < size ->
   let out := take (Z.to_nat size) (queue p) in
   exists p1 m2, read_file pid fd size m t = (count_read i (zlen out) m2, t, out) /\
     pipe_wf p1 /\ queue p1 = drop (Z.to_nat size) (queue p) /\
     rtc (wake_step id) (on_pipe k (fun _ => p1) m) m2).

Definition writes_back (pid fd i : _) (id : Z) (k : nat) (p : Pipe) (m : UserspaceManager) (t : tty) : Prop :=
  (pipe_has_live_reader m id = false \/ zlen (queue p) = kPipeCapacity ->
   forall buffer, buffer <> [] -> write_file pid fd buffer m t = (m, t, 0)) /\
  (pipe_has_live_reader m id = true -> zlen (queue p) < kPipeCapacity -> forall buffer, buffer <> [] ->
   let n := Z.min (zlen buffer) (kPipeCapacity - zlen (queue p)) in
   exists p1 m2, write_file pid fd buffer m t = (count_write i n m2, t, n) /\
     pipe_wf p1 /\ queue p1 = queue p ++ take (Z.to_nat n) buffer /\
     rtc (wake_step id) (on_pipe k (fun _ => p1) m) m2).

Lemma woken_rtc id readers writers m k p p1 m2 woken :
  pipes_ok m -> pipes_ m !! k = Some p -> pipe_wf p1 ->
  wake_pipe_waiters id readers writers (on_pipe k (fun _ => p1) m) = (m2, woken) ->
  rtc (wake_step id) (on_pipe k (fun _ => p1) m) m2.
Proof.
  intros Hok Hk Hwf Hwake. pose proof (pipes_ok_pipe m k p p1 _ Hok Hk Hwf eq_refl) as Hok'.
  pose proof (wake_pipe_waiters_spec id readers writers _ Hok') as Hs. rewrite Hwake in Hs.
  destruct Hs as ((Hsteps & _) & _). by eapply rtc_nsteps_2.
Qed.

Lemma read_file_pipe pid fd size m t i process s d :
  find_alive m pid = Some (i, process) -> find_fd m i fd = Some (s, d) -> fd_kind d = PipeRead -> size <> 0 ->
  read_file pid fd size m t = (let '(m, bytes) := read_pipe i (fd_pipe_id d) size m in (m, t, bytes)).
Proof.
  intros Hp Hfd Hk Hs. unfold read_file, transfer_fd. rewrite Hp. cbn. rewrite (proj2 (Z.eqb_neq _ _) Hs), Hfd.
  cbn. by rewrite Hk.
Qed.

Lemma write_file_pipe pid fd buffer m t i process s d :
  find_alive m pid = Some (i, process) -> find_fd m i fd = Some (s, d) -> fd_kind d = PipeWrite -> buffer <> [] ->
  write_file pid fd buffer m t = (let '(m, n) := write_pipe i (fd_pipe_id d) buffer m in (m, t, n)).
Proof.
  intros Hp Hfd Hk Hs. unfold write_file, transfer_fd. rewrite Hp. cbn.
  rewrite (proj2 (Z.eqb_neq _ _)), Hfd by (unfold zlen; destruct buffer; [done|simpl; lia]). cbn. by rewrite Hk.
Qed.

(** C31. A pipe is a first-in first-out queue of at most 1024 bytes for the processes that
    hold its ends.  Reading gives the first bytes queued, as many as asked for and
    available, and leaves the rest; writing appends as many bytes of the buffer as
    there is room for, and reports their number; both then complete transfers that
    were waiting.  Reading an empty pipe gives nothing, and writing to a full pipe
    or to one without readers writes nothing. *)
Theorem pipe_is_a_fifo pid fd m t i process s d k p :
  pipes_ok m -> find_alive m pid = Some (i, process) -> find_fd m i fd = Some (s, d) ->
  find_pipe m (fd_pipe_id d) = Some (k, p) ->
  zlen (queue p) <= kPipeCapacity /\
  (fd_kind d = PipeRead -> reads_front pid fd i (fd_pipe_id d) k p m t) /\
  (fd_kind d = PipeWrite -> writes_back pid fd i (fd_pipe_id d) k p m t).
Proof.
  intros Hok Hp Hfd Hf. pose proof (found_pipe_wf _ _ _ _ Hok Hf) as Hwf. pose proof Hwf as [Hro Hcap].
  destruct (find_pipe_Some _ _ _ _ Hf) as (_ & Hk & _).
  pose proof (queue_length p Hwf) as Hlen. rewrite Hro, Z.sub_0_r in Hlen.
  split; [lia|]. split; intros Hkind; split.
  - intros Hnil size Hs. rewrite (read_file_pipe _ _ _ _ _ i process s d) by (done || lia).
    unfold read_pipe. rewrite Hf. apply queue_nil in Hnil as Hz; [|done]. by rewrite (proj2 (Z.leb_le _ _)).
  - intros Hq size Hs. destruct (read_pipe_spec m i (fd_pipe_id d) size k p) as (p1 & m2 & w & Hr & Hwf1 & Hq1 & Hwk); [done..|].
    exists p1, m2. split_and!; [|done|done|by eapply woken_rtc].
    by rewrite (read_file_pipe _ _ _ _ _ i process s d), Hr by (done || lia).
  - intros Hcase buffer Hb. rewrite (write_file_pipe _ _ _ _ _ i process s d) by done.
    unfold write_pipe. rewrite Hf. destruct (pipe_has_live_reader m (fd_pipe_id d)); [|done].
    destruct Hcase as [?|Hfull]; [done|]. cbn [negb]. by rewrite (proj2 (Z.leb_le _ _)) by lia.
  - intros Hlive Hroom buffer Hb. destruct (write_pipe_spec m i (fd_pipe_id d) buffer k p) as (p1 & m2 & w & Hr & Hwf1 & Hq1 & Hwk); [done..|].
    exists p1, m2. split_and!; [|done|done|by eapply woken_rtc].
    by rewrite (write_file_pipe _ _ _ _ _ i process s d), Hr by done.
Qed.

End Wakes.

(** ** Concrete runs *)

#[local] Instance pipe_wf_dec p : Decision (pipe_wf p).
Proof. unfold pipe_wf. apply _. Defined.

(** A good state, checked by evaluation. *)
Lemma pipes_ok_check m :
  forallb (fun p => bool_decide (pipe_wf p)) (pipes_ m) &&
  forallb (fun t => 0 <=? ut_wait_size t) (uthreads_ m) &&
  (length (uthreads_ m) =? kMaxUserThreads)%nat && (tcount_ m <=? kMaxUserThreads)%nat = true ->
  pipes_ok m.
Proof.
  rewrite !andb_true_iff, !forallb_forall. intros [[[Hp Hw] Hl] Ht]. split.
  - apply Forall_forall. intros p Hin. eapply bool_decide_eq_true, Hp. by apply list_elem_of_In.
  - apply Forall_forall. intros t Hin. apply Z.leb_le, Hw. by apply list_elem_of_In.
  - by apply Nat.eqb_eq.
  - by apply Nat.leb_le.
Qed.

(** The waiting child, once two bytes have been written. *)
Definition demo_filled : UserspaceManager :=
  on_pipe 0 (fill_pipe [10; 11]) demo_waiting.

Lemma wake_pipe_waiters_completes_transfers_witness :
  (wake_pipe_waiters 1 true false demo_filled).2 = 1 /\
  nsteps (wake_step 1) 1 demo_filled (wake_pipe_waiters 1 true false demo_filled).1.
Proof.
  split; [vm_compute; reflexivity|].
  apply (wake_pipe_waiters_completes_transfers 1 true false demo_filled
    (wake_pipe_waiters 1 true false demo_filled).1 1).
  - apply pipes_ok_check. vm_compute. reflexivity.
  - lia.
  - apply pair_snd. vm_compute. reflexivity.
Defined.

(** The reader of the pipe is the descriptor 0 of the second process. *)
Definition demo_full_pipe : Pipe := default Pipe0 (pipes_ demo_filled !! 0%nat).
Definition demo_reader : Process := default (demo_process "none" 0) (processes_ demo_filled !! 1%nat).
Definition demo_stdin : FileDescriptor := default FileDescriptor0 (pr_file_descriptors demo_reader !! 0%nat).

Lemma pipe_is_a_fifo_witness :
  zlen (queue demo_full_pipe) = 2 /\ reads_front 2 0 1 1 0 demo_full_pipe demo_filled demo_tty.
Proof.
  split; [vm_compute; reflexivity|].
  apply (pipe_is_a_fifo 2 0 demo_filled demo_tty 1 demo_reader 0 demo_stdin 0 demo_full_pipe).
  - apply pipes_ok_check. vm_compute. reflexivity.
  - vm_compute. reflexivity.
  - vm_compute. reflexivity.
  - vm_compute. reflexivity.
  - vm_compute. reflexivity.
Defined.
