(* ===== verification/UserSwitch.v ===== *)
(** * Switching between user threads (kernel/src/interrupts/exceptions.cpp)

    What the interrupt entry does with the frame of the interrupted thread: the
    registers are saved in the thread that leaves the processor and replaced by
    those of the thread that is chosen next, on a yield, on a timer tick, on a
    system call that has to wait and on an exit.  The processor is its frame and
    the root of the address space that is loaded. *)

From stdpp Require Import strings.
From S2P Require Import Prelude Path Vfs Userspace UserFiles.
#[local] Open Scope Z_scope.

Record ExceptionFrame := mkFrame {
  f_r15 : Z; f_r14 : Z; f_r13 : Z; f_r12 : Z; f_r11 : Z; f_r10 : Z; f_r9 : Z; f_r8 : Z;
  f_rbp : Z; f_rdi : Z; f_rsi : Z; f_rdx : Z; f_rcx : Z; f_rbx : Z; f_rax : Z;
  f_vector : Z; f_error : Z;
  f_rip : Z; f_cs : Z; f_rflags : Z; f_rsp : Z; f_ss : Z
}.
#[export] Instance ExceptionFrame_eta : Eta ExceptionFrame := fun r =>
  mkFrame (f_r15 r) (f_r14 r) (f_r13 r) (f_r12 r) (f_r11 r) (f_r10 r) (f_r9 r) (f_r8 r)
    (f_rbp r) (f_rdi r) (f_rsi r) (f_rdx r) (f_rcx r) (f_rbx r) (f_rax r) (f_vector r) (f_error r)
    (f_rip r) (f_cs r) (f_rflags r) (f_rsp r) (f_ss r).

Record Cpu := mkCpu { cpu_frame : ExceptionFrame; cpu_cr3 : Z }.
#[export] Instance Cpu_eta : Eta Cpu := fun r => mkCpu (cpu_frame r) (cpu_cr3 r).

Definition save_user_registers (f : ExceptionFrame) (t : UserThread) : UserThread :=
  t <| ut_r15 := f_r15 f |> <| ut_r14 := f_r14 f |> <| ut_r13 := f_r13 f |> <| ut_r12 := f_r12 f |>
    <| ut_r11 := f_r11 f |> <| ut_r10 := f_r10 f |> <| ut_r9 := f_r9 f |> <| ut_r8 := f_r8 f |>
    <| ut_rbp := f_rbp f |> <| ut_rdi := f_rdi f |> <| ut_rsi := f_rsi f |> <| ut_rdx := f_rdx f |>
    <| ut_rcx := f_rcx f |> <| ut_rbx := f_rbx f |> <| ut_rax := f_rax f |> <| ut_rflags := f_rflags f |>.

Definition restore_user_registers (t : UserThread) (f : ExceptionFrame) : ExceptionFrame :=
  f <| f_r15 := ut_r15 t |> <| f_r14 := ut_r14 t |> <| f_r13 := ut_r13 t |> <| f_r12 := ut_r12 t |>
    <| f_r11 := ut_r11 t |> <| f_r10 := ut_r10 t |> <| f_r9 := ut_r9 t |> <| f_r8 := ut_r8 t |>
    <| f_rbp := ut_rbp t |> <| f_rdi := ut_rdi t |> <| f_rsi := ut_rsi t |> <| f_rdx := ut_rdx t |>
    <| f_rcx := ut_rcx t |> <| f_rbx := ut_rbx t |> <| f_rax := ut_rax t |>.

Definition from_user (f : ExceptionFrame) : bool := negb (Z.land (f_cs f) 3 =? 0).

Definition kSyscallErrorWouldBlock : Z := 4.

Section Switch.
Context `{Machine}.

(** The frame and the address space of the thread that runs next. *)
Definition load_thread (t : UserThread) (next : UserLaunchContext) (c : Cpu) : Cpu :=
  mkCpu (restore_user_registers t (cpu_frame c)
           <| f_rip := lc_rip next |> <| f_rsp := lc_rsp next |> <| f_rflags := lc_rflags next |>
           <| f_cs := lc_cs next |> <| f_ss := lc_ss next |>)
        (lc_cr3 next).

(** The registers of the interrupted thread are kept in its record. *)
Definition save_frame (tid : Z) (f : ExceptionFrame) (m : UserspaceManager) : UserspaceManager * bool :=
  let '(m, ok) := save_active_thread_frame (f_rip f) (f_rsp f) m in
  if negb ok then (m, false)
  else (match find_thread m tid with
        | Some (k, _) => on_thread k (save_user_registers f) m
        | None => m
        end, true).

(** [yield_user_thread_from_frame], and with [preempted] [preempt_user_thread_from_frame]. *)
Definition switch_from_frame (preempted : bool) (c : Cpu) (m : UserspaceManager)
  : UserspaceManager * Cpu * bool :=
  if negb (from_user (cpu_frame c)) then (m, c, false)
  else
    let tid := current_tid m in
    if tid =? 0 then (m, c, false)
    else
      let '(m, ok) := save_frame tid (cpu_frame c) m in
      if negb ok then (m, c, false)
      else
        let '(m, ok) := mark_active_thread_runnable m in
        if negb ok then (m, c, false)
        else
          match select_next_runnable_thread m with
          | (m, None) => ((activate_thread tid m).1, c, false)
          | (m, Some next) =>
            if lc_tid next =? tid then ((activate_thread tid m).1, c, false)
            else
              let '(m, ok) := activate_thread (lc_tid next) m in
              if negb ok then ((activate_thread tid m).1, c, false)
              else
                let m := if preempted then (note_user_preempt_switch tid (lc_tid next) m).1 else m in
                match find_thread m (lc_tid next) with
                | None => ((activate_thread tid m).1, c, false)
                | Some (_, t) => (m, load_thread t next c, true)
                end
          end.

Definition yield_user_thread_from_frame := switch_from_frame false.
Definition preempt_user_thread_from_frame := switch_from_frame true.

(** The thread that was about to wait goes on, because nothing else can run. *)
Definition undo_block (with_tick : bool) (t : UserThread) : UserThread :=
  t <| ut_state := UtRunning |> <| ut_block_reason := NotBlocked |> <| ut_wait_pipe_id := 0 |>
    <| ut_wait_process_id := 0 |> <| ut_wait_wake_tick ::= fun w => if with_tick then 0 else w |>
    <| ut_wait_fd := 0 |> <| ut_wait_buffer := 0 |> <| ut_wait_size := 0 |>.

(** The part the waiting system calls share: another thread is chosen, the current
    one is saved with the result [rdx] and blocked by [block], and the other one is
    loaded; [gate] is whether the preemption gate is brought up to date, [timer] is
    what happens before the current thread is saved. *)
Definition block_from_frame (rdx : Z) (gate with_tick : bool)
    (timer : UserspaceManager -> UserspaceManager)
    (block : UserspaceManager -> UserspaceManager * bool) (c : Cpu) (m : UserspaceManager)
  : UserspaceManager * Cpu * bool :=
  let tid := current_tid m in
  match select_next_runnable_thread m with
  | (m, None) => (m, c, false)
  | (m, Some next) =>
    if lc_tid next =? tid then (m, c, false)
    else
      match find_thread m (lc_tid next) with
      | None => (m, c, false)
      | Some (n, _) =>
        let m := timer m in
        let c := c <| cpu_frame ::= fun f => f <| f_rax := 0 |> <| f_rdx := rdx |> |> in
        let '(m, ok) := save_frame tid (cpu_frame c) m in
        if negb ok then (m, c, false)
        else
          let '(m, ok) := block m in
          if negb ok then (m, c, false)
          else
            let '(m, ok) := activate_thread (lc_tid next) m in
            if negb ok then
              (match find_thread m tid with
               | Some (k, _) => on_thread k (undo_block with_tick) m
               | None => m
               end, c, false)
            else
              let '(m, ok) := if gate then update_user_preemption_gate m else (m, true) in
              if negb ok then (m, c, false)
              else (m, load_thread (default UserThread0 (uthreads_ m !! n)) next c, true)
      end
  end.

Definition block_user_pipe_syscall_from_frame (write_end : bool) (fd : Z) (c : Cpu) (m : UserspaceManager)
  : UserspaceManager * Cpu * bool :=
  let f := cpu_frame c in
  if negb (from_user f) || (current_tid m =? 0) then (m, c, false)
  else match resolve_pipe_fd (current_pid m) fd write_end m with
       | None => (m, c, false)
       | Some pipe_id =>
         block_from_frame kSyscallErrorWouldBlock false false (fun m => m)
           (block_active_thread_on_pipe pipe_id write_end fd (f_rsi f) (f_rdx f)) c m
       end.

Definition block_user_wait_syscall_from_frame (target_pid : Z) (c : Cpu) (m : UserspaceManager)
  : UserspaceManager * Cpu * bool :=
  if negb (from_user (cpu_frame c)) || (target_pid =? 0) || (current_tid m =? 0) ||
     negb (process_wait_would_block (current_pid m) target_pid m) then (m, c, false)
  else block_from_frame kSyscallErrorWouldBlock true false (fun m => m)
         (block_active_thread_on_process target_pid) c m.

Definition block_user_wait_any_syscall_from_frame (c : Cpu) (m : UserspaceManager)
  : UserspaceManager * Cpu * bool :=
  if negb (from_user (cpu_frame c)) || (current_tid m =? 0) ||
     negb (process_wait_any_would_block m (current_pid m)) then (m, c, false)
  else block_from_frame kSyscallErrorWouldBlock true false (fun m => m)
         block_active_thread_on_any_process c m.

(** [ticks] is the tick count of the timers at the call. *)
Definition block_user_sleep_syscall_from_frame (ticks delta_ticks : Z) (c : Cpu) (m : UserspaceManager)
  : UserspaceManager * Cpu * bool :=
  if negb (from_user (cpu_frame c)) || (delta_ticks =? 0) || (current_tid m =? 0) then (m, c, false)
  else block_from_frame kSyscallErrorNone false true
         (fun m => if start_lapic then m <| k_lapic_timer_active := true |> else m)
         (block_active_thread_until (w64 (ticks + delta_ticks))) c m.

Definition exit_user_thread_from_frame (code : Z) (c : Cpu) (m : UserspaceManager)
  : UserspaceManager * Cpu * bool :=
  if negb (from_user (cpu_frame c)) then (m, c, false)
  else
    let pid := current_pid m in
    if pid =? 0 then (m, c, false)
    else
      let '(m, ok) := exit_process pid code Exited m in
      if negb ok then (m, c, false)
      else match select_next_runnable_thread m with
           | (m, None) => (m, c, false)
           | (m, Some next) =>
             let '(m, ok) := activate_thread (lc_tid next) m in
             if negb ok then (m, c, false)
             else match find_thread m (lc_tid next) with
                  | None => (m, c, false)
                  | Some (_, t) => (m, load_thread t next c, true)
                  end
           end.

(** What a tick of the local APIC timer does to user threads. *)
Definition lapic_tick (ticks : Z) (c : Cpu) (m : UserspaceManager) : UserspaceManager * Cpu :=
  let user := from_user (cpu_frame c) in
  let m := if user then (note_current_user_tick m).1 else m in
  let m := (wake_sleepers ticks m).1 in
  if user && k_user_preemption_enabled m then
    let '(m, expired) := user_timeslice_expired m in
    if expired : bool then let '(m, c, _) := preempt_user_thread_from_frame c m in (m, c) else (m, c)
  else (m, c).

End Switch.
