(* ===== verification/UserTasks.v ===== *)
(** * Userspace manager: the life of threads (kernel/src/userspace/userspace.cpp,
    kernel/src/interrupts/exceptions.cpp)

    The operations of the manager and of the interrupt entry as one transition
    system, and what holds in every state it reaches: thread identifiers are
    unique and at most one user thread runs, the active one.  On top of it, the
    round-robin choice of the next thread reaches every runnable thread. *)

From stdpp Require Import strings relations.
From S2P Require Import Prelude Path Vfs Userspace UserFiles UserDemo UserEnv UserSwitch.
#[local] Open Scope Z_scope.

(** ** The invariant *)

Definition thread_at (m : UserspaceManager) (i : nat) (t : UserThread) : Prop :=
  uthreads_ m !! i = Some t /\ (i < tcount_ m)%nat.

Record tasks_wf (m : UserspaceManager) : Prop := {
  tw_length : length (uthreads_ m) = kMaxUserThreads;
  tw_count : (tcount_ m <= kMaxUserThreads)%nat;
  tw_next : 0 < next_tid_ m;
  tw_empty i t : thread_at m i t -> ut_state t = UtEmpty -> ut_tid t = 0;
  tw_range i t : thread_at m i t -> ut_state t <> UtEmpty -> 0 < ut_tid t < next_tid_ m;
  tw_unique i j t u : thread_at m i t -> thread_at m j u -> ut_state t <> UtEmpty ->
                      ut_tid u = ut_tid t -> i = j;
  tw_running i t : thread_at m i t -> ut_state t = UtRunning -> ut_tid t = active_tid_ m
}.

(** How a thread may change without any of this being at stake: it keeps its
    identifier and starts no running. *)
Definition calm (t t' : UserThread) : Prop :=
  ut_tid t' = ut_tid t /\ (ut_state t' = UtEmpty <-> ut_state t = UtEmpty) /\
  (ut_state t' = UtRunning -> ut_state t = UtRunning) /\ ut_pid t' = ut_pid t.

Record tame (m m' : UserspaceManager) : Prop := {
  tm_length : length (uthreads_ m') = length (uthreads_ m);
  tm_count : tcount_ m' = tcount_ m;
  tm_next : next_tid_ m' = next_tid_ m;
  tm_active : active_tid_ m' = active_tid_ m;
  tm_threads i t' : uthreads_ m' !! i = Some t' -> exists t, uthreads_ m !! i = Some t /\ calm t t'
}.

#[export] Instance calm_refl : Reflexive calm.
Proof. by intros t. Qed.
#[export] Instance calm_trans : Transitive calm.
Proof. intros a b c (H1 & H2 & H3 & H4) (H5 & H6 & H7 & H8). split_and!; [congruence|by rewrite H6|auto|congruence]. Qed.

#[export] Instance tame_refl : Reflexive tame.
Proof. intros m. split; [done..|]. intros i t Hi. by exists t. Qed.
#[export] Instance tame_trans : Transitive tame.
Proof.
  intros a b c [L1 C1 N1 A1 T1] [L2 C2 N2 A2 T2]. split; [congruence..|].
  intros i t Hi. destruct (T2 i t Hi) as (u & Hu & Hut). destruct (T1 i u Hu) as (v & Hv & Hvu).
  exists v. split; [done|]. by trans u.
Qed.

(** A state that differs only in what threads are not. *)
Lemma tame_same m m' :
  uthreads_ m' = uthreads_ m -> tcount_ m' = tcount_ m -> next_tid_ m' = next_tid_ m ->
  active_tid_ m' = active_tid_ m -> tame m m'.
Proof. intros Hu Hc Hn Ha. split; [by rewrite Hu|done..|]. rewrite Hu. intros i t Hi. by exists t. Qed.

Lemma tame_on_thread i f m : (forall t, uthreads_ m !! i = Some t -> calm t (f t)) -> tame m (on_thread i f m).
Proof.
  intros Hf. split; [by apply length_alter|done..|]. intros j t' Hj. cbn in Hj.
  destruct (decide (i = j)) as [<-|Hne].
  - rewrite list_lookup_alter_eq in Hj. apply fmap_Some in Hj as (t & Ht & ->). exists t. auto.
  - rewrite list_lookup_alter_ne in Hj by done. by exists t'.
Qed.

Lemma thread_at_tame m m' i t' : tame m m' -> thread_at m' i t' -> exists t, thread_at m i t /\ calm t t'.
Proof.
  intros [_ Hc _ _ Ht] [Hi Hlt]. destruct (Ht i t' Hi) as (t & Hit & Hcalm). exists t.
  split; [|done]. split; [done|]. by rewrite <-Hc.
Qed.

Lemma tame_wf m m' : tame m m' -> tasks_wf m -> tasks_wf m'.
Proof.
  intros Ht [L C N E R U A]. pose proof Ht as [L' C' N' A' _]. split.
  - congruence.
  - by rewrite C'.
  - by rewrite N'.
  - intros i t' Hi He. destruct (thread_at_tame _ _ _ _ Ht Hi) as (t & Hit & H1 & H2 & _). rewrite H1. apply (E i t Hit). by apply H2.
  - intros i t' Hi He. destruct (thread_at_tame _ _ _ _ Ht Hi) as (t & Hit & H1 & H2 & _). rewrite H1, N'. apply (R i t Hit). by rewrite <-H2.
  - intros i j t' u' Hi Hj He Heq. destruct (thread_at_tame _ _ _ _ Ht Hi) as (t & Hit & H1 & H2 & _).
    destruct (thread_at_tame _ _ _ _ Ht Hj) as (u & Hju & H3 & _). apply (U i j t u); [done..| |congruence]. by rewrite <-H2.
  - intros i t' Hi Hr. destruct (thread_at_tame _ _ _ _ Ht Hi) as (t & Hit & H1 & _ & H3 & _). rewrite H1, A'. by apply (A i t Hit), H3.
Qed.

Create HintDb tame.
#[export] Hint Extern 1 (tame ?m ?m') => (constr_eq m m'; reflexivity) : tame.
#[export] Hint Extern 2 (tame ?m ?m') => (apply tame_same; reflexivity) : tame.

(** ** The operations that leave running alone *)

Lemma tame_for_each {S} (proj : S -> UserspaceManager) n (body : nat -> S -> S) s :
  (forall i s, tame (proj s) (proj (body i s))) -> tame (proj s) (proj (for_each n body s)).
Proof.
  intros Hb. apply (for_each_inv (fun _ s' => tame (proj s) (proj s'))); [done|].
  intros i s' _ Hs. trans (proj s'); [done|apply Hb].
Qed.

Lemma tame_foldl {A} (f : UserspaceManager -> A -> UserspaceManager) l m :
  (forall m a, tame m (f m a)) -> tame m (foldl f m l).
Proof.
  intros Hf. revert m. induction l as [|a l IH]; intros m; [done|]. simpl. trans (f m a); [apply Hf|apply IH].
Qed.

Lemma tame_wake i m : (forall t, uthreads_ m !! i = Some t -> ut_state t <> UtEmpty) -> tame m (on_thread i wake m).
Proof. intros Hb. apply tame_on_thread. intros t Ht. split_and!; [done| |done|done]. split; [done|]. intros He. by destruct (Hb t Ht). Qed.

Lemma tame_result i rax rdx m : tame m (on_thread i (set_result rax rdx) m).
Proof. by apply tame_on_thread. Qed.

(** A blocked thread that is given its result and woken. *)
Lemma tame_woken i t m m1 m2 :
  uthreads_ m !! i = Some t -> ut_state t = UtBlocked -> tame m m1 -> tame (on_thread i wake m1) m2 -> tame m m2.
Proof.
  intros Hi Hs H1 H2. trans m1; [done|]. trans (on_thread i wake m1); [|done]. apply tame_wake. intros u Hu.
  destruct (tm_threads _ _ H1 i u Hu) as (t' & Ht' & _ & He & _). assert (t' = t) as -> by congruence.
  intros Hc. apply He in Hc. congruence.
Qed.

Section Tame.
Context `{Machine} `{Kernel} `{Terminal}.

Lemma tame_gate m : tame m (update_user_preemption_gate m).1.
Proof. unfold update_user_preemption_gate. repeat case_match; auto with tame. Qed.

Lemma tame_complete_read pipe id i t m m1 : complete_read pipe id i t m = Some m1 -> tame m m1.
Proof.
  unfold complete_read. intros Hc. repeat case_match; simplify_eq; try apply tame_result.
  trans (on_thread i (set_result (transfer_size (ut_wait_size t) (w64 (pi_size p - pi_read_offset p))
    (translate (ut_address_space_root t) (ut_wait_buffer t))) kSyscallErrorNone) m); [apply tame_result|].
  by apply tame_same.
Qed.

Lemma tame_complete_write pipe id i t m m1 : complete_write pipe id i t m = Some m1 -> tame m m1.
Proof.
  unfold complete_write. intros Hc. repeat case_match; simplify_eq; try apply tame_result.
  trans (on_thread i (set_result (transfer_size (ut_wait_size t) (w64 (kPipeCapacity - pi_size p))
    (translate (ut_address_space_root t) (ut_wait_buffer t))) kSyscallErrorNone) m); [apply tame_result|].
  by apply tame_same.
Qed.

Lemma tame_wake_pipe_waiter pipe id r w i s :
  tame (sc_manager s) (sc_manager (wake_pipe_waiter pipe id r w i s)).
Proof.
  unfold wake_pipe_waiter. destruct (uthreads_ (sc_manager s) !! i) as [t|] eqn:Hi; [|done].
  case_decide as Hw; [|done]. destruct Hw as [Hb _]. case_match; [|done]. case_match; try done.
  - destruct r; [|done]. case_match eqn:Hc; [|done]. apply tame_complete_read in Hc.
    eapply tame_woken; [done..|]. by apply tame_same.
  - destruct w; [|done]. case_match eqn:Hc; [|done]. apply tame_complete_write in Hc.
    eapply tame_woken; [done..|]. by apply tame_same.
Qed.

Lemma tame_wake_rounds n pipe id r w m woken : tame m (wake_rounds n pipe id r w m woken).1.
Proof.
  revert r w m woken. induction n as [|n IH]; intros r w m woken; [done|]. cbn [wake_rounds].
  assert (tame m (sc_manager (wake_pass pipe id r w m woken))) as Hp.
  { apply (tame_for_each sc_manager _ _ (mkScan m woken false false)). intros. apply tame_wake_pipe_waiter. }
  case_match; [|done]. etrans; [exact Hp|apply IH].
Qed.

Lemma tame_wake_pipe_waiters id r w m : tame m (wake_pipe_waiters id r w m).1.
Proof. unfold wake_pipe_waiters. case_match; [done|]. apply tame_wake_rounds. Qed.

Lemma tame_wake_pipes r w ids m : tame m (wake_pipes r w ids m).
Proof. apply tame_foldl. intros. apply tame_wake_pipe_waiters. Qed.

Lemma tame_wake_threads body m :
  (forall i t m m1, uthreads_ m !! i = Some t -> body i t m = Some m1 -> tame m m1) -> tame m (wake_threads body m).1.
Proof.
  intros Hb. apply (tame_for_each fst _ _ (m, 0)). intros i [m1 w]. cbn.
  destruct (uthreads_ m1 !! i) as [t|] eqn:Hi; [|done]. cbn. case_match eqn:Hc; [|done]. by eapply Hb.
Qed.

(** The two updates of a thread woken with its result. *)
Lemma tame_wake_result i t rax rdx m m2 :
  uthreads_ m !! i = Some t -> ut_state t = UtBlocked ->
  uthreads_ m2 = alter (fun t => wake (set_result rax rdx t)) i (uthreads_ m) -> tcount_ m2 = tcount_ m ->
  next_tid_ m2 = next_tid_ m -> active_tid_ m2 = active_tid_ m -> tame m m2.
Proof.
  intros Hi Hs Hu Hc Hn Ha. trans (on_thread i (fun t => wake (set_result rax rdx t)) m); [|by apply tame_same].
  apply tame_on_thread. intros u Hu'. assert (u = t) as -> by congruence. split_and!; [done| |done|done]. cbn. by rewrite Hs.
Qed.

Lemma tame_wake_process_waiters pid code m : tame m (wake_process_waiters pid code m).1.
Proof.
  unfold wake_process_waiters. case_match; [done|]. apply tame_wake_threads.
  intros i t m1 m2 Hi Hb. unfold wake_process_waiter in Hb. case_decide as Hd; [|done]. destruct Hd as [Hs _].
  apply bind_Some in Hb as ([? ?] & _ & Hb). apply bind_Some in Hb as ([? ?] & _ & Hb).
  repeat case_match; try done. apply bind_Some in Hb as (d & _ & [= <-]).
  by eapply (tame_wake_result i t).
Qed.

Lemma tame_wake_sleepers now m : tame m (wake_sleepers now m).1.
Proof.
  unfold wake_sleepers. case_match; [done|]. apply tame_wake_threads.
  intros i t m1 m2 Hi Hb. unfold wake_sleeper in Hb. case_decide as Hd; [|done]. destruct Hd as [Hs _].
  apply bind_Some in Hb as ([? ?] & _ & [= <-]). by eapply (tame_wake_result i t).
Qed.


(** The result of a call that the goal takes apart: the call is tame, go on from its state. *)
Ltac tame_call lem :=
  let H := fresh "Ht" in
  pose proof lem as H;
  match type of H with
  | tame _ (fst ?e) => destruct e as [? ?]; cbn [fst] in H; etrans; [exact H|]; clear H
  end.

Lemma tame_cleanup id m : tame m (cleanup_pipe_if_unreferenced id m).1.
Proof.
  unfold cleanup_pipe_if_unreferenced. dmatch as [[k p]|]; [|done].
  destruct (pipe_has_live_reader m id), (pipe_has_live_writer m id); cbn [negb orb fst];
    auto using tame_wake_pipe_waiters with tame.
  etrans; [apply (tame_wake_pipe_waiters id true true m)|]. by apply tame_same.
Qed.

Lemma tame_create_pipe m : tame m (create_pipe m).1.
Proof. unfold create_pipe. repeat case_match; auto with tame. Qed.

Lemma tame_close_process_descriptor i k m : tame m (close_process_descriptor i k m).
Proof. unfold close_process_descriptor. repeat case_match; auto with tame. Qed.

Lemma tame_close_numbered i fd m : tame m (close_numbered i fd m).
Proof.
  apply (tame_for_each id). intros k m1. cbn. repeat case_match; auto using tame_close_process_descriptor with tame.
Qed.

Lemma tame_attach pid fd id w m : tame m (attach_pipe_fd pid fd id w m).1.
Proof.
  unfold attach_pipe_fd. case_match; [done|].
  destruct (find_process m pid) as [[i p]|]; [|done]. destruct (find_pipe m id) as [q|]; [|done]. case_decide; [|done].
  pose proof (tame_for_each fst kMaxProcessFileDescriptors (fun k '(m, replaced_pipe) =>
    match fd_at m i k with
    | Some d => if fd_open d && (fd_number d =? fd)
                then (close_process_descriptor i k m, if is_pipe_end d then fd_pipe_id d else replaced_pipe)
                else (m, replaced_pipe)
    | None => (m, replaced_pipe)
    end) (m, 0)) as Hl.
  destruct (for_each _ _ _) as [m1 r]. trans m1.
  { apply Hl. intros k [m2 r2]. cbn. repeat case_match; cbn [fst]; auto using tame_close_process_descriptor with tame. }
  cbn [fst]. trans (if r =? 0 then m1 else (cleanup_pipe_if_unreferenced r m1).1).
  { destruct (r =? 0); [reflexivity|apply tame_cleanup]. }
  destruct (free_fd _ i); auto with tame.
Qed.

Lemma tame_vfs_open path m : tame m (vfs_open path m).1.
Proof. unfold vfs_open. case_match. auto with tame. Qed.

Lemma tame_take_fd_number i m : tame m (take_fd_number i m).1.
Proof. unfold take_fd_number. case_match; auto with tame. Qed.

Lemma tame_open_file pid path m : tame m (open_file pid path m).1.
Proof.
  unfold open_file. dmatch as [[i r]|]; [|done]. tame_call (tame_vfs_open r m). case_match; [done|].
  case_match; [|auto with tame]. tame_call (tame_take_fd_number i u). auto with tame.
Qed.

Lemma tame_install i fd path m : tame m (install_vfs_descriptor i fd path m).1.
Proof.
  unfold install_vfs_descriptor. tame_call (tame_vfs_open path m). case_match; [done|].
  etrans; [apply (tame_close_numbered i fd)|]. generalize (close_numbered i fd u). intros m'.
  destruct (free_fd m' i); auto with tame.
Qed.

Lemma tame_install_default i m : tame m (install_default_standard_fds i m).1.
Proof.
  unfold install_default_standard_fds. tame_call (tame_install i kStdinFd dev_tty m). case_match; [done|].
  tame_call (tame_install i kStdoutFd dev_tty u). case_match; [done|]. apply tame_install.
Qed.

Lemma tame_redirect pid fd path m : tame m (redirect_file pid fd path m).1.
Proof. unfold redirect_file. case_match; [done|]. dmatch as [[i r]|]; [|done]. apply tame_install. Qed.

Lemma tame_sync i h o m : tame m (sync_descriptor_offsets i h o m).
Proof. unfold sync_descriptor_offsets. case_match; auto with tame. Qed.

Lemma tame_seek pid fd o m : tame m (seek_file pid fd o m).1.
Proof.
  unfold seek_file. dmatch as [[i d]|]; [|done]. case_decide; [|done]. case_match. case_match; [|auto with tame].
  etrans; [|apply tame_sync]. auto with tame.
Qed.

Lemma tame_redirect_append pid fd path m : tame m (redirect_file_append pid fd path m).1.
Proof.
  unfold redirect_file_append. case_match; [done|]. dmatch as [[i r]|]; [|done].
  tame_call (tame_redirect pid fd path m). case_match; [apply tame_seek|done].
Qed.

Lemma tame_read_pipe i id size m : tame m (read_pipe i id size m).1.
Proof.
  unfold read_pipe. dmatch as [[k p]|]; [|done]. case_match; [done|]. cbn [fst].
  trans (on_pipe k (consume_pipe (if size <? w64 (pi_size p - pi_read_offset p) then size
                                  else w64 (pi_size p - pi_read_offset p))) m); [auto with tame|].
  etrans; [apply (tame_wake_pipe_waiters id false true)|]. auto with tame.
Qed.

Lemma tame_write_pipe i id buffer m : tame m (write_pipe i id buffer m).1.
Proof.
  unfold write_pipe. case_match; [done|]. dmatch as [[k p]|]; [|done]. case_match; [done|]. cbn [fst].
  trans (on_pipe k (fill_pipe (take (Z.to_nat (if zlen buffer <? w64 (kPipeCapacity - pi_size p) then zlen buffer
                                  else w64 (kPipeCapacity - pi_size p))) buffer)) m); [auto with tame|].
  etrans; [apply (tame_wake_pipe_waiters id true false)|]. auto with tame.
Qed.

Lemma tame_read_file pid fd size m t : tame m (read_file pid fd size m t).1.1.
Proof.
  unfold read_file. dmatch as [[i d]|]; [|done]. case_match; try done.
  - dmatch as [[v t'] bytes]. cbn [fst]. trans (m <| k_vfs := v |>); [auto with tame|].
    etrans; [apply (tame_sync i (fd_vfs_handle d) (handle_offset v (fd_vfs_handle d)))|]. auto with tame.
  - tame_call (tame_read_pipe i (fd_pipe_id d) size m). done.
Qed.

Lemma tame_write_file pid fd buffer m t : tame m (write_file pid fd buffer m t).1.1.
Proof.
  unfold write_file. dmatch as [[i d]|]; [|done]. case_match; try done.
  - dmatch as [[v t'] n]. cbn [fst]. trans (m <| k_vfs := v |>); [auto with tame|].
    etrans; [apply (tame_sync i (fd_vfs_handle d) (handle_offset v (fd_vfs_handle d)))|]. auto with tame.
  - tame_call (tame_write_pipe i (fd_pipe_id d) buffer m). done.
Qed.


Lemma tame_close_file pid fd m : tame m (close_file pid fd m).1.
Proof.
  unfold close_file. dmatch as [[[i k] d]|]; [|done]. cbn [fst].
  etrans; [apply (tame_close_process_descriptor i k)|]. generalize (close_process_descriptor i k m). intros m'.
  destruct (_ =? 0); [done|apply tame_cleanup].
Qed.

Lemma tame_retain_descriptor d m : tame m (retain_descriptor d m).1.
Proof. unfold retain_descriptor. repeat case_match; auto with tame. Qed.

Lemma tame_duplicate pid fd m : tame m (duplicate_file pid fd m).1.
Proof.
  unfold duplicate_file. dmatch as [[i d]|]; [|done]. case_match; [|done].
  tame_call (tame_take_fd_number i m). tame_call (tame_retain_descriptor d u). case_match; auto with tame.
Qed.

Lemma tame_duplicate_to pid fd target m : tame m (duplicate_file_to pid fd target m).1.
Proof.
  unfold duplicate_file_to. case_match; [done|]. dmatch as [[i d]|]; [|done]. case_match; [done|].
  etrans; [apply (tame_close_numbered i target)|]. generalize (close_numbered i target m). intros m'.
  destruct (free_fd m' i); [|done]. tame_call (tame_retain_descriptor d m'). case_match; auto with tame.
Qed.

Lemma tame_inherit_fd i c fd m : tame m (inherit_fd i c fd m).1.
Proof.
  unfold inherit_fd. dmatch as [[s d]|]; [|done].
  etrans; [apply (tame_close_numbered i fd)|]. generalize (close_numbered i fd m). intros m'.
  generalize (default FileDescriptor0 (fd_at m' c s)). intros source.
  assert (tame m' (inherited_descriptor fd source m').1) as Hi.
  { unfold inherited_descriptor. repeat case_match; auto with tame. }
  destruct (inherited_descriptor fd source m') as [m2 o]. etrans; [exact Hi|]. cbn [fst].
  repeat case_match; auto with tame.
Qed.

Lemma tame_inherit_fds child parent m : tame m (inherit_standard_fds child parent m).1.
Proof.
  unfold inherit_standard_fds. dmatch as [[i ?]|]; [|done]. dmatch as [[c ?]|]; [|done].
  tame_call (tame_inherit_fd i c kStdinFd m). case_match; [done|].
  tame_call (tame_inherit_fd i c kStdoutFd u). case_match; [done|]. apply tame_inherit_fd.
Qed.

Lemma tame_on_path pid path op m : tame m (on_path pid path op m).1.
Proof. unfold on_path. repeat case_match; auto with tame. Qed.
Lemma tame_on_paths pid a b op m : tame m (on_paths pid a b op m).1.
Proof. unfold on_paths. repeat case_match; auto with tame. Qed.
Lemma tame_set_current_directory pid path m : tame m (set_current_directory pid path m).1.
Proof. unfold set_current_directory. repeat case_match; auto with tame. Qed.
Lemma tame_set_arguments pid args m : tame m (set_arguments pid args m).1.
Proof. unfold set_arguments. repeat case_match; auto with tame. Qed.
Lemma tame_set_environment pid env m : tame m (set_environment pid env m).1.
Proof. unfold set_environment. repeat case_match; auto with tame. Qed.
Lemma tame_run_environment pid op m : tame m (run_environment pid op m).1.
Proof.
  unfold run_environment, set_environment_variable, unset_environment_variable, on_environment.
  repeat case_match; auto with tame.
Qed.
Lemma tame_inherit_environment child parent m : tame m (inherit_environment child parent m).1.
Proof. unfold inherit_environment. repeat case_match; auto with tame. Qed.
Lemma tame_set_parent pid parent m : tame m (set_parent pid parent m).1.
Proof. unfold set_parent. repeat case_match; auto with tame. Qed.
Lemma tame_set_process_group c pid g m : tame m (set_process_group c pid g m).1.
Proof. unfold set_process_group. repeat case_match; auto with tame. Qed.
Lemma tame_set_foreground c g m : tame m (set_foreground_process_group c g m).1.
Proof. unfold set_foreground_process_group. repeat case_match; auto with tame. Qed.

(** A thread whose record changes outside its state and identifiers. *)
Lemma tame_accounting (f : UserThread -> UserThread) k m :
  (forall t, ut_tid (f t) = ut_tid t /\ ut_state (f t) = ut_state t /\ ut_pid (f t) = ut_pid t) ->
  tame m (on_thread k f m).
Proof.
  intros Hf. apply tame_on_thread. intros t _. destruct (Hf t) as (Htid & Hst & Hpid).
  unfold calm. by rewrite Htid, Hst, Hpid.
Qed.

Lemma tame_record_syscall n m : tame m (record_current_syscall n m).1.
Proof.
  unfold record_current_syscall. dmatch as [[k i]|]; [|done]. cbn [fst].
  etrans; [by apply (tame_accounting (fun t => t <| ut_syscall_count ::= inc64 |> <| ut_last_syscall := n |>) k)|].
  auto with tame.
Qed.
Lemma tame_user_tick m : tame m (note_current_user_tick m).1.
Proof.
  unfold note_current_user_tick. dmatch as [[k i]|]; [|done]. cbn [fst].
  etrans; [by apply (tame_accounting (fun t => t <| ut_run_ticks ::= inc64 |>) k)|]. auto with tame.
Qed.
Lemma tame_timeslice m : tame m (user_timeslice_expired m).1.
Proof. unfold user_timeslice_expired. repeat case_match; auto with tame. Qed.
Lemma tame_preempt_switch a b m : tame m (note_user_preempt_switch a b m).1.
Proof.
  unfold note_user_preempt_switch. case_match; [done|]. dmatch as [[k t]|]; [|done]. case_decide; [done|].
  dmatch as [[i p]|]; [|done]. cbn [fst].
  etrans; [by apply (tame_accounting (fun t => t <| ut_preempt_count ::= inc64 |>) k)|]. auto with tame.
Qed.
Lemma tame_select m : tame m (select_next_runnable_thread m).1.
Proof. unfold select_next_runnable_thread. repeat case_match; auto with tame. Qed.
Lemma tame_save_active rip rsp m : tame m (save_active_thread_frame rip rsp m).1.
Proof.
  unfold save_active_thread_frame. dmatch as [[k t]|]; [|done]. repeat (case_match; try done). cbn [fst].
  by apply (tame_accounting (fun t => t <| ut_entry := rip |> <| ut_user_stack_pointer := rsp |>)).
Qed.
Lemma tame_save_frame tid f m : tame m (save_frame tid f m).1.
Proof.
  unfold save_frame. tame_call (tame_save_active (f_rip f) (f_rsp f) m). case_match; [done|].
  dmatch as [[k t]|]; [|done]. by apply (tame_accounting (save_user_registers f)).
Qed.


(** A live thread that stops running, or that was not and does not. *)
Lemma tame_rest (f : UserThread -> UserThread) k t m :
  uthreads_ m !! k = Some t -> ut_state t <> UtEmpty -> ut_tid (f t) = ut_tid t -> ut_pid (f t) = ut_pid t ->
  ut_state (f t) <> UtEmpty -> (ut_state (f t) = UtRunning -> ut_state t = UtRunning) -> tame m (on_thread k f m).
Proof.
  intros Hk Hne Htid Hpid Hne' Hr. apply tame_on_thread. intros u Hu. assert (u = t) as -> by congruence.
  split_and!; [done| |done|done]. by split.
Qed.

Lemma running_thread_Some m k t :
  running_thread m = Some (k, t) -> thread_at m k t /\ ut_state t = UtRunning.
Proof.
  unfold running_thread. intros ([j u] & Hc & Hr)%bind_Some. case_decide; simplify_eq. split; [|done].
  unfold current_thread in Hc. case_match; [done|]. by apply find_thread_Some in Hc as (? & ? & _).
Qed.

Lemma tame_preempt k m : tame m (on_thread k preempt m).
Proof.
  apply tame_on_thread. intros t _. unfold preempt. case_decide as Hd; [|done].
  split_and!; [done| |done|done]. cbn. by rewrite Hd.
Qed.

Lemma tame_mark_runnable pid m : tame m (mark_runnable pid m).1.
Proof.
  unfold mark_runnable. dmatch as [[i p]|]; [|done]. case_decide; [|done].
  etrans; [|apply tame_gate]. set (m1 := if active_pid_ _ =? 0 then _ else _).
  trans m1; [subst m1; destruct (_ =? 0); auto with tame|]. clearbody m1.
  destruct (find_thread m1 _) as [[k t]|] eqn:Ht; [|done]. apply find_thread_Some in Ht as (Hk & _ & _ & Hne).
  case_decide; [|done]. by eapply tame_rest.
Qed.

Lemma tame_mark_active m : tame m (mark_active_thread_runnable m).1.
Proof.
  unfold mark_active_thread_runnable. destruct (running_thread m) as [[k t]|] eqn:Hr; [|done].
  apply running_thread_Some in Hr as [[Hk _] Hs]. cbn [fst]. eapply tame_rest; [done|by rewrite Hs|done..].
Qed.

(** Blocking the running thread. *)
Lemma tame_set_wait k t reason a b c d e f m m' :
  running_thread m = Some (k, t) ->
  tame (on_thread k (set_wait UtBlocked reason a b c d e f) m) m' -> tame m m'.
Proof.
  intros [[Hk _] Hs]%running_thread_Some Hm. etrans; [|exact Hm]. eapply tame_rest; [done|by rewrite Hs|done..].
Qed.

Lemma tame_block_pipe id w fd b s m : tame m (block_active_thread_on_pipe id w fd b s m).1.
Proof.
  unfold block_active_thread_on_pipe. destruct (running_thread m) as [[k t]|] eqn:Hr; [|done]. case_match; [|done].
  cbn [fst]. destruct w; (eapply tame_set_wait; [done|]); by apply tame_same.
Qed.
Lemma tame_block_process pid m : tame m (block_active_thread_on_process pid m).1.
Proof.
  unfold block_active_thread_on_process. destruct (running_thread m) as [[k t]|] eqn:Hr; [|done].
  repeat (case_match; try done). cbn [fst]. eapply tame_set_wait; [done|]. by apply tame_same.
Qed.
Lemma tame_block_any m : tame m (block_active_thread_on_any_process m).1.
Proof.
  unfold block_active_thread_on_any_process. destruct (running_thread m) as [[k t]|] eqn:Hr; [|done].
  case_match; [|done]. cbn [fst]. eapply tame_set_wait; [done|]. by apply tame_same.
Qed.
Lemma tame_block_until w m : tame m (block_active_thread_until w m).1.
Proof.
  unfold block_active_thread_until. destruct (running_thread m) as [[k t]|] eqn:Hr; [|done].
  case_match; [done|]. cbn [fst]. eapply tame_set_wait; [done|]. by apply tame_same.
Qed.

(** ** The operations that change what is active *)

Definition not_running (tid : Z) (m : UserspaceManager) : Prop :=
  forall i t, thread_at m i t -> ut_tid t = tid -> ut_state t <> UtRunning.

Lemma not_running_tame tid m m' : tame m m' -> not_running tid m -> not_running tid m'.
Proof.
  intros Ht Hn i t' Hi Htid Hr. destruct (thread_at_tame _ _ _ _ Ht Hi) as (t & Hit & Htid' & _ & Hrun & _).
  apply (Hn i t Hit); [congruence|by apply Hrun].
Qed.

(** Changing a field that the invariant does not mention. *)
Lemma wf_same m m' :
  tasks_wf m -> uthreads_ m' = uthreads_ m -> tcount_ m' = tcount_ m -> next_tid_ m' = next_tid_ m ->
  active_tid_ m' = active_tid_ m -> tasks_wf m'.
Proof. intros Hwf ? ? ? ?. eapply tame_wf; [|exact Hwf]. by apply tame_same. Qed.

(** What is active may be changed when it does not run. *)
Lemma wf_set_active a m : tasks_wf m -> not_running (active_tid_ m) m -> tasks_wf (m <| active_tid_ := a |>).
Proof.
  intros [L C N E R U A] Hn. split; [exact L|exact C|exact N|exact E|exact R|exact U|]. intros i t Hi Hr. destruct (Hn i t Hi); [|done]. by apply (A i t Hi).
Qed.

Lemma wf_forget_active tid pid m : tasks_wf m -> not_running tid m -> tasks_wf (forget_active tid pid m).
Proof.
  intros Hwf Hn. unfold forget_active. set (m1 := if active_tid_ m =? tid then _ else m).
  assert (tasks_wf m1).
  { unfold m1. case Z.eqb_spec; intros Heq; [|done]. apply wf_set_active; [done|]. by rewrite Heq. }
  clearbody m1. destruct (_ =? pid); [|done]. by eapply wf_same.
Qed.

(** The thread found by its identifier is the only one that has it. *)
Lemma find_thread_not_running tid m f :
  tasks_wf m -> (forall t, ut_state (f t) <> UtRunning) -> (forall t, ut_tid (f t) = ut_tid t) ->
  not_running tid (match find_thread m tid with Some (k, _) => on_thread k f m | None => m end).
Proof.
  intros Hwf Hf Htid i t' Hi Heq Hr. destruct (find_thread m tid) as [[k u]|] eqn:Hfind.
  - destruct Hi as [Hi Hlt]. cbn in Hi, Hlt. destruct (decide (k = i)) as [->|Hne].
    + rewrite list_lookup_alter_eq in Hi. apply fmap_Some in Hi as (t & _ & ->). by apply (Hf t).
    + rewrite list_lookup_alter_ne in Hi by done. apply find_thread_Some in Hfind as (Hk & Hkl & Hu & Hne').
      destruct Hne. apply (tw_unique m Hwf k i u t'); [done..|congruence].
  - unfold find_thread in Hfind. rewrite list_find_None, Forall_forall in Hfind.
    apply (Hfind t'); [|split; [done|by rewrite Hr]]. destruct Hi as [Hi Hlt].
    apply list_elem_of_lookup. exists i. unfold threads. by rewrite lookup_take_lt.
Qed.

Lemma mark_exited_spec i code reason tid m :
  tasks_wf m -> tame m (mark_exited i code reason tid m) /\ not_running tid (mark_exited i code reason tid m).
Proof.
  intros Hwf. unfold mark_exited. set (m1 := on_process i _ m).
  assert (Ht1 : tame m m1) by (by apply tame_same).
  split; [|apply find_thread_not_running; [by eapply tame_wf|done..]].
  trans m1; [done|]. clearbody m1. destruct (find_thread m1 tid) as [[k t]|] eqn:Hf; [|done].
  apply find_thread_Some in Hf as (Hk & _ & _ & Hne). by eapply tame_rest.
Qed.

Lemma wf_exit pid code reason m : tasks_wf m -> tasks_wf (exit_process pid code reason m).1.
Proof.
  intros Hwf. unfold exit_process. dmatch as [[i p]|]; [|done].
  eapply tame_wf; [apply tame_gate|].
  destruct (mark_exited_spec i code reason (pr_main_thread_id p) m Hwf) as [Ht Hn].
  set (m1 := mark_exited _ _ _ _ m) in *. clearbody m1.
  assert (Htame : tame m1 (wake_process_waiters (pr_pid p) code
    (wake_pipes true false (held_pipes PipeWrite p) (wake_pipes false true (held_pipes PipeRead p) m1))).1).
  { etrans; [apply tame_wake_pipes|]. etrans; [apply tame_wake_pipes|]. apply tame_wake_process_waiters. }
  apply wf_forget_active; [|by eapply not_running_tame].
  eapply tame_wf; [exact Htame|]. by eapply tame_wf.
Qed.

Lemma wf_for_group c g body m :
  (forall i p m, tasks_wf m -> tasks_wf (body i p m).1) -> tasks_wf m -> tasks_wf (for_group c g body m).1.
Proof.
  intros Hb Hwf. unfold for_group. apply (for_each_inv (fun _ s => tasks_wf s.1)); [done|].
  intros i [m1 n] _ H'. cbn in *. destruct (processes_ m1 !! i) as [p|]; [|done]. case_decide; [|done].
  specialize (Hb i p m1 H'). by destruct (body i p m1).
Qed.

Lemma wf_kill c g code reason m : tasks_wf m -> tasks_wf (kill_process_group c g code reason m).1.
Proof.
  intros Hwf. unfold kill_process_group. case_match; [done|]. dmatch as [[i p]|]; [|done].
  apply wf_for_group; [|done]. intros j q m1 H1'. case_match; [by apply wf_exit|done].
Qed.

Lemma wf_stop c g m : tasks_wf m -> tasks_wf (stop_process_group c g m).1.
Proof.
  intros Hwf. unfold stop_process_group. case_match; [done|]. apply wf_for_group; [|done].
  intros i p m1 Hwf1. case_decide; [|done]. cbn [fst]. unfold stop_process.
  set (m2 := on_process i _ m1). assert (Hwf2 : tasks_wf m2) by (by eapply wf_same).
  clearbody m2. set (m3 := match find_thread m2 _ with Some (k, _) => on_thread k preempt m2 | None => m2 end).
  assert (Hwf3 : tasks_wf m3).
  { eapply tame_wf; [|exact Hwf2]. unfold m3. dmatch as [[k t]|]; [apply tame_preempt|done]. }
  assert (Hn3 : not_running (pr_main_thread_id p) m3).
  { apply find_thread_not_running; [done|..]; intros t; unfold preempt; by case_decide. }
  clearbody m3. set (m4 := if active_pid_ m3 =? _ then _ else m3).
  assert (Hwf4 : tasks_wf m4) by (unfold m4; case_match; [by eapply wf_same|done]).
  assert (Hn4 : not_running (pr_main_thread_id p) m4) by (unfold m4; case_match; done).
  clearbody m4. case Z.eqb_spec; intros Heq; [|done]. apply wf_set_active; [done|]. by rewrite Heq.
Qed.

Lemma wf_continue c g m : tasks_wf m -> tasks_wf (continue_process_group c g m).1.
Proof.
  intros Hwf. unfold continue_process_group. case_match; [done|].
  assert (tasks_wf (for_group c g (fun i p m => if decide (pr_parent_pid p = c /\ pr_state p = ProcStopped)
    then (on_process i (fun p => p <| pr_state := ProcRunnable |>) m, true) else (m, false)) m).1) as Hg.
  { apply wf_for_group; [|done]. intros i p m1 H1'. case_decide; [by eapply wf_same|done]. }
  destruct (for_group _ _ _ _) as [m1 n]. case_match; [done|].
  pose proof (tame_gate m1) as Ht. destruct (update_user_preemption_gate m1) as [m2 ok].
  assert (tasks_wf m2) by (by eapply tame_wf). by destruct ok.
Qed.

(** A thread that is cleared takes what is active with it when it was. *)
Lemma wf_clear_thread m m' i t :
  tasks_wf m -> thread_at m i t -> ut_state t <> UtEmpty ->
  uthreads_ m' = <[i := UserThread0]> (uthreads_ m) -> tcount_ m' = tcount_ m -> next_tid_ m' = next_tid_ m ->
  active_tid_ m' = (if active_tid_ m =? ut_tid t then 0 else active_tid_ m) -> tasks_wf m'.
Proof.
  intros [L C N E R U A] Hi Hne Hu Hc Hn Ha.
  assert (Hat : forall j u, thread_at m' j u -> u = UserThread0 /\ j = i \/ thread_at m j u /\ j <> i).
  { intros j u [Hj Hlt]. rewrite Hu in Hj. destruct (decide (i = j)) as [<-|Hij].
    - rewrite list_lookup_insert_eq in Hj by (eapply lookup_lt_Some, Hi). left. by simplify_eq.
    - rewrite list_lookup_insert_ne in Hj by done. right. split; [|done]. split; [done|by rewrite <-Hc]. }
  split.
  - by rewrite Hu, length_insert.
  - by rewrite Hc.
  - by rewrite Hn.
  - intros j u [[-> _]|[Hj _]]%Hat He; [done|by eapply E].
  - intros j u [[-> _]|[Hj _]]%Hat He; [done|rewrite Hn; by eapply R].
  - intros j k u v [[-> _]|[Hj Hji]]%Hat [[-> _]|[Hk _]]%Hat He Heq; [done..| |by eapply U].
    pose proof (R j u Hj He) as Hr. cbn in Heq. lia.
  - intros j u [[-> _]|[Hj Hji]]%Hat Hr; [done|]. rewrite Ha. pose proof (A j u Hj Hr) as Hact.
    case Z.eqb_spec; [|done]. intros Heq. destruct Hji. apply (U j i u t Hj Hi); [by rewrite Hr|congruence].
Qed.

Lemma wf_clear_threads pid m : tasks_wf m -> tasks_wf (clear_threads pid m).
Proof.
  intros Hwf. unfold clear_threads. apply (for_each_inv (fun _ m' => tasks_wf m' /\ tcount_ m' = tcount_ m)); [done|].
  intros i m1 Hi [Hwf1 Hc]. destruct (uthreads_ m1 !! i) as [t|] eqn:Ht; [|done]. case_decide as Hd; [|done].
  destruct Hd as [_ Hne]. split.
  - apply (wf_clear_thread m1 _ i t); [done|split; [done|by rewrite Hc]|done|..].
    + cbn. rewrite (alter_insert _ _ _ t); repeat case_match; done.
    + by repeat case_match.
    + by repeat case_match.
    + cbn. by repeat case_match.
  - by repeat case_match.
Qed.

Lemma tame_close_all i m : tame m (close_all_descriptors i m).1.
Proof.
  apply (tame_for_each fst _ _ (m, [])). intros k [m1 l]. cbn.
  case_match; cbn [fst]; auto using tame_close_process_descriptor with tame.
Qed.

Lemma wf_reap pid m : tasks_wf m -> tasks_wf (reap_exited pid m).1.
Proof.
  intros Hwf. unfold reap_exited. dmatch as [[i p]|]; [|done]. case_decide; [|done].
  pose proof (tame_close_all i m) as Ht. destruct (close_all_descriptors i m) as [m1 pipes].
  eapply tame_wf; [apply tame_gate|]. set (m2 := foldl _ m1 pipes).
  assert (Hwf2 : tasks_wf m2).
  { eapply tame_wf; [|by eapply tame_wf]. apply tame_foldl. intros. apply tame_cleanup. }
  clearbody m2. set (m3 := if pr_owns_address_space p && _ then _ else _).
  assert (Hwf3 : tasks_wf m3) by (unfold m3; case_match; by eapply wf_same). clearbody m3.
  pose proof (wf_clear_threads (pr_pid p) m3 Hwf3) as Hwf4. set (m4 := clear_threads (pr_pid p) m3) in *.
  clearbody m4. destruct (_ =? pr_pid p); by eapply wf_same.
Qed.

(** A new thread in a slot that is free. *)
Lemma wf_new_thread m m' k t :
  tasks_wf m -> u64 (next_tid_ m + 1) -> (k < kMaxUserThreads)%nat ->
  (forall u, thread_at m k u -> ut_state u = UtEmpty) ->
  ut_tid t = next_tid_ m -> ut_state t <> UtEmpty -> ut_state t <> UtRunning ->
  uthreads_ m' = <[k := t]> (uthreads_ m) -> tcount_ m' = Nat.max (tcount_ m) (S k) ->
  (forall j, (tcount_ m <= j < tcount_ m')%nat -> j = k) ->
  next_tid_ m' = next_tid_ m + 1 -> active_tid_ m' = active_tid_ m -> tasks_wf m'.
Proof.
  intros [L C N E R U A] Hu64 Hk Hfree Htid Hne Hnr Hu Hc Hgap Hn Ha.
  assert (Hat : forall j u, thread_at m' j u -> u = t /\ j = k \/ thread_at m j u /\ j <> k).
  { intros j u [Hj Hlt]. rewrite Hu in Hj. destruct (decide (k = j)) as [<-|Hkj].
    - rewrite list_lookup_insert_eq in Hj by (rewrite L; done). left. by simplify_eq.
    - rewrite list_lookup_insert_ne in Hj by done. right. split; [|done]. split; [done|].
      destruct (decide (tcount_ m <= j)%nat); [|lia]. destruct Hkj. symmetry. apply Hgap. lia. }
  assert (Hold : forall j u, thread_at m j u -> ut_tid u < next_tid_ m).
  { intros j u Hj. destruct (decide (ut_state u = UtEmpty)) as [He|He]; [rewrite (E j u Hj He); lia|].
    by destruct (R j u Hj He). }
  split.
  - by rewrite Hu, length_insert.
  - rewrite Hc. lia.
  - lia.
  - intros j u [[-> _]|[Hj _]]%Hat He; [done|by eapply E].
  - intros j u [[-> _]|[Hj _]]%Hat He; [lia|]. pose proof (R j u Hj He). lia.
  - intros j i u v [[-> ->]|[Hj Hji]]%Hat [[-> ->]|[Hi _]]%Hat He Heq; [done|..|by eapply U].
    + pose proof (Hold i v Hi). lia.
    + pose proof (Hold j u Hj). lia.
  - intros j u [[-> _]|[Hj _]]%Hat Hr; [done|]. rewrite Ha. by eapply A.
Qed.

Lemma index_of_take {A} (P : A -> Prop) `{forall x, Decision (P x)} n (l : list A) i :
  index_of P (take n l) = Some i -> exists x, l !! i = Some x /\ (i < n)%nat /\ P x.
Proof. unfold index_of. intros ([j x] & Hf & ->)%fmap_Some. apply list_find_take in Hf. eauto. Qed.

Lemma inc64_small z : 0 <= z -> u64 (z + 1) -> inc64 z = z + 1.
Proof. intros. unfold inc64. by apply w64_small. Qed.

Lemma wf_create_main_thread i m :
  tasks_wf m -> u64 (next_tid_ m + 1) -> tasks_wf (create_main_thread i m).1.
Proof.
  intros Hwf Hu. unfold create_main_thread. destruct (processes_ m !! i) as [p|]; [|done]. case_match; [done|].
  unfold allocate_thread_slot. pose proof (tw_next m Hwf) as Hpos. pose proof (tw_count m Hwf) as Hcnt.
  destruct (index_of _ (threads m)) as [k|] eqn:Hf.
  - apply index_of_take in Hf as (u & Hk & Hlt & He).
    apply (wf_new_thread m _ k (UserThread0 <| ut_tid := next_tid_ m |> <| ut_pid := pr_pid p |>
             <| ut_state := UtCreated |> <| ut_entry := pr_entry p |>
             <| ut_user_stack_pointer := w64 (pr_user_stack_top p - 16) |>
             <| ut_address_space_root := pr_address_space_root p |> <| ut_rflags := 0x202 |>)); try done.
    + lia.
    + intros v [Hv _]. congruence.
    + cbn. lia.
    + cbn. lia.
    + cbn. by apply inc64_small; [lia|].
  - case_decide as Hfull; [done|].
    apply (wf_new_thread m _ (tcount_ m) (UserThread0 <| ut_tid := next_tid_ m |> <| ut_pid := pr_pid p |>
             <| ut_state := UtCreated |> <| ut_entry := pr_entry p |>
             <| ut_user_stack_pointer := w64 (pr_user_stack_top p - 16) |>
             <| ut_address_space_root := pr_address_space_root p |> <| ut_rflags := 0x202 |>)); try done.
    + lia.
    + intros v [_ Hv]. lia.
    + cbn. lia.
    + cbn. lia.
    + cbn. by apply inc64_small; [lia|].
Qed.

Lemma wf_publish main_thread make m :
  tasks_wf m -> u64 (next_tid_ m + 1) -> tasks_wf (publish_process main_thread make m).1.
Proof.
  intros Hwf Hu. unfold publish_process.
  assert (Ha : tame m (allocate_process_slot m).1) by (unfold allocate_process_slot; repeat case_match; auto with tame).
  destruct (allocate_process_slot m) as [m1 [i|]]; [|by eapply tame_wf]. cbn [fst] in Ha.
  set (m2 := m1 <| next_pid_ ::= inc64 |> <| processes_ ::= _ |>).
  assert (Hwf2 : tasks_wf m2) by (eapply tame_wf; [|exact Hwf]; by trans m1; [|apply tame_same]).
  assert (Hu2 : u64 (next_tid_ m2 + 1)) by (change (next_tid_ m2) with (next_tid_ m1); by rewrite (tm_next _ _ Ha)).
  clearbody m2. set (r := if main_thread then _ else _).
  assert (Hr : tasks_wf r.1).
  { unfold r. destruct main_thread; [|done]. pose proof (wf_create_main_thread i m2 Hwf2 Hu2).
    by destruct (create_main_thread i m2). }
  clearbody r. destruct r as [m3 ok]. cbn [fst] in Hr. destruct ok; [|done]. cbn [negb].
  pose proof (tame_install_default i m3) as Ht. destruct (install_default_standard_fds i m3) as [m4 ok].
  assert (tasks_wf m4) by (by eapply tame_wf). by destruct ok.
Qed.

(** The active thread may be set running. *)
Lemma wf_run_active f m k t :
  tasks_wf m -> thread_at m k t -> ut_state t <> UtEmpty -> ut_tid t = active_tid_ m ->
  (forall t, ut_tid (f t) = ut_tid t) -> (forall t, ut_state (f t) <> UtEmpty) -> tasks_wf (on_thread k f m).
Proof.
  intros [L C N E R U A] Hk Hne Hact Hft Hfs.
  assert (Hat : forall j u, thread_at (on_thread k f m) j u -> u = f t /\ j = k \/ thread_at m j u).
  { intros j u [Hj Hlt]. cbn in Hj, Hlt. destruct (decide (k = j)) as [<-|Hkj].
    - rewrite list_lookup_alter_eq, (proj1 Hk) in Hj. left. by simplify_eq/=.
    - rewrite list_lookup_alter_ne in Hj by done. by right. }
  split.
  - cbn. by rewrite length_alter.
  - done.
  - done.
  - intros j u [[-> _]|Hj]%Hat He; [by destruct (Hfs t)|by eapply E].
  - intros j u [[-> _]|Hj]%Hat He; [rewrite Hft; by eapply R|by eapply R].
  - intros j i u v [[-> ->]|Hj]%Hat [[-> ->]|Hi]%Hat He Heq; [done|..|by eapply U].
    + apply (U k i t v); [done..|]. by rewrite Heq, Hft.
    + apply (U j k u t); [done..|]. by rewrite <-Heq, Hft.
  - intros j u [[-> _]|Hj]%Hat Hr; [by rewrite Hft|by eapply A].
Qed.

(** The current thread, set aside when another one is activated. *)
Definition set_aside (tid : Z) (m : UserspaceManager) : UserspaceManager :=
  if negb (active_tid_ m =? 0) && negb (active_tid_ m =? tid)
  then match find_thread m (active_tid_ m) with
       | Some (c, _) => on_thread c preempt m
       | None => m
       end
  else m.

Lemma tame_set_aside tid m : tame m (set_aside tid m).
Proof.
  unfold set_aside. case_match; [|done]. dmatch as [[c t]|]; [apply tame_preempt|done].
Qed.

Lemma set_aside_active tid m : tasks_wf m -> tasks_wf (set_aside tid m <| active_tid_ := tid |>).
Proof.
  intros Hwf. pose proof (tame_set_aside tid m) as Ht. assert (Hwf1 : tasks_wf (set_aside tid m)) by (by eapply tame_wf).
  destruct (decide (active_tid_ m = tid)) as [Heq|Hne].
  { eapply wf_same; [exact Hwf1|done..|]. cbn. by rewrite (tm_active _ _ Ht). }
  apply wf_set_active; [done|]. rewrite (tm_active _ _ Ht). unfold set_aside.
  destruct (Z.eqb_spec (active_tid_ m) 0) as [H0'|H0'].
  - intros i t Hi Htid Hr. assert (ut_state t <> UtEmpty) as Hne' by (by rewrite Hr).
    pose proof (tw_range m Hwf i t Hi Hne'). lia.
  - rewrite (proj2 (Z.eqb_neq _ _) Hne). cbn [negb andb].
    apply find_thread_not_running; [done|..]; intros t; unfold preempt; by case_decide.
Qed.

Lemma activate_thread_cases tid m :
  activate_thread tid m = (m, false) \/
  exists k next i process m',
    find_thread m tid = Some (k, next) /\ dispatchable next /\ find_runnable m (ut_pid next) = Some (i, process) /\
    activate_thread tid m = (m', true) /\
    uthreads_ m' = alter (fun t => t <| ut_state := UtRunning |> <| ut_switch_count ::= inc64 |>) k
                     (uthreads_ (set_aside tid m)) /\
    processes_ m' = alter (fun p => p <| pr_switch_count ::= inc64 |>) i (processes_ m) /\
    pcount_ m' = pcount_ m /\ tcount_ m' = tcount_ m /\ next_tid_ m' = next_tid_ m /\ active_tid_ m' = tid /\
    last_user_pick_index_ m' = match index_of (fun t => ut_tid t = tid) (threads m') with
                               | Some j => Z.of_nat j | None => last_user_pick_index_ m end.
Proof.
  unfold activate_thread. destruct (find_thread m tid) as [[k next]|] eqn:Hf; [|by left].
  case_decide as Hd; [|by left]. destruct (find_runnable m (ut_pid next)) as [[i process]|] eqn:Hp; [|by left].
  right. fold (set_aside tid m). pose proof (find_thread_Some _ _ _ _ Hf) as (_ & _ & Htid & _).
  pose proof (tame_set_aside tid m) as Ht. pose proof (tm_count _ _ Ht) as Hc. pose proof (tm_next _ _ Ht) as Hn.
  assert (Hsame : processes_ (set_aside tid m) = processes_ m /\ pcount_ (set_aside tid m) = pcount_ m /\
                  last_user_pick_index_ (set_aside tid m) = last_user_pick_index_ m).
  { unfold set_aside. by repeat case_match. }
  destruct Hsame as (Hs1 & Hs2 & Hs3). rewrite <-Hc, <-Hn, <-Hs1, <-Hs2, <-Hs3.
  generalize (set_aside tid m). intros m0. exists k, next, i, process. eexists.
  split; [done|]. split; [done|]. split; [done|]. split; [reflexivity|].
  set (m2 := on_process i _ _ <| active_tid_ := _ |> <| active_pid_ := _ |> <| last_selected_tid_ := _ |> <| current_slice_ticks_ := 0 |>).
  destruct (index_of _ (threads m2)) as [j|] eqn:Hix; (split_and!; [done..|]).
  - change (threads (m2 <| last_user_pick_index_ := Z.of_nat j |>)) with (threads m2). by rewrite Hix.
  - by rewrite Hix.
Qed.

Lemma wf_activate tid m : tasks_wf m -> tasks_wf (activate_thread tid m).1.
Proof.
  intros Hwf. destruct (activate_thread_cases tid m) as [->|(k & next & i & p & m' & Hf & Hd & _ & -> & Hu & _ & _ & Hc & Hn & Ha & _)]; [done|].
  cbn [fst]. pose proof (set_aside_active tid m Hwf) as Hwf1. pose proof (tame_set_aside tid m) as Ht.
  pose proof (find_thread_Some _ _ _ _ Hf) as (Hk & Hlt & Htid & Hne).
  set (m1 := set_aside tid m) in *.
  destruct (uthreads_ m1 !! k) as [t|] eqn:Hk1.
  2:{ apply lookup_lt_Some in Hk. apply lookup_ge_None in Hk1. rewrite (tm_length _ _ Ht) in Hk1. lia. }
  destruct (tm_threads _ _ Ht k t Hk1) as (u & Hu1 & Hct & Hce & _). assert (u = next) as -> by congruence.
  assert (Hwf2 : tasks_wf (on_thread k (fun t => t <| ut_state := UtRunning |> <| ut_switch_count ::= inc64 |>)
                    (m1 <| active_tid_ := tid |>))).
  { apply (wf_run_active _ _ k t); [done| |by rewrite Hce|by rewrite Hct|done..].
    split; [done|]. cbn. by rewrite (tm_count _ _ Ht). }
  eapply wf_same; [exact Hwf2|done| |rewrite Hn; cbn; by rewrite (tm_next _ _ Ht)|done].
  rewrite Hc. cbn. by rewrite (tm_count _ _ Ht).
Qed.

Lemma wf_restore_context c m : tasks_wf m -> tasks_wf (restore_context c m).1.
Proof. intros Hwf. unfold restore_context. repeat (case_match; try done). by apply wf_activate. Qed.

(** The state a call that keeps the invariant leaves. *)
Ltac wf_call lem :=
  let H := fresh "Hw" in
  pose proof lem as H;
  match type of H with tasks_wf (fst ?e) => destruct e as [? ?]; cbn [fst] in H end.
Ltac wf_tame lem :=
  let H := fresh "Ht" in let H' := fresh "Hw" in
  pose proof lem as H;
  match type of H with
  | tame ?m (fst ?e) =>
    assert (tasks_wf (fst e)) as H' by (eapply tame_wf; [exact H|done]);
    destruct e as [? ?]; cbn [fst] in H, H'
  end.

Lemma wf_switch preempted c m : tasks_wf m -> tasks_wf (switch_from_frame preempted c m).1.1.
Proof.
  intros Hwf. unfold switch_from_frame. case_match; [done|]. case_match; [done|].
  wf_tame (tame_save_frame (current_tid m) (cpu_frame c) m). case_match; [done|].
  wf_tame (tame_mark_active u). case_match; [done|]. wf_tame (tame_select u0). destruct o as [next|]; [|by apply wf_activate].
  case_match; [by apply wf_activate|]. wf_call (wf_activate (lc_tid next) u1 Hw1). case_match; [by apply wf_activate|].
  set (m5 := if preempted then _ else u2).
  assert (tasks_wf m5) by (unfold m5; destruct preempted; [eapply tame_wf; [apply tame_preempt_switch|]|]; done).
  clearbody m5. dmatch as [[k t]|]; [done|by apply wf_activate].
Qed.

Lemma current_tid_active m : current_tid m <> 0 -> current_tid m = active_tid_ m.
Proof. unfold current_tid. by repeat case_match. Qed.

Lemma wf_block rdx gate with_tick timer block c m :
  (forall m, tame m (timer m)) -> (forall m, tame m (block m).1) -> current_tid m <> 0 ->
  tasks_wf m -> tasks_wf (block_from_frame rdx gate with_tick timer block c m).1.1.
Proof.
  intros Htimer Hblock Hcur Hwf. unfold block_from_frame. pose proof (current_tid_active m Hcur) as Hact.
  set (tid := current_tid m) in *. clearbody tid. wf_tame (tame_select m). destruct o as [next|]; [|done].
  case_match; [done|]. dmatch as [[n t]|]; [|done]. pose proof (Htimer u) as Ht1.
  assert (Hw1 : tasks_wf (timer u)) by (by eapply tame_wf). set (m1 := timer u) in *. clearbody m1.
  match goal with |- context [save_frame tid ?f m1] => wf_tame (tame_save_frame tid f m1) end. case_match; [done|].
  wf_tame (Hblock u0). destruct b0; [|done]. cbn [negb].
  assert (Ha : active_tid_ u1 = tid).
  { rewrite (tm_active _ _ Ht2), (tm_active _ _ Ht0), (tm_active _ _ Ht1), (tm_active _ _ Ht). by symmetry. }
  pose proof (wf_activate (lc_tid next) u1 Hw2) as Hwa.
  destruct (activate_thread_cases (lc_tid next) u1) as [E|(k & ? & ? & ? & m' & _ & _ & _ & E & _)]; rewrite E in Hwa |- *.
  - cbn [negb fst]. destruct (find_thread u1 tid) as [[k v]|] eqn:Hf; [|done].
    apply find_thread_Some in Hf as (Hk & Hlt & Htid & Hne).
    apply (wf_run_active _ _ k v); [done..|by rewrite Htid|done|done].
  - cbn [negb fst] in *. destruct gate; [|done]. wf_tame (tame_gate m'). by case_match.
Qed.

Lemma wf_block_pipe w fd c m : tasks_wf m -> tasks_wf (block_user_pipe_syscall_from_frame w fd c m).1.1.
Proof.
  intros Hwf. unfold block_user_pipe_syscall_from_frame. case_match; [done|]. case_match; [|done]. bsimp.
  apply wf_block; [done|intros; apply tame_block_pipe|done|done].
Qed.
Lemma wf_block_wait pid c m : tasks_wf m -> tasks_wf (block_user_wait_syscall_from_frame pid c m).1.1.
Proof.
  intros Hwf. unfold block_user_wait_syscall_from_frame. case_match; [done|]. bsimp.
  apply wf_block; [done|intros; apply tame_block_process|done|done].
Qed.
Lemma wf_block_wait_any c m : tasks_wf m -> tasks_wf (block_user_wait_any_syscall_from_frame c m).1.1.
Proof.
  intros Hwf. unfold block_user_wait_any_syscall_from_frame. case_match; [done|]. bsimp.
  apply wf_block; [done|intros; apply tame_block_any|done|done].
Qed.
Lemma wf_block_sleep now d c m : tasks_wf m -> tasks_wf (block_user_sleep_syscall_from_frame now d c m).1.1.
Proof.
  intros Hwf. unfold block_user_sleep_syscall_from_frame. case_match; [done|]. bsimp.
  apply wf_block; [|intros; apply tame_block_until|done|done]. intros m1. case_match; auto with tame.
Qed.

Lemma wf_exit_frame code c m : tasks_wf m -> tasks_wf (exit_user_thread_from_frame code c m).1.1.
Proof.
  intros Hwf. unfold exit_user_thread_from_frame. case_match; [done|]. case_match; [done|].
  wf_call (wf_exit (current_pid m) code Exited m Hwf). case_match; [done|].
  wf_tame (tame_select u). destruct o as [next|]; [|done]. wf_call (wf_activate (lc_tid next) u0 Hw0).
  case_match; [done|]. by dmatch as [[k t]|].
Qed.

Lemma wf_lapic_tick ticks c m : tasks_wf m -> tasks_wf (lapic_tick ticks c m).1.
Proof.
  intros Hwf. unfold lapic_tick. set (m1 := if from_user _ then _ else m).
  assert (Hw1 : tasks_wf m1) by (unfold m1; case_match; [eapply tame_wf; [apply tame_user_tick|]|]; done).
  clearbody m1. assert (Hw2 : tasks_wf (wake_sleepers ticks m1).1) by (eapply tame_wf; [apply tame_wake_sleepers|done]).
  set (m2 := (wake_sleepers ticks m1).1) in *. clearbody m2. case_match; [|done].
  wf_tame (tame_timeslice m2). destruct b; [|done]. pose proof (wf_switch true c u Hw) as Hs.
  unfold preempt_user_thread_from_frame. by destruct (switch_from_frame true c u) as [[? ?] ?].
Qed.

(** ** The transition system

    One step is one operation of the manager, called by a system call handler, or
    one entry from an interrupt with any frame.  New processes are created while
    thread identifiers last. *)
Inductive user_step (m : UserspaceManager) : UserspaceManager -> Prop :=
| step_initialize : user_step m (initialize m)
| step_create main_thread make : u64 (next_tid_ m + 1) -> user_step m (publish_process main_thread make m).1
| step_mark_runnable pid : user_step m (mark_runnable pid m).1
| step_activate tid : user_step m (activate_thread tid m).1
| step_restore x : user_step m (restore_context x m).1
| step_exit pid code reason : user_step m (exit_process pid code reason m).1
| step_kill caller group code reason : user_step m (kill_process_group caller group code reason m).1
| step_stop caller group : user_step m (stop_process_group caller group m).1
| step_continue caller group : user_step m (continue_process_group caller group m).1
| step_reap pid : user_step m (reap_exited pid m).1
| step_wake_sleepers now : user_step m (wake_sleepers now m).1
| step_set_parent pid parent : user_step m (set_parent pid parent m).1
| step_set_group caller pid group : user_step m (set_process_group caller pid group m).1
| step_set_foreground caller group : user_step m (set_foreground_process_group caller group m).1
| step_open pid path : user_step m (open_file pid path m).1
| step_redirect pid fd path : user_step m (redirect_file pid fd path m).1
| step_append pid fd path : user_step m (redirect_file_append pid fd path m).1
| step_seek pid fd offset : user_step m (seek_file pid fd offset m).1
| step_read pid fd size t : user_step m (read_file pid fd size m t).1.1
| step_write pid fd buffer t : user_step m (write_file pid fd buffer m t).1.1
| step_close pid fd : user_step m (close_file pid fd m).1
| step_duplicate pid fd : user_step m (duplicate_file pid fd m).1
| step_duplicate_to pid fd target : user_step m (duplicate_file_to pid fd target m).1
| step_inherit_fds child parent : user_step m (inherit_standard_fds child parent m).1
| step_create_pipe : user_step m (create_pipe m).1
| step_attach_pipe pid fd id write_end : user_step m (attach_pipe_fd pid fd id write_end m).1
| step_close_pipe id : user_step m (close_pipe id m).1
| step_path pid path op : user_step m (on_path pid path op m).1
| step_paths pid a b op : user_step m (on_paths pid a b op m).1
| step_directory pid path : user_step m (set_current_directory pid path m).1
| step_arguments pid args : user_step m (set_arguments pid args m).1
| step_environment pid env : user_step m (set_environment pid env m).1
| step_variable pid op : user_step m (run_environment pid op m).1
| step_inherit_environment child parent : user_step m (inherit_environment child parent m).1
| step_record_syscall number : user_step m (record_current_syscall number m).1
| step_yield c : user_step m (yield_user_thread_from_frame c m).1.1
| step_preempt c : user_step m (preempt_user_thread_from_frame c m).1.1
| step_wait_pipe write_end fd c : user_step m (block_user_pipe_syscall_from_frame write_end fd c m).1.1
| step_wait pid c : user_step m (block_user_wait_syscall_from_frame pid c m).1.1
| step_wait_any c : user_step m (block_user_wait_any_syscall_from_frame c m).1.1
| step_sleep now delta c : user_step m (block_user_sleep_syscall_from_frame now delta c m).1.1
| step_exit_frame code c : user_step m (exit_user_thread_from_frame code c m).1.1
| step_tick ticks c : user_step m (lapic_tick ticks c m).1.

Lemma wf_initialize m : tasks_wf m -> tasks_wf (initialize m).
Proof.
  intros [L _ _ _ _ _ _]. split; try done.
  - unfold kMaxUserThreads. cbn. lia.
  - intros i t [_ Hi]. cbn in Hi. lia.
  - intros i t [_ Hi]. cbn in Hi. lia.
  - intros i j t u [_ Hi]. cbn in Hi. lia.
  - intros i t [_ Hi]. cbn in Hi. lia.
Qed.

Lemma user_step_wf m m' : tasks_wf m -> user_step m m' -> tasks_wf m'.
Proof.
  intros Hwf Hs. destruct Hs;
    first [ by apply wf_initialize | by apply wf_publish | by apply wf_activate | by apply wf_restore_context
          | by apply wf_exit | by apply wf_kill | by apply wf_stop | by apply wf_continue | by apply wf_reap
          | by apply wf_switch | by apply wf_block_pipe | by apply wf_block_wait | by apply wf_block_wait_any
          | by apply wf_block_sleep | by apply wf_exit_frame | by apply wf_lapic_tick | idtac ];
    (eapply tame_wf; [|exact Hwf]).
  - apply tame_mark_runnable.
  - apply tame_wake_sleepers.
  - apply tame_set_parent.
  - apply tame_set_process_group.
  - apply tame_set_foreground.
  - apply tame_open_file.
  - apply tame_redirect.
  - apply tame_redirect_append.
  - apply tame_seek.
  - apply tame_read_file.
  - apply tame_write_file.
  - apply tame_close_file.
  - apply tame_duplicate.
  - apply tame_duplicate_to.
  - apply tame_inherit_fds.
  - apply tame_create_pipe.
  - apply tame_attach.
  - apply tame_cleanup.
  - apply tame_on_path.
  - apply tame_on_paths.
  - apply tame_set_current_directory.
  - apply tame_set_arguments.
  - apply tame_set_environment.
  - apply tame_run_environment.
  - apply tame_inherit_environment.
  - apply tame_record_syscall.
Qed.

Lemma initial_wf v memory : tasks_wf (initial_manager v memory).
Proof.
  split; try done.
  - unfold kMaxUserThreads. cbn. lia.
  - intros i t [_ Hi]. cbn in Hi. lia.
  - intros i t [_ Hi]. cbn in Hi. lia.
  - intros i j t u [_ Hi]. cbn in Hi. lia.
  - intros i t [_ Hi]. cbn in Hi. lia.
Qed.

Lemma reachable_wf v memory m : rtc user_step (initial_manager v memory) m -> tasks_wf m.
Proof.
  intros Hr. pose proof (initial_wf v memory) as Hwf. revert Hwf.
  induction Hr as [|m1 m2 m3 Hs _ IH]; [done|]. intros Hwf. apply IH. by eapply user_step_wf.
Qed.

(** C5. At most one user thread runs.  In every state the manager reaches, by any sequence
    of its operations and of interrupt entries, live threads have distinct nonzero
    identifiers, and a thread marked running is the active one; so
    [running_thread_count] is at most 1. *)
Theorem at_most_one_user_thread_runs v memory m :
  rtc user_step (initial_manager v memory) m ->
  tasks_wf m /\ running_thread_count m <= 1.
Proof.
  intros Hr. pose proof (reachable_wf v memory m Hr) as Hwf. split; [done|].
  unfold running_thread_count, count_if, zlen. enough (length (filter (fun t => ut_state t = UtRunning) (threads m)) <= 1)%nat by lia.
  apply filter_at_most_one. intros i j t u Hi Hj Ht Hu.
  apply lookup_take_Some in Hi as [Hi Hil], Hj as [Hj Hjl].
  apply (tw_unique m Hwf i j t u); [done..|by rewrite Ht|].
  by rewrite (tw_running m Hwf i t), (tw_running m Hwf j u).
Qed.

End Tame.

(** The first process of the example runs. *)
Lemma at_most_one_user_thread_runs_witness :
  tasks_wf (activate_thread 1 demo_two).1 /\ running_thread_count (activate_thread 1 demo_two).1 <= 1.
Proof.
  apply (at_most_one_user_thread_runs demo_vfs (sa_const 0)). unfold demo_two.
  eapply rtc_r; [|apply step_activate]. eapply rtc_r; [|apply step_mark_runnable].
  eapply rtc_r; [|apply step_mark_runnable]. eapply rtc_r; [|apply step_set_parent].
  eapply rtc_r; [|apply step_create; vm_compute; done]. apply rtc_once. apply step_create. vm_compute. done.
Defined.
