(* ===== verification/UserFamily.v ===== *)
(** * Whose record an operation of the userspace manager changes

    [touches I m m'] says that the process records outside the slots [I] are as they
    were, and that no slot changed its pid.  Every operation of the manager touches only
    the slots that the pid or the slot it is given selects; entering a new process takes
    a slot that no live process uses.  The system calls rest on these lemmas. *)

From stdpp Require Import strings.
From S2P Require Import Prelude Path Vfs Userspace UserFiles UserEnv UserTasks.
#[local] Open Scope Z_scope.

(** The slots that hold a process have different pids below the next one. *)
Record pids_wf (m : UserspaceManager) : Prop := {
  pw_length : length (processes_ m) = kMaxUserProcesses;
  pw_count : (pcount_ m <= kMaxUserProcesses)%nat;
  pw_next : 0 < next_pid_ m;
  pw_below i p : processes_ m !! i = Some p -> (i < pcount_ m)%nat -> 0 < pr_pid p < next_pid_ m;
  pw_distinct i j p q : processes_ m !! i = Some p -> processes_ m !! j = Some q -> (i < pcount_ m)%nat ->
    (j < pcount_ m)%nat -> pr_pid p = pr_pid q -> i = j
}.

Record touches (I : nat -> Prop) (m m' : UserspaceManager) : Prop := {
  to_count : pcount_ m' = pcount_ m;
  to_next : next_pid_ m' = next_pid_ m;
  to_length : length (processes_ m') = length (processes_ m);
  to_pid i p' : processes_ m' !! i = Some p' -> exists p, processes_ m !! i = Some p /\ pr_pid p = pr_pid p';
  to_slot i : ~ I i -> processes_ m' !! i = processes_ m !! i
}.

(** The slots outside [I] are as they were. *)
Definition spares (I : nat -> Prop) (m m' : UserspaceManager) : Prop :=
  forall i, ~ I i -> processes_ m' !! i = processes_ m !! i.

(** Every process with this pid is in [I]. *)
Definition allowed (I : nat -> Prop) (pid : Z) (m : UserspaceManager) : Prop :=
  forall i p, processes_ m !! i = Some p -> (i < pcount_ m)%nat -> pr_pid p = pid -> I i.

Create HintDb touches.

Section Relation.
Context {I : nat -> Prop}.

#[export] Instance touches_refl : Reflexive (touches I).
Proof. intros m. split; [done..| |done]. intros i p Hi. by exists p. Qed.
#[export] Instance touches_trans : Transitive (touches I).
Proof.
  intros a b c [C1 N1 L1 P1 S1] [C2 N2 L2 P2 S2]. split; [congruence..| |].
  - intros i p Hi. destruct (P2 i p Hi) as (q & Hq & Eq). destruct (P1 i q Hq) as (r & Hr & Er). exists r.
    split; congruence.
  - intros i Hi. by rewrite S2, S1.
Qed.
#[export] Instance spares_refl : Reflexive (spares I).
Proof. by intros m i. Qed.
#[export] Instance spares_trans : Transitive (spares I).
Proof. intros a b c H1 H2 i Hi. by rewrite H2, H1. Qed.

Lemma touches_spares m m' : touches I m m' -> spares I m m'.
Proof. intros [_ _ _ _ S] i Hi. by apply S. Qed.

Lemma touches_pids_wf m m' : touches I m m' -> pids_wf m -> pids_wf m'.
Proof.
  intros [C N L P _] [W B0 B1 B D]. split; rewrite ?C, ?N, ?L; [done..| |].
  - intros i p Hi Hc. destruct (P i p Hi) as (q & Hq & <-). by eapply B.
  - intros i j p q Hi Hj Hic Hjc E. destruct (P i p Hi) as (p' & Hp & Ep), (P j q Hj) as (q' & Hq & Eq).
    eapply D; [done..|congruence].
Qed.

Lemma allowed_touches pid m m' : touches I m m' -> allowed I pid m -> allowed I pid m'.
Proof.
  intros [C N L P _] A i p Hi Hc E. destruct (P i p Hi) as (q & Hq & Eq). rewrite C in Hc.
  eapply A; [done..|congruence].
Qed.

Lemma touches_same m m' : processes_ m' = processes_ m -> pcount_ m' = pcount_ m -> next_pid_ m' = next_pid_ m ->
  touches I m m'.
Proof. intros E C N. split; rewrite ?E; [done..| |done]. intros i p Hi. by exists p. Qed.

Lemma touches_on_process i f m : I i -> (forall p, pr_pid (f p) = pr_pid p) -> touches I m (on_process i f m).
Proof.
  intros Hi Hf. split; cbn; [done..|by rewrite length_alter| |].
  - intros j p Hj. destruct (decide (i = j)) as [->|Hne].
    + rewrite list_lookup_alter_eq in Hj. apply fmap_Some in Hj as (q & Hq & ->). by exists q.
    + rewrite list_lookup_alter_ne in Hj by done. by exists p.
  - intros j Hj. apply list_lookup_alter_ne. by intros ->.
Qed.

Lemma touches_for_each {S} (proj : S -> UserspaceManager) n (body : nat -> S -> S) s :
  (forall i s, touches I (proj s) (proj (body i s))) -> touches I (proj s) (proj (for_each n body s)).
Proof.
  intros Hb. apply (for_each_inv (fun _ s' => touches I (proj s) (proj s'))); [done|].
  intros i s' _ Hs. trans (proj s'); [done|apply Hb].
Qed.

Lemma touches_foldl {A} (f : UserspaceManager -> A -> UserspaceManager) l m :
  (forall m a, touches I m (f m a)) -> touches I m (foldl f m l).
Proof.
  intros Hf. revert m. induction l as [|a l IH]; intros m; [done|]. simpl. trans (f m a); [apply Hf|apply IH].
Qed.
End Relation.

#[export] Hint Extern 0 (touches _ _ (fst (_, _))) => cbn [fst] : touches.
#[export] Hint Extern 1 (touches _ ?m ?m) => reflexivity : touches.
#[export] Hint Extern 2 (touches _ _ (set_fd _ _ _ _)) => apply touches_on_process; [assumption|done] : touches.
#[export] Hint Extern 2 (touches _ _ (on_process _ _ _)) => apply touches_on_process; [assumption|done] : touches.
#[export] Hint Extern 3 (touches _ _ _) => apply touches_same; reflexivity : touches.

(** The result of a call that the goal takes apart. *)
Ltac touches_call lem :=
  let H := fresh "Ht" in
  pose proof lem as H;
  match type of H with
  | touches _ _ (fst ?e) => destruct e as [? ?]; cbn [fst] in H; etrans; [exact H|]; clear H
  end.

Tactic Notation "dmatch" "as" simple_intropattern(pat) "eqn" ident(E) :=
  match goal with |- context [match ?e with _ => _ end] => destruct e as pat eqn:E end.

(** ** What a lookup selects *)

Lemma allowed_find I pid m i p : allowed I pid m -> find_process m pid = Some (i, p) -> I i.
Proof. intros A (Hi & Hc & E & _)%list_find_take. by eapply A. Qed.
Lemma allowed_find_alive I pid m i p : allowed I pid m -> find_alive m pid = Some (i, p) -> I i.
Proof.
  intros A ([j q] & Hf & E)%bind_Some. case_decide; simplify_eq/=. by eapply allowed_find.
Qed.
Lemma allowed_lookup I pid m i p : allowed I pid m -> lookup_alive m pid = Some (i, p) -> I i.
Proof. intros A (Hi & Hc & E & _)%list_find_take. by eapply A. Qed.
Lemma allowed_resolve I pid m i path r : allowed I pid m -> resolve_for m pid path = Some (i, r) -> I i.
Proof.
  intros A ([j q] & Hf & E)%bind_Some. apply bind_Some in E as (s & _ & [= <- <-]). by eapply allowed_find_alive.
Qed.
Lemma allowed_fd I pid fd m j d : allowed I pid m ->
  ('(i, _) ← find_alive m pid; '(_, d) ← find_fd m i fd; Some (i, d)) = Some (j, d) -> I j.
Proof.
  intros A ([i q] & Hf & E)%bind_Some. apply bind_Some in E as ([? ?] & _ & [= <- <-]). by eapply allowed_find_alive.
Qed.
Lemma allowed_transfer I pid fd size m j d : allowed I pid m -> transfer_fd m pid fd size = Some (j, d) -> I j.
Proof.
  intros A ([i q] & Hf & E)%bind_Some. case_match; [done|]. apply bind_Some in E as ([? ?] & _ & [= <- <-]).
  by eapply allowed_find_alive.
Qed.

Section Operations.
Context `{Machine} `{Kernel} `{Terminal} {I : nat -> Prop}.

Local Abbreviation touches := (touches I).
Local Abbreviation allowed := (allowed I).

(** ** Threads, pipes and waits: no process record *)

Lemma touches_gate m : touches m (update_user_preemption_gate m).1.
Proof. unfold update_user_preemption_gate. repeat case_match; auto with touches. Qed.

Lemma touches_complete_read pipe id i t m m1 : complete_read pipe id i t m = Some m1 -> touches m m1.
Proof. unfold complete_read. intros Hc. repeat case_match; simplify_eq; by apply touches_same. Qed.
Lemma touches_complete_write pipe id i t m m1 : complete_write pipe id i t m = Some m1 -> touches m m1.
Proof. unfold complete_write. intros Hc. repeat case_match; simplify_eq; by apply touches_same. Qed.

Lemma touches_wake_pipe_waiter pipe id r w i s :
  touches (sc_manager s) (sc_manager (wake_pipe_waiter pipe id r w i s)).
Proof.
  unfold wake_pipe_waiter. destruct (uthreads_ (sc_manager s) !! i) as [t|]; [|done].
  case_decide; [|done]. case_match; [|done]. case_match; try done.
  - destruct r; [|done]. case_match eqn:Hc; [|done]. apply touches_complete_read in Hc.
    etrans; [exact Hc|]. by apply touches_same.
  - destruct w; [|done]. case_match eqn:Hc; [|done]. apply touches_complete_write in Hc.
    etrans; [exact Hc|]. by apply touches_same.
Qed.

Lemma touches_wake_rounds n pipe id r w m woken : touches m (wake_rounds n pipe id r w m woken).1.
Proof.
  revert r w m woken. induction n as [|n IH]; intros r w m woken; [done|]. cbn [wake_rounds].
  assert (touches m (sc_manager (wake_pass pipe id r w m woken))) as Hp.
  { apply (touches_for_each sc_manager _ _ (mkScan m woken false false)). intros. apply touches_wake_pipe_waiter. }
  case_match; [|done]. etrans; [exact Hp|apply IH].
Qed.

Lemma touches_wake_pipe_waiters id r w m : touches m (wake_pipe_waiters id r w m).1.
Proof. unfold wake_pipe_waiters. case_match; [done|]. apply touches_wake_rounds. Qed.

Lemma touches_wake_pipes r w ids m : touches m (wake_pipes r w ids m).
Proof. apply touches_foldl. intros. apply touches_wake_pipe_waiters. Qed.

Lemma touches_wake_process_waiters pid code m : touches m (wake_process_waiters pid code m).1.
Proof.
  unfold wake_process_waiters. case_match; [done|]. unfold wake_threads.
  apply (touches_for_each fst _ _ (m, 0)). intros i [m1 w]. cbn.
  destruct (uthreads_ m1 !! i) as [t|]; [|done]. cbn. case_match eqn:Hb; [|done]. cbn.
  unfold wake_process_waiter in Hb. case_decide; [|done].
  apply bind_Some in Hb as ([? ?] & _ & Hb). apply bind_Some in Hb as ([? ?] & _ & Hb).
  repeat case_match; try done. apply bind_Some in Hb as (d & _ & [= <-]). by apply touches_same.
Qed.

Lemma touches_cleanup id m : touches m (cleanup_pipe_if_unreferenced id m).1.
Proof.
  unfold cleanup_pipe_if_unreferenced. dmatch as [[k p]|]; [|done].
  destruct (pipe_has_live_reader m id), (pipe_has_live_writer m id); cbn [negb orb fst];
    auto using touches_wake_pipe_waiters with touches.
  etrans; [apply (touches_wake_pipe_waiters id true true m)|]. by apply touches_same.
Qed.

Lemma touches_create_pipe m : touches m (create_pipe m).1.
Proof. unfold create_pipe. repeat case_match; auto with touches. Qed.
Lemma touches_select m : touches m (select_next_runnable_thread m).1.
Proof. unfold select_next_runnable_thread. repeat case_match; auto with touches. Qed.
Lemma touches_on_path pid path op m : touches m (on_path pid path op m).1.
Proof. unfold on_path. repeat case_match; auto with touches. Qed.
Lemma touches_on_paths pid a b op m : touches m (on_paths pid a b op m).1.
Proof. unfold on_paths. repeat case_match; auto with touches. Qed.
Lemma touches_set_foreground c g m : touches m (set_foreground_process_group c g m).1.
Proof. unfold set_foreground_process_group. repeat case_match; auto with touches. Qed.
Lemma touches_vfs_open path m : touches m (vfs_open path m).1.
Proof. unfold vfs_open. case_match. auto with touches. Qed.
Lemma touches_retain_descriptor d m : touches m (retain_descriptor d m).1.
Proof. unfold retain_descriptor. repeat case_match; auto with touches. Qed.

(** ** Operations on one slot *)

Section Slot.
Context (i : nat) (Hi : I i).

Lemma touches_close_process_descriptor k m : touches m (close_process_descriptor i k m).
Proof.
  unfold close_process_descriptor. repeat case_match; auto with touches.
  etrans; [|apply touches_on_process; [exact Hi|done]]. auto with touches.
Qed.
Lemma touches_close_numbered fd m : touches m (close_numbered i fd m).
Proof.
  apply (touches_for_each id). intros k m1. cbn. repeat case_match; auto using touches_close_process_descriptor with touches.
Qed.
Lemma touches_sync h o m : touches m (sync_descriptor_offsets i h o m).
Proof. unfold sync_descriptor_offsets. case_match; auto with touches. Qed.
Lemma touches_take_fd_number m : touches m (take_fd_number i m).1.
Proof. unfold take_fd_number. case_match. by apply touches_on_process. Qed.

Lemma touches_install fd path m : touches m (install_vfs_descriptor i fd path m).1.
Proof.
  unfold install_vfs_descriptor. touches_call (touches_vfs_open path m). case_match; [done|].
  etrans; [apply (touches_close_numbered fd)|]. generalize (close_numbered i fd u). intros m'.
  destruct (free_fd m' i); auto with touches.
Qed.
Lemma touches_install_default m : touches m (install_default_standard_fds i m).1.
Proof.
  unfold install_default_standard_fds. touches_call (touches_install kStdinFd dev_tty m). case_match; [done|].
  touches_call (touches_install kStdoutFd dev_tty u). case_match; [done|]. apply touches_install.
Qed.

Lemma touches_read_pipe id size m : touches m (read_pipe i id size m).1.
Proof.
  unfold read_pipe. dmatch as [[k p]|]; [|done]. case_match; [done|]. cbn [fst].
  etrans; [|apply touches_on_process; [exact Hi|done]]. etrans; [|apply touches_wake_pipe_waiters]. by apply touches_same.
Qed.
Lemma touches_write_pipe id buffer m : touches m (write_pipe i id buffer m).1.
Proof.
  unfold write_pipe. case_match; [done|]. dmatch as [[k p]|]; [|done]. case_match; [done|]. cbn [fst].
  etrans; [|apply touches_on_process; [exact Hi|done]]. etrans; [|apply touches_wake_pipe_waiters]. by apply touches_same.
Qed.

Lemma touches_inherit_fd c fd m : touches m (inherit_fd i c fd m).1.
Proof.
  unfold inherit_fd. dmatch as [[s d]|]; [|done].
  etrans; [apply (touches_close_numbered fd)|]. generalize (close_numbered i fd m). intros m'.
  generalize (default FileDescriptor0 (fd_at m' c s)). intros source.
  assert (touches m' (inherited_descriptor fd source m').1) as Hd.
  { unfold inherited_descriptor. repeat case_match; auto with touches. }
  destruct (inherited_descriptor fd source m') as [m2 o]. etrans; [exact Hd|]. cbn [fst].
  repeat case_match; auto with touches.
Qed.

Lemma touches_mark_exited code reason tid m : touches m (mark_exited i code reason tid m).
Proof.
  unfold mark_exited. set (m1 := on_process i _ m). trans m1; [by apply touches_on_process|].
  repeat case_match; auto with touches.
Qed.
Lemma touches_stop_process p m : touches m (stop_process i p m).
Proof.
  unfold stop_process. set (m1 := on_process i _ m). trans m1; [by apply touches_on_process|].
  repeat case_match; auto with touches.
Qed.
End Slot.

(** ** Operations on the processes with a pid *)

Section Pid.
Context (pid : Z).

Local Ltac found A :=
  match goal with
  | E : find_process _ pid = Some (?i, _) |- _ => pose proof (allowed_find I pid _ _ _ A E)
  | E : find_alive _ pid = Some (?i, _) |- _ => pose proof (allowed_find_alive I pid _ _ _ A E)
  | E : lookup_alive _ pid = Some (?i, _) |- _ => pose proof (allowed_lookup I pid _ _ _ A E)
  | E : resolve_for _ pid _ = Some (?i, _) |- _ => pose proof (allowed_resolve I pid _ _ _ _ A E)
  end.

Lemma touches_set_current_directory path m : allowed pid m -> touches m (set_current_directory pid path m).1.
Proof. intros A. unfold set_current_directory. repeat case_match; try found A; auto with touches. Qed.
Lemma touches_set_arguments args m : allowed pid m -> touches m (set_arguments pid args m).1.
Proof. intros A. unfold set_arguments. repeat case_match; try found A; auto with touches. Qed.
Lemma touches_set_environment env m : allowed pid m -> touches m (set_environment pid env m).1.
Proof. intros A. unfold set_environment. repeat case_match; try found A; auto with touches. Qed.
Lemma touches_on_environment f m : allowed pid m -> touches m (on_environment pid f m).1.
Proof. intros A. unfold on_environment. repeat case_match; try found A; auto with touches. Qed.
Lemma touches_set_parent parent m : allowed pid m -> touches m (set_parent pid parent m).1.
Proof. intros A. unfold set_parent. repeat case_match; try found A; auto with touches. Qed.
Lemma touches_inherit_environment parent m : allowed pid m -> touches m (inherit_environment pid parent m).1.
Proof.
  intros A. unfold inherit_environment. repeat case_match; try done; found A; cbn [fst];
    (set (m1 := on_process n _ m); trans m1; [by apply touches_on_process|auto with touches]).
Qed.

Lemma touches_open_file path m : allowed pid m -> touches m (open_file pid path m).1.
Proof.
  intros A. unfold open_file. dmatch as [[i r]|] eqn E; [|done]. found A. touches_call (touches_vfs_open r m).
  case_match; [done|]. case_match; [|auto with touches]. touches_call (touches_take_fd_number i ltac:(done) u).
  auto with touches.
Qed.
Lemma touches_redirect fd path m : allowed pid m -> touches m (redirect_file pid fd path m).1.
Proof.
  intros A. unfold redirect_file. case_match; [done|]. dmatch as [[i r]|] eqn E; [|done]. found A. by apply touches_install.
Qed.
Lemma touches_seek fd o m : allowed pid m -> touches m (seek_file pid fd o m).1.
Proof.
  intros A. unfold seek_file. dmatch as [[i d]|] eqn E; [|done]. pose proof (allowed_fd I pid fd m i d A E).
  case_decide; [|done]. case_match. case_match; [|auto with touches].
  etrans; [|by apply touches_sync]. auto with touches.
Qed.
Lemma touches_redirect_append fd path m : allowed pid m -> touches m (redirect_file_append pid fd path m).1.
Proof.
  intros A. unfold redirect_file_append. case_match; [done|]. dmatch as [[i r]|]; [|done].
  pose proof (touches_redirect fd path m A) as T. destruct (redirect_file pid fd path m) as [m1 ok]. cbn [fst] in T.
  etrans; [exact T|]. case_match; [|done]. apply touches_seek. by eapply allowed_touches.
Qed.
Lemma touches_read_file fd size m t : allowed pid m -> touches m (read_file pid fd size m t).1.1.
Proof.
  intros A. unfold read_file. dmatch as [[i d]|] eqn E; [|done]. pose proof (allowed_transfer I pid fd size m i d A E).
  case_match; try done.
  - dmatch as [[v t'] bytes]. cbn [fst]. etrans; [|by apply touches_on_process].
    etrans; [|by apply touches_sync]. by apply touches_same.
  - by touches_call (touches_read_pipe i ltac:(done) (fd_pipe_id d) size m).
Qed.
Lemma touches_write_file fd buffer m t : allowed pid m -> touches m (write_file pid fd buffer m t).1.1.
Proof.
  intros A. unfold write_file. dmatch as [[i d]|] eqn E; [|done].
  pose proof (allowed_transfer I pid fd (zlen buffer) m i d A E). case_match; try done.
  - dmatch as [[v t'] n]. cbn [fst]. etrans; [|by apply touches_on_process].
    etrans; [|by apply touches_sync]. by apply touches_same.
  - by touches_call (touches_write_pipe i ltac:(done) (fd_pipe_id d) buffer m).
Qed.
Lemma touches_close_file fd m : allowed pid m -> touches m (close_file pid fd m).1.
Proof.
  intros A. unfold close_file. dmatch as [[[i k] d]|] eqn E; [|done].
  apply bind_Some in E as ([j q] & E & Ed). apply bind_Some in Ed as ([? ?] & _ & [= -> -> ->]). found A. cbn [fst].
  etrans; [by apply (touches_close_process_descriptor i ltac:(done) k)|]. generalize (close_process_descriptor i k m). intros m'.
  destruct (_ =? 0); [done|apply touches_cleanup].
Qed.
Lemma touches_duplicate fd m : allowed pid m -> touches m (duplicate_file pid fd m).1.
Proof.
  intros A. unfold duplicate_file. dmatch as [[i d]|] eqn E; [|done]. pose proof (allowed_fd I pid fd m i d A E).
  case_match; [|done]. touches_call (touches_take_fd_number i ltac:(done) m).
  touches_call (touches_retain_descriptor d u). case_match; auto with touches.
Qed.
Lemma touches_duplicate_to fd target m : allowed pid m -> touches m (duplicate_file_to pid fd target m).1.
Proof.
  intros A. unfold duplicate_file_to. case_match; [done|]. dmatch as [[i d]|] eqn E; [|done].
  pose proof (allowed_fd I pid fd m i d A E). case_match; [done|].
  etrans; [by apply (touches_close_numbered i ltac:(done) target)|]. generalize (close_numbered i target m). intros m'.
  destruct (free_fd m' i); [|done]. touches_call (touches_retain_descriptor d m'). case_match; [|done]. cbn [fst].
  etrans; [|apply touches_on_process; [done|intros p; by case_match]]. auto with touches.
Qed.
Lemma touches_inherit_fds parent m : allowed pid m -> touches m (inherit_standard_fds pid parent m).1.
Proof.
  intros A. unfold inherit_standard_fds. dmatch as [[i ?]|] eqn E; [|done]. found A. dmatch as [[c ?]|]; [|done].
  touches_call (touches_inherit_fd i ltac:(done) c kStdinFd m). case_match; [done|].
  touches_call (touches_inherit_fd i ltac:(done) c kStdoutFd u). case_match; [done|]. by apply touches_inherit_fd.
Qed.
Lemma touches_mark_runnable m : allowed pid m -> touches m (mark_runnable pid m).1.
Proof.
  intros A. unfold mark_runnable. dmatch as [[i p]|] eqn E; [|done]. found A. case_decide; [|done].
  etrans; [|apply touches_gate]. set (m1 := on_process i _ m). trans m1; [by apply touches_on_process|].
  repeat case_match; auto with touches.
Qed.
Lemma touches_exit code reason m : allowed pid m -> touches m (exit_process pid code reason m).1.
Proof.
  intros A. unfold exit_process. dmatch as [[i p]|] eqn E; [|done]. found A.
  etrans; [|apply touches_gate]. etrans; [by apply (touches_mark_exited i ltac:(done) code reason (pr_main_thread_id p))|].
  etrans; [apply (touches_wake_pipes false true (held_pipes PipeRead p))|].
  etrans; [apply (touches_wake_pipes true false (held_pipes PipeWrite p))|].
  etrans; [apply (touches_wake_process_waiters (pr_pid p) code)|].
  unfold forget_active. repeat case_match; auto with touches.
Qed.
Lemma touches_attach fd id w m : allowed pid m -> touches m (attach_pipe_fd pid fd id w m).1.
Proof.
  intros A. unfold attach_pipe_fd. case_match; [done|].
  destruct (find_process m pid) as [[i p]|] eqn:E; [|done]. found A. destruct (find_pipe m id) as [q|]; [|done].
  case_decide; [|done].
  match goal with |- context [for_each _ ?body _] =>
    pose proof (touches_for_each (I:=I) fst kMaxProcessFileDescriptors body (m, 0)) as Hl
  end.
  destruct (for_each _ _ _) as [m1 r]. trans m1.
  { apply Hl. intros k [m2 r2]. cbn. repeat case_match; cbn [fst]; auto using touches_close_process_descriptor with touches. }
  cbn [fst]. trans (if r =? 0 then m1 else (cleanup_pipe_if_unreferenced r m1).1).
  { destruct (r =? 0); [reflexivity|apply touches_cleanup]. }
  destruct (free_fd _ i); auto with touches.
Qed.
Lemma touches_set_process_group c g m : allowed pid m -> touches m (set_process_group c pid g m).1.
Proof. intros A. unfold set_process_group. repeat case_match; try found A; auto with touches. Qed.

Lemma touches_clear_threads p m : touches m (clear_threads p m).
Proof. apply (touches_for_each id). intros k m1. cbn. repeat case_match; auto with touches. Qed.

Lemma touches_reap m : allowed pid m -> touches m (reap_exited pid m).1.
Proof.
  intros A. unfold reap_exited. dmatch as [[i p]|] eqn E; [|done]. found A. case_decide; [|done].
  assert (touches m (close_all_descriptors i m).1) as Hc.
  { apply (touches_for_each fst _ _ (m, [])). intros k [m1 l]. cbn.
    case_match; cbn [fst]; auto using touches_close_process_descriptor with touches. }
  destruct (close_all_descriptors i m) as [m1 closed]. etrans; [exact Hc|]. cbn [fst]. clear Hc.
  etrans; [apply (touches_foldl (fun m id => (cleanup_pipe_if_unreferenced id m).1) closed); intros; apply touches_cleanup|].
  generalize (foldl (fun m id => (cleanup_pipe_if_unreferenced id m).1) m1 closed). intros m2.
  etrans; [|apply touches_gate]. etrans; [|by apply touches_on_process].
  set (m3 := if _ && _ then _ else _). trans m3; [unfold m3; case_match; auto with touches|].
  generalize m3. clear m3. intros m3. etrans; [apply (touches_clear_threads (pr_pid p))|].
  case_match; auto with touches.
Qed.
End Pid.

(** ** Groups *)

(** A loop over a group changes the processes its body changes. *)
Lemma touches_for_group c g body m : pids_wf m ->
  (forall i p m', touches m m' -> pids_wf m' -> processes_ m' !! i = Some p -> (i < pcount_ m')%nat -> alive p ->
     touches m' (body i p m').1) ->
  touches m (for_group c g body m).1.
Proof.
  intros Hw Hb. unfold for_group.
  apply (for_each_inv (fun _ s => touches m s.1)); [done|]. intros i [m' n] Hi Hs. cbn [fst] in *.
  destruct (processes_ m' !! i) as [p|] eqn:Hp; [|done]. case_decide as Hd; [|done]. destruct Hd as (Ha & _ & _).
  pose proof (Hb i p m' Hs (touches_pids_wf _ _ Hs Hw) Hp ltac:(rewrite (to_count _ _ _ Hs); lia) Ha) as T.
  destruct (body i p m') as [m2 ok]. cbn [fst] in *. etrans; [exact Hs|exact T].
Qed.

(** A process is found by its pid alone. *)
Lemma allowed_slot i p m : pids_wf m -> processes_ m !! i = Some p -> (i < pcount_ m)%nat -> I i -> allowed (pr_pid p) m.
Proof. intros Hw Hp Hc Hi j q Hq Hcj E. by rewrite (pw_distinct _ Hw j i q p Hq Hp Hcj Hc E). Qed.

Section Groups.
Context (caller : Z) (m0 : UserspaceManager) (Hdec : forall i, Decision (I i)).

(** What is related to the caller in a later state was so from the start. *)
Lemma related_slot (R : Process -> Prop) m i p :
  (forall i p, processes_ m0 !! i = Some p -> (i < pcount_ m0)%nat -> R p -> I i) ->
  touches m0 m -> processes_ m !! i = Some p -> (i < pcount_ m)%nat -> R p -> I i.
Proof.
  intros HR T Hp Hc Hr. destruct (decide (I i)) as [|Hn]; [done|]. rewrite (to_slot _ _ _ T i Hn) in Hp.
  rewrite (to_count _ _ _ T) in Hc. by eapply HR.
Qed.

Lemma touches_kill_group g code reason m parent :
  (forall i p, processes_ m0 !! i = Some p -> (i < pcount_ m0)%nat ->
     pr_parent_pid p = caller \/ parent <> 0 /\ pr_parent_pid p = parent -> I i) ->
  (forall i p, find_alive m caller = Some (i, p) -> pr_parent_pid p = parent) ->
  touches m0 m -> pids_wf m -> touches m (kill_process_group caller g code reason m).1.
Proof.
  intros HR Hpar T Hw. unfold kill_process_group. case_match; [done|].
  destruct (find_alive m caller) as [[k q]|] eqn:E; [|done].
  apply touches_for_group; [done|]. intros i p m' T' Hw' Hp Hc Ha.
  case_match eqn:Hrel; [|done]. apply touches_exit. apply (allowed_slot i); [done..|].
  assert (T2 : touches m0 m') by (by etrans). apply (related_slot _ m' i p HR T2 Hp Hc).
  rewrite <-(Hpar _ _ eq_refl). apply orb_true_iff in Hrel as [Hr%Z.eqb_eq|[Hn Hr%Z.eqb_eq]%andb_true_iff]; [by left|right].
  split; [|done]. apply negb_true_iff in Hn. by apply Z.eqb_neq.
Qed.

Lemma touches_stop_group g m :
  (forall i p, processes_ m0 !! i = Some p -> (i < pcount_ m0)%nat -> pr_parent_pid p = caller -> I i) ->
  touches m0 m -> pids_wf m -> touches m (stop_process_group caller g m).1.
Proof.
  intros HR T Hw. unfold stop_process_group. case_match; [done|].
  apply touches_for_group; [done|]. intros i p m' T' Hw' Hp Hc Ha. case_decide as Hd; [|done]. destruct Hd as [Hr _].
  apply touches_stop_process. apply (related_slot _ m' i p HR); [by etrans|done..].
Qed.

Lemma touches_continue_group g m :
  (forall i p, processes_ m0 !! i = Some p -> (i < pcount_ m0)%nat -> pr_parent_pid p = caller -> I i) ->
  touches m0 m -> pids_wf m -> touches m (continue_process_group caller g m).1.
Proof.
  intros HR T Hw. unfold continue_process_group. case_match; [done|].
  match goal with |- context [for_group _ _ ?body _] => assert (touches m (for_group caller g body m).1) as Hg end.
  { apply touches_for_group; [done|]. intros i p m' T' Hw' Hp Hc Ha. case_decide as Hd; [|done]. destruct Hd as [Hr _].
    apply touches_on_process; [|done]. apply (related_slot _ m' i p HR); [by etrans|done..]. }
  destruct (for_group _ _ _ _) as [m1 n]. cbn [fst] in Hg. etrans; [exact Hg|].
  case_match; [done|]. touches_call (touches_gate m1). by case_match.
Qed.
End Groups.
End Operations.

(** ** The current process *)

Lemma current_pair_pid m k i p : tasks_wf m -> current_pair m = Some (k, i) -> processes_ m !! i = Some p ->
  pr_pid p = current_pid m.
Proof.
  intros Hw ([k' t] & Ht & E)%bind_Some Hp. case_decide as Hs; [done|].
  apply bind_Some in E as ([j q] & Hq & [= -> ->]). unfold current_thread in Ht.
  destruct (Z.eqb_spec (current_tid m) 0) as [|Hne]; [done|].
  unfold current_pid. rewrite (proj2 (Z.eqb_neq _ _) Hne).
  apply list_find_take in Ht as (Hk & Hkc & Htid & Hemp).
  assert (Hfind : list_find (fun t => ut_tid t = current_tid m) (threads m) = Some (k, t)).
  { apply list_find_Some. split_and!; [by apply lookup_take_Some|done|]. intros j u Hj Hlt Hu.
    apply lookup_take_Some in Hj as [Hj Hjc]. assert (k = j); [|lia].
    by apply (tw_unique _ Hw k j t u); [..|congruence]. }
  rewrite Hfind. apply bind_Some in Hq as ([j q'] & Hq & Ea). case_decide as Hal; [|done]. injection Ea as -> ->.
  apply list_find_take in Hq as (Hi & Hic & Epid & _). rewrite Hp in Hi. injection Hi as <-.
  unfold live_pid. rewrite decide_True; [done|]. apply Exists_exists. exists p. split; [|done].
  apply list_elem_of_lookup. exists i. by apply lookup_take_Some.
Qed.

Lemma touches_record I n m : tasks_wf m -> allowed I (current_pid m) m -> touches I m (record_current_syscall n m).1.
Proof.
  intros Hw A. unfold record_current_syscall. destruct (current_pair m) as [[k i]|] eqn:E; [|done]. cbn [fst].
  set (m1 := on_thread k _ m). trans m1; [by apply touches_same|]. destruct (processes_ m !! i) as [p|] eqn:Hp.
  - apply touches_on_process; [|done]. eapply A; [done| |by eapply current_pair_pid].
    apply bind_Some in E as ([k' t] & _ & E). case_decide; [done|]. apply bind_Some in E as ([j q] & Hq & [= -> ->]).
    apply bind_Some in Hq as ([j q'] & Hq & Ea). case_decide; [|done]. injection Ea as -> ->.
    by apply list_find_take in Hq as (_ & Hic & _).
  - apply touches_same; [|done..]. cbn. apply list_eq. intros j. destruct (decide (i = j)) as [->|Hne].
    + by rewrite list_lookup_alter_eq, Hp.
    + by rewrite list_lookup_alter_ne.
Qed.

(** ** Entering a process *)

Lemma touches_create_main_thread {I : nat -> Prop} i m : I i -> touches I m (create_main_thread i m).1.
Proof.
  intros Hi. unfold create_main_thread. case_match; [|done]. case_match; [done|].
  assert (touches I m (allocate_thread_slot m).1) as T.
  { unfold allocate_thread_slot. repeat case_match; auto with touches. }
  destruct (allocate_thread_slot m) as [m1 [k|]]; cbn [fst] in *; [|done].
  etrans; [exact T|]. etrans; [|by apply touches_on_process]. by apply touches_same.
Qed.

Section Publish.
Context `{Machine} `{Kernel} `{Terminal}.

(** The record is entered in a slot that no process uses. *)
Lemma publish_slot main_thread make m m' o : publish_process main_thread make m = (m', o) ->
  m' = m /\ o = None \/ exists i m1, ((exists p, processes_ m !! i = Some p /\ (i < pcount_ m)%nat /\ pr_state p = ProcEmpty) /\ pcount_ m1 = pcount_ m \/
                     i = pcount_ m /\ (i < kMaxUserProcesses)%nat /\ pcount_ m1 = S i) /\
    processes_ m1 = <[i := make (next_pid_ m)]> (processes_ m) /\ next_pid_ m1 = inc64 (next_pid_ m) /\
    touches (eq i) m1 m' /\ (o = None \/ o = Some i).
Proof.
  unfold publish_process. destruct (allocate_process_slot m) as [m1 [i|]] eqn:Ea.
  2:{ intros [= <- <-]. left. unfold allocate_process_slot in Ea. repeat case_match; by simplify_eq. }
  intros E. right. exists i, (m1 <| next_pid_ ::= inc64 |> <| processes_ ::= <[i := make (next_pid_ m1)]> |>).
  assert (Hslot : ((exists p, processes_ m !! i = Some p /\ (i < pcount_ m)%nat /\ pr_state p = ProcEmpty) /\ pcount_ m1 = pcount_ m \/
     i = pcount_ m /\ (i < kMaxUserProcesses)%nat /\ pcount_ m1 = S i) /\ processes_ m1 = processes_ m /\ next_pid_ m1 = next_pid_ m).
  { unfold allocate_process_slot in Ea. destruct (index_of _ _) as [j|] eqn:Ej.
    - injection Ea as <- <-. unfold index_of in Ej. apply fmap_Some in Ej as ([j' p] & Ej & ->).
      apply list_find_take in Ej as (Hj & Hc & Hs). split; [|done]. left. split; [|done]. by exists p.
    - case_decide; [done|]. injection Ea as <- <-. split; [|done]. right. split_and!; [done|lia|done]. }
  destruct Hslot as (Hs & Ep & En). split; [done|]. split; [cbn; by rewrite Ep, En|]. split; [cbn; by rewrite En|].
  set (m2 := m1 <| next_pid_ ::= inc64 |> <| processes_ ::= <[i := make (next_pid_ m1)]> |>) in *.
  assert (T : touches (eq i) m2 (if main_thread then let '(m, t) := create_main_thread i m2 in (m, is_found t) else (m2, true)).1).
  { destruct main_thread; [|done]. by touches_call (touches_create_main_thread (I:=eq i) i m2 eq_refl). }
  destruct (if main_thread then _ else _) as [m3 ok]. cbn [fst] in T.
  destruct ok; cbn [negb] in E; [|injection E as <- <-; by auto].
  pose proof (touches_install_default (I:=eq i) i eq_refl m3) as T'.
  destruct (install_default_standard_fds i m3) as [m4 ok]. cbn [fst] in T'.
  destruct ok; injection E as <- <-; (split; [by etrans|auto]).
Qed.

Section Entered.
Context (main_thread : bool) (make : Z -> Process) (Hmake : forall pid, pr_pid (make pid) = pid).
Context (m m' : UserspaceManager) (o : option nat) (Hrun : publish_process main_thread make m = (m', o)).

Lemma publish_pids_wf : pids_wf m -> u64 (next_pid_ m + 1) -> pids_wf m'.
Proof.
  intros Hw Hu. destruct (publish_slot _ _ _ _ _ Hrun) as [[-> _]|(i & m1 & Hs & Ep & En & T & _)]; [done|].
  apply (touches_pids_wf _ _ T). rewrite inc64_small in En by (done || (pose proof (pw_next _ Hw); lia)).
  assert (Hlen : (i < length (processes_ m))%nat).
  { rewrite (pw_length _ Hw). destruct Hs as [[(p & _ & Hc & _) _]|(-> & Hc & _)]; [|done]. pose proof (pw_count _ Hw). lia. }
  assert (Hold : forall j, (j < pcount_ m1)%nat -> j <> i -> (j < pcount_ m)%nat) by (destruct Hs as [[_ ->]|(-> & _ & ->)]; lia).
  assert (Hat : forall j p, processes_ m1 !! j = Some p -> (j < pcount_ m1)%nat ->
            j = i /\ pr_pid p = next_pid_ m \/ j <> i /\ processes_ m !! j = Some p /\ (j < pcount_ m)%nat).
  { intros j p Hj Hc. rewrite Ep in Hj. destruct (decide (j = i)) as [->|Hne].
    - left. rewrite list_lookup_insert_eq in Hj by done. injection Hj as <-. by rewrite Hmake.
    - right. rewrite list_lookup_insert_ne in Hj by done. auto. }
  split.
  - by rewrite Ep, length_insert, (pw_length _ Hw).
  - destruct Hs as [[_ ->]|(_ & ? & ->)]; [by apply pw_count|lia].
  - pose proof (pw_next _ Hw). lia.
  - intros j p Hj Hc. rewrite En. destruct (Hat j p Hj Hc) as [[_ ->]|(_ & Hj' & Hc')]; [pose proof (pw_next _ Hw); lia|].
    pose proof (pw_below _ Hw j p Hj' Hc'). lia.
  - intros j k p q Hj Hk Hjc Hkc E.
    destruct (Hat j p Hj Hjc) as [[-> Ej]|(_ & Hj' & Hj'c)], (Hat k q Hk Hkc) as [[-> Ek]|(_ & Hk' & Hk'c)]; [done|..|].
    + pose proof (pw_below _ Hw k q Hk' Hk'c). lia.
    + pose proof (pw_below _ Hw j p Hj' Hj'c). lia.
    + by eapply (pw_distinct _ Hw).
Qed.

(** The slot is outside every set of slots in use, and the new process has the next pid. *)
Lemma publish_spares (I : nat -> Prop) :
  (forall i p, processes_ m !! i = Some p -> pr_state p = ProcEmpty -> I i) -> (forall i, (pcount_ m <= i)%nat -> I i) ->
  spares I m m'.
Proof.
  intros He Hc. destruct (publish_slot _ _ _ _ _ Hrun) as [[-> _]|(i & m1 & Hs & Ep & En & T & _)]; [done|].
  assert (Hi : I i) by (destruct Hs as [[(p & Hp & _ & Hs) _]|(-> & _)]; [by eapply He|apply Hc; lia]).
  intros j Hj. rewrite (to_slot _ _ _ T j) by (by intros <-). rewrite Ep. apply list_lookup_insert_ne. by intros <-.
Qed.

Lemma publish_allowed (I : nat -> Prop) i : pids_wf m -> u64 (next_pid_ m + 1) -> o = Some i ->
  (forall i p, processes_ m !! i = Some p -> pr_state p = ProcEmpty -> I i) -> (forall i, (pcount_ m <= i)%nat -> I i) ->
  allowed I (next_pid_ m) m' /\ exists p, processes_ m' !! i = Some p /\ pr_pid p = next_pid_ m.
Proof.
  intros Hw Hu Ho He Hc. pose proof (publish_pids_wf Hw Hu) as Hw'.
  destruct (publish_slot _ _ _ _ _ Hrun) as [[_ ?]|(k & m1 & Hs & Ep & En & T & [?|Hk])]; [congruence..|].
  assert (k = i) as -> by congruence.
  assert (Hlen : (i < length (processes_ m))%nat /\ (i < pcount_ m1)%nat).
  { rewrite (pw_length _ Hw). pose proof (pw_count _ Hw). destruct Hs as [[(p & _ & ? & _) ->]|(-> & ? & ->)]; lia. }
  assert (Hi : I i) by (destruct Hs as [[(p & Hp & _ & Hs) _]|(-> & _)]; [by eapply He|apply Hc; lia]).
  destruct (processes_ m' !! i) as [p|] eqn:Hp.
  2:{ apply lookup_ge_None in Hp. rewrite (to_length _ _ _ T), Ep, length_insert in Hp. lia. }
  assert (Epid : pr_pid p = next_pid_ m).
  { destruct (to_pid _ _ _ T i p Hp) as (q & Hq & <-). rewrite Ep, list_lookup_insert_eq in Hq by lia.
    injection Hq as <-. apply Hmake. }
  split; [|by exists p]. rewrite <-Epid. apply (allowed_slot i); [done|done| |done].
  rewrite (to_count _ _ _ T). lia.
Qed.
End Entered.
End Publish.
