(* ===== verification/UserFair.v ===== *)
(** * Round robin of user threads (kernel/src/userspace/userspace.cpp,
    kernel/src/interrupts/exceptions.cpp)

    [preempt_user_thread_from_frame] chooses the next runnable thread after the
    last one chosen, in the order of the thread table.  The theorems show that a
    switch saves the interrupted thread's registers, loads those the chosen thread
    was left with and changes no other thread, and that a runnable thread gets its
    turn after at most as many switches as the table has threads, as long as the
    threads that run meanwhile have mapped instruction and stack pointers. *)

From stdpp Require Import strings relations.
From S2P Require Import Prelude Path Vfs Userspace UserFiles UserDemo UserSwitch UserTasks.
#[local] Open Scope Z_scope.

(** ** What the choice depends on *)

(** The processes as the choice sees them. *)
Definition pview (m : UserspaceManager) : list (Z * ProcessState) :=
  (fun p => (pr_pid p, pr_state p)) <$> processes m.

Definition process_runnable (l : list (Z * ProcessState)) (pid : Z) : bool :=
  match list_find (fun x => x.1 = pid /\ x.2 <> ProcEmpty) l with
  | Some (_, x) => bool_decide (x.2 = ProcRunnable)
  | None => false
  end.

Lemma find_runnable_view m pid : is_found (find_runnable m pid) = process_runnable (pview m) pid.
Proof.
  unfold find_runnable, find_process, process_runnable, pview. rewrite list_find_fmap. unfold compose. cbn.
  destruct (list_find _ (processes m)) as [[i p]|]; [|done]. cbn.
  case_decide; [by rewrite bool_decide_eq_true_2|by rewrite bool_decide_eq_false_2].
Qed.

Lemma find_runnable_found m pid : process_runnable (pview m) pid = true -> exists i p, find_runnable m pid = Some (i, p).
Proof. rewrite <-find_runnable_view. destruct (find_runnable m pid) as [[i p]|]; [|done]. eauto. Qed.

(** Accounting in a process is not seen. *)
Lemma pview_account m m' i f :
  processes_ m' = alter f i (processes_ m) -> pcount_ m' = pcount_ m ->
  (forall p, pr_pid (f p) = pr_pid p /\ pr_state (f p) = pr_state p) -> pview m' = pview m.
Proof.
  intros Hp Hc Hf. unfold pview, processes. rewrite Hp, Hc. apply list_eq. intros j. rewrite !list_lookup_fmap.
  rewrite take_alter. case_decide; [|done]. destruct (decide (i = j)) as [<-|Hne].
  - rewrite list_lookup_alter_eq. destruct (take _ _ !! i) as [p|]; [|done]. cbn. by destruct (Hf p) as [-> ->].
  - by rewrite list_lookup_alter_ne.
Qed.

Lemma pview_same m m' : processes_ m' = processes_ m -> pcount_ m' = pcount_ m -> pview m' = pview m.
Proof. intros Hp Hc. unfold pview, processes. by rewrite Hp, Hc. Qed.

(** A live thread is found by its identifier. *)
Lemma find_thread_at m k t :
  tasks_wf m -> thread_at m k t -> ut_state t <> UtEmpty -> find_thread m (ut_tid t) = Some (k, t).
Proof.
  intros Hwf Hk Hne. unfold find_thread, threads. apply list_find_Some. split_and!; [|done|done|].
  - destruct Hk. by rewrite lookup_take_lt.
  - intros j u Hj Hlt [Htid _]. apply lookup_take_Some in Hj as [Hj Hjl].
    assert (k = j) by (by apply (tw_unique m Hwf k j t u)). lia.
Qed.

Lemma index_of_tid m k t :
  tasks_wf m -> thread_at m k t -> ut_state t <> UtEmpty ->
  index_of (fun u => ut_tid u = ut_tid t) (threads m) = Some k.
Proof.
  intros Hwf Hk Hne. unfold index_of, threads.
  assert (list_find (fun u => ut_tid u = ut_tid t) (take (tcount_ m) (uthreads_ m)) = Some (k, t)) as ->; [|done].
  apply list_find_Some. split_and!; [|done|].
  - destruct Hk. by rewrite lookup_take_lt.
  - intros j u Hj Hlt Htid. apply lookup_take_Some in Hj as [Hj Hjl].
    assert (k = j) by (by apply (tw_unique m Hwf k j t u)). lia.
Qed.

Section Fair.
Context `{Machine}.

Definition mapped (t : UserThread) : Prop :=
  translate (ut_address_space_root t) (ut_entry t) <> 0 /\
  translate (ut_address_space_root t) (ut_user_stack_pointer t) <> 0.

(** Thread [i] is waiting for its turn. *)
Definition waits_turn (m : UserspaceManager) (i : nat) : Prop :=
  exists t, thread_at m i t /\ ut_state t = UtRunnable /\ process_runnable (pview m) (ut_pid t) = true.

(** A state in which a user thread runs and every thread that can be chosen can be launched. *)
Record switchable (m : UserspaceManager) (k : nat) (t : UserThread) : Prop := {
  sw_wf : tasks_wf m;
  sw_current : thread_at m k t;
  sw_running : ut_state t = UtRunning;
  sw_active : ut_tid t = active_tid_ m;
  sw_runnable : process_runnable (pview m) (ut_pid t) = true;
  sw_mapped i u : thread_at m i u -> dispatchable u -> mapped u;
  sw_pick : u32 (last_user_pick_index_ m)
}.

(** The frame of the interrupted thread [t]. *)
Definition frame_of (t : UserThread) (f : ExceptionFrame) : Prop :=
  from_user f = true /\ f_rip f <> 0 /\ f_rsp f <> 0 /\
  translate (ut_address_space_root t) (f_rip f) <> 0 /\ translate (ut_address_space_root t) (f_rsp f) <> 0.

(** The interrupted thread with its registers saved. *)
Definition saved (f : ExceptionFrame) (t : UserThread) : UserThread :=
  save_user_registers f (t <| ut_entry := f_rip f |> <| ut_user_stack_pointer := f_rsp f |>).

(** The interrupted thread, once it is saved and runnable again. *)
Definition put_back (f : ExceptionFrame) (t : UserThread) : UserThread :=
  wake (saved f t).

Lemma current_thread_at m k t : switchable m k t -> current_tid m = ut_tid t /\ ut_tid t <> 0 /\ current_thread m = Some (k, t).
Proof.
  intros [Hwf Hk Hr Ha _ _ _]. assert (Hne : ut_state t <> UtEmpty) by (by rewrite Hr).
  pose proof (tw_range m Hwf k t Hk Hne) as Hrange.
  assert (current_tid m = ut_tid t) as Hc.
  { unfold current_tid. rewrite (proj2 (Z.eqb_neq _ 0)) by lia. rewrite decide_True; [done|].
    apply Exists_exists. exists t. split; [|by rewrite Hr]. destruct Hk as [Hk Hlt].
    apply list_elem_of_lookup. exists k. unfold threads. by rewrite lookup_take_lt. }
  split_and!; [done|lia|]. unfold current_thread. rewrite Hc, (proj2 (Z.eqb_neq _ 0)) by lia. by apply find_thread_at.
Qed.

Lemma alter_alter {A} (f g : A -> A) i (l : list A) : alter f i (alter g i l) = alter (fun x => f (g x)) i l.
Proof.
  apply list_eq. intros j. destruct (decide (i = j)) as [<-|Hne].
  - rewrite !list_lookup_alter_eq. by destruct (l !! i).
  - by rewrite !list_lookup_alter_ne.
Qed.

Lemma on_thread_compose f g k m : on_thread k f (on_thread k g m) = on_thread k (fun t => f (g t)) m.
Proof. unfold on_thread, setf. cbn. by rewrite alter_alter. Qed.

(** A live thread whose registers change is where it was. *)
Lemma registers_changed m k t h :
  tasks_wf m -> thread_at m k t -> ut_state t <> UtEmpty ->
  (forall t, ut_tid (h t) = ut_tid t /\ ut_state (h t) = ut_state t /\ ut_pid (h t) = ut_pid t) ->
  tasks_wf (on_thread k h m) /\ thread_at (on_thread k h m) k (h t) /\
  find_thread (on_thread k h m) (ut_tid t) = Some (k, h t).
Proof.
  intros Hwf [Hk Hlt] Hne Hh. assert (Hwf' : tasks_wf (on_thread k h m)) by (eapply tame_wf; [by apply tame_accounting|done]).
  assert (Hat : thread_at (on_thread k h m) k (h t)).
  { split; [|done]. cbn. by rewrite list_lookup_alter_eq, Hk. }
  split_and!; [done..|]. destruct (Hh t) as (<- & Hst & _). apply find_thread_at; [done..|by rewrite Hst].
Qed.

Lemma save_frame_saves m k t f :
  switchable m k t -> frame_of t f -> save_frame (ut_tid t) f m = (on_thread k (saved f) m, true).
Proof.
  intros Hsw (Hu & Hrip & Hrsp & Htr1 & Htr2).
  destruct (current_thread_at m k t Hsw) as (Hc & Hnz & Hct). pose proof Hsw as [Hwf Hk Hr Ha Hp _ _].
  destruct (find_runnable_found m (ut_pid t) Hp) as (i & p & Hfr).
  unfold save_frame, save_active_thread_frame. rewrite Hct, decide_False by (rewrite Hr; by intros [?|?]).
  rewrite (proj2 (Z.eqb_neq _ 0) Hrip), (proj2 (Z.eqb_neq _ 0) Hrsp). cbn [orb]. rewrite Hfr.
  rewrite (proj2 (Z.eqb_neq _ 0) Htr1), (proj2 (Z.eqb_neq _ 0) Htr2). cbn [orb negb].
  set (g := fun t => t <| ut_entry := f_rip f |> <| ut_user_stack_pointer := f_rsp f |>).
  assert (Hne : ut_state t <> UtEmpty) by (by rewrite Hr).
  destruct (registers_changed m k t g Hwf Hk Hne ltac:(done)) as (_ & _ & Hft). rewrite Hft.
  by rewrite on_thread_compose.
Qed.

Lemma put_back_current m k t f :
  switchable m k t -> mark_active_thread_runnable (on_thread k (saved f) m) = (on_thread k (put_back f) m, true).
Proof.
  intros Hsw. destruct (current_thread_at m k t Hsw) as (_ & Hnz & _). pose proof Hsw as [Hwf Hk Hr Ha _ _ _].
  assert (Hne : ut_state t <> UtEmpty) by (by rewrite Hr).
  destruct (registers_changed m k t (saved f) Hwf Hk Hne ltac:(done)) as (Hwf2 & Hat2 & Hft).
  set (m2 := on_thread k (saved f) m) in *.
  assert (Hc : current_tid m2 = ut_tid t).
  { unfold current_tid. change (active_tid_ m2) with (active_tid_ m).
    rewrite <-Ha, (proj2 (Z.eqb_neq _ 0) Hnz), decide_True; [done|].
    apply Exists_exists. exists (saved f t). cbn. rewrite Hr. split_and!; [|done..].
    apply list_elem_of_lookup. exists k. unfold threads. destruct Hat2. by rewrite lookup_take_lt. }
  unfold mark_active_thread_runnable, running_thread, current_thread. rewrite Hc, (proj2 (Z.eqb_neq _ 0) Hnz), Hft.
  unfold mbind, option_bind. rewrite decide_True by exact Hr. unfold m2. by rewrite on_thread_compose.
Qed.

(** ** The choice *)

(** How far after the last choice thread [i] comes. *)
Definition turns (m : UserspaceManager) (i : nat) : nat :=
  ring_distance (tcount_ m) (Z.to_nat (last_user_pick_index_ m) mod tcount_ m) i.

Lemma pick_index_ring m step :
  (0 < tcount_ m <= kMaxUserThreads)%nat -> u32 (last_user_pick_index_ m) -> (step <= kMaxUserThreads)%nat ->
  pick_index m step = ((Z.to_nat (last_user_pick_index_ m) mod tcount_ m + step) mod tcount_ m)%nat.
Proof.
  intros Hn Hp Hs. unfold pick_index, kMaxUserThreads, u32, two32 in *.
  rewrite w64_small by (unfold u64, two64; lia). rewrite Z2Nat.inj_mod, Nat2Z.id by lia.
  rewrite Nat.Div0.add_mod_idemp_l. f_equal. lia.
Qed.

Lemma selectable_at_iff m i : (i < tcount_ m)%nat -> selectable_at m i = true <-> waits_turn m i.
Proof.
  intros Hi. unfold selectable_at, waits_turn, selectable. split.
  - destruct (uthreads_ m !! i) as [t|] eqn:Ht; [|done]. cbn. rewrite find_runnable_view, andb_true_iff, bool_decide_eq_true.
    intros [? ?]. by exists t.
  - intros (t & [Ht _] & Hs & Hp). rewrite Ht. cbn. by rewrite find_runnable_view, Hp, bool_decide_eq_true_2.
Qed.

(** The context a thread is launched with. *)
Definition context_of (t : UserThread) : UserLaunchContext :=
  mkUserLaunchContext (ut_tid t) (ut_pid t) (ut_entry t) (ut_user_stack_pointer t) (ut_address_space_root t)
    kUserCodeSelector kUserDataSelector (if negb (ut_rflags t =? 0) then ut_rflags t else 0x202).

Lemma build_launch_context_of m i t :
  tasks_wf m -> thread_at m i t -> dispatchable t -> process_runnable (pview m) (ut_pid t) = true -> mapped t ->
  build_launch_context (ut_tid t) m = Some (context_of t).
Proof.
  intros Hwf Hi Hd Hp [Hm1 Hm2]. unfold build_launch_context.
  rewrite (find_thread_at m i t Hwf Hi) by (by destruct Hd as [->| ->]). unfold mbind, option_bind.
  rewrite decide_True by done. destruct (find_runnable_found m _ Hp) as (j & p & ->).
  by rewrite (proj2 (Z.eqb_neq _ 0) Hm1), (proj2 (Z.eqb_neq _ 0) Hm2).
Qed.

(** The choice is the waiting thread that comes first. *)
Lemma select_picks m j :
  tasks_wf m -> u32 (last_user_pick_index_ m) ->
  (forall i u, thread_at m i u -> dispatchable u -> mapped u) -> waits_turn m j ->
  exists i t, thread_at m i t /\ ut_state t = UtRunnable /\ process_runnable (pview m) (ut_pid t) = true /\
    (turns m i <= turns m j)%nat /\
    select_next_runnable_thread m =
      (m <| last_user_pick_index_ := Z.of_nat i |> <| last_selected_tid_ := ut_tid t |>, Some (context_of t)).
Proof.
  intros Hwf Hu Hmap Hj. pose proof Hj as (tj & [_ Hjl] & _). pose proof (tw_count m Hwf) as Hc.
  set (n := tcount_ m) in *. set (c := (Z.to_nat (last_user_pick_index_ m) mod n)%nat).
  assert (Hcn : (c < n)%nat) by (apply Nat.mod_upper_bound; lia).
  assert (Hidx : forall step, (step <= kMaxUserThreads)%nat -> pick_index m step = ((c + step) mod n)%nat)
    by (intros; apply pick_index_ring; [fold n; lia|done|done]).
  unfold select_next_runnable_thread. fold n. rewrite decide_False by lia.
  destruct (ring_reaches n c j Hcn Hjl) as [Hreach Hlt]. fold (turns m j) in Hreach, Hlt.
  change (ring_distance n c j) with (turns m j) in *.
  destruct (list_find _ (seq 1 n)) as [[k step]|] eqn:Hf.
  - apply list_find_Some in Hf as (Hk & Hsel & Hmin). apply lookup_seq in Hk as [-> Hk].
    rewrite Hidx in Hsel |- * by lia. destruct (ring_step n c (1 + k) Hcn ltac:(lia)) as [Hi Hdist].
    set (i := ((c + (1 + k)) mod n)%nat) in *. apply selectable_at_iff in Hsel as Hwait; [|done].
    pose proof Hwait as (t & Hit & Hst & Hpr). exists i, t. split_and!; [done..| |].
    + change (turns m i) with (ring_distance n c i). rewrite Hdist. destruct (Nat.le_gt_cases (1 + k - 1) (turns m j)) as [|Hgt]; [done|].
      exfalso. apply (Hmin (turns m j) (1 + turns m j)%nat); [apply lookup_seq; lia|lia|].
      rewrite Hidx by lia. rewrite (Nat.add_comm 1), Hreach.
      by apply selectable_at_iff.
    + rewrite (proj1 Hit). cbn [mbind option_bind from_option].
      assert (Hd : dispatchable t) by (by left).
      by rewrite (build_launch_context_of m i t Hwf Hit Hd Hpr (Hmap i t Hit Hd)).
  - exfalso. rewrite list_find_None, Forall_forall in Hf. apply (Hf (1 + turns m j)%nat).
    + apply elem_of_seq. lia.
    + rewrite Hidx by lia. rewrite (Nat.add_comm 1), Hreach. by apply selectable_at_iff.
Qed.

(** ** The activation of what was chosen *)

Definition run (t : UserThread) : UserThread := t <| ut_state := UtRunning |> <| ut_switch_count ::= inc64 |>.

(** The table after the activation: thread [i] runs, one other may have been set aside. *)
Lemma activate_chosen m i t :
  tasks_wf m -> thread_at m i t -> ut_state t = UtRunnable -> process_runnable (pview m) (ut_pid t) = true ->
  exists m', activate_thread (ut_tid t) m = (m', true) /\ tasks_wf m' /\ thread_at m' i (run t) /\
    (forall x u', thread_at m' x u' -> x <> i -> exists u, thread_at m x u /\ (u' = u \/ u' = preempt u)) /\
    (forall x u, thread_at m x u -> x <> i -> ut_state u = UtRunnable -> thread_at m' x u) /\
    (forall x, x <> i -> (forall u, thread_at m x u -> ut_tid u <> active_tid_ m) ->
       uthreads_ m' !! x = uthreads_ m !! x) /\
    pview m' = pview m /\ tcount_ m' = tcount_ m /\ active_tid_ m' = ut_tid t /\
    last_user_pick_index_ m' = Z.of_nat i.
Proof.
  intros Hwf Hi Hs Hp. assert (Hne : ut_state t <> UtEmpty) by (by rewrite Hs).
  pose proof (find_thread_at m i t Hwf Hi Hne) as Hf. pose proof (wf_activate (ut_tid t) m Hwf) as Hwf'.
  destruct (activate_thread_cases (ut_tid t) m) as [E|(k & next & pi & p & m' & Hf' & _ & _ & E & Hu & Hpr & Hpc & Hc & Hn & Ha & Hpick)].
  { exfalso. unfold activate_thread in E. rewrite Hf in E. rewrite decide_True in E by (by left).
    destruct (find_runnable_found m _ Hp) as (? & ? & Hfr). by rewrite Hfr in E. }
  rewrite Hf in Hf'. injection Hf' as <- <-. rewrite E in Hwf'. cbn [fst] in Hwf'. exists m'.
  set (m1 := set_aside (ut_tid t) m) in *.
  assert (Hm1 : forall x, uthreads_ m1 !! x = uthreads_ m !! x \/
    x <> i /\ uthreads_ m1 !! x = preempt <$> (uthreads_ m !! x) /\ exists u, thread_at m x u /\ ut_tid u = active_tid_ m).
  { intros x. unfold m1, set_aside. destruct (Z.eqb_spec (active_tid_ m) 0); [by left|].
    destruct (Z.eqb_spec (active_tid_ m) (ut_tid t)) as [|Hna]; [by left|]. cbn [negb andb].
    destruct (find_thread m (active_tid_ m)) as [[a ta]|] eqn:Hfa; [|by left].
    apply find_thread_Some in Hfa as (Hta & Hal & Htid & _). cbn. destruct (decide (a = x)) as [<-|Hax].
    - right. rewrite list_lookup_alter_eq. split_and!; [|done|by exists ta]. intros ->. destruct Hi as [Hi _]. congruence.
    - left. by rewrite list_lookup_alter_ne. }
  assert (Hat : thread_at m' i (run t)).
  { destruct Hi as [Hi Hlt]. split; [|by rewrite Hc]. rewrite Hu, list_lookup_alter_eq.
    destruct (Hm1 i) as [->|[? _]]; [|done]. by rewrite Hi. }
  split_and!; [done|done|done| | | | |done|done|].
  - intros x u' [Hx Hlt] Hxi. rewrite Hu, list_lookup_alter_ne in Hx by done. rewrite Hc in Hlt.
    destruct (Hm1 x) as [E1|(_ & E1 & _)]; rewrite E1 in Hx; [exists u'; split; [done|by left]|].
    apply fmap_Some in Hx as (u & Hx & ->). exists u. split; [done|by right].
  - intros x u [Hx Hlt] Hxi Hsu. split; [|by rewrite Hc]. rewrite Hu, list_lookup_alter_ne by done.
    destruct (Hm1 x) as [->|(_ & -> & _)]; [done|]. rewrite Hx. cbn. unfold preempt. by rewrite Hsu.
  - intros x Hxi Hna. rewrite Hu, list_lookup_alter_ne by done.
    destruct (Hm1 x) as [E1|(_ & _ & u & Hx & Htid)]; [done|by destruct (Hna u Hx)].
  - apply (pview_account m m' pi (fun p => p <| pr_switch_count ::= inc64 |>)); done.
  - rewrite Hpick. change (ut_tid t) with (ut_tid (run t)). by rewrite (index_of_tid m' i (run t) Hwf' Hat).
Qed.

(** A state in which only counters have changed. *)
Definition core (t : UserThread) : UserThread := t <| ut_preempt_count := 0 |>.

Record counted (m m' : UserspaceManager) : Prop := {
  ct_tame : tame m m';
  ct_pview : pview m' = pview m;
  ct_pick : last_user_pick_index_ m' = last_user_pick_index_ m;
  ct_threads i : core <$> (uthreads_ m' !! i) = core <$> (uthreads_ m !! i)
}.

Lemma counted_refl m : counted m m.
Proof. by split. Qed.

Lemma note_counted a b m : counted m (note_user_preempt_switch a b m).1.
Proof.
  split; [apply tame_preempt_switch|..]; unfold note_user_preempt_switch; (destruct (_ || _); [done|]);
    (destruct (find_thread m a) as [[k t]|]; [|done]); (case_decide; [done|]);
    (destruct (find_alive m (ut_pid t)) as [[i p]|]; [|done]); cbn [fst].
  - apply (pview_account m _ i (fun p => p <| pr_preempt_count ::= inc64 |>)); done.
  - done.
  - intros x. cbn. destruct (decide (k = x)) as [<-|Hkx]; [|by rewrite list_lookup_alter_ne].
    rewrite list_lookup_alter_eq. by destruct (uthreads_ m !! k).
Qed.

Lemma note_others a b m k t x :
  find_thread m a = Some (k, t) -> x <> k -> uthreads_ (note_user_preempt_switch a b m).1 !! x = uthreads_ m !! x.
Proof.
  intros Hf Hx. unfold note_user_preempt_switch. destruct (_ || _); [done|]. rewrite Hf. case_decide; [done|].
  destruct (find_alive m (ut_pid t)) as [[i p]|]; [|done]. cbn. by rewrite list_lookup_alter_ne.
Qed.

Lemma counted_thread m m' i t : counted m m' -> thread_at m i t -> exists t', thread_at m' i t' /\ core t' = core t.
Proof.
  intros [Ht _ _ Hc] [Hi Hlt]. specialize (Hc i). rewrite Hi in Hc.
  destruct (uthreads_ m' !! i) as [t'|] eqn:Hi'; [|done]. exists t'. split; [|by apply (inj Some)].
  split; [done|by rewrite (tm_count _ _ Ht)].
Qed.

Lemma counted_thread_back m m' i t' : counted m m' -> thread_at m' i t' -> exists t, thread_at m i t /\ core t' = core t.
Proof.
  intros [Ht _ _ Hc] [Hi Hlt]. specialize (Hc i). rewrite Hi in Hc.
  destruct (uthreads_ m !! i) as [t|] eqn:Hi'; [|done]. exists t. split; [|by apply (inj Some)].
  split; [done|by rewrite <-(tm_count _ _ Ht)].
Qed.

(** ** One switch *)

Definition user_registers (f : ExceptionFrame) : list Z :=
  [f_r15 f; f_r14 f; f_r13 f; f_r12 f; f_r11 f; f_r10 f; f_r9 f; f_r8 f; f_rbp f; f_rdi f; f_rsi f; f_rdx f;
   f_rcx f; f_rbx f; f_rax f; f_rip f; f_rsp f].

Definition thread_registers (t : UserThread) : list Z :=
  [ut_r15 t; ut_r14 t; ut_r13 t; ut_r12 t; ut_r11 t; ut_r10 t; ut_r9 t; ut_r8 t; ut_rbp t; ut_rdi t; ut_rsi t;
   ut_rdx t; ut_rcx t; ut_rbx t; ut_rax t; ut_entry t; ut_user_stack_pointer t].

(** What of a thread a change of its counters keeps. *)
Lemma core_keeps {A} (g : UserThread -> A) t t' :
  core t' = core t -> (forall t, g (core t) = g t) -> g t' = g t.
Proof. intros Hc Hg. by rewrite <-(Hg t'), Hc, Hg. Qed.

Lemma counted_switchable m m' i u :
  counted m m' -> switchable m i u -> exists u', core u' = core u /\ switchable m' i u'.
Proof.
  intros Hc [Hwf Hi Hr Ha Hp Hm Hk]. destruct (counted_thread _ _ _ _ Hc Hi) as (u' & Hi' & E).
  exists u'. split; [done|]. pose proof (ct_tame _ _ Hc) as Ht. split.
  - by eapply tame_wf.
  - done.
  - by rewrite (core_keeps ut_state u u' E).
  - rewrite (core_keeps ut_tid u u' E) by done. by rewrite (tm_active _ _ Ht).
  - rewrite (core_keeps ut_pid u u' E) by done. by rewrite (ct_pview _ _ Hc).
  - intros x v' Hx Hd. destruct (counted_thread_back _ _ _ _ Hc Hx) as (v & Hv & Ev).
    unfold mapped. rewrite (core_keeps ut_address_space_root v v' Ev), (core_keeps ut_entry v v' Ev),
      (core_keeps ut_user_stack_pointer v v' Ev) by done. apply (Hm x v Hv).
    unfold dispatchable in *. by rewrite (core_keeps ut_state v v' Ev) in Hd by done.
  - by rewrite (ct_pick _ _ Hc).
Qed.

Lemma counted_waits m m' j : counted m m' -> waits_turn m j -> waits_turn m' j.
Proof.
  intros Hc (t & Ht & Hs & Hp). destruct (counted_thread _ _ _ _ Hc Ht) as (t' & Ht' & E). exists t'. split_and!; [done|..].
  - by rewrite (core_keeps ut_state t t' E).
  - rewrite (core_keeps ut_pid t t' E) by done. by rewrite (ct_pview _ _ Hc).
Qed.

(** The state after the registers are saved. *)
Lemma put_back_state m k t f :
  switchable m k t -> frame_of t f ->
  let m2 := on_thread k (put_back f) m in
  tasks_wf m2 /\ thread_at m2 k (put_back f t) /\ (forall x u, x <> k -> thread_at m2 x u <-> thread_at m x u) /\
  (forall i u, thread_at m2 i u -> dispatchable u -> mapped u) /\ waits_turn m2 k.
Proof.
  intros Hsw (_ & _ & _ & Htr1 & Htr2) m2. pose proof Hsw as [Hwf Hk Hr Ha Hp Hm Hpk].
  assert (Hat : thread_at m2 k (put_back f t)).
  { destruct Hk as [Hk Hlt]. split; [|done]. cbn. by rewrite list_lookup_alter_eq, Hk. }
  assert (Hothers : forall x u, x <> k -> thread_at m2 x u <-> thread_at m x u).
  { intros x u Hx. unfold thread_at. cbn. by rewrite list_lookup_alter_ne. }
  split_and!; [|done|done| |].
  - eapply tame_wf; [|done]. eapply tame_rest; [apply Hk|by rewrite Hr|done..].
  - intros i u Hi Hd. destruct (decide (i = k)) as [->|Hik]; [|apply (Hm i u); [by apply Hothers|done]].
    assert (u = put_back f t) as -> by (destruct Hi, Hat; congruence). done.
  - exists (put_back f t). split_and!; [done|done|]. exact Hp.
Qed.

(** The choice and the activation, from the state in which the registers are saved. *)
Lemma chosen_and_activated m k t f j :
  switchable m k t -> frame_of t f -> waits_turn m j ->
  let m2 := on_thread k (put_back f) m in
  exists i u m3 m4,
    thread_at m2 i u /\ ut_state u = UtRunnable /\ select_next_runnable_thread m2 = (m3, Some (context_of u)) /\
    activate_thread (ut_tid u) m3 = (m4, true) /\ switchable m4 i (run u) /\
    (i <> k -> thread_at m4 k (put_back f t)) /\
    (forall x, x <> i -> x <> k -> uthreads_ m4 !! x = uthreads_ m !! x) /\
    (i = j \/ waits_turn m4 j /\ (turns m4 j < turns m j)%nat).
Proof.
  intros Hsw Hf Hj m2. destruct (put_back_state m k t f Hsw Hf) as (Hwf2 & Hk2 & Hoth & Hmap2 & _). fold m2 in Hwf2, Hk2, Hoth, Hmap2.
  pose proof Hsw as [Hwf Hk Hr Ha _ _ Hpk]. pose proof Hj as (tj & Hjt & Hjs & Hjp).
  assert (Hjk : j <> k) by (intros ->; destruct Hjt, Hk; congruence).
  assert (Hj2 : waits_turn m2 j) by (exists tj; split_and!; [by apply Hoth|done|exact Hjp]).
  destruct (select_picks m2 j Hwf2 Hpk Hmap2 Hj2) as (i & u & Hi & Hu & Hup & Hd & Hsel).
  set (m3 := m2 <| last_user_pick_index_ := Z.of_nat i |> <| last_selected_tid_ := ut_tid u |>) in *.
  assert (Hwf3 : tasks_wf m3) by (by apply (wf_same m2)).
  destruct (activate_chosen m3 i u Hwf3 Hi Hu Hup) as (m4 & Hact & Hwf4 & Hi4 & Hback & Hfwd & Hkeep & Hpv & Htc & Haa & Hpick).
  exists i, u, m3, m4. pose proof (tw_count m Hwf) as Hcnt. destruct Hi as [Hi Hil]. destruct Hjt as [Hjt Hjl].
  change (tcount_ m2) with (tcount_ m) in Hil.
  split_and!; [done..| | | |].
  - split; [done|done|done|done| | |].
    + rewrite Hpv. exact Hup.
    + intros x v Hx Hdx. destruct (decide (x = i)) as [->|Hxi].
      * assert (v = run u) as -> by (destruct Hx, Hi4; congruence). apply (Hmap2 i u); [done|by left].
      * destruct (Hback x v Hx Hxi) as (v0 & Hv0 & Hcase). assert (Hm0 : dispatchable v0 -> mapped v0) by apply (Hmap2 x v0 Hv0).
        destruct Hcase as [->| ->]; [by apply Hm0|]. unfold preempt in *. case_decide; [|by apply Hm0]. apply Hm0. by right.
    + rewrite Hpick. unfold kMaxUserThreads, u32, two32 in *. lia.
  - intros Hik. apply (Hfwd k); [done|by intros ->|done].
  - intros x Hxi Hxk. rewrite (Hkeep x Hxi); [cbn; by rewrite list_lookup_alter_ne|].
    intros v Hv Htid. apply Hxk. symmetry. apply Hoth in Hv; [|done].
    apply (tw_unique m Hwf k x t v Hk Hv); [by rewrite Hr|by rewrite Ha].
  - destruct (decide (i = j)) as [|Hij]; [by left|right]. split.
    + exists tj. split_and!; [|done|by rewrite Hpv]. apply Hfwd; [by apply Hoth|done|done].
    + unfold turns in *. rewrite Htc, Hpick, Nat2Z.id. change (tcount_ m3) with (tcount_ m).
      change (tcount_ m2) with (tcount_ m) in Hd. change (last_user_pick_index_ m2) with (last_user_pick_index_ m) in Hd.
      rewrite (Nat.mod_small i) by done. apply ring_after; [apply Nat.mod_upper_bound; lia|done..].
Qed.

(** What one switch does. *)
Lemma switch_step preempted c m k t j :
  switchable m k t -> frame_of t (cpu_frame c) -> waits_turn m j ->
  exists i u m',
    switch_from_frame preempted c m =
      (m', if decide (i = k) then c else load_thread u (context_of u) c, negb (bool_decide (i = k))) /\
    switchable m' i u /\
    (exists t', thread_at m' k t' /\ core t' = core (if decide (i = k) then run (put_back (cpu_frame c) t)
                                                   else put_back (cpu_frame c) t)) /\
    (i <> k -> exists u0, thread_at m i u0 /\ ut_state u0 = UtRunnable /\ core u = core (run u0)) /\
    (forall x, x <> i -> x <> k -> uthreads_ m' !! x = uthreads_ m !! x) /\
    (i = j \/ waits_turn m' j /\ (turns m' j < turns m j)%nat).
Proof.
  intros Hsw Hf Hj. set (f := cpu_frame c) in *.
  destruct (chosen_and_activated m k t f j Hsw Hf Hj) as (i & u & m3 & m4 & Hi & Hus & Hsel & Hact & Hsw4 & Hk4 & Hkeep & Hprog).
  destruct (current_thread_at m k t Hsw) as (Hc & Hnz & _). pose proof Hf as (Hu & _).
  destruct (put_back_state m k t f Hsw Hf) as (Hwf2 & Hk2 & Hoth & _).
  unfold switch_from_frame. fold f. rewrite Hu, Hc, (proj2 (Z.eqb_neq _ 0) Hnz). cbn [negb].
  rewrite (save_frame_saves m k t f Hsw Hf). cbn [negb].
  rewrite (put_back_current m k t f Hsw). cbn [negb]. rewrite Hsel. change (lc_tid (context_of u)) with (ut_tid u).
  destruct (decide (i = k)) as [->|Hik].
  - assert (u = put_back f t) as -> by (destruct Hi, Hk2; congruence). exists k, (run (put_back f t)), m4.
    change (ut_tid (put_back f t)) with (ut_tid t) in *. rewrite Z.eqb_refl, Hact, !decide_True, bool_decide_eq_true_2 by done.
    split_and!; [done|done| |by intros []|done|done]. exists (run (put_back f t)). split; [apply Hsw4|done].
  - assert (Hne : ut_tid u <> ut_tid t).
    { intros Heq. apply Hik. symmetry. apply (tw_unique _ Hwf2 k i (put_back f t) u Hk2 Hi); [done|exact Heq]. }
    rewrite (proj2 (Z.eqb_neq _ _) Hne), Hact. cbn [negb].
    set (m5 := if preempted then _ else m4).
    assert (Hct : counted m4 m5) by (unfold m5; destruct preempted; [apply note_counted|apply counted_refl]).
    assert (Hk5 : forall x, x <> k -> uthreads_ m5 !! x = uthreads_ m4 !! x).
    { intros x Hx. unfold m5. destruct preempted; [|done]. apply (note_others _ _ _ k (put_back f t)); [|done].
      apply (find_thread_at m4 k (put_back f t)); [apply Hsw4|by apply Hk4|done]. }
    clearbody m5. destruct (counted_switchable m4 m5 i (run u) Hct Hsw4) as (u' & Eu & Hsw5).
    exists i, u', m5. rewrite !decide_False, bool_decide_eq_false_2 by done. cbn [negb].
    assert (Hcx : context_of u' = context_of u) by (by rewrite (core_keeps context_of (run u) u' Eu)).
    assert (Htu : ut_tid u' = ut_tid u) by (by rewrite (core_keeps ut_tid (run u) u' Eu)).
    split_and!; [|done| | | |].
    + pose proof Hsw5 as [Hwf5 Hi5 Hr5 _ _ _ _]. rewrite <-Htu, (find_thread_at m5 i u' Hwf5 Hi5) by (by rewrite Hr5).
      by rewrite Hcx.
    + by apply (counted_thread m4 m5 k _ Hct (Hk4 Hik)).
    + intros _. exists u. split_and!; [by apply Hoth|done|done].
    + intros x Hxi Hxk. by rewrite (Hk5 x Hxk), Hkeep.
    + destruct Hprog as [?|[Hw Ht]]; [by left|right]. split; [by eapply counted_waits|].
      unfold turns in *. by rewrite (ct_pick _ _ Hct), (tm_count _ _ (ct_tame _ _ Hct)).
Qed.

(** ** Claims *)

(** C16. A switch loses no register and disturbs nobody.  When the running thread [k] is
    interrupted, with a user frame whose instruction and stack pointers are mapped,
    and some thread waits for its turn, [switch_from_frame] ends with a running thread
    [i]: either [k] itself, with the processor as it was, or one that was runnable
    before.  Then the processor holds every register, the instruction and stack
    pointers, the flags and the address space of the record that thread had before
    the interrupt.  In both cases the record of [k] holds every register of the
    interrupted frame, with [k] running if it was chosen and runnable if not, and no
    record of a third thread changes; nor do the registers in the record of the
    chosen one. *)
Theorem switch_saves_and_loads_registers preempted c m k t j :
  switchable m k t -> frame_of t (cpu_frame c) -> waits_turn m j ->
  exists i u m' c',
    switch_from_frame preempted c m = (m', c', negb (bool_decide (i = k))) /\ switchable m' i u /\
    (i = k -> c' = c) /\
    (i <> k -> exists u0, thread_at m i u0 /\ ut_state u0 = UtRunnable /\
      user_registers (cpu_frame c') = thread_registers u0 /\ cpu_cr3 c' = ut_address_space_root u0 /\
      f_rflags (cpu_frame c') = (if ut_rflags u0 =? 0 then 0x202 else ut_rflags u0) /\
      thread_registers u = thread_registers u0 /\ ut_tid u = ut_tid u0) /\
    (exists t', thread_at m' k t' /\ ut_tid t' = ut_tid t /\ ut_address_space_root t' = ut_address_space_root t /\
      ut_state t' = (if decide (i = k) then UtRunning else UtRunnable) /\
      thread_registers t' = user_registers (cpu_frame c) /\ ut_rflags t' = f_rflags (cpu_frame c)) /\
    (forall x, x <> i -> x <> k -> uthreads_ m' !! x = uthreads_ m !! x).
Proof.
  intros Hsw Hf Hj. destruct (switch_step preempted c m k t j Hsw Hf Hj)
    as (i & u & m' & E & Hsw' & (t' & Ht' & Et) & Hu & Hkeep & _).
  exists i, u, m', (if decide (i = k) then c else load_thread u (context_of u) c). split_and!; [done|done|..|done].
  - intros ->. by rewrite decide_True.
  - intros Hik. destruct (Hu Hik) as (u0 & Hu0 & Hs0 & Eu). exists u0. rewrite decide_False by done.
    assert (Hr : thread_registers u = thread_registers u0) by (by rewrite (core_keeps thread_registers _ _ Eu)).
    split_and!; [done|done|by rewrite <-Hr|by apply (core_keeps ut_address_space_root _ _ Eu)| |done|].
    + change (ut_rflags u0) with (ut_rflags (run u0)). rewrite <-(core_keeps ut_rflags _ _ Eu) by done.
      cbn. by destruct (ut_rflags u =? 0).
    + by rewrite (core_keeps ut_tid _ _ Eu).
  - exists t'. rewrite (core_keeps ut_tid _ _ Et), (core_keeps ut_address_space_root _ _ Et), (core_keeps ut_state _ _ Et),
      (core_keeps thread_registers _ _ Et), (core_keeps ut_rflags _ _ Et) by done. by case_decide.
Qed.

(** A sequence of timer interrupts, each with the frame of the thread that runs. *)
Fixpoint preempt_all (cs : list Cpu) (m : UserspaceManager) : UserspaceManager :=
  match cs with
  | [] => m
  | c :: cs => preempt_all cs (preempt_user_thread_from_frame c m).1.1
  end.

(** At each interrupt the running thread has a frame that can be saved. *)
Fixpoint frames_ok (cs : list Cpu) (m : UserspaceManager) : Prop :=
  match cs with
  | [] => True
  | c :: cs => (exists k t, current_thread m = Some (k, t) /\ frame_of t (cpu_frame c)) /\
               frames_ok cs (preempt_user_thread_from_frame c m).1.1
  end.

Lemma turn_comes cs m k t j :
  switchable m k t -> waits_turn m j -> frames_ok cs m -> (turns m j < length cs)%nat ->
  exists cs1 cs2 u, cs = cs1 ++ cs2 /\ switchable (preempt_all cs1 m) j u.
Proof.
  revert m k t. induction cs as [|c cs IH]; intros m k t Hsw Hj Hok Hlt; [simpl in Hlt; lia|].
  destruct Hok as [(k' & t' & Hc & Hf) Hok]. destruct (current_thread_at m k t Hsw) as (_ & _ & Hc').
  rewrite Hc' in Hc. injection Hc as <- <-.
  destruct (switch_step true c m k t j Hsw Hf Hj) as (i & u & m' & E & Hsw' & _ & _ & _ & Hprog).
  assert (Em : (preempt_user_thread_from_frame c m).1.1 = m') by (unfold preempt_user_thread_from_frame; by rewrite E).
  rewrite Em in Hok. destruct Hprog as [->|[Hw Ht]].
  - exists [c], cs, u. split; [done|]. cbn. by rewrite Em.
  - destruct (IH m' i u Hsw' Hw Hok) as (cs1 & cs2 & v & -> & Hv); [simpl in Hlt; lia|].
    exists (c :: cs1), cs2, v. split; [done|]. cbn. by rewrite Em.
Qed.


(** A thread with a null stack pointer cannot be saved, and so is not switched away
    from: fairness is for threads whose stack is mapped. *)
Lemma null_stack_keeps_the_processor preempted c m :
  f_rsp (cpu_frame c) = 0 -> switch_from_frame preempted c m = (m, c, false).
Proof.
  intros Hsp. unfold switch_from_frame. case_match; [done|]. case_match; [done|].
  unfold save_frame, save_active_thread_frame. rewrite Hsp.
  dmatch as [[k t]|]; [|done]. case_decide; [done|]. by rewrite orb_true_r.
Qed.

End Fair.

(** ** Concrete runs *)

(** The first process of the example runs, the second waits for its turn. *)
Definition demo_running : UserspaceManager := (activate_thread 1 demo_two).1.
Definition demo_frame : ExceptionFrame :=
  mkFrame 15 14 13 12 11 10 9 8 7 6 5 4 3 2 1 0x40 0 0x400010 0x23 0x202 0x7fffffeff0 0x1b.
Definition demo_cpu : Cpu := mkCpu demo_frame 0x1000.
Definition demo_thread (i : nat) (m : UserspaceManager) : UserThread := default UserThread0 (uthreads_ m !! i).

Lemma demo_running_wf : tasks_wf demo_running.
Proof.
  apply (user_step_wf demo_two); [|apply step_activate]. unfold demo_two.
  eapply user_step_wf; [|apply step_mark_runnable]. eapply user_step_wf; [|apply step_mark_runnable].
  eapply user_step_wf; [|apply step_set_parent].
  eapply user_step_wf; [|apply step_create; vm_compute; done]. eapply user_step_wf; [|apply step_create; vm_compute; done].
  apply initial_wf.
Qed.

(** A switchable state, checked by evaluation. *)
Lemma switchable_check m k :
  tasks_wf m ->
  let t := demo_thread k m in
  (k <? tcount_ m)%nat && (k <? length (uthreads_ m))%nat && bool_decide (ut_state t = UtRunning) &&
  (ut_tid t =? active_tid_ m) && process_runnable (pview m) (ut_pid t) &&
  forallb (fun u => negb (translate (ut_address_space_root u) (ut_entry u) =? 0) &&
                    negb (translate (ut_address_space_root u) (ut_user_stack_pointer u) =? 0)) (threads m) &&
  (0 <=? last_user_pick_index_ m) && (last_user_pick_index_ m <? two32) = true ->
  switchable m k t.
Proof.
  intros Hwf t. rewrite !andb_true_iff. intros [[[[[[[Hk Hl] Hr] Ha] Hp] Hm] Hp1] Hp2].
  apply Nat.ltb_lt in Hk, Hl. split; [done|..].
  - split; [|done]. unfold t, demo_thread. by destruct (lookup_lt_is_Some_2 _ _ Hl) as [u ->].
  - by apply bool_decide_eq_true in Hr.
  - by apply Z.eqb_eq.
  - done.
  - intros i u [Hi Hil] _. rewrite forallb_forall in Hm. specialize (Hm u).
    rewrite <-list_elem_of_In in Hm. assert (u ∈ threads m) as Hin.
    { apply list_elem_of_lookup. exists i. unfold threads. by rewrite lookup_take_lt. }
    specialize (Hm Hin). bsimp. by split.
  - unfold u32. bsimp. lia.
Qed.

Lemma demo_switchable : switchable demo_running 0 (demo_thread 0 demo_running).
Proof. apply switchable_check; [apply demo_running_wf|]. vm_compute. reflexivity. Qed.

Lemma demo_waits : waits_turn demo_running 1.
Proof. exists (demo_thread 1 demo_running). split_and!; [split; [|vm_compute; lia]|..]; vm_compute; reflexivity. Qed.

Lemma switch_saves_and_loads_registers_witness :
  exists i u m' c', switch_from_frame false demo_cpu demo_running = (m', c', negb (bool_decide (i = 0%nat))) /\
    switchable m' i u.
Proof.
  destruct (switch_saves_and_loads_registers false demo_cpu demo_running 0 (demo_thread 0 demo_running) 1)
    as (i & u & m' & c' & E & Hsw & _).
  - apply demo_switchable.
  - vm_compute. split_and!; discriminate || reflexivity.
  - apply demo_waits.
  - exists i, u, m', c'. split; [exact E|exact Hsw].
Defined.

