(* ===== verification/UserWait.v ===== *)
(** * Exit and wait (kernel/src/userspace/userspace.cpp)

    What a process that exits leaves for the parent that waits for it: its thread
    is made runnable with the exit code written where it asked, if the parent may
    run.  A parent that is stopped at that moment misses the wake, and continuing it
    does not make up for it. *)

From stdpp Require Import strings relations.
From S2P Require Import Prelude Path Vfs Userspace UserFiles UserDemo UserEnv UserSwitch UserTasks UserFair UserPipes.
#[local] Open Scope Z_scope.

(** ** Lookups after a change *)

Lemma list_find_alter {A} (P : A -> Prop) `{forall x, Decision (P x)} f i (l : list A) :
  (forall x, l !! i = Some x -> P (f x) <-> P x) ->
  list_find P (alter f i l) = (fun '(j, x) => (j, if decide (j = i) then f x else x)) <$> list_find P l.
Proof.
  revert i. induction l as [|x l IH]; intros i Hf; [done|]. destruct i as [|i]; cbn.
  - specialize (Hf x eq_refl). destruct (decide (P (f x))) as [Hp|Hp], (decide (P x)) as [Hq|Hq];
      [done|by destruct Hq; apply Hf|by destruct Hp; apply Hf|]. by destruct (list_find P l) as [[j y]|].
  - destruct (decide (P x)); [done|]. rewrite IH by apply Hf. destruct (list_find P l) as [[j y]|]; [|done]. cbn.
    destruct (decide (j = i)) as [->|Hne]; [by rewrite decide_True|]. rewrite decide_False; [done|]. congruence.
Qed.

Lemma list_find_take_alter {A} (P : A -> Prop) `{forall x, Decision (P x)} f i n (l : list A) :
  (forall x, l !! i = Some x -> P (f x) <-> P x) ->
  list_find P (take n (alter f i l)) =
    (fun '(j, x) => (j, if decide (j = i) then f x else x)) <$> list_find P (take n l).
Proof.
  intros Hf. rewrite take_alter. case_decide as Hi.
  - apply list_find_alter. intros x (Hx & _)%lookup_take_Some. by apply Hf.
  - destruct (list_find P (take n l)) as [[j x]|] eqn:E; [|done]. cbn.
    apply list_find_take in E as (_ & Hj & _). by rewrite decide_False by lia.
Qed.

(** A process in use that keeps its pid and stays in use. *)
Lemma find_process_changed m m' i p f pid :
  processes_ m !! i = Some p -> pr_state p <> ProcEmpty -> processes_ m' = alter f i (processes_ m) ->
  pcount_ m' = pcount_ m -> pr_pid (f p) = pr_pid p -> pr_state (f p) <> ProcEmpty ->
  find_process m' pid = (fun '(j, p) => (j, if decide (j = i) then f p else p)) <$> find_process m pid.
Proof.
  intros Hi Hne Hp Hc Hpid Hne'. unfold find_process, processes. rewrite Hp, Hc. apply list_find_take_alter.
  intros q Hq. rewrite Hi in Hq. apply (inj Some) in Hq as <-. rewrite Hpid. tauto.
Qed.

Lemma find_process_same m m' pid :
  processes_ m' = processes_ m -> pcount_ m' = pcount_ m -> find_process m' pid = find_process m pid.
Proof. intros Hp Hc. unfold find_process, processes. by rewrite Hp, Hc. Qed.

(** A loop that changes its state at one index only. *)
Lemma for_each_single {S} n (body : nat -> S -> S) s x s' :
  (x < n)%nat -> body x s = s' -> (forall i, (i < n)%nat -> i <> x -> body i s = s) ->
  (forall i, (i < n)%nat -> i <> x -> body i s' = s') -> for_each n body s = s'.
Proof.
  intros Hx Hbx Hbefore Hafter.
  assert (Hinv : for_each n body s = if (x <? n)%nat then s' else s).
  { apply (for_each_inv (fun k r => r = if (x <? k)%nat then s' else s)); [done|].
    intros i r Hi ->. destruct (Nat.ltb_spec x i), (Nat.ltb_spec x (Datatypes.S i)); try lia.
    - apply Hafter; lia.
    - assert (i = x) as -> by lia. done.
    - apply Hbefore; lia. }
  rewrite Hinv. by destruct (Nat.ltb_spec x n); [|lia].
Qed.

Section Wait.
Context `{Machine}.

(** ** What exit does before it wakes waiting processes *)

(** Threads that do not wait for a pipe are left alone by a completed transfer. *)
Lemma wake_step_keeps id m m' i t :
  wake_step id m m' -> uthreads_ m !! i = Some t -> ut_block_reason t = ProcessWait ->
  uthreads_ m' !! i = Some t.
Proof.
  intros Hs Hi Hr. assert (exists reason k u rax rdx, completes id reason k u rax rdx m m' /\ reason <> ProcessWait)
    as (reason & k & u & rax & rdx & (Hk & _ & _ & Hru & ->) & Hne).
  { inversion Hs; do 5 eexists; (split; [eassumption|done]). }
  rewrite list_lookup_insert_ne; [done|]. intros ->. congruence.
Qed.

Record undisturbed (m m' : UserspaceManager) : Prop := {
  un_pipes : pipes_ok m';
  un_processes : processes_ m' = processes_ m;
  un_pcount : pcount_ m' = pcount_ m;
  un_tame : tame m m';
  un_waits i t : uthreads_ m !! i = Some t -> ut_block_reason t = ProcessWait -> uthreads_ m' !! i = Some t
}.

Lemma wake_pipe_waiters_undisturbed id r w m : pipes_ok m -> undisturbed m (wake_pipe_waiters id r w m).1.
Proof.
  intros Hok. pose proof (wake_pipe_waiters_spec id r w m Hok) as Hs. pose proof (tame_wake_pipe_waiters id r w m) as Ht.
  destruct (wake_pipe_waiters id r w m) as [m' woken]. destruct Hs as ((Hsteps & Hok' & _) & _). cbn [fst] in *.
  assert (Hrtc : rtc (wake_step id) m m') by (by eapply rtc_nsteps_2). clear Hsteps.
  assert (Hkeep : processes_ m' = processes_ m /\ pcount_ m' = pcount_ m /\
    forall i t, uthreads_ m !! i = Some t -> ut_block_reason t = ProcessWait -> uthreads_ m' !! i = Some t).
  { clear -Hrtc. induction Hrtc as [|a b c Hs _ (IH1 & IH2 & IH3)]; [done|].
    pose proof (wake_step_thread _ _ _ Hs) as (? & ? & ? & ? & ? & _ & Hp & Hc & _).
    split_and!; [congruence..|]. intros i t Hi Hr. apply IH3; [by eapply wake_step_keeps|done]. }
  by split; try apply Hkeep.
Qed.

Lemma wake_pipes_undisturbed r w ids m : pipes_ok m -> undisturbed m (wake_pipes r w ids m).
Proof.
  revert m. induction ids as [|id ids IH]; intros m Hok; [by split|].
  change (wake_pipes r w (id :: ids) m) with (wake_pipes r w ids (wake_pipe_waiters id r w m).1).
  pose proof (wake_pipe_waiters_undisturbed id r w m Hok) as [Ho Hp Hc Ht Hw].
  destruct (IH _ Ho) as [Ho' Hp' Hc' Ht' Hw']. split; [done|congruence|congruence|by etrans|]. auto.
Qed.

Lemma mark_exited_pipes i code reason tid m : pipes_ok m -> pipes_ok (mark_exited i code reason tid m).
Proof.
  intros [Hp Hw Hl Ht]. unfold mark_exited. dmatch as [[k t]|]; (split; [done| |cbn; by rewrite ?length_alter|done]).
  - cbn. apply Forall_lookup. intros j u Hj. rewrite Forall_lookup in Hw. destruct (decide (k = j)) as [<-|Hne].
    + rewrite list_lookup_alter_eq in Hj. apply fmap_Some in Hj as (v & Hv & ->). by apply (Hw k v).
    + rewrite list_lookup_alter_ne in Hj by done. by apply (Hw j u).
  - done.
Qed.

(** ** Waking the parent *)

(** Thread [x] waits for process [i] with pid [pid], or for any child when [any]
    holds, and wants the result at the physical address [dest], which its aligned
    and mapped pointer gives; it is the only thread of its process, the parent of
    process [i]. *)
Record waits_for (m : UserspaceManager) (x : nat) (t : UserThread) (i : nat) (p : Process) (any : bool)
    (dest : Z) : Prop := {
  wt_at : thread_at m x t;
  wt_blocked : ut_state t = UtBlocked;
  wt_reason : ut_block_reason t = ProcessWait;
  wt_any : any = (ut_wait_process_id t =? 0);
  wt_target : any = true \/ ut_wait_process_id t = pr_pid p;
  wt_parent : pr_parent_pid p = ut_pid t;
  wt_other : ut_pid t <> pr_pid p;
  wt_dest : wait_destination any t = Some dest;
  wt_alone y u : thread_at m y u -> ut_pid u = ut_pid t -> y = x
}.

Definition exited (code : Z) (reason : ProcessTerminationReason) (p : Process) : Process :=
  p <| pr_state := ProcExited |> <| pr_exit_code := code |> <| pr_termination_reason := reason |>.

(** The state in which waiting processes are woken. *)
Lemma before_wakes m i p code reason x t any dest :
  tasks_wf m -> pipes_ok m -> find_alive m (pr_pid p) = Some (i, p) -> waits_for m x t i p any dest ->
  ut_tid t <> pr_main_thread_id p ->
  let m3 := wake_pipes true false (held_pipes PipeWrite p)
              (wake_pipes false true (held_pipes PipeRead p) (mark_exited i code reason (pr_main_thread_id p) m)) in
  thread_at m3 x t /\ find_process m3 (pr_pid p) = Some (i, exited code reason p) /\
  find_runnable m3 (ut_pid t) = find_runnable m (ut_pid t) /\
  (forall y u, thread_at m3 y u -> ut_pid u = ut_pid t -> y = x).
Proof.
  intros Hwf Hok Hp Hw Hmain m3. set (m1 := mark_exited i code reason (pr_main_thread_id p) m) in *.
  destruct (mark_exited_spec i code reason (pr_main_thread_id p) m Hwf) as [Ht1 _]. fold m1 in Ht1.
  pose proof (mark_exited_pipes i code reason (pr_main_thread_id p) m Hok) as Hok1. fold m1 in Hok1.
  pose proof (wake_pipes_undisturbed false true (held_pipes PipeRead p) m1 Hok1) as U2.
  pose proof (wake_pipes_undisturbed true false (held_pipes PipeWrite p) _ (un_pipes _ _ U2)) as U3. fold m3 in U3.
  set (m2 := wake_pipes false true (held_pipes PipeRead p) m1) in *.
  destruct (wt_at _ _ _ _ _ _ _ Hw) as [Hx Hxl].
  assert (Hx1 : uthreads_ m1 !! x = Some t).
  { unfold m1, mark_exited. set (m0 := on_process i _ m). destruct (find_thread m0 _) as [[k u]|] eqn:Hf; [|exact Hx].
    apply find_thread_Some in Hf as (Hk & _ & Htid & _). cbn. rewrite list_lookup_alter_ne; [done|].
    intros ->. cbn in Hk. congruence. }
  assert (Hproc : processes_ m3 = alter (exited code reason) i (processes_ m) /\ pcount_ m3 = pcount_ m).
  { rewrite (un_processes _ _ U3), (un_processes _ _ U2), (un_pcount _ _ U3), (un_pcount _ _ U2).
    unfold m1, mark_exited. by dmatch as [[k u]|]. }
  assert (Hfind : forall q, find_process m3 q =
    (fun '(j, p) => (j, if decide (j = i) then exited code reason p else p)) <$> find_process m q).
  { intros q. destruct (find_alive_Some _ _ _ _ Hp) as [Hfp [Hne _]].
    destruct (find_process_Some _ _ _ _ Hfp) as (Hi & _). destruct Hproc as [Hpr Hpc].
    by apply (find_process_changed m m3 i p). }
  assert (Ht3 : tame m m3) by (etrans; [exact Ht1|]; etrans; [apply U2|apply U3]).
  split_and!.
  - split; [|by rewrite (tm_count _ _ Ht3)]. apply U3; [|apply Hw]. apply U2; [done|apply Hw].
  - rewrite Hfind. destruct (find_alive_Some _ _ _ _ Hp) as [-> _]. cbn. by rewrite decide_True.
  - unfold find_runnable. rewrite Hfind. destruct (find_process m (ut_pid t)) as [[w q]|] eqn:Hf; [|done]. cbn.
    apply find_process_Some in Hf as (Hq & _ & Hqpid & _). destruct (decide (w = i)) as [->|]; [|done].
    destruct (find_alive_Some _ _ _ _ Hp) as [Hfp _]. destruct (find_process_Some _ _ _ _ Hfp) as (Hi & _).
    destruct (wt_other _ _ _ _ _ _ _ Hw). congruence.
  - intros y u Hy Hpid. destruct (thread_at_tame _ _ _ _ Ht3 Hy) as (u0 & Hu0 & _ & _ & _ & Hp0).
    apply (wt_alone _ _ _ _ _ _ _ Hw y u0 Hu0). congruence.
Qed.

(** Only the thread that waits is woken. *)
Lemma only_one_waits m pid code i p y u :
  find_process m pid = Some (i, p) -> ut_pid u <> pr_parent_pid p -> wake_process_waiter pid code y u m = None.
Proof.
  intros Hf Hne. unfold wake_process_waiter. case_decide; [|done].
  destruct (find_runnable m (ut_pid u)) as [[w q]|] eqn:Hr; [|done]. cbn. rewrite Hf. cbn.
  apply find_runnable_Some in Hr as [Hr _]. apply find_process_Some in Hr as (_ & _ & Hpid & _).
  destruct (Z.eqb_spec (pr_parent_pid p) (pr_pid q)); [congruence|done].
Qed.

Lemma wake_process_waiter_wakes m x t i p any dest code w waiter :
  waits_for m x t i p any dest ->
  forall m3 q, find_process m3 (pr_pid p) = Some (i, q) -> pr_parent_pid q = pr_parent_pid p ->
  find_runnable m3 (ut_pid t) = Some (w, waiter) ->
  pr_pid waiter = ut_pid t ->
  wake_process_waiter (pr_pid p) code x t m3 =
    Some (tally process_wait_wakes (on_thread x (fun t => wake (set_result 1 kSyscallErrorNone t))
      (m3 <| k_memory ::= write_bytes dest (wait_result any (pr_pid p) code) |>))).
Proof.
  intros Hw m3 q Hf Hq Hr Hpid. destruct Hw as [_ Hb Hrs Hany Htgt Hpar _ Hd _].
  unfold wake_process_waiter. rewrite decide_True by done. rewrite Hr. cbn. rewrite Hf. cbn.
  rewrite Hpid, Hq, Hpar, Z.eqb_refl. cbn. rewrite <-Hany. destruct Htgt as [->|Htgt].
  - cbn. rewrite Hd. done.
  - rewrite Htgt, Z.eqb_refl, andb_false_r. rewrite Hd. done.
Qed.

Lemma wake_process_waiters_wakes m x t i p q any dest code w waiter m3 :
  waits_for m x t i p any dest -> pr_pid p <> 0 ->
  thread_at m3 x t -> find_process m3 (pr_pid p) = Some (i, q) -> pr_parent_pid q = pr_parent_pid p ->
  find_runnable m3 (ut_pid t) = Some (w, waiter) -> pr_pid waiter = ut_pid t ->
  (forall y u, thread_at m3 y u -> ut_pid u = ut_pid t -> y = x) ->
  (wake_process_waiters (pr_pid p) code m3).1 =
    tally process_wait_wakes (on_thread x (fun t => wake (set_result 1 kSyscallErrorNone t))
      (m3 <| k_memory ::= write_bytes dest (wait_result any (pr_pid p) code) |>)).
Proof.
  intros Hw Hpid [Hx Hxl] Hf Hq Hr Hwp Halone.
  pose proof (wake_process_waiter_wakes m x t i p any dest code w waiter Hw m3 q Hf Hq Hr Hwp) as Hwake.
  unfold wake_process_waiters, wake_threads. rewrite (proj2 (Z.eqb_neq _ _) Hpid).
  set (m4 := tally _ _) in *. erewrite (for_each_single _ _ _ x (m4, inc64 0)); [done|exact Hxl| |..].
  - cbv beta iota. by rewrite Hx; cbn; rewrite Hwake.
  - intros y Hy Hne. cbv beta iota. destruct (uthreads_ m3 !! y) as [u|] eqn:Hu; [|done]. cbn.
    rewrite (only_one_waits m3 _ code i q); [done..|]. rewrite Hq, (wt_parent _ _ _ _ _ _ _ Hw).
    intros He. by apply Hne, (Halone y u).
  - intros y Hy Hne. cbv beta iota.
    assert (uthreads_ m4 !! y = uthreads_ m3 !! y) as -> by (by apply list_lookup_alter_ne).
    destruct (uthreads_ m3 !! y) as [u|] eqn:Hu; [|done]. cbn.
    rewrite (only_one_waits m4 _ code i q); [done|exact Hf|]. rewrite Hq, (wt_parent _ _ _ _ _ _ _ Hw).
    intros He. by apply Hne, (Halone y u).
Qed.

(** Nobody is woken when the parent may not run. *)
Lemma wake_process_waiters_none m x t i p q any dest code m3 :
  waits_for m x t i p any dest -> find_process m3 (pr_pid p) = Some (i, q) -> pr_parent_pid q = pr_parent_pid p ->
  find_runnable m3 (ut_pid t) = None -> (wake_process_waiters (pr_pid p) code m3).1 = m3.
Proof.
  intros Hw Hf Hq Hr. unfold wake_process_waiters, wake_threads. case_match; [done|].
  set (body := fun i _ => _). enough (Hn : for_each (tcount_ m3) body (m3, 0) = (m3, 0)) by (by rewrite Hn).
  apply (for_each_inv (fun _ r => r = (m3, 0))); [done|]. intros y r _ ->. unfold body.
  destruct (uthreads_ m3 !! y) as [u|] eqn:Hu; [|done]. cbn.
  destruct (decide (ut_pid u = ut_pid t)) as [He|He].
  - unfold wake_process_waiter. case_decide; [|done]. by rewrite He, Hr.
  - rewrite (only_one_waits m3 _ code i q); [done..|]. by rewrite Hq, (wt_parent _ _ _ _ _ _ _ Hw).
Qed.

(** What is left of [exit_process] touches none of this. *)
Lemma exit_ends tid pid m :
  let m' := (update_user_preemption_gate (forget_active tid pid m)).1 in
  uthreads_ m' = uthreads_ m /\ tcount_ m' = tcount_ m /\ processes_ m' = processes_ m /\ pcount_ m' = pcount_ m /\
  k_memory m' = k_memory m.
Proof.
  unfold update_user_preemption_gate, forget_active.
  repeat case_match; try done; destruct (_ =? tid), (_ =? pid); done.
Qed.

Lemma zlen_wait_result any pid code : zlen (wait_result any pid code) = if any then 16 else 8.
Proof. by destruct any. Qed.


End Wait.

(** ** Examples *)

(** The first process of the example waits for the second, and wants the exit code
    at 0x8000. *)
Definition demo_wait_cpu : Cpu := demo_cpu <| cpu_frame ::= fun f => f <| f_rdi := 2 |> <| f_rsi := 0x8000 |> |>.
Definition demo_parent : UserspaceManager := (block_user_wait_syscall_from_frame 2 demo_wait_cpu demo_running).1.1.
Definition demo_child : Process := default (demo_process "none" 0) (processes_ demo_parent !! 1%nat).

Lemma demo_parent_wf : tasks_wf demo_parent.
Proof. eapply user_step_wf; [apply demo_running_wf|apply step_wait]. Qed.

Lemma demo_parent_waits : waits_for demo_parent 0 (demo_thread 0 demo_parent) 1 demo_child false 0x8000.
Proof.
  split; try (vm_compute; reflexivity).
  - split; [vm_compute; reflexivity|vm_compute; lia].
  - right. vm_compute. reflexivity.
  - vm_compute. discriminate.
  - intros y u [Hy Hl]. assert (y = 0 \/ y = 1)%nat as [->| ->] by (vm_compute in Hl; lia); [done|].
    replace u with (demo_thread 1 demo_parent) by (unfold demo_thread; by rewrite Hy).
    vm_compute. discriminate.
Qed.


(** A third process is the parent of the first and stops it while it waits; the
    child exits; the first process is continued.  It has a child that exited, with
    code 7, and waits for it for ever. *)
Definition demo_stopped : UserspaceManager :=
  let m := (publish_process true (demo_process "shell") demo_two).1 in
  let m := (set_parent 1 3 m).1 in
  let m := (activate_thread 1 (mark_runnable 3 m).1).1 in
  let m := (block_user_wait_syscall_from_frame 2 demo_wait_cpu m).1.1 in
  let m := (stop_process_group 3 1 m).1 in
  let m := (exit_process 2 7 Exited m).1 in
  (continue_process_group 3 1 m).1.

Example stopped_parent_misses_the_exit :
  ut_state (demo_thread 0 demo_stopped) = UtBlocked /\ ut_wait_process_id (demo_thread 0 demo_stopped) = 2 /\
  pr_state <$> processes_ demo_stopped !! 0%nat = Some ProcRunnable /\
  wait_process 1 2 demo_stopped = Some 7.
Proof. vm_compute. done. Qed.
