(* ===== verification/UserLib.v ===== *)
(** * Programs of userland (userland/include/hybrid/user.hpp)

    A program runs against the kernel it calls.  The kernel is a type [K] with the
    system calls a program uses, the class [Sys]; a program is a function of the
    kernel's state that returns, exits, or has spent the iterations allowed to its
    loops.  [iter] is the unbounded loop.  The class [SysLaws] says what a program
    relies on: bytes written to the standard output are appended to it, reads
    deliver the input of a descriptor in pieces and then report its end, and a call
    that would block is answered after finitely many yields.

    [wp p k Q E] is total: with enough iterations [p] returns with [Q] or exits with
    [E].  The rest of the file is the text helpers of user.hpp and their rules. *)

From S2P Require Import Prelude.
From stdpp Require Import strings.
From Stdlib Require Import Ascii.
#[local] Open Scope Z_scope.

(** ** Text *)

(** A C string literal as the bytes before its terminator. *)
Definition txt (s : string) : list Z := (fun c => Z.of_nat (nat_of_ascii c)) <$> String.list_ascii_of_string s.
Arguments txt : simpl never.

(** The bytes of a buffer that a reader of C strings sees. *)
Fixpoint until_nul (buffer : list Z) : list Z :=
  match buffer with
  | [] => []
  | c :: rest => if c =? 0 then [] else c :: until_nul rest
  end.

Definition strlen (text : list Z) : Z := zlen (until_nul text).

(** [left[i] == right[i]] up to both terminators. *)
Fixpoint streq (left right : list Z) : bool :=
  match left, right with
  | l :: left', r :: right' => if l =? r then streq left' right' else false
  | [], [] => true
  | _, _ => false
  end.

Definition hex_digit (value : Z) : Z :=
  let value := Z.land value 15 in
  if value <? 10 then 48 + value else 97 + (value - 10).

(** A line buffer is its bytes before the cursor; the byte at the cursor is 0. *)
Definition append_char (capacity : Z) (value : Z) (line : list Z) : list Z :=
  if capacity <=? zlen line + 1 then line else line ++ [value].

Definition append_text (capacity : Z) (text line : list Z) : list Z :=
  foldl (fun line c => append_char capacity c line) line (until_nul text).

(** [for (shift = 60; shift >= 0; shift -= 4)] *)
Definition append_hex (capacity : Z) (value : Z) (line : list Z) : list Z :=
  for_each 16 (fun i line => append_char capacity (hex_digit (Z.shiftr value (60 - 4 * Z.of_nat i))) line)
    (append_text capacity (txt "0x") line).

(** ** The kernel as a program sees it *)

Record SyscallResult := mkResult { r_value : Z; r_error : Z }.

Definition ErrorNone : Z := 0.
Definition ErrorInvalidPointer : Z := 2.
Definition ErrorNotFound : Z := 3.
Definition ErrorWouldBlock : Z := 4.
Definition StdinFd : Z := 0.
Definition StdoutFd : Z := 1.

Class Sys (K : Type) := {
  sys_argument : Z -> K -> K * option (list Z);
  sys_open : list Z -> K -> K * SyscallResult;
  sys_close : Z -> K -> K * SyscallResult;
  sys_read : Z -> Z -> K -> K * SyscallResult * list Z;
  sys_write : Z -> list Z -> K -> K * SyscallResult;
  sys_yield : K -> K
}.

(** ** Programs *)

Inductive outcome (K A : Type) : Type :=
  | Returns (a : A) (k : K)
  | Exits (code : Z) (k : K)
  | Spent.
Arguments Returns {K A} a k.
Arguments Exits {K A} code k.
Arguments Spent {K A}.

(** The first argument is the number of iterations each loop may take. *)
Definition prog (K A : Type) : Type := nat -> K -> outcome K A.

Definition ret {K A} (a : A) : prog K A := fun _ k => Returns a k.
Definition bind {K A B} (p : prog K A) (f : A -> prog K B) : prog K B := fun n k =>
  match p n k with
  | Returns a k' => f a n k'
  | Exits c k' => Exits c k'
  | Spent => Spent
  end.
Definition exit {K A} (code : Z) : prog K A := fun _ k => Exits code k.
Definition call {K A} (f : K -> K * A) : prog K A := fun _ k => let '(k', a) := f k in Returns a k'.

Declare Scope prog_scope.
Delimit Scope prog_scope with prog.
Notation "'let!' x ':=' p 'in' q" := (bind p (fun x => q))
  (at level 10, x pattern, p at level 100, q at level 200) : prog_scope.
Notation "p ;; q" := (bind p (fun _ => q)) (at level 100, right associativity) : prog_scope.
#[local] Open Scope prog_scope.

(** [for (;;)] with the loop's variables as a state: [inl] goes around again, [inr]
    is a [break] or a [return]. *)
Fixpoint iterate {K S R} (count : nat) (body : S -> prog K (S + R)) (s : S) : prog K R := fun n k =>
  match count with
  | O => Spent
  | S count' =>
    match body s n k with
    | Returns (inl s') k' => iterate count' body s' n k'
    | Returns (inr r) k' => Returns r k'
    | Exits c k' => Exits c k'
    | Spent => Spent
    end
  end.
Definition iter {K S R} (body : S -> prog K (S + R)) (s : S) : prog K R := fun n => iterate n body s n.

Section programs.
Context {K : Type} `{!Sys K}.

(** [get_arg] of the programs: the structure is cleared before the call. *)
Definition get_arg (index : Z) : prog K (option (list Z)) := call (sys_argument index).

Definition read_blocking (fd size : Z) : prog K (SyscallResult * list Z) :=
  iter (fun _ : unit =>
    let! (result, data) := call (fun k => let '(k', r, d) := sys_read fd size k in (k', (r, d))) in
    if negb (r_error result =? ErrorWouldBlock) then ret (inr (result, data))
    else call (fun k => (sys_yield k, inl tt))) tt.

Definition write_fd (fd : Z) (buffer : list Z) : prog K unit :=
  let text := until_nul buffer in
  iter (fun written : Z =>
    if written <? zlen text then
      let! result := call (sys_write fd (drop (Z.to_nat written) text)) in
      if r_error result =? ErrorWouldBlock then call (fun k => (sys_yield k, inl written))
      else if negb (r_error result =? ErrorNone) || (r_value result =? 0) then ret (inr tt)
      else ret (inl (written + r_value result))
    else ret (inr tt)) 0.

Definition write_text (text : list Z) : prog K unit := write_fd StdoutFd text.
Definition write_line (text : list Z) : prog K unit := write_text text ;; write_text [10].

Definition write_hex_line (prefix label : list Z) (value : Z) : prog K unit :=
  write_line (append_hex 128 value (append_text 128 label (append_text 128 prefix []))).

Definition write_text_line (prefix label value : list Z) : prog K unit :=
  write_line (append_text 128 value (append_text 128 label (append_text 128 prefix []))).

End programs.

(** ** Total correctness *)

Definition wp {K A} (p : prog K A) (k : K) (Q : A -> K -> Prop) (E : Z -> K -> Prop) : Prop :=
  exists (n0 : nat) (o : outcome K A), (forall n, (n0 <= n)%nat -> p n k = o) /\
    match o with Returns a k' => Q a k' | Exits c k' => E c k' | Spent => False end.

Lemma wp_mono {K A} (p : prog K A) k (Q Q' : A -> K -> Prop) (E E' : Z -> K -> Prop) :
  wp p k Q E -> (forall a k', Q a k' -> Q' a k') -> (forall c k', E c k' -> E' c k') -> wp p k Q' E'.
Proof. intros (n0 & o & Ho & HQ) H1 H2. exists n0, o. split; [done|]. destruct o; eauto. Qed.

Lemma wp_ret {K A} (a : A) (k : K) (Q : A -> K -> Prop) E : Q a k -> wp (ret a) k Q E.
Proof. intros HQ. by exists 0%nat, (Returns a k). Qed.

Lemma wp_exit {K A} c (k : K) (Q : A -> K -> Prop) (E : Z -> K -> Prop) : E c k -> wp (exit c) k Q E.
Proof. intros HE. by exists 0%nat, (Exits c k). Qed.

Lemma wp_call {K A} (f : K -> K * A) k k' a (Q : A -> K -> Prop) E :
  f k = (k', a) -> Q a k' -> wp (call f) k Q E.
Proof. intros Hf HQ. exists 0%nat, (Returns a k'). split; [|done]. intros n _. unfold call. by rewrite Hf. Qed.

Lemma wp_bind {K A B} (p : prog K A) (f : A -> prog K B) k Q E :
  wp p k (fun a k' => wp (f a) k' Q E) E -> wp (bind p f) k Q E.
Proof.
  intros (n0 & o & Ho & HQ). destruct o as [a k'|c k'|]; [|by exists n0, (Exits c k'); split; [|done];
    intros n Hn; unfold bind; rewrite Ho|done].
  destruct HQ as (n1 & o & Ho' & HQ). exists (n0 `max` n1)%nat, o. split; [|done].
  intros n Hn. unfold bind. rewrite Ho by lia. apply Ho'. lia.
Qed.

(** A loop with a variant, the pair of two numbers in lexicographic order. *)
Lemma wp_iter {K S R} (body : S -> prog K (S + R)) (I : S -> K -> Prop) (major minor : S -> K -> nat) Q E s k :
  (forall s k, I s k -> wp (body s) k (fun x k' =>
     match x with
     | inl s' => I s' k' /\ ((major s' k' < major s k)%nat \/
                             (major s' k' <= major s k)%nat /\ (minor s' k' < minor s k)%nat)
     | inr r => Q r k'
     end) E) ->
  I s k -> wp (iter body s) k Q E.
Proof.
  intros Hbody HI.
  assert (Hgen : forall m l s k, (major s k < m)%nat -> (minor s k < l)%nat -> I s k ->
    exists c0 n0 o, (forall c n, (c0 <= c)%nat -> (n0 <= n)%nat -> iterate c body s n k = o) /\
      match o with Returns a k' => Q a k' | Exits c k' => E c k' | Spent => False end).
  - clear s k HI. induction m as [|m IHm]; intros l; [intros; lia|].
    induction l as [|l IHl]; intros s k Hm Hl HI; [lia|].
    destruct (Hbody s k HI) as (n0 & o & Ho & HQ).
    destruct o as [[s'|r] k'|c k'|]; [destruct HQ as [HI' Hlt]|..].
    + assert (Hnext : exists c1 n1 o, (forall c n, (c1 <= c)%nat -> (n1 <= n)%nat -> iterate c body s' n k' = o) /\
        match o with Returns a k' => Q a k' | Exits c k' => E c k' | Spent => False end).
      { destruct Hlt as [Hlt|[Hle Hlt]]; [|apply IHl; [lia|lia|done]].
        apply (IHm (Datatypes.S (minor s' k'))); [lia|lia|done]. }
      destruct Hnext as (c1 & n1 & o & Ho' & HQ).
      exists (Datatypes.S c1), (n0 `max` n1)%nat, o. split; [|done].
      intros [|c] n Hc Hn; [lia|]. cbn [iterate]. rewrite Ho by lia. apply Ho'; lia.
    + exists 1%nat, n0, (Returns r k'). split; [|done]. intros [|c] n Hc Hn; [lia|]. cbn [iterate]. by rewrite Ho.
    + exists 1%nat, n0, (Exits c k'). split; [|done]. intros [|c'] n Hc Hn; [lia|]. cbn [iterate]. by rewrite Ho.
    + done.
  - destruct (Hgen (Datatypes.S (major s k)) (Datatypes.S (minor s k)) s k ltac:(lia) ltac:(lia) HI)
      as (c0 & n0 & o & Ho & HQ).
    exists (c0 `max` n0)%nat, o. split; [|done]. intros n Hn. unfold iter. apply Ho; lia.
Qed.

(** ** What a program relies on *)

Class SysLaws (K : Type) `{!Sys K} := {
  good : K -> Prop;
  output : K -> list Z;
  input : Z -> K -> list Z;
  stall : K -> nat;
  same (k k' : K) : Prop := good k' /\ output k' = output k /\ forall fd, input fd k' = input fd k;
  argument_law : forall i k, good k -> same k (sys_argument i k).1;
  close_law : forall fd k, good k -> good (sys_close fd k).1 /\ output (sys_close fd k).1 = output k;
  open_law : forall path k, good k -> good (sys_open path k).1 /\ output (sys_open path k).1 = output k;
  yield_law : forall k, good k -> same k (sys_yield k) /\ (stall (sys_yield k) <= stall k)%nat;
  write_law : forall bytes k, good k -> bytes <> [] -> zlen bytes <= 4096 ->
    let '(k', r) := sys_write StdoutFd bytes k in
    good k' /\ (forall fd, input fd k' = input fd k) /\
    (r_error r = ErrorNone /\ 0 < r_value r <= zlen bytes /\
       output k' = output k ++ take (Z.to_nat (r_value r)) bytes \/
     r_error r = ErrorWouldBlock /\ output k' = output k /\ (stall k' < stall k)%nat);
  read_law : forall fd size k, good k -> 0 < size <= 4096 ->
    let '(k', r, data) := sys_read fd size k in
    good k' /\ output k' = output k /\
    (input fd k = [] /\ r_value r = 0 /\ (r_error r = ErrorNotFound \/ r_error r = ErrorNone) /\ input fd k' = [] \/
     r_error r = ErrorNone /\ r_value r = zlen data /\ 0 < zlen data <= size /\ input fd k = data ++ input fd k' \/
     r_error r = ErrorWouldBlock /\ input fd k' = input fd k /\ (stall k' < stall k)%nat)
}.

Section rules.
Context {K : Type} `{!Sys K} `{!SysLaws K}.
Implicit Types k : K.

(** The standard output grew by [text] and no input moved. *)
Definition wrote (text : list Z) k k' : Prop :=
  good k' /\ output k' = output k ++ text /\ forall fd, input fd k' = input fd k.

Lemma wrote_trans a b k k1 k2 : wrote a k k1 -> wrote b k1 k2 -> wrote (a ++ b) k k2.
Proof.
  intros (G1 & O1 & I1) (G2 & O2 & I2). split_and!; [done| |intros fd; by rewrite I2].
  by rewrite O2, O1, <-app_assoc.
Qed.

Lemma same_wrote k k' : same k k' -> wrote [] k k'.
Proof. intros (G & O & I). split_and!; [done|by rewrite app_nil_r|done]. Qed.

Lemma wp_write_text buffer k (Q : unit -> K -> Prop) E :
  good k -> zlen (until_nul buffer) <= 4096 -> (forall k', wrote (until_nul buffer) k k' -> Q tt k') ->
  wp (write_text buffer) k Q E.
Proof.
  intros Hg Hcap HQ. unfold write_text, write_fd. set (text := until_nul buffer) in *.
  apply (wp_iter _ (fun w k' => 0 <= w <= zlen text /\ wrote (take (Z.to_nat w) text) k k')
           (fun w _ => Z.to_nat (zlen text - w)) (fun _ k' => stall k')).
  2: { split; [unfold zlen; lia|]. apply same_wrote. by split_and!. }
  clear Hg. intros w k1 (Hw & Hk). pose proof Hk as (Hg & Ho & Hi). destruct (Z.ltb_spec w (zlen text)) as [Hlt|Hge].
  2: { apply wp_ret, HQ. rewrite take_ge in Hk; [done|]. unfold zlen in *. lia. }
  apply wp_bind. assert (Hne : drop (Z.to_nat w) text <> []).
  { intros Hd. apply (f_equal length) in Hd. rewrite length_drop in Hd. unfold zlen in *. simpl in *. lia. }
  assert (Hsize : zlen (drop (Z.to_nat w) text) <= 4096) by (unfold zlen in *; rewrite length_drop; lia).
  pose proof (write_law (drop (Z.to_nat w) text) k1 Hg Hne Hsize) as Hl.
  destruct (sys_write StdoutFd (drop (Z.to_nat w) text) k1) as [k2 r] eqn:Hs. destruct Hl as (Hg2 & Hi2 & Hl).
  apply (wp_call _ _ _ _ _ _ Hs).
  assert (Hin : forall fd, input fd k2 = input fd k) by (intros fd; by rewrite Hi2).
  destruct Hl as [(He & Hv & Ho2)|(He & Ho2 & Hst)].
  - rewrite He. cbn. destruct (Z.eqb_spec (r_value r) 0) as [|_]; [lia|]. cbn. apply wp_ret.
    unfold zlen in Hv. rewrite length_drop in Hv. unfold zlen in *. split; [split; [lia|]|].
    + split_and!; [done| |done]. rewrite Ho2, Ho, <-app_assoc. f_equal.
      rewrite take_take_drop. f_equal. lia.
    + left. lia.
  - rewrite He. cbn. destruct (yield_law k2 Hg2) as [(Hg3 & Ho3 & Hi3) Hst3].
    eapply wp_call; [done|]. split; [split; [lia|]|right; lia].
    split_and!; [done|by rewrite Ho3, Ho2|intros fd; by rewrite Hi3].
Qed.

Lemma wp_write_line text k (Q : unit -> K -> Prop) E :
  good k -> zlen (until_nul text) <= 4096 -> (forall k', wrote (until_nul text ++ [10]) k k' -> Q tt k') ->
  wp (write_line text) k Q E.
Proof.
  intros Hg Hcap HQ. apply wp_bind, wp_write_text; [done..|]. intros k1 H1.
  apply wp_write_text; [apply H1|done|]. intros k2 H2. apply HQ. by eapply wrote_trans.
Qed.

(** What a read that did not block answers: the end of the input, or its next bytes. *)
Definition read_answer (fd size : Z) k (x : SyscallResult * list Z) k' : Prop :=
  good k' /\ output k' = output k /\
  (input fd k = [] /\ r_value x.1 = 0 /\ (r_error x.1 = ErrorNotFound \/ r_error x.1 = ErrorNone) \/
   x.1 = mkResult (zlen x.2) ErrorNone /\ 0 < zlen x.2 <= size /\ input fd k = x.2 ++ input fd k').

Lemma wp_read_blocking fd size k (Q : SyscallResult * list Z -> K -> Prop) E :
  good k -> 0 < size <= 4096 -> (forall x k', read_answer fd size k x k' -> Q x k') -> wp (read_blocking fd size) k Q E.
Proof.
  intros Hg Hs HQ. unfold read_blocking.
  apply (wp_iter _ (fun _ k' => good k' /\ output k' = output k /\ input fd k' = input fd k)
           (fun _ _ => 0%nat) (fun _ k' => stall k')); [|done].
  clear Hg. intros [] k1 (Hg & Ho & Hi). apply wp_bind.
  pose proof (read_law fd size k1 Hg Hs) as Hl.
  destruct (sys_read fd size k1) as [[k2 r] data] eqn:Hr. destruct Hl as (Hg2 & Ho2 & Hl).
  eapply wp_call; [by rewrite Hr|].
  destruct Hl as [(Hin & Hv & He & Hin2)|[(He & Hv & Hz & Hin)|(He & Hin & Hst)]].
  - assert (Hnb : (r_error r =? ErrorWouldBlock) = false) by (by destruct He as [-> | ->]).
    cbn. rewrite Hnb. apply wp_ret, HQ. split_and!; [done|by rewrite Ho2|]. left. by rewrite <-Hi.
  - rewrite He. cbn. apply wp_ret, HQ. split_and!; [done|by rewrite Ho2|]. right. cbn.
    split_and!; [|lia|lia|by rewrite <-Hi]. destruct r; simpl in *; congruence.
  - rewrite He. cbn. destruct (yield_law k2 Hg2) as [(Hg3 & Ho3 & Hi3) Hst3].
    eapply wp_call; [done|]. cbn. split; [|right; lia].
    split_and!; [done|by rewrite Ho3, Ho2|by rewrite Hi3, Hin].
Qed.

End rules.

(** ** Lines

    Appending to a line buffer of [capacity] bytes is appending to the whole text
    and keeping what fits before the terminator. *)

Definition clip (capacity : Z) (text : list Z) : list Z := take (Z.to_nat (capacity - 1)) text.

Lemma append_char_clip capacity c l :
  append_char capacity c (clip capacity l) = clip capacity (l ++ [c]).
Proof.
  unfold append_char, clip, zlen. rewrite length_take.
  destruct (Z.leb_spec capacity (Z.of_nat (Z.to_nat (capacity - 1) `min` length l) + 1)).
  - by rewrite take_app_le by lia.
  - rewrite !take_ge by (rewrite ?length_app; simpl; lia). done.
Qed.

Lemma append_chars_clip capacity cs l :
  foldl (fun line c => append_char capacity c line) (clip capacity l) cs = clip capacity (l ++ cs).
Proof.
  revert l. induction cs as [|c cs IH]; intros l; simpl; [by rewrite app_nil_r|].
  rewrite append_char_clip, IH. by rewrite <-app_assoc.
Qed.

Lemma append_text_clip capacity text l :
  append_text capacity text (clip capacity l) = clip capacity (l ++ until_nul text).
Proof. apply append_chars_clip. Qed.

Lemma append_text_nil capacity text : append_text capacity text [] = clip capacity (until_nul text).
Proof. rewrite <-(take_nil (Z.to_nat (capacity - 1))). apply append_text_clip. Qed.

(** Hexadecimal digits, and the sixteen of a 64-bit number, most significant first. *)
Definition hex_char (d : Z) : Z := nth (Z.to_nat d) (txt "0123456789abcdef") 0.
Definition hex64 (value : Z) : list Z :=
  (fun i => hex_char (value / 16 ^ (15 - Z.of_nat i) mod 16)) <$> seq 0 16.

Lemma hex_digit_char v : hex_digit v = hex_char (v mod 16).
Proof.
  unfold hex_digit. change 15 with (2 ^ 4 - 1). rewrite land_low by lia. change (2 ^ 4) with 16.
  pose proof (Z.mod_pos_bound v 16 ltac:(lia)) as Hr. revert Hr. generalize (v mod 16). intros d Hd.
  assert (Hc : d = 0 \/ d = 1 \/ d = 2 \/ d = 3 \/ d = 4 \/ d = 5 \/ d = 6 \/ d = 7 \/ d = 8 \/ d = 9 \/
               d = 10 \/ d = 11 \/ d = 12 \/ d = 13 \/ d = 14 \/ d = 15) by lia.
  by repeat destruct Hc as [->|Hc]; subst.
Qed.

Lemma append_hex_clip capacity value l :
  append_hex capacity value (clip capacity l) = clip capacity (l ++ txt "0x" ++ hex64 value).
Proof.
  unfold append_hex, for_each. rewrite append_text_clip. change (until_nul (txt "0x")) with (txt "0x").
  assert (Hds : hex64 value = (fun i => hex_digit (Z.shiftr value (60 - 4 * Z.of_nat i))) <$> seq 0 16).
  { apply list_fmap_ext. intros i x Hx. apply lookup_seq in Hx as [-> Hi]. rewrite hex_digit_char.
    rewrite Z.shiftr_div_pow2 by lia. f_equal. f_equal. f_equal.
    change 16 with (2 ^ 4). rewrite <-Z.pow_mul_r by lia. f_equal. lia. }
  rewrite app_assoc, <-(append_chars_clip _ (hex64 value)), Hds. generalize (clip capacity (l ++ txt "0x")).
  generalize (seq 0 16). intros ds. induction ds as [|i ds IH]; intros line; simpl; [done|]. apply IH.
Qed.

(** Text without a terminator in it is seen whole. *)
Definition nul_free (text : list Z) : Prop := Forall (fun c => c <> 0) text.

Lemma until_nul_id text : nul_free text -> until_nul text = text.
Proof.
  induction 1 as [|c text Hc _ IH]; simpl; [done|]. destruct (Z.eqb_spec c 0); [done|]. by rewrite IH.
Qed.

Lemma until_nul_free text : nul_free (until_nul text).
Proof. induction text as [|c text IH]; simpl; [constructor|]. destruct (Z.eqb_spec c 0); by constructor. Qed.

Lemma until_nul_length text : (length (until_nul text) <= length text)%nat.
Proof. induction text as [|c text IH]; simpl; [done|]. destruct (c =? 0); simpl; lia. Qed.

Lemma clip_nul_free capacity text : nul_free text -> nul_free (clip capacity text).
Proof. apply Forall_take. Qed.

Lemma hex_char_range v : 48 <= hex_char (v mod 16).
Proof.
  rewrite <-hex_digit_char. unfold hex_digit. change 15 with (2 ^ 4 - 1). rewrite land_low by lia.
  pose proof (Z.mod_pos_bound v (2 ^ 4) ltac:(lia)). destruct (Z.ltb_spec (v mod 2 ^ 4) 10); lia.
Qed.

Lemma hex64_nul_free v : nul_free (hex64 v).
Proof. apply Forall_fmap, Forall_true. intros i. cbn. pose proof (hex_char_range (v / 16 ^ (15 - Z.of_nat i))). lia. Qed.

Definition nul_freeb (text : list Z) : bool := forallb (fun c => negb (c =? 0)) text.
Lemma nul_freeb_ok text : nul_freeb text = true -> nul_free text.
Proof. intros H. apply Forall_forall. intros c Hc. unfold nul_freeb in H. rewrite forallb_forall in H.
  specialize (H c). rewrite <-list_elem_of_In in H. specialize (H Hc). bsimp. done. Qed.

(** A line that was cut to its buffer. *)
Lemma wp_write_clip {K} `{!Sys K} `{!SysLaws K} capacity text (k : K) (Q : unit -> K -> Prop) E :
  good k -> nul_free text -> capacity <= 4096 ->
  (forall k', wrote (clip capacity text ++ [10]) k k' -> Q tt k') -> wp (write_line (clip capacity text)) k Q E.
Proof.
  intros Hg Hf Hc HQ. pose proof (until_nul_id _ (clip_nul_free capacity text Hf)) as Hid. apply wp_write_line; [done| |].
  - rewrite Hid. unfold zlen, clip. rewrite length_take. lia.
  - by rewrite Hid.
Qed.

Lemma wp_write_hex_line {K} `{!Sys K} `{!SysLaws K} prefix label value (k : K) (Q : unit -> K -> Prop) E :
  good k -> nul_free prefix -> nul_free label -> zlen prefix + zlen label + 18 < 128 ->
  (forall k', wrote (prefix ++ label ++ txt "0x" ++ hex64 value ++ [10]) k k' -> Q tt k') ->
  wp (write_hex_line prefix label value) k Q E.
Proof.
  intros Hg Hp Hl Hlen HQ. unfold write_hex_line.
  rewrite append_text_nil, append_text_clip, append_hex_clip, (until_nul_id prefix), (until_nul_id label) by done.
  apply wp_write_clip; [done| |done|].
  - repeat apply Forall_app_2; [done..|by apply nul_freeb_ok|apply hex64_nul_free].
  - intros k'. unfold clip. rewrite take_ge; [rewrite <-!app_assoc; apply HQ|].
    rewrite !length_app. unfold hex64. rewrite length_fmap, length_seq. unfold zlen in Hlen. simpl. lia.
Qed.

Lemma wp_write_text_line {K} `{!Sys K} `{!SysLaws K} prefix label value (k : K) (Q : unit -> K -> Prop) E :
  good k -> nul_free prefix -> nul_free label -> nul_free value -> zlen prefix + zlen label + zlen value < 128 ->
  (forall k', wrote (prefix ++ label ++ value ++ [10]) k k' -> Q tt k') ->
  wp (write_text_line prefix label value) k Q E.
Proof.
  intros Hg Hp Hl Hv Hlen HQ. unfold write_text_line.
  rewrite append_text_nil, !append_text_clip, (until_nul_id prefix), (until_nul_id label), (until_nul_id value) by done.
  apply wp_write_clip; [done|by repeat apply Forall_app_2|done|].
  intros k'. unfold clip. rewrite take_ge; [rewrite <-!app_assoc; apply HQ|].
  rewrite !length_app. unfold zlen in Hlen. lia.
Qed.

Lemma streq_spec left right : streq left right = true <-> left = right.
Proof.
  revert right. induction left as [|l left IH]; intros [|r right]; simpl; try done.
  destruct (Z.eqb_spec l r) as [->|Hne]; [rewrite IH; split; congruence|split; [done|congruence]].
Qed.

(** ** A small kernel

    One file, read in pieces of five bytes, and a standard output that takes five
    bytes at a time; after each transfer the next call would block once. *)

Record small_kernel := mkSmall { sk_arguments : list (list Z); sk_file : list Z; sk_output : list Z; sk_busy : nat }.
#[export] Instance small_kernel_eta : Eta small_kernel := fun r =>
  mkSmall (sk_arguments r) (sk_file r) (sk_output r) (sk_busy r).

#[export] Instance small_sys : Sys small_kernel := {
  sys_argument i k := (k, if i <? 1 then None else sk_arguments k !! Z.to_nat (i - 1));
  sys_open _ k := (k, mkResult 3 ErrorNone);
  sys_close _ k := (k, mkResult 1 ErrorNone);
  sys_read fd size k :=
    match sk_busy k, sk_file k with
    | S n, _ => (k <| sk_busy := n |>, mkResult 0 ErrorWouldBlock, [])
    | O, [] => (k, mkResult 0 ErrorNotFound, [])
    | O, _ => let data := take (Z.to_nat size `min` 5) (sk_file k) in
              (k <| sk_file ::= drop (length data) |> <| sk_busy := 1%nat |>, mkResult (zlen data) ErrorNone, data)
    end;
  sys_write fd bytes k :=
    match sk_busy k with
    | S n => (k <| sk_busy := n |>, mkResult 0 ErrorWouldBlock)
    | O => let data := take 5 bytes in
           (k <| sk_output ::= fun o => o ++ data |> <| sk_busy := 1%nat |>, mkResult (zlen data) ErrorNone)
    end;
  sys_yield k := k
}.

#[export] Program Instance small_laws : SysLaws small_kernel := {
  good _ := True; output := sk_output; input _ := sk_file; stall := sk_busy
}.
Next Obligation. done. Qed.
Next Obligation. done. Qed.
Next Obligation. done. Qed.
Next Obligation. by split. Qed.
Next Obligation.
  intros bytes k _ Hne _. cbn. destruct (sk_busy k) as [|n] eqn:Hb; cbn; split_and!; try done; [left|right].
  - assert (0 < length bytes)%nat by (destruct bytes; [done|simpl; lia]). unfold zlen. rewrite length_take.
    split_and!; [done|lia|lia|]. f_equal. by rewrite Nat2Z.id, <-take_take, (take_ge bytes (length bytes)).
  - split_and!; [done..|lia].
Qed.
Next Obligation.
  intros fd size k _ Hs. cbn. destruct (sk_busy k) as [|n] eqn:Hb; [|cbn; split_and!; [done..|right; right; split_and!; [done..|lia]]].
  destruct (sk_file k) as [|b file] eqn:Hf; (split; [done|]; split; [done|]); [left; split_and!; [done|done|by left|done]|right; left].
  set (n := (Z.to_nat size `min` 5)%nat). set (data := take n (b :: file)).
  assert (Hd : length data = (n `min` length (b :: file))%nat) by apply length_take. cbn [length] in Hd.
  split_and!; [done|done|unfold zlen; lia|unfold zlen; lia|].
  change (b :: file = data ++ drop (length data) (b :: file)).
  destruct (decide (n <= length (b :: file))%nat).
  - rewrite Hd, Nat.min_l by done. unfold data. by rewrite take_drop.
  - unfold data. rewrite take_ge by lia. by rewrite drop_all, app_nil_r.
Qed.
