(* ===== verification/Acpi.v ===== *)
(** * The tables of the firmware (kernel/src/acpi/acpi.cpp)

    The root pointer, the root table, the MADT with the processors and interrupt
    controllers, and the MCFG with the configuration space of PCI.  Physical memory is a
    function from addresses to bytes.  An array with its count is the list of its entries;
    what the code logs is left out. *)

From stdpp Require Import strings.
From Stdlib Require Import ZifyBool.
From S2P Require Import Prelude UserLib.
#[local] Open Scope Z_scope.

(** ** The code *)

Record CpuInfo := mkCpuInfo { processor_id : Z; apic_id : Z; enabled : bool }.
Record IoApicInfo := mkIoApic { io_id : Z; io_address : Z; gsi_base : Z }.
Record InterruptOverride := mkOverride { ov_bus : Z; ov_source : Z; ov_gsi : Z; ov_flags : Z }.
Record EcamInfo := mkEcam { ec_base : Z; ec_segment : Z; start_bus : Z; end_bus : Z }.

Record AcpiDiagnostics := mkDiag {
  rsdp_present : bool; rsdp_signature_valid : bool; rsdp_base_checksum_valid : bool; rsdp_extended_checksum_valid : bool;
  xsdt_used : bool; rsdt_used : bool; root_entry_count : Z; tables_scanned : Z; tables_valid : Z; checksum_failures : Z;
  malformed_tables : Z; madt_entries : Z; madt_malformed_entries : Z; madt_lapic_entries : Z; madt_ioapic_entries : Z;
  madt_override_entries : Z; madt_lapic_address_overrides : Z; mcfg_entries : Z; ecam_regions_validated : Z;
  ecam_regions_rejected : Z; ecam_overlaps_rejected : Z
}.
#[export] Instance AcpiDiagnostics_eta : Eta AcpiDiagnostics := fun r =>
  mkDiag (rsdp_present r) (rsdp_signature_valid r) (rsdp_base_checksum_valid r) (rsdp_extended_checksum_valid r)
    (xsdt_used r) (rsdt_used r) (root_entry_count r) (tables_scanned r) (tables_valid r) (checksum_failures r)
    (malformed_tables r) (madt_entries r) (madt_malformed_entries r) (madt_lapic_entries r) (madt_ioapic_entries r)
    (madt_override_entries r) (madt_lapic_address_overrides r) (mcfg_entries r) (ecam_regions_validated r)
    (ecam_regions_rejected r) (ecam_overlaps_rejected r).

Record PlatformInfo := mkPlatform {
  valid : bool; revision : Z; root_table : Z; madt : Z; local_apic_base : Z; cpus : list CpuInfo;
  io_apics : list IoApicInfo; overrides : list InterruptOverride; mcfg : Z; ecam_regions : list EcamInfo
}.
#[export] Instance PlatformInfo_eta : Eta PlatformInfo := fun r =>
  mkPlatform (valid r) (revision r) (root_table r) (madt r) (local_apic_base r) (cpus r) (io_apics r) (overrides r)
    (mcfg r) (ecam_regions r).

Record acpi := mkAcpi { info : PlatformInfo; diag : AcpiDiagnostics }.
#[export] Instance acpi_eta : Eta acpi := fun r => mkAcpi (info r) (diag r).

Definition acpi_zero : acpi :=
  mkAcpi (mkPlatform false 0 0 0 0 [] [] [] 0 [])
    (mkDiag false false false false false false 0 0 0 0 0 0 0 0 0 0 0 0 0 0 0).

Abbreviation count f := (fun s => s <| diag ::= fun d => d <| f ::= inc32 |> |>).

Section Tables.
Context (mem : Z -> Z).

(** A little-endian field of [n] bytes. *)
Fixpoint field (n : nat) (a : Z) : Z :=
  match n with O => 0 | S n' => mem a + 256 * field n' (a + 1) end.

Definition memeq (a : Z) (text : list Z) : bool := bool_decide (bytes_at mem a (zlen text) = text).

Definition sum_bytes (a length : Z) : Z := foldl (fun sum b => w8 (sum + b)) 0 (bytes_at mem a length).
Definition checksum_ok (a length : Z) : bool := sum_bytes a length =? 0.

(** [sizeof(SdtHeader)] is 36; the length of a table is its field at 4. *)
Definition sdt_length (h : Z) : Z := field 4 (h + 4).
Definition sdt_valid (h : Z) (sig : option (list Z)) (count_diagnostics : bool) (s : acpi) : acpi * bool :=
  if (h =? 0) || (sdt_length h <? 36) then ((if count_diagnostics then count malformed_tables s else s), false)
  else if match sig with Some sig => negb (memeq h sig) | None => false end then (s, false)
  else if negb (checksum_ok h (sdt_length h)) then ((if count_diagnostics then count checksum_failures s else s), false)
  else (s, true).

Definition find_table (root : Z) (sig : list Z) (xsdt : bool) (s : acpi) : acpi * Z :=
  if negb (sdt_valid root None false s).2 then (s, 0)
  else
    let entry_size := if xsdt then 8 else 4 in
    let entries := (sdt_length root - 36) / entry_size in
    let s := s <| diag ::= fun d => d <| root_entry_count := entries |> |> in
    match loop_range 0 entries (fun i s =>
      let table := field (if xsdt then 8 else 4) (root + 36 + i * entry_size) in
      let s := count tables_scanned s in
      let '(s, ok) := sdt_valid table None true s in
      if negb ok then Next s
      else let s := count tables_valid s in if memeq table sig then Stop (s, table) else Next s) s with
    | Next s => (s, 0)
    | Stop r => r
    end.

(** The [switch] on the type of the MADT entry at [ptr]. *)
Definition madt_entry (ptr : Z) (s : acpi) : acpi :=
  let type := mem ptr in
  let length := mem (ptr + 1) in
  if type =? 0 then
    if (8 <=? length) && (zlen (cpus (info s)) <? 32) then
      count madt_lapic_entries (s <| info ::= fun i => i <| cpus ::= fun l => l ++
        [mkCpuInfo (mem (ptr + 2)) (mem (ptr + 3)) (negb (Z.land (field 4 (ptr + 4)) 1 =? 0))] |> |>)
    else s
  else if type =? 1 then
    if (12 <=? length) && (zlen (io_apics (info s)) <? 8) then
      count madt_ioapic_entries (s <| info ::= fun i => i <| io_apics ::= fun l => l ++
        [mkIoApic (mem (ptr + 2)) (field 4 (ptr + 4)) (field 4 (ptr + 8))] |> |>)
    else s
  else if type =? 2 then
    if (10 <=? length) && (zlen (overrides (info s)) <? 16) then
      count madt_override_entries (s <| info ::= fun i => i <| overrides ::= fun l => l ++
        [mkOverride (mem (ptr + 2)) (mem (ptr + 3)) (field 4 (ptr + 4)) (field 2 (ptr + 8))] |> |>)
    else s
  else if type =? 5 then
    if 12 <=? length then
      count madt_lapic_address_overrides (s <| info ::= fun i => i <| local_apic_base := w32 (field 8 (ptr + 4)) |> |>)
    else s
  else s.

(** [while (ptr + 2 <= end)]; [None] when the fuel runs out. *)
Fixpoint madt_loop (fuel : nat) (ptr end_ : Z) (s : acpi) : option acpi :=
  match fuel with
  | O => None
  | S fuel =>
    if end_ <? ptr + 2 then Some s
    else
      let length := mem (ptr + 1) in
      if (length <? 2) || (end_ <? ptr + length) then Some (count madt_malformed_entries s)
      else madt_loop fuel (ptr + length) end_ (madt_entry ptr (count madt_entries s))
  end.
Definition parse_madt (table : Z) (s : acpi) : option acpi :=
  let s := s <| info ::= fun i => i <| madt := table |> <| local_apic_base := field 4 (table + 36) |> |> in
  madt_loop (S (Z.to_nat (sdt_length table))) (table + 44) (table + sdt_length table) s.

(** The overlap of the buses of two entries of one segment. *)
Definition ecam_overlaps (a b : EcamInfo) : bool :=
  (ec_segment b =? ec_segment a) && negb ((end_bus a <? start_bus b) || (end_bus b <? start_bus a)).

Definition mcfg_entry (a : Z) : EcamInfo := mkEcam (field 8 a) (field 2 (a + 8)) (mem (a + 10)) (mem (a + 11)).
Definition parse_mcfg (table : Z) (s : acpi) : acpi :=
  let s := s <| info ::= fun i => i <| mcfg := table |> |> in
  if (table =? 0) || (sdt_length table <? 44) then s
  else
    let entries := (sdt_length table - 44) / 16 in
    let s := s <| diag ::= fun d => d <| mcfg_entries := entries |> |> in
    match loop_range 0 entries (fun i s =>
      if 8 <=? zlen (ecam_regions (info s)) then Stop s
      else
        let e := mcfg_entry (table + 44 + i * 16) in
        if (ec_base e =? 0) || (end_bus e <? start_bus e) then Next (count ecam_regions_rejected s)
        else if existsb (ecam_overlaps e) (ecam_regions (info s))
        then Next (count ecam_regions_rejected (count ecam_overlaps_rejected s))
        else Next (count ecam_regions_validated (s <| info ::= fun i => i <| ecam_regions ::= fun l => l ++ [e] |> |>))) s with
    | Next s | Stop s => s
    end.

(** The result with what was found; [None] when the walk of the MADT does not end. *)
Definition initialize (rsdp : Z) : option (acpi * bool) :=
  if rsdp =? 0 then Some (acpi_zero, false)
  else
    let signature := memeq rsdp (txt "RSD PTR ") in
    let base := checksum_ok rsdp 20 in
    let s := acpi_zero <| diag ::= fun d => d <| rsdp_present := true |> <| rsdp_signature_valid := signature |>
                                              <| rsdp_base_checksum_valid := base |> |> in
    if negb signature || negb base then Some (s, false)
    else
      let rev := mem (rsdp + 15) in
      let extended := (rev <? 2) || ((36 <=? field 4 (rsdp + 20)) && checksum_ok rsdp (field 4 (rsdp + 20))) in
      let xsdt := (2 <=? rev) && negb (field 8 (rsdp + 24) =? 0) && extended in
      let root := if xsdt then field 8 (rsdp + 24) else field 4 (rsdp + 16) in
      let s := s <| diag ::= fun d => d <| rsdp_extended_checksum_valid := extended |> <| xsdt_used := xsdt |>
                                        <| rsdt_used := negb xsdt |> |>
                 <| info ::= fun i => i <| revision := rev |> <| root_table := root |> |> in
      let '(s, ok) := sdt_valid root (Some (txt (if xsdt then "XSDT" else "RSDT"))) true s in
      if negb ok then Some (s, false)
      else
        let '(s, madt) := find_table root (txt "APIC") xsdt s in
        let '(s, mcfg) := find_table root (txt "MCFG") xsdt s in
        let s := if mcfg =? 0 then s else parse_mcfg mcfg s in
        s ← (if madt =? 0 then Some s else parse_madt madt s);
        Some (s <| info ::= fun i => i <| valid := true |> |>, true).
End Tables.

(** ** The MADT as a list of entries *)

(** The entries of a table, each with its type and length, and whether the rest of the table
    is not an entry. *)
Inductive splits : list Z -> list (list Z) -> bool -> Prop :=
| splits_end l : zlen l < 2 -> splits l [] false
| splits_bad t n l : n < 2 \/ zlen (t :: n :: l) < n -> splits (t :: n :: l) [] true
| splits_entry t n body rest es bad : zlen (t :: n :: body) = n -> splits rest es bad ->
    splits ((t :: n :: body) ++ rest) ((t :: n :: body) :: es) bad.

(** The number in [n] bytes of an entry, from byte [i] on. *)
Definition number (e : list Z) (i n : nat) : Z := foldr (fun b v => b + 256 * v) 0 (take n (drop i e)).

Definition cpu_of (e : list Z) : option CpuInfo :=
  if decide (e !!! 0%nat = 0 /\ 8 <= zlen e) then Some (mkCpuInfo (e !!! 2%nat) (e !!! 3%nat) (Z.odd (number e 4 4))) else None.
Definition io_apic_of (e : list Z) : option IoApicInfo :=
  if decide (e !!! 0%nat = 1 /\ 12 <= zlen e) then Some (mkIoApic (e !!! 2%nat) (number e 4 4) (number e 8 4)) else None.
Definition override_of (e : list Z) : option InterruptOverride :=
  if decide (e !!! 0%nat = 2 /\ 10 <= zlen e) then Some (mkOverride (e !!! 2%nat) (e !!! 3%nat) (number e 4 4) (number e 8 2)) else None.
Definition base_of (e : list Z) : option Z :=
  if decide (e !!! 0%nat = 5 /\ 12 <= zlen e) then Some (number e 4 8 mod 2 ^ 32) else None.

(** What the entries [es] add to the platform [i]: the arrays hold 32 processors, 8 interrupt
    controllers and 16 overrides, and the last base address counts. *)
Record adds (es : list (list Z)) (i i' : PlatformInfo) : Prop := {
  ad_cpus : cpus i' = take 32 (cpus i ++ omap cpu_of es);
  ad_io_apics : io_apics i' = take 8 (io_apics i ++ omap io_apic_of es);
  ad_overrides : overrides i' = take 16 (overrides i ++ omap override_of es);
  ad_base : local_apic_base i' = default (local_apic_base i) (last (omap base_of es));
  ad_madt : madt i' = madt i;
  ad_mcfg : mcfg i' = mcfg i;
  ad_ecam : ecam_regions i' = ecam_regions i
}.

(** ** The regions of the MCFG *)

Definition usable (e : EcamInfo) : Prop := ec_base e <> 0 /\ start_bus e <= end_bus e.
Definition shares_bus (a b : EcamInfo) : Prop :=
  ec_segment a = ec_segment b /\ exists bus, start_bus a <= bus <= end_bus a /\ start_bus b <= bus <= end_bus b.

(** [rs] are the regions taken from the entries [es] of the table. *)
Record chosen (es rs : list EcamInfo) : Prop := {
  ch_sublist : rs `sublist_of` es;
  ch_usable : Forall usable rs;
  ch_disjoint i j a b : rs !! i = Some a -> rs !! j = Some b -> i <> j -> ~ shares_bus a b;
  ch_count : (length rs <= 8)%nat;
  ch_maximal : length rs = 8%nat \/ forall e, e ∈ es -> usable e -> exists r, r ∈ rs /\ shares_bus e r
}.

Lemma shares_bus_sym a b : shares_bus a b -> shares_bus b a.
Proof. intros (E & bus & Ha & Hb). split; [done|]. by exists bus. Qed.
Lemma ecam_overlaps_spec a b : usable a -> usable b -> ecam_overlaps a b = true <-> shares_bus a b.
Proof.
  intros [_ Ha] [_ Hb]. unfold ecam_overlaps, shares_bus. rewrite andb_true_iff, negb_true_iff, orb_false_iff, !Z.ltb_ge, Z.eqb_eq. split.
  - intros (E & H1 & H2). split; [done|]. exists (Z.max (start_bus a) (start_bus b)). lia.
  - intros (E & bus & H1 & H2). split; [done|]. lia.
Qed.

Lemma chosen_nil : chosen [] [].
Proof. split; [done|done|by intros ? ? ? ? [=]|cbn; lia|]. right. by intros e ?%not_elem_of_nil. Qed.
Lemma chosen_skip es rs e : chosen es rs -> (usable e -> exists r, r ∈ rs /\ shares_bus e r) -> chosen (es ++ [e]) rs.
Proof.
  intros [S U D C M] Hskip. split; [by apply sublist_inserts_r|done|done|done|].
  destruct M as [M|M]; [by left|right]. intros e' [He| ->%list_elem_of_singleton]%elem_of_app Hu; eauto.
Qed.
Lemma chosen_full es rs es' : chosen es rs -> length rs = 8%nat -> chosen (es ++ es') rs.
Proof. intros [S U D C M] Hl. split; [by apply sublist_inserts_r|done|done|done|by left]. Qed.
Lemma chosen_take es rs e : chosen es rs -> usable e -> (length rs < 8)%nat -> (forall r, r ∈ rs -> ~ shares_bus e r) ->
  chosen (es ++ [e]) (rs ++ [e]).
Proof.
  intros [S U D C M] Hu Hl Hn.
  assert (Hlast : forall (i : nat) a, (rs ++ [e]) !! i = Some a -> i = length rs /\ a = e \/ rs !! i = Some a /\ (i < length rs)%nat).
  { intros i a [Hi|[Hi Ha]]%lookup_app_Some; [right; split; [done|by eapply lookup_lt_Some]|left].
    apply list_lookup_singleton_Some in Ha as [? ->]. split; [lia|done]. }
  split.
  - by apply sublist_app.
  - apply Forall_app. split; [done|by apply Forall_singleton].
  - intros i j a b [[-> ->]|[Hi Hil]]%Hlast [[-> ->]|[Hj Hjl]]%Hlast Hne; [done|..|by eapply D].
    + apply Hn. by eapply list_elem_of_lookup_2.
    + intros Hs%shares_bus_sym. apply (Hn a); [by eapply list_elem_of_lookup_2|done].
  - rewrite length_app. cbn. lia.
  - destruct M as [M|M]; [lia|right]. intros e' [He| ->%list_elem_of_singleton]%elem_of_app Hue.
    + destruct (M e' He Hue) as (r & Hr & Hs). exists r. split; [|done]. apply elem_of_app. by left.
    + exists e. split; [apply elem_of_app; right; by apply list_elem_of_singleton|]. split; [done|]. exists (start_bus e). destruct Hu. lia.
Qed.

Section Walk.
Context (mem : Z -> Z) (Hmem : forall a, 0 <= mem a < 256).

Lemma field_number n a m i : 0 <= a -> (i + n <= m)%nat ->
  field mem n (a + Z.of_nat i) = number (bytes_at mem a (Z.of_nat m)) i n.
Proof.
  intros Ha. revert i. induction n as [|n IH]; intros i Hi; [done|]. unfold number. cbn [field].
  replace (a + Z.of_nat i + 1) with (a + Z.of_nat (S i)) by lia. rewrite IH by lia. unfold number.
  rewrite (drop_S _ (mem (a + Z.of_nat i)) i); [done|]. rewrite bytes_at_lookup. by rewrite decide_True by lia.
Qed.

(** An entry in memory. *)
Lemma entry_byte ptr n i : (i < Z.to_nat n)%nat -> bytes_at mem ptr n !!! i = mem (ptr + Z.of_nat i).
Proof. intros Hi. apply list_lookup_total_correct. rewrite bytes_at_lookup. by rewrite decide_True. Qed.

Lemma take_more {A} n (l : list A) x y : take n (take n (l ++ x) ++ y) = take n (l ++ x ++ y).
Proof.
  rewrite (app_assoc l x y). destruct (decide (length (l ++ x) <= n)%nat).
  - by rewrite (take_ge (l ++ x)).
  - rewrite (take_app_le (take n (l ++ x))), (take_app_le (l ++ x)) by (rewrite ?length_take; lia).
    by rewrite take_take, Nat.min_id.
Qed.
Lemma adds_app es es' i i' i'' : adds es i i' -> adds es' i' i'' -> adds (es ++ es') i i''.
Proof.
  intros [] []. split; rewrite ?omap_app; try congruence.
  - rewrite ad_cpus1, ad_cpus0. apply take_more.
  - rewrite ad_io_apics1, ad_io_apics0. apply take_more.
  - rewrite ad_overrides1, ad_overrides0. apply take_more.
  - rewrite last_app, ad_base1, ad_base0. by destruct (last (omap base_of es')).
Qed.

Lemma odd_low_bit b r : negb (Z.land (b + 256 * r) 1 =? 0) = Z.odd (b + 256 * r).
Proof.
  change 1 with (Z.ones 1). rewrite Z.land_ones by lia. change (2 ^ 1) with 2. rewrite Zmod_odd.
  by destruct (Z.odd _).
Qed.

Lemma take_none {A} k (l : list A) : zlen l <= Z.of_nat k -> take k (l ++ []) = l.
Proof. intros Hl. rewrite app_nil_r. apply take_ge. unfold zlen in Hl. lia. Qed.
Lemma take_room {A} k (l : list A) x : zlen l < Z.of_nat k -> take k (l ++ [x]) = l ++ [x].
Proof. intros Hl. apply take_ge. rewrite length_app. unfold zlen in Hl. cbn. lia. Qed.
Lemma take_full {A} k (l : list A) x : zlen l = Z.of_nat k -> take k (l ++ [x]) = l.
Proof. intros Hl. rewrite take_app_le by (unfold zlen in Hl; lia). apply take_ge. unfold zlen in Hl. lia. Qed.

Definition room (i : PlatformInfo) : Prop := zlen (cpus i) <= 32 /\ zlen (io_apics i) <= 8 /\ zlen (overrides i) <= 16.

Lemma adds_room es i i' : adds es i i' -> room i'.
Proof. intros []. unfold room, zlen. rewrite ad_cpus0, ad_io_apics0, ad_overrides0, !length_take. lia. Qed.

(** An entry that is not of a kind adds nothing of it. *)
Lemma adds_same e i i' : room i -> cpu_of e = None -> io_apic_of e = None -> override_of e = None -> base_of e = None ->
  i' = i -> adds [e] i i'.
Proof.
  intros (R1 & R2 & R3) E1 E2 E3 E4 ->. split; cbn; rewrite ?E1, ?E2, ?E3, ?E4; cbn; try done; symmetry; by apply take_none.
Qed.

Section Entry.
Context (ptr : Z) (Hptr : 0 <= ptr) (Hlen : 2 <= mem (ptr + 1)).
Let e := bytes_at mem ptr (mem (ptr + 1)).

Lemma entry_length : zlen e = mem (ptr + 1).
Proof. apply bytes_at_zlen. lia. Qed.
Lemma entry_type : e !!! 0%nat = mem ptr.
Proof. unfold e. rewrite entry_byte by lia. f_equal. lia. Qed.
Lemma entry_field n i : Z.of_nat (i + n) <= mem (ptr + 1) -> number e i n = field mem n (ptr + Z.of_nat i).
Proof.
  intros Hi. unfold e. rewrite (field_number n ptr (Z.to_nat (mem (ptr + 1)))) by lia.
  by rewrite Z2Nat.id by lia.
Qed.

Lemma of_kind {A} k m (x : A) : mem ptr = k -> m <= mem (ptr + 1) ->
  (if decide (e !!! 0%nat = k /\ m <= zlen e) then Some x else None) = Some x.
Proof. intros. by rewrite decide_True by (by rewrite entry_type, entry_length). Qed.
Lemma not_of_kind {A} k m (x : A) : mem ptr <> k \/ mem (ptr + 1) < m ->
  (if decide (e !!! 0%nat = k /\ m <= zlen e) then Some x else None) = None.
Proof. intros. rewrite decide_False; [done|]. rewrite entry_type, entry_length. lia. Qed.

Ltac kinds := unfold cpu_of, io_apic_of, override_of, base_of; cbn [omap list_omap];
  repeat first [rewrite of_kind by lia|rewrite not_of_kind by lia]; cbn [last default]; rewrite ?take_none by done.

Lemma entry_id (i : nat) : Z.of_nat i < mem (ptr + 1) -> e !!! i = mem (ptr + Z.of_nat i).
Proof. intros Hi. apply entry_byte. lia. Qed.

Lemma madt_entry_adds s : room (info s) -> adds [e] (info s) (info (madt_entry mem ptr s)) /\
  madt_entries (diag (madt_entry mem ptr s)) = madt_entries (diag s) /\
  madt_malformed_entries (diag (madt_entry mem ptr s)) = madt_malformed_entries (diag s).
Proof.
  intros (R1 & R2 & R3). unfold madt_entry.
  destruct (Z.eqb_spec (mem ptr) 0) as [T|T0]; [|destruct (Z.eqb_spec (mem ptr) 1) as [T|T1];
    [|destruct (Z.eqb_spec (mem ptr) 2) as [T|T2]; [|destruct (Z.eqb_spec (mem ptr) 5) as [T|T5]]]].
  - destruct (Z.leb_spec 8 (mem (ptr + 1))), (Z.ltb_spec (zlen (cpus (info s))) 32); cbn [andb]; (split; [|done]);
      split; kinds; try done.
    + rewrite take_room by lia. rewrite !entry_id, entry_field by lia. cbn [field]. by rewrite odd_low_bit.
    + by rewrite take_full by lia.
  - destruct (Z.leb_spec 12 (mem (ptr + 1))), (Z.ltb_spec (zlen (io_apics (info s))) 8); cbn [andb]; (split; [|done]);
      split; kinds; try done.
    + rewrite take_room by lia. by rewrite !entry_id, !entry_field by lia.
    + by rewrite take_full by lia.
  - destruct (Z.leb_spec 10 (mem (ptr + 1))), (Z.ltb_spec (zlen (overrides (info s))) 16); cbn [andb]; (split; [|done]);
      split; kinds; try done.
    + rewrite take_room by lia. by rewrite !entry_id, !entry_field by lia.
    + by rewrite take_full by lia.
  - destruct (Z.leb_spec 12 (mem (ptr + 1))); (split; [|done]); split; kinds; try done. by rewrite entry_field by lia.
  - split; [|done]. split; by kinds.
Qed.
End Entry.

Lemma adds_nothing i : room i -> adds [] i i.
Proof. intros (R1 & R2 & R3). split; cbn; try done; symmetry; by apply take_none. Qed.

Lemma bytes_at_two ptr n : 2 <= n -> bytes_at mem ptr n = mem ptr :: mem (ptr + 1) :: bytes_at mem (ptr + 2) (n - 2).
Proof.
  intros Hn. rewrite (bytes_at_split mem ptr 2 n) by lia.
  change (bytes_at mem ptr 2) with [mem (ptr + 0); mem (ptr + 1)]. by rewrite Z.add_0_r.
Qed.

(** The walk ends and visits the entries of the table in their order. *)
Lemma madt_loop_walks fuel ptr end_ s : 0 <= ptr -> Z.max 0 (end_ - ptr) < Z.of_nat fuel -> room (info s) ->
  u32 (madt_entries (diag s)) ->
  exists es bad s', madt_loop mem fuel ptr end_ s = Some s' /\ splits (bytes_at mem ptr (end_ - ptr)) es bad /\
    adds es (info s) (info s') /\ madt_entries (diag s') = w32 (madt_entries (diag s) + zlen es) /\
    madt_malformed_entries (diag s') = if bad then inc32 (madt_malformed_entries (diag s)) else madt_malformed_entries (diag s).
Proof.
  revert ptr s. induction fuel as [|fuel IH]; intros ptr s Hp Hf Hr Hu; [lia|]. cbn [madt_loop].
  assert (Hnil : madt_entries (diag s) = w32 (madt_entries (diag s) + 0)) by (rewrite Z.add_0_r; unfold w32; by rewrite Z.mod_small).
  destruct (Z.ltb_spec end_ (ptr + 2)).
  { exists [], false, s. split_and!; [done| |by apply adds_nothing|done|done]. apply splits_end.
    unfold zlen. rewrite bytes_at_length. lia. }
  rewrite (bytes_at_two ptr (end_ - ptr)) by lia.
  destruct (Z.ltb_spec (mem (ptr + 1)) 2) as [Hs|Hs]; [|destruct (Z.ltb_spec end_ (ptr + mem (ptr + 1)))]; cbn [orb].
  - eexists [], true, _. split_and!; [done|apply splits_bad; by left|by apply adds_nothing|done|done].
  - eexists [], true, _. split_and!; [done|apply splits_bad; right|by apply adds_nothing|done|done].
    unfold zlen. cbn [length]. rewrite bytes_at_length. lia.
  - match goal with |- context [madt_entry mem ptr ?s1] => set (s1' := s1); destruct (madt_entry_adds ptr Hp Hs s1' Hr) as (Ha & He & Hm) end.
    destruct (IH (ptr + mem (ptr + 1)) (madt_entry mem ptr s1')) as (es & bad & s' & El & Hsp & Had & Hn & Hb);
      [lia|lia|exact (adds_room _ _ _ Ha)|rewrite He; cbn; word_lia|].
    exists (bytes_at mem ptr (mem (ptr + 1)) :: es), bad, s'. split_and!; [done| |by apply (adds_app [_] es _ _ _ Ha)| |by rewrite Hb, Hm].
    + rewrite <-bytes_at_two by lia. rewrite (bytes_at_split mem ptr (mem (ptr + 1))) by lia.
      replace (end_ - ptr - mem (ptr + 1)) with (end_ - (ptr + mem (ptr + 1))) by lia.
      rewrite (bytes_at_two ptr (mem (ptr + 1))) by lia. apply splits_entry; [|done].
      unfold zlen. cbn [length]. rewrite bytes_at_length. lia.
    + rewrite Hn, He. cbn. unfold inc32, w32, zlen. cbn [length]. rewrite Zplus_mod_idemp_l. f_equal. lia.
Qed.

Lemma parse_madt_walks table s : 0 <= table -> 0 <= sdt_length mem table -> room (info s) -> u32 (madt_entries (diag s)) ->
  exists es bad s', parse_madt mem table s = Some s' /\
    splits (bytes_at mem (table + 44) (sdt_length mem table - 44)) es bad /\
    adds es (info s <| madt := table |> <| local_apic_base := field mem 4 (table + 36) |>) (info s') /\
    madt_entries (diag s') = w32 (madt_entries (diag s) + zlen es) /\
    madt_malformed_entries (diag s') = if bad then inc32 (madt_malformed_entries (diag s)) else madt_malformed_entries (diag s).
Proof.
  intros Ht Hl Hr Hu. unfold parse_madt.
  replace (sdt_length mem table - 44) with (table + sdt_length mem table - (table + 44)) by lia.
  set (s1 := s <| info ::= _ |>).
  exact (madt_loop_walks (S (Z.to_nat (sdt_length mem table))) (table + 44) (table + sdt_length mem table) s1
           ltac:(lia) ltac:(lia) Hr Hu).
Qed.

(** ** Tables *)

(** A table whose signature and checksum are in order. *)
Definition intact (t : Z) (sig : list Z) : Prop :=
  bytes_at mem t 4 = sig /\ 36 <= number (bytes_at mem t 8) 4 4 /\
  foldr Z.add 0 (bytes_at mem t (number (bytes_at mem t 8) 4 4)) mod 256 = 0.

Lemma field_nonneg n a : 0 <= field mem n a.
Proof. revert a. induction n as [|n IH]; intros a; cbn [field]; [lia|]. specialize (IH (a + 1)). pose proof (Hmem a). lia. Qed.
Lemma sdt_length_number t : 0 <= t -> sdt_length mem t = number (bytes_at mem t 8) 4 4.
Proof. intros Ht. exact (field_number 4 t 8 4 Ht ltac:(lia)). Qed.

Lemma sum_bytes_mod a n : sum_bytes mem a n = foldr Z.add 0 (bytes_at mem a n) mod 256.
Proof.
  unfold sum_bytes. generalize (bytes_at mem a n). intros l.
  enough (forall v, foldl (fun sum b => w8 (sum + b)) (w8 v) l = (v + foldr Z.add 0 l) mod 256) as E by (apply (E 0)).
  induction l as [|b l IH]; intros v; cbn; [by rewrite Z.add_0_r|].
  replace (w8 (w8 v + b)) with (w8 (v + b)) by (unfold w8; by rewrite Zplus_mod_idemp_l). rewrite IH. f_equal. lia.
Qed.

(** What the search for tables leaves alone. *)
Record kept (s s' : acpi) : Prop := {
  kp_info : info s' = info s;
  kp_entries : madt_entries (diag s') = madt_entries (diag s);
  kp_malformed : madt_malformed_entries (diag s') = madt_malformed_entries (diag s)
}.
#[local] Instance kept_refl : Reflexive kept.
Proof. by split. Qed.
#[local] Instance kept_trans : Transitive kept.
Proof. intros a b c [] []. split; congruence. Qed.

Lemma sdt_valid_spec t sig counted s : 0 <= t -> kept s (sdt_valid mem t sig counted s).1 /\
  ((sdt_valid mem t sig counted s).2 = true -> t <> 0 /\
     match sig with Some sig => memeq mem t sig = true | None => True end /\ 36 <= sdt_length mem t /\
     checksum_ok mem t (sdt_length mem t) = true).
Proof.
  intros Ht. unfold sdt_valid. destruct (Z.eqb_spec t 0); [by destruct counted|]. cbn [orb].
  destruct (Z.ltb_spec (sdt_length mem t) 36); [by destruct counted|].
  destruct sig as [sig|]; [destruct (memeq mem t sig) eqn:Em; [|done]|]; cbn [negb];
    (destruct (checksum_ok mem t (sdt_length mem t)) eqn:Ec; cbn [negb]; [|by destruct counted]); done.
Qed.

Lemma intact_checked t sig : 0 <= t -> zlen sig = 4 -> memeq mem t sig = true -> 36 <= sdt_length mem t ->
  checksum_ok mem t (sdt_length mem t) = true -> intact t sig.
Proof.
  intros Ht Hs Hm Hl Hc. unfold memeq in Hm. rewrite Hs in Hm. apply bool_decide_eq_true in Hm.
  unfold checksum_ok in Hc. rewrite sum_bytes_mod in Hc. apply Z.eqb_eq in Hc.
  rewrite (sdt_length_number t Ht) in Hl, Hc. done.
Qed.

Lemma find_table_spec root sig xsdt s : zlen sig = 4 ->
  let r := find_table mem root sig xsdt s in kept s r.1 /\ 0 <= r.2 /\ (r.2 <> 0 -> intact r.2 sig).
Proof.
  intros Hsig. unfold find_table. case_match; [done|]. set (s0 := s <| diag ::= _ |>). assert (K0 : kept s s0) by done. clearbody s0.
  match goal with |- context [loop_range 0 ?n ?b s0] =>
    assert (flow_spec (fun s' => kept s s') (fun r => kept s r.1 /\ 0 <= r.2 /\ (r.2 <> 0 -> intact r.2 sig)) (loop_range 0 n b s0)) as Hl end.
  { apply (loop_range_inv (fun _ s' => kept s s')); [done|]. intros i s1 Hi K1.
    set (table := field mem (if xsdt then 8 else 4) (root + 36 + i * (if xsdt then 8 else 4))).
    assert (Ht : 0 <= table) by apply field_nonneg. clearbody table. set (s2 := s1 <| diag ::= _ |>).
    destruct (sdt_valid_spec table None true s2 Ht) as [Kv Hv]. destruct (sdt_valid mem table None true s2) as [s3 ok]. cbn [fst snd] in *.
    assert (K3 : kept s s3) by (etrans; [exact K1|]; etrans; [|exact Kv]; done).
    destruct ok; cbn [negb]; [|done]. destruct (memeq mem table sig) eqn:Em; cbn; [|by destruct K3].
    destruct (Hv eq_refl) as (_ & _ & Hl & Hc). split; [by destruct K3|]. split; [done|]. intros _. by apply intact_checked. }
  destruct (loop_range _ _ _ s0) as [s'|r]; cbn in Hl |- *; [|done]. split_and!; [done|lia|done].
Qed.

(** ** The MCFG *)

(** An entry of 16 bytes, and the entries of the table at [t]. *)
Definition ecam_of (e : list Z) : EcamInfo := mkEcam (number e 0 8) (number e 8 2) (e !!! 10%nat) (e !!! 11%nat).
Definition mcfg_table (t : Z) : list EcamInfo :=
  (fun k => ecam_of (bytes_at mem (t + 44 + 16 * Z.of_nat k) 16)) <$>
    seq 0 (Z.to_nat ((number (bytes_at mem t 8) 4 4 - 44) / 16)).

Lemma mcfg_entry_of a : 0 <= a -> mcfg_entry mem a = ecam_of (bytes_at mem a 16).
Proof.
  intros Ha. unfold mcfg_entry, ecam_of. f_equal; [|exact (field_number 2 a 16 8 Ha ltac:(lia))|by rewrite entry_byte by lia..].
  rewrite <-(Z.add_0_r a) at 1. exact (field_number 8 a 16 0 Ha ltac:(lia)).
Qed.

Lemma mcfg_table_take t i : (i < Z.to_nat ((number (bytes_at mem t 8) 4 4 - 44) / 16))%nat ->
  take (S i) (mcfg_table t) = take i (mcfg_table t) ++ [ecam_of (bytes_at mem (t + 44 + 16 * Z.of_nat i) 16)].
Proof.
  intros Hi. apply take_S_r. unfold mcfg_table. rewrite list_lookup_fmap, lookup_seq_lt by done. done.
Qed.

(** What the regions leave alone. *)
Record same_madt (s s' : acpi) : Prop := {
  sm_cpus : cpus (info s') = cpus (info s);
  sm_io_apics : io_apics (info s') = io_apics (info s);
  sm_overrides : overrides (info s') = overrides (info s);
  sm_madt : madt (info s') = madt (info s);
  sm_entries : madt_entries (diag s') = madt_entries (diag s);
  sm_malformed : madt_malformed_entries (diag s') = madt_malformed_entries (diag s)
}.

Lemma parse_mcfg_step t i s0 s : 0 <= t -> 0 <= i < (number (bytes_at mem t 8) 4 4 - 44) / 16 ->
  same_madt s0 s -> mcfg (info s) = t -> chosen (take (Z.to_nat i) (mcfg_table t)) (ecam_regions (info s)) ->
  zlen (ecam_regions (info s)) < 8 ->
  let e := mcfg_entry mem (t + 44 + i * 16) in
  forall s', s' = (if (ec_base e =? 0) || (end_bus e <? start_bus e) then count ecam_regions_rejected s
        else if existsb (ecam_overlaps e) (ecam_regions (info s))
        then count ecam_regions_rejected (count ecam_overlaps_rejected s)
        else count ecam_regions_validated (s <| info ::= fun i => i <| ecam_regions ::= fun l => l ++ [e] |> |>)) ->
  same_madt s0 s' /\ mcfg (info s') = t /\ chosen (take (Z.to_nat (i + 1)) (mcfg_table t)) (ecam_regions (info s')).
Proof.
  intros Ht Hi [] Hm Hc Hl e s' ->. replace (Z.to_nat (i + 1)) with (S (Z.to_nat i)) by lia.
  rewrite mcfg_table_take by lia. replace (t + 44 + 16 * Z.of_nat (Z.to_nat i)) with (t + 44 + i * 16) by lia.
  rewrite <-mcfg_entry_of by lia. fold e. clearbody e.
  destruct ((ec_base e =? 0) || (end_bus e <? start_bus e)) eqn:Eu.
  { split; [done|]. split; [done|]. apply chosen_skip; [done|]. intros [? ?]. lia. }
  assert (Hu : usable e) by (split; lia). pose proof (proj1 (Forall_forall _ _) (ch_usable _ _ Hc)) as Hall.
  destruct (existsb (ecam_overlaps e) (ecam_regions (info s))) eqn:Eo.
  - split; [done|]. split; [done|]. apply chosen_skip; [done|]. intros _.
    apply existsb_exists in Eo as (r & Hr%list_elem_of_In & Ho). exists r. split; [done|]. by apply ecam_overlaps_spec; [|apply Hall|].
  - split; [done|]. split; [done|]. apply chosen_take; [done|done|unfold zlen in Hl; lia|].
    intros r Hr Hs. apply ecam_overlaps_spec in Hs; [|done|by apply Hall].
    assert (existsb (ecam_overlaps e) (ecam_regions (info s)) = true); [|congruence]. apply existsb_exists. exists r.
    split; [by apply list_elem_of_In|done].
Qed.

Lemma parse_mcfg_spec t s : 0 < t -> ecam_regions (info s) = [] ->
  same_madt s (parse_mcfg mem t s) /\ mcfg (info (parse_mcfg mem t s)) = t /\
  chosen (mcfg_table t) (ecam_regions (info (parse_mcfg mem t s))).
Proof.
  intros Ht He. unfold parse_mcfg. set (s1 := s <| info ::= _ |>). pose proof (sdt_length_number t ltac:(lia)) as Hlen.
  destruct (Z.eqb_spec t 0); [lia|]. cbn [orb]. destruct (Z.ltb_spec (sdt_length mem t) 44).
  { split; [done|]. split; [done|]. cbn. rewrite He. unfold mcfg_table.
    replace (Z.to_nat _) with O by (rewrite <-Hlen; Z.to_euclidean_division_equations; lia). apply chosen_nil. }
  set (s2 := s1 <| diag ::= _ |>). rewrite Hlen in *.
  set (P := fun i s' => same_madt s s' /\ mcfg (info s') = t /\ chosen (take (Z.to_nat i) (mcfg_table t)) (ecam_regions (info s'))).
  set (last := (number (bytes_at mem t 8) 4 4 - 44) / 16).
  assert (Hall : take (Z.to_nat last) (mcfg_table t) = mcfg_table t).
  { apply take_ge. unfold mcfg_table. by rewrite length_fmap, length_seq. }
  match goal with |- context [loop_range 0 last ?b s2] =>
    assert (flow_spec (P last) (fun s' => same_madt s s' /\ mcfg (info s') = t /\ chosen (mcfg_table t) (ecam_regions (info s')))
              (loop_range 0 last b s2)) as Hl end.
  2:{ unfold P in Hl. rewrite Hall in Hl. by destruct (loop_range _ _ _ s2). }
  apply (loop_range_le P);
    [apply Z.div_pos; lia|split; [done|]; split; [done|]; cbn; rewrite He; apply chosen_nil|].
  intros i s' Hi (Hs & Hm & Hc). unfold P. destruct (Z.leb_spec 8 (zlen (ecam_regions (info s')))) as [Hf|Hf].
  - cbn. split; [done|]. split; [done|]. rewrite <-(take_drop (Z.to_nat i) (mcfg_table t)). apply chosen_full; [done|].
    pose proof (ch_count _ _ Hc). unfold zlen in Hf. lia.
  - pose proof (parse_mcfg_step t i s s' ltac:(lia) Hi Hs Hm Hc Hf) as Hstep. cbn zeta in Hstep |- *.
    repeat case_match; cbn [flow_spec]; by apply Hstep.
Qed.

(** ** The whole *)

(** What the platform says about the MADT and the MCFG it names. *)
Definition describes_madt (s : acpi) : Prop :=
  let t := madt (info s) in
  t <> 0 -> intact t (txt "APIC") /\
  exists es bad, splits (bytes_at mem (t + 44) (number (bytes_at mem t 8) 4 4 - 44)) es bad /\
    cpus (info s) = take 32 (omap cpu_of es) /\ io_apics (info s) = take 8 (omap io_apic_of es) /\
    overrides (info s) = take 16 (omap override_of es) /\
    local_apic_base (info s) = default (number (bytes_at mem t 44) 36 4) (last (omap base_of es)) /\
    madt_entries (diag s) = zlen es mod 2 ^ 32 /\ madt_malformed_entries (diag s) = if bad then 1 else 0.
Definition describes_mcfg (s : acpi) : Prop :=
  let t := mcfg (info s) in
  if decide (t = 0) then ecam_regions (info s) = [] else intact t (txt "MCFG") /\ chosen (mcfg_table t) (ecam_regions (info s)).

(** The platform before any table is read. *)
Record blank (s : acpi) : Prop := {
  bl_cpus : cpus (info s) = []; bl_io_apics : io_apics (info s) = []; bl_overrides : overrides (info s) = [];
  bl_madt : madt (info s) = 0; bl_entries : madt_entries (diag s) = 0; bl_malformed : madt_malformed_entries (diag s) = 0
}.

Lemma madt_described t s : 0 <= t -> (t <> 0 -> intact t (txt "APIC")) -> blank s ->
  exists s', (if t =? 0 then Some s else parse_madt mem t s) = Some s' /\ describes_madt s' /\
    mcfg (info s') = mcfg (info s) /\ ecam_regions (info s') = ecam_regions (info s).
Proof.
  intros Ht Hin []. destruct (Z.eqb_spec t 0) as [->|Hne]; [exists s; by split_and!|].
  destruct (parse_madt_walks t s Ht) as (es & bad & s' & E & Hsp & [] & Hn & Hb); [by apply field_nonneg| | |].
  - unfold room. by rewrite bl_cpus0, bl_io_apics0, bl_overrides0.
  - rewrite bl_entries0. word_lia.
  - exists s'. split_and!; [done| |done|done]. rewrite (sdt_length_number t Ht) in Hsp.
    pose proof (field_number 4 t 44 36 Ht ltac:(lia)) as Hf. change (t + Z.of_nat 36) with (t + 36) in Hf. change (Z.of_nat 44) with 44 in Hf. rewrite Hf in *.
    remember (number (bytes_at mem t 44) 36 4) as base eqn:Hbase. clear Hf. change (madt (info s') = t) in ad_madt0.
    unfold describes_madt. rewrite ad_madt0. intros _. split; [by apply Hin|]. exists es, bad. rewrite <-Hbase.
    cbn in ad_cpus0, ad_io_apics0, ad_overrides0, ad_base0. rewrite bl_cpus0 in ad_cpus0. rewrite bl_io_apics0 in ad_io_apics0. rewrite bl_overrides0 in ad_overrides0.
    split_and!; [done..| |].
    + by rewrite Hn, bl_entries0.
    + rewrite Hb, bl_malformed0. by destruct bad.
Qed.

Lemma acpi_initialize_spec rsdp : exists s ok, initialize mem rsdp = Some (s, ok) /\
  (ok = true -> describes_madt s /\ describes_mcfg s).
Proof.
  unfold initialize. destruct (rsdp =? 0); [by eexists _, false|]. case_match; [by eexists _, false|]. cbn zeta.
  set (xsdt := (2 <=? _) && _ && _). set (root := if xsdt then _ else _). set (s0 := acpi_zero <| diag ::= _ |> <| diag ::= _ |> <| info ::= _ |>).
  assert (B0 : blank s0 /\ mcfg (info s0) = 0 /\ ecam_regions (info s0) = []) by done.
  assert (Hroot : 0 <= root) by (unfold root; case_match; apply field_nonneg). clearbody s0 root.
  destruct (sdt_valid_spec root (Some (txt (if xsdt then "XSDT" else "RSDT"))) true s0 Hroot) as [[K1 K2 K3] _].
  destruct (sdt_valid mem root _ true s0) as [s1 ok]. cbn [fst] in *. destruct ok; cbn [negb]; [|by eexists _, false].
  destruct (find_table_spec root (txt "APIC") xsdt s1 eq_refl) as ([K4 K5 K6] & Ha0 & Ha).
  destruct (find_table mem root (txt "APIC") xsdt s1) as [s2 ma].
  destruct (find_table_spec root (txt "MCFG") xsdt s2 eq_refl) as ([K7 K8 K9] & Hm0 & Hm).
  destruct (find_table mem root (txt "MCFG") xsdt s2) as [s3 mc]. cbn [fst snd] in *.
  destruct B0 as ([] & Bm & Be).
  assert (B3 : blank s3 /\ mcfg (info s3) = 0 /\ ecam_regions (info s3) = [])
    by (split; [split|split]; rewrite ?K9, ?K8, ?K7, ?K6, ?K5, ?K4, ?K3, ?K2, ?K1; done).
  set (s4 := if mc =? 0 then s3 else parse_mcfg mem mc s3).
  assert (B4 : blank s4 /\ describes_mcfg s4).
  { destruct B3 as ([] & Bm3 & Be3). unfold s4. destruct (Z.eqb_spec mc 0) as [->|Hne].
    - split; [done|]. unfold describes_mcfg. by rewrite decide_True.
    - destruct (parse_mcfg_spec mc s3 ltac:(lia) Be3) as ([] & Hmc & Hch). split; [split; congruence|].
      unfold describes_mcfg. rewrite Hmc, decide_False by done. split; [by apply Hm|done]. }
  clearbody s4. destruct B4 as [B4 D4]. destruct (madt_described ma s4 Ha0 Ha B4) as (s5 & E & D5 & M5 & R5). rewrite E. cbn.
  eexists _, true. split; [reflexivity|]. intros _. split; [exact D5|]. unfold describes_mcfg in *. cbn. by rewrite M5, R5.
Qed.

(** C26. The kernel finds the processors and interrupt controllers that the firmware lists.
    Whatever is in memory, reading the tables ends; when it succeeds and names a MADT, that
    table has the right signature and checksum, and the platform holds the first 32
    processors, 8 controllers and 16 overrides of its entries in their order and the last
    base address given, with the number of entries and whether the table is cut short. *)
Theorem acpi_lists_the_madt rsdp :
  exists s ok, initialize mem rsdp = Some (s, ok) /\ (ok = true -> describes_madt s).
Proof. destruct (acpi_initialize_spec rsdp) as (s & ok & E & H). exists s, ok. split; [done|]. intros Hok. by apply H. Qed.

(** C27. The configuration regions of PCI never conflict.  The regions that the kernel takes
    from a valid MCFG are entries of the table with a base address and an ordered range of
    buses, no two of one segment share a bus, and at most 8 are taken; an entry is left out
    only if it is unusable, shares a bus with a region that was taken, or all 8 are taken. *)
Theorem ecam_regions_do_not_conflict rsdp s :
  initialize mem rsdp = Some (s, true) -> describes_mcfg s.
Proof. intros E. destruct (acpi_initialize_spec rsdp) as (s' & ok & E' & H). rewrite E in E'. injection E' as <- <-. by apply H. Qed.
End Walk.

(** ** An example *)

(** A root pointer at 0x1000, and tables at 0x2000, 0x3000 and 0x4000: two processors, a
    controller and a cut entry; and two configuration regions, of which the second overlaps
    the first. *)
Definition sealed (i : nat) (bytes : list Z) : list Z := <[i := (- foldr Z.add 0 bytes) mod 256]> bytes.
Definition sdt (sig : string) (body : list Z) : list Z :=
  sealed 9 (txt sig ++ le_bytes 4 (36 + zlen body) ++ replicate 28 0 ++ body).

Definition demo_rsdp : list Z := sealed 8 (txt "RSD PTR " ++ replicate 8 0 ++ le_bytes 4 0x2000).
Definition demo_rsdt : list Z := sdt "RSDT" (le_bytes 4 0x3000 ++ le_bytes 4 0x4000).
Definition demo_madt : list Z := sdt "APIC" (le_bytes 4 0xfee00000 ++ le_bytes 4 0 ++
  [0; 8; 0; 0; 1; 0; 0; 0] ++ [0; 8; 1; 4; 1; 0; 0; 0] ++ [1; 12; 9; 0] ++ le_bytes 4 0xfec00000 ++ le_bytes 4 0 ++ [0; 8; 2]).
Definition demo_mcfg : list Z := sdt "MCFG" (replicate 8 0 ++
  le_bytes 8 0xb0000000 ++ [0; 0; 0; 63; 0; 0; 0; 0] ++ le_bytes 8 0xc0000000 ++ [0; 0; 32; 96; 0; 0; 0; 0]).

Definition demo_firmware (a : Z) : Z :=
  let at_ base bytes := default 0 ((if base <=? a then Some tt else None) ≫= fun _ => bytes !! Z.to_nat (a - base)) in
  at_ 0x1000 demo_rsdp + at_ 0x2000 demo_rsdt + at_ 0x3000 demo_madt + at_ 0x4000 demo_mcfg.

Lemma demo_firmware_bytes a : 0 <= demo_firmware a < 256.
Proof.
  assert (Hat : forall base bytes, forallb (fun b => (0 <=? b) && (b <? 256)) bytes = true -> zlen bytes <= 0x1000 ->
    let v := default 0 ((if base <=? a then Some tt else None) ≫= fun _ => bytes !! Z.to_nat (a - base)) in
    0 <= v < 256 /\ (v <> 0 -> base <= a < base + 0x1000)).
  { intros base bytes Hb Hl. destruct (Z.leb_spec base a); cbn; [|lia].
    destruct (bytes !! Z.to_nat (a - base)) as [b|] eqn:E; cbn; [|lia]. pose proof (lookup_lt_Some _ _ _ E) as Hlt.
    unfold zlen in Hl. apply list_elem_of_lookup_2, list_elem_of_In in E. rewrite forallb_forall in Hb. specialize (Hb b E). lia. }
  pose proof (Hat 0x1000 demo_rsdp ltac:(vm_compute; reflexivity) ltac:(vm_compute; discriminate)).
  pose proof (Hat 0x2000 demo_rsdt ltac:(vm_compute; reflexivity) ltac:(vm_compute; discriminate)).
  pose proof (Hat 0x3000 demo_madt ltac:(vm_compute; reflexivity) ltac:(vm_compute; discriminate)).
  pose proof (Hat 0x4000 demo_mcfg ltac:(vm_compute; reflexivity) ltac:(vm_compute; discriminate)).
  unfold demo_firmware. cbn zeta in *. repeat match goal with |- context [default 0 ?v] => generalize dependent (default 0 v) end.
  intros. lia.
Qed.

Definition demo_platform : acpi := match initialize demo_firmware 0x1000 with Some (s, _) => s | None => acpi_zero end.
Lemma demo_platform_found : initialize demo_firmware 0x1000 = Some (demo_platform, true).
Proof. vm_compute. reflexivity. Qed.

Lemma some_pair {A B} (a a' : A) (b b' : B) : Some (a, b) = Some (a', b') -> a' = a /\ b' = b.
Proof. by intros [= -> ->]. Qed.

Lemma acpi_lists_the_madt_witness :
  cpus (info demo_platform) = [mkCpuInfo 0 0 true; mkCpuInfo 1 4 true] /\ madt_malformed_entries (diag demo_platform) = 1 /\
  madt (info demo_platform) <> 0 /\ describes_madt demo_firmware demo_platform.
Proof.
  split; [vm_compute; reflexivity|]. split; [vm_compute; reflexivity|]. split; [vm_compute; discriminate|].
  destruct (acpi_lists_the_madt demo_firmware demo_firmware_bytes 0x1000) as (s & ok & E & H).
  rewrite demo_platform_found in E. destruct (some_pair _ _ _ _ E) as [-> ->]. exact (H eq_refl).
Defined.

Lemma ecam_regions_do_not_conflict_witness :
  ecam_regions (info demo_platform) = [mkEcam 0xb0000000 0 0 63] /\ describes_mcfg demo_firmware demo_platform.
Proof.
  split; [vm_compute; reflexivity|].
  exact (ecam_regions_do_not_conflict demo_firmware demo_firmware_bytes 0x1000 demo_platform demo_platform_found).
Defined.
