(* ===== verification/SpawnArgs.v ===== *)
(** * The command line of [Spawn] (kernel/src/syscall/syscall.cpp)

    [parse_spawn_arguments] splits the command line into arguments in place: the
    arguments are left in the buffer that is still being read, with quotes and
    backslashes removed.  A read or a store outside the buffer is [None], and so is a
    loop that runs out of fuel; the theorem shows that neither happens, and that the
    arguments are the words that the line spells. *)

From stdpp Require Import strings.
From Stdlib Require Import ZifyBool.
From S2P Require Import Prelude UserLib.
#[local] Open Scope Z_scope.

(** ** The code *)

Definition kMaxSpawnCommandLine : Z := 128.

(** [while ( *cursor == ' ' || *cursor == '\t') ++cursor] *)
Fixpoint skip_blanks (fuel : nat) (b : list Z) (cursor : nat) : option nat :=
  match fuel with
  | O => None
  | S fuel' => c ← b !! cursor; if (c =? 32) || (c =? 9) then skip_blanks fuel' b (S cursor) else Some cursor
  end.

(** [*out = c] *)
Definition store (b : list Z) (out : nat) (c : Z) : option (list Z) :=
  if (out <? length b)%nat then Some (<[out := c]> b) else None.

(** The loop over the characters of one argument, from [cursor], that leaves them at
    [out]; then the buffer with both pointers. *)
Fixpoint scan_argument (fuel : nat) (b : list Z) (cursor out : nat) (quote : Z) : option (list Z * nat * nat) :=
  match fuel with
  | O => None
  | S fuel' =>
    c ← b !! cursor;
    if c =? 0 then Some (b, cursor, out)
    else
      let cursor := S cursor in
      if (quote =? 0) && ((c =? 32) || (c =? 9)) then Some (b, cursor, out)
      else if (quote =? 0) && ((c =? 39) || (c =? 34)) then scan_argument fuel' b cursor out c
      else if negb (quote =? 0) && (c =? quote) then scan_argument fuel' b cursor out 0
      else
        '(c, cursor) ← (if negb (quote =? 39) && (c =? 92) then
                          d ← b !! cursor; Some (if d =? 0 then (c, cursor) else (d, S cursor))
                        else Some (c, cursor));
        b ← store b out c;
        scan_argument fuel' b cursor (S out) quote
  end.

(** The buffer and the pointers [args[0 .. count)]. *)
Fixpoint parse_arguments (fuel max_args : nat) (b : list Z) (cursor : nat) (args : list nat)
  : option (list Z * list nat) :=
  match fuel with
  | O => None
  | S fuel' =>
    c ← b !! cursor;
    if negb (c =? 0) && (length args <? max_args)%nat then
      cursor ← skip_blanks (length b) b cursor;
      c ← b !! cursor;
      if c =? 0 then Some (b, args)
      else
        let args := args ++ [cursor] in
        '(b, cursor, out) ← scan_argument (length b) b cursor cursor 0;
        b ← store b out 0;
        parse_arguments fuel' max_args b cursor args
    else Some (b, args)
  end.

Definition parse_spawn_arguments (command : list Z) (max_args : nat) : option (list Z * list nat) :=
  parse_arguments (length command) max_args command 0 [].

(** The string a [const char*] into the buffer points to. *)
Definition string_at (b : list Z) (i : nat) : list Z := until_nul (drop i b).

(** ** The words of a command line *)

Definition blank (c : Z) : Prop := c = 32 \/ c = 9.

(** Text between double quotes. *)
Inductive quoted : list Z -> list Z -> Prop :=
  | quoted_nil : quoted [] []
  | quoted_char c t v : c <> 0 -> c <> 34 -> c <> 92 -> quoted t v -> quoted (c :: t) (c :: v)
  | quoted_escape c t v : c <> 0 -> quoted t v -> quoted (92 :: c :: t) (c :: v).

(** [spells t w]: the text [t] spells the word [w]. *)
Inductive spells : list Z -> list Z -> Prop :=
  | spells_nil : spells [] []
  | spells_char c t w : c <> 0 -> ~ blank c -> c <> 39 -> c <> 34 -> c <> 92 -> spells t w -> spells (c :: t) (c :: w)
  | spells_escape c t w : c <> 0 -> spells t w -> spells (92 :: c :: t) (c :: w)
  | spells_single v t w : Forall (fun c => c <> 0 /\ c <> 39) v -> spells t w ->
      spells (39 :: v ++ 39 :: t) (v ++ w)
  | spells_double s v t w : quoted s v -> spells t w -> spells (34 :: s ++ 34 :: t) (v ++ w).

(** Words between blanks. *)
Inductive command_line : list Z -> list (list Z) -> Prop :=
  | line_nil : command_line [] []
  | line_blank c s ws : blank c -> command_line s ws -> command_line (c :: s) ws
  | line_last t w : t <> [] -> spells t w -> command_line t [w]
  | line_word t w c s ws : t <> [] -> spells t w -> blank c -> command_line s ws -> command_line (t ++ c :: s) (w :: ws).

(** ** One argument *)

(** The word at the start of a text, under the open quote [q], and what follows it. *)
Fixpoint next_word (n : nat) (q : Z) (s : list Z) : list Z * list Z :=
  match n, s with
  | S n', c :: s' =>
    if (q =? 0) && ((c =? 32) || (c =? 9)) then ([], s')
    else if (q =? 0) && ((c =? 39) || (c =? 34)) then next_word n' c s'
    else if negb (q =? 0) && (c =? q) then next_word n' 0 s'
    else if negb (q =? 39) && (c =? 92) then
      match s' with
      | d :: s'' => let '(w, r) := next_word n' q s'' in (d :: w, r)
      | [] => ([c], [])
      end
    else let '(w, r) := next_word n' q s' in (c :: w, r)
  | _, _ => ([], [])
  end.

Lemma next_word_fuel n n' q s : (length s <= n)%nat -> (length s <= n')%nat -> next_word n q s = next_word n' q s.
Proof.
  revert n' q s. induction n as [|n IH]; intros [|n'] q s Hn Hn'; destruct s as [|c s]; cbn in *; try lia; try done.
  destruct ((q =? 0) && _); [done|]. destruct ((q =? 0) && _); [apply IH; lia|].
  destruct (negb (q =? 0) && _); [apply IH; lia|].
  destruct (negb (q =? 39) && _).
  - destruct s as [|d s]; [done|]. cbn in *. by rewrite (IH n' q s) by lia.
  - by rewrite (IH n' q s) by lia.
Qed.

Abbreviation word_of q s := (next_word (length s) q s).

Lemma next_word_free n q s : nul_free s -> nul_free (next_word n q s).1 /\ nul_free (next_word n q s).2 /\
  (length (next_word n q s).2 <= length s)%nat.
Proof.
  revert q s. induction n as [|n IH]; intros q s Hs; destruct s as [|c s]; cbn; try (split_and!; [constructor..|lia]).
  inversion_clear Hs as [|? ? Hc Hs'].
  destruct ((q =? 0) && _); [split_and!; [constructor|done|cbn; lia]|].
  destruct ((q =? 0) && _); [destruct (IH c s Hs') as (A & B & C); split_and!; [done|done|lia]|].
  destruct (negb (q =? 0) && _); [destruct (IH 0 s Hs') as (A & B & C); split_and!; [done|done|lia]|].
  destruct (negb (q =? 39) && _).
  - destruct s as [|d s]; [cbn; split_and!; [by repeat constructor|constructor|lia]|].
    inversion_clear Hs' as [|? ? Hd Hs'']. destruct (IH q s Hs'') as (A & B & C).
    destruct (next_word n q s) as [w r]. cbn in *. split_and!; [by constructor|done|lia].
  - destruct (IH q s Hs') as (A & B & C). destruct (next_word n q s) as [w r]. cbn in *.
    split_and!; [by constructor|done|lia].
Qed.

(** What is left to read is [s], up to its terminator. *)
Definition ahead (b : list Z) (cursor : nat) (s z : list Z) : Prop := drop cursor b = s ++ 0 :: z.

Lemma ahead_char b cursor c s z : ahead b cursor (c :: s) z -> b !! cursor = Some c /\ ahead b (S cursor) s z.
Proof.
  unfold ahead. intros E. split.
  - rewrite <-(Nat.add_0_r cursor), <-lookup_drop, E. done.
  - rewrite <-(Nat.add_1_r cursor), <-drop_drop, E. done.
Qed.
Lemma ahead_end b cursor z : ahead b cursor [] z -> b !! cursor = Some 0.
Proof. unfold ahead. intros E. by rewrite <-(Nat.add_0_r cursor), <-lookup_drop, E. Qed.
Lemma ahead_length b cursor s z : ahead b cursor s z -> (cursor + length s < length b)%nat.
Proof. unfold ahead. intros E%(f_equal length). rewrite length_drop, length_app in E. cbn in E. lia. Qed.
Lemma ahead_store b cursor s z out c : ahead b cursor s z -> (out < cursor)%nat ->
  store b out c = Some (<[out := c]> b) /\ ahead (<[out := c]> b) cursor s z.
Proof.
  intros Ha Ho. pose proof (ahead_length _ _ _ _ Ha). unfold store, ahead in *.
  rewrite (proj2 (Nat.ltb_lt _ _)) by lia. split; [done|]. by rewrite drop_insert_lt by lia.
Qed.

(** What scanning one argument from [cursor] with its text left at [out] gives. *)
Record scanned (b : list Z) (out : nat) (z w s' : list Z) (r : list Z * nat * nat) : Prop := {
  sc_length : length r.1.1 = length b;
  sc_ahead : ahead r.1.1 r.1.2 s' z;
  sc_before : take out r.1.1 = take out b;
  sc_word : take (length w) (drop out r.1.1) = w;
  sc_out : r.2 = (out + length w)%nat;
  sc_gap : (r.2 < r.1.2)%nat \/ r.2 = r.1.2 /\ s' = []
}.

Lemma scanned_store b out c z w s' r : (out < length b)%nat -> scanned (<[out := c]> b) (S out) z w s' r ->
  scanned b out z (c :: w) s' r.
Proof.
  intros Hout [L A B W O G].
  assert (Hc : r.1.1 !! out = Some c).
  { rewrite <-(lookup_take_lt _ (S out)) by lia. rewrite B, lookup_take_lt by lia. by apply list_lookup_insert_eq. }
  split; try done.
  - by rewrite L, length_insert.
  - transitivity (take out (take (S out) r.1.1)); [by rewrite take_take, Nat.min_l by lia|].
    by rewrite B, take_take, Nat.min_l, take_insert_ge by lia.
  - rewrite (drop_S _ c) by done. cbn. by rewrite W.
  - cbn. lia.
Qed.

Lemma scan_spec fuel : forall n b cursor out q s z, nul_free s -> ahead b cursor s z -> (out <= cursor)%nat ->
  (length s < fuel)%nat -> (length s <= n)%nat ->
  exists r, scan_argument fuel b cursor out q = Some r /\ scanned b out z (next_word n q s).1 (next_word n q s).2 r.
Proof.
  induction fuel as [|fuel IH]; intros n b cursor out q s z Hf Ha Hout Hl Hn; [lia|].
  destruct s as [|c s].
  { cbn [scan_argument]. rewrite (ahead_end _ _ _ Ha). cbn. eexists. split; [done|].
    destruct n; (split; cbn; [done|done|done|done|lia|]); destruct (decide (out = cursor)); [by right|left; lia|by right|left; lia]. }
  destruct n as [|n]; [cbn in Hn; lia|]. cbn in Hl, Hn.
  inversion_clear Hf as [|? ? Hc Hf']. destruct (ahead_char _ _ _ _ _ Ha) as [Hat Ha'].
  cbn [scan_argument next_word]. rewrite Hat. cbn [mbind option_bind].
  replace (c =? 0) with false by lia.
  destruct ((q =? 0) && ((c =? 32) || (c =? 9))).
  { eexists. split; [done|]. split; cbn; [done|done|done|done|lia|left; lia]. }
  destruct ((q =? 0) && _); [apply (IH n); [done|done|lia..]|].
  destruct (negb (q =? 0) && _); [apply (IH n); [done|done|lia..]|].
  assert (Hgo : forall c s cursor', nul_free s -> (length s < fuel)%nat -> (length s <= n)%nat -> (out < cursor')%nat ->
    ahead b cursor' s z -> exists r, (b ← store b out c; scan_argument fuel b cursor' (S out) q) = Some r /\
      scanned b out z (c :: (next_word n q s).1) (next_word n q s).2 r).
  { intros c' s' cursor' Hs' Hl' Hn' Ho' Hah. destruct (ahead_store _ _ _ _ out c' Hah Ho') as [-> Hah'].
    cbn [mbind option_bind]. destruct (IH n _ cursor' (S out) q s' z Hs' Hah' Ho' Hl' Hn') as (r & Hr & Hsc).
    exists r. split; [done|]. apply scanned_store; [|done]. pose proof (ahead_length _ _ _ _ Hah). lia. }
  destruct (negb (q =? 39) && (c =? 92)).
  - destruct s as [|d s].
    + rewrite (ahead_end _ _ _ Ha'). cbn [mbind option_bind]. cbn.
      destruct (Hgo c [] (S cursor)) as (r & Hr & Hsc); [constructor|cbn; lia..|done|].
      replace (next_word n q []) with ([] : list Z, [] : list Z) in Hsc by (by destruct n). by exists r.
    + destruct (ahead_char _ _ _ _ _ Ha') as [Hd Ha'']. rewrite Hd. cbn [mbind option_bind].
      inversion_clear Hf' as [|? ? Hd0 Hf'']. replace (d =? 0) with false by lia. cbn in Hl, Hn.
      destruct (Hgo d s (S (S cursor))) as (r & Hr & Hsc); [done|lia..|done|].
      exists r. split; [done|]. by destruct (next_word n q s).
  - cbn [mbind option_bind]. destruct (Hgo c s (S cursor)) as (r & Hr & Hsc); [done|lia..|done|].
    exists r. split; [done|]. by destruct (next_word n q s).
Qed.

(** ** All arguments *)

Lemma blankb c : (c =? 32) || (c =? 9) = true <-> blank c.
Proof. unfold blank. lia. Qed.

(** The first [n] words of a text, read one after the other. *)
Inductive splits : nat -> list Z -> list (list Z) -> Prop :=
  | splits_full s : splits 0 s []
  | splits_end n s : Forall blank s -> splits n s []
  | splits_word n pre c s ws : Forall blank pre -> ~ blank c -> splits n (word_of 0 (c :: s)).2 ws ->
      splits (S n) (pre ++ c :: s) ((word_of 0 (c :: s)).1 :: ws).

Lemma leading_blanks s : exists pre s', s = pre ++ s' /\ Forall blank pre /\
  (s' = [] \/ exists c t, s' = c :: t /\ ~ blank c).
Proof.
  induction s as [|c s (pre & s' & -> & Hp & Hs)]; [exists [], []; split_and!; [done|constructor|by left]|].
  destruct ((c =? 32) || (c =? 9)) eqn:Ec.
  - apply blankb in Ec. exists (c :: pre), s'. split_and!; [done|by constructor|done].
  - exists [], (c :: pre ++ s'). split_and!; [done|constructor|]. right. exists c, (pre ++ s'). split; [done|].
    rewrite <-blankb. by rewrite Ec.
Qed.

Lemma next_word_length n q s : (length (next_word n q s).2 <= length s - 1)%nat.
Proof.
  revert q s. induction n as [|n IH]; intros q [|c s]; cbn; try lia.
  destruct ((q =? 0) && _); [cbn; lia|].
  destruct ((q =? 0) && _); [specialize (IH c s); lia|].
  destruct (negb (q =? 0) && _); [specialize (IH 0 s); lia|].
  destruct (negb (q =? 39) && _).
  - destruct s as [|d s]; [cbn; lia|]. specialize (IH q s). destruct (next_word n q s). cbn in *. lia.
  - specialize (IH q s). destruct (next_word n q s). cbn in *. lia.
Qed.

Lemma splits_total n s : exists ws, splits n s ws /\ (length ws <= n)%nat.
Proof.
  revert s. induction n as [|n IH]; intros s; [exists []; split; [constructor|done]|].
  destruct (leading_blanks s) as (pre & s' & -> & Hp & [->|(c & t & -> & Hc)]).
  - exists []. split; [constructor; by rewrite app_nil_r|cbn; lia].
  - destruct (IH (word_of 0 (c :: t)).2) as (ws & Hws & Hl). eexists. split; [by constructor|cbn; lia].
Qed.

Lemma skip_spec fuel : forall b cursor pre s z, Forall blank pre -> ahead b cursor (pre ++ s) z ->
  (s = [] \/ exists c t, s = c :: t /\ ~ blank c) -> (length pre < fuel)%nat ->
  skip_blanks fuel b cursor = Some (cursor + length pre)%nat /\ ahead b (cursor + length pre) s z.
Proof.
  induction fuel as [|fuel IH]; intros b cursor pre s z Hp Ha Hs Hl; [lia|].
  cbn [skip_blanks]. destruct pre as [|c pre].
  - rewrite Nat.add_0_r. cbn in Ha. split; [|done].
    destruct Hs as [->|(c & t & -> & Hc)]; [by rewrite (ahead_end _ _ _ Ha)|].
    rewrite (proj1 (ahead_char _ _ _ _ _ Ha)). cbn [mbind option_bind]. rewrite <-blankb in Hc. by destruct (_ || _).
  - inversion_clear Hp as [|? ? Hc Hp']. destruct (ahead_char _ _ _ _ _ Ha) as [-> Ha']. cbn [mbind option_bind].
    apply blankb in Hc. rewrite Hc. destruct (IH b (S cursor) pre s z Hp' Ha' Hs) as [-> Ha'']; [cbn in Hl; lia|].
    cbn [length]. rewrite Nat.add_succ_r. by rewrite Nat.add_succ_l in Ha'' |- *.
Qed.

Lemma take_prefix (n m : nat) (a b : list Z) : (m <= n)%nat -> take n a = take n b -> take m a = take m b.
Proof.
  intros Hm E. rewrite <-(Nat.min_l m n) by done. by rewrite <-!take_take, E.
Qed.

(** The word [w] with its terminator is at [a], before [limit]. *)
Definition holds (b : list Z) (a limit : nat) (w : list Z) : Prop :=
  take (length w) (drop a b) = w /\ b !! (a + length w)%nat = Some 0 /\ (a + length w < limit)%nat.

Lemma holds_string b a limit w : nul_free w -> holds b a limit w -> string_at b a = w.
Proof.
  intros Hf (W & N & _). unfold string_at. rewrite <-(take_drop (length w) (drop a b)), W, drop_drop.
  rewrite (drop_S _ 0) by done. generalize (drop (S (a + length w)) b). intros l. clear -Hf. induction Hf as [|c w Hc _ IH]; cbn; [done|].
  replace (c =? 0) with false by lia. by rewrite IH.
Qed.

Lemma holds_same b b' a limit w : take limit b' = take limit b -> holds b a limit w -> holds b' a limit w.
Proof.
  intros E (W & N & L). split_and!; [|rewrite <-(lookup_take_lt b' limit), E, lookup_take_lt by lia; exact N|done].
  rewrite <-W at 2. rewrite !take_drop_commute. f_equal.
  by apply (take_prefix limit); [lia|].
Qed.

(** The terminator written after a scanned argument keeps what is ahead. *)
Lemma scanned_end b start z w s' r : nul_free w -> (start <= length b)%nat -> scanned b start z w s' r ->
  exists b', store r.1.1 r.2 0 = Some b' /\ length b' = length b /\ ahead b' r.1.2 s' z /\
    take start b' = take start b /\ (start <= r.1.2)%nat /\ (r.1.2 <= length b)%nat /\
    forall b2, length b2 = length b -> take r.1.2 b2 = take r.1.2 b' -> (s' = [] -> b2 = b') -> holds b2 start (length b) w.
Proof.
  intros Hw Hs [L A B W O G]. destruct r as [[b1 cur] out]. cbn in *. pose proof (ahead_length _ _ _ _ A) as Hlen.
  exists (<[out := 0]> b1). assert (Hin : (out < length b1)%nat) by (destruct G as [?|[? ->]]; cbn in *; lia).
  assert (Hh : holds (<[out := 0]> b1) start (S out) w).
  { split_and!; [|rewrite <-O; by apply list_lookup_insert_eq|lia].
    rewrite <-W at 2. rewrite !take_drop_commute. f_equal. rewrite take_insert_ge by lia. by rewrite <-O. }
  split_and!; [|by rewrite length_insert| |by rewrite take_insert_ge by lia|lia|lia|].
  - unfold store. by rewrite (proj2 (Nat.ltb_lt _ _)) by lia.
  - unfold ahead in *. destruct G as [G|[-> ->]]; [by rewrite drop_insert_lt by lia|].
    by rewrite drop_insert_ge, A, Nat.sub_diag by lia.
  - intros b2 L2 E2 Hnil. cut (holds b2 start (S out) w); [intros (H1 & H2 & _); split_and!; [done|done|lia]|].
    destruct G as [G|[_ ->]]; [|by rewrite Hnil]. apply (holds_same (<[out := 0]> b1)); [|done].
    by apply (take_prefix cur).
Qed.

(** Parsing [s] from [cursor] on adds pointers to the words [ws] and leaves what is before. *)
Definition parsed (b : list Z) (cursor : nat) (args : list nat) (s : list Z) (ws : list (list Z))
    (o : option (list Z * list nat)) : Prop :=
  exists b' new, o = Some (b', args ++ new) /\ length b' = length b /\ take cursor b' = take cursor b /\
    (s = [] -> b' = b) /\
    Forall2 (fun a w => (cursor <= a)%nat /\ nul_free w /\ holds b' a (length b) w) new ws.

Lemma parsed_none b cursor args s : parsed b cursor args s [] (Some (b, args)).
Proof. exists b, []. rewrite app_nil_r. split_and!; done. Qed.

Lemma ahead_first b cursor s z : nul_free s -> ahead b cursor s z ->
  exists c, b !! cursor = Some c /\ ((c =? 0) = true <-> s = []).
Proof.
  intros Hf Ha. destruct s as [|c s]; [exists 0; by rewrite (ahead_end _ _ _ Ha)|]. exists c. inversion_clear Hf.
  split; [by apply (ahead_char _ _ _ _ _ Ha)|]. split; [lia|done].
Qed.

Lemma parse_spec fuel : forall max b cursor args n s z ws, nul_free s -> ahead b cursor s z -> splits n s ws ->
  max = (length args + n)%nat -> (length s < fuel)%nat -> parsed b cursor args s ws (parse_arguments fuel max b cursor args).
Proof.
  induction fuel as [|fuel IH]; intros max b cursor args n s z ws Hf Ha Hsp Hmax Hl; [lia|].
  cbn [parse_arguments]. destruct (ahead_first _ _ _ _ Hf Ha) as (c0 & -> & Hc0). cbn [mbind option_bind].
  pose proof (ahead_length _ _ _ _ Ha) as Hlen.
  destruct Hsp as [s|n s Hb|n pre c s ws Hpre Hc Hsp].
  - rewrite (proj2 (Nat.ltb_ge _ _)) by lia. rewrite andb_false_r. apply parsed_none.
  - destruct (negb (c0 =? 0) && _); [|apply parsed_none].
    destruct (skip_spec (length b) b cursor s [] z Hb) as [-> Ha']; [by rewrite app_nil_r|by left|lia|].
    cbn [mbind option_bind]. rewrite (ahead_end _ _ _ Ha'). cbn [mbind option_bind]. apply parsed_none.
  - rewrite (proj2 (Nat.ltb_lt _ _)) by lia.
    destruct (c0 =? 0) eqn:E0; [by destruct pre; destruct Hc0 as [Hc0 _]; specialize (Hc0 eq_refl)|]. cbn [negb andb].
    rewrite length_app in Hl, Hlen. cbn [length] in Hl, Hlen.
    destruct (skip_spec (length b) b cursor pre (c :: s) z Hpre Ha) as [-> Ha']; [right; by exists c, s|lia|].
    cbn [mbind option_bind]. rewrite (proj1 (ahead_char _ _ _ _ _ Ha')). cbn [mbind option_bind].
    apply Forall_app in Hf as [_ Hf]. replace (c =? 0) with false by (inversion_clear Hf; lia).
    set (start := (cursor + length pre)%nat) in *.
    destruct (scan_spec (length b) (length (c :: s)) b start start 0 (c :: s) z Hf Ha') as (r & -> & Hsc);
      [done|cbn [length]; lia|done|].
    cbn [mbind option_bind]. destruct r as [[b1 cur1] out1].
    pose proof (next_word_free (length (c :: s)) 0 (c :: s) Hf) as (Hwf & Hsf & _).
    pose proof (next_word_length (length (c :: s)) 0 (c :: s)) as Hprog.
    destruct (word_of 0 (c :: s)) as [w s'] eqn:Ew. cbn [fst snd] in *.
    destruct (scanned_end b start z w s' _ Hwf ltac:(lia) Hsc) as (b2 & Hst & L2 & A2 & B2 & S2 & C2 & Hh).
    cbn [fst snd] in *. rewrite Hst. cbn [mbind option_bind].
    destruct (IH max b2 cur1 (args ++ [start]) n s' z ws Hsf A2 Hsp) as (b' & new & -> & L' & B' & N' & F');
      [rewrite length_app; cbn [length]; lia|cbn [length] in *; lia|].
    exists b', (start :: new). rewrite <-app_assoc. split_and!; [done|lia| |by destruct pre|].
    + apply (take_prefix start); [lia|]. rewrite <-B2. by apply (take_prefix cur1).
    + constructor; [split_and!; [lia|done|apply Hh; [lia|done|done]]|].
      eapply Forall2_impl; [exact F'|]. cbn. intros a v (? & ? & Hv). rewrite <-L2. split_and!; [lia|done|done].
Qed.

(** ** From the grammar to the words *)

Lemma next_word_single v r n : Forall (fun c => c <> 0 /\ c <> 39) v -> (length (v ++ 39%Z :: r) <= n)%nat ->
  next_word n 39 (v ++ 39 :: r) = let '(w, r') := word_of 0 r in (v ++ w, r').
Proof.
  intros Hv. revert n. induction Hv as [|c v [Hc Hc'] _ IH]; intros [|n] Hn; cbn in Hn; try lia.
  - cbn. rewrite (next_word_fuel n (length r)) by lia. by destruct (word_of 0 r).
  - cbn. replace (c =? 39) with false by lia. cbn. rewrite IH by lia. by destruct (word_of 0 r).
Qed.

Lemma next_word_double s v r n : quoted s v -> (length (s ++ 34%Z :: r) <= n)%nat ->
  next_word n 34 (s ++ 34 :: r) = let '(w, r') := word_of 0 r in (v ++ w, r').
Proof.
  intros Hq. revert n. induction Hq as [|c t v H0 H1 H2 _ IH|c t v H0 _ IH]; intros [|n] Hn; cbn in Hn; try lia.
  - cbn. rewrite (next_word_fuel n (length r)) by lia. by destruct (word_of 0 r).
  - cbn. replace (c =? 34) with false by lia. replace (c =? 92) with false by lia. cbn.
    rewrite IH by lia. by destruct (word_of 0 r).
  - cbn. rewrite IH by lia. by destruct (word_of 0 r).
Qed.

Lemma next_word_spells t w r n : spells t w -> (length (t ++ r) <= n)%nat ->
  next_word n 0 (t ++ r) = let '(w', r') := word_of 0 r in (w ++ w', r').
Proof.
  intros Hs. revert n. induction Hs as [|c t w H0 Hb H1 H2 H3 _ IH|c t w H0 _ IH|v t w Hv _ IH|s v t w Hq _ IH]; intros n Hn.
  - cbn in *. rewrite (next_word_fuel n (length r)) by lia. by destruct (word_of 0 r).
  - destruct n as [|n]; cbn in Hn; [lia|]. cbn. rewrite <-blankb in Hb. destruct (_ || _) in Hb |- *; [done|]. cbn.
    replace (c =? 39) with false by lia. replace (c =? 34) with false by lia. replace (c =? 92) with false by lia. cbn.
    rewrite IH by lia. by destruct (word_of 0 r).
  - destruct n as [|n]; cbn in Hn; [lia|]. cbn. rewrite IH by lia. by destruct (word_of 0 r).
  - destruct n as [|n]; cbn in Hn; [lia|]. cbn. rewrite <-app_assoc in Hn |- *. cbn [app] in *.
    rewrite next_word_single, IH by (try done; rewrite ?length_app in *; cbn in *; lia).
    destruct (word_of 0 r). by rewrite app_assoc.
  - destruct n as [|n]; cbn in Hn; [lia|]. cbn. rewrite <-app_assoc in Hn |- *. cbn [app] in *.
    rewrite (next_word_double s v), IH by (try done; rewrite ?length_app in *; cbn in *; lia).
    destruct (word_of 0 r). by rewrite app_assoc.
Qed.

Lemma spells_head t w : t <> [] -> spells t w -> exists c t', t = c :: t' /\ ~ blank c.
Proof.
  intros Ht Hs. destruct Hs as [| | | |]; [done|..]; (eexists _, _; split; [done|unfold blank; first [done | lia]]).
Qed.

Lemma splits_blank n c s ws : blank c -> splits n s ws -> splits n (c :: s) ws.
Proof.
  intros Hc Hs. destruct Hs as [s|n s Hb|n pre d s ws Hp Hd Hs]; [constructor|by constructor; constructor|].
  apply (splits_word n (c :: pre)); [by constructor|done|done].
Qed.

Lemma line_splits s ws n : command_line s ws -> splits n s (take n ws).
Proof.
  intros Hl. revert n. induction Hl as [|c s ws Hc _ IH|t w Ht Hw|t w c s ws Ht Hw Hc _ IH]; intros n.
  - rewrite take_nil. by constructor.
  - by apply splits_blank.
  - destruct n as [|n]; [constructor|]. destruct (spells_head t w Ht Hw) as (c & t' & -> & Hc).
    pose proof (next_word_spells _ _ [] (length (c :: t')) Hw) as E. rewrite app_nil_r in E. specialize (E (le_n _)).
    change (word_of 0 []) with ([] : list Z, [] : list Z) in E.
    cbn beta iota in E. rewrite app_nil_r in E. pose proof (splits_word n [] c t' [] ltac:(constructor) Hc) as G. cbn [app] in G.
    rewrite E in G. cbn [fst snd] in G. cbn [take]. rewrite take_nil. apply G. by constructor.
  - destruct n as [|n]; [constructor|]. destruct (spells_head t w Ht Hw) as (d & t' & -> & Hd).
    pose proof (next_word_spells _ _ (c :: s) (length ((d :: t') ++ c :: s)) Hw (le_n _)) as E.
    assert (Ec : word_of 0 (c :: s) = ([], s)) by (cbn; apply blankb in Hc; by rewrite Hc).
    rewrite Ec in E. cbn beta iota in E. rewrite app_nil_r in E. cbn [app] in E |- *.
    pose proof (splits_word n [] d (t' ++ c :: s) (take n ws) ltac:(constructor) Hd) as G. cbn [app] in G.
    rewrite E in G. cbn [fst snd] in G. cbn [take]. by apply G.
Qed.

Lemma parse_words (s z : list Z) (max_args : nat) : nul_free s ->
  exists b args, parse_spawn_arguments (s ++ 0 :: z) max_args = Some (b, args) /\
    length b = length (s ++ 0 :: z) /\ (length args <= max_args)%nat /\ Forall (fun a => (a < length b)%nat) args /\
    forall ws, command_line s ws -> string_at b <$> args = take max_args ws.
Proof.
  intros Hf. set (b0 := s ++ 0 :: z).
  assert (Hrun : forall ws, splits max_args s ws -> parsed b0 0 [] s ws (parse_spawn_arguments b0 max_args)).
  { intros ws Hs. apply (parse_spec _ _ _ _ _ max_args s z); [done|done|done|done|].
    unfold b0. rewrite length_app. cbn. lia. }
  destruct (splits_total max_args s) as (ws & Hs & Hl). destruct (Hrun ws Hs) as (b & args & E & L & _ & _ & F).
  exists b, args. split_and!; [done|done|by rewrite (Forall2_length _ _ _ F)|..].
  - apply Forall_lookup. intros i a Hi. destruct (Forall2_lookup_l _ _ _ _ _ F Hi) as (w & _ & _ & _ & _ & _ & Hlt). lia.
  - intros ws' Hw. destruct (Hrun _ (line_splits _ _ max_args Hw)) as (b' & args' & E' & _ & _ & _ & F').
    rewrite E in E'. injection E' as <- <-. clear -F'. induction F' as [|a w args ws (_ & Hw & Hh) _ IH]; [done|].
    cbn. rewrite IH. f_equal. by apply (holds_string _ _ (length b0)).
Qed.

(** C20. Splitting the command line of Spawn terminates inside its buffer for every
    terminated text, and gives at most the number of arguments asked for; on a line that
    spells words between blanks, with quotes and backslashes, the pointers it leaves point
    to exactly these words. *)
Theorem spawn_arguments_are_the_words (s z : list Z) (max_args : nat) : nul_free s ->
  exists b args, parse_spawn_arguments (s ++ 0 :: z) max_args = Some (b, args) /\
    length b = length (s ++ 0 :: z) /\ (length args <= max_args)%nat /\ Forall (fun a => (a < length b)%nat) args /\
    forall ws, command_line s ws -> string_at b <$> args = take max_args ws.
Proof. apply parse_words. Qed.

Definition demo_command : list Z :=
  txt "cp" ++ 32 :: (39 :: txt "my file" ++ 39 :: []) ++ 9 :: (34 :: ([105; 116] ++ 92 :: 34 :: [115]) ++ 34 :: []).

Lemma spells_plain t : forallb (fun c => negb (c =? 0) && negb (c =? 32) && negb (c =? 9) && negb (c =? 39) &&
  negb (c =? 34) && negb (c =? 92)) t = true -> spells t t.
Proof.
  induction t as [|c t IH]; [constructor|]. cbn. intros [Hc Ht]%andb_true_iff.
  constructor; try lia; [unfold blank; lia|by apply IH].
Qed.

Lemma demo_command_words : command_line demo_command [txt "cp"; txt "my file"; [105; 116; 34; 115]].
Proof.
  apply line_word; [done|by apply spells_plain|by left|]. apply line_word; [done| |by right|].
  - rewrite <-(app_nil_r (txt "my file")) at 2. constructor; [|constructor].
    change (txt "my file") with [109; 121; 32; 102; 105; 108; 101]. repeat constructor; lia.
  - apply line_last; [done|]. change [105; 116; 34; 115] with ([105; 116; 34; 115] ++ []). constructor; [|constructor].
    repeat (constructor; [lia..|]). constructor.
Qed.

Lemma spawn_arguments_are_the_words_witness :
  exists b args, parse_spawn_arguments (demo_command ++ [0; 0]) 8 = Some (b, args) /\
    string_at b <$> args = [txt "cp"; txt "my file"; [105; 116; 34; 115]].
Proof.
  destruct (spawn_arguments_are_the_words demo_command [0] 8) as (b & args & E & _ & _ & _ & W).
  { apply nul_freeb_ok. vm_compute. reflexivity. }
  exists b, args. split; [exact E|]. exact (W _ demo_command_words).
Defined.
