(* ===== verification/Digest.v ===== *)
(** * Streaming digests (userland/src/sha224sum.cpp, sha256sum.cpp, sha384sum.cpp,
      sha512sum.cpp, sha1sum.cpp, md5sum.cpp)

    The six digest programs share the code around their compression functions: a
    context with a partly filled block, [update], which takes data in pieces of any
    size, and [finish], which pads.  The section below is that code over the size of
    a block, the size of the length field, the compression function and the counter
    of bytes; the programs instantiate it.  The specification pads the whole message
    and folds the compression function over its blocks.  [finish_hash] shows that
    however the message was cut into pieces, the streaming code computes it. *)

From stdpp Require Import strings.
From S2P Require Import Prelude UserLib.
#[local] Open Scope Z_scope.
#[local] Open Scope prog_scope.

(** [ctx.state], [ctx.block], [ctx.block_used] and the byte counter. *)
Record Context (St Ct : Type) := mkContext {
  c_state : St; c_block : list Z; c_used : nat; c_bytes : Ct
}.
Arguments mkContext {St Ct} _ _ _ _.
Arguments c_state {St Ct} _.
Arguments c_block {St Ct} _.
Arguments c_used {St Ct} _.
Arguments c_bytes {St Ct} _.
#[export] Instance Context_eta St Ct : Eta (Context St Ct) := fun r =>
  mkContext (c_state r) (c_block r) (c_used r) (c_bytes r).

(** ** The specification: a padded message in blocks *)

(** [n] blocks of [B] bytes from the front of a message. *)
Fixpoint blocks (B n : nat) (msg : list Z) : list (list Z) :=
  match n with
  | O => []
  | S n' => take B msg :: blocks B n' (drop B msg)
  end.

(** A one bit, the fewest zeros that make the whole a number of blocks, the length. *)
Definition pad (B : nat) (field msg : list Z) : list Z :=
  let L := length field in
  msg ++ [128] ++ replicate ((B - (length msg + 1 + L) mod B) mod B) 0 ++ field.

Definition hash {St} (B : nat) (compress : St -> list Z -> St) (initial : St) (field msg : list Z) : St :=
  let padded := pad B field msg in
  foldl compress initial (blocks B (length padded / B) padded).

(** ** The code *)

Section stream.
Context (B L : nat) {St Ct : Type}.
Context (transform : St -> list Z -> St) (add_bytes : Z -> Ct -> Ct) (length_field : Ct -> list Z).

Definition init (initial : St) (zero : Ct) : Context St Ct := mkContext initial (replicate B 0) 0 zero.

(** The body of [while (consumed < length)], over the data not yet consumed. *)
Fixpoint update_loop (fuel : nat) (data : list Z) (c : Context St Ct) : Context St Ct :=
  match fuel with
  | O => c
  | S fuel' =>
    match data with
    | [] => c
    | _ =>
      let room := (B - c_used c)%nat in
      let n := if decide (length data < room)%nat then length data else room in
      let c := c <| c_block ::= list_inserts (c_used c) (take n data) |> <| c_used ::= Nat.add n |> in
      let c := if decide (c_used c = B)
               then c <| c_state ::= fun s => transform s (c_block c) |> <| c_used := 0%nat |> else c in
      update_loop fuel' (drop n data) c
    end
  end.
Definition update (data : list Z) (c : Context St Ct) : Context St Ct :=
  update_loop (length data) data (c <| c_bytes ::= add_bytes (zlen data) |>).

(** [while (ctx.block_used < limit) ctx.block[ctx.block_used++] = 0] *)
Definition zero_fill (limit : nat) (c : Context St Ct) : Context St Ct :=
  c <| c_block ::= list_inserts (c_used c) (replicate (limit - c_used c) 0) |>
    <| c_used ::= fun used => (used `max` limit)%nat |>.

Definition finish (c : Context St Ct) : St :=
  let field := length_field (c_bytes c) in
  let c := c <| c_block ::= <[c_used c := 128]> |> <| c_used ::= S |> in
  let c := if decide (B - L < c_used c)%nat then
             let c := zero_fill B c in
             c <| c_state ::= fun s => transform s (c_block c) |> <| c_used := 0%nat |>
           else c in
  let c := zero_fill (B - L) c in
  transform (c_state c) (list_inserts (B - L) field (c_block c)).

(** ** The streaming code computes the specification *)

Context (initial : St) (HB : (0 < L < B)%nat).

Lemma blocks_snoc n msg b :
  length msg = (n * B)%nat -> length b = B -> blocks B (S n) (msg ++ b) = blocks B n msg ++ [b].
Proof.
  revert msg. induction n as [|n IH]; intros msg Hm Hb.
  - apply length_zero_iff_nil in Hm as ->. simpl. by rewrite take_ge by lia.
  - change (blocks B (S (S n)) (msg ++ b)) with (take B (msg ++ b) :: blocks B (S n) (drop B (msg ++ b))).
    rewrite take_app_le, drop_app_le by lia. rewrite IH by (try rewrite length_drop; lia). done.
Qed.

(** What the context holds after the bytes of [msg]. *)
Record absorbed (msg : list Z) (c : Context St Ct) : Prop := {
  ab_split : exists n full, length full = (n * B)%nat /\ c_state c = foldl transform initial (blocks B n full) /\
             msg = full ++ take (c_used c) (c_block c);
  ab_used : (c_used c < B)%nat;
  ab_block : length (c_block c) = B
}.

Lemma absorbed_init zero : absorbed [] (init initial zero).
Proof. split; simpl; [by exists 0%nat, []|lia|by rewrite length_replicate]. Qed.

(** A piece written over a list that holds it. *)
Lemma inserts_take_drop (i : nat) (l k : list Z) :
  (i + length k <= length l)%nat -> list_inserts i k l = take i l ++ k ++ drop (i + length k) l.
Proof.
  intros Hl. apply list_eq. intros j. destruct (decide (j < i)%nat) as [|Hge].
  { rewrite list_lookup_inserts_lt, lookup_app_l, lookup_take_lt by (rewrite ?length_take; lia). done. }
  rewrite (lookup_app_r (take i l)), length_take, Nat.min_l by (rewrite ?length_take; lia).
  destruct (decide (j < i + length k)%nat).
  - rewrite list_lookup_inserts by lia. by rewrite lookup_app_l by lia.
  - rewrite list_lookup_inserts_ge, lookup_app_r, lookup_drop by lia. f_equal. lia.
Qed.

Lemma take_inserts (i : nat) (l k : list Z) :
  (i + length k <= length l)%nat -> take (length k + i) (list_inserts i k l) = take i l ++ k.
Proof.
  intros Hl. rewrite inserts_take_drop, app_assoc by done. apply take_app_length'. rewrite length_app, length_take. lia.
Qed.
Lemma absorbed_piece msg c piece :
  absorbed msg c -> (c_used c + length piece <= B)%nat ->
  let c' := c <| c_block ::= list_inserts (c_used c) piece |> <| c_used ::= Nat.add (length piece) |> in
  absorbed (msg ++ piece)
    (if decide (c_used c' = B) then c' <| c_state ::= fun s => transform s (c_block c') |> <| c_used := 0%nat |> else c').
Proof.
  intros [(n & full & Hf & Hs & ->) Hu Hb] Hp c'.
  assert (Ht : take (length piece + c_used c) (list_inserts (c_used c) piece (c_block c)) =
               take (c_used c) (c_block c) ++ piece) by (apply take_inserts; lia).
  case_decide as Hd; simpl in *.
  - split; simpl; [|lia|by rewrite length_inserts].
    exists (S n), (full ++ list_inserts (c_used c) piece (c_block c)).
    rewrite length_app, length_inserts. split_and!; [lia| |].
    + rewrite blocks_snoc, foldl_app, Hs by (rewrite ?length_inserts; lia). done.
    + rewrite app_nil_r, <-app_assoc, <-Ht. rewrite (take_ge (list_inserts _ _ _)) by (rewrite length_inserts; lia). done.
  - split; simpl; [|lia|by rewrite length_inserts]. exists n, full. split_and!; [done..|]. by rewrite Ht, app_assoc.
Qed.

Lemma update_loop_absorbed fuel : forall data msg c,
  (length data <= fuel)%nat -> absorbed msg c -> absorbed (msg ++ data) (update_loop fuel data c).
Proof.
  induction fuel as [|fuel IH]; intros data msg c Hf Hc.
  { destruct data; simpl in *; [by rewrite app_nil_r|lia]. }
  destruct data as [|x data']; [by rewrite app_nil_r|]. cbn [update_loop].
  set (data := x :: data') in *. set (n := if decide _ then _ else _).
  pose proof (ab_used _ _ Hc) as Hu.
  assert (Hn : (0 < n <= length data)%nat /\ (c_used c + n <= B)%nat).
  { unfold n. case_decide; subst data; simpl in *; lia. }
  rewrite <-(take_drop n data) at 1. rewrite app_assoc. apply IH; [rewrite length_drop; lia|].
  pose proof (absorbed_piece msg c (take n data) Hc) as Hp. rewrite length_take, Nat.min_l in Hp by lia.
  apply Hp. lia.
Qed.

Lemma update_loop_bytes fuel : forall data c, c_bytes (update_loop fuel data c) = c_bytes c.
Proof.
  induction fuel as [|fuel IH]; intros data c; [done|]. destruct data as [|x data]; [done|]. cbn [update_loop].
  rewrite IH. by case_decide.
Qed.

Lemma update_absorbed data msg c : absorbed msg c -> absorbed (msg ++ data) (update data c).
Proof. intros [Hs Hu Hb]. by apply update_loop_absorbed. Qed.

Lemma update_bytes data c : c_bytes (update data c) = add_bytes (zlen data) (c_bytes c).
Proof. unfold update. by rewrite update_loop_bytes. Qed.

(** The zeros of the padding when a block, or two, end the message. *)
Lemma pad_zeros n u m :
  (u < B)%nat -> (u + 1 + L <= m * B < u + 1 + L + B)%nat ->
  ((B - (n * B + u + 1 + L) mod B) mod B = m * B - (u + 1 + L))%nat.
Proof.
  intros Hu Hr.
  assert (Hmod : ((n * B + u + 1 + L) mod B = (u + 1 + L) mod B)%nat).
  { replace (n * B + u + 1 + L)%nat with (u + 1 + L + n * B)%nat by lia. apply Nat.Div0.mod_add. }
  rewrite Hmod. assert (m = 1 \/ m = 2)%nat as [-> | ->] by (destruct m as [|[|[|m]]]; lia).
  - destruct (decide (u + 1 + L = B)%nat) as [->|].
    + rewrite Nat.Div0.mod_same. replace (B - 0)%nat with B by lia. rewrite Nat.Div0.mod_same. lia.
    + rewrite (Nat.mod_small (u + 1 + L)) by lia. rewrite Nat.mod_small by lia. lia.
  - rewrite (mod_once (u + 1 + L)) by lia. case_decide; [lia|]. rewrite Nat.mod_small; lia.
Qed.

Lemma hash_blocks n full bs rest field :
  length full = (n * B)%nat -> Forall (fun b => length b = B) bs ->
  pad B field (full ++ rest) = full ++ concat bs ->
  hash B transform initial field (full ++ rest) = foldl transform (foldl transform initial (blocks B n full)) bs.
Proof.
  intros Hf Hbs Hp. unfold hash. rewrite Hp. clear Hp.
  assert (Hc : length (concat bs) = (length bs * B)%nat).
  { induction Hbs as [|b bs Hb _ IH]; simpl; [done|]. rewrite length_app. lia. }
  rewrite length_app, Hf, Hc, <-Nat.mul_add_distr_r, Nat.div_mul by lia. clear Hc.
  revert n full Hf. induction Hbs as [|b bs Hb _ IH]; intros n full Hf; simpl.
  - by rewrite app_nil_r, Nat.add_0_r.
  - rewrite app_assoc, Nat.add_succ_r, <-Nat.add_succ_l.
    rewrite IH by (rewrite length_app; lia). by rewrite blocks_snoc, foldl_app.
Qed.

(** A block filled with zeros to its end, or to the length field that ends it. *)
Lemma filled_block (u : nat) (block : list Z) :
  length block = B -> (u <= B)%nat ->
  list_inserts u (replicate (B - u) 0) block = take u block ++ replicate (B - u) 0.
Proof.
  intros Hb Hu. rewrite inserts_take_drop by (rewrite length_replicate; lia).
  by rewrite length_replicate, (drop_ge block), app_nil_r by lia.
Qed.

Lemma ended_block (u : nat) (field block : list Z) :
  length block = B -> length field = L -> (u <= B - L)%nat ->
  list_inserts (B - L) field (list_inserts u (replicate (B - L - u) 0) block) =
  take u block ++ replicate (B - L - u) 0 ++ field.
Proof.
  intros Hb HL Hu.
  assert (Hz : take (B - L) (list_inserts u (replicate (B - L - u) 0) block) = take u block ++ replicate (B - L - u) 0).
  { rewrite <-take_inserts by (rewrite length_replicate; lia). f_equal. rewrite length_replicate. lia. }
  rewrite inserts_take_drop by (rewrite length_inserts; lia). rewrite Hz, (drop_ge (list_inserts _ _ _)).
  - by rewrite app_nil_r, app_assoc.
  - rewrite length_inserts. lia.
Qed.

Lemma marked_block (u : nat) (block : list Z) :
  (u < length block)%nat -> take (S u) (<[u := 128]> block) = take u block ++ [128].
Proof.
  intros Hu. rewrite insert_take_drop by done. rewrite (cons_middle 128), app_assoc.
  apply take_app_length'. rewrite length_app, length_take. simpl. lia.
Qed.

Lemma finish_hash msg c :
  absorbed msg c -> length (length_field (c_bytes c)) = L ->
  finish c = hash B transform initial (length_field (c_bytes c)) msg.
Proof.
  intros [(n & full & Hf & Hs & ->) Hu Hb] HL. unfold finish. set (field := length_field (c_bytes c)) in *.
  pose proof (marked_block (c_used c) (c_block c) ltac:(lia)) as Hm.
  set (marked := <[c_used c := 128]> (c_block c)) in *.
  assert (Hlm : length marked = B) by (unfold marked; rewrite length_insert; lia).
  set (r := take (c_used c) (c_block c)) in *.
  assert (Hr : length r = c_used c) by (unfold r; rewrite length_take; lia).
  assert (Hpad : forall m, (c_used c + 1 + L <= m * B < c_used c + 1 + L + B)%nat ->
    pad B field (full ++ r) = full ++ r ++ [128] ++ replicate (m * B - (c_used c + 1 + L)) 0 ++ field).
  { intros m Hm'. unfold pad. rewrite length_app, Hr, HL, Hf, (pad_zeros n (c_used c) m) by lia. by rewrite <-app_assoc. }
  case_decide as Hd; simpl in Hd |- *; fold marked; rewrite Hs.
  - rewrite (hash_blocks n full [r ++ [128] ++ replicate (B - S (c_used c)) 0; replicate (B - L) 0 ++ field]);
      [|done|..].
    + rewrite ended_block by (rewrite ?length_inserts; lia). rewrite filled_block, Hm by lia. simpl.
      by rewrite <-app_assoc, Nat.sub_0_r.
    + repeat constructor; rewrite !length_app, ?length_replicate; simpl; rewrite ?length_replicate; lia.
    + rewrite (Hpad 2%nat) by lia. simpl. rewrite app_nil_r, <-!app_assoc. simpl. do 3 f_equal.
      rewrite app_assoc, <-replicate_add. do 2 f_equal. lia.
  - rewrite (hash_blocks n full [r ++ [128] ++ replicate (B - (c_used c + 1 + L)) 0 ++ field]); [|done|..].
    + rewrite ended_block, Hm by lia. simpl. rewrite <-app_assoc. simpl. do 5 f_equal. lia.
    + repeat constructor. rewrite !length_app, length_replicate. simpl. lia.
    + rewrite (Hpad 1%nat) by lia. simpl. by rewrite app_nil_r, Nat.add_0_r.
Qed.

End stream.

(** Compression functions that agree on the blocks of the message give one hash. *)
Lemma blocks_length B n : forall msg, (n * B <= length msg)%nat -> Forall (fun b => length b = B) (blocks B n msg).
Proof.
  induction n as [|n IH]; intros msg Hl; simpl; constructor; [rewrite length_take; lia|].
  apply IH. rewrite length_drop. lia.
Qed.

Lemma blocks_Forall (Q : Z -> Prop) B n : forall msg, Forall Q msg -> Forall (Forall Q) (blocks B n msg).
Proof. induction n as [|n IH]; intros msg Hl; simpl; constructor; [by apply Forall_take|by apply IH, Forall_drop]. Qed.

Lemma hash_ext {St} B (f g : St -> list Z -> St) (I : St -> Prop) (Q : Z -> Prop) initial field msg :
  (0 < B)%nat -> I initial -> Forall Q (pad B field msg) ->
  (forall s b, I s -> length b = B -> Forall Q b -> f s b = g s b /\ I (g s b)) ->
  hash B f initial field msg = hash B g initial field msg.
Proof.
  intros HB HI HQ Hfg. unfold hash. set (n := (_ / B)%nat).
  pose proof (blocks_length B n (pad B field msg)) as Hl. pose proof (blocks_Forall Q B n _ HQ) as Hb.
  assert (Hn : (n * B <= length (pad B field msg))%nat) by (rewrite Nat.mul_comm; apply Nat.Div0.mul_div_le).
  specialize (Hl Hn). revert initial HI Hl Hb. generalize (blocks B n (pad B field msg)). intros bs.
  induction bs as [|b bs IH]; intros s Hs Hl Hb; cbn [foldl]; [done|].
  apply Forall_cons in Hl as [? ?], Hb as [? ?]. destruct (Hfg s b) as [-> Hs']; [done..|]. by apply IH.
Qed.

Lemma pad_Forall (Q : Z -> Prop) B field msg :
  Q 128 -> Q 0 -> Forall Q field -> Forall Q msg -> Forall Q (pad B field msg).
Proof.
  intros. unfold pad. repeat apply Forall_app_2; [done|by constructor|by apply Forall_replicate|done].
Qed.

(** ** The programs around the digests *)

(** What distinguishes one digest program from another. *)
Record Algorithm := mkAlgorithm {
  al_state : Type; al_counter : Type;
  al_block : nat; al_length : nat;
  al_initial : al_state; al_zero : al_counter;
  al_transform : al_state -> list Z -> al_state;
  al_add : Z -> al_counter -> al_counter;
  al_field : al_counter -> list Z;
  al_digest : al_state -> list Z;
  al_shown : al_counter -> Z;
  al_name : list Z; al_line : Z; al_buffer : Z
}.

Section program.
Context (A : Algorithm) {K : Type} `{!Sys K}.

Definition write_digest (digest path : list Z) : prog K unit :=
  let line := append_text (al_line A) (al_name A) [] in
  let line := foldl (fun line b => append_char (al_line A) (hex_digit b)
                (append_char (al_line A) (hex_digit (Z.shiftr b 4)) line)) line digest in
  let line := append_text (al_line A) (txt "  ") line in
  write_line (append_text (al_line A) path line).

Definition close_if (close_when_done : bool) (fd : Z) : prog K unit :=
  if close_when_done then (call (sys_close fd) ;; ret tt) else ret tt.

(** From [Context ctx; init(ctx);] to the end of [_start]. *)
Definition digest_fd (fd : Z) (label : list Z) (close_when_done : bool) : prog K unit :=
  let! ctx := iter (fun ctx =>
    let! (read, data) := read_blocking fd (al_buffer A) in
    if (r_error read =? ErrorNotFound) && (r_value read =? 0) then ret (inr ctx)
    else if negb (r_error read =? ErrorNone) then
      close_if close_when_done fd ;;
      write_hex_line (al_name A) (txt "read error ") (r_error read) ;;
      exit 3
    else if r_value read =? 0 then ret (inr ctx)
    else ret (inl (update (al_block A) (al_transform A) (al_add A) data ctx)))
    (init (al_block A) (al_initial A) (al_zero A)) in
  close_if close_when_done fd ;;
  write_digest (al_digest A (finish (al_block A) (al_length A) (al_transform A) (al_field A) ctx)) label ;;
  write_hex_line (al_name A) (txt "bytes ") (al_shown A (c_bytes ctx)) ;;
  exit 0.

Definition digest_main : prog K unit :=
  let! path := get_arg 1 in
  match path with
  | Some value =>
    let! opened := call (sys_open value) in
    if negb (r_error opened =? ErrorNone) || (r_value opened <? 3) then
      write_hex_line (al_name A) (txt "open error ") (r_error opened) ;; exit 2
    else digest_fd (r_value opened) value true
  | None => digest_fd StdinFd (txt "<stdin>") false
  end.

End program.

(** ** What the programs print *)

(** The counter of an algorithm after a number of bytes, with room for its line. *)
Record counts (A : Algorithm) (counter : Z -> al_counter A) : Prop := {
  co_sizes : (0 < al_length A < al_block A)%nat;
  co_zero : counter 0 = al_zero A;
  co_add : forall m n, 0 <= m -> 0 <= n < two64 -> al_add A n (counter m) = counter (m + n);
  co_field : forall n, length (al_field A (counter n)) = al_length A;
  co_name : nul_free (al_name A);
  co_line : zlen (al_name A) < 64 /\ al_line A <= 4096;
  co_buffer : 0 < al_buffer A <= 4096
}.

(** The descriptor a program digests, its label, and the kernel once it is open. *)
Inductive source {K} `{!Sys K} (k : K) : K -> Z -> list Z -> Prop :=
  | from_stdin k1 : sys_argument 1 k = (k1, None) -> source k k1 StdinFd (txt "<stdin>")
  | from_file k1 k2 path fd :
      sys_argument 1 k = (k1, Some path) -> sys_open path k1 = (k2, mkResult fd ErrorNone) -> 3 <= fd ->
      source k k2 fd path.

(** Two hexadecimal digits per byte. *)
Definition hex_bytes (bytes : list Z) : list Z :=
  concat ((fun b => [hex_char (b / 16 mod 16); hex_char (b mod 16)]) <$> bytes).

Lemma hex_bytes_nul_free bytes : nul_free (hex_bytes bytes).
Proof.
  induction bytes as [|b bytes IH]; [constructor|].
  pose proof (hex_char_range (b / 16)). pose proof (hex_char_range b). repeat constructor; [lia|lia|apply IH].
Qed.

Lemma hex_fold capacity digest : forall l,
  foldl (fun line b => append_char capacity (hex_digit b) (append_char capacity (hex_digit (Z.shiftr b 4)) line))
    (clip capacity l) digest = clip capacity (l ++ hex_bytes digest).
Proof.
  induction digest as [|b digest IH]; intros l; cbn [foldl]; [by rewrite app_nil_r|].
  rewrite !append_char_clip, IH, !hex_digit_char, Z.shiftr_div_pow2 by lia. by rewrite <-!app_assoc.
Qed.

Section printing.
Context (A : Algorithm) (counter : Z -> al_counter A) (HA : counts A counter).
Context {K : Type} `{!Sys K} `{!SysLaws K}.

Lemma wp_write_digest digest path (k : K) (Q : unit -> K -> Prop) E :
  good k -> nul_free path ->
  (forall k', wrote (clip (al_line A) (al_name A ++ hex_bytes digest ++ txt "  " ++ path) ++ [10]) k k' -> Q tt k') ->
  wp (write_digest A digest path) k Q E.
Proof.
  intros Hg Hp HQ. unfold write_digest. rewrite append_text_nil.
  rewrite hex_fold, !append_text_clip, (until_nul_id path), (until_nul_id (al_name A)) by (done || apply HA).
  apply wp_write_clip; [done| |apply HA|by rewrite <-!app_assoc].
  repeat apply Forall_app_2; [apply HA|apply hex_bytes_nul_free|by apply nul_freeb_ok|done].
Qed.

(** The digest of a message under an algorithm, by the specification. *)
Definition message_digest (msg : list Z) : list Z :=
  al_digest A (hash (al_block A) (al_transform A) (al_initial A) (al_field A (counter (zlen msg))) msg).

(** The two lines a program prints about a message. *)
Definition report (msg label : list Z) : list Z :=
  clip (al_line A) (al_name A ++ hex_bytes (message_digest msg) ++ txt "  " ++ label) ++ [10] ++
  al_name A ++ txt "bytes " ++ txt "0x" ++ hex64 (al_shown A (counter (zlen msg))) ++ [10].

Lemma wp_close_if close fd (k : K) (Q : unit -> K -> Prop) E :
  good k -> (forall k', good k' -> output k' = output k -> Q tt k') -> wp (close_if close fd) k Q E.
Proof.
  intros Hg HQ. destruct close; [|by apply wp_ret, HQ]. apply wp_bind.
  pose proof (close_law fd k Hg) as [Hg' Ho]. destruct (sys_close fd k) as [k' r] eqn:Hs.
  eapply wp_call; [done|]. by apply wp_ret, HQ.
Qed.

(** The loop over the reads has absorbed what the input lost. *)
Definition progress (fd : Z) (k : K) (c : Context (al_state A) (al_counter A)) (k' : K) : Prop :=
  good k' /\ output k' = output k /\ exists msg, input fd k = msg ++ input fd k' /\
    absorbed (al_block A) (al_transform A) (al_initial A) msg c /\ c_bytes c = counter (zlen msg).

Lemma progress_update fd k c k1 k2 data :
  progress fd k c k1 -> good k2 -> output k2 = output k1 -> zlen data < two64 -> input fd k1 = data ++ input fd k2 ->
  progress fd k (update (al_block A) (al_transform A) (al_add A) data c) k2.
Proof.
  intros (Hg & Ho & msg & Hi & Ha & Hc) Hg2 Ho2 Hz Hd. split_and!; [done|by rewrite Ho2|].
  exists (msg ++ data). split_and!.
  - by rewrite Hi, Hd, app_assoc.
  - apply (update_absorbed _ (al_length A)); [apply HA|done].
  - rewrite update_bytes, Hc, (co_add _ _ HA) by (unfold zlen in *; lia). f_equal. unfold zlen. rewrite length_app. lia.
Qed.

(** The end of the program, when the whole input is absorbed. *)
Lemma wp_report fd label close c (k k1 k2 : K) (E : Z -> K -> Prop) :
  progress fd k c k1 -> input fd k1 = [] -> good k2 -> output k2 = output k1 -> nul_free label ->
  (forall k', output k' = output k ++ report (input fd k) label -> E 0 k') ->
  wp (close_if close fd ;;
      write_digest A (al_digest A (finish (al_block A) (al_length A) (al_transform A) (al_field A) c)) label ;;
      write_hex_line (al_name A) (txt "bytes ") (al_shown A (c_bytes c)) ;;
      exit 0) k2 (fun (_ : unit) _ => False) E.
Proof.
  intros (_ & Ho & msg & Hi & Ha & Hc) Hend Hg2 Ho2 Hl HE. rewrite Hend, app_nil_r in Hi.
  apply wp_bind, wp_close_if; [done|]. intros k3 Hg3 Ho3.
  apply wp_bind, wp_write_digest; [done..|]. intros k4 H4.
  apply wp_bind, wp_write_hex_line; [apply H4|apply HA|by apply nul_freeb_ok|..].
  { pose proof (co_line _ _ HA). change (zlen (txt "bytes ")) with 6. lia. }
  intros k5 H5. apply wp_exit, HE. pose proof (wrote_trans _ _ _ _ _ H4 H5) as (_ & Ho5 & _).
  rewrite Ho5, Ho3, Ho2, Ho. f_equal. unfold report, message_digest.
  rewrite (finish_hash _ _ _ _ _ ltac:(apply HA) msg) by (try rewrite Hc; try apply HA; done).
  by rewrite Hc, Hi, <-app_assoc.
Qed.

Lemma wp_digest_fd fd label close (k : K) (E : Z -> K -> Prop) :
  good k -> nul_free label ->
  (forall k', output k' = output k ++ report (input fd k) label -> E 0 k') ->
  wp (digest_fd A fd label close) k (fun _ _ => False) E.
Proof.
  intros Hg Hl HE. unfold digest_fd. apply wp_bind.
  apply (wp_iter _ (progress fd k) (fun _ k' => length (input fd k')) (fun _ _ => 0%nat)).
  2: { split_and!; [done..|]. exists []. split_and!; [done|by apply (absorbed_init _ (al_length A)), HA|symmetry; apply HA]. }
  intros c k1 Hp. apply wp_bind, wp_read_blocking; [apply Hp|apply HA|].
  intros [r data] k2 (Hg2 & Ho2 & Hx). cbn in Hx. destruct Hx as [(Hend & Hv & He)|(-> & Hz & Hin)].
  - destruct r as [v e]. cbn [r_value r_error] in *. subst v.
    destruct He as [-> | ->]; cbn; apply wp_ret; by apply (wp_report fd label close c k k1).
  - cbn. destruct (Z.eqb_spec (zlen data) 0) as [|_]; [lia|]. apply wp_ret.
    split; [|left; rewrite Hin, length_app; unfold zlen in Hz; lia].
    apply (progress_update fd k c k1); [done..| |done]. pose proof (co_buffer _ _ HA). unfold two64. lia.
Qed.

(** The whole program, on a descriptor it can open. *)
Lemma wp_digest_main (k k1 : K) fd label (E : Z -> K -> Prop) :
  good k -> source k k1 fd label -> nul_free label ->
  (forall k', output k' = output k ++ report (input fd k1) label -> E 0 k') ->
  wp (digest_main A) k (fun _ _ => False) E.
Proof.
  intros Hg Hs Hl HE. apply wp_bind.
  destruct Hs as [k1 Harg|k0 k1 path fd Harg Hopen Hfd]; (eapply wp_call; [done|]); cbn.
  - pose proof (argument_law 1 k Hg) as (Hg1 & Ho1 & _). rewrite Harg in Hg1, Ho1. cbn in Hg1, Ho1.
    apply wp_digest_fd; [done..|]. intros k' Hk'. apply HE. by rewrite Hk', Ho1.
  - pose proof (argument_law 1 k Hg) as (Hg0 & Ho0 & _). rewrite Harg in Hg0, Ho0.
    pose proof (open_law path k0 Hg0) as [Hg1 Ho1]. rewrite Hopen in Hg1, Ho1. cbn in Hg1, Ho1, Ho0.
    apply wp_bind. eapply wp_call; [done|]. cbn. destruct (Z.ltb_spec fd 3); [lia|].
    apply wp_digest_fd; [done..|]. intros k' Hk'. apply HE. by rewrite Hk', Ho1, Ho0.
Qed.

End printing.
