(* ===== verification/DigestSpec.v ===== *)
(** * The digest standards

    FIPS 180-4 (SHA-1, SHA-224, SHA-256, SHA-384, SHA-512) and RFC 1321 (MD5), as the
    texts define them: the word functions bit by bit, the round constants of SHA-2 as
    the fractional parts of roots of primes, the message schedule by its recurrence.
    The programs that compute them are in Sha2 and Md5; nothing here is taken from
    their code. *)

From S2P Require Import Prelude.
#[local] Open Scope Z_scope.

(** ** Words bit by bit *)

(** The word of [w] bits whose bit [i] is [f i]. *)
Fixpoint of_bits (w : nat) (f : Z -> bool) : Z :=
  match w with
  | O => 0
  | S w' => of_bits w' f + (if f (Z.of_nat w') then 2 ^ Z.of_nat w' else 0)
  end.

Section functions.
Context (w : nat).
Implicit Types x y z : Z.

(** Bit [i] of the result comes from bit [i + n] (or [i - n]), around the word. *)
Definition ROTR (n : Z) x : Z := of_bits w (fun i => Z.testbit x ((i + n) mod Z.of_nat w)).
Definition ROTL (n : Z) x : Z := of_bits w (fun i => Z.testbit x ((i - n) mod Z.of_nat w)).
Definition SHR (n : Z) x : Z := x / 2 ^ n.
Definition Ch x y z : Z := of_bits w (fun i => if Z.testbit x i then Z.testbit y i else Z.testbit z i).
Definition Parity x y z : Z := of_bits w (fun i => xorb (Z.testbit x i) (xorb (Z.testbit y i) (Z.testbit z i))).
(** At least two of the three bits. *)
Definition Maj x y z : Z := of_bits w (fun i =>
  if Z.testbit x i then Z.testbit y i || Z.testbit z i else Z.testbit y i && Z.testbit z i).
(** Addition of words. *)
Definition sum (xs : list Z) : Z := foldr Z.add 0 xs mod 2 ^ Z.of_nat w.
End functions.

(** A word from its bytes, most significant first, and back. *)
Definition be_word (bytes : list Z) : Z := foldl (fun v b => 256 * v + b) 0 bytes.
Definition be_bytes (n : nat) (v : Z) : list Z := (fun i => v / 256 ^ (Z.of_nat (n - 1 - i)) mod 256) <$> seq 0 n.
(** The same, least significant first. *)
Definition le_word (bytes : list Z) : Z := foldr (fun b v => b + 256 * v) 0 bytes.
Definition le_bytes_of (n : nat) (v : Z) : list Z := (fun i => v / 256 ^ (Z.of_nat i) mod 256) <$> seq 0 n.

(** The [i]th word of [n] bytes of a block. *)
Definition word_at (n i : nat) (block : list Z) : list Z := take n (drop (i * n) block).

(** ** Roots of primes *)

(** No divisor from 2 to the square root. *)
Definition is_prime (p : Z) : bool := forallb (fun d => negb (p mod d =? 0)) (seqZ 2 (Z.sqrt p - 1)).
Definition primes (n : nat) : list Z := take n (List.filter is_prime (seqZ 2 410)).

(** The largest [r] below [2 ^ bits] with [r ^ k <= n]. *)
Definition iroot (k bits n : Z) : Z :=
  foldl (fun r i => if (r + 2 ^ i) ^ k <=? n then r + 2 ^ i else r) 0 (reverse (seqZ 0 bits)).

(** The first [bits] bits of the fractional part of the [k]th root of [p], which is
    below 8. *)
Definition root_fraction (k bits p : Z) : Z := iroot k (bits + 3) (p * 2 ^ (k * bits)) mod 2 ^ bits.

(** ** Facts about words *)

Lemma of_bits_range w f : 0 <= of_bits w f < 2 ^ Z.of_nat w.
Proof.
  induction w as [|w IH]; [done|]. cbn [of_bits]. rewrite Nat2Z.inj_succ, Z.pow_succ_r by lia.
  destruct (f (Z.of_nat w)); lia.
Qed.

Lemma of_bits_testbit w f i : 0 <= i < Z.of_nat w -> Z.testbit (of_bits w f) i = f i.
Proof.
  induction w as [|w IH]; intros Hi; [lia|]. cbn [of_bits]. pose proof (of_bits_range w f) as Hr.
  destruct (decide (i = Z.of_nat w)) as [->|].
  - rewrite Z.testbit_odd, Z.shiftr_div_pow2 by lia. destruct (f (Z.of_nat w)).
    + replace (of_bits w f + 2 ^ Z.of_nat w) with (1 * 2 ^ Z.of_nat w + of_bits w f) by lia.
      rewrite Z.div_add_l, Z.div_small by lia. done.
    + rewrite Z.add_0_r, Z.div_small by lia. done.
  - rewrite <-IH by lia. destruct (f (Z.of_nat w)); [|by rewrite Z.add_0_r].
    rewrite <-(Z.mod_pow2_bits_low _ (Z.of_nat w)), <-(Z.mod_pow2_bits_low (of_bits w f) (Z.of_nat w)) by lia.
    f_equal. replace (of_bits w f + 2 ^ Z.of_nat w) with (of_bits w f + 1 * 2 ^ Z.of_nat w) by lia.
    by rewrite Z.mod_add by lia.
Qed.

Lemma word_testbit_high w x i : 0 <= x < 2 ^ w -> 0 <= w <= i -> Z.testbit x i = false.
Proof. intros Hx Hi. rewrite <-(Z.mod_small x (2 ^ w)) by done. apply Z.mod_pow2_bits_high. lia. Qed.

Lemma eq_of_bits w x f :
  0 <= x < 2 ^ Z.of_nat w -> (forall i, 0 <= i < Z.of_nat w -> Z.testbit x i = f i) -> x = of_bits w f.
Proof.
  intros Hx Hf. apply Z.bits_inj'. intros i Hi. destruct (decide (i < Z.of_nat w)).
  - rewrite of_bits_testbit by lia. apply Hf. lia.
  - rewrite !(word_testbit_high (Z.of_nat w)); [done|apply of_bits_range|lia|done|lia].
Qed.

(** A number below [2 ^ w] has no bit at [w] or above. *)
Lemma bits_range w x : 0 <= x -> 0 <= w -> (forall i, w <= i -> Z.testbit x i = false) -> x < 2 ^ w.
Proof.
  intros Hx Hw Hb. rewrite (Z.div_mod x (2 ^ w)) by lia.
  assert (Hq : x / 2 ^ w = 0).
  { apply Z.bits_inj'. intros i Hi. rewrite Z.div_pow2_bits, Z.bits_0 by lia. apply Hb. lia. }
  rewrite Hq. pose proof (Z.mod_pos_bound x (2 ^ w) ltac:(lia)). lia.
Qed.

(** The shifts and masks of the code against the functions above. *)
Section code_words.
Context (w : nat).
#[local] Abbreviation W := (Z.of_nat w).
Implicit Types x y z n : Z.

Lemma lor_range x y : 0 <= x < 2 ^ W -> 0 <= y < 2 ^ W -> 0 <= Z.lor x y < 2 ^ W.
Proof.
  intros Hx Hy. assert (0 <= Z.lor x y) by (apply Z.lor_nonneg; lia). split; [done|].
  apply bits_range; [done|lia|]. intros i Hi. rewrite Z.lor_spec.
  by rewrite (word_testbit_high W x), (word_testbit_high W y) by lia.
Qed.

Lemma land_range x y : 0 <= x < 2 ^ W -> 0 <= y -> 0 <= Z.land x y < 2 ^ W.
Proof.
  intros Hx Hy. assert (0 <= Z.land x y) by (apply Z.land_nonneg; lia). split; [done|].
  apply bits_range; [done|lia|]. intros i Hi. rewrite Z.land_spec. by rewrite (word_testbit_high W x) by lia.
Qed.

Lemma lxor_range x y : 0 <= x < 2 ^ W -> 0 <= y < 2 ^ W -> 0 <= Z.lxor x y < 2 ^ W.
Proof.
  intros Hx Hy. assert (0 <= Z.lxor x y) by (apply Z.lxor_nonneg; lia). split; [done|].
  apply bits_range; [done|lia|]. intros i Hi. rewrite Z.lxor_spec.
  by rewrite (word_testbit_high W x), (word_testbit_high W y) by lia.
Qed.

Lemma shiftr_range x n : 0 <= x < 2 ^ W -> 0 <= n -> 0 <= Z.shiftr x n < 2 ^ W.
Proof.
  intros Hx Hn. rewrite Z.shiftr_div_pow2 by done. split; [apply Z.div_pos; lia|].
  apply Z.div_lt_upper_bound; nia.
Qed.

(** [(x >> n) | (x << (w - n))] on a word. *)
Lemma rotate_testbit x n i : 0 <= x < 2 ^ W -> 0 < n < W -> 0 <= i < W ->
  Z.testbit (Z.lor (Z.shiftr x n) (Z.shiftl x (W - n) mod 2 ^ W)) i = Z.testbit x ((i + n) mod W).
Proof.
  intros Hx Hn Hi. rewrite Z.lor_spec, Z.shiftr_spec, Z.mod_pow2_bits_low, Z.shiftl_spec by lia.
  destruct (decide (i + n < W)).
  - rewrite (Z.mod_small (i + n)) by lia. rewrite (Z.testbit_neg_r x (i - (W - n))) by lia. by rewrite orb_false_r.
  - rewrite (word_testbit_high W x (i + n)) by lia. simpl. f_equal.
    apply (Z.mod_unique _ _ 1); lia.
Qed.

Lemma rotate_range x n : 0 <= x < 2 ^ W -> 0 < n < W ->
  0 <= Z.lor (Z.shiftr x n) (Z.shiftl x (W - n) mod 2 ^ W) < 2 ^ W.
Proof.
  intros Hx Hn. apply lor_range; [apply shiftr_range; lia|]. apply Z.mod_pos_bound. lia.
Qed.

Lemma rotr_ROTR x n : 0 <= x < 2 ^ W -> 0 < n < W ->
  Z.lor (Z.shiftr x n) (Z.shiftl x (W - n) mod 2 ^ W) = ROTR w n x.
Proof. intros Hx Hn. apply eq_of_bits; [by apply rotate_range|]. intros i Hi. by apply rotate_testbit. Qed.

(** [(x << n) | (x >> (w - n))] on a word. *)
Lemma rotl_ROTL x n : 0 <= x < 2 ^ W -> 0 < n < W ->
  Z.lor (Z.shiftl x n mod 2 ^ W) (Z.shiftr x (W - n)) = ROTL w n x.
Proof.
  intros Hx Hn. replace n with (W - (W - n)) at 1 by lia. rewrite Z.lor_comm.
  apply eq_of_bits; [apply rotate_range; lia|]. intros i Hi. rewrite rotate_testbit by lia. f_equal.
  replace (i + (W - n)) with (i - n + 1 * W) by lia. by rewrite Z.mod_add by lia.
Qed.

Lemma testbit_notw x i : 0 <= x < 2 ^ W -> 0 <= i < W -> Z.testbit (2 ^ W - 1 - x) i = negb (Z.testbit x i).
Proof.
  intros Hx Hi. rewrite <-Z.lnot_spec by lia. rewrite <-(Z.mod_pow2_bits_low (Z.lnot x) W) by lia. f_equal.
  apply Z.mod_unique with (q := -1); unfold Z.lnot; lia.
Qed.

Lemma ch_Ch x y z : 0 <= x < 2 ^ W -> 0 <= y < 2 ^ W -> 0 <= z < 2 ^ W ->
  Z.lxor (Z.land x y) (Z.land (2 ^ W - 1 - x) z) = Ch w x y z.
Proof.
  intros Hx Hy Hz. apply eq_of_bits; [apply lxor_range; apply land_range; lia|]. intros i Hi.
  rewrite Z.lxor_spec, !Z.land_spec, testbit_notw by done. by destruct (Z.testbit x i), (Z.testbit y i), (Z.testbit z i).
Qed.

Lemma ch_or_Ch x y z : 0 <= x < 2 ^ W -> 0 <= y < 2 ^ W -> 0 <= z < 2 ^ W ->
  Z.lor (Z.land x y) (Z.land (2 ^ W - 1 - x) z) = Ch w x y z.
Proof.
  intros Hx Hy Hz. apply eq_of_bits; [apply lor_range; apply land_range; lia|]. intros i Hi.
  rewrite Z.lor_spec, !Z.land_spec, testbit_notw by done. by destruct (Z.testbit x i), (Z.testbit y i), (Z.testbit z i).
Qed.

Lemma maj_Maj x y z : 0 <= x < 2 ^ W -> 0 <= y < 2 ^ W -> 0 <= z < 2 ^ W ->
  Z.lxor (Z.lxor (Z.land x y) (Z.land x z)) (Z.land y z) = Maj w x y z.
Proof.
  intros Hx Hy Hz. apply eq_of_bits; [repeat apply lxor_range; apply land_range; lia|]. intros i Hi.
  rewrite !Z.lxor_spec, !Z.land_spec. by destruct (Z.testbit x i), (Z.testbit y i), (Z.testbit z i).
Qed.

Lemma maj_or_Maj x y z : 0 <= x < 2 ^ W -> 0 <= y < 2 ^ W -> 0 <= z < 2 ^ W ->
  Z.lor (Z.lor (Z.land x y) (Z.land x z)) (Z.land y z) = Maj w x y z.
Proof.
  intros Hx Hy Hz. apply eq_of_bits; [repeat apply lor_range; apply land_range; lia|]. intros i Hi.
  rewrite !Z.lor_spec, !Z.land_spec. by destruct (Z.testbit x i), (Z.testbit y i), (Z.testbit z i).
Qed.

Lemma xor_Parity x y z : 0 <= x < 2 ^ W -> 0 <= y < 2 ^ W -> 0 <= z < 2 ^ W ->
  Z.lxor (Z.lxor x y) z = Parity w x y z.
Proof.
  intros Hx Hy Hz. apply eq_of_bits; [repeat apply lxor_range; lia|]. intros i Hi.
  rewrite !Z.lxor_spec. by destruct (Z.testbit x i), (Z.testbit y i), (Z.testbit z i).
Qed.

Lemma ROTR_range n x : 0 <= ROTR w n x < 2 ^ W.
Proof. apply of_bits_range. Qed.
Lemma ROTL_range n x : 0 <= ROTL w n x < 2 ^ W.
Proof. apply of_bits_range. Qed.
Lemma sum_range xs : 0 <= sum w xs < 2 ^ W.
Proof. apply Z.mod_pos_bound. lia. Qed.

End code_words.

(** ** Facts about bytes *)

Definition is_byte (b : Z) : Prop := 0 <= b < 256.

Lemma bytes_check l : forallb (fun b => (0 <=? b) && (b <? 256)) l = true -> Forall is_byte l.
Proof.
  intros H. apply Forall_forall. intros b Hb. rewrite forallb_forall in H. specialize (H b).
  rewrite <-list_elem_of_In in H. specialize (H Hb). bsimp. by split.
Qed.

Lemma be_word_app l b : be_word (l ++ [b]) = 256 * be_word l + b.
Proof. unfold be_word. by rewrite foldl_app. Qed.

Lemma be_word_range l : Forall is_byte l -> 0 <= be_word l < 256 ^ zlen l.
Proof.
  unfold zlen. induction l as [|b l IH] using rev_ind; intros Hl; [done|].
  apply Forall_app in Hl as [Hl Hb]. rewrite Forall_singleton in Hb. specialize (IH Hl).
  rewrite be_word_app, length_app, Nat2Z.inj_add, Z.pow_add_r by lia. change (Z.of_nat (length [b])) with 1.
  rewrite Z.pow_1_r. unfold is_byte in Hb. lia.
Qed.

Lemma word_at_length n i block : ((i + 1) * n <= length block)%nat -> length (word_at n i block) = n.
Proof. intros Hl. unfold word_at. rewrite length_take, length_drop. lia. Qed.

Lemma word_at_bytes n i block : Forall is_byte block -> Forall is_byte (word_at n i block).
Proof. intros Hb. by apply Forall_take, Forall_drop. Qed.

Lemma be_bytes_length n v : length (be_bytes n v) = n.
Proof. unfold be_bytes. by rewrite length_fmap, length_seq. Qed.

Lemma be_bytes_bytes n v : Forall is_byte (be_bytes n v).
Proof. apply Forall_fmap, Forall_true. intros i. apply Z.mod_pos_bound. lia. Qed.

Lemma be_bytes_lookup n v i :
  be_bytes n v !! i = if decide (i < n)%nat then Some (v / 256 ^ Z.of_nat (n - 1 - i) mod 256) else None.
Proof.
  unfold be_bytes. rewrite list_lookup_fmap. case_decide; [by rewrite lookup_seq_lt|by rewrite lookup_seq_ge by lia].
Qed.

Lemma byte_of_mod v e n : 0 <= e < n -> (v mod 256 ^ n) / 256 ^ e mod 256 = v / 256 ^ e mod 256.
Proof.
  intros He. rewrite (Z.mod_eq v) by (apply Z.pow_nonzero; lia).
  assert (Hp : 256 ^ n = 256 ^ (n - e - 1) * 256 * 256 ^ e).
  { rewrite <-Z.mul_assoc, <-(Z.pow_succ_r 256 e), <-Z.pow_add_r by lia. f_equal. lia. }
  replace (v - 256 ^ n * (v / 256 ^ n)) with (v + (- (256 ^ (n - e - 1) * (v / 256 ^ n)) * 256) * 256 ^ e).
  2: { generalize (v / 256 ^ n). intros q. rewrite Hp. ring. }
  rewrite Z.div_add, Z.mod_add; [done|lia|apply Z.pow_nonzero; lia].
Qed.

Lemma be_bytes_split m n v :
  be_bytes (m + n) v = be_bytes m (v / 256 ^ Z.of_nat n) ++ be_bytes n (v mod 256 ^ Z.of_nat n).
Proof.
  apply list_eq. intros j. rewrite lookup_app, !be_bytes_lookup, be_bytes_length.
  destruct (decide (j < m)%nat); [|destruct (decide (j < m + n)%nat)]; repeat case_decide; try lia; try done; f_equal.
  - rewrite Z.div_div, <-Z.pow_add_r by lia. do 3 f_equal. lia.
  - rewrite byte_of_mod by lia. do 3 f_equal. lia.
Qed.
