(* ===== verification/Sha2.v ===== *)
(** * SHA-2 (userland/src/sha224sum.cpp, sha256sum.cpp, sha384sum.cpp, sha512sum.cpp)

    The compression functions of the four programs, which differ in the width of a
    word, the constants and the rotations, and the programs themselves as instances
    of Digest.  Each compression function is shown equal to the one of DigestSpec, the
    tables to the roots of primes, and a program to print the digest of its input. *)

From stdpp Require Import strings.
From S2P Require Import Prelude UserLib Digest DigestSpec.
#[local] Open Scope Z_scope.

(** ** The code *)

(** The constants of one program: the width of a word, the number of rounds, the round
    table, and the rotations and shifts of [transform] in the order of the source. *)
Record Parameters := mkParameters {
  p_width : nat; p_rounds : nat; p_table : list Z;
  p_small0 : Z * Z * Z; p_small1 : Z * Z * Z; p_big1 : Z * Z * Z; p_big0 : Z * Z * Z;
  p_load : list Z -> Z
}.

Definition load_be32 (bytes : list Z) : Z :=
  Z.lor (Z.lor (Z.lor (Z.shiftl (nth 0 bytes 0) 24) (Z.shiftl (nth 1 bytes 0) 16)) (Z.shiftl (nth 2 bytes 0) 8))
    (nth 3 bytes 0).
Definition load_be64 (bytes : list Z) : Z :=
  for_each 8 (fun i value => Z.lor (w64 (Z.shiftl value 8)) (nth i bytes 0)) 0.

(** [for (i = 7; i >= 0; --i) { out[i] = value & 0xff; value >>= 8; }] *)
Definition store_be64 (value : Z) : list Z :=
  (for_each 8 (fun _ s => (Z.land s.2 255 :: s.1, Z.shiftr s.2 8)) ([], value)).1.

(** The tables by the rows of the source. *)
Definition kSha256Round : list Z := concat
  [[0x428a2f98; 0x71374491; 0xb5c0fbcf; 0xe9b5dba5; 0x3956c25b; 0x59f111f1; 0x923f82a4; 0xab1c5ed5];
   [0xd807aa98; 0x12835b01; 0x243185be; 0x550c7dc3; 0x72be5d74; 0x80deb1fe; 0x9bdc06a7; 0xc19bf174];
   [0xe49b69c1; 0xefbe4786; 0x0fc19dc6; 0x240ca1cc; 0x2de92c6f; 0x4a7484aa; 0x5cb0a9dc; 0x76f988da];
   [0x983e5152; 0xa831c66d; 0xb00327c8; 0xbf597fc7; 0xc6e00bf3; 0xd5a79147; 0x06ca6351; 0x14292967];
   [0x27b70a85; 0x2e1b2138; 0x4d2c6dfc; 0x53380d13; 0x650a7354; 0x766a0abb; 0x81c2c92e; 0x92722c85];
   [0xa2bfe8a1; 0xa81a664b; 0xc24b8b70; 0xc76c51a3; 0xd192e819; 0xd6990624; 0xf40e3585; 0x106aa070];
   [0x19a4c116; 0x1e376c08; 0x2748774c; 0x34b0bcb5; 0x391c0cb3; 0x4ed8aa4a; 0x5b9cca4f; 0x682e6ff3];
   [0x748f82ee; 0x78a5636f; 0x84c87814; 0x8cc70208; 0x90befffa; 0xa4506ceb; 0xbef9a3f7; 0xc67178f2]].
Definition kSha512Round : list Z := concat
  [[0x428a2f98d728ae22; 0x7137449123ef65cd; 0xb5c0fbcfec4d3b2f; 0xe9b5dba58189dbbc];
   [0x3956c25bf348b538; 0x59f111f1b605d019; 0x923f82a4af194f9b; 0xab1c5ed5da6d8118];
   [0xd807aa98a3030242; 0x12835b0145706fbe; 0x243185be4ee4b28c; 0x550c7dc3d5ffb4e2];
   [0x72be5d74f27b896f; 0x80deb1fe3b1696b1; 0x9bdc06a725c71235; 0xc19bf174cf692694];
   [0xe49b69c19ef14ad2; 0xefbe4786384f25e3; 0x0fc19dc68b8cd5b5; 0x240ca1cc77ac9c65];
   [0x2de92c6f592b0275; 0x4a7484aa6ea6e483; 0x5cb0a9dcbd41fbd4; 0x76f988da831153b5];
   [0x983e5152ee66dfab; 0xa831c66d2db43210; 0xb00327c898fb213f; 0xbf597fc7beef0ee4];
   [0xc6e00bf33da88fc2; 0xd5a79147930aa725; 0x06ca6351e003826f; 0x142929670a0e6e70];
   [0x27b70a8546d22ffc; 0x2e1b21385c26c926; 0x4d2c6dfc5ac42aed; 0x53380d139d95b3df];
   [0x650a73548baf63de; 0x766a0abb3c77b2a8; 0x81c2c92e47edaee6; 0x92722c851482353b];
   [0xa2bfe8a14cf10364; 0xa81a664bbc423001; 0xc24b8b70d0f89791; 0xc76c51a30654be30];
   [0xd192e819d6ef5218; 0xd69906245565a910; 0xf40e35855771202a; 0x106aa07032bbd1b8];
   [0x19a4c116b8d2d0c8; 0x1e376c085141ab53; 0x2748774cdf8eeb99; 0x34b0bcb5e19b48a8];
   [0x391c0cb3c5c95a63; 0x4ed8aa4ae3418acb; 0x5b9cca4f7763e373; 0x682e6ff3d6b2b8a3];
   [0x748f82ee5defb2fc; 0x78a5636f43172f60; 0x84c87814a1f0ab72; 0x8cc702081a6439ec];
   [0x90befffa23631e28; 0xa4506cebde82bde9; 0xbef9a3f7b2c67915; 0xc67178f2e372532b];
   [0xca273eceea26619c; 0xd186b8c721c0c207; 0xeada7dd6cde0eb1e; 0xf57d4f7fee6ed178];
   [0x06f067aa72176fba; 0x0a637dc5a2c898a6; 0x113f9804bef90dae; 0x1b710b35131c471b];
   [0x28db77f523047d84; 0x32caab7b40c72493; 0x3c9ebe0a15c9bebc; 0x431d67c49c100d4c];
   [0x4cc5d4becb3e42b6; 0x597f299cfc657e2a; 0x5fcb6fab3ad6faec; 0x6c44198c4a475817]].
Definition kSha256Initial : list Z := [0x6a09e667; 0xbb67ae85; 0x3c6ef372; 0xa54ff53a;
   0x510e527f; 0x9b05688c; 0x1f83d9ab; 0x5be0cd19].
Definition kSha224Initial : list Z := [0xc1059ed8; 0x367cd507; 0x3070dd17; 0xf70e5939;
   0xffc00b31; 0x68581511; 0x64f98fa7; 0xbefa4fa4].
Definition kSha512Initial : list Z :=
  [0x6a09e667f3bcc908; 0xbb67ae8584caa73b; 0x3c6ef372fe94f82b; 0xa54ff53a5f1d36f1;
   0x510e527fade682d1; 0x9b05688c2b3e6c1f; 0x1f83d9abfb41bd6b; 0x5be0cd19137e2179].
Definition kSha384Initial : list Z :=
  [0xcbbb9d5dc1059ed8; 0x629a292a367cd507; 0x9159015a3070dd17; 0x152fecd8f70e5939;
   0x67332667ffc00b31; 0x8eb44a8768581511; 0xdb0c2e0d64f98fa7; 0x47b5481dbefa4fa4].

Definition sha256_parameters : Parameters :=
  mkParameters 32 64 kSha256Round (7, 18, 3) (17, 19, 10) (6, 11, 25) (2, 13, 22) load_be32.
Definition sha512_parameters : Parameters :=
  mkParameters 64 80 kSha512Round (1, 8, 7) (19, 61, 6) (14, 18, 41) (28, 34, 39) load_be64.

Section transform.
Context (P : Parameters).

(** Unsigned arithmetic on words of the program's width. *)
Definition wrap (z : Z) : Z := z mod 2 ^ Z.of_nat (p_width P).
Definition not_word (z : Z) : Z := 2 ^ Z.of_nat (p_width P) - 1 - z.

Definition rotr (value bits : Z) : Z :=
  Z.lor (Z.shiftr value bits) (wrap (Z.shiftl value (Z.of_nat (p_width P) - bits))).

(** [rotr(v, r) ^ rotr(v, s) ^ (v >> t)] and [rotr(v, r) ^ rotr(v, s) ^ rotr(v, t)] *)
Definition mix_shift (c : Z * Z * Z) (v : Z) : Z :=
  Z.lxor (Z.lxor (rotr v c.1.1) (rotr v c.1.2)) (Z.shiftr v c.2).
Definition mix_rotate (c : Z * Z * Z) (v : Z) : Z :=
  Z.lxor (Z.lxor (rotr v c.1.1) (rotr v c.1.2)) (rotr v c.2).

(** The loop over [w[16]] and what follows. *)
Definition extend (i : nat) (w : list Z) : list Z :=
  let s0 := mix_shift (p_small0 P) (nth (i - 15) w 0) in
  let s1 := mix_shift (p_small1 P) (nth (i - 2) w 0) in
  w ++ [wrap (nth (i - 16) w 0 + s0 + nth (i - 7) w 0 + s1)].
Definition schedule (block : list Z) : list Z :=
  let size := (p_width P / 8)%nat in
  let w := (fun i => p_load P (take size (drop (i * size) block))) <$> seq 0 16 in
  foldl (fun w i => extend i w) w (seq 16 (p_rounds P - 16)).

Definition vars : Type := Z * Z * Z * Z * Z * Z * Z * Z.

Definition round (w : list Z) (i : nat) (v : vars) : vars :=
  let '(a, b, c, d, e, f, g, h) := v in
  let s1 := mix_rotate (p_big1 P) e in
  let ch := Z.lxor (Z.land e f) (Z.land (not_word e) g) in
  let temp1 := wrap (h + s1 + ch + nth i (p_table P) 0 + nth i w 0) in
  let s0 := mix_rotate (p_big0 P) a in
  let maj := Z.lxor (Z.lxor (Z.land a b) (Z.land a c)) (Z.land b c) in
  let temp2 := wrap (s0 + maj) in
  (wrap (temp1 + temp2), a, b, c, wrap (d + temp1), e, f, g).

(** [ctx.state] is an array of eight words. *)
Definition transform (state : list Z) (block : list Z) : list Z :=
  let w := schedule block in
  let s i := nth i state 0 in
  let '(a, b, c, d, e, f, g, h) :=
    for_each (p_rounds P) (round w) (s 0%nat, s 1%nat, s 2%nat, s 3%nat, s 4%nat, s 5%nat, s 6%nat, s 7%nat) in
  [wrap (s 0%nat + a); wrap (s 1%nat + b); wrap (s 2%nat + c); wrap (s 3%nat + d);
   wrap (s 4%nat + e); wrap (s 5%nat + f); wrap (s 6%nat + g); wrap (s 7%nat + h)].

End transform.

(** The byte counters: one 64-bit word, or two with a carry. *)
Definition add_bytes64 (length bytes : Z) : Z := w64 (bytes + length).
Definition add_bytes128 (length : Z) (bytes : Z * Z) : Z * Z :=
  let old := bytes.1 in
  let bytes_low := w64 (old + length) in
  (bytes_low, if bytes_low <? old then inc64 bytes.2 else bytes.2).

(** The length field that [finish] stores. *)
Definition length_field64 (bytes : Z) : list Z := store_be64 (w64 (bytes * 8)).
Definition length_field128 (bytes : Z * Z) : list Z :=
  let bit_low := w64 (Z.shiftl bytes.1 3) in
  let bit_high := Z.lor (w64 (Z.shiftl bytes.2 3)) (Z.shiftr bytes.1 61) in
  store_be64 bit_high ++ store_be64 bit_low.

(** The first [n] words of the state as bytes. *)
Definition digest32 (n : nat) (state : list Z) : list Z :=
  concat ((fun i => let s := nth i state 0 in [w8 (Z.shiftr s 24); w8 (Z.shiftr s 16); w8 (Z.shiftr s 8); w8 s]) <$> seq 0 n).
Definition digest64 (n : nat) (state : list Z) : list Z :=
  concat ((fun i => store_be64 (nth i state 0)) <$> seq 0 n).

Definition sha224sum : Algorithm :=
  mkAlgorithm _ _ 64 8 kSha224Initial 0 (transform sha256_parameters) add_bytes64 length_field64 (digest32 7) id
    (txt "[sha224sum] ") 128 32.
Definition sha256sum : Algorithm :=
  mkAlgorithm _ _ 64 8 kSha256Initial 0 (transform sha256_parameters) add_bytes64 length_field64 (digest32 8) id
    (txt "[sha256sum] ") 128 32.
Definition sha384sum : Algorithm :=
  mkAlgorithm _ _ 128 16 kSha384Initial (0, 0) (transform sha512_parameters) add_bytes128 length_field128 (digest64 6) fst
    (txt "[sha384sum] ") 160 64.
Definition sha512sum : Algorithm :=
  mkAlgorithm _ _ 128 16 kSha512Initial (0, 0) (transform sha512_parameters) add_bytes128 length_field128 (digest64 8) fst
    (txt "[sha512sum] ") 192 64.

(** ** The standard *)

Module Fips.

(** Section 4.1 of the standard: the functions of the two word widths, by their
    rotations, with the number of rounds and the bytes of a word. *)
Inductive family := Words32 | Words64.
Definition width (F : family) : nat := match F with Words32 => 32 | Words64 => 64 end.
Definition rounds (F : family) : nat := match F with Words32 => 64 | Words64 => 80 end.
Definition Sigma0 (F : family) (x : Z) : Z := let R := ROTR (width F) in
  match F with
  | Words32 => Z.lxor (R 2 x) (Z.lxor (R 13 x) (R 22 x))
  | Words64 => Z.lxor (R 28 x) (Z.lxor (R 34 x) (R 39 x))
  end.
Definition Sigma1 (F : family) (x : Z) : Z := let R := ROTR (width F) in
  match F with
  | Words32 => Z.lxor (R 6 x) (Z.lxor (R 11 x) (R 25 x))
  | Words64 => Z.lxor (R 14 x) (Z.lxor (R 18 x) (R 41 x))
  end.
Definition sigma0 (F : family) (x : Z) : Z := let R := ROTR (width F) in
  match F with
  | Words32 => Z.lxor (R 7 x) (Z.lxor (R 18 x) (SHR 3 x))
  | Words64 => Z.lxor (R 1 x) (Z.lxor (R 8 x) (SHR 7 x))
  end.
Definition sigma1 (F : family) (x : Z) : Z := let R := ROTR (width F) in
  match F with
  | Words32 => Z.lxor (R 17 x) (Z.lxor (R 19 x) (SHR 10 x))
  | Words64 => Z.lxor (R 19 x) (Z.lxor (R 61 x) (SHR 6 x))
  end.

(** Section 4.2: cube roots of the first primes. *)
Definition K (F : family) : list Z := root_fraction 3 (Z.of_nat (width F)) <$> primes (rounds F).

(** Section 6.2.2, step 1: the schedule of a block, by its recurrence. *)
Fixpoint W (fuel : nat) (F : family) (block : list Z) (t : nat) : Z :=
  match fuel with
  | O => 0
  | S fuel =>
    if decide (t < 16)%nat then be_word (word_at (width F / 8) t block)
    else sum (width F) [sigma1 F (W fuel F block (t - 2)); W fuel F block (t - 7);
                        sigma0 F (W fuel F block (t - 15)); W fuel F block (t - 16)]
  end.

(** Steps 2 to 4: the working variables and the new hash value. *)
Definition step (F : family) (block : list Z) (v : vars) (t : nat) : vars :=
  let '(a, b, c, d, e, f, g, h) := v in
  let T1 := sum (width F) [h; Sigma1 F e; Ch (width F) e f g; nth t (K F) 0; W (S t) F block t] in
  let T2 := sum (width F) [Sigma0 F a; Maj (width F) a b c] in
  (sum (width F) [T1; T2], a, b, c, sum (width F) [d; T1], e, f, g).

Definition compress (F : family) (H : list Z) (block : list Z) : list Z :=
  match H with
  | [H0; H1; H2; H3; H4; H5; H6; H7] =>
    let '(a, b, c, d, e, f, g, h) := foldl (step F block) (H0, H1, H2, H3, H4, H5, H6, H7) (seq 0 (rounds F)) in
    let add x y := sum (width F) [x; y] in
    [add a H0; add b H1; add c H2; add d H3; add e H4; add f H5; add g H6; add h H7]
  | _ => []
  end.

(** The four functions: section 5.3 (initial values) and 6.2 to 6.5 (truncation). *)
Inductive variant := SHA224 | SHA256 | SHA384 | SHA512.
Definition family_of (v : variant) : family := match v with SHA224 | SHA256 => Words32 | _ => Words64 end.
Definition initial (v : variant) : list Z :=
  match v with
  | SHA256 => root_fraction 2 32 <$> primes 8
  | SHA512 => root_fraction 2 64 <$> primes 8
  | SHA384 => root_fraction 2 64 <$> drop 8 (primes 16)
  | SHA224 => (fun p => root_fraction 2 64 p mod 2 ^ 32) <$> drop 8 (primes 16)
  end.
Definition digest_size (v : variant) : nat := match v with SHA224 => 28 | SHA256 => 32 | SHA384 => 48 | SHA512 => 64 end.
Definition length_size (v : variant) : nat := match family_of v with Words32 => 8 | Words64 => 16 end.
Definition max_bits (v : variant) : Z := 2 ^ (8 * Z.of_nat (length_size v)).

Definition digest (v : variant) (msg : list Z) : list Z :=
  let F := family_of v in
  let H := hash (16 * (width F / 8)) (compress F) (initial v) (be_bytes (length_size v) (8 * zlen msg)) msg in
  take (digest_size v) (concat (be_bytes (width F / 8) <$> H)).

End Fips.

(** ** The code computes the standard *)

Definition params (F : Fips.family) : Parameters :=
  match F with Fips.Words32 => sha256_parameters | Fips.Words64 => sha512_parameters end.

Lemma sha256_table : kSha256Round = Fips.K Fips.Words32.
Proof. vm_compute. reflexivity. Qed.
Lemma sha512_table : kSha512Round = Fips.K Fips.Words64.
Proof. vm_compute. reflexivity. Qed.

Lemma params_table F : p_table (params F) = Fips.K F.
Proof. destruct F; [apply sha256_table|apply sha512_table]. Qed.

Definition word (F : Fips.family) (x : Z) : Prop := 0 <= x < 2 ^ Z.of_nat (Fips.width F).

Lemma params_width F : p_width (params F) = Fips.width F.
Proof. by destruct F. Qed.
Lemma params_rounds F : p_rounds (params F) = Fips.rounds F.
Proof. by destruct F. Qed.
Lemma wrap_sum F z xs : z = foldr Z.add 0 xs -> wrap (params F) z = sum (Fips.width F) xs.
Proof. intros ->. unfold wrap. by rewrite params_width. Qed.
Lemma sum_word F xs : word F (sum (Fips.width F) xs).
Proof. apply sum_range. Qed.

Lemma rotr_spec F x n : word F x -> 0 < n < Z.of_nat (Fips.width F) -> rotr (params F) x n = ROTR (Fips.width F) n x.
Proof. intros Hx Hn. unfold rotr, wrap. rewrite params_width. by apply rotr_ROTR. Qed.

(** The four mixing functions. *)
Ltac mixing F :=
  unfold mix_rotate, mix_shift; rewrite !(rotr_spec F) by first [assumption | destruct F; simpl; lia];
  rewrite Z.lxor_assoc, ?Z.shiftr_div_pow2 by (destruct F; simpl; lia); destruct F;
  cbv [params sha256_parameters sha512_parameters p_big0 p_big1 p_small0 p_small1 fst snd Fips.width
       Fips.Sigma0 Fips.Sigma1 Fips.sigma0 Fips.sigma1 SHR]; reflexivity.

Lemma big0_spec F x : word F x -> mix_rotate (params F) (p_big0 (params F)) x = Fips.Sigma0 F x.
Proof. intros Hx. mixing F. Qed.
Lemma big1_spec F x : word F x -> mix_rotate (params F) (p_big1 (params F)) x = Fips.Sigma1 F x.
Proof. intros Hx. mixing F. Qed.
Lemma small0_spec F x : word F x -> mix_shift (params F) (p_small0 (params F)) x = Fips.sigma0 F x.
Proof. intros Hx. mixing F. Qed.
Lemma small1_spec F x : word F x -> mix_shift (params F) (p_small1 (params F)) x = Fips.sigma1 F x.
Proof. intros Hx. mixing F. Qed.

(** Words of a block. *)
Lemma load_step v b n : 0 <= v < 2 ^ n -> 0 <= n <= 56 -> is_byte b -> Z.lor (w64 (Z.shiftl v 8)) b = 256 * v + b.
Proof.
  intros Hv Hn Hb. assert (2 ^ n <= 2 ^ 56) by (apply Z.pow_le_mono_r; lia).
  rewrite Z.shiftl_mul_pow2, w64_small by (unfold u64, two64; lia).
  rewrite (lor_add _ _ 8); [lia|lia|lia|exact Hb|]. rewrite Z.mod_mul by lia. done.
Qed.

Lemma load_be32_spec b0 b1 b2 b3 :
  Forall is_byte [b0; b1; b2; b3] -> load_be32 [b0; b1; b2; b3] = be_word [b0; b1; b2; b3].
Proof.
  rewrite !Forall_cons. unfold is_byte. intros (H0 & H1 & H2 & H3 & _). unfold load_be32, be_word. cbn [nth foldl].
  rewrite !Z.shiftl_mul_pow2 by lia.
  rewrite (lor_add (b0 * 2 ^ 24) _ 24) by (try lia; apply Z.mod_mul; lia).
  rewrite (lor_add _ (b2 * 2 ^ 8) 16) by (try lia; replace (b0 * 2 ^ 24 + b1 * 2 ^ 16) with ((b0 * 256 + b1) * 2 ^ 16) by lia; apply Z.mod_mul; lia).
  rewrite (lor_add _ b3 8) by (try lia; replace (b0 * 2 ^ 24 + b1 * 2 ^ 16 + b2 * 2 ^ 8) with ((b0 * 65536 + b1 * 256 + b2) * 2 ^ 8) by lia; apply Z.mod_mul; lia).
  lia.
Qed.

Lemma load_be64_spec bytes : length bytes = 8%nat -> Forall is_byte bytes -> load_be64 bytes = be_word bytes.
Proof.
  intros Hl Hb. unfold load_be64. replace (be_word bytes) with (be_word (take 8 bytes)) by (by rewrite take_ge by lia).
  apply (for_each_inv (fun i v => v = be_word (take i bytes))); [done|]. intros i v Hi ->.
  destruct (lookup_lt_is_Some_2 bytes i) as [b Hx]; [lia|].
  assert (Hbi : is_byte b) by (by eapply Forall_lookup_1).
  rewrite (take_S_r _ _ _ Hx), be_word_app, (nth_lookup_Some _ _ _ _ Hx).
  pose proof (be_word_range (take i bytes) ltac:(by apply Forall_take)) as Hr.
  unfold zlen in Hr. rewrite length_take, Nat.min_l in Hr by lia. change 256 with (2 ^ 8) in Hr.
  rewrite <-Z.pow_mul_r in Hr by lia. apply (load_step _ _ (8 * Z.of_nat i)); [done|lia|done].
Qed.

Lemma load_spec F bytes :
  length bytes = (Fips.width F / 8)%nat -> Forall is_byte bytes -> p_load (params F) bytes = be_word bytes.
Proof.
  intros Hl Hb. destruct F; [|by apply load_be64_spec].
  destruct bytes as [|b0 [|b1 [|b2 [|b3 [|]]]]]; try discriminate Hl. by apply load_be32_spec.
Qed.

(** The schedule. *)
Lemma W_fuel F block n : forall m t, (t < n)%nat -> (t < m)%nat -> Fips.W n F block t = Fips.W m F block t.
Proof.
  induction n as [|n IH]; intros m t Hn Hm; [lia|]. destruct m as [|m]; [lia|]. cbn [Fips.W].
  case_decide; [done|]. by rewrite !(IH m) by lia.
Qed.

Lemma W_recurrence F block t : (16 <= t)%nat ->
  Fips.W (S t) F block t =
  sum (Fips.width F) [Fips.sigma1 F (Fips.W (S (t - 2)) F block (t - 2)); Fips.W (S (t - 7)) F block (t - 7);
    Fips.sigma0 F (Fips.W (S (t - 15)) F block (t - 15)); Fips.W (S (t - 16)) F block (t - 16)].
Proof.
  intros Ht. rewrite (W_fuel F block (S (t - 2)) t), (W_fuel F block (S (t - 7)) t), (W_fuel F block (S (t - 15)) t),
    (W_fuel F block (S (t - 16)) t) by lia.
  generalize t at 1 3 5 7 9. intros n. cbn [Fips.W]. by rewrite decide_False by lia.
Qed.

Lemma W_word F block n t :
  length block = (16 * (Fips.width F / 8))%nat -> Forall is_byte block -> word F (Fips.W n F block t).
Proof.
  intros Hl Hb. destruct n as [|n]; cbn [Fips.W]; [split; [lia|apply Z.pow_pos_nonneg; lia]|].
  case_decide; [|apply sum_word].
  pose proof (be_word_range _ (word_at_bytes (Fips.width F / 8) t block Hb)) as Hr.
  unfold zlen in Hr. rewrite word_at_length in Hr by (rewrite Hl; apply Nat.mul_le_mono_r; lia).
  unfold word. replace (2 ^ Z.of_nat (Fips.width F)) with (256 ^ Z.of_nat (Fips.width F / 8)) by (by destruct F). done.
Qed.

Lemma schedule_spec F block t :
  length block = (16 * (Fips.width F / 8))%nat -> Forall is_byte block -> (t < Fips.rounds F)%nat ->
  nth t (schedule (params F) block) 0 = Fips.W (S t) F block t.
Proof.
  intros Hl Hb Ht. unfold schedule. rewrite params_width, params_rounds.
  set (w0 := _ <$> seq 0 16).
  assert (H0 : length w0 = 16%nat /\ forall t, (t < 16)%nat -> nth t w0 0 = Fips.W (S t) F block t).
  { unfold w0. rewrite length_fmap, length_seq. split; [done|]. intros i Hi.
    erewrite nth_lookup_Some; [|rewrite list_lookup_fmap, lookup_seq_lt by done; done]. cbn [Fips.W].
    rewrite decide_True by done. apply load_spec; [|by apply word_at_bytes].
    apply word_at_length. rewrite Hl. apply Nat.mul_le_mono_r. simpl. lia. }
  assert (Hinv : forall n, let w := foldl (fun w i => extend (params F) i w) w0 (seq 16 n) in
    length w = (16 + n)%nat /\ forall t, (t < 16 + n)%nat -> nth t w 0 = Fips.W (S t) F block t).
  { clear t Ht. induction n as [|n IH]; [exact H0|].
    rewrite seq_S, foldl_app. cbn [foldl]. destruct IH as [Hlen IH]. set (w := foldl _ w0 (seq 16 n)) in *.
    unfold extend. rewrite length_app, Hlen. split; [simpl; lia|]. intros t Ht.
    destruct (decide (t < 16 + n)%nat) as [Hlt|]; [rewrite app_nth1 by lia; by apply IH|].
    replace t with (16 + n)%nat by lia. rewrite app_nth2, Hlen, Nat.sub_diag by lia. cbn [nth].
    rewrite !IH by lia. rewrite small0_spec, small1_spec by by apply W_word.
    rewrite (W_recurrence F block (16 + n)) by lia. apply wrap_sum. cbn [foldr]. lia. }
  apply Hinv. destruct F; cbn [Fips.rounds] in *; lia.
Qed.

(** The rounds. *)
Definition vars_words (F : Fips.family) (v : vars) : Prop :=
  let '(a, b, c, d, e, f, g, h) := v in
  word F a /\ word F b /\ word F c /\ word F d /\ word F e /\ word F f /\ word F g /\ word F h.

Lemma round_spec F block i v :
  length block = (16 * (Fips.width F / 8))%nat -> Forall is_byte block -> (i < Fips.rounds F)%nat -> vars_words F v ->
  round (params F) (schedule (params F) block) i v = Fips.step F block v i /\ vars_words F (Fips.step F block v i).
Proof.
  intros Hl Hb Hi. destruct v as [[[[[[[a b] c] d] e] f] g] h]. intros (Ha & Hbb & Hc & Hd & He & Hf & Hg & Hh).
  unfold round, Fips.step, vars_words. rewrite schedule_spec, big1_spec, big0_spec, params_table by done.
  unfold not_word. rewrite params_width, ch_Ch, (maj_Maj (Fips.width F)) by done. split.
  2: { split_and!; try done; apply sum_word. }
  rewrite (wrap_sum F (h + _ + _ + _ + _) [h; Fips.Sigma1 F e; Ch (Fips.width F) e f g; nth i (Fips.K F) 0; Fips.W (S i) F block i])
    by (cbn [foldr]; lia).
  rewrite (wrap_sum F (Fips.Sigma0 F a + _) [Fips.Sigma0 F a; Maj (Fips.width F) a b c]) by (cbn [foldr]; lia).
  set (T1 := sum _ [h; _; _; _; _]). set (T2 := sum _ [_; Maj _ _ _ _]).
  by rewrite (wrap_sum F (T1 + T2) [T1; T2]), (wrap_sum F (d + T1) [d; T1]) by (cbn [foldr]; lia).
Qed.

Definition state_words (F : Fips.family) (H : list Z) : Prop := length H = 8%nat /\ Forall (word F) H.

Lemma transform_compress F H block :
  length block = (16 * (Fips.width F / 8))%nat -> Forall is_byte block -> state_words F H ->
  transform (params F) H block = Fips.compress F H block /\ state_words F (Fips.compress F H block).
Proof.
  intros Hl Hb [H8 HH]. destruct H as [|h0 [|h1 [|h2 [|h3 [|h4 [|h5 [|h6 [|h7 [|]]]]]]]]]; try discriminate H8.
  rewrite !Forall_cons in HH. destruct HH as (W0 & W1 & W2 & W3 & W4 & W5 & W6 & W7 & _).
  unfold transform, Fips.compress, for_each. cbn [nth]. rewrite params_rounds.
  assert (Hloop : forall n, (n <= Fips.rounds F)%nat ->
    let v := foldl (Fips.step F block) (h0, h1, h2, h3, h4, h5, h6, h7) (seq 0 n) in
    foldl (fun s i => round (params F) (schedule (params F) block) i s) (h0, h1, h2, h3, h4, h5, h6, h7) (seq 0 n) = v /\
    vars_words F v).
  { induction n as [|n IH]; intros Hn; [done|]. rewrite seq_S, !foldl_app. cbn [foldl].
    destruct (IH ltac:(lia)) as [-> Hv]. by apply round_spec; [..|lia|]. }
  destruct (Hloop (Fips.rounds F) ltac:(lia)) as [-> Hv].
  destruct (foldl (Fips.step F block) _ _) as [[[[[[[a b] c] d] e] f] g] h].
  split; [|split; [done|repeat constructor; apply sum_word]].
  by rewrite (wrap_sum F (h0 + a) [a; h0]), (wrap_sum F (h1 + b) [b; h1]), (wrap_sum F (h2 + c) [c; h2]),
    (wrap_sum F (h3 + d) [d; h3]), (wrap_sum F (h4 + e) [e; h4]), (wrap_sum F (h5 + f) [f; h5]),
    (wrap_sum F (h6 + g) [g; h6]), (wrap_sum F (h7 + h) [h; h7]) by (cbn [foldr]; lia).
Qed.

(** ** Counters and digests *)

Lemma store_be64_spec v : store_be64 v = be_bytes 8 v.
Proof.
  unfold store_be64, be_bytes, for_each. cbn [seq foldl fst snd fmap list_fmap].
  change 255 with (2 ^ 8 - 1). rewrite !Z.shiftr_shiftr, !land_low, !Z.shiftr_div_pow2 by lia.
  by rewrite Z.div_1_r.
Qed.

Lemma concat_words m n : forall H, (n <= length H)%nat ->
  concat ((fun i => be_bytes m (nth i H 0)) <$> seq 0 n) = take (n * m) (concat (be_bytes m <$> H)).
Proof.
  induction n as [|n IH]; intros H Hn; [done|]. destruct H as [|h H]; [simpl in Hn; lia|]. cbn [length] in Hn.
  change (seq 0 (S n)) with (0%nat :: seq 1 n). rewrite <-fmap_S_seq. cbn [fmap list_fmap concat nth].
  rewrite <-list_fmap_compose. replace (S n * m)%nat with (length (be_bytes m h) + n * m)%nat by (rewrite be_bytes_length; lia).
  rewrite take_app_add. f_equal. apply IH. lia.
Qed.

Lemma digest32_spec n H : (n <= length H)%nat -> digest32 n H = take (n * 4) (concat (be_bytes 4 <$> H)).
Proof.
  intros Hn. rewrite <-concat_words by done. unfold digest32. f_equal. apply list_fmap_ext. intros i x _.
  unfold be_bytes, w8. cbn [seq fmap list_fmap]. rewrite !Z.shiftr_div_pow2 by lia. by rewrite Z.div_1_r.
Qed.

Lemma digest64_spec n H : (n <= length H)%nat -> digest64 n H = take (n * 8) (concat (be_bytes 8 <$> H)).
Proof.
  intros Hn. rewrite <-concat_words by done. unfold digest64. f_equal. apply list_fmap_ext. intros i x _.
  apply store_be64_spec.
Qed.

(** The counters after a number of bytes. *)
Definition counter128 (n : Z) : Z * Z := (w64 n, w64 (n / two64)).

Lemma add_bytes64_spec m n : add_bytes64 n (w64 m) = w64 (m + n).
Proof. unfold add_bytes64, w64. by rewrite Zplus_mod_idemp_l. Qed.

Lemma add_bytes128_spec m n : 0 <= m -> 0 <= n < two64 -> add_bytes128 n (counter128 m) = counter128 (m + n).
Proof.
  intros Hm Hn. unfold add_bytes128, counter128. cbn [fst snd].
  assert (Hlow : w64 (w64 m + n) = w64 (m + n)) by (unfold w64; by rewrite Zplus_mod_idemp_l). rewrite Hlow. f_equal.
  pose proof (Z.div_mod m two64 ltac:(done)) as Hd. fold (w64 m) in Hd. pose proof (w64_range m) as Hr.
  unfold u64 in Hr. unfold inc64. destruct (Z.ltb_spec (w64 (m + n)) (w64 m)) as [Hlt|Hge].
  - assert (Hq : (m + n) / two64 = m / two64 + 1).
    { symmetry. apply (Z.div_unique _ _ _ (w64 m + n - two64)); [|lia]. left. split; [|lia].
      destruct (decide (w64 m + n < two64)) as [Hs|]; [|lia]. rewrite <-Hlow, w64_small in Hlt by (unfold u64; lia). lia. }
    rewrite Hq. unfold w64. by rewrite Zplus_mod_idemp_l.
  - assert (Hq : (m + n) / two64 = m / two64); [|by rewrite Hq].
    symmetry. apply (Z.div_unique _ _ _ (w64 m + n)); [|lia]. left. split; [lia|].
    destruct (decide (w64 m + n < two64)) as [|Hs]; [done|]. exfalso. rewrite <-Hlow in Hge. revert Hge.
    unfold w64 at 2. rewrite <-(Z_mod_plus_full _ (-1)), Z.mod_small by lia. lia.
Qed.

Lemma length_field64_spec n : 0 <= 8 * n < 2 ^ 64 -> length_field64 (w64 n) = be_bytes 8 (8 * n).
Proof. intros Hn. unfold length_field64. rewrite store_be64_spec, (w64_small n), w64_small by (unfold u64, two64; lia). f_equal. lia. Qed.

Lemma length_field128_spec n : 0 <= 8 * n < 2 ^ 128 -> length_field128 (counter128 n) = be_bytes 16 (8 * n).
Proof.
  intros Hn. unfold length_field128, counter128. cbn [fst snd]. rewrite !store_be64_spec.
  change 16%nat with (8 + 8)%nat. rewrite be_bytes_split. change (256 ^ Z.of_nat 8) with two64.
  pose proof (Z.div_mod n two64 ltac:(done)) as Hd. fold (w64 n) in Hd. pose proof (w64_range n) as Hr. unfold u64 in Hr.
  assert (Hhi : 0 <= n / two64 < 2 ^ 61) by (split; [apply Z.div_pos; [lia|done]|apply Z.div_lt_upper_bound; [done|unfold two64; lia]]).
  set (q := n / two64) in *. clearbody q. rewrite (w64_small q) by (unfold u64, two64; lia). f_equal.
  - f_equal. rewrite Z.shiftl_mul_pow2, Z.shiftr_div_pow2 by lia. rewrite w64_small by (unfold u64, two64; lia).
    assert (Hsh : 0 <= w64 n / 2 ^ 61 < 2 ^ 3) by (split; [apply Z.div_pos; lia|apply Z.div_lt_upper_bound; unfold two64 in *; lia]).
    rewrite (lor_add _ _ 3) by (try lia; apply Z.mod_mul; lia).
    apply (Z.div_unique _ _ _ ((8 * w64 n) mod two64)); [left; apply Z.mod_pos_bound; done|].
    assert (Hdd : w64 n / 2 ^ 61 = 8 * w64 n / two64) by (change two64 with (8 * 2 ^ 61); by rewrite Z.div_mul_cancel_l by lia).
    rewrite Hdd. pose proof (Z.div_mod (8 * w64 n) two64 ltac:(done)). lia.
  - f_equal. rewrite Z.shiftl_mul_pow2 by lia. unfold w64. rewrite Zmult_mod_idemp_l. f_equal. lia.
Qed.

(** ** The programs print the digests *)

Definition sha2sum (v : Fips.variant) : Algorithm :=
  match v with
  | Fips.SHA224 => sha224sum | Fips.SHA256 => sha256sum | Fips.SHA384 => sha384sum | Fips.SHA512 => sha512sum
  end.

Definition program_name (v : Fips.variant) : list Z :=
  match v with
  | Fips.SHA224 => txt "[sha224sum] " | Fips.SHA256 => txt "[sha256sum] "
  | Fips.SHA384 => txt "[sha384sum] " | Fips.SHA512 => txt "[sha512sum] "
  end.
Definition line_capacity (v : Fips.variant) : Z :=
  match v with Fips.SHA224 | Fips.SHA256 => 128 | Fips.SHA384 => 160 | Fips.SHA512 => 192 end.

Lemma sha2_initial v :
  match v with
  | Fips.SHA224 => kSha224Initial | Fips.SHA256 => kSha256Initial
  | Fips.SHA384 => kSha384Initial | Fips.SHA512 => kSha512Initial
  end = Fips.initial v.
Proof. destruct v; vm_compute; reflexivity. Qed.

Lemma initial_words v : state_words (Fips.family_of v) (Fips.initial v).
Proof.
  rewrite <-sha2_initial. set (init := match v with Fips.SHA224 => _ | _ => _ end).
  assert (Hb : forallb (fun x => (0 <=? x) && (x <? 2 ^ Z.of_nat (Fips.width (Fips.family_of v)))) init = true /\
    length init = 8%nat) by (destruct v; vm_compute; done).
  destruct Hb as [Hb Hl]. split; [done|]. apply Forall_forall. intros x Hx. rewrite forallb_forall in Hb.
  specialize (Hb x). rewrite <-list_elem_of_In in Hb. specialize (Hb Hx). bsimp. by split.
Qed.

(** The hash with the code's compression function is the standard's. *)
Lemma sha2_hash v field msg :
  Forall is_byte field -> Forall is_byte msg ->
  let F := Fips.family_of v in
  hash (16 * (Fips.width F / 8)) (transform (params F)) (Fips.initial v) field msg =
  hash (16 * (Fips.width F / 8)) (Fips.compress F) (Fips.initial v) field msg.
Proof.
  intros Hf Hm F. apply (hash_ext _ _ _ (state_words F) is_byte).
  - by destruct v; apply Nat.ltb_lt.
  - apply initial_words.
  - by apply pad_Forall.
  - intros s b Hs Hl Hb. by apply transform_compress.
Qed.

Lemma compress_length F H block : length H = 8%nat -> length (Fips.compress F H block) = 8%nat.
Proof.
  intros H8. destruct H as [|h0 [|h1 [|h2 [|h3 [|h4 [|h5 [|h6 [|h7 [|]]]]]]]]]; try discriminate H8.
  unfold Fips.compress. by destruct (foldl _ _ _) as [[[[[[[a b] c] d] e] f] g] h].
Qed.

Lemma sha2_hash_length v n field msg : length (hash n (Fips.compress (Fips.family_of v)) (Fips.initial v) field msg) = 8%nat.
Proof.
  unfold hash. generalize (blocks n (length (pad n field msg) / n) (pad n field msg)). intros bs.
  pose proof (proj1 (initial_words v)) as Hl. revert Hl. generalize (Fips.initial v). induction bs as [|b bs IH]; intros H Hl; [done|].
  cbn [foldl]. apply IH. by apply compress_length.
Qed.

Lemma length_field64_length n : length (length_field64 n) = 8%nat.
Proof. unfold length_field64. by rewrite store_be64_spec, be_bytes_length. Qed.
Lemma length_field128_length n : length (length_field128 n) = 16%nat.
Proof. unfold length_field128. by rewrite !store_be64_spec, length_app, !be_bytes_length. Qed.

Ltac counts add field := split; [simpl; lia|done|intros; by apply add|intros; apply field|by apply nul_freeb_ok|done|done].

Lemma sha224_counts : counts sha224sum w64.
Proof. counts add_bytes64_spec length_field64_length. Qed.
Lemma sha256_counts : counts sha256sum w64.
Proof. counts add_bytes64_spec length_field64_length. Qed.
Lemma sha384_counts : counts sha384sum counter128.
Proof. counts add_bytes128_spec length_field128_length. Qed.
Lemma sha512_counts : counts sha512sum counter128.
Proof. counts add_bytes128_spec length_field128_length. Qed.

(** The message digest of the streaming code is the standard's. *)
Lemma sha2_digest32 v n msg :
  Fips.family_of v = Fips.Words32 -> Fips.digest_size v = (n * 4)%nat -> (n <= 8)%nat ->
  Forall is_byte msg -> 8 * zlen msg < Fips.max_bits v ->
  digest32 n (hash 64 (transform sha256_parameters) (Fips.initial v) (length_field64 (w64 (zlen msg))) msg) =
  Fips.digest v msg.
Proof.
  intros HF Hn Hn8 Hm Hz. unfold Fips.max_bits, Fips.length_size in Hz. rewrite HF in Hz.
  rewrite length_field64_spec by (unfold zlen in *; lia).
  pose proof (sha2_hash v (be_bytes 8 (8 * zlen msg)) msg ltac:(apply be_bytes_bytes) Hm) as Hh. cbv zeta in Hh.
  pose proof (sha2_hash_length v 64 (be_bytes 8 (8 * zlen msg)) msg) as Hl.
  unfold Fips.digest, Fips.length_size. rewrite HF in *. change (16 * (Fips.width Fips.Words32 / 8))%nat with 64%nat in *.
  change (params Fips.Words32) with sha256_parameters in Hh. rewrite Hh, Hn. apply digest32_spec. lia.
Qed.

Lemma sha2_digest64 v n msg :
  Fips.family_of v = Fips.Words64 -> Fips.digest_size v = (n * 8)%nat -> (n <= 8)%nat ->
  Forall is_byte msg -> 8 * zlen msg < Fips.max_bits v ->
  digest64 n (hash 128 (transform sha512_parameters) (Fips.initial v) (length_field128 (counter128 (zlen msg))) msg) =
  Fips.digest v msg.
Proof.
  intros HF Hn Hn8 Hm Hz. unfold Fips.max_bits, Fips.length_size in Hz. rewrite HF in Hz.
  rewrite length_field128_spec by (unfold zlen in *; lia).
  pose proof (sha2_hash v (be_bytes 16 (8 * zlen msg)) msg ltac:(apply be_bytes_bytes) Hm) as Hh. cbv zeta in Hh.
  pose proof (sha2_hash_length v 128 (be_bytes 16 (8 * zlen msg)) msg) as Hl.
  unfold Fips.digest, Fips.length_size. rewrite HF in *. change (16 * (Fips.width Fips.Words64 / 8))%nat with 128%nat in *.
  change (params Fips.Words64) with sha512_parameters in Hh. rewrite Hh, Hn. apply digest64_spec. lia.
Qed.

Lemma sha224_message msg :
  Forall is_byte msg -> 8 * zlen msg < Fips.max_bits Fips.SHA224 ->
  message_digest sha224sum w64 msg = Fips.digest Fips.SHA224 msg.
Proof.
  intros Hb Hz. rewrite <-(sha2_digest32 Fips.SHA224 7), <-(sha2_initial Fips.SHA224) by (done || lia). reflexivity.
Qed.
Lemma sha256_message msg :
  Forall is_byte msg -> 8 * zlen msg < Fips.max_bits Fips.SHA256 ->
  message_digest sha256sum w64 msg = Fips.digest Fips.SHA256 msg.
Proof.
  intros Hb Hz. rewrite <-(sha2_digest32 Fips.SHA256 8), <-(sha2_initial Fips.SHA256) by (done || lia). reflexivity.
Qed.
Lemma sha384_message msg :
  Forall is_byte msg -> 8 * zlen msg < Fips.max_bits Fips.SHA384 ->
  message_digest sha384sum counter128 msg = Fips.digest Fips.SHA384 msg.
Proof.
  intros Hb Hz. rewrite <-(sha2_digest64 Fips.SHA384 6), <-(sha2_initial Fips.SHA384) by (done || lia). reflexivity.
Qed.
Lemma sha512_message msg :
  Forall is_byte msg -> 8 * zlen msg < Fips.max_bits Fips.SHA512 ->
  message_digest sha512sum counter128 msg = Fips.digest Fips.SHA512 msg.
Proof.
  intros Hb Hz. rewrite <-(sha2_digest64 Fips.SHA512 8), <-(sha2_initial Fips.SHA512) by (done || lia). reflexivity.
Qed.

(** The report of one program, from its counter and its digest. *)
Ltac report_of counts message :=
  eapply (wp_digest_main _ _ counts); [eassumption..|];
  let k' := fresh "k" in let Hk' := fresh "Hk" in intros k' Hk'; split; [reflexivity|]; rewrite Hk';
  unfold report; rewrite message by assumption; reflexivity.

(** C19. The programs sha224sum, sha256sum, sha384sum and sha512sum, on a file they can
    open or on their standard input, end with exit code 0 and print the digest that
    FIPS 180-4 gives of the whole input, in hexadecimal and followed by the name of the
    input cut to the line, and then the number of bytes.  This holds for every way the
    kernel delivers the input and accepts the output: in pieces of any size, with any
    number of calls that would block in between. *)
Theorem sha2sum_prints_digest {K} `{!Sys K} `{!SysLaws K} (v : Fips.variant) (k k1 : K) (fd : Z) (label : list Z) :
  good k -> source k k1 fd label -> nul_free label ->
  Forall is_byte (input fd k1) -> 8 * zlen (input fd k1) < Fips.max_bits v ->
  wp (digest_main (sha2sum v)) k (fun _ _ => False) (fun code k' =>
    code = 0 /\
    output k' = output k ++
      clip (line_capacity v) (program_name v ++ hex_bytes (Fips.digest v (input fd k1)) ++ txt "  " ++ label) ++ [10] ++
      program_name v ++ txt "bytes " ++ txt "0x" ++ hex64 (zlen (input fd k1) mod 2 ^ 64) ++ [10]).
Proof.
  intros Hg Hs Hl Hb Hz. set (msg := input fd k1) in *.
  destruct v.
  - report_of sha224_counts sha224_message.
  - report_of sha256_counts sha256_message.
  - report_of sha384_counts sha384_message.
  - report_of sha512_counts sha512_message.
Qed.

Definition small_file : small_kernel := mkSmall [txt "/bin/sh"] (txt "the quick brown fox") [] 2.

Lemma sha2sum_prints_digest_witness :
  input 3 small_file = txt "the quick brown fox" /\
  wp (digest_main (sha2sum Fips.SHA512)) small_file (fun _ _ => False) (fun code k' =>
    code = 0 /\
    output k' = output small_file ++
      clip (line_capacity Fips.SHA512) (program_name Fips.SHA512 ++
        hex_bytes (Fips.digest Fips.SHA512 (input 3 small_file)) ++ txt "  " ++ txt "/bin/sh") ++ [10] ++
      program_name Fips.SHA512 ++ txt "bytes " ++ txt "0x" ++ hex64 (zlen (input 3 small_file) mod 2 ^ 64) ++ [10]).
Proof.
  split; [done|]. apply (sha2sum_prints_digest Fips.SHA512 small_file small_file 3 (txt "/bin/sh")).
  - exact I.
  - by apply (from_file small_file small_file small_file).
  - by apply nul_freeb_ok.
  - by apply bytes_check.
  - done.
Defined.

(** The code on the one-block example of the standard. *)
Example sha256_abc :
  hex_bytes (message_digest sha256sum w64 (txt "abc")) =
  txt "ba7816bf8f01cfea414140de5dae2223b00361a396177a9cb410ff61f20015ad".
Proof. vm_compute. reflexivity. Qed.
