(* ===== verification/Sha1Md5.v ===== *)
(** * SHA-1 and MD5 (userland/src/sha1sum.cpp, md5sum.cpp)

    The compression functions of the two programs, the functions of FIPS 180-4 and RFC
    1321 they compute, and what the programs print.  The round constants of SHA-1 are
    compared with square roots, the table of MD5 with the sine function summed in fixed
    point. *)

From stdpp Require Import strings.
From S2P Require Import Prelude UserLib Digest DigestSpec Sha2.
#[local] Open Scope Z_scope.

(** ** The code *)

Definition not32 (z : Z) : Z := two32 - 1 - z.

Definition rotl (value bits : Z) : Z := Z.lor (w32 (Z.shiftl value bits)) (Z.shiftr value (32 - bits)).

(** *** sha1sum.cpp *)

Definition sha1_initial : list Z := [0x67452301; 0xefcdab89; 0x98badcfe; 0x10325476; 0xc3d2e1f0].

(** The loop over [words[16]] and what follows. *)
Definition sha1_extend (i : nat) (words : list Z) : list Z :=
  words ++ [rotl (Z.lxor (Z.lxor (Z.lxor (nth (i - 3) words 0) (nth (i - 8) words 0)) (nth (i - 14) words 0))
                    (nth (i - 16) words 0)) 1].
Definition sha1_words (block : list Z) : list Z :=
  let words := (fun i => load_be32 (take 4 (drop (i * 4) block))) <$> seq 0 16 in
  foldl (fun words i => sha1_extend i words) words (seq 16 64).

Definition vars5 : Type := Z * Z * Z * Z * Z.

Definition sha1_round (words : list Z) (i : nat) (v : vars5) : vars5 :=
  let '(a, b, c, d, e) := v in
  let '(f, k) :=
    if decide (i < 20)%nat then (Z.lor (Z.land b c) (Z.land (not32 b) d), 0x5a827999)
    else if decide (i < 40)%nat then (Z.lxor (Z.lxor b c) d, 0x6ed9eba1)
    else if decide (i < 60)%nat then (Z.lor (Z.lor (Z.land b c) (Z.land b d)) (Z.land c d), 0x8f1bbcdc)
    else (Z.lxor (Z.lxor b c) d, 0xca62c1d6) in
  let temp := w32 (rotl a 5 + f + e + k + nth i words 0) in
  (temp, a, rotl b 30, c, d).

Definition sha1_transform (state : list Z) (block : list Z) : list Z :=
  let words := sha1_words block in
  let s i := nth i state 0 in
  let '(a, b, c, d, e) := for_each 80 (sha1_round words) (s 0%nat, s 1%nat, s 2%nat, s 3%nat, s 4%nat) in
  [w32 (s 0%nat + a); w32 (s 1%nat + b); w32 (s 2%nat + c); w32 (s 3%nat + d); w32 (s 4%nat + e)].

Definition sha1sum : Algorithm :=
  mkAlgorithm _ _ 64 8 sha1_initial 0 sha1_transform add_bytes64 length_field64 (digest32 5) id
    (txt "[sha1sum] ") 128 32.

(** *** md5sum.cpp *)

Definition kMd5Shift : list Z :=
  [7; 12; 17; 22; 7; 12; 17; 22; 7; 12; 17; 22; 7; 12; 17; 22;
   5; 9; 14; 20; 5; 9; 14; 20; 5; 9; 14; 20; 5; 9; 14; 20;
   4; 11; 16; 23; 4; 11; 16; 23; 4; 11; 16; 23; 4; 11; 16; 23;
   6; 10; 15; 21; 6; 10; 15; 21; 6; 10; 15; 21; 6; 10; 15; 21].
Definition kMd5Table : list Z :=
  [0xd76aa478; 0xe8c7b756; 0x242070db; 0xc1bdceee; 0xf57c0faf; 0x4787c62a; 0xa8304613; 0xfd469501;
   0x698098d8; 0x8b44f7af; 0xffff5bb1; 0x895cd7be; 0x6b901122; 0xfd987193; 0xa679438e; 0x49b40821;
   0xf61e2562; 0xc040b340; 0x265e5a51; 0xe9b6c7aa; 0xd62f105d; 0x02441453; 0xd8a1e681; 0xe7d3fbc8;
   0x21e1cde6; 0xc33707d6; 0xf4d50d87; 0x455a14ed; 0xa9e3e905; 0xfcefa3f8; 0x676f02d9; 0x8d2a4c8a;
   0xfffa3942; 0x8771f681; 0x6d9d6122; 0xfde5380c; 0xa4beea44; 0x4bdecfa9; 0xf6bb4b60; 0xbebfbc70;
   0x289b7ec6; 0xeaa127fa; 0xd4ef3085; 0x04881d05; 0xd9d4d039; 0xe6db99e5; 0x1fa27cf8; 0xc4ac5665;
   0xf4292244; 0x432aff97; 0xab9423a7; 0xfc93a039; 0x655b59c3; 0x8f0ccc92; 0xffeff47d; 0x85845dd1;
   0x6fa87e4f; 0xfe2ce6e0; 0xa3014314; 0x4e0811a1; 0xf7537e82; 0xbd3af235; 0x2ad7d2bb; 0xeb86d391].
Definition md5_initial : list Z := [0x67452301; 0xefcdab89; 0x98badcfe; 0x10325476].

Definition load_le32 (bytes : list Z) : Z :=
  Z.lor (Z.lor (Z.lor (nth 0 bytes 0) (Z.shiftl (nth 1 bytes 0) 8)) (Z.shiftl (nth 2 bytes 0) 16))
    (Z.shiftl (nth 3 bytes 0) 24).

(** [for (i = 0; i < 8; ++i) { out[i] = value & 0xff; value >>= 8; }] *)
Definition store_le64 (value : Z) : list Z :=
  (for_each 8 (fun _ s => (s.1 ++ [Z.land s.2 255], Z.shiftr s.2 8)) ([], value)).1.

Definition vars4 : Type := Z * Z * Z * Z.

Definition md5_round (word : list Z) (i : nat) (v : vars4) : vars4 :=
  let '(a, b, c, d) := v in
  let n := Z.of_nat i in
  let '(f, g) :=
    if decide (i < 16)%nat then (Z.lor (Z.land b c) (Z.land (not32 b) d), n)
    else if decide (i < 32)%nat then (Z.lor (Z.land d b) (Z.land (not32 d) c), Z.land (5 * n + 1) 15)
    else if decide (i < 48)%nat then (Z.lxor (Z.lxor b c) d, Z.land (3 * n + 5) 15)
    else (Z.lxor c (Z.lor b (not32 d)), Z.land (7 * n) 15) in
  let next := w32 (b + rotl (w32 (a + f + nth i kMd5Table 0 + nth (Z.to_nat g) word 0)) (nth i kMd5Shift 0)) in
  (d, next, b, c).

Definition md5_transform (state : list Z) (block : list Z) : list Z :=
  let word := (fun i => load_le32 (take 4 (drop (i * 4) block))) <$> seq 0 16 in
  let s i := nth i state 0 in
  let '(a, b, c, d) := for_each 64 (md5_round word) (s 0%nat, s 1%nat, s 2%nat, s 3%nat) in
  [w32 (s 0%nat + a); w32 (s 1%nat + b); w32 (s 2%nat + c); w32 (s 3%nat + d)].

Definition md5_length_field (bytes : Z) : list Z := store_le64 (w64 (bytes * 8)).
Definition md5_digest (state : list Z) : list Z :=
  concat ((fun i => let s := nth i state 0 in
    [Z.land s 255; Z.land (Z.shiftr s 8) 255; Z.land (Z.shiftr s 16) 255; Z.land (Z.shiftr s 24) 255]) <$> seq 0 4).

Definition md5sum : Algorithm :=
  mkAlgorithm _ _ 64 8 md5_initial 0 md5_transform add_bytes64 md5_length_field md5_digest id
    (txt "[md5sum] ") 128 32.

(** ** The standards *)

(** FIPS 180-4, SHA-1. *)
Module Sha1Spec.
(** Section 4.1.1 and 4.2.1: the constants are square roots of 2, 3, 5 and 10. *)
Definition f (t : nat) (x y z : Z) : Z :=
  match (t / 20)%nat with O => Ch 32 x y z | 2%nat => Maj 32 x y z | _ => Parity 32 x y z end.
Definition K (t : nat) : Z := iroot 2 32 (nth (t / 20) [2; 3; 5; 10] 0 * 2 ^ 60).

Fixpoint W (fuel : nat) (block : list Z) (t : nat) : Z :=
  match fuel with
  | O => 0
  | S fuel =>
    if decide (t < 16)%nat then be_word (word_at 4 t block)
    else ROTL 32 1 (Z.lxor (W fuel block (t - 3)) (Z.lxor (W fuel block (t - 8))
           (Z.lxor (W fuel block (t - 14)) (W fuel block (t - 16)))))
  end.

Definition step (block : list Z) (v : vars5) (t : nat) : vars5 :=
  let '(a, b, c, d, e) := v in
  (sum 32 [ROTL 32 5 a; f t b c d; e; K t; W (S t) block t], a, ROTL 32 30 b, c, d).

Definition compress (H : list Z) (block : list Z) : list Z :=
  match H with
  | [H0; H1; H2; H3; H4] =>
    let '(a, b, c, d, e) := foldl (step block) (H0, H1, H2, H3, H4) (seq 0 80) in
    let add x y := sum 32 [x; y] in
    [add a H0; add b H1; add c H2; add d H3; add e H4]
  | _ => []
  end.

(** Section 5.3.1. *)
Definition initial : list Z :=
  [le_word [0x01; 0x23; 0x45; 0x67]; le_word [0x89; 0xab; 0xcd; 0xef]; le_word [0xfe; 0xdc; 0xba; 0x98];
   le_word [0x76; 0x54; 0x32; 0x10]; le_word [0xf0; 0xe1; 0xd2; 0xc3]].

Definition digest (msg : list Z) : list Z :=
  concat (be_bytes 4 <$> hash 64 compress initial (be_bytes 8 (8 * zlen msg)) msg).
End Sha1Spec.

(** RFC 1321, MD5. *)
Module Md5Spec.
(** [sin x] in fixed point, by the nested form of its series:
    [x (1 - x^2/2*3 (1 - x^2/4*5 (...)))], with 160 fractional bits and 110 terms. *)
Definition sine (x : Z) : Z :=
  x * foldl (fun acc k => 2 ^ 160 - x * x * acc / (2 * k * (2 * k + 1))) (2 ^ 160) (reverse (seqZ 1 110)).
(** Section 3.4: the integer part of 4294967296 times abs(sin(i)), i from 1. *)
Definition T (i : nat) : Z := Z.abs (sine (Z.of_nat i + 1)) / 2 ^ 128.

Definition F := Ch 32.
Definition G (x y z : Z) : Z := Ch 32 z x y.
Definition H := Parity 32.
Definition I (x y z : Z) : Z := of_bits 32 (fun i => xorb (Z.testbit y i) (Z.testbit x i || negb (Z.testbit z i))).

(** The word and the rotation of an operation, by its round and place in it. *)
Definition word_index (i : nat) : nat :=
  let j := (i mod 16)%nat in
  match (i / 16)%nat with O => j | 1%nat => (1 + 5 * j) mod 16 | 2%nat => (5 + 3 * j) mod 16 | _ => (7 * j) mod 16 end.
Definition rotation (i : nat) : Z :=
  nth (i mod 4) (nth (i / 16) [[7; 12; 17; 22]; [5; 9; 14; 20]; [4; 11; 16; 23]; [6; 10; 15; 21]] []) 0.
Definition mix (i : nat) : Z -> Z -> Z -> Z :=
  match (i / 16)%nat with O => F | 1%nat => G | 2%nat => H | _ => I end.

(** [a = b + ((a + mix(b,c,d) + X[k] + T[i]) <<< s)], then the registers turn. *)
Definition step (block : list Z) (v : vars4) (i : nat) : vars4 :=
  let '(a, b, c, d) := v in
  (d, sum 32 [b; ROTL 32 (rotation i) (sum 32 [a; mix i b c d; le_word (word_at 4 (word_index i) block); T i])], b, c).

Definition compress (state : list Z) (block : list Z) : list Z :=
  match state with
  | [A; B; C; D] =>
    let '(a, b, c, d) := foldl (step block) (A, B, C, D) (seq 0 64) in
    let add x y := sum 32 [x; y] in
    [add a A; add b B; add c C; add d D]
  | _ => []
  end.

Definition initial : list Z :=
  [le_word [0x01; 0x23; 0x45; 0x67]; le_word [0x89; 0xab; 0xcd; 0xef]; le_word [0xfe; 0xdc; 0xba; 0x98];
   le_word [0x76; 0x54; 0x32; 0x10]].

Definition digest (msg : list Z) : list Z :=
  concat (le_bytes_of 4 <$> hash 64 compress initial (le_bytes_of 8 (8 * zlen msg)) msg).
End Md5Spec.

(** ** SHA-1 computes the standard *)

Definition word32 (x : Z) : Prop := 0 <= x < 2 ^ Z.of_nat 32.

Lemma rotl_spec x n : word32 x -> 0 < n < 32 -> rotl x n = ROTL 32 n x.
Proof. intros Hx Hn. by apply (rotl_ROTL 32). Qed.

Lemma w32_sum z xs : z = foldr Z.add 0 xs -> w32 z = sum 32 xs.
Proof. by intros ->. Qed.

(** The quarter of the rounds an index is in. *)
Lemma quarter n t : (0 < n)%nat -> (t < 4 * n)%nat ->
  (t / n = if decide (t < n) then 0 else if decide (t < 2 * n) then 1 else if decide (t < 3 * n) then 2 else 3)%nat.
Proof.
  intros Hn Ht. pose proof (Nat.Div0.div_mod t n). pose proof (Nat.mod_upper_bound t n ltac:(lia)).
  repeat case_decide; nia.
Qed.

Lemma sha1_K t : (t < 80)%nat ->
  Sha1Spec.K t = if decide (t < 20)%nat then 0x5a827999 else if decide (t < 40)%nat then 0x6ed9eba1
                 else if decide (t < 60)%nat then 0x8f1bbcdc else 0xca62c1d6.
Proof.
  intros Ht. unfold Sha1Spec.K. rewrite (quarter 20) by lia. cbn [Nat.mul Nat.add].
  repeat case_decide; vm_compute; reflexivity.
Qed.

Lemma sha1_W_fuel block n : forall m t, (t < n)%nat -> (t < m)%nat -> Sha1Spec.W n block t = Sha1Spec.W m block t.
Proof.
  induction n as [|n IH]; intros m t Hn Hm; [lia|]. destruct m as [|m]; [lia|]. cbn [Sha1Spec.W].
  case_decide; [done|]. by rewrite !(IH m) by lia.
Qed.

Lemma sha1_W_recurrence block t : (16 <= t)%nat ->
  Sha1Spec.W (S t) block t =
  ROTL 32 1 (Z.lxor (Sha1Spec.W (S (t - 3)) block (t - 3)) (Z.lxor (Sha1Spec.W (S (t - 8)) block (t - 8))
    (Z.lxor (Sha1Spec.W (S (t - 14)) block (t - 14)) (Sha1Spec.W (S (t - 16)) block (t - 16))))).
Proof.
  intros Ht. rewrite (sha1_W_fuel block (S (t - 3)) t), (sha1_W_fuel block (S (t - 8)) t),
    (sha1_W_fuel block (S (t - 14)) t), (sha1_W_fuel block (S (t - 16)) t) by lia.
  generalize t at 1 3 5 7 9. intros n. cbn [Sha1Spec.W]. by rewrite decide_False by lia.
Qed.

Lemma word_at_word32 t block : length block = 64%nat -> Forall is_byte block -> (t < 16)%nat ->
  length (word_at 4 t block) = 4%nat /\ Forall is_byte (word_at 4 t block) /\ word32 (be_word (word_at 4 t block)).
Proof.
  intros Hl Hb Ht. assert (Hw : length (word_at 4 t block) = 4%nat) by (apply word_at_length; lia).
  split_and!; [done|by apply word_at_bytes|]. pose proof (be_word_range _ (word_at_bytes 4 t block Hb)) as Hr.
  unfold zlen in Hr. by rewrite Hw in Hr.
Qed.

Lemma sha1_W_word block n t : length block = 64%nat -> Forall is_byte block -> word32 (Sha1Spec.W n block t).
Proof.
  intros Hl Hb. destruct n as [|n]; [done|]. cbn [Sha1Spec.W]. case_decide; [|apply ROTL_range]. by apply word_at_word32.
Qed.

Lemma sha1_words_spec block t :
  length block = 64%nat -> Forall is_byte block -> (t < 80)%nat ->
  nth t (sha1_words block) 0 = Sha1Spec.W (S t) block t.
Proof.
  intros Hl Hb Ht. unfold sha1_words. set (w0 := _ <$> seq 0 16).
  assert (H0 : length w0 = 16%nat /\ forall t, (t < 16)%nat -> nth t w0 0 = Sha1Spec.W (S t) block t).
  { unfold w0. rewrite length_fmap, length_seq. split; [done|]. intros i Hi.
    erewrite nth_lookup_Some; [|rewrite list_lookup_fmap, lookup_seq_lt by done; done]. cbn [Sha1Spec.W].
    rewrite decide_True by done. destruct (word_at_word32 i block Hl Hb Hi) as (H4 & Hbs & _). unfold word_at in *.
    apply (load_spec Fips.Words32); done. }
  assert (Hinv : forall n, let w := foldl (fun w i => sha1_extend i w) w0 (seq 16 n) in
    length w = (16 + n)%nat /\ forall t, (t < 16 + n)%nat -> nth t w 0 = Sha1Spec.W (S t) block t).
  { clear t Ht. induction n as [|n IH]; [exact H0|].
    rewrite seq_S, foldl_app. cbn [foldl]. destruct IH as [Hlen IH]. set (w := foldl _ w0 (seq 16 n)) in *.
    unfold sha1_extend. rewrite length_app, Hlen. split; [simpl; lia|]. intros t Ht.
    destruct (decide (t < 16 + n)%nat) as [Hlt|]; [rewrite app_nth1 by lia; by apply IH|].
    replace t with (16 + n)%nat by lia. rewrite app_nth2, Hlen, Nat.sub_diag by lia. cbn [nth].
    rewrite !IH by lia. rewrite (sha1_W_recurrence block (16 + n)), !Z.lxor_assoc by lia.
    apply rotl_spec; [|lia]. repeat apply (lxor_range 32); by apply sha1_W_word. }
  by apply Hinv.
Qed.

Definition words5 (v : vars5) : Prop :=
  let '(a, b, c, d, e) := v in word32 a /\ word32 b /\ word32 c /\ word32 d /\ word32 e.

Lemma sha1_round_spec block i v :
  length block = 64%nat -> Forall is_byte block -> (i < 80)%nat -> words5 v ->
  sha1_round (sha1_words block) i v = Sha1Spec.step block v i /\ words5 (Sha1Spec.step block v i).
Proof.
  intros Hl Hb Hi. destruct v as [[[[a b] c] d] e]. intros (Ha & Hbb & Hc & Hd & He).
  unfold sha1_round, Sha1Spec.step, words5.
  split; [|split_and!; done || apply sum_range || apply ROTL_range].
  assert (Hf : (if decide (i < 20)%nat then (Z.lor (Z.land b c) (Z.land (not32 b) d), 0x5a827999)
    else if decide (i < 40)%nat then (Z.lxor (Z.lxor b c) d, 0x6ed9eba1)
    else if decide (i < 60)%nat then (Z.lor (Z.lor (Z.land b c) (Z.land b d)) (Z.land c d), 0x8f1bbcdc)
    else (Z.lxor (Z.lxor b c) d, 0xca62c1d6)) = (Sha1Spec.f i b c d, Sha1Spec.K i)).
  { rewrite sha1_K by done. unfold Sha1Spec.f. rewrite (quarter 20) by lia. cbn [Nat.mul Nat.add].
    repeat case_decide; f_equal.
    - by apply (ch_or_Ch 32).
    - by apply (xor_Parity 32).
    - by apply (maj_or_Maj 32).
    - by apply (xor_Parity 32). }
  rewrite Hf, sha1_words_spec, !rotl_spec by (done || lia). do 4 f_equal. apply w32_sum. cbn [foldr]. lia.
Qed.

Definition state32 (n : nat) (H : list Z) : Prop := length H = n /\ Forall word32 H.

Lemma sha1_transform_compress H block :
  length block = 64%nat -> Forall is_byte block -> state32 5 H ->
  sha1_transform H block = Sha1Spec.compress H block /\ state32 5 (Sha1Spec.compress H block).
Proof.
  intros Hl Hb [H5 HH]. destruct H as [|h0 [|h1 [|h2 [|h3 [|h4 [|]]]]]]; try discriminate H5.
  rewrite !Forall_cons in HH. destruct HH as (W0 & W1 & W2 & W3 & W4 & _).
  unfold sha1_transform, Sha1Spec.compress, for_each. cbn [nth].
  assert (Hloop : forall n, (n <= 80)%nat ->
    let v := foldl (Sha1Spec.step block) (h0, h1, h2, h3, h4) (seq 0 n) in
    foldl (fun s i => sha1_round (sha1_words block) i s) (h0, h1, h2, h3, h4) (seq 0 n) = v /\ words5 v).
  { induction n as [|n IH]; intros Hn; [done|]. rewrite seq_S, !foldl_app. cbn [foldl].
    destruct (IH ltac:(lia)) as [-> Hv]. by apply sha1_round_spec; [..|lia|]. }
  destruct (Hloop 80%nat ltac:(lia)) as [-> Hv].
  destruct (foldl (Sha1Spec.step block) _ _) as [[[[a b] c] d] e].
  split; [|split; [done|repeat constructor; apply (sum_range 32)]].
  by rewrite (w32_sum (h0 + a) [a; h0]), (w32_sum (h1 + b) [b; h1]), (w32_sum (h2 + c) [c; h2]),
    (w32_sum (h3 + d) [d; h3]), (w32_sum (h4 + e) [e; h4]) by (cbn [foldr]; lia).
Qed.

(** A fold of a compression function keeps the number of words. *)
Lemma hash_length B (f : list Z -> list Z -> list Z) n initial field msg :
  length initial = n -> (forall H b, length H = n -> length (f H b) = n) -> length (hash B f initial field msg) = n.
Proof.
  intros Hi Hf. unfold hash. generalize (blocks B (length (pad B field msg) / B) (pad B field msg)). intros bs.
  revert initial Hi. induction bs as [|b bs IH]; intros H Hl; [done|]. cbn [foldl]. by apply IH, Hf.
Qed.

Lemma sha1_message msg :
  Forall is_byte msg -> 8 * zlen msg < 2 ^ 64 -> message_digest sha1sum w64 msg = Sha1Spec.digest msg.
Proof.
  intros Hb Hz.
  change (digest32 5 (hash 64 sha1_transform Sha1Spec.initial (length_field64 (w64 (zlen msg))) msg) = Sha1Spec.digest msg).
  rewrite length_field64_spec by (unfold zlen in *; lia). unfold Sha1Spec.digest.
  rewrite (hash_ext 64 sha1_transform Sha1Spec.compress (state32 5) is_byte).
  - assert (Hl : length (hash 64 Sha1Spec.compress Sha1Spec.initial (be_bytes 8 (8 * zlen msg)) msg) = 5%nat).
    { apply hash_length; [done|]. intros H b H5. destruct H as [|h0 [|h1 [|h2 [|h3 [|h4 [|]]]]]]; try discriminate H5.
      unfold Sha1Spec.compress. by destruct (foldl _ _ _) as [[[[a b'] c] d] e]. }
    rewrite digest32_spec by lia. apply take_ge.
    destruct (hash 64 _ _ _ _) as [|h0 [|h1 [|h2 [|h3 [|h4 [|]]]]]]; try discriminate Hl. simpl. lia.
  - lia.
  - split; [done|]. by repeat (constructor; [done|]).
  - by apply pad_Forall; [..|apply be_bytes_bytes|].
  - intros H b HH Hl Hbs. by apply sha1_transform_compress.
Qed.

Lemma sha1_counts : counts sha1sum w64.
Proof. counts add_bytes64_spec length_field64_length. Qed.

(** ** MD5 computes the standard *)

Lemma md5_table : kMd5Table = Md5Spec.T <$> seq 0 64.
Proof. vm_compute. reflexivity. Qed.
Lemma md5_shift : kMd5Shift = Md5Spec.rotation <$> seq 0 64.
Proof. vm_compute. reflexivity. Qed.

Lemma nth_fmap_seq {A} (f : nat -> A) d n i : (i < n)%nat -> nth i (f <$> seq 0 n) d = f i.
Proof. intros Hi. erewrite nth_lookup_Some; [|rewrite list_lookup_fmap, lookup_seq_lt by done; done]. done. Qed.

Lemma md5_rotation_range i : (i < 64)%nat -> 0 < Md5Spec.rotation i < 32.
Proof.
  intros Hi. assert (Hall : forallb (fun i => (0 <? Md5Spec.rotation i) && (Md5Spec.rotation i <? 32)) (seq 0 64) = true)
    by (vm_compute; reflexivity).
  rewrite forallb_forall in Hall. specialize (Hall i). rewrite in_seq in Hall. specialize (Hall ltac:(lia)). bsimp. lia.
Qed.

Lemma md5_index i : (i < 64)%nat ->
  Z.to_nat (if decide (i < 16)%nat then Z.of_nat i else if decide (i < 32)%nat then Z.land (5 * Z.of_nat i + 1) 15
            else if decide (i < 48)%nat then Z.land (3 * Z.of_nat i + 5) 15 else Z.land (7 * Z.of_nat i) 15) =
  Md5Spec.word_index i /\ (Md5Spec.word_index i < 16)%nat.
Proof.
  intros Hi. assert (Hall : forallb (fun i => Nat.eqb (Z.to_nat (if decide (i < 16)%nat then Z.of_nat i
      else if decide (i < 32)%nat then Z.land (5 * Z.of_nat i + 1) 15
      else if decide (i < 48)%nat then Z.land (3 * Z.of_nat i + 5) 15 else Z.land (7 * Z.of_nat i) 15))
      (Md5Spec.word_index i) && Nat.ltb (Md5Spec.word_index i) 16) (seq 0 64) = true) by (vm_compute; reflexivity).
  rewrite forallb_forall in Hall. specialize (Hall i). rewrite in_seq in Hall. specialize (Hall ltac:(lia)).
  apply andb_true_iff in Hall as [H1 H2]. by apply Nat.eqb_eq in H1; apply Nat.ltb_lt in H2.
Qed.

Lemma load_le32_spec bytes : length bytes = 4%nat -> Forall is_byte bytes -> load_le32 bytes = le_word bytes.
Proof.
  intros Hl Hb. destruct bytes as [|b0 [|b1 [|b2 [|b3 [|]]]]]; try discriminate Hl.
  rewrite !Forall_cons in Hb. unfold is_byte in Hb. destruct Hb as (H0 & H1 & H2 & H3 & _).
  unfold load_le32, le_word. cbn [nth foldr]. rewrite !Z.shiftl_mul_pow2 by lia.
  rewrite (Z.lor_comm b0), (lor_add (b1 * 2 ^ 8) b0 8) by (try lia; apply Z.mod_mul; lia).
  rewrite (Z.lor_comm _ (b2 * _)), (lor_add (b2 * 2 ^ 16) _ 16) by (try lia; apply Z.mod_mul; lia).
  rewrite (Z.lor_comm _ (b3 * _)), (lor_add (b3 * 2 ^ 24) _ 24) by (try lia; apply Z.mod_mul; lia). lia.
Qed.

Lemma md5_I x y z : word32 x -> word32 y -> word32 z -> Z.lxor y (Z.lor x (not32 z)) = Md5Spec.I x y z.
Proof.
  intros Hx Hy Hz. assert (Hn : word32 (not32 z)) by (unfold word32, not32, two32 in *; lia).
  apply eq_of_bits; [apply (lxor_range 32); [done|by apply (lor_range 32)]|]. intros i Hi.
  rewrite Z.lxor_spec, Z.lor_spec. change (not32 z) with (2 ^ Z.of_nat 32 - 1 - z). by rewrite testbit_notw.
Qed.

Definition words4 (v : vars4) : Prop := let '(a, b, c, d) := v in word32 a /\ word32 b /\ word32 c /\ word32 d.

Definition md5_words (block : list Z) : list Z := (fun i => load_le32 (take 4 (drop (i * 4) block))) <$> seq 0 16.

Lemma md5_round_spec block i v :
  length block = 64%nat -> Forall is_byte block -> (i < 64)%nat -> words4 v ->
  md5_round (md5_words block) i v = Md5Spec.step block v i /\ words4 (Md5Spec.step block v i).
Proof.
  intros Hl Hb Hi. destruct v as [[[a b] c] d]. intros (Ha & Hbb & Hc & Hd).
  unfold md5_round, Md5Spec.step, words4. split; [|split_and!; done || apply sum_range].
  destruct (md5_index i Hi) as [Hg Hg16]. pose proof (md5_rotation_range i Hi) as Hrot.
  set (g := if decide _ then Z.of_nat i else _) in Hg.
  assert (Hf : (if decide (i < 16)%nat then (Z.lor (Z.land b c) (Z.land (not32 b) d), Z.of_nat i)
    else if decide (i < 32)%nat then (Z.lor (Z.land d b) (Z.land (not32 d) c), Z.land (5 * Z.of_nat i + 1) 15)
    else if decide (i < 48)%nat then (Z.lxor (Z.lxor b c) d, Z.land (3 * Z.of_nat i + 5) 15)
    else (Z.lxor c (Z.lor b (not32 d)), Z.land (7 * Z.of_nat i) 15)) = (Md5Spec.mix i b c d, g)).
  { unfold g, Md5Spec.mix. rewrite (quarter 16) by lia. cbn [Nat.mul Nat.add].
    repeat case_decide; f_equal.
    - by apply (ch_or_Ch 32).
    - by apply (ch_or_Ch 32).
    - by apply (xor_Parity 32).
    - by apply md5_I. }
  rewrite Hf, Hg. destruct (word_at_word32 (Md5Spec.word_index i) block Hl Hb Hg16) as (H4 & Hbs & _).
  unfold md5_words. rewrite nth_fmap_seq, md5_table, md5_shift, !nth_fmap_seq by done.
  fold (word_at 4 (Md5Spec.word_index i) block). rewrite load_le32_spec by done.
  rewrite (w32_sum (a + _ + _ + _) [a; Md5Spec.mix i b c d; le_word (word_at 4 (Md5Spec.word_index i) block); Md5Spec.T i])
    by (cbn [foldr]; lia).
  rewrite rotl_spec by (done || apply (sum_range 32)). do 3 f_equal. apply w32_sum. cbn [foldr]. lia.
Qed.

Lemma md5_transform_compress H block :
  length block = 64%nat -> Forall is_byte block -> state32 4 H ->
  md5_transform H block = Md5Spec.compress H block /\ state32 4 (Md5Spec.compress H block).
Proof.
  intros Hl Hb [H4 HH]. destruct H as [|h0 [|h1 [|h2 [|h3 [|]]]]]; try discriminate H4.
  rewrite !Forall_cons in HH. destruct HH as (W0 & W1 & W2 & W3 & _).
  unfold md5_transform, Md5Spec.compress, for_each. cbn [nth]. fold (md5_words block).
  assert (Hloop : forall n, (n <= 64)%nat ->
    let v := foldl (Md5Spec.step block) (h0, h1, h2, h3) (seq 0 n) in
    foldl (fun s i => md5_round (md5_words block) i s) (h0, h1, h2, h3) (seq 0 n) = v /\ words4 v).
  { induction n as [|n IH]; intros Hn; [done|]. rewrite seq_S, !foldl_app. cbn [foldl].
    destruct (IH ltac:(lia)) as [-> Hv]. by apply md5_round_spec; [..|lia|]. }
  destruct (Hloop 64%nat ltac:(lia)) as [-> Hv].
  destruct (foldl (Md5Spec.step block) _ _) as [[[a b] c] d].
  split; [|split; [done|repeat constructor; apply (sum_range 32)]].
  by rewrite (w32_sum (h0 + a) [a; h0]), (w32_sum (h1 + b) [b; h1]), (w32_sum (h2 + c) [c; h2]),
    (w32_sum (h3 + d) [d; h3]) by (cbn [foldr]; lia).
Qed.

Lemma store_le64_spec v : store_le64 v = le_bytes_of 8 v.
Proof.
  unfold store_le64, le_bytes_of, for_each. cbn [seq foldl fst snd fmap list_fmap app].
  change 255 with (2 ^ 8 - 1). rewrite !Z.shiftr_shiftr, !land_low, !Z.shiftr_div_pow2 by lia.
  by rewrite Z.div_1_r.
Qed.

Lemma md5_length_field_length n : length (md5_length_field n) = 8%nat.
Proof. unfold md5_length_field. by rewrite store_le64_spec. Qed.

Lemma md5_counts : counts md5sum w64.
Proof. counts add_bytes64_spec md5_length_field_length. Qed.

Lemma md5_digest_spec H : length H = 4%nat -> md5_digest H = concat (le_bytes_of 4 <$> H).
Proof.
  intros H4. destruct H as [|h0 [|h1 [|h2 [|h3 [|]]]]]; try discriminate H4.
  unfold md5_digest, le_bytes_of. cbn [seq nth concat fmap list_fmap app].
  change 255 with (2 ^ 8 - 1). rewrite !land_low, !Z.shiftr_div_pow2 by lia. by rewrite !Z.div_1_r.
Qed.

Lemma md5_message msg :
  Forall is_byte msg -> 8 * zlen msg < 2 ^ 64 -> message_digest md5sum w64 msg = Md5Spec.digest msg.
Proof.
  intros Hb Hz.
  change (md5_digest (hash 64 md5_transform Md5Spec.initial (md5_length_field (w64 (zlen msg))) msg) = Md5Spec.digest msg).
  assert (Hfield : md5_length_field (w64 (zlen msg)) = le_bytes_of 8 (8 * zlen msg)).
  { unfold md5_length_field. rewrite store_le64_spec, (w64_small (zlen msg)), w64_small by (unfold u64, two64, zlen in *; lia).
    f_equal. lia. }
  rewrite Hfield. unfold Md5Spec.digest.
  rewrite (hash_ext 64 md5_transform Md5Spec.compress (state32 4) is_byte).
  - apply md5_digest_spec, hash_length; [done|]. intros H b H4.
    destruct H as [|h0 [|h1 [|h2 [|h3 [|]]]]]; try discriminate H4.
    unfold Md5Spec.compress. by destruct (foldl _ _ _) as [[[a b'] c] d].
  - lia.
  - split; [done|]. by repeat (constructor; [done|]).
  - apply pad_Forall; [done..| |done]. apply Forall_fmap, Forall_true. intros i. apply Z.mod_pos_bound. lia.
  - intros H b HH Hl Hbs. by apply md5_transform_compress.
Qed.

(** ** The programs print the digests *)

Inductive old_digest := SHA1 | MD5.
Definition old_sum (d : old_digest) : Algorithm := match d with SHA1 => sha1sum | MD5 => md5sum end.
Definition old_spec (d : old_digest) : list Z -> list Z := match d with SHA1 => Sha1Spec.digest | MD5 => Md5Spec.digest end.
Definition old_name (d : old_digest) : list Z := match d with SHA1 => txt "[sha1sum] " | MD5 => txt "[md5sum] " end.

(** The programs sha1sum and md5sum, on a file they can open or on their standard
    input, end with exit code 0 and print the SHA-1 (FIPS 180-4) or MD5 (RFC 1321)
    digest of the whole input, however the kernel cuts the input and the output into
    pieces. *)
Theorem old_sums_print_digests {K} `{!Sys K} `{!SysLaws K} (d : old_digest) (k k1 : K) (fd : Z) (label : list Z) :
  good k -> source k k1 fd label -> nul_free label ->
  Forall is_byte (input fd k1) -> 8 * zlen (input fd k1) < 2 ^ 64 ->
  wp (digest_main (old_sum d)) k (fun _ _ => False) (fun code k' =>
    code = 0 /\
    output k' = output k ++
      clip 128 (old_name d ++ hex_bytes (old_spec d (input fd k1)) ++ txt "  " ++ label) ++ [10] ++
      old_name d ++ txt "bytes " ++ txt "0x" ++ hex64 (zlen (input fd k1) mod 2 ^ 64) ++ [10]).
Proof.
  intros Hg Hs Hl Hb Hz. destruct d; [report_of sha1_counts sha1_message|report_of md5_counts md5_message].
Qed.

Lemma old_sums_print_digests_witness :
  input 3 small_file = txt "the quick brown fox" /\
  wp (digest_main (old_sum MD5)) small_file (fun _ _ => False) (fun code k' =>
    code = 0 /\
    output k' = output small_file ++
      clip 128 (old_name MD5 ++ hex_bytes (old_spec MD5 (input 3 small_file)) ++ txt "  " ++ txt "/bin/sh") ++ [10] ++
      old_name MD5 ++ txt "bytes " ++ txt "0x" ++ hex64 (zlen (input 3 small_file) mod 2 ^ 64) ++ [10]).
Proof.
  split; [done|]. apply (old_sums_print_digests MD5 small_file small_file 3 (txt "/bin/sh")).
  - exact I.
  - by apply (from_file small_file small_file small_file).
  - by apply nul_freeb_ok.
  - by apply bytes_check.
  - done.
Defined.

(** The code on the short examples of the standards. *)
Example sha1_abc : hex_bytes (message_digest sha1sum w64 (txt "abc")) = txt "a9993e364706816aba3e25717850c26c9cd0d89d".
Proof. vm_compute. reflexivity. Qed.
Example md5_abc : hex_bytes (message_digest md5sum w64 (txt "abc")) = txt "900150983cd24fb0d6963f7d28e17f72".
Proof. vm_compute. reflexivity. Qed.
