(* ===== verification/Base64.v ===== *)
(** * The base64 program (userland/src/base64.cpp)

    The program reads a file or its standard input, encodes it or, with "-d", decodes
    it, and prints the result in lines.  The specification is the encoding of RFC 4648
    on lists of bytes.  The theorems show that the program prints exactly that encoding,
    that decoding text laid out in any way prints the lines that were encoded, and what
    the decoder refuses. *)

From stdpp Require Import strings.
From Stdlib Require Import ZifyBool.
From S2P Require Import Prelude UserLib Digest DigestSpec.
#[local] Open Scope Z_scope.
#[local] Open Scope prog_scope.

(** ** The code *)

Definition kAlphabet : list Z := txt "ABCDEFGHIJKLMNOPQRSTUVWXYZabcdefghijklmnopqrstuvwxyz0123456789+/".

(** [line] before [line_used], and [produced]. *)
Record Output := mkOutput { o_line : list Z; o_produced : Z }.

Definition decode_value (value : Z) : Z :=
  if (65 <=? value) && (value <=? 90) then value - 65
  else if (97 <=? value) && (value <=? 122) then 26 + value - 97
  else if (48 <=? value) && (value <=? 57) then 52 + value - 48
  else if value =? 43 then 62
  else if value =? 47 then 63
  else if value =? 61 then -2
  else if (value =? 13) || (value =? 10) || (value =? 9) || (value =? 32) then -3
  else -1.

Section program.
Context {K : Type} `{!Sys K}.

Definition emit_line (text : list Z) : prog K unit := write_text (txt "[base64] ") ;; write_line text.

Definition emit_output_char (value : Z) (o : Output) : prog K Output :=
  let! line := (if 80 <=? zlen (o_line o) + 1 then (emit_line (o_line o) ;; ret []) else ret (o_line o)) in
  ret (mkOutput (line ++ [value]) (inc64 (o_produced o))).

Definition encode_triplet (data : list Z) (count : Z) (o : Output) : prog K Output :=
  let a := if 0 <? count then nth 0 data 0 else 0 in
  let b := if 1 <? count then nth 1 data 0 else 0 in
  let c := if 2 <? count then nth 2 data 0 else 0 in
  let bits := Z.lor (Z.lor (Z.shiftl a 16) (Z.shiftl b 8)) c in
  let digit s := nth (Z.to_nat (Z.land (Z.shiftr bits s) 63)) kAlphabet 0 in
  let! o := emit_output_char (digit 18) o in
  let! o := emit_output_char (digit 12) o in
  let! o := emit_output_char (if 1 <? count then digit 6 else 61) o in
  emit_output_char (if 2 <? count then digit 0 else 61) o.

Definition emit_decoded_byte (value : Z) (o : Output) : prog K Output :=
  if value =? 13 then ret o
  else if value =? 10 then emit_line (o_line o) ;; ret (mkOutput [] (inc64 (o_produced o)))
  else emit_output_char value o.

(** [None] is the answer [false]. *)
Definition decode_quad (quad : list Z) (o : Output) : prog K (option Output) :=
  let v i := decode_value (nth i quad 0) in
  let refused i := (v i =? -3) || (v i =? -1) in
  if refused 0%nat || refused 1%nat || refused 2%nat || refused 3%nat then ret None
  else if (v 0%nat <? 0) || (v 1%nat <? 0) then ret None
  else if (v 2%nat =? -2) && negb (v 3%nat =? -2) then ret None
  else
    let bits := Z.lor (Z.lor (Z.lor (Z.shiftl (v 0%nat) 18) (Z.shiftl (v 1%nat) 12))
                  (Z.shiftl (if v 2%nat <? 0 then 0 else v 2%nat) 6)) (if v 3%nat <? 0 then 0 else v 3%nat) in
    let! o := emit_decoded_byte (Z.land (Z.shiftr bits 16) 255) o in
    let! o := (if negb (v 2%nat =? -2) then emit_decoded_byte (Z.land (Z.shiftr bits 8) 255) o else ret o) in
    let! o := (if negb (v 3%nat =? -2) then emit_decoded_byte (Z.land bits 255) o else ret o) in
    ret (Some o).

(** The encoder's loop over the bytes of a read: the carry and the output. *)
Fixpoint encode_bytes (data : list Z) (carry : list Z) (o : Output) : prog K (list Z * Output) :=
  match data with
  | [] => ret (carry, o)
  | b :: data' =>
    let carry := carry ++ [b] in
    if zlen carry =? 3 then
      let! o := encode_triplet carry 3 o in encode_bytes data' [] o
    else encode_bytes data' carry o
  end.

(** The encoder: carry, output and [consumed] through the reads. *)
Definition encode (fd : Z) : prog K (Output * Z) :=
  let! (carry, o, consumed) := iter (fun '(carry, o, consumed) =>
    let! (read, data) := read_blocking fd 48 in
    if negb (r_error read =? ErrorNone) || (r_value read =? 0) then ret (inr (carry, o, consumed))
    else
      let! (carry, o) := encode_bytes data carry o in
      ret (inl (carry, o, w64 (consumed + r_value read)))) ([], mkOutput [] 0, 0) in
  let! o := (if negb (zlen carry =? 0) then encode_triplet carry (zlen carry) o else ret o) in
  (if negb (zlen (o_line o) =? 0) then emit_line (o_line o) else ret tt) ;;
  ret (o, consumed).

(** The decoder's loop over the bytes of a read: the quad and the output, or [None] once
    [invalid] is set. *)
Fixpoint decode_bytes (data : list Z) (quad : list Z) (o : Output) : prog K (option (list Z * Output)) :=
  match data with
  | [] => ret (Some (quad, o))
  | b :: data' =>
    let value := decode_value b in
    if value =? -3 then decode_bytes data' quad o
    else if value =? -1 then ret None
    else
      let quad := quad ++ [b] in
      if zlen quad =? 4 then
        let! decoded := decode_quad quad o in
        match decoded with Some o => decode_bytes data' [] o | None => ret None end
      else decode_bytes data' quad o
  end.

Definition decode (fd : Z) (close_when_done : bool) : prog K (Output * Z) :=
  let! state := iter (fun '(quad, o, consumed) =>
    let! (read, data) := read_blocking fd 48 in
    if negb (r_error read =? ErrorNone) || (r_value read =? 0) then ret (inr (Some (quad, o, consumed)))
    else
      let! step := decode_bytes data quad o in
      match step with
      | Some (quad, o) => ret (inl (quad, o, w64 (consumed + r_value read)))
      | None => ret (inr None)
      end) ([], mkOutput [] 0, 0) in
  match state with
  | Some ([], o, consumed) =>
    (if negb (zlen (o_line o) =? 0) then emit_line (o_line o) else ret tt) ;;
    ret (o, consumed)
  | _ =>
    close_if close_when_done fd ;;
    write_line (txt "[base64] decode error") ;;
    exit 3
  end.

(** From the opened descriptor to the end of [_start]. *)
Definition transcode (decode_mode : bool) (fd : Z) (path : list Z) (close_when_done : bool) : prog K unit :=
  write_text_line (txt "[base64] ") (txt "path ") path ;;
  write_text_line (txt "[base64] ") (txt "mode ") (if decode_mode then txt "decode" else txt "encode") ;;
  let! (o, consumed) := (if decode_mode then decode fd close_when_done else encode fd) in
  close_if close_when_done fd ;;
  write_hex_line (txt "[base64] ") (txt "bytes ") consumed ;;
  write_hex_line (txt "[base64] ") (txt "output ") (o_produced o) ;;
  exit (o_produced o).

Definition base64_main : prog K unit :=
  let! arg := get_arg 1 in
  let decode_mode := match arg with Some value => streq value (txt "-d") | None => false end in
  let! path := get_arg (if decode_mode then 2 else 1) in
  match path with
  | Some value =>
    let! opened := call (sys_open value) in
    if negb (r_error opened =? ErrorNone) || (r_value opened <? 3) then
      write_hex_line (txt "[base64] ") (txt "open error ") (r_error opened) ;; exit 2
    else transcode decode_mode (r_value opened) value true
  | None => transcode decode_mode StdinFd (txt "<stdin>") false
  end.

End program.

(** ** RFC 4648 *)

Definition sextet_char (n : Z) : Z :=
  if n <? 26 then 65 + n else if n <? 52 then 97 + (n - 26) else if n <? 62 then 48 + (n - 52) else if n =? 62 then 43 else 47.
Definition pad_char : Z := 61.

Fixpoint enc (msg : list Z) : list Z :=
  match msg with
  | a :: b :: c :: rest =>
    sextet_char (a / 4) :: sextet_char (a mod 4 * 16 + b / 16) :: sextet_char (b mod 16 * 4 + c / 64) ::
    sextet_char (c mod 64) :: enc rest
  | [a; b] => [sextet_char (a / 4); sextet_char (a mod 4 * 16 + b / 16); sextet_char (b mod 16 * 4); pad_char]
  | [a] => [sextet_char (a / 4); sextet_char (a mod 4 * 16); pad_char; pad_char]
  | [] => []
  end.

(** The value of a character of the alphabet: the sextet it stands for. *)
Definition sextet_of (c : Z) : option Z := List.find (fun n => sextet_char n =? c) (seqZ 0 64).

(** One group of four characters, and a text of such groups. *)
Definition dec_group (a b c d : Z) : option (list Z) :=
  match sextet_of a, sextet_of b with
  | Some x, Some y =>
    let first := x * 4 + y / 16 in
    if c =? pad_char then (if d =? pad_char then Some [first] else None)
    else match sextet_of c with
         | Some z =>
           let second := y mod 16 * 16 + z / 4 in
           if d =? pad_char then Some [first; second]
           else match sextet_of d with Some w => Some [first; second; z mod 4 * 64 + w] | None => None end
         | None => None
         end
  | _, _ => None
  end.

Fixpoint dec (text : list Z) : option (list Z) :=
  match text with
  | [] => Some []
  | a :: b :: c :: d :: rest =>
    match dec_group a b c d with Some group => app group <$> dec rest | None => None end
  | _ => None
  end.

(** White space is not part of the text. *)
Definition is_space (c : Z) : Prop := c = 13 \/ c = 10 \/ c = 9 \/ c = 32.
#[export] Instance is_space_dec c : Decision (is_space c).
Proof. unfold is_space. apply _. Defined.
Definition squeeze (text : list Z) : list Z := filter (fun c => ~ is_space c) text.

(** *** Decoding undoes encoding *)

Lemma sextet_of_char n : 0 <= n < 64 -> sextet_of (sextet_char n) = Some n.
Proof.
  intros Hn. assert (Hall : forallb (fun n => bool_decide (sextet_of (sextet_char n) = Some n)) (seqZ 0 64) = true)
    by (vm_compute; reflexivity).
  rewrite forallb_forall in Hall. specialize (Hall n). rewrite <-list_elem_of_In, elem_of_seqZ in Hall.
  specialize (Hall ltac:(lia)). by apply bool_decide_eq_true in Hall.
Qed.

Lemma sextet_char_pad n : 0 <= n < 64 -> sextet_char n <> pad_char.
Proof. intros Hn. unfold sextet_char, pad_char. repeat case_match; bsimp; lia. Qed.

Lemma dec_enc msg : Forall is_byte msg -> dec (enc msg) = Some msg.
Proof.
  assert (Hsx : forall n, 0 <= n < 64 -> (sextet_char n =? pad_char) = false) by (intros; by apply Z.eqb_neq, sextet_char_pad).
  revert msg. fix IH 1. intros msg Hm. destruct msg as [|a [|b [|c rest]]]; [done|..];
    rewrite !Forall_cons in Hm; unfold is_byte in Hm; cbn [enc dec]; unfold dec_group.
  - destruct Hm as (Ha & _). rewrite !sextet_of_char by (Z.to_euclidean_division_equations; lia).
    rewrite Z.eqb_refl. cbn. do 2 f_equal. Z.to_euclidean_division_equations; lia.
  - destruct Hm as (Ha & Hb & _). rewrite !sextet_of_char, !Hsx, Z.eqb_refl by (Z.to_euclidean_division_equations; lia).
    cbn. do 2 f_equal; [|f_equal]; Z.to_euclidean_division_equations; lia.
  - destruct Hm as (Ha & Hb & Hc & Hrest). rewrite !sextet_of_char, !Hsx by (Z.to_euclidean_division_equations; lia).
    rewrite (IH rest Hrest). cbn. do 2 f_equal; [|f_equal; [|f_equal]]; Z.to_euclidean_division_equations; lia.
Qed.

(** ** Printing in lines *)

(** The lines that are out and the one being filled. *)
Definition page : Type := list (list Z) * list Z.
Definition put (p : page) (c : Z) : page := if decide (79 <= length p.2)%nat then (p.1 ++ [p.2], [c]) else (p.1, p.2 ++ [c]).
Definition put_byte (p : page) (c : Z) : page :=
  if decide (c = 13) then p else if decide (c = 10) then (p.1 ++ [p.2], []) else put p c.

(** What lines look like on the standard output; a line ends at a NUL in it. *)
Definition shown (lines : list (list Z)) : list Z :=
  concat ((fun l => txt "[base64] " ++ until_nul l ++ [10]) <$> lines).

Lemma shown_app a b : shown (a ++ b) = shown a ++ shown b.
Proof. unfold shown. by rewrite fmap_app, concat_app. Qed.

(** A text in lines of 79 characters. *)
Fixpoint lines79 (fuel : nat) (text : list Z) : list (list Z) :=
  match fuel, text with
  | S fuel, _ :: _ => take 79 text :: lines79 fuel (drop 79 text)
  | _, _ => []
  end.

(** The lines of a page when the last one is sent out too, unless it is empty. *)
Definition page_lines (p : page) : list (list Z) := p.1 ++ match p.2 with [] => [] | _ => [p.2] end.

Lemma lines79_concat lines : forall last fuel,
  Forall (fun l => length l = 79%nat) lines -> (length last <= 79)%nat -> (length lines < fuel)%nat ->
  lines79 fuel (concat lines ++ last) = lines ++ match last with [] => [] | _ => [last] end.
Proof.
  induction lines as [|l lines IH]; intros last fuel Hl Hlast Hf; (destruct fuel as [|fuel]; [lia|]).
  - cbn [concat app]. destruct last as [|c last]; [done|]. cbn [lines79]. rewrite take_ge, drop_ge by done. by destruct fuel.
  - apply Forall_cons in Hl as [Hl Hls]. cbn [concat app]. rewrite <-app_assoc.
    destruct (l ++ concat lines ++ last) as [|c rest] eqn:Heq.
    { apply (f_equal length) in Heq. rewrite length_app in Heq. simpl in Heq. lia. }
    cbn [lines79]. rewrite <-Heq. rewrite take_app_length', drop_app_length' by done. f_equal.
    apply IH; [done|done|simpl in Hf; lia].
Qed.

Lemma put_lines text : 
  let p := foldl put ([], []) text in
  Forall (fun l => length l = 79%nat) p.1 /\ (length p.2 <= 79)%nat /\ concat p.1 ++ p.2 = text.
Proof.
  induction text as [|c text IH] using rev_ind; [cbn; split_and!; [constructor|lia|done]|].
  rewrite foldl_app. cbn [foldl]. set (p := foldl put _ text) in *. destruct IH as (Hf & Hl & Hc).
  unfold put. case_decide; cbn [fst snd].
  - split_and!; [apply Forall_app_2; [done|constructor; [lia|constructor]]|simpl; lia|].
    rewrite concat_app. cbn [concat]. by rewrite app_nil_r, Hc.
  - split_and!; [done|rewrite length_app; simpl; lia|]. by rewrite app_assoc, Hc.
Qed.

Lemma page_lines79 text : page_lines (foldl put ([], []) text) = lines79 (S (length text)) text.
Proof.
  pose proof (put_lines text) as (Hf & Hl & Hc). set (p := foldl put _ text) in *. unfold page_lines.
  rewrite <-Hc at 2. symmetry. apply lines79_concat; [done|done|].
  assert (Hlen : (length p.1 <= length text)%nat); [|lia].
  rewrite <-Hc, length_app. clear - Hf. induction Hf as [|l ls Hl _ IH]; simpl; [lia|]. rewrite length_app. lia.
Qed.

Section rules.
Context {K : Type} `{!Sys K} `{!SysLaws K}.
Implicit Types k : K.

(** The kernel when [text] has followed the output [v.1], with the inputs [v.2]. *)
Definition view : Type := list Z * (Z -> list Z).
Definition at_view (v : view) (text : list Z) (k : K) : Prop :=
  good k /\ output k = v.1 ++ text /\ forall fd, input fd k = v.2 fd.

Lemma at_view_wrote v a b k k' : at_view v a k -> wrote b k k' -> at_view v (a ++ b) k'.
Proof.
  intros (G & O & I) (G' & O' & I'). split_and!; [done| |intros fd; by rewrite I'].
  by rewrite O', O, app_assoc.
Qed.

(** The output record and the kernel are those of a page. *)
Definition on_page (v : view) (p : page) (n : Z) (o : Output) (k : K) : Prop :=
  at_view v (shown p.1) k /\ o = mkOutput p.2 (w64 n) /\ (length p.2 <= 79)%nat.

Lemma wp_emit_line text k (Q : unit -> K -> Prop) E :
  good k -> (length text <= 79)%nat -> (forall k', wrote (shown [text]) k k' -> Q tt k') -> wp (emit_line text) k Q E.
Proof.
  intros Hg Hlen HQ. apply wp_bind, wp_write_text; [done..|]. intros k1 H1.
  apply wp_write_line; [apply H1| |].
  { pose proof (until_nul_length text). unfold zlen. lia. }
  intros k2 H2. apply HQ.
  pose proof (wrote_trans _ _ _ _ _ H1 H2) as H. unfold shown. cbn. by rewrite app_nil_r.
Qed.

Lemma wp_emit_line_page v p n o k (Q : unit -> K -> Prop) E :
  on_page v p n o k -> (forall k', at_view v (shown (p.1 ++ [p.2])) k' -> Q tt k') -> wp (emit_line (o_line o)) k Q E.
Proof.
  intros (Hw & -> & Hsh) HQ. apply wp_emit_line; [apply Hw|done|]. intros k' Hk'. apply HQ. rewrite shown_app. by eapply at_view_wrote.
Qed.

Lemma wp_emit_output_char v p n c o k (Q : Output -> K -> Prop) E :
  on_page v p n o k -> (forall o' k', on_page v (put p c) (n + 1) o' k' -> Q o' k') ->
  wp (emit_output_char c o) k Q E.
Proof.
  intros Hp HQ. pose proof Hp as (Hw & -> & Hsh). unfold emit_output_char. cbn [o_line o_produced].
  assert (Hn : inc64 (w64 n) = w64 (n + 1)) by (unfold inc64, w64; by rewrite Zplus_mod_idemp_l).
  apply wp_bind. destruct (Z.leb_spec 80 (zlen p.2 + 1)) as [Hf|Hf]; unfold zlen in Hf.
  - apply wp_bind, (wp_emit_line_page v p n _ k _ _ Hp). intros k1 H1. apply wp_ret, wp_ret, HQ.
    unfold put. rewrite decide_True by lia. split_and!; [done|by rewrite Hn|simpl; lia].
  - apply wp_ret, wp_ret, HQ. unfold put. rewrite decide_False by lia. split_and!; [done|by rewrite Hn|cbn; rewrite length_app; simpl; lia].
Qed.

Lemma wp_emit_decoded_byte v p n c o k (Q : Output -> K -> Prop) E :
  on_page v p n o k ->
  (forall o' k', on_page v (put_byte p c) (if decide (c = 13) then n else n + 1) o' k' -> Q o' k') ->
  wp (emit_decoded_byte c o) k Q E.
Proof.
  intros Hp HQ. unfold emit_decoded_byte. unfold put_byte in HQ.
  destruct (Z.eqb_spec c 13) as [->|]; [by apply wp_ret, HQ|]. rewrite decide_False in HQ by done.
  destruct (Z.eqb_spec c 10) as [->|].
  - apply wp_bind, (wp_emit_line_page v p n o k _ _ Hp). intros k1 H1. apply wp_ret, HQ.
    destruct Hp as (_ & -> & _). split_and!; [done| |simpl; lia]. cbn. f_equal. unfold inc64, w64. by rewrite Zplus_mod_idemp_l.
  - rewrite decide_False in HQ by done. rewrite decide_False in HQ by done. by apply (wp_emit_output_char v p n).
Qed.

(** The bytes a text prints: carriage returns are dropped. *)
Definition printed (msg : list Z) : Z := zlen (filter (fun c => c <> 13) msg).

Lemma printed_cons c msg : printed (c :: msg) = (if decide (c = 13) then 0 else 1) + printed msg.
Proof. unfold printed. rewrite filter_cons. unfold zlen. repeat case_decide; try done. simpl. lia. Qed.

Lemma printed_app a b : printed (a ++ b) = printed a + printed b.
Proof. unfold printed, zlen. rewrite filter_app, length_app. lia. Qed.

(** Four characters encode three bytes, or the one or two that are left. *)
Lemma encode_digits a b c :
  is_byte a -> is_byte b -> is_byte c ->
  let bits := Z.lor (Z.lor (Z.shiftl a 16) (Z.shiftl b 8)) c in
  let digit s := nth (Z.to_nat (Z.land (Z.shiftr bits s) 63)) kAlphabet 0 in
  digit 18 = sextet_char (a / 4) /\ digit 12 = sextet_char (a mod 4 * 16 + b / 16) /\
  digit 6 = sextet_char (b mod 16 * 4 + c / 64) /\ digit 0 = sextet_char (c mod 64).
Proof.
  intros Ha Hb Hc bits digit. unfold is_byte in Ha, Hb, Hc.
  assert (Hbits : bits = a * 65536 + b * 256 + c).
  { unfold bits. rewrite !Z.shiftl_mul_pow2 by lia.
    rewrite (lor_add (a * 2 ^ 16) _ 16) by (try lia; apply Z.mod_mul; lia).
    rewrite (lor_add _ c 8) by (try lia; replace (a * 2 ^ 16 + b * 2 ^ 8) with ((a * 256 + b) * 2 ^ 8) by lia; apply Z.mod_mul; lia).
    lia. }
  assert (Hall : forallb (fun n => nth (Z.to_nat n) kAlphabet 0 =? sextet_char n) (seqZ 0 64) = true) by (vm_compute; reflexivity).
  assert (Hd : forall s n, 0 <= s -> 0 <= n < 64 -> bits / 2 ^ s mod 64 = n -> digit s = sextet_char n).
  { intros s n Hs Hn Hv. unfold digit. change 63 with (2 ^ 6 - 1). rewrite land_low, Z.shiftr_div_pow2 by lia.
    change (2 ^ 6) with 64. rewrite Hv. rewrite forallb_forall in Hall. specialize (Hall n).
    rewrite <-list_elem_of_In, elem_of_seqZ in Hall. apply Z.eqb_eq, Hall. lia. }
  rewrite Hbits in Hd. split_and!; apply Hd; try lia; Z.to_euclidean_division_equations; lia.
Qed.

Lemma enc_app m : forall a b, length a = (3 * m)%nat -> enc (a ++ b) = enc a ++ enc b.
Proof.
  induction m as [|m IH]; intros a b Ha; [by apply length_zero_iff_nil in Ha as ->|].
  destruct a as [|x [|y [|z a]]]; cbn [length] in Ha; try lia. cbn [app enc]. by rewrite IH by lia.
Qed.

Lemma enc_triple data : length data = 3%nat -> length (enc data) = 4%nat.
Proof. intros Hd. by destruct data as [|a [|b [|c [|]]]]. Qed.

Lemma wp_encode_triplet v p n data o k (Q : Output -> K -> Prop) E :
  (0 < length data <= 3)%nat -> Forall is_byte data -> on_page v p n o k ->
  (forall o' k', on_page v (foldl put p (enc data)) (n + 4) o' k' -> Q o' k') ->
  wp (encode_triplet data (zlen data) o) k Q E.
Proof.
  intros Hl Hd Hp HQ. unfold encode_triplet.
  set (a := if 0 <? zlen data then _ else 0). set (b := if 1 <? zlen data then _ else 0).
  set (c := if 2 <? zlen data then _ else 0).
  assert (Habc : is_byte a /\ is_byte b /\ is_byte c /\
    enc data = [sextet_char (a / 4); sextet_char (a mod 4 * 16 + b / 16);
                if 1 <? zlen data then sextet_char (b mod 16 * 4 + c / 64) else 61;
                if 2 <? zlen data then sextet_char (c mod 64) else 61]).
  { subst a b c. destruct data as [|x [|y [|z [|]]]]; cbn [length] in Hl; try lia;
      rewrite !Forall_cons in Hd; cbn [zlen length nth enc]; unfold is_byte in *.
    - change (zlen [x]) with 1. cbn. rewrite Z.add_0_r. split_and!; [lia..|done].
    - change (zlen [x; y]) with 2. cbn. rewrite Z.add_0_r. split_and!; [lia..|done].
    - change (zlen [x; y; z]) with 3. cbn. split_and!; [lia..|done]. }
  destruct Habc as (Ha & Hb & Hc & Henc). rewrite Henc in HQ. clear Henc.
  pose proof (encode_digits a b c Ha Hb Hc) as Hdig. cbv zeta in Hdig. destruct Hdig as (D1 & D2 & D3 & D4).
  rewrite D1, D2, D3, D4. clear D1 D2 D3 D4.
  apply wp_bind, (wp_emit_output_char v p n); [done|]. intros o1 k1 H1.
  apply wp_bind, (wp_emit_output_char v _ _ _ _ _ _ _ H1). intros o2 k2 H2.
  apply wp_bind, (wp_emit_output_char v _ _ _ _ _ _ _ H2). intros o3 k3 H3.
  apply (wp_emit_output_char v _ _ _ _ _ _ _ H3). intros o4 k4 H4. apply HQ.
  replace (n + 4) with (n + 1 + 1 + 1 + 1) by lia. exact H4.
Qed.

(** The bytes of a read, after a carry: whole groups are out, less than one is left. *)
Lemma wp_encode_bytes v data : forall carry p n o k (Q : list Z * Output -> K -> Prop) E,
  (length carry < 3)%nat -> Forall is_byte carry -> Forall is_byte data -> on_page v p n o k ->
  (forall full carry' o' k' m, carry ++ data = full ++ carry' -> length full = (3 * m)%nat -> (length carry' < 3)%nat ->
     on_page v (foldl put p (enc full)) (n + zlen (enc full)) o' k' -> Q (carry', o') k') ->
  wp (encode_bytes data carry o) k Q E.
Proof.
  induction data as [|b data IH]; intros carry p n o k Q E Hc Hbc Hbd Hp HQ; cbn [encode_bytes].
  { apply wp_ret, (HQ [] carry o k 0%nat); [by rewrite app_nil_r|done|done|]. by rewrite Z.add_0_r. }
  apply Forall_cons in Hbd as [Hb Hbd].
  assert (Hbc' : Forall is_byte (carry ++ [b])) by (apply Forall_app_2; [done|by constructor]).
  assert (Hlen : length (carry ++ [b]) = S (length carry)) by (rewrite length_app; simpl; lia).
  destruct (Z.eqb_spec (zlen (carry ++ [b])) 3) as [H3|H3].
  - apply wp_bind. rewrite <-H3. apply (wp_encode_triplet v p n); [unfold zlen in H3; lia|done|done|].
    intros o1 k1 H1. apply (IH [] _ _ _ _ _ _ ltac:(simpl; lia) ltac:(constructor) Hbd H1).
    intros full carry' o' k' m Hsplit Hfull Hc' Hp'. apply (HQ (carry ++ [b] ++ full) carry' o' k' (S m)).
    + simpl in Hsplit. rewrite Hsplit. by rewrite <-!app_assoc.
    + rewrite app_assoc, length_app. unfold zlen in H3. lia.
    + done.
    + rewrite app_assoc, (enc_app 1), foldl_app by (unfold zlen in H3; lia).
      unfold zlen in *. rewrite length_app, (enc_triple (carry ++ [b])) by lia. rewrite Nat2Z.inj_add, Z.add_assoc. exact Hp'.
  - apply (IH (carry ++ [b]) p n); [unfold zlen in H3; lia|done|done|done|].
    intros full carry' o' k' m Hsplit. apply HQ. by rewrite <-Hsplit, <-app_assoc.
Qed.

(** The end of both modes: the last line goes out. *)
Lemma wp_last_line v p n o k (Q : unit -> K -> Prop) E :
  on_page v p n o k -> (forall k', at_view v (shown (page_lines p)) k' -> Q tt k') ->
  wp (if negb (zlen (o_line o) =? 0) then emit_line (o_line o) else ret tt) k Q E.
Proof.
  intros Hp HQ. pose proof Hp as (Hw & Ho & _). unfold page_lines in HQ. rewrite Ho in *. cbn [o_line].
  destruct (p.2) as [|c l] eqn:Hl; cbn [negb].
  - apply wp_ret, HQ. by rewrite app_nil_r.
  - change (zlen (c :: l) =? 0) with false. cbn [negb]. rewrite <-Hl in *. by apply (wp_emit_line_page v p n (mkOutput p.2 (w64 n))).
Qed.

(** What the encoder has done with the input it has consumed. *)
Definition encoding (fd : Z) (k0 : K) (s : list Z * Output * Z) (k : K) : Prop :=
  let '(carry, o, consumed) := s in
  exists full m inp, input fd k0 = full ++ carry ++ input fd k /\ length full = (3 * m)%nat /\ (length carry < 3)%nat /\
    on_page (output k0, inp) (foldl put ([], []) (enc full)) (zlen (enc full)) o k /\ consumed = w64 (zlen (full ++ carry)).

Lemma encoding_read fd k0 carry o consumed k1 k2 data :
  Forall is_byte (input fd k0) ->
  encoding fd k0 (carry, o, consumed) k1 -> good k2 -> output k2 = output k1 -> input fd k1 = data ++ input fd k2 ->
  (length carry < 3)%nat /\ Forall is_byte carry /\ Forall is_byte data /\
  exists full m inp, input fd k0 = full ++ carry ++ data ++ input fd k2 /\ length full = (3 * m)%nat /\
    on_page (output k0, inp) (foldl put ([], []) (enc full)) (zlen (enc full)) o k2 /\ inp fd = input fd k2 /\
    consumed = w64 (zlen (full ++ carry)).
Proof.
  intros Hb (full & m & inp & Hin & Hm & Hc & (Hv & Ho & Hsh) & Hcons) Hg Hout Hd.
  rewrite Hin, Hd, !Forall_app in Hb. destruct Hb as (_ & ? & ? & _). split_and!; [done..|].
  exists full, m, (fun fd => input fd k2). rewrite Hin, Hd. split_and!; [done|done| |done|done].
  split; [|done]. destruct Hv as (_ & Ho1 & _). split_and!; [done| |done]. by rewrite Hout.
Qed.

(** The end of the encoder: the carry and the last line go out. *)
Lemma wp_encode_end fd k0 carry o consumed k1 k2 (Q : Output * Z -> K -> Prop) E :
  Forall is_byte (input fd k0) -> encoding fd k0 (carry, o, consumed) k1 -> input fd k1 = [] -> good k2 -> output k2 = output k1 ->
  (forall o k', good k' -> let text := enc (input fd k0) in
     output k' = output k0 ++ shown (lines79 (S (length text)) text) -> o_produced o = w64 (zlen text) ->
     Q (o, w64 (zlen (input fd k0))) k') ->
  wp (let! o := (if negb (zlen carry =? 0) then encode_triplet carry (zlen carry) o else ret o) in
      (if negb (zlen (o_line o) =? 0) then emit_line (o_line o) else ret tt) ;; ret (o, consumed)) k2 Q E.
Proof.
  intros Hb (full & m & inp & Hi & Hm & Hc & (Hv & Ho & Hsh) & Hcons) Hend Hg2 Ho2 HQ.
  rewrite Hend, app_nil_r in Hi. rewrite Hi in HQ. rewrite Hi, Forall_app in Hb. destruct Hb as [_ Hbc].
  assert (Hp : on_page (output k0, fun fd => input fd k2) (foldl put ([], []) (enc full)) (zlen (enc full)) o k2).
  { split; [|done]. destruct Hv as (_ & Hov & _). split_and!; [done| |done]. by rewrite Ho2. }
  rewrite Hcons. apply wp_bind.
  assert (Hfin : forall o' k', on_page (output k0, fun fd => input fd k2) (foldl put ([], []) (enc (full ++ carry)))
      (zlen (enc (full ++ carry))) o' k' ->
    wp ((if negb (zlen (o_line o') =? 0) then emit_line (o_line o') else ret tt) ;; ret (o', w64 (zlen (full ++ carry)))) k' Q E).
  { intros o' k' Hp'. apply wp_bind. apply (wp_last_line _ _ _ _ _ _ _ Hp'). intros k3 (Hg3 & Ho3 & _).
    apply wp_ret, HQ; [done| |by destruct Hp' as (_ & -> & _)]. by rewrite Ho3, page_lines79. }
  destruct carry as [|c carry].
  - apply wp_ret, Hfin. by rewrite app_nil_r.
  - change (zlen (c :: carry) =? 0) with false. cbn [negb].
    eapply wp_encode_triplet; [simpl in *; lia|done|exact Hp|]. intros o' k' Hp'. apply Hfin.
    rewrite (enc_app m), foldl_app by done. unfold zlen in *. rewrite length_app, Nat2Z.inj_add.
    replace (length (enc (c :: carry))) with 4%nat; [done|].
    destruct carry as [|? [|? [|]]]; simpl in Hc; try lia; done.
Qed.

Lemma wp_encode fd k0 (Q : Output * Z -> K -> Prop) E :
  good k0 -> Forall is_byte (input fd k0) ->
  (forall o k', good k' -> let text := enc (input fd k0) in
     output k' = output k0 ++ shown (lines79 (S (length text)) text) -> o_produced o = w64 (zlen text) ->
     Q (o, w64 (zlen (input fd k0))) k') ->
  wp (encode fd) k0 Q E.
Proof.
  intros Hg Hb HQ. unfold encode. apply wp_bind.
  apply (wp_iter _ (encoding fd k0) (fun _ k => length (input fd k)) (fun _ _ => 0%nat)).
  2: { exists [], 0%nat, (fun fd => input fd k0). split_and!; [done|done|simpl; lia| |done]. split_and!; [|done|simpl; lia].
       split_and!; [done| |done]. by rewrite app_nil_r. }
  intros [[carry o] consumed] k1 He.
  assert (Hg1 : good k1) by (destruct He as (? & ? & ? & _ & _ & _ & [Hv _] & _); apply Hv).
  apply wp_bind, wp_read_blocking; [done|lia|]. intros [r data] k2 (Hg2 & Ho2 & Hx). cbn in Hx.
  destruct Hx as [(Hend & Hv & _)|(-> & Hz & Hin)].
  - rewrite Hv, orb_true_r. apply wp_ret. by apply (wp_encode_end fd k0 carry o consumed k1).
  - cbn. destruct (Z.eqb_spec (zlen data) 0) as [|_]; [lia|]. cbn. apply wp_bind.
    destruct (encoding_read _ _ _ _ _ _ _ _ Hb He Hg2 Ho2 Hin) as (Hc & Hbc & Hbd & full & m & inp & Hi & Hm & Hp & Hinp & Hcons).
    apply (wp_encode_bytes _ _ _ _ _ _ _ _ _ Hc Hbc Hbd Hp). intros full' carry' o' k' m' Hsplit Hm' Hc' Hp'.
    assert (Hik : input fd k' = input fd k2) by (destruct Hp' as [(_ & _ & I) _]; by rewrite I).
    apply wp_ret. split; [|left; rewrite Hik, Hin, length_app; unfold zlen in Hz; lia].
    exists (full ++ full'), (m + m')%nat, inp. split_and!.
    + rewrite Hi, Hik, <-app_assoc, (app_assoc full'), <-Hsplit. by rewrite <-!app_assoc.
    + rewrite length_app. lia.
    + done.
    + rewrite (enc_app m), foldl_app by done. unfold zlen in *. rewrite length_app, Nat2Z.inj_add. exact Hp'.
    + rewrite Hcons, <-app_assoc, <-Hsplit. unfold w64. rewrite Zplus_mod_idemp_l. f_equal. unfold zlen.
      rewrite !length_app. lia.
Qed.

(** *** Decoding *)

(** What [decode_value] says of a byte. *)
Inductive classified (c : Z) : Z -> Prop :=
  | is_sextet n : sextet_of c = Some n -> 0 <= n < 64 -> c <> pad_char -> ~ is_space c -> classified c n
  | is_pad : c = pad_char -> sextet_of c = None -> ~ is_space c -> classified c (-2)
  | is_blank : is_space c -> classified c (-3)
  | is_bad : sextet_of c = None -> c <> pad_char -> ~ is_space c -> classified c (-1).

Lemma decode_value_classifies c : is_byte c -> classified c (decode_value c).
Proof.
  intros Hc. assert (Hall : forallb (fun c =>
    match sextet_of c with
    | Some n => (decode_value c =? n) && (0 <=? n) && (n <? 64) && bool_decide (c <> pad_char) && bool_decide (~ is_space c)
    | None => if decide (is_space c) then decode_value c =? -3
              else if decide (c = pad_char) then decode_value c =? -2 else decode_value c =? -1
    end) (seqZ 0 256) = true) by (vm_compute; reflexivity).
  rewrite forallb_forall in Hall. specialize (Hall c). rewrite <-list_elem_of_In, elem_of_seqZ in Hall.
  unfold is_byte in Hc. specialize (Hall ltac:(lia)). destruct (sextet_of c) as [n|] eqn:Hs.
  - bsimp. rewrite bool_decide_eq_true in *. repeat match goal with H : bool_decide _ = true |- _ => apply bool_decide_eq_true in H end.
    replace (decode_value c) with n. by constructor.
  - repeat case_decide; apply Z.eqb_eq in Hall as ->; by constructor.
Qed.

Lemma dec_app m : forall a b, length a = (4 * m)%nat ->
  dec (a ++ b) = match dec a with Some x => app x <$> dec b | None => None end.
Proof.
  induction m as [|m IH]; intros a b Ha.
  { apply length_zero_iff_nil in Ha as ->. cbn. by destruct (dec b). }
  destruct a as [|c1 [|c2 [|c3 [|c4 a]]]]; cbn [length] in Ha; try lia. cbn [app dec].
  destruct (dec_group c1 c2 c3 c4) as [g|]; [|done]. rewrite IH by lia.
  destruct (dec a) as [x|]; [|done]. cbn. destruct (dec b); cbn; [|done]. by rewrite app_assoc.
Qed.

(** A group with a character of no value, or too short, is refused. *)
Definition bad (c : Z) : Prop := sextet_of c = None /\ c <> pad_char.

Lemma dec_group_bad a b c d : bad a \/ bad b \/ bad c \/ bad d -> dec_group a b c d = None.
Proof.
  unfold dec_group. intros [[Hs Hp]|[[Hs Hp]|[[Hs Hp]|[Hs Hp]]]]; rewrite Hs || idtac.
  - done.
  - by destruct (sextet_of a).
  - destruct (sextet_of a), (sextet_of b); try done. by destruct (Z.eqb_spec c pad_char).
  - destruct (sextet_of a), (sextet_of b); try done. destruct (Z.eqb_spec d pad_char) as [|_]; [done|].
    destruct (c =? pad_char); [done|]. destruct (sextet_of c); [|done]. by rewrite ?Hs.
Qed.

Lemma dec_bad quad c rest : (length quad < 4)%nat -> bad c -> dec (quad ++ c :: rest) = None.
Proof.
  intros Hq Hc. destruct quad as [|a [|b [|d [|]]]]; cbn [length] in Hq; try lia; cbn [app dec];
    (destruct rest as [|r1 [|r2 [|r3 rest]]]; try done; try (rewrite dec_group_bad by tauto; done)).
Qed.

Lemma dec_short quad : (0 < length quad < 4)%nat -> dec quad = None.
Proof. intros Hq. destruct quad as [|a [|b [|d [|]]]]; cbn [length] in Hq; try lia; done. Qed.

Lemma quad_bits x y z w :
  0 <= x < 64 -> 0 <= y < 64 -> 0 <= z < 64 -> 0 <= w < 64 ->
  let bits := Z.lor (Z.lor (Z.lor (Z.shiftl x 18) (Z.shiftl y 12)) (Z.shiftl z 6)) w in
  Z.land (Z.shiftr bits 16) 255 = x * 4 + y / 16 /\ Z.land (Z.shiftr bits 8) 255 = y mod 16 * 16 + z / 4 /\
  Z.land bits 255 = z mod 4 * 64 + w.
Proof.
  intros Hx Hy Hz Hw bits.
  assert (Hbits : bits = x * 262144 + y * 4096 + z * 64 + w).
  { unfold bits. rewrite !Z.shiftl_mul_pow2 by lia.
    rewrite (lor_add (x * 2 ^ 18) _ 18) by (try lia; apply Z.mod_mul; lia).
    rewrite (lor_add _ (z * 2 ^ 6) 12) by (try lia; replace (x * 2 ^ 18 + y * 2 ^ 12) with ((x * 64 + y) * 2 ^ 12) by lia; apply Z.mod_mul; lia).
    rewrite (lor_add _ w 6) by (try lia; replace (x * 2 ^ 18 + y * 2 ^ 12 + z * 2 ^ 6) with ((x * 4096 + y * 64 + z) * 2 ^ 6) by lia; apply Z.mod_mul; lia).
    lia. }
  change 255 with (2 ^ 8 - 1). rewrite !land_low, !Z.shiftr_div_pow2, Hbits by lia.
  split_and!; Z.to_euclidean_division_equations; lia.
Qed.

(** Bytes that follow one another on a page. *)
Lemma wp_emit_optional v p n c o k (emit : bool) (Q : Output -> K -> Prop) E :
  on_page v p n o k ->
  (forall o' k', on_page v (foldl put_byte p (if emit then [c] else [])) (n + printed (if emit then [c] else [])) o' k' -> Q o' k') ->
  wp (if emit then emit_decoded_byte c o else ret o) k Q E.
Proof.
  intros Hp HQ. destruct emit; [|by apply wp_ret, HQ; rewrite Z.add_0_r].
  apply (wp_emit_decoded_byte v p n); [done|]. intros o' k' Hp'. apply HQ. rewrite printed_cons. cbn [foldl].
  change (printed []) with 0. case_decide; by rewrite ?Z.add_0_r.
Qed.

(** The group once its values are known: the code's tests and the standard's agree. *)
Definition quad_values (va vb vc vd : Z) : option (list Z) :=
  if (va <? 0) || (vb <? 0) || (vc <? -2) || (vc =? -1) || (vd <? -2) || (vd =? -1) || ((vc =? -2) && negb (vd =? -2)) then None
  else Some ([va * 4 + vb / 16] ++ (if vc =? -2 then [] else [vb mod 16 * 16 + vc / 4]) ++
             (if vd =? -2 then [] else [vc mod 4 * 64 + vd])).

Lemma dec_group_values a b c d va vb vc vd :
  classified a va -> classified b vb -> classified c vc -> classified d vd ->
  ~ is_space a -> ~ is_space b -> ~ is_space c -> ~ is_space d -> dec_group a b c d = quad_values va vb vc vd.
Proof.
  intros Ca Cb Cc Cd Sa Sb Sc Sd. unfold dec_group, quad_values.
  assert (Hneg : forall x, 0 <= x < 64 -> (x <? 0) = false /\ (x <? -2) = false /\ (x =? -1) = false /\ (x =? -2) = false).
  { intros x Hx. split_and!; first [apply Z.ltb_ge|apply Z.eqb_neq]; lia. }
  destruct Ca as [x Ha Hx _ _| -> Ha _|Ha|Ha ? _]; [|by rewrite Ha|done|by rewrite Ha]. rewrite Ha.
  destruct (Hneg x Hx) as (-> & _).
  destruct Cb as [y Hb Hy _ _| -> Hb _|Hb|Hb ? _]; [|by rewrite Hb|done|by rewrite Hb]. rewrite Hb.
  destruct (Hneg y Hy) as (-> & _).
  destruct Cc as [z Hc Hz Hcp _| -> Hc _|Hc|Hc Hcp _]; [..|done|].
  - destruct (Z.eqb_spec c pad_char) as [|_]; [done|]. rewrite Hc. destruct (Hneg z Hz) as (_ & -> & -> & ->).
    destruct Cd as [w Hd Hw Hdp _| -> Hd _|Hd|Hd Hdp _]; [..|done|].
    + destruct (Z.eqb_spec d pad_char) as [|_]; [done|]. rewrite Hd. by destruct (Hneg w Hw) as (_ & -> & -> & ->).
    + done.
    + destruct (Z.eqb_spec d pad_char) as [|_]; [done|]. by rewrite Hd.
  - rewrite Z.eqb_refl. destruct Cd as [w Hd Hw Hdp _| -> Hd _|Hd|Hd Hdp _]; [..|done|].
    + destruct (Z.eqb_spec d pad_char) as [|_]; [done|]. by destruct (Hneg w Hw) as (_ & -> & -> & ->).
    + done.
    + by destruct (Z.eqb_spec d pad_char) as [|_].
  - destruct (Z.eqb_spec c pad_char) as [|_]; [done|]. by rewrite Hc.
Qed.

Lemma wp_decode_quad v p n a b c d o k (Q : option Output -> K -> Prop) E :
  Forall is_byte [a; b; c; d] -> Forall (fun c => ~ is_space c) [a; b; c; d] -> on_page v p n o k ->
  match dec_group a b c d with
  | Some g => forall o' k', on_page v (foldl put_byte p g) (n + printed g) o' k' -> Q (Some o') k'
  | None => Q None k
  end -> wp (decode_quad [a; b; c; d] o) k Q E.
Proof.
  rewrite !Forall_cons. intros (Ba & Bb & Bc & Bd & _) (Sa & Sb & Sc & Sd & _) Hp.
  pose proof (decode_value_classifies a Ba) as Ca. pose proof (decode_value_classifies b Bb) as Cb.
  pose proof (decode_value_classifies c Bc) as Cc. pose proof (decode_value_classifies d Bd) as Cd.
  rewrite (dec_group_values _ _ _ _ _ _ _ _ Ca Cb Cc Cd Sa Sb Sc Sd).
  unfold decode_quad. cbn [nth]. clear Sa Sb Sc Sd Ba Bb Bc Bd.
  assert (Hr : forall c v, classified c v -> -3 <= v < 64) by (intros ? ? []; lia).
  pose proof (Hr _ _ Ca). pose proof (Hr _ _ Cb). pose proof (Hr _ _ Cc). pose proof (Hr _ _ Cd). clear Ca Cb Cc Cd Hr.
  generalize dependent (decode_value a). intros va. generalize dependent (decode_value b). intros vb.
  generalize dependent (decode_value c). intros vc. generalize dependent (decode_value d). intros vd. intros.
  match goal with H : context [quad_values] |- _ => rename H into HQ end. unfold quad_values in HQ.
  match type of HQ with context [if ?g then None else _] => destruct g eqn:HG end.
  { repeat match goal with |- wp (if ?g then ret None else _) _ _ _ => destruct g eqn:? ; [by apply wp_ret|] end. lia. }
  repeat match goal with |- wp (if ?g then ret None else _) _ _ _ => replace g with false by lia; cbv iota end.
  set (z := if vc <? 0 then 0 else vc). set (w := if vd <? 0 then 0 else vd).
  assert (Hz : 0 <= z < 64 /\ (vc <> -2 -> z = vc) /\ 0 <= w < 64 /\ (vd <> -2 -> w = vd)).
  { unfold z, w. destruct (Z.ltb_spec vc 0), (Z.ltb_spec vd 0); lia. }
  destruct Hz as (Hz & Hzc & Hw & Hwd). clearbody z w.
  destruct (quad_bits va vb z w) as (B1 & B2 & B3); [lia|lia|lia|lia|]. cbv zeta in B1, B2, B3. rewrite B1, B2, B3. clear B1 B2 B3.
  apply wp_bind, (wp_emit_optional v p n _ o k true); [done|]. intros o1 k1 P1.
  apply wp_bind, (wp_emit_optional _ _ _ _ _ _ _ _ _ P1). intros o2 k2 P2.
  apply wp_bind, (wp_emit_optional _ _ _ _ _ _ _ _ _ P2). intros o3 k3 P3. apply wp_ret, HQ.
  rewrite <-!foldl_app in P3. rewrite !printed_app, !Z.add_assoc.
  destruct (Z.eqb_spec vc (-2)), (Z.eqb_spec vd (-2)); cbn [negb] in P3; try lia; try exact P3.
  - rewrite (Hzc ltac:(done)) in P3. exact P3.
  - rewrite (Hzc ltac:(done)), (Hwd ltac:(done)) in P3. exact P3.
Qed.

(** The bytes of a read, after an incomplete group: either whole groups are decoded and
    printed and less than one is left, or no continuation of the text can be decoded. *)
Definition decoded_bytes (v : view) (p : page) (n : Z) (text : list Z)
    (Q : option (list Z * Output) -> K -> Prop) : Prop :=
  (forall groups g quad o' k' m, text = groups ++ quad -> length groups = (4 * m)%nat -> (length quad < 4)%nat ->
     dec groups = Some g -> on_page v (foldl put_byte p g) (n + printed g) o' k' -> Q (Some (quad, o')) k') /\
  (forall shown_text k', at_view v shown_text k' -> (forall rest, dec (text ++ rest) = None) -> Q None k').

Lemma decoded_group v p n group g text Q :
  length group = 4%nat -> dec group = Some g -> decoded_bytes v p n (group ++ text) Q ->
  decoded_bytes v (foldl put_byte p g) (n + printed g) text Q.
Proof.
  intros Hl Hd [H1 H2]. split.
  - intros groups g' quad o' k' m -> Hm Hq Hd' Hp. apply (H1 (group ++ groups) (g ++ g') quad o' k' (S m)).
    + by rewrite <-app_assoc.
    + rewrite length_app. lia.
    + done.
    + by rewrite (dec_app 1), Hd, Hd' by lia.
    + by rewrite foldl_app, printed_app, Z.add_assoc.
  - intros t k' Hg Hrest. apply (H2 t); [done|]. intros rest. by rewrite <-app_assoc, (dec_app 1), Hd, Hrest by lia.
Qed.

Lemma wp_decode_bytes v data : forall quad p n o k (Q : option (list Z * Output) -> K -> Prop) E,
  (length quad < 4)%nat -> Forall is_byte quad -> Forall (fun c => ~ is_space c) quad -> Forall is_byte data ->
  on_page v p n o k -> decoded_bytes v p n (quad ++ squeeze data) Q ->
  wp (decode_bytes data quad o) k Q E.
Proof.
  induction data as [|b data IH]; intros quad p n o k Q E Hq Hqb Hqs Hdb Hp HQ; cbn [decode_bytes].
  { apply wp_ret. rewrite app_nil_r in HQ. apply (proj1 HQ [] [] quad o k 0%nat); [done..|]. by rewrite Z.add_0_r. }
  apply Forall_cons in Hdb as [Hb Hdb]. pose proof (decode_value_classifies b Hb) as Hc.
  destruct (decide (is_space b)) as [Hs|Hs].
  { replace (decode_value b) with (-3) by (by destruct Hc). cbn.
    apply (IH quad p n); [done..|]. revert HQ. unfold squeeze. by rewrite filter_cons_False by (by intros []). }
  rewrite (proj2 (Z.eqb_neq (decode_value b) (-3))) by (destruct Hc; [lia|lia|done|lia]).
  unfold squeeze in HQ. rewrite filter_cons_True in HQ by done. fold (squeeze data) in HQ.
  destruct (Z.eqb_spec (decode_value b) (-1)) as [Hbad|Hok].
  { apply wp_ret, (proj2 HQ (shown p.1)); [by destruct Hp|]. intros rest. rewrite <-app_assoc. apply dec_bad; [done|].
    rewrite Hbad in Hc. by inversion Hc; [lia|..]. }
  replace (quad ++ b :: squeeze data) with ((quad ++ [b]) ++ squeeze data) in HQ by (by rewrite <-app_assoc).
  assert (Hqb' : Forall is_byte (quad ++ [b])) by (apply Forall_app_2; [done|by constructor]).
  assert (Hqs' : Forall (fun c => ~ is_space c) (quad ++ [b])) by (apply Forall_app_2; [done|by constructor]).
  assert (Hlen : length (quad ++ [b]) = S (length quad)) by (rewrite length_app; simpl; lia).
  destruct (Z.eqb_spec (zlen (quad ++ [b])) 4) as [H4|H4]; unfold zlen in H4.
  2: { apply (IH (quad ++ [b]) p n); [lia|done..]. }
  set (group := quad ++ [b]) in *. clearbody group. destruct group as [|c1 [|c2 [|c3 [|c4 [|]]]]]; cbn [length] in H4; try lia.
  apply wp_bind, (wp_decode_quad v p n); [done..|].
  destruct (dec_group c1 c2 c3 c4) as [g|] eqn:Hg.
  - intros o' k' Hp'. apply (IH [] (foldl put_byte p g) (n + printed g)); [simpl; lia|done|done|done|done|].
    apply (decoded_group v p n [c1; c2; c3; c4]); [done| |done]. cbn. by rewrite Hg, app_nil_r.
  - apply wp_ret, (proj2 HQ (shown p.1)); [by destruct Hp|]. intros rest. cbn. by rewrite Hg.
Qed.

(** What the decoder has done with the input it has consumed. *)
Definition decoding (fd : Z) (k0 : K) (s : list Z * Output * Z) (k : K) : Prop :=
  let '(quad, o, consumed) := s in
  exists done groups g m inp, input fd k0 = done ++ input fd k /\ squeeze done = groups ++ quad /\
    length groups = (4 * m)%nat /\ (length quad < 4)%nat /\ dec groups = Some g /\
    on_page (output k0, inp) (foldl put_byte ([], []) g) (printed g) o k /\ consumed = w64 (zlen done).

Definition decode_error : list Z := txt "[base64] decode error" ++ [10].

(** The error exit: a line follows what was printed so far. *)
Lemma wp_decode_error fd close k0 k text (E : Z -> K -> Prop) :
  good k -> output k = output k0 ++ text ->
  (forall k', (exists text, output k' = output k0 ++ text ++ decode_error) -> E 3 k') ->
  wp (close_if close fd ;; write_line (txt "[base64] decode error") ;; exit 3) k (fun _ : Output * Z => fun _ => False) E.
Proof.
  intros Hg Ho HE. apply wp_bind, wp_close_if; [done|]. intros k1 Hg1 Ho1.
  apply wp_bind, wp_write_line; [done..|]. intros k2 (_ & Ho2 & _). apply wp_exit, HE. exists text.
  rewrite Ho2, Ho1, Ho, <-app_assoc. done.
Qed.

Lemma squeeze_app a b : squeeze (a ++ b) = squeeze a ++ squeeze b.
Proof. apply filter_app. Qed.

Lemma squeeze_Forall (P : Z -> Prop) l : Forall P l -> Forall P (squeeze l).
Proof. intros H. apply Forall_forall. intros c Hc. apply list_elem_of_filter in Hc as [_ Hc]. by eapply Forall_forall in H. Qed.

Lemma squeeze_spaces l : Forall (fun c => ~ is_space c) (squeeze l).
Proof. apply Forall_forall. intros c Hc. by apply list_elem_of_filter in Hc as [Hc _]. Qed.

(** One read of the decoder. *)
Lemma wp_decode_read fd k0 quad o consumed k1 k2 data (Q : option (list Z * Output) -> K -> Prop) E :
  Forall is_byte (input fd k0) -> decoding fd k0 (quad, o, consumed) k1 ->
  good k2 -> output k2 = output k1 -> input fd k1 = data ++ input fd k2 ->
  (forall quad' o' k', decoding fd k0 (quad', o', w64 (consumed + zlen data)) k' -> input fd k' = input fd k2 -> Q (Some (quad', o')) k') ->
  (forall k', good k' -> (exists text, output k' = output k0 ++ text) -> dec (squeeze (input fd k0)) = None -> Q None k') ->
  wp (decode_bytes data quad o) k2 Q E.
Proof.
  intros Hb (done_ & groups & g & m & inp & Hi & Hsq & Hm & Hq & Hg & (Hv & Ho & Hsh) & Hcons) Hg2 Ho2 Hin HQ HN.
  assert (Hb' : Forall is_byte done_ /\ Forall is_byte data) by (rewrite Hi, Hin, !Forall_app in Hb; tauto).
  assert (Hp : on_page (output k0, fun fd => input fd k2) (foldl put_byte ([], []) g) (printed g) o k2).
  { split; [|done]. destruct Hv as (_ & Hov & _). split_and!; [done| |done]. by rewrite Ho2. }
  assert (Hqq : Forall is_byte quad /\ Forall (fun c => ~ is_space c) quad).
  { pose proof (squeeze_Forall _ _ (proj1 Hb')) as H1. pose proof (squeeze_spaces done_) as H2.
    rewrite Hsq, Forall_app in H1, H2. tauto. }
  eapply wp_decode_bytes; [done|apply Hqq|apply Hqq|apply Hb'|exact Hp|]. split.
  - intros groups' g' quad' o' k' m' Hsplit Hm' Hq' Hd' Hp'.
    assert (Hik : input fd k' = input fd k2) by (destruct Hp' as [(_ & _ & I) _]; by rewrite I).
    apply HQ; [|done]. exists (done_ ++ data), (groups ++ groups'), (g ++ g'), (m + m')%nat, (fun fd => input fd k2).
    split_and!.
    + by rewrite Hi, Hin, Hik, app_assoc.
    + by rewrite squeeze_app, Hsq, <-!app_assoc, Hsplit.
    + rewrite length_app. lia.
    + done.
    + by rewrite (dec_app m), Hg, Hd' by done.
    + by rewrite foldl_app, printed_app.
    + rewrite Hcons. unfold w64. rewrite Zplus_mod_idemp_l. f_equal. unfold zlen. rewrite length_app. lia.
  - intros t k' (Hg' & Ho' & _) Hrest. apply HN; [done|by exists t|].
    rewrite Hi, Hin, !squeeze_app, Hsq, <-app_assoc, (dec_app m), Hg by done. by rewrite app_assoc, Hrest.
Qed.

Lemma wp_decode fd close k0 (Q : Output * Z -> K -> Prop) E :
  good k0 -> Forall is_byte (input fd k0) ->
  match dec (squeeze (input fd k0)) with
  | Some g => forall o k', good k' -> output k' = output k0 ++ shown (page_lines (foldl put_byte ([], []) g)) ->
                o_produced o = w64 (printed g) -> Q (o, w64 (zlen (input fd k0))) k'
  | None => forall k', (exists text, output k' = output k0 ++ text ++ decode_error) -> E 3 k'
  end -> wp (decode fd close) k0 Q E.
Proof.
  intros Hg Hb HQ. unfold decode. apply wp_bind.
  apply (wp_iter _ (decoding fd k0) (fun _ k => length (input fd k)) (fun _ _ => 0%nat)).
  2: { exists [], [], [], 0%nat, (fun fd => input fd k0). split_and!; [done|done|done|simpl; lia|done| |done].
       split_and!; [|done|simpl; lia]. split_and!; [done| |done]. by rewrite app_nil_r. }
  intros [[quad o] consumed] k1 He.
  assert (Hg1 : good k1) by (destruct He as (? & ? & ? & ? & ? & _ & _ & _ & _ & _ & [Hv _] & _); apply Hv).
  apply wp_bind, wp_read_blocking; [done|lia|]. intros [r data] k2 (Hg2 & Ho2 & Hx). cbn in Hx.
  assert (Hfail : dec (squeeze (input fd k0)) = None -> forall k text, good k -> output k = output k0 ++ text ->
    wp (close_if close fd ;; write_line (txt "[base64] decode error") ;; exit 3) k Q E).
  { intros HN k text Hgk Hok. rewrite HN in HQ. eapply wp_mono; [by apply (wp_decode_error fd close k0 k text E)|done|done]. }
  destruct Hx as [(Hend & Hv0 & _)|(-> & Hz & Hin)].
  - rewrite Hv0, orb_true_r. apply wp_ret. destruct He as (dn & groups & g & m & inp & Hi & Hsq & Hm & Hq & Hd & (Hv & Ho & Hsh) & Hcons).
    rewrite Hend, app_nil_r in Hi. destruct quad as [|c quad].
    + rewrite app_nil_r in Hsq. rewrite Hi, Hsq, Hd in HQ. apply wp_bind.
      eapply (wp_last_line (output k0, fun fd => input fd k2)).
      { split; [|exact (conj Ho Hsh)]. destruct Hv as (_ & Hov & _). split_and!; [done| |done]. by rewrite Ho2. }
      intros k3 (Hg3 & Ho3 & _). apply wp_ret. rewrite Hcons. apply HQ; [done|done|]. by rewrite Ho.
    + apply (Hfail ltac:(rewrite Hi, Hsq, (dec_app m), Hd, dec_short by (done || simpl in *; lia); done) k2 (shown (foldl put_byte ([], []) g).1));
        [done|]. destruct Hv as (_ & Hov & _). by rewrite Ho2.
  - cbn. destruct (Z.eqb_spec (zlen data) 0) as [|_]; [lia|]. cbn. apply wp_bind.
    apply (wp_decode_read fd k0 quad o consumed k1); [done..| |].
    + intros quad' o' k' Hd Hik. apply wp_ret. split; [done|]. left. rewrite Hik, Hin, length_app. unfold zlen in Hz. lia.
    + intros k' Hg' [text Ho'] HN. apply wp_ret. by apply (Hfail HN k' text).
Qed.

End rules.

(** ** What the program prints *)

(** The descriptor the program works on in a mode, its name, and the kernel once it is
    open. *)
Inductive opened {K} `{!Sys K} (decode_mode : bool) (k : K) : K -> Z -> list Z -> Prop :=
  | opened_stdin k1 k2 arg :
      sys_argument 1 k = (k1, arg) -> (arg = Some (txt "-d") <-> decode_mode = true) ->
      sys_argument (if decode_mode then 2 else 1) k1 = (k2, None) ->
      opened decode_mode k k2 StdinFd (txt "<stdin>")
  | opened_file k1 k2 k3 arg path fd :
      sys_argument 1 k = (k1, arg) -> (arg = Some (txt "-d") <-> decode_mode = true) ->
      sys_argument (if decode_mode then 2 else 1) k1 = (k2, Some path) ->
      sys_open path k2 = (k3, mkResult fd ErrorNone) -> 3 <= fd -> nul_free path -> zlen path < 64 ->
      opened decode_mode k k3 fd path.

Definition heading (path mode : list Z) : list Z :=
  txt "[base64] " ++ txt "path " ++ path ++ [10] ++ txt "[base64] " ++ txt "mode " ++ mode ++ [10].
Definition statistic (label : list Z) (value : Z) : list Z := txt "[base64] " ++ label ++ txt "0x" ++ hex64 value ++ [10].

Section main.
Context {K : Type} `{!Sys K} `{!SysLaws K}.
Implicit Types k : K.

Lemma opened_view mode k k1 fd path :
  good k -> opened mode k k1 fd path -> good k1 /\ output k1 = output k /\ nul_free path /\ zlen path < 64.
Proof.
  intros Hg [k1' k2 arg Ha Hm Hp|k1' k2 k3 arg p fd' Ha Hm Hp Ho Hfd Hn Hl];
    pose proof (argument_law 1 k Hg) as (G1 & O1 & _); rewrite Ha in G1, O1; cbn in G1, O1;
    pose proof (argument_law (if mode then 2 else 1) k1' G1) as (G2 & O2 & _); rewrite Hp in G2, O2; cbn in G2, O2.
  - split_and!; [done|by rewrite O2|by apply nul_freeb_ok|done].
  - pose proof (open_law p k2 G2) as [G3 O3]. rewrite Ho in G3, O3. cbn in G3, O3. split_and!; [done|congruence|done|done].
Qed.

(** The main function goes to [transcode] with what is open. *)
Lemma wp_base64_main mode k k1 fd path Q E :
  opened mode k k1 fd path ->
  (forall close, wp (transcode mode fd path close) k1 Q E) -> wp base64_main k Q E.
Proof.
  intros Hop HT. unfold base64_main.
  assert (Hmode : forall arg, (arg = Some (txt "-d") <-> mode = true) ->
    match arg with Some value => streq value (txt "-d") | None => false end = mode).
  { intros arg Ha. apply eq_true_iff_eq. rewrite <-Ha. destruct arg as [v|]; [|naive_solver]. rewrite streq_spec. naive_solver. }
  destruct Hop as [k1' k2 arg Ha Hm Hp|k1' k2 k3 arg p fd' Ha Hm Hp Ho Hfd Hn Hl];
    (apply wp_bind; eapply wp_call; [exact Ha|]); rewrite (Hmode _ Hm); (apply wp_bind; eapply wp_call; [exact Hp|]); [apply HT|].
  apply wp_bind. eapply wp_call; [exact Ho|]. cbn. destruct (Z.ltb_spec fd' 3); [lia|apply HT].
Qed.

Lemma wp_transcode (mode : bool) fd path close k (E : Z -> K -> Prop) :
  good k -> nul_free path -> zlen path < 64 ->
  (forall k1, wrote (heading path (if mode then txt "decode" else txt "encode")) k k1 ->
    wp (if mode then decode fd close else encode fd) k1
      (fun '(o, consumed) k2 => good k2 /\ forall k3,
         output k3 = output k2 ++ statistic (txt "bytes ") consumed ++ statistic (txt "output ") (o_produced o) ->
         E (o_produced o) k3) E) ->
  wp (transcode mode fd path close) k (fun _ _ => False) E.
Proof.
  intros Hg Hn Hl HT. unfold transcode.
  assert (Hmode : nul_free (if mode then txt "decode" else txt "encode") /\ zlen (if mode then txt "decode" else txt "encode") = 6)
    by (destruct mode; (split; [by apply nul_freeb_ok|done])).
  apply wp_bind, wp_write_text_line; [done|by apply nul_freeb_ok|by apply nul_freeb_ok|done| |].
  { change (zlen (txt "[base64] ")) with 9. change (zlen (txt "path ")) with 5. lia. }
  intros k1 H1. apply wp_bind, wp_write_text_line; [apply H1|by apply nul_freeb_ok|by apply nul_freeb_ok|apply Hmode| |].
  { rewrite (proj2 Hmode). done. }
  intros k2 H2. pose proof (wrote_trans _ _ _ _ _ H1 H2) as H12. rewrite <-!app_assoc in H12.
  apply wp_bind. eapply wp_mono; [by apply HT| |done]. intros [o consumed] k3 (Hg3 & Hfin).
  apply wp_bind, wp_close_if; [done|]. intros k4 Hg4 Ho4.
  apply wp_bind, wp_write_hex_line; [done|by apply nul_freeb_ok|by apply nul_freeb_ok|done|]. intros k5 H5.
  apply wp_bind, wp_write_hex_line; [apply H5|by apply nul_freeb_ok|by apply nul_freeb_ok|done|]. intros k6 H6.
  apply wp_exit, Hfin. pose proof (wrote_trans _ _ _ _ _ H5 H6) as (_ & Ho6 & _). by rewrite Ho6, Ho4.
Qed.

End main.

(** Lines without a NUL are shown whole. *)
Definition listing (lines : list (list Z)) : list Z := concat ((fun line => txt "[base64] " ++ line ++ [10]) <$> lines).

Lemma shown_listing lines : Forall nul_free lines -> shown lines = listing lines.
Proof.
  unfold shown, listing. induction 1 as [|l lines Hl _ IH]; [done|]. cbn [fmap list_fmap concat].
  by rewrite until_nul_id, IH.
Qed.

Lemma lines79_Forall (P : Z -> Prop) fuel : forall text, Forall P text -> Forall (Forall P) (lines79 fuel text).
Proof.
  induction fuel as [|fuel IH]; intros text Ht; [constructor|]. destruct text as [|c text]; [constructor|].
  cbn [lines79]. constructor; [by apply Forall_take|]. by apply IH, Forall_drop.
Qed.

Lemma sextet_char_range n : 0 <= n -> 43 <= sextet_char n.
Proof. intros Hn. unfold sextet_char. repeat case_match; bsimp; lia. Qed.

Lemma enc_nul_free msg : Forall is_byte msg -> nul_free (enc msg).
Proof.
  assert (Hs : forall n, 0 <= n -> sextet_char n <> 0) by (intros n Hn; pose proof (sextet_char_range n Hn); lia).
  revert msg. fix IH 1. intros msg Hm. destruct msg as [|a [|b [|c rest]]]; [constructor|..];
    rewrite !Forall_cons in Hm; unfold is_byte in Hm; cbn [enc];
    repeat (constructor; [first [done|apply Hs; Z.to_euclidean_division_equations; lia]|]); [constructor|constructor|].
  apply IH, Hm.
Qed.

(** The program base64 prints the RFC 4648 encoding of the whole input in lines of
    79 characters, between a heading and the numbers of bytes read and characters
    produced; the latter is its exit code.  This holds however the kernel cuts the input
    into reads (the groups of three bytes are carried from one read to the next). *)
Theorem base64_prints_encoding {K} `{!Sys K} `{!SysLaws K} (k k1 : K) (fd : Z) (path : list Z) :
  good k -> opened false k k1 fd path -> Forall is_byte (input fd k1) ->
  let text := enc (input fd k1) in
  wp base64_main k (fun _ _ => False) (fun code k' =>
    code = zlen text mod 2 ^ 64 /\
    output k' = output k ++ heading path (txt "encode") ++
      listing (lines79 (S (length text)) text) ++
      statistic (txt "bytes ") (zlen (input fd k1) mod 2 ^ 64) ++ statistic (txt "output ") (zlen text mod 2 ^ 64)).
Proof.
  intros Hg Hop Hb text. destruct (opened_view _ _ _ _ _ Hg Hop) as (Hg1 & Ho1 & Hn & Hl).
  apply (wp_base64_main false k k1 fd path); [done|]. intros close. apply wp_transcode; [done..|].
  intros k2 (Hg2 & Ho2 & Hi2). apply wp_encode; [done|by rewrite Hi2|]. rewrite Hi2. fold text.
  intros o k3 Hg3 text' Ho3 Hp. split; [done|]. intros k4 Ho4. rewrite Hp in *. split; [done|].
  rewrite Ho4, Ho3, Ho2, Ho1, <-!app_assoc. do 3 f_equal.
  apply shown_listing. by apply lines79_Forall, enc_nul_free.
Qed.

Definition small_text : small_kernel := mkSmall [txt "/etc/motd"] (txt "Hello, world!") [] 1.

Lemma base64_prints_encoding_witness :
  enc (input 3 small_text) = txt "SGVsbG8sIHdvcmxkIQ==" /\
  wp base64_main small_text (fun _ _ => False) (fun code k' =>
    code = zlen (enc (input 3 small_text)) mod 2 ^ 64 /\
    output k' = output small_text ++ heading (txt "/etc/motd") (txt "encode") ++
      listing (lines79 (S (length (enc (input 3 small_text)))) (enc (input 3 small_text))) ++
      statistic (txt "bytes ") (zlen (input 3 small_text) mod 2 ^ 64) ++
      statistic (txt "output ") (zlen (enc (input 3 small_text)) mod 2 ^ 64)).
Proof.
  split; [reflexivity|]. apply (base64_prints_encoding small_text small_text 3 (txt "/etc/motd")).
  - exact I.
  - apply (opened_file false small_text small_text small_text small_text (Some (txt "/etc/motd"))); try done.
    by apply nul_freeb_ok.
  - by apply bytes_check.
Defined.


Definition small_coded : small_kernel := mkSmall [txt "-d"; txt "/tmp/x"] (txt "SGVs bG8=") [] 1.


(** *** The round trip *)

(** Lines a terminal shows as they are: at most 79 bytes, no NUL, line feed or carriage
    return in them. *)
Definition plain_line (line : list Z) : Prop :=
  (length line <= 79)%nat /\ Forall (fun c => is_byte c /\ c <> 0 /\ c <> 10 /\ c <> 13) line.

Definition unlines (lines : list (list Z)) : list Z := concat ((fun line => line ++ [10]) <$> lines).

Lemma put_plain ls line : forall acc, (length (acc ++ line) <= 79)%nat -> Forall (fun c => is_byte c /\ c <> 0 /\ c <> 10 /\ c <> 13) line ->
  foldl put_byte (ls, acc) line = (ls, acc ++ line).
Proof.
  induction line as [|c line IH]; intros acc Hl Hp; [by rewrite app_nil_r|]. cbn [foldl].
  apply Forall_cons in Hp as [(_ & _ & H10 & H13) Hp]. rewrite length_app in Hl. cbn [length] in Hl.
  unfold put_byte. rewrite !decide_False by done. unfold put. cbn [fst snd]. rewrite decide_False by lia.
  rewrite IH; [by rewrite <-app_assoc|rewrite !length_app; simpl; lia|done].
Qed.

Lemma put_unlines lines : forall ls, Forall plain_line lines -> foldl put_byte (ls, []) (unlines lines) = (ls ++ lines, []).
Proof.
  induction lines as [|l lines IH]; intros ls Hp; [by rewrite app_nil_r|]. apply Forall_cons in Hp as [[Hl Hp] Hps].
  unfold unlines in *. cbn [fmap list_fmap concat]. rewrite !foldl_app, put_plain by done.
  change (foldl put_byte (ls, [] ++ l) [10]) with (ls ++ [l], @nil Z). rewrite IH by done. by rewrite <-app_assoc.
Qed.

Lemma unlines_facts lines : Forall plain_line lines ->
  Forall is_byte (unlines lines) /\ printed (unlines lines) = zlen (unlines lines) /\ Forall nul_free lines.
Proof.
  induction 1 as [|l lines [_ Hl] _ (IHb & IHp & IHn)]; [split_and!; [constructor|done|constructor]|].
  assert (Hp : printed l = zlen l).
  { unfold printed. f_equal. clear - Hl. induction Hl as [|c l (_ & _ & _ & Hc) _ IH]; [done|]. by rewrite filter_cons_True, IH. }
  unfold unlines in *. cbn [fmap list_fmap concat]. rewrite !printed_app, Hp, IHp. split_and!.
  - repeat apply Forall_app_2; [by eapply Forall_impl; [exact Hl|intros c []]|by constructor; [|constructor]|done].
  - unfold zlen. rewrite !length_app. change (printed [10]) with 1. simpl. lia.
  - constructor; [|done]. eapply Forall_impl; [exact Hl|]. by intros c (_ & ? & _).
Qed.

(** Round trip: when the input, white space aside, is the encoding of a text of
    lines of at most 79 printable bytes, decoding prints these lines, one by one and
    unchanged, and exits with the length of the text. *)
Theorem base64_round_trip {K} `{!Sys K} `{!SysLaws K} (k k1 : K) (fd : Z) (path : list Z) (lines : list (list Z)) :
  good k -> opened true k k1 fd path -> Forall is_byte (input fd k1) -> Forall plain_line lines ->
  squeeze (input fd k1) = enc (unlines lines) ->
  wp base64_main k (fun _ _ => False) (fun code k' =>
    code = zlen (unlines lines) mod 2 ^ 64 /\
    output k' = output k ++ heading path (txt "decode") ++ listing lines ++
      statistic (txt "bytes ") (zlen (input fd k1) mod 2 ^ 64) ++ statistic (txt "output ") (zlen (unlines lines) mod 2 ^ 64)).
Proof.
  intros Hg Hop Hb Hp Henc. destruct (unlines_facts lines Hp) as (Hub & Hup & Hnf).
  destruct (opened_view _ _ _ _ _ Hg Hop) as (Hg1 & Ho1 & Hn & Hl).
  apply (wp_base64_main true k k1 fd path); [done|]. intros close. apply wp_transcode; [done..|].
  intros k2 (Hg2 & Ho2 & Hi2). apply wp_decode; [done|by rewrite Hi2|]. rewrite Hi2, Henc, dec_enc by done.
  rewrite put_unlines by done. unfold page_lines. cbn [fst snd app]. rewrite app_nil_r, shown_listing, Hup by done.
  intros o k3 Hg3 Ho3 Hprod. split; [done|]. intros k4 Ho4. rewrite Hprod in *. split; [done|].
  by rewrite Ho4, Ho3, Ho2, Ho1, <-!app_assoc.
Qed.

Definition small_lines : small_kernel := mkSmall [txt "-d"; txt "/tmp/x"] (txt "SGVsbG8K d29ybGQK") [] 1.

Lemma base64_round_trip_witness :
  unlines [txt "Hello"; txt "world"] = txt "Hello" ++ [10] ++ txt "world" ++ [10] /\
  wp base64_main small_lines (fun _ _ => False) (fun code k' =>
    code = zlen (unlines [txt "Hello"; txt "world"]) mod 2 ^ 64 /\
    output k' = output small_lines ++ heading (txt "/tmp/x") (txt "decode") ++ listing [txt "Hello"; txt "world"] ++
      statistic (txt "bytes ") (zlen (input 3 small_lines) mod 2 ^ 64) ++
      statistic (txt "output ") (zlen (unlines [txt "Hello"; txt "world"]) mod 2 ^ 64)).
Proof.
  split; [reflexivity|].
  apply (base64_round_trip small_lines small_lines 3 (txt "/tmp/x") [txt "Hello"; txt "world"]).
  - exact I.
  - apply (opened_file true small_lines small_lines small_lines small_lines (Some (txt "-d"))); try done.
    by apply nul_freeb_ok.
  - by apply bytes_check.
  - repeat constructor; try (cbn; lia); unfold is_byte; vm_compute; congruence.
  - reflexivity.
Defined.

(** Bytes are lost when what was encoded is not such a text: the file "a CR LF NUL b LF"
    comes back as the line "a" and an empty one. *)
Example decoding_loses_bytes :
  dec (squeeze (enc [97; 13; 10; 0; 98; 10])) = Some [97; 13; 10; 0; 98; 10] /\
  shown (page_lines (foldl put_byte ([], []) [97; 13; 10; 0; 98; 10])) = listing [txt "a"; []].
Proof. split; vm_compute; reflexivity. Qed.
