(* ===== verification/Calendar.v ===== *)
(** * The calendar program (userland/src/cal.cpp)

    The program prints a month as a grid of weeks.  The specification counts days from
    the first of January of the year 1, a Monday; the theorems show that the weekday
    formula of the program agrees with the count for every year the program accepts,
    and what it prints. *)

From stdpp Require Import strings.
From Stdlib Require Import ZifyBool.
From S2P Require Import Prelude UserLib Digest.
#[local] Open Scope Z_scope.
#[local] Open Scope prog_scope.

(** ** Numbers *)

(** Digits from the front; [None] is the answer [false]. *)
Fixpoint parse_digits (text : list Z) (value : Z) : option Z :=
  match text with
  | [] => Some value
  | c :: rest => if (c <? 48) || (57 <? c) then None else parse_digits rest (w64 (w64 (value * 10) + (c - 48)))
  end.
Definition parse_u64 (text : list Z) : option Z := match text with [] => None | _ => parse_digits text 0 end.

(** The do-while loop: digits from the last one, at most 24. *)
Fixpoint digit_loop (count : nat) (value : Z) : list Z :=
  match count with
  | O => []
  | S count' => (48 + value mod 10) :: (if value / 10 =? 0 then [] else digit_loop count' (value / 10))
  end.
Definition append_decimal (capacity value : Z) (line : list Z) : list Z :=
  foldl (fun line c => append_char capacity c line) line (reverse (digit_loop 24 value)).

(** ** Dates *)

Definition leap_year (year : Z) : bool :=
  (year mod 4 =? 0) && negb (year mod 100 =? 0) || (year mod 400 =? 0).

Definition days_in_month (month year : Z) : Z :=
  if month =? 2 then (if leap_year year then 29 else 28)
  else if (month =? 4) || (month =? 6) || (month =? 9) || (month =? 11) then 30 else 31.

Definition weekday (year month day : Z) : Z :=
  let '(month, year) := if month <? 3 then (w64 (month + 12), w64 (year - 1)) else (month, year) in
  let k := year mod 100 in
  let j := year / 100 in
  let h := w64 (day + w64 (13 * w64 (month + 1)) / 5 + k + k / 4 + j / 4 + 5 * j) mod 7 in
  (h + 6) mod 7.

Definition kMonthNames : list (list Z) :=
  [[]; txt "January"; txt "February"; txt "March"; txt "April"; txt "May"; txt "June";
   txt "July"; txt "August"; txt "September"; txt "October"; txt "November"; txt "December"].

Definition append_day (capacity day : Z) (line : list Z) : list Z :=
  append_decimal capacity day (if day <? 10 then append_char capacity 32 line else line).

(** The body of the loop over the columns. *)
Definition append_cell (cell_start days first_weekday column : Z) (line : list Z) : list Z :=
  let line := if negb (column =? 0) then append_char 96 32 line else line in
  let cell := cell_start + column in
  if (cell <? first_weekday) || (first_weekday + days <=? cell) then append_text 96 (txt "  ") line
  else append_day 96 (cell - first_weekday + 1) line.

Section program.
Context {K : Type} `{!Sys K}.
(** The GetDateTime call: the result, and the month and the year of the structure. *)
Context (sys_date : K -> K * (SyscallResult * (Z * Z))).

Definition emit_row (cell_start days first_weekday : Z) : prog K unit :=
  write_line (for_range 0 7 (append_cell cell_start days first_weekday) (append_text 96 (txt "[cal] ") [])).

Definition cal_month (month year : Z) : prog K unit :=
  if (month <? 1) || (12 <? month) || (year <? 1) || (9999 <? year) then
    write_line (txt "[cal] range error") ;; exit 1
  else
    let title := append_text 96 (nth (Z.to_nat month) kMonthNames []) (append_text 96 (txt "[cal] ") []) in
    write_line (append_decimal 96 year (append_char 96 32 title)) ;;
    write_line (txt "[cal] Su Mo Tu We Th Fr Sa") ;;
    let first := weekday year month 1 in
    let days := days_in_month month year in
    iter (fun cell_start : Z =>
      if cell_start <? days + first then emit_row cell_start days first ;; ret (inl (cell_start + 7)) else ret (inr tt)) 0 ;;
    write_hex_line (txt "[cal] ") (txt "days ") days ;;
    exit 0.

Definition cal_main : prog K unit :=
  let! month_arg := get_arg 1 in
  let! given := match month_arg with Some _ => ret true | None =>
                  let! year_arg := get_arg 2 in ret (match year_arg with Some _ => true | None => false end) end in
  if given then
    let! year_arg := get_arg 2 in
    match year_arg, parse_u64 (default [] month_arg), parse_u64 (default [] year_arg) with
    | Some _, Some month, Some year => cal_month month year
    | _, _, _ => write_line (txt "[cal] usage cal [month year]") ;; exit 1
    end
  else
    let! (result, (month, year)) := call sys_date in
    if negb (r_error result =? ErrorNone) || negb (r_value result =? 1) then write_line (txt "[cal] date error") ;; exit 1
    else cal_month month year.

End program.

(** ** Counting days *)

Definition leap (y : Z) : Prop := y mod 4 = 0 /\ (y mod 100 <> 0 \/ y mod 400 = 0).
#[export] Instance leap_dec y : Decision (leap y).
Proof. unfold leap. apply _. Defined.
Arguments leap_dec : simpl never.

Definition month_lengths (y : Z) : list Z := [31; if decide (leap y) then 29 else 28; 31; 30; 31; 30; 31; 31; 30; 31; 30; 31].
Definition month_length (m y : Z) : Z := nth (Z.to_nat (m - 1)) (month_lengths y) 0.

(** The days of the years before [y], and of the months before [m] in it. *)
Definition year_start (y : Z) : Z := 365 * (y - 1) + (y - 1) / 4 - (y - 1) / 100 + (y - 1) / 400.
Definition month_start (m y : Z) : Z := foldr Z.add 0 (take (Z.to_nat (m - 1)) (month_lengths y)).

(** The number of a day: 1 is the first of January of the year 1. *)
Definition day_number (y m d : Z) : Z := year_start y + month_start m y + d.

(** Sunday is 0; day 1 is a Monday. *)
Definition day_of_week (y m d : Z) : Z := day_number y m d mod 7.

Definition date (y m d : Z) : Prop := 1 <= y /\ 1 <= m <= 12 /\ 1 <= d <= month_length m y.
Definition tomorrow (y m d : Z) : Z * Z * Z :=
  if decide (d < month_length m y) then (y, m, d + 1) else if decide (m < 12) then (y, m + 1, 1) else (y + 1, 1, 1).

Lemma months (P : Z -> Prop) : P 1 -> P 2 -> P 3 -> P 4 -> P 5 -> P 6 -> P 7 -> P 8 -> P 9 -> P 10 -> P 11 -> P 12 ->
  forall m, 1 <= m <= 12 -> P m.
Proof.
  intros. assert (Hm : m = 1 \/ m = 2 \/ m = 3 \/ m = 4 \/ m = 5 \/ m = 6 \/ m = 7 \/ m = 8 \/ m = 9 \/ m = 10 \/ m = 11 \/ m = 12) by lia.
  by repeat destruct Hm as [->|Hm]; subst.
Qed.

Lemma div_step y c : 0 < c -> y / c = (y - 1) / c + (if decide (y mod c = 0) then 1 else 0).
Proof.
  intros Hc. pose proof (Z.div_mod y c ltac:(lia)). pose proof (Z.mod_pos_bound y c Hc). case_decide as Hm.
  - assert ((y - 1) / c = y / c - 1); [|lia]. symmetry. apply (Z.div_unique _ _ _ (c - 1)); lia.
  - assert ((y - 1) / c = y / c); [|lia]. symmetry. apply (Z.div_unique _ _ _ (y mod c - 1)); lia.
Qed.

Lemma multiples y : (y mod 400 = 0 -> y mod 100 = 0) /\ (y mod 100 = 0 -> y mod 4 = 0).
Proof. split; intros; Z.to_euclidean_division_equations; lia. Qed.

Lemma year_start_next y : year_start (y + 1) = year_start y + 365 + (if decide (leap y) then 1 else 0).
Proof.
  unfold year_start. replace (y + 1 - 1) with y by lia. rewrite (div_step y 4), (div_step y 100), (div_step y 400) by lia.
  destruct (multiples y). unfold leap. repeat case_decide; lia.
Qed.

(** The tables at a month that is a literal. *)
Ltac month_tables :=
  unfold month_length, month_start;
  repeat match goal with |- context [Z.to_nat ?e] => let v := eval vm_compute in (Z.to_nat e) in change (Z.to_nat e) with v end;
  cbn [month_lengths nth take foldr].

(** The count is the calendar's: tomorrow has the next number. *)
Lemma day_number_tomorrow y m d : date y m d ->
  let '(y', m', d') := tomorrow y m d in day_number y' m' d' = day_number y m d + 1.
Proof.
  intros (Hy & Hm & Hd). unfold tomorrow. case_decide as Hlt; [unfold day_number; lia|].
  assert (Heq : d = month_length m y) by lia. clear Hd Hlt. subst d. unfold day_number. revert m Hm. apply months.
  12: { rewrite decide_False, year_start_next by lia. month_tables. case_decide; lia. }
  all: rewrite decide_True by lia; month_tables; lia.
Qed.

Lemma leap_year_spec y : leap_year y = bool_decide (leap y).
Proof.
  apply eq_true_iff_eq. rewrite bool_decide_eq_true. unfold leap_year, leap.
  rewrite orb_true_iff, andb_true_iff, negb_true_iff, !Z.eqb_eq, Z.eqb_neq.
  split; [|tauto]. intros [[? ?]|H400]; [tauto|]. split; [|tauto]. Z.to_euclidean_division_equations; lia.
Qed.

Lemma days_in_month_spec m y : 1 <= m <= 12 -> days_in_month m y = month_length m y.
Proof.
  revert m. apply months; unfold days_in_month; month_tables; try done. rewrite leap_year_spec. cbn. by case_decide; case_bool_decide.
Qed.

(** The formula, for a year that ends with February: [A] is its term for the month, [C]
    the days of the months before. *)
Lemma zeller Y d A C : 0 <= Y <= 9999 -> 0 <= A <= 50 -> 1 <= d <= 31 -> (A + 6 - C) mod 7 = 0 ->
  (w64 (d + A + Y mod 100 + Y mod 100 / 4 + Y / 100 / 4 + 5 * (Y / 100)) mod 7 + 6) mod 7 =
  (365 * Y + Y / 4 - Y / 100 + Y / 400 + C + d) mod 7.
Proof.
  intros HY HA Hd HC.
  assert (Hj : Y / 400 = Y / 100 / 4) by (rewrite Z.div_div by lia; done).
  assert (H4 : Y / 4 = 25 * (Y / 100) + Y mod 100 / 4).
  { pose proof (Z.div_mod Y 100 ltac:(lia)) as HYd. rewrite HYd at 1.
    replace (100 * (Y / 100) + Y mod 100) with (Y mod 100 + 25 * (Y / 100) * 4) by lia. rewrite Z.div_add by lia. lia. }
  rewrite Hj, H4. pose proof (Z.div_mod Y 100 ltac:(lia)) as HYd. rewrite HYd at 5. clear Hj H4 HYd.
  pose proof (Z.mod_pos_bound Y 100 ltac:(lia)). assert (0 <= Y / 100 <= 99) by (Z.to_euclidean_division_equations; lia).
  generalize dependent (Y mod 100). intros k Hk. generalize dependent (Y / 100). intros j Hj.
  assert (0 <= k / 4 <= 24 /\ 0 <= j / 4 <= 24) by (Z.to_euclidean_division_equations; lia).
  rewrite w64_small by (unfold u64, two64; lia).
  generalize dependent (k / 4). intros k4. generalize dependent (j / 4). intros j4 Hkj.
  clear -HC. Z.to_euclidean_division_equations; lia.
Qed.

Lemma year_start_after y : year_start y + (if decide (leap y) then 29 else 28) = 365 * y + y / 4 - y / 100 + y / 400 - 337.
Proof.
  pose proof (year_start_next y) as H. unfold year_start at 1 in H. replace (y + 1 - 1) with y in H by lia.
  case_decide; lia.
Qed.

Ltac after_february c :=
  match goal with |- context [year_start ?y] => pose proof (year_start_after y) end;
  etrans; [apply zeller with (C := c); done || lia|f_equal; lia].

Lemma weekday_spec y m d : 1 <= y <= 9999 -> 1 <= m <= 12 -> 1 <= d <= 31 -> weekday y m d = day_of_week y m d.
Proof.
  intros Hy Hm Hd. unfold day_of_week, day_number. revert m Hm.
  apply months; unfold weekday; month_tables; cbn [Z.ltb Z.compare Pos.compare Pos.compare_cont].
  1, 2: rewrite (w64_small (y - 1)) by (unfold u64, two64; lia); unfold year_start.
  - etrans; [apply zeller with (C := 0); done || lia|f_equal; lia].
  - etrans; [apply zeller with (C := 31); done || lia|f_equal; lia].
  - after_february (-306).
  - after_february (-275).
  - after_february (-245).
  - after_february (-214).
  - after_february (-184).
  - after_february (-153).
  - after_february (-122).
  - after_february (-92).
  - after_february (-61).
  - after_february (-31).
Qed.

(** ** Text of numbers *)

(** The decimal digits of a number below [10 ^ fuel], without leading zeros. *)
Fixpoint decimal (fuel : nat) (n : Z) : list Z :=
  match fuel with
  | O => []
  | S fuel => if decide (n < 10) then [48 + n] else decimal fuel (n / 10) ++ [48 + n mod 10]
  end.

(** The number a text of digits stands for. *)
Definition number (text : list Z) : Z := foldl (fun n c => 10 * n + (c - 48)) 0 text.

Lemma digit_loop_decimal fuel : forall n, 0 <= n < 10 ^ Z.of_nat fuel -> reverse (digit_loop fuel n) = decimal fuel n.
Proof.
  induction fuel as [|fuel IH]; intros n Hn; [done|]. cbn [digit_loop decimal].
  rewrite Nat2Z.inj_succ, Z.pow_succ_r in Hn by lia. rewrite reverse_cons.
  destruct (Z.eqb_spec (n / 10) 0) as [H0|H0]; case_decide; try (exfalso; Z.to_euclidean_division_equations; lia).
  - rewrite Z.mod_small by lia. done.
  - rewrite IH; [done|]. Z.to_euclidean_division_equations; lia.
Qed.

Lemma decimal_facts fuel : forall n, (0 < fuel)%nat -> 0 <= n < 10 ^ Z.of_nat fuel ->
  decimal fuel n <> [] /\ Forall (fun c => 48 <= c <= 57) (decimal fuel n) /\ (length (decimal fuel n) <= fuel)%nat /\
  number (decimal fuel n) = n.
Proof.
  induction fuel as [|fuel IH]; intros n Hf Hn; [lia|]. cbn [decimal].
  rewrite Nat2Z.inj_succ, Z.pow_succ_r in Hn by lia. case_decide.
  - split_and!; [done|repeat constructor; lia|simpl; lia|]. cbn. lia.
  - destruct fuel as [|fuel]; [simpl in Hn; lia|].
    destruct (IH (n / 10) ltac:(lia) ltac:(Z.to_euclidean_division_equations; lia)) as (_ & Hd & Hl & Hv).
    split_and!.
    + by destruct (decimal (S fuel) (n / 10)).
    + apply Forall_app_2; [done|]. repeat constructor; Z.to_euclidean_division_equations; lia.
    + rewrite length_app. simpl in *. lia.
    + unfold number in *. rewrite foldl_app, Hv. cbn. Z.to_euclidean_division_equations; lia.
Qed.

(** A text of digits parses to its number, reduced to 64 bits. *)
Lemma parse_digits_spec text : forall v, Forall (fun c => 48 <= c <= 57) text ->
  parse_digits text (w64 v) = Some (w64 (foldl (fun n c => 10 * n + (c - 48)) v text)).
Proof.
  induction text as [|c text IH]; intros v Ht; [done|]. apply Forall_cons in Ht as [Hc Ht]. cbn [parse_digits foldl].
  destruct (Z.ltb_spec c 48), (Z.ltb_spec 57 c); try lia. cbn [orb].
  rewrite <-IH by done. f_equal. unfold w64. rewrite Zmult_mod_idemp_l, Zplus_mod_idemp_l. f_equal. lia.
Qed.

Lemma append_decimal_clip capacity n l : 0 <= n < 10 ^ 24 ->
  append_decimal capacity n (clip capacity l) = clip capacity (l ++ decimal 24 n).
Proof. intros Hn. unfold append_decimal. rewrite append_chars_clip, digit_loop_decimal by done. done. Qed.

(** ** The grid *)

(** Two characters per day, blank outside the month, separated by spaces. *)
Definition cell_text (day : option Z) : list Z :=
  match day with
  | None => [32; 32]
  | Some d => if decide (d < 10) then [32; 48 + d] else [48 + d / 10; 48 + d mod 10]
  end.
Definition row_text (cells : list (option Z)) : list Z :=
  txt "[cal] " ++ concat (imap (fun i cell => (if decide (i = 0)%nat then [] else [32]) ++ cell_text cell) cells).

(** The weeks of a month, from the Sunday at or before its first day. *)
Definition month_day (y m : Z) (cell : Z) : option Z :=
  let d := cell - day_of_week y m 1 + 1 in if decide (1 <= d <= month_length m y) then Some d else None.
Definition month_weeks (y m : Z) : list (list (option Z)) :=
  (fun i => (fun c => month_day y m (7 * i + c)) <$> seqZ 0 7) <$> seqZ 0 ((day_of_week y m 1 + month_length m y + 6) / 7).

Lemma month_length_range m y : 1 <= m <= 12 -> 28 <= month_length m y <= 31.
Proof. revert m. apply months; month_tables; try case_decide; lia. Qed.

(** A day stands in the column of its weekday. *)
Lemma weeks_columns y m i w c d :
  month_weeks y m !! i = Some w -> w !! c = Some (Some d) -> 1 <= d <= month_length m y /\ day_of_week y m d = Z.of_nat c.
Proof.
  unfold month_weeks. intros Hw Hc. apply list_lookup_fmap_Some in Hw as (j & -> & Hj).
  apply list_lookup_fmap_Some in Hc as (x & Hc & Hx). symmetry in Hc.
  apply lookup_seqZ in Hx as [-> Hx]. unfold month_day in Hc. case_decide as Hd; [|done].
  injection Hc as <-. split; [done|]. clear Hd Hj. unfold day_of_week. unfold day_number.
  generalize (year_start y + month_start m y). intros s. Z.to_euclidean_division_equations; lia.
Qed.

Lemma append_day_clip d l : 1 <= d <= 31 -> append_day 96 d (clip 96 l) = clip 96 (l ++ cell_text (Some d)).
Proof.
  intros Hd. unfold append_day, cell_text. destruct (Z.ltb_spec d 10); case_decide; try lia.
  - rewrite append_char_clip, append_decimal_clip by lia. cbn [decimal]. rewrite decide_True by lia. by rewrite <-app_assoc.
  - rewrite append_decimal_clip by lia. change (decimal 24 d) with (if decide (d < 10) then [48 + d] else decimal 23 (d / 10) ++ [48 + d mod 10]).
    rewrite decide_False by lia. change (decimal 23 (d / 10)) with (if decide (d / 10 < 10) then [48 + d / 10] else decimal 22 (d / 10 / 10) ++ [48 + d / 10 mod 10]).
    rewrite decide_True by (Z.to_euclidean_division_equations; lia). done.
Qed.

Lemma append_cell_clip start days first column l :
  0 <= column -> 28 <= days <= 31 ->
  append_cell start days first column (clip 96 l) =
  clip 96 (l ++ (if decide (column = 0) then [] else [32]) ++
    cell_text (if decide (1 <= start + column - first + 1 <= days) then Some (start + column - first + 1) else None)).
Proof.
  intros Hc Hd. unfold append_cell.
  assert (Hsep : (if negb (column =? 0) then append_char 96 32 (clip 96 l) else clip 96 l) =
                 clip 96 (l ++ (if decide (column = 0) then [] else [32]))).
  { destruct (Z.eqb_spec column 0); case_decide; try done; cbn [negb]; [by rewrite app_nil_r|apply append_char_clip]. }
  rewrite Hsep. clear Hsep. rewrite app_assoc. generalize (l ++ (if decide (column = 0) then [] else [32])). intros l'.
  destruct (Z.ltb_spec (start + column) first), (Z.leb_spec (first + days) (start + column)); cbn [orb];
    case_decide as Hin; try lia; first [apply append_text_clip|apply append_day_clip; lia].
Qed.

Definition row_cells (start days first : Z) : list (option Z) :=
  (fun c => let d := start + c - first + 1 in if decide (1 <= d <= days) then Some d else None) <$> seqZ 0 7.

Lemma row_clip start days first : 28 <= days <= 31 ->
  for_range 0 7 (append_cell start days first) (append_text 96 (txt "[cal] ") []) =
  clip 96 (row_text (row_cells start days first)) /\ clip 96 (row_text (row_cells start days first)) = row_text (row_cells start days first).
Proof.
  intros Hd. rewrite append_text_nil. change (until_nul (txt "[cal] ")) with (txt "[cal] "). unfold for_range.
  change (Z.to_nat (7 - 0)) with 7%nat. cbn [iter_from].
  change (0 + 1 + 1 + 1 + 1 + 1 + 1) with 6. change (0 + 1 + 1 + 1 + 1 + 1) with 5. change (0 + 1 + 1 + 1 + 1) with 4.
  change (0 + 1 + 1 + 1) with 3. change (0 + 1 + 1) with 2. change (0 + 1) with 1. rewrite !append_cell_clip by lia.
  unfold row_text, row_cells. change (seqZ 0 7) with [0; 1; 2; 3; 4; 5; 6].
  cbn [fmap list_fmap imap]. split.
  { cbn [concat compose]. rewrite <-!app_assoc, app_nil_r. reflexivity. }
  unfold clip. apply take_ge. cbn [concat compose]. rewrite !length_app. repeat match goal with |- context [cell_text ?c] =>
    let H := fresh in assert (H : length (cell_text c) = 2%nat) by (unfold cell_text; repeat case_match; done); rewrite H; clear H end.
  apply Nat.leb_le. vm_compute. reflexivity.
Qed.

Lemma cell_text_nul_free c : (forall d, c = Some d -> 1 <= d <= 31) -> nul_free (cell_text c).
Proof.
  intros Hc. destruct c as [d|]; [|by apply nul_freeb_ok]. specialize (Hc d eq_refl). unfold cell_text.
  case_decide; repeat constructor; Z.to_euclidean_division_equations; lia.
Qed.

Lemma row_text_nul_free cells : (forall c d, c ∈ cells -> c = Some d -> 1 <= d <= 31) -> nul_free (row_text cells).
Proof.
  intros Hc. apply Forall_app_2; [by apply nul_freeb_ok|]. apply Forall_concat, Forall_lookup. intros i l Hl.
  apply list_lookup_imap_Some in Hl as (c & Hi & ->).
  apply Forall_app_2; [by case_decide; repeat constructor|]. apply cell_text_nul_free.
  intros d. apply Hc. by eapply list_elem_of_lookup_2.
Qed.

(** ** The program *)

Definition month_names : list (list Z) :=
  [txt "January"; txt "February"; txt "March"; txt "April"; txt "May"; txt "June"; txt "July"; txt "August";
   txt "September"; txt "October"; txt "November"; txt "December"].

Definition shown_rows (y m : Z) : list (list Z) := (fun w => row_text w ++ [10]) <$> month_weeks y m.

Definition month_page (y m : Z) : list Z :=
  txt "[cal] " ++ nth (Z.to_nat (m - 1)) month_names [] ++ [32] ++ decimal 24 y ++ [10] ++
  txt "[cal] Su Mo Tu We Th Fr Sa" ++ [10] ++ concat (shown_rows y m) ++
  txt "[cal] days 0x" ++ hex64 (month_length m y) ++ [10].

Definition in_range (y m : Z) : Prop := 1 <= m <= 12 /\ 1 <= y <= 9999.
#[export] Instance in_range_dec y m : Decision (in_range y m).
Proof. unfold in_range. apply _. Defined.

(** A text of digits, of a number that fits 64 bits. *)
Definition digits_of (text : list Z) (n : Z) : Prop :=
  text <> [] /\ Forall (fun c => 48 <= c <= 57) text /\ number text = n /\ n < two64.

Lemma parse_u64_digits text n : digits_of text n -> 0 <= n -> parse_u64 text = Some n.
Proof.
  intros (Hne & Hd & Hv & Hw) Hn. unfold parse_u64. destruct text as [|c rest]; [done|].
  change 0 with (w64 0). rewrite parse_digits_spec by done. fold (number (c :: rest)). rewrite Hv.
  by rewrite w64_small by (unfold u64; lia).
Qed.

Section printing.
Context {K : Type} `{!Sys K} `{!SysLaws K} (sys_date : K -> K * (SyscallResult * (Z * Z))).
Implicit Types k : K.

(** The month the program is asked for: from its arguments, or from the clock. *)
Inductive asked k : K -> Z -> Z -> Prop :=
  | by_arguments k1 k2 k3 month_text year_text m y :
      sys_argument 1 k = (k1, Some month_text) -> sys_argument 2 k1 = (k2, Some year_text) ->
      digits_of month_text m -> 0 <= m -> digits_of year_text y -> 0 <= y -> k3 = k2 -> asked k k3 y m
  | by_clock k1 k2 k3 m y :
      sys_argument 1 k = (k1, None) -> sys_argument 2 k1 = (k2, None) ->
      sys_date k2 = (k3, (mkResult 1 ErrorNone, (m, y))) -> good k3 -> output k3 = output k2 -> asked k k3 y m.

Lemma wp_emit_row y m i k (Q : unit -> K -> Prop) E :
  in_range y m -> 0 <= i < (day_of_week y m 1 + month_length m y + 6) / 7 -> good k ->
  (forall k', wrote (default [] (shown_rows y m !! Z.to_nat i)) k k' -> Q tt k') ->
  wp (emit_row (7 * i) (month_length m y) (day_of_week y m 1)) k Q E.
Proof.
  intros [Hm Hy] Hi Hg HQ. pose proof (month_length_range m y Hm) as Hl. unfold emit_row.
  destruct (row_clip (7 * i) (month_length m y) (day_of_week y m 1) Hl) as [-> Hid].
  apply wp_write_clip; [done| |done|].
  - apply row_text_nul_free. intros c d Hc ->. apply list_elem_of_fmap in Hc as (x & Hc & _).
    cbv zeta in Hc. case_decide; [|done]. injection Hc as ->. lia.
  - rewrite Hid. intros k' Hk'. apply HQ.
    unfold shown_rows, month_weeks. rewrite !list_lookup_fmap, lookup_seqZ_lt by lia. cbn [fmap option_fmap option_map default].
    rewrite Z.add_0_l, Z2Nat.id by lia. exact Hk'.
Qed.

Lemma wp_rows y m k (Q : unit -> K -> Prop) E :
  in_range y m -> good k -> (forall k', wrote (concat (shown_rows y m)) k k' -> Q tt k') ->
  wp (iter (fun cell_start : Z =>
        if cell_start <? month_length m y + day_of_week y m 1
        then emit_row cell_start (month_length m y) (day_of_week y m 1) ;; ret (inl (cell_start + 7)) else ret (inr tt)) 0) k Q E.
Proof.
  intros Hr Hg HQ. set (N := (day_of_week y m 1 + month_length m y + 6) / 7).
  assert (Hlen : length (shown_rows y m) = Z.to_nat N) by (unfold shown_rows, month_weeks; by rewrite !length_fmap, length_seqZ).
  assert (Hw : 0 <= day_of_week y m 1) by (apply Z.mod_pos_bound; lia).
  pose proof (month_length_range m y (proj1 Hr)) as Hl.
  apply (wp_iter _ (fun c k' => exists i, c = 7 * i /\ 0 <= i <= N /\ wrote (concat (take (Z.to_nat i) (shown_rows y m))) k k')
           (fun c _ => Z.to_nat (7 * N - c)) (fun _ _ => 0%nat)).
  2: { exists 0. split_and!; [done|lia|unfold N; Z.to_euclidean_division_equations; lia|]. apply same_wrote. by split_and!. }
  intros c k1 (i & -> & Hi & Hk1). destruct (Z.ltb_spec (7 * i) (month_length m y + day_of_week y m 1)) as [Hlt|Hge].
  - assert (HiN : i < N) by (unfold N; Z.to_euclidean_division_equations; lia).
    apply wp_bind, wp_emit_row; [done|fold N; lia|apply Hk1|]. intros k2 Hk2. apply wp_ret.
    split; [|left; lia]. exists (i + 1). split_and!; [lia..|].
    pose proof (wrote_trans _ _ _ _ _ Hk1 Hk2) as Hk. replace (Z.to_nat (i + 1)) with (S (Z.to_nat i)) by lia.
    destruct (lookup_lt_is_Some_2 (shown_rows y m) (Z.to_nat i) ltac:(lia)) as [r Hri].
    rewrite (take_S_r _ _ r), concat_app by done. rewrite Hri in Hk. cbn [concat]. by rewrite app_nil_r.
  - apply wp_ret, HQ. assert (Hend : i = N) by (unfold N in *; Z.to_euclidean_division_equations; lia).
    rewrite take_ge in Hk1; [done|lia].
Qed.

Definition title (y m : Z) : list Z := txt "[cal] " ++ nth (Z.to_nat (m - 1)) month_names [] ++ [32] ++ decimal 24 y.

Lemma title_clip y m : in_range y m ->
  append_decimal 96 y (append_char 96 32 (append_text 96 (nth (Z.to_nat m) kMonthNames []) (append_text 96 (txt "[cal] ") []))) =
  title y m /\ nul_free (title y m) /\ zlen (title y m) <= 4096.
Proof.
  intros [Hm Hy]. rewrite append_text_nil, append_text_clip, append_char_clip, append_decimal_clip by lia.
  destruct (decimal_facts 24 y ltac:(lia) ltac:(lia)) as (_ & Hd & Hl & _). unfold title. revert m Hm.
  assert (Hn : nul_free (decimal 24 y)) by (eapply Forall_impl; [exact Hd|]; cbn; lia).
  revert Hl Hn. generalize (decimal 24 y). intros t Hl Hn.
  assert (Hclip : forall a : list Z, (length a + 24 <= 95)%nat -> clip 96 (a ++ t) = a ++ t)
    by (intros a Ha; apply take_ge; rewrite length_app; lia).
  assert (Hsize : forall a : list Z, (length a + 24 <= 95)%nat -> zlen (a ++ t) <= 4096)
    by (intros a Ha; unfold zlen; rewrite length_app; lia).
  apply months; (split_and!; [rewrite Hclip by (by apply Nat.leb_le; vm_compute); by rewrite <-!app_assoc
    |repeat apply Forall_app_2; [by apply nul_freeb_ok..|done]
    |rewrite !app_assoc; apply Hsize; by apply Nat.leb_le; vm_compute]).
Qed.

Lemma wp_cal_month y m k (E : Z -> K -> Prop) :
  good k ->
  (forall k', if decide (in_range y m) then output k' = output k ++ month_page y m -> E 0 k'
              else output k' = output k ++ txt "[cal] range error" ++ [10] -> E 1 k') ->
  wp (cal_month m y) k (fun _ _ => False) E.
Proof.
  intros Hg HE. unfold cal_month. case_decide as Hr.
  - destruct (title_clip y m Hr) as (Ht & Hn & Hcap). pose proof Hr as [Hm Hy].
    assert (Hb : (m <? 1) || (12 <? m) || (y <? 1) || (9999 <? y) = false) by lia. rewrite Hb.
    rewrite Ht, weekday_spec, days_in_month_spec by lia.
    apply wp_bind, wp_write_line; [done|by rewrite until_nul_id|]. rewrite until_nul_id by done. intros k1 H1.
    apply wp_bind, wp_write_line; [apply H1|done|]. intros k2 H2.
    apply wp_bind, wp_rows; [done|apply H2|]. intros k3 H3.
    apply wp_bind, wp_write_hex_line; [apply H3|by apply nul_freeb_ok..|done|]. intros k4 H4.
    apply wp_exit, HE.
    destruct (wrote_trans _ _ _ _ _ (wrote_trans _ _ _ _ _ (wrote_trans _ _ _ _ _ H1 H2) H3) H4) as (_ & -> & _).
    f_equal. unfold month_page, title. rewrite <-!app_assoc. reflexivity.
  - assert (Hb : (m <? 1) || (12 <? m) || (y <? 1) || (9999 <? y) = true).
    { unfold in_range in Hr. lia. }
    rewrite Hb. apply wp_bind, wp_write_line; [done..|]. intros k' (_ & Ho & _). apply wp_exit, HE. by rewrite Ho.
Qed.

(** [cal] ends after printing the month it is asked for, by its arguments or by the
    clock: the name and the year, the weeks with every day of the month in the column of
    its weekday, counted from the first day of the year 1, and the number of days; or it
    reports that the month or the year is out of range and exits with 1. *)
Theorem cal_prints_month y m k k1 : good k -> asked k k1 y m ->
  (forall i w c d, month_weeks y m !! i = Some w -> w !! c = Some (Some d) -> day_of_week y m d = Z.of_nat c) /\
  wp (cal_main sys_date) k (fun _ _ => False) (fun code k' =>
    if decide (in_range y m) then code = 0 /\ output k' = output k ++ month_page y m
    else code = 1 /\ output k' = output k ++ txt "[cal] range error" ++ [10]).
Proof.
  intros Hg Hq. split; [intros; by eapply weeks_columns|]. unfold cal_main, get_arg. apply wp_bind.
  destruct Hq as [k1 k2 k3 mt yt m y Ha1 Ha2 Hm Hm0 Hy Hy0 -> |k1 k2 k3 m y Ha1 Ha2 Hd Hg3 Ho3];
    (eapply wp_call; [exact Ha1|]);
    pose proof (argument_law 1 k Hg) as (Hg1 & Ho1 & _); rewrite Ha1 in Hg1, Ho1; cbn [fst] in Hg1, Ho1;
    pose proof (argument_law 2 k1 Hg1) as (Hg2 & Ho2 & _); rewrite Ha2 in Hg2, Ho2; cbn [fst] in Hg2, Ho2.
  - apply wp_bind, wp_ret, wp_bind. eapply wp_call; [exact Ha2|]. unfold default, from_option, id.
    rewrite (parse_u64_digits _ _ Hm Hm0), (parse_u64_digits _ _ Hy Hy0).
    apply wp_cal_month; [done|]. intros k'. rewrite <-Ho1, <-Ho2. by case_decide.
  - apply wp_bind, wp_bind. eapply wp_call; [exact Ha2|]. apply wp_ret, wp_bind. eapply wp_call; [exact Hd|]. cbn.
    apply wp_cal_month; [done|]. intros k'. rewrite <-Ho1, <-Ho2, <-Ho3. by case_decide.
Qed.

End printing.

(** February 2024 on the small kernel, whose clock is broken. *)
Definition no_clock (k : small_kernel) : small_kernel * (SyscallResult * (Z * Z)) := (k, (mkResult 0 ErrorNotFound, (0, 0))).

Lemma cal_prints_month_witness :
  let k := mkSmall [txt "02"; txt "2024"] [] [] 1 in
  (exists w, month_weeks 2024 2 !! 4%nat = Some w /\ w !! 4%nat = Some (Some 29)) /\
  wp (cal_main no_clock) k (fun _ _ => False) (fun code k' => code = 0 /\ sk_output k' = month_page 2024 2).
Proof.
  intros k. split; [eexists; by split|].
  refine (wp_mono _ _ _ _ _ _ (proj2 (cal_prints_month no_clock 2024 2 k k I _)) _ _); [|done|].
  - eapply (by_arguments _ _ _ _ _ (txt "02") (txt "2024")); [done|done| |done| |done|done];
      (split_and!; [done|vm_compute; repeat constructor; done|done|done]).
  - intros c k'. by rewrite decide_True by (unfold in_range; lia).
Defined.
