(* ===== verification/Rtc.v ===== *)
(** * The real-time clock (kernel/src/time/rtc.cpp, userland/src/date.cpp)

    The clock chip answers the [n]-th access to it; its registers move on while they
    are read.  The theorems show that the two snapshots of [read_rtc_datetime] always
    settle and that what it returns is a time the chip showed during the call, in each
    of the formats the chip may use, and what the program date prints. *)

From stdpp Require Import strings.
From Stdlib Require Import ZifyBool.
From S2P Require Import Prelude UserLib Calendar.
#[local] Open Scope Z_scope.
#[local] Open Scope prog_scope.

(** ** The code *)

Record DateTimeInfo := mkDateTime {
  dt_year : Z; dt_month : Z; dt_day : Z; dt_hour : Z; dt_minute : Z; dt_second : Z; dt_reserved : Z
}.
#[export] Instance DateTimeInfo_eq_dec : EqDecision DateTimeInfo.
Proof. solve_decision. Defined.

Record RawRtc := mkRaw {
  rw_second : Z; rw_minute : Z; rw_hour : Z; rw_day : Z; rw_month : Z; rw_year : Z; rw_century : Z
}.

Definition kRegSeconds : Z := 0x00.
Definition kRegMinutes : Z := 0x02.
Definition kRegHours : Z := 0x04.
Definition kRegDay : Z := 0x07.
Definition kRegMonth : Z := 0x08.
Definition kRegYear : Z := 0x09.
Definition kRegStatusA : Z := 0x0a.
Definition kRegStatusB : Z := 0x0b.
Definition kRegCentury : Z := 0x32.

Definition bcd_to_binary (value : Z) : Z := w8 (Z.land value 15 + Z.shiftr value 4 * 10).

Definition valid (dt : DateTimeInfo) : bool :=
  (2020 <=? dt_year dt) && (dt_year dt <? 2100) && (1 <=? dt_month dt) && (dt_month dt <=? 12) &&
  (1 <=? dt_day dt) && (dt_day dt <=? 31) && (dt_hour dt <? 24) && (dt_minute dt <? 60) && (dt_second dt <? 60).

Definition same_snapshot (a b : RawRtc) : bool :=
  (rw_second a =? rw_second b) && (rw_minute a =? rw_minute b) && (rw_hour a =? rw_hour b) && (rw_day a =? rw_day b) &&
  (rw_month a =? rw_month b) && (rw_year a =? rw_year b) && (rw_century a =? rw_century b).

(** The part of [read_rtc_datetime] after the status register is read. *)
Definition decode_rtc (status_b : Z) (second : RawRtc) : DateTimeInfo :=
  let binary := negb (Z.land status_b 4 =? 0) in
  let hour_24 := negb (Z.land status_b 2 =? 0) in
  let pm := negb (Z.land (rw_hour second) 128 =? 0) in
  let second :=
    if negb binary then
      mkRaw (bcd_to_binary (rw_second second)) (bcd_to_binary (rw_minute second))
        (Z.lor (Z.land (rw_hour second) 128) (bcd_to_binary (Z.land (rw_hour second) 127)))
        (bcd_to_binary (rw_day second)) (bcd_to_binary (rw_month second)) (bcd_to_binary (rw_year second))
        (if negb (rw_century second =? 0) then bcd_to_binary (rw_century second) else rw_century second)
    else second in
  let hour := Z.land (rw_hour second) 127 in
  let hour := if negb hour_24 then
                let hour := if pm && (hour <? 12) then w8 (hour + 12) else hour in
                if negb pm && (hour =? 12) then 0 else hour
              else hour in
  let year := if negb (rw_century second =? 0) then w16 (rw_century second * 100 + rw_year second)
              else w16 (2000 + rw_year second) in
  mkDateTime year (rw_month second) (rw_day second) hour (rw_minute second) (rw_second second) 0.

Section code.
(** What port 0x71 answers at the [n]-th access, after a byte was written to port 0x70. *)
Context (answer : nat -> Z -> Z).

Definition cmos_read (reg : Z) : prog nat Z := call (fun n => (S n, answer n (Z.lor reg 128))).

Definition update_in_progress : prog nat bool :=
  let! a := cmos_read kRegStatusA in ret (negb (Z.land a 128 =? 0)).

(** [while (update_in_progress()) pause] *)
Definition wait_update : prog nat unit :=
  iter (fun _ : unit => let! busy := update_in_progress in ret (if busy then inl tt else inr tt)) tt.

Definition read_raw : prog nat RawRtc :=
  let! second := cmos_read kRegSeconds in
  let! minute := cmos_read kRegMinutes in
  let! hour := cmos_read kRegHours in
  let! day := cmos_read kRegDay in
  let! month := cmos_read kRegMonth in
  let! year := cmos_read kRegYear in
  let! century := cmos_read kRegCentury in
  ret (mkRaw second minute hour day month year century).

(** The loop over the attempts: the second snapshot once it is stable. *)
Definition stable_snapshot : prog nat (option RawRtc) :=
  iter (fun attempt : Z =>
    if attempt <? 128 then
      wait_update ;;
      let! first := read_raw in
      wait_update ;;
      let! second := read_raw in
      ret (if same_snapshot first second then inr (Some second) else inl (attempt + 1))
    else ret (inr None)) 0.

(** The answer, and [out] afterwards. *)
Definition read_rtc_datetime (out : DateTimeInfo) : prog nat (bool * DateTimeInfo) :=
  let! stable := stable_snapshot in
  match stable with
  | None => ret (false, out)
  | Some second =>
    let! status_b := cmos_read kRegStatusB in
    let out := decode_rtc status_b second in
    ret (valid out, out)
  end.

End code.

(** *** date.cpp *)

Definition append_two (capacity value : Z) (line : list Z) : list Z :=
  append_char capacity (48 + value mod 10) (append_char capacity (48 + value / 10 mod 10) line).
Definition append_four (capacity value : Z) (line : list Z) : list Z :=
  append_char capacity (48 + value mod 10) (append_char capacity (48 + value / 10 mod 10)
    (append_char capacity (48 + value / 100 mod 10) (append_char capacity (48 + value / 1000 mod 10) line))).

Section date.
Context {K : Type} `{!Sys K} (sys_datetime : K -> K * (SyscallResult * DateTimeInfo)).

Definition date_main : prog K unit :=
  let! (result, info) := call sys_datetime in
  if negb (r_error result =? ErrorNone) || negb (r_value result =? 1) then write_line (txt "[date] error") ;; exit 1
  else
    let line := append_text 40 (txt "[date] ") [] in
    let line := append_char 40 45 (append_four 40 (dt_year info) line) in
    let line := append_char 40 45 (append_two 40 (dt_month info) line) in
    let line := append_char 40 32 (append_two 40 (dt_day info) line) in
    let line := append_char 40 58 (append_two 40 (dt_hour info) line) in
    let line := append_char 40 58 (append_two 40 (dt_minute info) line) in
    write_line (append_two 40 (dt_second info) line) ;;
    exit 0.

End date.

(** ** The chip *)

(** The formats: binary or decimal digits, 24 or 12 hours, with or without a century. *)
Record format := mkFormat { f_binary : bool; f_24 : bool; f_century : bool }.

Definition digits2 (v : Z) : Z := v / 10 * 16 + v mod 10.
Definition code (f : format) (v : Z) : Z := if f_binary f then v else digits2 v.
Definition hour_code (f : format) (h : Z) : Z :=
  if f_24 f then code f h
  else (if decide (12 <= h) then 128 else 0) + code f (if decide (h mod 12 = 0) then 12 else h mod 12).

(** The registers of a time. *)
Definition registers (f : format) (t : DateTimeInfo) : RawRtc :=
  mkRaw (code f (dt_second t)) (code f (dt_minute t)) (hour_code f (dt_hour t)) (code f (dt_day t)) (code f (dt_month t))
    (code f (dt_year t mod 100)) (if f_century f then code f (dt_year t / 100) else 0).

(** A time of the calendar, in the years the kernel accepts. *)
Definition moment (t : DateTimeInfo) : Prop :=
  2020 <= dt_year t < 2100 /\ 1 <= dt_month t <= 12 /\ 1 <= dt_day t <= month_length (dt_month t) (dt_year t) /\
  0 <= dt_hour t < 24 /\ 0 <= dt_minute t < 60 /\ 0 <= dt_second t < 60 /\ dt_reserved t = 0.

Lemma check_range (P : Z -> bool) a n v : forallb P (seqZ a n) = true -> a <= v < a + n -> P v = true.
Proof.
  intros HP Hv. rewrite forallb_forall in HP. apply HP. rewrite <-list_elem_of_In. apply elem_of_seqZ. lia.
Qed.

Lemma bcd_digits v : 0 <= v < 100 -> bcd_to_binary (digits2 v) = v.
Proof. intros Hv. apply Z.eqb_eq. revert Hv. by apply (check_range (fun v => bcd_to_binary (digits2 v) =? v) 0 100). Qed.

Definition decoded (f : format) (v : Z) : Z := if f_binary f then v else bcd_to_binary v.
Lemma decoded_code f v : 0 <= v < 100 -> decoded f (code f v) = v.
Proof. intros Hv. unfold decoded, code. destruct (f_binary f); [done|by apply bcd_digits]. Qed.

(** The hour out of its register. *)
Definition hour_of (f : format) (c : Z) : Z :=
  let pm := negb (Z.land c 128 =? 0) in
  let c := if f_binary f then c else Z.lor (Z.land c 128) (bcd_to_binary (Z.land c 127)) in
  let hour := Z.land c 127 in
  if f_24 f then hour
  else let hour := if pm && (hour <? 12) then w8 (hour + 12) else hour in if negb pm && (hour =? 12) then 0 else hour.

Lemma hour_of_code f h : 0 <= h < 24 -> hour_of f (hour_code f h) = h.
Proof.
  intros Hh. apply Z.eqb_eq. revert Hh.
  destruct f as [[] [] c]; by apply (check_range (fun h => hour_of _ (hour_code _ h) =? h) 0 24).
Qed.

Lemma code_zero f v : 0 <= v < 100 -> (code f v =? 0) = (v =? 0).
Proof.
  intros Hv. unfold code, digits2. destruct (f_binary f); [done|]. apply eq_true_iff_eq. rewrite !Z.eqb_eq.
  Z.to_euclidean_division_equations; lia.
Qed.

(** Every format decodes to the time it shows. *)
Lemma decode_registers f t status_b :
  moment t -> (Z.land status_b 4 =? 0) = negb (f_binary f) -> (Z.land status_b 2 =? 0) = negb (f_24 f) ->
  decode_rtc status_b (registers f t) = t /\ valid t = true.
Proof.
  intros (Hy & Hm & Hd & Hh & Hmin & Hs & Hr) Hb H24. pose proof (month_length_range _ (dt_year t) Hm) as Hl.
  split; [|unfold valid; lia]. unfold decode_rtc. rewrite Hb, H24, !negb_involutive. unfold registers.
  cbn [rw_second rw_minute rw_hour rw_day rw_month rw_year rw_century].
  assert (Hyr : 0 <= dt_year t mod 100 < 100 /\ dt_year t / 100 = 20) by (Z.to_euclidean_division_equations; lia).
  pose proof (hour_of_code f (dt_hour t) Hh) as Hhour. unfold hour_of in Hhour.
  pose proof (decoded_code f (dt_second t) ltac:(lia)) as Ds. pose proof (decoded_code f (dt_minute t) ltac:(lia)) as Dm.
  pose proof (decoded_code f (dt_day t) ltac:(lia)) as Dd. pose proof (decoded_code f (dt_month t) ltac:(lia)) as Dmo.
  pose proof (decoded_code f (dt_year t mod 100) ltac:(lia)) as Dy. destruct Hyr as [Hyr ->].
  pose proof (decoded_code f 20 ltac:(lia)) as Dc. unfold decoded in *.
  assert (Hyear : dt_year t = 20 * 100 + dt_year t mod 100) by (Z.to_euclidean_division_equations; lia).
  assert (Hw : forall v, 2020 <= v < 2100 -> w16 v = v) by (intros; unfold w16; apply Z.mod_small; lia).
  destruct f as [[] h24 []]; cbn [f_binary f_24 f_century negb] in *;
    cbn [rw_second rw_minute rw_hour rw_day rw_month rw_year rw_century]; rewrite ?(code_zero _ 20) by lia;
    cbn [Z.eqb Pos.eqb negb]; rewrite ?Ds, ?Dm, ?Dd, ?Dmo, ?Dy, ?Dc.
  all: cbn [Z.eqb negb]; rewrite Hw by lia.
  all:     destruct t as [y mo d h mi s r]; cbn [dt_year dt_month dt_day dt_hour dt_minute dt_second dt_reserved] in *;
    f_equal; try lia; (etrans; [|exact Hhour]).
  all: by rewrite ?negb_involutive; destruct h24.
Qed.

(** ** Reading a moving clock

    [answer] and [time] describe a chip: the byte it answers and the time it shows at
    each access.  Bit 7 of the address only masks interrupts.  The registers can be
    trusted for some accesses after the update flag was seen clear; an update ends
    within [busy] accesses; and between two changes of the time there are more accesses
    than three attempts take. *)
Record clock_chip (answer : nat -> Z -> Z) (f : format) (time : nat -> DateTimeInfo) (busy : nat) : Prop := {
  cl_moment : forall n, moment (time n);
  cl_registers : forall n i, Z.land (answer n (128 + 10)) 128 = 0 -> (1 <= i <= 7)%nat ->
    let raw := registers f (time (n + i)%nat) in
    answer (n + i)%nat (128 + 0) = rw_second raw /\ answer (n + i)%nat (128 + 2) = rw_minute raw /\
    answer (n + i)%nat (128 + 4) = rw_hour raw /\ answer (n + i)%nat (128 + 7) = rw_day raw /\
    answer (n + i)%nat (128 + 8) = rw_month raw /\ answer (n + i)%nat (128 + 9) = rw_year raw /\
    answer (n + i)%nat (128 + 50) = rw_century raw;
  cl_format : forall n, (Z.land (answer n (128 + 11)) 4 =? 0) = negb (f_binary f) /\
                        (Z.land (answer n (128 + 11)) 2 =? 0) = negb (f_24 f);
  cl_update : forall n, exists j, (j <= busy)%nat /\ Z.land (answer (n + j)%nat (128 + 10)) 128 = 0;
  cl_slow : forall i j, (i < j)%nat -> time (S i) <> time i -> time (S j) <> time j -> (3 * busy + 48 < j - i)%nat
}.

Section reading.
Context {answer : nat -> Z -> Z} {f : format} {time : nat -> DateTimeInfo} {busy : nat}.
Context (chip : clock_chip answer f time busy).

Lemma constant_from a c : (a <= c)%nat -> (forall i, (a <= i < c)%nat -> time (S i) = time i) ->
  forall i, (a <= i <= c)%nat -> time i = time a.
Proof.
  intros Hac Hc i Hi. replace i with (a + (i - a))%nat by lia. assert (Hn : (i - a <= c - a)%nat) by lia.
  revert Hn. generalize (i - a)%nat. intros n. induction n as [|n IH]; intros Hn; [by rewrite Nat.add_0_r|].
  rewrite Nat.add_succ_r, Hc by lia. apply IH. lia.
Qed.

(** Either the time stands still over some accesses, or it changes at one of them. *)
Lemma stands_still_or_changes a c :
  (forall i, (a <= i < c)%nat -> time (S i) = time i) \/ exists i, (a <= i < c)%nat /\ time (S i) <> time i.
Proof.
  destruct (decide (Forall (fun i => time (S i) = time i) (seq a (c - a)))) as [H|H].
  - left. intros i Hi. rewrite Forall_forall in H. apply H, elem_of_seq. lia.
  - right. apply not_Forall_Exists in H; [|apply _]. apply Exists_exists in H as (i & Hi & Hne).
    apply elem_of_seq in Hi. exists i. split; [lia|done].
Qed.

(** A snapshot that starts at access [a]. *)
Definition snapshot (a : nat) : RawRtc :=
  let raw i := registers f (time (a + i)%nat) in
  mkRaw (rw_second (raw 0%nat)) (rw_minute (raw 1%nat)) (rw_hour (raw 2%nat)) (rw_day (raw 3%nat))
    (rw_month (raw 4%nat)) (rw_year (raw 5%nat)) (rw_century (raw 6%nat)).

Lemma snapshot_still a : (forall i, (a <= i < a + 6)%nat -> time (S i) = time i) -> snapshot a = registers f (time a).
Proof. 
  intros Hs. assert (Ht : forall i, (i < 7)%nat -> time (a + i)%nat = time a).
  { intros i Hi. apply (constant_from a (a + 6)); [lia|done|lia]. }
  unfold snapshot. by rewrite (Ht 0%nat), (Ht 1%nat), (Ht 2%nat), (Ht 3%nat), (Ht 4%nat), (Ht 5%nat), (Ht 6%nat) by lia.
Qed.

Lemma same_snapshot_spec a b : same_snapshot a b = true <-> a = b.
Proof. destruct a, b. unfold same_snapshot. cbn. rewrite !andb_true_iff, !Z.eqb_eq. split; [intuition congruence|by intros [=]]. Qed.

(** Of two equal snapshots within one change of the time, one is a time shown. *)
Lemma equal_snapshots a b : (a + 7 <= b <= a + busy + 8)%nat -> snapshot a = snapshot b ->
  exists j, (a <= j < b + 7)%nat /\ snapshot b = registers f (time j).
Proof.
  intros Hab Heq. destruct (stands_still_or_changes b (b + 6)) as [Hs|(i & Hi & Hch)].
  - exists b. split; [lia|]. by apply snapshot_still.
  - exists a. split; [lia|]. rewrite <-Heq. apply snapshot_still. intros j Hj.
    destruct (decide (time (S j) = time j)) as [|Hne]; [done|].
    pose proof (cl_slow _ _ _ _ chip j i ltac:(lia) Hne Hch). lia.
Qed.

Lemma unequal_snapshots a b : (a + 7 <= b)%nat -> snapshot a <> snapshot b ->
  exists i, (a <= i < b + 6)%nat /\ time (S i) <> time i.
Proof.
  intros Hab Hne. destruct (stands_still_or_changes a (b + 6)) as [Hs|?]; [|done]. destruct Hne.
  rewrite !snapshot_still by (intros; apply Hs; lia). f_equal. symmetry. apply (constant_from a (b + 6)); [lia|done|lia].
Qed.

Lemma wp_cmos_read reg n (Q : Z -> nat -> Prop) E :
  0 <= reg < 128 -> Q (answer n (128 + reg)) (S n) -> wp (cmos_read answer reg) n Q E.
Proof.
  intros Hr HQ. eapply wp_call; [done|]. replace (Z.lor reg 128) with (128 + reg); [done|].
  rewrite Z.lor_comm. symmetry. by apply (lor_add 128 reg 7).
Qed.

Lemma wp_wait_update n (Q : unit -> nat -> Prop) E :
  (forall n', (n < n' <= n + busy + 1)%nat -> Z.land (answer (n' - 1)%nat (128 + 10)) 128 = 0 -> Q tt n') ->
  wp (wait_update answer) n Q E.
Proof.
  intros HQ. destruct (cl_update _ _ _ _ chip n) as (j & Hj & Hclear).
  apply (wp_iter _ (fun _ k => (n <= k <= n + j)%nat) (fun _ k => n + j - k)%nat (fun _ _ => 0%nat)); [|lia].
  intros [] k Hk. apply wp_bind. unfold update_in_progress. apply wp_bind, wp_cmos_read; [done|].
  change (128 + kRegStatusA) with (128 + 10). apply wp_ret, wp_ret.
  destruct (Z.eqb_spec (Z.land (answer k (128 + 10)) 128) 0) as [H0|H0]; cbn [negb].
  - apply HQ; [lia|]. by rewrite Nat.sub_succ, Nat.sub_0_r.
  - assert (k <> n + j)%nat by congruence. split; [lia|left; lia].
Qed.

Lemma wp_read_raw n (Q : RawRtc -> nat -> Prop) E :
  (0 < n)%nat -> Z.land (answer (n - 1)%nat (128 + 10)) 128 = 0 -> Q (snapshot n) (n + 7)%nat ->
  wp (read_raw answer) n Q E.
Proof.
  intros Hn Hc HQ. pose proof (cl_registers _ _ _ _ chip (n - 1)) as Hr.
  assert (Hi : forall i, (i < 7)%nat -> (n - 1 + S i)%nat = (n + i)%nat) by lia.
  unfold read_raw. do 7 (apply wp_bind, wp_cmos_read; [done|]). apply wp_ret.
  replace (S (S (S (S (S (S (S n))))))) with (n + 7)%nat by lia.
  pose proof (Hr 1%nat Hc ltac:(lia)) as R0. pose proof (Hr 2%nat Hc ltac:(lia)) as R1. pose proof (Hr 3%nat Hc ltac:(lia)) as R2.
  pose proof (Hr 4%nat Hc ltac:(lia)) as R3. pose proof (Hr 5%nat Hc ltac:(lia)) as R4. pose proof (Hr 6%nat Hc ltac:(lia)) as R5.
  pose proof (Hr 7%nat Hc ltac:(lia)) as R6. rewrite Hi in R0, R1, R2, R3, R4, R5, R6 by lia.
  replace (S (S (S (S (S (S n)))))) with (n + 6)%nat by lia. replace (S (S (S (S (S n))))) with (n + 5)%nat by lia.
  replace (S (S (S (S n)))) with (n + 4)%nat by lia. replace (S (S (S n))) with (n + 3)%nat by lia.
  replace (S (S n)) with (n + 2)%nat by lia. replace (S n) with (n + 1)%nat by lia.
  replace (answer n) with (answer (n + 0)%nat) by (by rewrite Nat.add_0_r).
  cbv zeta in R0, R1, R2, R3, R4, R5, R6.
  unfold kRegSeconds, kRegMinutes, kRegHours, kRegDay, kRegMonth, kRegYear, kRegCentury.
  destruct R0 as (-> & _), R1 as (_ & -> & _), R2 as (_ & _ & -> & _), R3 as (_ & _ & _ & -> & _),
    R4 as (_ & _ & _ & _ & -> & _), R5 as (_ & _ & _ & _ & _ & -> & _), R6 as (_ & _ & _ & _ & _ & _ & ->).
  exact HQ.
Qed.

(** What is known before an attempt: it is the first, or the time has just changed. *)
Definition attempting (n : nat) (attempt : Z) (k : nat) : Prop :=
  attempt = 0 /\ k = n \/
  attempt = 1 /\ (n <= k <= n + 2 * busy + 16)%nat /\ exists i, time (S i) <> time i /\ (i < k <= i + busy + 16)%nat.

Lemma wp_stable_snapshot n (Q : option RawRtc -> nat -> Prop) E :
  (forall j n', (n <= j < n')%nat -> (n' <= n + 4 * busy + 32)%nat -> Q (Some (registers f (time j))) n') ->
  wp (stable_snapshot answer) n Q E.
Proof.
  intros HQ. apply (wp_iter _ (attempting n) (fun attempt _ => Z.to_nat (2 - attempt)) (fun _ _ => 0%nat)); [|by left].
  intros attempt k Hk. destruct (Z.ltb_spec attempt 128) as [_|Hge]; [|unfold attempting in Hk; lia].
  apply wp_bind, wp_wait_update. intros a Ha Hca. apply wp_bind, wp_read_raw; [lia|done|].
  apply wp_bind, wp_wait_update. intros b Hb Hcb. apply wp_bind, wp_read_raw; [lia|done|]. apply wp_ret.
  destruct (same_snapshot (snapshot a) (snapshot b)) eqn:Hsame.
  - apply same_snapshot_spec in Hsame. destruct (equal_snapshots a b ltac:(lia) Hsame) as (j & Hj & ->).
    unfold attempting in Hk. apply HQ; lia.
  - assert (Hne : snapshot a <> snapshot b) by (intros H%same_snapshot_spec; congruence).
    destruct (unequal_snapshots a b ltac:(lia) Hne) as (i & Hi & Hch).
    destruct Hk as [[-> ->]|(-> & Hk & i' & Hch' & Hi')].
    + split; [|left; lia]. right. split_and!; [done|lia|lia|]. exists i. split; [done|lia].
    + pose proof (cl_slow _ _ _ _ chip i' i ltac:(lia) Hch' Hch). lia.
Qed.

(** C23. Reading the clock ends with the answer true, after two attempts at most, and the
    time it returns is one that the chip showed while it was read: the two snapshots
    discard a time torn by a change, in decimal and in binary format, with 12 and with 24
    hours, with and without a century register. *)
Theorem read_rtc_returns_a_time_shown (n : nat) (out : DateTimeInfo) :
  wp (read_rtc_datetime answer out) n
    (fun '(ok, dt) n' => ok = true /\ (exists j, (n <= j < n')%nat /\ dt = time j) /\ (n' <= n + 4 * busy + 33)%nat)
    (fun _ _ => False).
Proof.
  unfold read_rtc_datetime. apply wp_bind, wp_stable_snapshot. intros j n' Hj Hn'.
  apply wp_bind, wp_cmos_read; [done|]. apply wp_ret. change (128 + kRegStatusB) with (128 + 11).
  destruct (cl_format _ _ _ _ chip n') as [Hb H24].
  destruct (decode_registers f (time j) _ (cl_moment _ _ _ _ chip j) Hb H24) as [-> Hv].
  split_and!; [done| |lia]. exists j. split; [lia|done].
Qed.

End reading.

(** A chip at New Year: an update from access 2 on ends at access 4. *)
Definition year_end (n : nat) : DateTimeInfo :=
  if decide (n < 4)%nat then mkDateTime 2023 12 31 23 59 59 0 else mkDateTime 2024 1 1 0 0 0 0.
Definition year_end_format : format := mkFormat false false true.
Definition year_end_answer (n : nat) (address : Z) : Z :=
  let raw := registers year_end_format (year_end n) in
  if address =? 128 then rw_second raw else if address =? 130 then rw_minute raw else if address =? 132 then rw_hour raw
  else if address =? 135 then rw_day raw else if address =? 136 then rw_month raw else if address =? 137 then rw_year raw
  else if address =? 178 then rw_century raw
  else if address =? 138 then (if decide (2 <= n < 4)%nat then 166 else 38) else 0.

Lemma year_end_chip : clock_chip year_end_answer year_end_format year_end 2.
Proof.
  split.
  - intros n. unfold year_end. case_decide; (split_and!; cbn; try lia; done).
  - intros n i _ _. by split_and!.
  - intros n. by split.
  - intros n. destruct (decide (2 <= n < 4)%nat) as [Hn|Hn].
    + exists (4 - n)%nat. split; [lia|]. replace (n + (4 - n))%nat with 4%nat by lia. done.
    + exists 0%nat. split; [lia|]. rewrite Nat.add_0_r. unfold year_end_answer. cbn [Z.add Z.eqb Pos.eqb Pos.add].
      by rewrite decide_False.
  - intros i j Hij Hi Hj. unfold year_end in *. exfalso. repeat case_decide; try done; lia.
Qed.

Lemma read_rtc_returns_a_time_shown_witness :
  wp (read_rtc_datetime year_end_answer (mkDateTime 0 0 0 0 0 0 0)) 0%nat
    (fun '(ok, dt) n' => ok = true /\ (exists j, (0 <= j < n')%nat /\ dt = year_end j) /\ (n' <= 0 + 4 * 2 + 33)%nat)
    (fun _ _ => False).
Proof. apply (read_rtc_returns_a_time_shown year_end_chip). Defined.

(** ** The program date *)

Definition two_digits (v : Z) : list Z := [48 + v / 10; 48 + v mod 10].
Definition date_line (t : DateTimeInfo) : list Z :=
  txt "[date] " ++ decimal 4 (dt_year t) ++ [45] ++ two_digits (dt_month t) ++ [45] ++ two_digits (dt_day t) ++ [32] ++
  two_digits (dt_hour t) ++ [58] ++ two_digits (dt_minute t) ++ [58] ++ two_digits (dt_second t).

Lemma append_two_clip v l : 0 <= v < 100 -> append_two 40 v (clip 40 l) = clip 40 (l ++ two_digits v).
Proof.
  intros Hv. unfold append_two. rewrite !append_char_clip, <-app_assoc. unfold two_digits. cbn [app].
  by rewrite (Z.mod_small (v / 10)) by (Z.to_euclidean_division_equations; lia).
Qed.

Lemma append_four_clip v l : 1000 <= v < 10000 -> append_four 40 v (clip 40 l) = clip 40 (l ++ decimal 4 v).
Proof.
  intros Hv. unfold append_four. rewrite !append_char_clip, <-!app_assoc. f_equal. f_equal. cbn [app decimal].
  rewrite decide_False by lia. rewrite (decide_False (P := v / 10 < 10)) by (Z.to_euclidean_division_equations; lia).
  rewrite (decide_False (P := v / 10 / 10 < 10)) by (Z.to_euclidean_division_equations; lia).
  rewrite decide_True by (Z.to_euclidean_division_equations; lia). rewrite !Z.div_div by lia. cbn [Z.mul Pos.mul app].
  rewrite (Z.mod_small (v / 1000)) by (Z.to_euclidean_division_equations; lia). done.
Qed.

(** With the time of the clock, date prints it in the order of ISO 8601 and exits with 0. *)
Lemma date_prints_time {K} `{!Sys K} `{!SysLaws K} (sys_datetime : K -> K * (SyscallResult * DateTimeInfo)) (k k1 : K) t :
  sys_datetime k = (k1, (mkResult 1 ErrorNone, t)) -> good k1 -> moment t ->
  wp (date_main sys_datetime) k (fun _ _ => False) (fun code k' =>
    code = 0 /\ output k' = output k1 ++ date_line t ++ [10]).
Proof.
  intros Hs Hg (Hy & Hm & Hd & Hh & Hmin & Hsec & _). pose proof (month_length_range _ (dt_year t) Hm) as Hl.
  apply wp_bind. eapply wp_call; [exact Hs|]. cbn [r_error r_value Z.eqb negb orb ErrorNone Pos.eqb].
  rewrite append_text_nil. change (until_nul (txt "[date] ")) with (txt "[date] ").
  rewrite append_four_clip by lia. repeat (rewrite append_char_clip, append_two_clip by lia).
  destruct (decimal_facts 4 (dt_year t) ltac:(lia) ltac:(lia)) as (_ & Hdig & Hlen & _).
  apply wp_bind, wp_write_clip; [done| |done|].
  - repeat apply Forall_app_2; try by apply nul_freeb_ok.
    1: eapply Forall_impl; [exact Hdig|cbn; lia].
    all: repeat constructor; Z.to_euclidean_division_equations; lia.
  - intros k' (_ & Ho & _). apply wp_exit. split; [done|]. rewrite Ho. f_equal. f_equal.
    unfold clip. rewrite take_ge; [by rewrite <-!app_assoc|]. rewrite !length_app. change (length (txt "[date] ")) with 7%nat.
    revert Hlen. generalize (decimal 4 (dt_year t)). intros l Hlen. cbn. lia.
Qed.
