(* ===== verification/Terminal.v ===== *)
(** * The terminal and the keyboard (kernel/src/terminal.cpp, kernel/src/drivers/ps2_keyboard.cpp)

    Input goes through two rings of 256 bytes: raw, and cooked by a line editor.  The
    theorems show that the terminal implements a line editor over plain lists, that every
    index stays in its array, that each byte pushed is delivered, queued or counted as
    dropped, and that a line typed on the keyboard reaches the reader. *)

From stdpp Require Import strings.
From Stdlib Require Import ZifyBool.
From S2P Require Import Prelude UserLib.
#[local] Open Scope Z_scope.

(** ** The code: terminal.cpp *)

Inductive TerminalInputMode := Raw | Canonical.
#[export] Instance TerminalInputMode_eq_dec : EqDecision TerminalInputMode.
Proof. solve_decision. Defined.

Definition kInputBufferSize : Z := 256.
Definition kLineBufferSize : Z := 128.

(** A buffer with its [head], [tail] and [count]. *)
Record queue := mkQueue { q_buffer : list Z; q_head : Z; q_tail : Z; q_count : Z }.
#[export] Instance queue_eta : Eta queue := fun r => mkQueue (q_buffer r) (q_head r) (q_tail r) (q_count r).

Record Stats := mkStats {
  write_calls : Z; bytes_written : Z; raw_input_bytes : Z; canonical_input_bytes : Z; canonical_line_commits : Z;
  dropped_input_bytes : Z; input_high_watermark : Z; scroll_relative_ops : Z; scroll_to_bottom_ops : Z; input_line_resets : Z
}.
#[export] Instance Stats_eta : Eta Stats := fun r =>
  mkStats (write_calls r) (bytes_written r) (raw_input_bytes r) (canonical_input_bytes r) (canonical_line_commits r)
    (dropped_input_bytes r) (input_high_watermark r) (scroll_relative_ops r) (scroll_to_bottom_ops r) (input_line_resets r).

(** The calls made to the console (and, for text, to the serial port). *)
Inductive display := ShowChar (c : Z) | ScrollView (rows : Z) | ScrollToBottom | ResetInputLine.

Record terminal := mkTerminal {
  t_raw : queue; t_cooked : queue; t_line_buffer : list Z; t_line_length : Z; t_mode : TerminalInputMode;
  t_stats : Stats; t_display : list display
}.
#[export] Instance terminal_eta : Eta terminal := fun r =>
  mkTerminal (t_raw r) (t_cooked r) (t_line_buffer r) (t_line_length r) (t_mode r) (t_stats r) (t_display r).

Definition clear_queue (q : queue) : queue := mkQueue (replicate 256 0) 0 0 0.

Definition clear_input_locked (t : terminal) : terminal :=
  t <| t_raw ::= clear_queue |> <| t_cooked ::= clear_queue |> <| t_line_buffer := replicate 128 0 |> <| t_line_length := 0 |>.

Definition update_high_watermark (t : terminal) : terminal :=
  let active := if q_count (t_cooked t) <? q_count (t_raw t) then q_count (t_raw t) else q_count (t_cooked t) in
  if input_high_watermark (t_stats t) <? active then t <| t_stats ::= fun s => s <| input_high_watermark := active |> |> else t.

(** [push_queue] on a queue; the flag says that a byte was dropped. *)
Definition push (c : Z) (q : queue) : queue * bool :=
  let full := q_count q =? kInputBufferSize in
  let q := if full then q <| q_tail ::= fun x => (x + 1) mod kInputBufferSize |> <| q_count ::= Z.pred |> else q in
  (q <| q_buffer ::= <[Z.to_nat (q_head q) := c]> |> <| q_head ::= fun x => (x + 1) mod kInputBufferSize |> <| q_count ::= Z.succ |>,
   full).

Definition count_drop (dropped : bool) (t : terminal) : terminal :=
  if dropped then t <| t_stats ::= fun s => s <| dropped_input_bytes ::= inc64 |> |> else t.

(** [push_queue] on the raw and on the cooked queue. *)
Definition push_raw (c : Z) (t : terminal) : terminal :=
  let '(q, dropped) := push c (t_raw t) in update_high_watermark (count_drop dropped t <| t_raw := q |>).
Definition push_cooked_queue (c : Z) (t : terminal) : terminal :=
  let '(q, dropped) := push c (t_cooked t) in update_high_watermark (count_drop dropped t <| t_cooked := q |>).

Definition pop_queue (q : queue) : option (Z * queue) :=
  if q_count q =? 0 then None
  else Some (nth (Z.to_nat (q_tail q)) (q_buffer q) 0,
             q <| q_tail ::= fun x => (x + 1) mod kInputBufferSize |> <| q_count ::= Z.pred |>).

Definition push_cooked (c : Z) (t : terminal) : terminal :=
  push_cooked_queue c t <| t_stats ::= fun s => s <| canonical_input_bytes ::= inc64 |> |>.

Definition canonical_input (c : Z) (t : terminal) : terminal :=
  if c =? 0 then t
  else
    let c := if c =? 13 then 10 else c in
    if (c =? 8) || (c =? 127) then
      if negb (t_line_length t =? 0) then
        t <| t_line_length ::= Z.pred |> <| t_line_buffer ::= <[Z.to_nat (t_line_length t - 1) := 0]> |>
      else t
    else if c =? 10 then
      let t := for_range 0 (t_line_length t) (fun i u => push_cooked (nth (Z.to_nat i) (t_line_buffer t) 0) u) t in
      let t := push_cooked 10 t in
      t <| t_stats ::= fun s => s <| canonical_line_commits ::= inc64 |> |>
        <| t_line_buffer := replicate 128 0 |> <| t_line_length := 0 |>
    else if (1 <=? c) && (c <? 32) then push_cooked c t
    else if t_line_length t + 1 <? kLineBufferSize then
      t <| t_line_buffer ::= fun l => <[Z.to_nat (t_line_length t + 1) := 0]> (<[Z.to_nat (t_line_length t) := c]> l) |>
        <| t_line_length ::= Z.succ |>
    else t.

(** The branch on the mode that [push_input] and [inject_input] share. *)
Definition input_byte (c : Z) (t : terminal) : terminal :=
  match t_mode t with
  | Raw => push_raw c t <| t_stats ::= fun s => s <| raw_input_bytes ::= inc64 |> |>
  | Canonical => canonical_input c t
  end.

Definition write (data : list Z) (t : terminal) : terminal * Z :=
  if (zlen data =? 0) || (4096 <? zlen data) then (t, 0)
  else
    let t := t <| t_stats ::= fun s => s <| write_calls ::= inc64 |> <| bytes_written ::= fun n => w64 (n + zlen data) |> |> in
    (foldl (fun t c => t <| t_display ::= fun d => d ++ [ShowChar c] |>) t data, zlen data).

Definition push_input (c : Z) (t : terminal) : terminal := if c =? 0 then t else input_byte c t.

(** The loop of [inject_input], which stops at a NUL, with [injected]. *)
Fixpoint inject (data : list Z) (t : terminal) (injected : Z) : terminal * Z :=
  match data with
  | [] => (t, injected)
  | c :: data' => if c =? 0 then (t, injected) else inject data' (input_byte c t) (injected + 1)
  end.
Definition inject_input (data : list Z) (t : terminal) : terminal * Z :=
  if (zlen data =? 0) || (4096 <? zlen data) then (t, 0) else inject data t 0.

(** [while (read < length)] with [pop_queue]. *)
Fixpoint pops (n : nat) (q : queue) : list Z * queue :=
  match n with
  | O => ([], q)
  | S n' =>
    match pop_queue q with
    | None => ([], q)
    | Some (c, q') => let '(bytes, q'') := pops n' q' in (c :: bytes, q'')
    end
  end.

Definition read_input (length : Z) (t : terminal) : terminal * list Z :=
  if (length =? 0) || (4096 <? length) then (t, [])
  else match t_mode t with
       | Raw => let '(bytes, q) := pops (Z.to_nat length) (t_raw t) in (t <| t_raw := q |>, bytes)
       | Canonical => let '(bytes, q) := pops (Z.to_nat length) (t_cooked t) in (t <| t_cooked := q |>, bytes)
       end.

Definition read_key (length : Z) (t : terminal) : terminal * list Z :=
  if length =? 0 then (t, []) else let '(bytes, q) := pops (Z.to_nat length) (t_raw t) in (t <| t_raw := q |>, bytes).

Definition buffered_input_count (t : terminal) : Z :=
  match t_mode t with Raw => q_count (t_raw t) | Canonical => q_count (t_cooked t) end.

(** The call takes the number of a mode; every number but 1 is raw. *)
Definition set_input_mode (next : Z) (t : terminal) : terminal :=
  clear_input_locked (t <| t_mode := if next =? 1 then Canonical else Raw |>).

Definition scroll_relative (rows : Z) (t : terminal) : terminal :=
  t <| t_stats ::= fun s => s <| scroll_relative_ops ::= inc64 |> |> <| t_display ::= fun d => d ++ [ScrollView rows] |>.
Definition scroll_to_bottom (t : terminal) : terminal :=
  t <| t_stats ::= fun s => s <| scroll_to_bottom_ops ::= inc64 |> |> <| t_display ::= fun d => d ++ [ScrollToBottom] |>.
Definition reset_input_line (t : terminal) : terminal :=
  t <| t_stats ::= fun s => s <| input_line_resets ::= inc64 |> |> <| t_display ::= fun d => d ++ [ResetInputLine] |>.

(** The static storage at boot. *)
Definition boot_terminal : terminal :=
  mkTerminal (mkQueue (replicate 256 0) 0 0 0) (mkQueue (replicate 256 0) 0 0 0) (replicate 128 0) 0 Raw
    (mkStats 0 0 0 0 0 0 0 0 0 0) [].

(** ** The code: ps2_keyboard.cpp *)

Record keyboard := mkKeyboard { shift_down : bool; ctrl_down : bool; extended_prefix : bool }.
#[export] Instance keyboard_eta : Eta keyboard := fun r => mkKeyboard (shift_down r) (ctrl_down r) (extended_prefix r).

Definition normal_table : list Z :=
  [0; 27] ++ txt "1234567890-=" ++ [8; 9] ++ txt "qwertyuiop[]" ++ [10; 0] ++ txt "asdfghjkl;'`" ++ [0] ++
  txt "\zxcvbnm,./" ++ [0; 42; 0; 32].
Definition shifted_table : list Z :=
  [0; 27] ++ txt "!@#$%^&*()_+" ++ [8; 9] ++ txt "QWERTYUIOP{}" ++ [10; 0] ++ txt "ASDFGHJKL:" ++ [34] ++ txt "~" ++ [0] ++
  txt "|ZXCVBNM<>?" ++ [0; 42; 0; 32].
Definition normal_key (scancode : Z) : Z := if scancode <? 128 then nth (Z.to_nat scancode) normal_table 0 else 0.
Definition shifted_key (scancode : Z) : Z := if scancode <? 128 then nth (Z.to_nat scancode) shifted_table 0 else 0.

(** Home, cursor and editing keys, after the prefix 0xe0. *)
Definition extended_key (scancode : Z) : Z :=
  if negb (Z.land scancode 128 =? 0) then 0
  else if scancode =? 0x48 then 0x10
  else if scancode =? 0x50 then 0x0e
  else if scancode =? 0x47 then 0x01
  else if scancode =? 0x4b then 0x02
  else if scancode =? 0x4d then 0x06
  else if scancode =? 0x4f then 0x05
  else if scancode =? 0x49 then 0x11
  else if scancode =? 0x51 then 0x12
  else if scancode =? 0x53 then 0x7f
  else 0.

Definition translate_key (scancode : Z) (k : keyboard) : keyboard * Z :=
  if scancode =? 0xe0 then (k <| extended_prefix := true |>, 0)
  else if extended_prefix k then (k <| extended_prefix := false |>, extended_key scancode)
  else if (scancode =? 0x2a) || (scancode =? 0x36) then (k <| shift_down := true |>, 0)
  else if (scancode =? 0xaa) || (scancode =? 0xb6) then (k <| shift_down := false |>, 0)
  else if scancode =? 0x1d then (k <| ctrl_down := true |>, 0)
  else if scancode =? 0x9d then (k <| ctrl_down := false |>, 0)
  else if negb (Z.land scancode 128 =? 0) then (k, 0)
  else
    let c := if shift_down k then shifted_key scancode else normal_key scancode in
    if ctrl_down k && (97 <=? c) && (c <=? 122) then (k, c - 97 + 1)
    else if ctrl_down k && (65 <=? c) && (c <=? 90) then (k, c - 65 + 1)
    else (k, c).

(** [handle_irq] with the bytes of the status and of the data port. *)
Definition handle_irq (status scancode : Z) (s : keyboard * terminal) : keyboard * terminal :=
  if Z.land status 1 =? 0 then s
  else let '(k, c) := translate_key scancode s.1 in (k, push_input c s.2).

(** ** Queues are bounded lists *)

Record queue_wf (q : queue) : Prop := {
  qw_buffer : length (q_buffer q) = 256%nat;
  qw_head : q_head q = (q_tail q + q_count q) mod 256;
  qw_tail : 0 <= q_tail q < 256;
  qw_count : 0 <= q_count q <= 256
}.

(** The bytes of a queue, oldest first. *)
Definition contents (q : queue) : list Z :=
  (fun i => nth (Z.to_nat ((q_tail q + i) mod 256)) (q_buffer q) 0) <$> seqZ 0 (q_count q).

(** The last 256 of a list. *)
Definition newest (l : list Z) : list Z := drop (length l - 256) l.

Lemma contents_length q : 0 <= q_count q -> length (contents q) = Z.to_nat (q_count q).
Proof. intros. unfold contents. by rewrite length_fmap, length_seqZ. Qed.

Lemma contents_zlen q : queue_wf q -> zlen (contents q) = q_count q.
Proof. intros [_ _ _ Hc]. unfold zlen. rewrite contents_length by lia. lia. Qed.

Lemma newest_short l : (length l <= 256)%nat -> newest l = l.
Proof. intros Hl. unfold newest. by replace (length l - 256)%nat with 0%nat by lia. Qed.

Lemma newest_app a b : newest (newest a ++ b) = newest (a ++ b).
Proof.
  unfold newest. rewrite !length_app, length_drop.
  destruct (decide (length a <= 256)%nat).
  - replace (length a - 256)%nat with 0%nat by lia. rewrite drop_0. f_equal. lia.
  - replace (length a + length b - 256)%nat with (length a - 256 + (length a - (length a - 256) + length b - 256))%nat by lia.
    rewrite <-drop_drop. f_equal. rewrite drop_app_le by lia. done.
Qed.

(** Distinct places of the ring. *)
Lemma ring_ne t i j : 0 <= i < 256 -> 0 <= j < 256 -> i <> j -> (t + i) mod 256 <> (t + j) mod 256.
Proof. intros. Z.to_euclidean_division_equations; lia. Qed.

Lemma contents_cons q : queue_wf q -> 0 < q_count q ->
  contents q = nth (Z.to_nat (q_tail q)) (q_buffer q) 0 ::
    contents (q <| q_tail ::= fun x => (x + 1) mod 256 |> <| q_count ::= Z.pred |>).
Proof.
  destruct q as [buffer head tail count]. intros [Hb Hh Ht Hc] Hpos. unfold contents. cbn in *.
  rewrite (seqZ_cons 0) by lia. cbn [fmap list_fmap]. rewrite Z.add_0_r, Z.mod_small by lia. f_equal.
  change (Z.succ 0) with (1 + 0). rewrite <-(fmap_add_seqZ 1 0), <-list_fmap_compose.
  apply list_fmap_ext. intros i x _. unfold compose. rewrite Zplus_mod_idemp_l. do 3 f_equal. lia.
Qed.

Lemma pop_wf q : queue_wf q -> 0 < q_count q ->
  queue_wf (q <| q_tail ::= fun x => (x + 1) mod 256 |> <| q_count ::= Z.pred |>).
Proof.
  intros [Hb Hh Ht Hc] Hpos. split; cbn; [done| |Z.to_euclidean_division_equations; lia|lia].
  rewrite Hh, Zplus_mod_idemp_l. f_equal. lia.
Qed.

Lemma contents_insert q c : queue_wf q -> q_count q < 256 ->
  let q' := q <| q_buffer ::= <[Z.to_nat (q_head q) := c]> |> <| q_head ::= fun x => (x + 1) mod 256 |> <| q_count ::= Z.succ |> in
  queue_wf q' /\ contents q' = contents q ++ [c].
Proof.
  destruct q as [buffer head tail count]. intros [Hb Hh Ht Hc] Hlt. cbn in *.
  assert (Hhr : 0 <= head < 256) by (rewrite Hh; apply Z.mod_pos_bound; lia). split.
  - split; cbn; [by rewrite length_insert| |done|lia]. rewrite Hh, Zplus_mod_idemp_l. f_equal. lia.
  - unfold contents. cbn [q_tail q_count q_buffer]. unfold Z.succ. rewrite seqZ_app, fmap_app by lia. f_equal.
    + apply list_fmap_ext. intros i x Hx. apply lookup_seqZ in Hx as [-> Hi]. rewrite !nth_lookup, list_lookup_insert_ne; [done|].
      pose proof (ring_ne tail (0 + Z.of_nat i) count ltac:(lia) ltac:(lia) ltac:(lia)).
      pose proof (Z.mod_pos_bound (tail + (0 + Z.of_nat i)) 256 ltac:(lia)). lia.
    + change (seqZ (0 + count) 1) with [0 + count]. cbn [fmap list_fmap].
      rewrite Z.add_0_l, <-Hh, nth_lookup, list_lookup_insert_eq by lia. done.
Qed.

Lemma push_spec c q : queue_wf q ->
  queue_wf (push c q).1 /\ contents (push c q).1 = newest (contents q ++ [c]) /\
  (push c q).2 = bool_decide (q_count q = 256).
Proof.
  intros Hq. pose proof (contents_zlen q Hq) as Hz. unfold push, kInputBufferSize. cbv zeta.
  destruct (Z.eqb_spec (q_count q) 256) as [Hf|Hf]; cbn [fst snd].
  - pose proof (pop_wf q Hq ltac:(lia)) as Hw. pose proof (contents_cons q Hq ltac:(lia)) as Hcons.
    set (p := q <| q_tail ::= _ |> <| q_count ::= Z.pred |>) in *.
    assert (Hpc : q_count p < 256) by (unfold p; cbn; lia).
    destruct (contents_insert p c Hw Hpc) as [H1 H2]. split_and!; [exact H1| |by rewrite bool_decide_true].
    rewrite H2, Hcons. unfold newest. rewrite length_app. cbn [length].
    assert (Hl : length (contents p) = 255%nat).
    { pose proof (contents_zlen p Hw). unfold zlen in *. unfold p in *. cbn in *. lia. }
    rewrite Hl. done.
  - destruct (contents_insert q c Hq) as [H1 H2]; [destruct Hq; lia|]. split_and!; [exact H1| |by rewrite bool_decide_false].
    rewrite H2, newest_short; [done|]. rewrite length_app. unfold zlen in Hz. destruct Hq. simpl. lia.
Qed.

Lemma pops_spec n : forall q, queue_wf q ->
  (pops n q).1 = take n (contents q) /\ contents (pops n q).2 = drop n (contents q) /\ queue_wf (pops n q).2.
Proof.
  induction n as [|n IH]; intros q Hq; [done|]. cbn [pops]. unfold pop_queue, kInputBufferSize.
  destruct (Z.eqb_spec (q_count q) 0) as [H0|H0].
  - assert (Hc : contents q = []) by (unfold contents; by rewrite H0). cbn. by rewrite Hc, ?take_nil, ?drop_nil.
  - assert (Hpos : 0 < q_count q) by (destruct Hq; lia).
    destruct (IH _ (pop_wf q Hq Hpos)) as (H1 & H2 & H3). rewrite (contents_cons q Hq Hpos).
    destruct (pops n _) as [bytes q'] eqn:Hp. cbn in *. by rewrite H1, H2.
Qed.

(** ** The line editor *)

Record editor := mkEditor { e_mode : TerminalInputMode; e_raw : list Z; e_cooked : list Z; e_line : list Z }.

(** A byte in canonical mode: Enter commits the line, Backspace and Delete erase its last
    byte, other control bytes overtake it, and it holds at most 127 bytes. *)
Definition cook (c : Z) (e : editor) : editor :=
  let '(mkEditor mode raw cooked line) := e in
  if decide (c = 0) then e
  else if decide (c = 8 \/ c = 127) then mkEditor mode raw cooked (take (length line - 1) line)
  else if decide (c = 10 \/ c = 13) then mkEditor mode raw (newest (cooked ++ line ++ [10])) []
  else if decide (1 <= c < 32) then mkEditor mode raw (newest (cooked ++ [c])) line
  else mkEditor mode raw cooked (if decide (length line < 127)%nat then line ++ [c] else line).

Definition edit_byte (e : editor) (c : Z) : editor :=
  match e_mode e with
  | Raw => mkEditor Raw (newest (e_raw e ++ [c])) (e_cooked e) (e_line e)
  | Canonical => cook c e
  end.

Inductive terminal_op :=
  | OpWrite (data : list Z) | OpPush (c : Z) | OpInject (data : list Z) | OpRead (length : Z) | OpReadKey (length : Z)
  | OpSetMode (mode : Z) | OpScroll (rows : Z) | OpBottom | OpReset.

(** An operation with the number it returns and the bytes it delivers. *)
Definition run_op (op : terminal_op) (t : terminal) : terminal * (Z * list Z) :=
  match op with
  | OpWrite data => let '(t, n) := write data t in (t, (n, []))
  | OpPush c => (push_input c t, (0, []))
  | OpInject data => let '(t, n) := inject_input data t in (t, (n, []))
  | OpRead length => let '(t, bytes) := read_input length t in (t, (zlen bytes, bytes))
  | OpReadKey length => let '(t, bytes) := read_key length t in (t, (zlen bytes, bytes))
  | OpSetMode mode => (set_input_mode mode t, (0, []))
  | OpScroll rows => (scroll_relative rows t, (0, []))
  | OpBottom => (scroll_to_bottom t, (0, []))
  | OpReset => (reset_input_line t, (0, []))
  end.

(** A buffer the calls accept. *)
Definition sized (n : Z) : Prop := 0 < n <= 4096.

Definition edit_op (op : terminal_op) (e : editor) : editor * (Z * list Z) :=
  match op with
  | OpWrite data => (e, (if decide (sized (zlen data)) then zlen data else 0, []))
  | OpPush c => (if decide (c = 0) then e else edit_byte e c, (0, []))
  | OpInject data =>
    if decide (sized (zlen data)) then (foldl edit_byte e (until_nul data), (zlen (until_nul data), [])) else (e, (0, []))
  | OpRead n =>
    if decide (sized n) then
      match e_mode e with
      | Raw => let bytes := take (Z.to_nat n) (e_raw e) in
               (mkEditor Raw (drop (Z.to_nat n) (e_raw e)) (e_cooked e) (e_line e), (zlen bytes, bytes))
      | Canonical => let bytes := take (Z.to_nat n) (e_cooked e) in
                     (mkEditor Canonical (e_raw e) (drop (Z.to_nat n) (e_cooked e)) (e_line e), (zlen bytes, bytes))
      end
    else (e, (0, []))
  | OpReadKey n =>
    let bytes := take (Z.to_nat n) (e_raw e) in
    (mkEditor (e_mode e) (drop (Z.to_nat n) (e_raw e)) (e_cooked e) (e_line e), (zlen bytes, bytes))
  | OpSetMode mode => (mkEditor (if decide (mode = 1) then Canonical else Raw) [] [] [], (0, []))
  | _ => (e, (0, []))
  end.

Record terminal_wf (t : terminal) : Prop := {
  tw_raw : queue_wf (t_raw t);
  tw_cooked : queue_wf (t_cooked t);
  tw_buffer : length (t_line_buffer t) = 128%nat;
  tw_length : 0 <= t_line_length t < 128;
  tw_high : 0 <= input_high_watermark (t_stats t) <= 256
}.

Definition line_of (t : terminal) : list Z := take (Z.to_nat (t_line_length t)) (t_line_buffer t).
Definition editor_of (t : terminal) : editor :=
  mkEditor (t_mode t) (contents (t_raw t)) (contents (t_cooked t)) (line_of t).

(** Bytes that were pushed less those dropped and those queued. *)
Definition delivered (t : terminal) : Z :=
  w64 (raw_input_bytes (t_stats t) + canonical_input_bytes (t_stats t) - dropped_input_bytes (t_stats t)
       - q_count (t_raw t) - q_count (t_cooked t)).

(** Two terminals that differ in other statistics and in the display only. *)
Definition same_input (t u : terminal) : Prop :=
  t_raw u = t_raw t /\ t_cooked u = t_cooked t /\ t_line_buffer u = t_line_buffer t /\ t_line_length u = t_line_length t /\
  t_mode u = t_mode t /\ raw_input_bytes (t_stats u) = raw_input_bytes (t_stats t) /\
  canonical_input_bytes (t_stats u) = canonical_input_bytes (t_stats t) /\
  dropped_input_bytes (t_stats u) = dropped_input_bytes (t_stats t).

(** What an input operation does: the invariant, the editor, and [n] bytes more pushed
    than accounted for. *)
Definition input_step (t u : terminal) (e : editor) : Prop :=
  terminal_wf u /\ editor_of u = e /\ delivered u = delivered t.

Lemma watermark_step t : queue_wf (t_raw t) -> queue_wf (t_cooked t) -> length (t_line_buffer t) = 128%nat ->
  0 <= t_line_length t < 128 -> 0 <= input_high_watermark (t_stats t) <= 256 ->
  terminal_wf (update_high_watermark t) /\ same_input t (update_high_watermark t).
Proof.
  intros [? ? ? Hr] [? ? ? Hc] Hb Hl Hh. unfold update_high_watermark.
  set (active := if q_count (t_cooked t) <? q_count (t_raw t) then _ else _).
  assert (Ha : 0 <= active <= 256) by (unfold active; destruct (_ <? _); lia).
  destruct (_ <? active); (split; [by split; cbn|by split_and!]).
Qed.

Lemma push_count c q : q_count (push c q).1 + (if (push c q).2 then 1 else 0) = q_count q + 1.
Proof. unfold push. destruct (q_count q =? kInputBufferSize); cbn; lia. Qed.

Lemma inc64_shift x : exists k, inc64 x = x + 1 + k * two64.
Proof. exists (- ((x + 1) / two64)). unfold inc64, w64. pose proof (Z.div_mod (x + 1) two64 ltac:(done)). lia. Qed.

Lemma w64_shift a b k : a = b + k * two64 -> w64 a = w64 b.
Proof. intros ->. apply Z_mod_plus_full. Qed.

Lemma count_drop_fields d t :
  let u := count_drop d t in
  t_raw u = t_raw t /\ t_cooked u = t_cooked t /\ t_line_buffer u = t_line_buffer t /\ t_line_length u = t_line_length t /\
  t_mode u = t_mode t /\ input_high_watermark (t_stats u) = input_high_watermark (t_stats t) /\
  raw_input_bytes (t_stats u) = raw_input_bytes (t_stats t) /\
  canonical_input_bytes (t_stats u) = canonical_input_bytes (t_stats t) /\
  exists k, dropped_input_bytes (t_stats u) = dropped_input_bytes (t_stats t) + (if d then 1 else 0) + k * two64.
Proof. destruct d; cbn; split_and!; try done; [apply inc64_shift|exists 0; lia]. Qed.

Lemma push_raw_step c t : terminal_wf t ->
  input_step t (push_raw c t <| t_stats ::= fun s => s <| raw_input_bytes ::= inc64 |> |>)
    (mkEditor (t_mode t) (newest (contents (t_raw t) ++ [c])) (contents (t_cooked t)) (line_of t)).
Proof.
  intros [Hr Hc Hb Hl Hh]. unfold push_raw. destruct (push_spec c (t_raw t) Hr) as (H1 & H2 & _).
  pose proof (push_count c (t_raw t)) as Hn. destruct (push c (t_raw t)) as [q d]. cbn [fst snd] in *.
  destruct (count_drop_fields d t) as (Ur & Uc & Ub & Ul & Um & Uh & Ui & Ucan & kd & Ud).
  destruct (watermark_step (count_drop d t <| t_raw := q |>)) as [[W1 W2 W3 W4 W5] (Sr & Sc & Sb & Sl & Sm & Si & Scan & Sd)];
    cbn in *; [done|congruence|congruence|by rewrite Ul|by rewrite Uh|].
  split_and!; [by split| |].
  - unfold editor_of, line_of. cbn. by rewrite Sr, Sc, Sb, Sl, Sm, Uc, Ub, Ul, Um, H2.
  - unfold delivered. cbn. rewrite Sr, Sc, Si, Scan, Sd, Uc, Ui, Ucan, Ud.
    destruct (inc64_shift (raw_input_bytes (t_stats t))) as [k ->]. apply (w64_shift _ _ (k - kd)). lia.
Qed.

Lemma push_cooked_step c t : terminal_wf t ->
  input_step t (push_cooked c t)
    (mkEditor (t_mode t) (contents (t_raw t)) (newest (contents (t_cooked t) ++ [c])) (line_of t)) /\
  t_line_buffer (push_cooked c t) = t_line_buffer t /\ t_line_length (push_cooked c t) = t_line_length t.
Proof.
  intros [Hr Hc Hb Hl Hh]. unfold push_cooked, push_cooked_queue. destruct (push_spec c (t_cooked t) Hc) as (H1 & H2 & _).
  pose proof (push_count c (t_cooked t)) as Hn. destruct (push c (t_cooked t)) as [q d]. cbn [fst snd] in *.
  destruct (count_drop_fields d t) as (Ur & Uc & Ub & Ul & Um & Uh & Ui & Ucan & kd & Ud).
  destruct (watermark_step (count_drop d t <| t_cooked := q |>)) as [[W1 W2 W3 W4 W5] (Sr & Sc & Sb & Sl & Sm & Si & Scan & Sd)];
    cbn in *; [congruence|done|congruence|by rewrite Ul|by rewrite Uh|].
  split; [split_and!; [by split| |]|cbn; split; congruence].
  - unfold editor_of, line_of. cbn. by rewrite Sr, Sc, Sb, Sl, Sm, Ur, Ub, Ul, Um, H2.
  - unfold delivered. cbn. rewrite Sr, Sc, Si, Scan, Sd, Ur, Ui, Ucan, Ud.
    destruct (inc64_shift (canonical_input_bytes (t_stats t))) as [k ->]. apply (w64_shift _ _ (k - kd)). lia.
Qed.

Lemma input_step_trans t u v e : terminal_wf u -> delivered u = delivered t -> input_step u v e -> input_step t v e.
Proof. intros _ Hd (Hw & He & Hd'). split_and!; [done..|by rewrite Hd']. Qed.

Lemma newest_contents q : queue_wf q -> newest (contents q) = contents q.
Proof. intros Hq. apply newest_short. pose proof (contents_zlen q Hq). unfold zlen in *. destruct Hq. lia. Qed.

(** Committing the first [n] bytes of the line. *)
Lemma push_line_step t n : terminal_wf t -> 0 <= n <= t_line_length t ->
  let u := for_range 0 n (fun i u => push_cooked (nth (Z.to_nat i) (t_line_buffer t) 0) u) t in
  input_step t u (mkEditor (t_mode t) (contents (t_raw t))
    (newest (contents (t_cooked t) ++ take (Z.to_nat n) (t_line_buffer t))) (line_of t)) /\
  t_line_buffer u = t_line_buffer t /\ t_line_length u = t_line_length t.
Proof.
  intros Hw Hn.
  pose proof (for_range_inv (fun i u => input_step t u (mkEditor (t_mode t) (contents (t_raw t))
    (newest (contents (t_cooked t) ++ take (Z.to_nat i) (t_line_buffer t))) (line_of t)) /\
    t_line_buffer u = t_line_buffer t /\ t_line_length u = t_line_length t) 0 n
    (fun i u => push_cooked (nth (Z.to_nat i) (t_line_buffer t) 0) u) t) as Hinv.
  rewrite Z.max_r in Hinv by lia. apply Hinv; clear Hinv.
  - split; [|done]. split_and!; [done| |done]. unfold editor_of. change (Z.to_nat 0) with 0%nat. rewrite take_0, app_nil_r.
    by rewrite newest_contents by apply Hw.
  - intros i u Hi ((Hwu & He & Hd) & Hb & Hl).
    destruct (push_cooked_step (nth (Z.to_nat i) (t_line_buffer t) 0) u Hwu) as (Hs & Hb' & Hl').
    split; [|by rewrite Hb', Hl'].
    injection He as He1 He2 He3 He4. rewrite He1, He2, He3, He4, newest_app in Hs.
    apply (input_step_trans t u); [done..|]. replace (Z.to_nat (i + 1)) with (S (Z.to_nat i)) by lia.
    destruct Hw as [_ _ Hlen Hll _].
    rewrite (take_S_r _ _ (nth (Z.to_nat i) (t_line_buffer t) 0)); [by rewrite app_assoc|].
    rewrite nth_lookup. destruct (lookup_lt_is_Some_2 (t_line_buffer t) (Z.to_nat i) ltac:(lia)) as [x ->]. done.
Qed.

Lemma line_of_erase t : terminal_wf t -> 0 < t_line_length t ->
  line_of (t <| t_line_length ::= Z.pred |> <| t_line_buffer ::= <[Z.to_nat (t_line_length t - 1) := 0]> |>) =
  take (length (line_of t) - 1) (line_of t).
Proof.
  intros [_ _ Hb Hl _] Hpos. unfold line_of. cbn. rewrite take_insert_ge by lia. rewrite length_take, Hb, take_take. f_equal. lia.
Qed.

Lemma line_of_append c t : terminal_wf t -> t_line_length t + 1 < 128 ->
  line_of (t <| t_line_buffer ::= fun l => <[Z.to_nat (t_line_length t + 1) := 0]> (<[Z.to_nat (t_line_length t) := c]> l) |>
             <| t_line_length ::= Z.succ |>) = line_of t ++ [c].
Proof.
  intros [_ _ Hb Hl _] Hlt. unfold line_of. cbn. rewrite take_insert_ge by lia.
  replace (Z.to_nat (Z.succ (t_line_length t))) with (S (Z.to_nat (t_line_length t))) by lia.
  rewrite (take_S_r _ _ c) by (apply list_lookup_insert_eq; lia). by rewrite take_insert_ge by lia.
Qed.

Lemma line_length t : terminal_wf t -> length (line_of t) = Z.to_nat (t_line_length t).
Proof. intros [_ _ Hb Hl _]. unfold line_of. rewrite length_take. lia. Qed.

Lemma canonical_input_step c t : terminal_wf t -> input_step t (canonical_input c t) (cook c (editor_of t)).
Proof.
  intros Hw. pose proof (line_length t Hw) as Hlen. pose proof Hw as [Hr Hc Hb Hl Hh].
  unfold canonical_input, cook, editor_of at 1. cbv beta iota zeta.
  destruct (Z.eqb_spec c 0) as [-> |H0]; [by split_and!|]. rewrite (decide_False (P := c = 0)) by done.
  repeat case_decide.
  - rewrite (proj2 (Z.eqb_neq c 13)) by lia. replace ((c =? 8) || (c =? 127)) with true by lia.
    destruct (Z.eqb_spec (t_line_length t) 0) as [Hz|Hz]; cbn [negb].
    + split_and!; [done| |done]. unfold editor_of. f_equal. symmetry. apply take_ge. lia.
    + split_and!; [|unfold editor_of; f_equal; apply line_of_erase; [done|lia]|done].
      split; cbn; [done|done|by rewrite length_insert|lia|done].
  - replace (if c =? 13 then 10 else c) with 10 by (destruct (Z.eqb_spec c 13); lia). cbn [Z.eqb Pos.eqb orb].
    destruct (push_line_step t (t_line_length t) Hw ltac:(lia)) as ((Hwu & He & Hd) & Hbu & Hlu).
    set (u := for_range _ _ _ t) in *. destruct (push_cooked_step 10 u Hwu) as ((Hwv & Hev & Hdv) & _).
    generalize dependent (push_cooked 10 u). intros v Hwv Hev Hdv.
    injection He as He1 He2 He3 He4. rewrite He1, He2, He3, He4, newest_app, <-app_assoc in Hev.
    injection Hev as Hv1 Hv2 Hv3 Hv4. destruct Hwv as [V1 V2 V3 V4 V5].
    split_and!; [split; cbn; (done || lia)| |by rewrite <-Hd, <-Hdv].
    unfold editor_of. cbn [t_mode t_raw t_cooked]. unfold line_of at 1. cbn. by rewrite Hv1, Hv2, Hv3.
  - rewrite (proj2 (Z.eqb_neq c 13)) by lia. replace ((c =? 8) || (c =? 127)) with false by lia.
    rewrite (proj2 (Z.eqb_neq c 10)) by lia. replace ((1 <=? c) && (c <? 32)) with true by lia. apply push_cooked_step, Hw.
  - rewrite (proj2 (Z.eqb_neq c 13)) by lia. replace ((c =? 8) || (c =? 127)) with false by lia.
    rewrite (proj2 (Z.eqb_neq c 10)) by lia. replace ((1 <=? c) && (c <? 32)) with false by lia. unfold kLineBufferSize.
    rewrite (proj2 (Z.ltb_lt _ _)) by lia.
    split_and!; [|unfold editor_of; f_equal; apply line_of_append; [done|lia]|done].
    split; cbn; [done|done|by rewrite !length_insert|lia|done].
  - rewrite (proj2 (Z.eqb_neq c 13)) by lia. replace ((c =? 8) || (c =? 127)) with false by lia.
    rewrite (proj2 (Z.eqb_neq c 10)) by lia. replace ((1 <=? c) && (c <? 32)) with false by lia. unfold kLineBufferSize.
    rewrite (proj2 (Z.ltb_ge _ _)) by lia. by split_and!.
Qed.

Lemma input_byte_step c t : terminal_wf t -> input_step t (input_byte c t) (edit_byte (editor_of t) c).
Proof.
  intros Hw. unfold input_byte, edit_byte. cbn [e_mode editor_of]. destruct (t_mode t) eqn:Hm.
  - pose proof (push_raw_step c t Hw) as Hs. by rewrite Hm in Hs.
  - by apply canonical_input_step.
Qed.

Lemma inject_step data : forall t n, terminal_wf t ->
  input_step t (inject data t n).1 (foldl edit_byte (editor_of t) (until_nul data)) /\
  (inject data t n).2 = n + zlen (until_nul data).
Proof.
  induction data as [|c data IH]; intros t n Hw; cbn [inject until_nul]; [split; [by split_and!|unfold zlen; simpl; lia]|].
  destruct (Z.eqb_spec c 0); [split; [by split_and!|unfold zlen; simpl; lia]|].
  destruct (input_byte_step c t Hw) as (Hw' & He & Hd). destruct (IH (input_byte c t) (n + 1) Hw') as [Hs ->].
  cbn [foldl]. rewrite <-He. split; [by apply (input_step_trans t (input_byte c t))|]. unfold zlen. simpl. lia.
Qed.

(** Bytes an operation takes out of the queues: those it delivers, and those a change of
    the mode discards. *)
Definition taken (op : terminal_op) (e : editor) : Z :=
  zlen (edit_op op e).2.2 + match op with OpSetMode _ => zlen (e_raw e) + zlen (e_cooked e) | _ => 0 end.

Lemma same_input_step t u : terminal_wf t -> same_input t u -> input_high_watermark (t_stats u) = input_high_watermark (t_stats t) ->
  input_step t u (editor_of t).
Proof.
  intros [H1 H2 H3 H4 H5] (Hr & Hc & Hb & Hl & Hm & Hri & Hci & Hd) Hh. split_and!.
  - split; congruence.
  - unfold editor_of, line_of. congruence.
  - unfold delivered. congruence.
Qed.

Lemma write_step data : forall t, terminal_wf t ->
  input_step t (foldl (fun t c => t <| t_display ::= fun d => d ++ [ShowChar c] |>) t data) (editor_of t).
Proof.
  induction data as [|c data IH]; intros t Hw; cbn [foldl]; [by split_and!|].
  destruct (same_input_step t (t <| t_display ::= fun d => d ++ [ShowChar c] |>) Hw ltac:(by split_and!) eq_refl) as (Hw' & He & Hd).
  rewrite <-He. by apply (input_step_trans t (t <| t_display ::= fun d => d ++ [ShowChar c] |>)), IH.
Qed.

Lemma delivered_less t u k : raw_input_bytes (t_stats u) = raw_input_bytes (t_stats t) ->
  canonical_input_bytes (t_stats u) = canonical_input_bytes (t_stats t) ->
  dropped_input_bytes (t_stats u) = dropped_input_bytes (t_stats t) ->
  q_count (t_raw u) + q_count (t_cooked u) + k = q_count (t_raw t) + q_count (t_cooked t) ->
  delivered u = w64 (delivered t + k).
Proof.
  intros H1 H2 H3 H4. unfold delivered, w64. rewrite Zplus_mod_idemp_l, H1, H2, H3. f_equal. lia.
Qed.

Lemma pops_count n q : queue_wf q -> q_count (pops n q).2 + zlen (take n (contents q)) = q_count q.
Proof.
  intros Hq. destruct (pops_spec n q Hq) as (_ & Hc & Hw). pose proof (contents_zlen _ Hw) as H1. pose proof (contents_zlen q Hq) as H2.
  rewrite Hc in H1. unfold zlen in *. rewrite length_take. rewrite length_drop in H1. lia.
Qed.

(** An operation is its step of the editor. *)
Definition op_step (op : terminal_op) (t : terminal) (r : terminal * (Z * list Z)) : Prop :=
  terminal_wf r.1 /\ (editor_of r.1, r.2) = edit_op op (editor_of t) /\
  delivered r.1 = w64 (delivered t + taken op (editor_of t)).

Lemma keep_step op t u e n :
  input_step t u e -> edit_op op (editor_of t) = (e, (n, [])) -> (forall mode, op <> OpSetMode mode) -> op_step op t (u, (n, [])).
Proof.
  intros (Hw & He & Hd) Hop Hne. split_and!; [done|cbn; by rewrite He|]. cbn. unfold taken. rewrite Hop, Hd. cbn.
  replace (match op with OpSetMode _ => _ | _ => 0 end) with 0 by (destruct op; naive_solver).
  change (zlen []) with 0. rewrite Z.add_0_r. unfold delivered, w64. by rewrite Zmod_mod.
Qed.

Lemma idle_step t : terminal_wf t -> input_step t t (editor_of t).
Proof. intros. by split_and!. Qed.

Lemma op_write data t : terminal_wf t -> op_step (OpWrite data) t (run_op (OpWrite data) t).
Proof.
  intros Hw. unfold run_op, write. destruct (decide (sized (zlen data))) as [Hs|Hs]; pose proof Hs as Hs'; unfold sized in Hs'.
  - replace ((zlen data =? 0) || (4096 <? zlen data)) with false by lia. set (u := t <| t_stats ::= _ |>).
    destruct (same_input_step t u Hw ltac:(by split_and!) eq_refl) as (Hwu & Heu & Hdu).
    apply (keep_step _ _ _ (editor_of t)); [|cbn; by rewrite decide_True|done].
    rewrite <-Heu. by apply (input_step_trans t u), write_step.
  - replace ((zlen data =? 0) || (4096 <? zlen data)) with true by (unfold zlen in *; lia).
    apply (keep_step _ _ _ (editor_of t)); [by apply idle_step|cbn; by rewrite decide_False|done].
Qed.

Lemma op_push c t : terminal_wf t -> op_step (OpPush c) t (run_op (OpPush c) t).
Proof.
  intros Hw. unfold run_op, push_input. destruct (Z.eqb_spec c 0) as [-> |Hc].
  - apply (keep_step _ _ _ (editor_of t)); [by apply idle_step|done|done].
  - eapply keep_step; [by apply input_byte_step|cbn; by rewrite decide_False|done].
Qed.

Lemma op_inject data t : terminal_wf t -> op_step (OpInject data) t (run_op (OpInject data) t).
Proof.
  intros Hw. unfold run_op, inject_input. destruct (decide (sized (zlen data))) as [Hs|Hs]; pose proof Hs as Hs'; unfold sized in Hs'.
  - replace ((zlen data =? 0) || (4096 <? zlen data)) with false by lia.
    destruct (inject_step data t 0 Hw) as [Hi Hn]. destruct (inject data t 0) as [u n]. cbn [fst snd] in Hi, Hn. subst n.
    eapply keep_step; [done|cbn; by rewrite decide_True|done].
  - replace ((zlen data =? 0) || (4096 <? zlen data)) with true by (unfold zlen in *; lia).
    apply (keep_step _ _ _ (editor_of t)); [by apply idle_step|cbn; by rewrite decide_False|done].
Qed.

(** Reading from one of the queues. *)
Lemma pops_raw_step n t : terminal_wf t ->
  let '(bytes, q) := pops n (t_raw t) in
  let u := t <| t_raw := q |> in
  bytes = take n (contents (t_raw t)) /\ terminal_wf u /\
  editor_of u = mkEditor (t_mode t) (drop n (contents (t_raw t))) (contents (t_cooked t)) (line_of t) /\
  delivered u = w64 (delivered t + zlen bytes).
Proof.
  intros [Hr Hc Hb Hl Hh]. destruct (pops_spec n (t_raw t) Hr) as (P1 & P2 & P3). pose proof (pops_count n (t_raw t) Hr) as P4.
  destruct (pops n (t_raw t)) as [bytes q]. cbn [fst snd] in *. subst bytes.
  split_and!; [done|by split|unfold editor_of; cbn; by rewrite P2|apply delivered_less; cbn; [done..|lia]].
Qed.

Lemma pops_cooked_step n t : terminal_wf t ->
  let '(bytes, q) := pops n (t_cooked t) in
  let u := t <| t_cooked := q |> in
  bytes = take n (contents (t_cooked t)) /\ terminal_wf u /\
  editor_of u = mkEditor (t_mode t) (contents (t_raw t)) (drop n (contents (t_cooked t))) (line_of t) /\
  delivered u = w64 (delivered t + zlen bytes).
Proof.
  intros [Hr Hc Hb Hl Hh]. destruct (pops_spec n (t_cooked t) Hc) as (P1 & P2 & P3). pose proof (pops_count n (t_cooked t) Hc) as P4.
  destruct (pops n (t_cooked t)) as [bytes q]. cbn [fst snd] in *. subst bytes.
  split_and!; [done|by split|unfold editor_of; cbn; by rewrite P2|apply delivered_less; cbn; [done..|lia]].
Qed.

Lemma op_read n t : 0 <= n -> terminal_wf t -> op_step (OpRead n) t (run_op (OpRead n) t).
Proof.
  intros Hn Hw. unfold run_op, read_input. destruct (decide (sized n)) as [Hs|Hs]; pose proof Hs as Hs'; unfold sized in Hs'.
  - replace ((n =? 0) || (4096 <? n)) with false by lia. destruct (t_mode t) eqn:Hm.
    + pose proof (pops_raw_step (Z.to_nat n) t Hw) as Hp. destruct (pops (Z.to_nat n) (t_raw t)) as [bytes q].
      destruct Hp as (-> & P1 & P2 & P3). unfold op_step, taken. cbn [edit_op editor_of e_mode e_raw e_cooked e_line fst snd].
      rewrite Hm, decide_True by done. cbn [fst snd]. split_and!; [done|by rewrite P2, Hm|by rewrite Z.add_0_r].
    + pose proof (pops_cooked_step (Z.to_nat n) t Hw) as Hp. destruct (pops (Z.to_nat n) (t_cooked t)) as [bytes q].
      destruct Hp as (-> & P1 & P2 & P3). unfold op_step, taken. cbn [edit_op editor_of e_mode e_raw e_cooked e_line fst snd].
      rewrite Hm, decide_True by done. cbn [fst snd]. split_and!; [done|by rewrite P2, Hm|by rewrite Z.add_0_r].
  - replace ((n =? 0) || (4096 <? n)) with true by lia.
    apply (keep_step _ _ _ (editor_of t)); [by apply idle_step|cbn; by rewrite decide_False|done].
Qed.

Lemma op_read_key n t : 0 <= n -> terminal_wf t -> op_step (OpReadKey n) t (run_op (OpReadKey n) t).
Proof.
  intros Hn Hw. unfold run_op, read_key. destruct (Z.eqb_spec n 0) as [-> |Hne].
  - apply (keep_step _ _ _ (editor_of t)); [by apply idle_step|done|done].
  - pose proof (pops_raw_step (Z.to_nat n) t Hw) as Hp. destruct (pops (Z.to_nat n) (t_raw t)) as [bytes q].
    destruct Hp as (-> & P1 & P2 & P3). unfold op_step, taken. cbn [edit_op editor_of e_mode e_raw e_cooked e_line fst snd].
    split_and!; [done|by rewrite P2|by rewrite Z.add_0_r].
Qed.

Lemma op_set_mode mode t : terminal_wf t -> op_step (OpSetMode mode) t (run_op (OpSetMode mode) t).
Proof.
  intros Hw. pose proof (contents_zlen _ (tw_raw _ Hw)) as Hr. pose proof (contents_zlen _ (tw_cooked _ Hw)) as Hc.
  unfold run_op, set_input_mode, op_step, taken. cbn [edit_op editor_of e_raw e_cooked fst snd]. split_and!.
  - split; cbn; [by split|by split|done|lia|apply Hw].
  - unfold editor_of, line_of. cbn. by destruct (Z.eqb_spec mode 1); case_decide.
  - rewrite Hr, Hc. change (zlen []) with 0. apply delivered_less; [done..|]. cbn. lia.
Qed.

(** The sizes of reads are unsigned. *)
Definition op_ok (op : terminal_op) : Prop :=
  match op with OpRead n | OpReadKey n => 0 <= n | _ => True end.

Lemma run_op_step op t : op_ok op -> terminal_wf t -> op_step op t (run_op op t).
Proof.
  intros Hok Hw. destruct op; [by apply op_write|by apply op_push|by apply op_inject|by apply op_read|by apply op_read_key
    |by apply op_set_mode|..]; (apply (keep_step _ _ _ (editor_of t)); [apply same_input_step; [done|by split_and!|done]|done|done]).
Qed.

(** ** Sequences of operations *)

Fixpoint run_ops (ops : list terminal_op) (t : terminal) : terminal * list (Z * list Z) :=
  match ops with
  | [] => (t, [])
  | op :: ops => let '(t, a) := run_op op t in let '(t, answers) := run_ops ops t in (t, a :: answers)
  end.

Fixpoint edit_ops (ops : list terminal_op) (e : editor) : editor * list (Z * list Z) :=
  match ops with
  | [] => (e, [])
  | op :: ops => let '(e, a) := edit_op op e in let '(e, answers) := edit_ops ops e in (e, a :: answers)
  end.

(** What a sequence takes out of the queues. *)
Fixpoint taken_ops (ops : list terminal_op) (e : editor) : Z :=
  match ops with [] => 0 | op :: ops => taken op e + taken_ops ops (edit_op op e).1 end.

Lemma run_ops_step ops : forall t, Forall op_ok ops -> terminal_wf t ->
  terminal_wf (run_ops ops t).1 /\ (editor_of (run_ops ops t).1, (run_ops ops t).2) = edit_ops ops (editor_of t) /\
  delivered (run_ops ops t).1 = w64 (delivered t + taken_ops ops (editor_of t)).
Proof.
  induction ops as [|op ops IH]; intros t Hok Hw; cbn [run_ops edit_ops taken_ops].
  { split_and!; [done..|]. cbn. rewrite Z.add_0_r. unfold delivered, w64. by rewrite Zmod_mod. }
  apply Forall_cons in Hok as [Hop Hok]. destruct (run_op_step op t Hop Hw) as (Hw' & He & Hd).
  destruct (run_op op t) as [t' a]. cbn [fst snd] in *. destruct (IH t' Hok Hw') as (Hw2 & He2 & Hd2).
  rewrite <-He. cbn [fst]. destruct (run_ops ops t') as [t2 answers]. cbn [fst snd] in *. rewrite <-He2. split_and!; [done..|].
  rewrite Hd2, Hd. unfold w64. rewrite Zplus_mod_idemp_l. f_equal. lia.
Qed.

Lemma boot_wf : terminal_wf boot_terminal.
Proof. split; cbn; [by split|by split|done|lia|lia]. Qed.

(** C21. From boot on, the terminal answers every sequence of operations as the line editor
    over unbounded lists does that keeps the newest 256 bytes of each queue: keys edit the
    line, Enter commits it, and reads deliver the committed bytes in order. *)
Theorem terminal_refines_line_editor (ops : list terminal_op) :
  Forall op_ok ops ->
  (run_ops ops boot_terminal).2 = (edit_ops ops (mkEditor Raw [] [] [])).2 /\
  editor_of (run_ops ops boot_terminal).1 = (edit_ops ops (mkEditor Raw [] [] [])).1.
Proof.
  intros Hok. destruct (run_ops_step ops boot_terminal Hok boot_wf) as (_ & He & _).
  change (editor_of boot_terminal) with (mkEditor Raw [] [] []) in He. by rewrite <-He.
Qed.

(** Typing a line with two corrections, and reading it in pieces. *)
Lemma terminal_refines_line_editor_witness :
  let ops := [OpSetMode 1; OpInject (txt "lz" ++ [8] ++ txt "s /bim" ++ [127] ++ txt "n" ++ [13]); OpRead 4; OpRead 100] in
  Forall op_ok ops /\ (run_ops ops boot_terminal).2 = [(0, []); (12, []); (4, txt "ls /"); (4, txt "bin" ++ [10])].
Proof.
  intros ops. assert (Hok : Forall op_ok ops) by (repeat constructor; cbn; lia). split; [done|].
  transitivity (edit_ops ops (mkEditor Raw [] [] [])).2; [|vm_compute; reflexivity].
  exact (proj1 (terminal_refines_line_editor ops Hok)).
Defined.

(** From boot on, every index of the terminal stays in its array: the heads and tails
    of the two rings below 256, their counts at most 256, and the end of the line, where
    the terminator is written, below 128; the high-water mark never exceeds the rings. *)
Theorem terminal_indices_in_bounds (ops : list terminal_op) : Forall op_ok ops ->
  let t := (run_ops ops boot_terminal).1 in
  (forall q, q = t_raw t \/ q = t_cooked t ->
     length (q_buffer q) = 256%nat /\ 0 <= q_head q < 256 /\ 0 <= q_tail q < 256 /\ 0 <= q_count q <= 256) /\
  length (t_line_buffer t) = 128%nat /\ 0 <= t_line_length t < 128 /\ 0 <= input_high_watermark (t_stats t) <= 256.
Proof.
  intros Hok. destruct (run_ops_step ops boot_terminal Hok boot_wf) as ([Hr Hc Hb Hl Hh] & _).
  split_and!; try done; try lia. intros q Hq. assert (Hw : queue_wf q) by (destruct Hq as [-> | ->]; done).
  destruct Hw as [Hw1 Hw2 Hw3 Hw4]. split_and!; try done; try lia; rewrite Hw2; apply Z.mod_pos_bound; lia.
Qed.

Lemma terminal_indices_in_bounds_witness :
  0 <= q_count (t_raw (run_ops [OpInject (replicate 300 97)] boot_terminal).1) <= 256.
Proof.
  assert (Hok : Forall op_ok [OpInject (replicate 300 97)]) by (repeat constructor).
  destruct (terminal_indices_in_bounds [OpInject (replicate 300 97)] Hok) as [H _].
  apply (H _ (or_introl eq_refl)).
Defined.

(** No input is lost silently: the bytes pushed into the queues are, modulo 2^64, those
    still queued, those counted as dropped, those delivered by the reads, and those that a
    change of the mode discards. *)
Theorem terminal_accounts_for_input (ops : list terminal_op) : Forall op_ok ops ->
  let t := (run_ops ops boot_terminal).1 in
  (raw_input_bytes (t_stats t) + canonical_input_bytes (t_stats t)) mod 2 ^ 64 =
  (q_count (t_raw t) + q_count (t_cooked t) + dropped_input_bytes (t_stats t) + taken_ops ops (mkEditor Raw [] [] [])) mod 2 ^ 64.
Proof.
  intros Hok. destruct (run_ops_step ops boot_terminal Hok boot_wf) as (_ & _ & Hd).
  change (editor_of boot_terminal) with (mkEditor Raw [] [] []) in Hd. set (t := (run_ops ops boot_terminal).1) in *.
  change (delivered boot_terminal) with 0 in Hd. unfold delivered, w64 in Hd. cbn zeta. change (2 ^ 64) with two64.
  rewrite Z.add_0_l in Hd. rewrite <-(Zplus_mod_idemp_r (taken_ops _ _)), <-Hd, Zplus_mod_idemp_r. f_equal. lia.
Qed.

Lemma terminal_accounts_for_input_witness :
  let ops := [OpInject (replicate 300 97); OpRead 10] in
  let t := (run_ops ops boot_terminal).1 in
  dropped_input_bytes (t_stats t) = 44 /\
  (raw_input_bytes (t_stats t) + canonical_input_bytes (t_stats t)) mod 2 ^ 64 =
  (q_count (t_raw t) + q_count (t_cooked t) + dropped_input_bytes (t_stats t) + taken_ops ops (mkEditor Raw [] [] [])) mod 2 ^ 64.
Proof.
  intros ops t. split; [vm_compute; reflexivity|]. apply (terminal_accounts_for_input ops). repeat constructor; cbn; lia.
Defined.

(** ** Typing on the keyboard *)

(** The keys of a US keyboard: scan code, character, and character with Shift. *)
Definition us_row (first : Z) (plain shifted : list Z) : list (Z * (Z * Z)) :=
  zip (seqZ first (zlen plain)) (zip plain shifted).
Definition us_layout : list (Z * (Z * Z)) :=
  us_row 2 (txt "1234567890-=") (txt "!@#$%^&*()_+") ++ us_row 16 (txt "qwertyuiop[]") (txt "QWERTYUIOP{}") ++
  us_row 30 (txt "asdfghjkl;'`") (txt "ASDFGHJKL:" ++ [34] ++ txt "~") ++
  us_row 43 (txt "\zxcvbnm,./") (txt "|ZXCVBNM<>?") ++ us_row 57 (txt " ") (txt " ").

(** Pressing and releasing the key of a character, with the left Shift key if needed. *)
Definition strokes (c : Z) : list Z :=
  match List.find (fun key => key.2.1 =? c) us_layout with
  | Some (s, _) => [s; s + 128]
  | None => match List.find (fun key => key.2.2 =? c) us_layout with
            | Some (s, _) => [42; s; s + 128; 42 + 128]
            | None => []
            end
  end.
Definition enter_strokes : list Z := [28; 28 + 128].

Definition released : keyboard := mkKeyboard false false false.
Definition printable (c : Z) : Prop := 32 <= c <= 126.

(** The interrupts of a list of scan codes. *)
Definition interrupts (codes : list Z) (s : keyboard * terminal) : keyboard * terminal :=
  foldl (fun s code => handle_irq 1 code s) s codes.

(** The characters that scan codes stand for. *)
Fixpoint key_chars (codes : list Z) (k : keyboard) : keyboard * list Z :=
  match codes with
  | [] => (k, [])
  | code :: codes => let '(k, c) := translate_key code k in let '(k, cs) := key_chars codes k in (k, c :: cs)
  end.

Lemma interrupts_chars codes : forall k t,
  interrupts codes (k, t) = ((key_chars codes k).1, foldl (fun t c => push_input c t) t (filter (fun c => c <> 0) (key_chars codes k).2)).
Proof.
  induction codes as [|code codes IH]; intros k t; [done|]. unfold interrupts in *. cbn [foldl key_chars].
  unfold handle_irq at 2. change (Z.land 1 1 =? 0) with false. cbn [fst snd]. destruct (translate_key code k) as [k' c].
  rewrite IH. destruct (key_chars codes k') as [k'' cs]. cbn [fst snd]. rewrite filter_cons.
  case_decide as Hc; [done|]. by replace c with 0 by lia.
Qed.

Lemma strokes_chars c : printable c ->
  (key_chars (strokes c) released).1 = released /\ filter (fun c => c <> 0) (key_chars (strokes c) released).2 = [c].
Proof.
  intros Hc. assert (Hall : forallb (fun c => bool_decide (filter (fun c => c <> 0) (key_chars (strokes c) released).2 = [c]) &&
      match (key_chars (strokes c) released).1 with mkKeyboard false false false => true | _ => false end) (seqZ 32 95) = true)
    by (vm_compute; reflexivity).
  rewrite forallb_forall in Hall. specialize (Hall c). rewrite <-list_elem_of_In, elem_of_seqZ in Hall.
  unfold printable in Hc. specialize (Hall ltac:(lia)). apply andb_true_iff in Hall as [H1 H2]. apply bool_decide_eq_true in H1.
  split; [|done]. by destruct (key_chars (strokes c) released).1 as [[] [] []].
Qed.

Lemma key_chars_app a b k :
  key_chars (a ++ b) k = ((key_chars b (key_chars a k).1).1, (key_chars a k).2 ++ (key_chars b (key_chars a k).1).2).
Proof.
  revert k. induction a as [|code a IH]; intros k; cbn [app key_chars fst snd]; [by destruct (key_chars b k)|].
  destruct (translate_key code k) as [k' c]. rewrite IH. destruct (key_chars a k') as [k'' cs]. cbn [fst snd].
  by destruct (key_chars b k'') as [k3 ds].
Qed.

Lemma typed_chars text : Forall printable text ->
  let codes := concat (strokes <$> text) ++ enter_strokes in
  (key_chars codes released).1 = released /\ filter (fun c => c <> 0) (key_chars codes released).2 = text ++ [10].
Proof.
  intros Ht. cbv zeta. induction Ht as [|c text Hc _ IH]; [done|]. destruct (strokes_chars c Hc) as [S1 S2].
  cbn [fmap list_fmap concat]. rewrite <-app_assoc, key_chars_app, S1. cbn [fst snd].
  destruct IH as [I1 I2]. split; [done|]. by rewrite filter_app, S2, I2.
Qed.

Lemma push_input_step c t : terminal_wf t -> c <> 0 -> input_step t (push_input c t) (edit_byte (editor_of t) c).
Proof. intros Hw Hc. unfold push_input. rewrite (proj2 (Z.eqb_neq c 0)) by done. by apply input_byte_step. Qed.

Lemma push_inputs_step cs : forall t, terminal_wf t -> Forall (fun c => c <> 0) cs ->
  let u := foldl (fun t c => push_input c t) t cs in terminal_wf u /\ editor_of u = foldl edit_byte (editor_of t) cs.
Proof.
  induction cs as [|c cs IH]; intros t Hw Hc; [done|]. apply Forall_cons in Hc as [Hc Hcs]. cbn [foldl].
  destruct (push_input_step c t Hw Hc) as (Hw' & He & _). rewrite <-He. by apply IH.
Qed.

(** A line of printable characters in the editor. *)
Lemma edit_line raw text : forall line, Forall printable text -> (length line + length text <= 127)%nat ->
  foldl edit_byte (mkEditor Canonical raw [] line) (text ++ [10]) = mkEditor Canonical raw (newest (line ++ text ++ [10])) [].
Proof.
  induction text as [|c text IH]; intros line Ht Hl; [done|]. apply Forall_cons in Ht as [Hc Ht]. unfold printable in Hc.
  cbn [app foldl length] in *. unfold edit_byte at 2. cbn [e_mode cook].
  rewrite decide_False, decide_False, decide_False, decide_False, decide_True by lia.
  rewrite IH by (done || (rewrite length_app; simpl; lia)). by rewrite <-app_assoc.
Qed.

(** A line typed on the keyboard reaches the reader: when no key is down and nothing is
    pending, the scan codes of up to 127 printable characters, with Shift where a US
    keyboard needs it, and of Enter make the next read in canonical mode return exactly
    these characters and a newline, and leave no key down. *)
Theorem typed_line_is_read (text : list Z) (t : terminal) :
  Forall printable text -> (length text <= 127)%nat -> terminal_wf t ->
  e_mode (editor_of t) = Canonical -> e_cooked (editor_of t) = [] -> e_line (editor_of t) = [] ->
  let '(k, u) := interrupts (concat (strokes <$> text) ++ enter_strokes) (released, t) in
  k = released /\ (read_input 4096 u).2 = text ++ [10].
Proof.
  intros Ht Hlen Hw Hm Hc Hl. rewrite interrupts_chars. destruct (typed_chars text Ht) as [-> ->]. split; [done|].
  assert (Hne : Forall (fun c => c <> 0) (text ++ [10])).
  { apply Forall_app_2; [eapply Forall_impl; [exact Ht|unfold printable; lia]|by repeat constructor]. }
  destruct (push_inputs_step (text ++ [10]) t Hw Hne) as [Hw' He]. set (u := foldl _ t _) in *.
  destruct (op_read 4096 u ltac:(lia) Hw') as (_ & Hr & _).
  assert (Het : editor_of t = mkEditor Canonical (e_raw (editor_of t)) [] []) by (destruct (editor_of t); cbn in *; congruence).
  rewrite He, Het, edit_line in Hr by (done || lia). cbn [app e_raw] in Hr.
  unfold run_op in Hr. destruct (read_input 4096 u) as [v bytes]. cbn [fst snd] in *.
  pose proof (f_equal (fun x => x.2.2) Hr) as Hb. cbn in Hb. rewrite Hb, newest_short by (rewrite length_app; simpl; lia).
  apply take_ge. rewrite length_app. simpl. lia.
Qed.

Lemma typed_line_is_read_witness :
  (read_input 4096 (interrupts (concat (strokes <$> txt "echo Hi!") ++ enter_strokes) (released, set_input_mode 1 boot_terminal)).2).2 =
  txt "echo Hi!" ++ [10].
Proof.
  assert (Ht : Forall printable (txt "echo Hi!")) by (vm_compute; repeat constructor; done).
  assert (Hw : terminal_wf (set_input_mode 1 boot_terminal)) by (split; cbn; [by split|by split|done|lia|lia]).
  pose proof (typed_line_is_read (txt "echo Hi!") (set_input_mode 1 boot_terminal) Ht ltac:(by apply Nat.leb_le) Hw eq_refl eq_refl eq_refl) as H.
  destruct (interrupts _ _) as [k u]. exact (proj2 H).
Defined.
