(* ===== verification/Syscall.v ===== *)
(** * System calls (kernel/src/syscall/syscall.cpp, kernel/src/interrupts/exceptions.cpp)

    [dispatch] and the part of the interrupt handler that calls it, over the userspace
    manager, the file system inside it, the terminal and the kernel scheduler.  The user
    memory a call reads and writes is reached through the translation of the loaded
    address space, one byte at a time; an access that it does not allow is a page fault
    in the kernel, and the call then has no result ([None]).  What the modelled parts of
    the kernel do not provide (the clock, the inventory of devices, the text of the log,
    the creation of an address space for a program) comes from two interfaces. *)

From stdpp Require Import strings.
From Stdlib Require Import Ascii ZifyBool.
From S2P Require Import Prelude Path UserLib SpawnArgs Scheduler Terminal Vfs Userspace UserFiles UserEnv UserSwitch.
#[local] Open Scope Z_scope.

(** ** Calls and results *)

Inductive Number :=
  | DebugLog | GetTicks | Yield | SleepTicks | GetThreadId | GetProcessCount | GetThreadCount
  | GetRunnableProcessCount | GetExitedProcessCount | GetUserThreadCount | GetRunnableUserThreadCount
  | GetLiveProcessCount | ReapProcess | VfsStat | VfsRead | VfsOpen | VfsReadHandle | VfsClose | Open | Read | Close
  | GetDeviceCount | GetStorageDeviceCount | GetNetworkDeviceCount | GetDisplayDeviceCount | GetDeviceInfo
  | GetDeviceInfoByClass | GetFramebufferInfo | GetMemoryStats | GetProcessInfo | GetUserThreadInfo
  | GetSchedulerStats | GetLaunchContext | GetVfsNodeCount | GetVfsNodeInfo | GetCurrentProcessId
  | GetCurrentDirectory | SetCurrentDirectory | GetArgumentCount | GetArgument | GetEnvironmentCount
  | GetEnvironment | Seek | ReadKey | Write | Spawn | Exit | Kill | Wait | GetUserSchedulerInfo
  | SelectNextUserThread | GetSystemInfo | ReadKernelLog | CreateFile | WriteFile | DeleteFile
  | CreateDirectory | DeleteDirectory | RedirectProcessFd | TerminalControl | RedirectProcessFdAppend
  | CreatePipe | AttachPipeFd | ClosePipe | SetEnvironment | UnsetEnvironment | VfsStatInfo | GetDateTime
  | GetCurrentUserContext | SetUserPreemption | GetCpuCount | GetCpuInfo | Dup | Dup2 | GetFileDescriptorInfo
  | WaitAny | GetCurrentIds | SetProcessGroup | KillProcessGroup | StartProcess | SetForegroundProcessGroup
  | GetForegroundProcessGroup | StopProcessGroup | ContinueProcessGroup | GetBlockDeviceInfo | ReadBlockSector
  | GetMountCount | GetMountInfo | GetPipeCount | GetPipeInfo | Link | Truncate | Rename | ReadDirectory
  | ReadLink | GetLimitsInfo | GetAbiInfo | GetFeatureInfo.

(** The enumerators in the order of their values: 1 to 51 and 53 to 99. *)
Definition numbers_to_51 : list Number :=
  [DebugLog; GetTicks; Yield; SleepTicks; GetThreadId; GetProcessCount; GetThreadCount; GetRunnableProcessCount;
   GetExitedProcessCount; GetUserThreadCount; GetRunnableUserThreadCount; GetLiveProcessCount; ReapProcess; VfsStat;
   VfsRead; VfsOpen; VfsReadHandle; VfsClose; Open; Read; Close; GetDeviceCount; GetStorageDeviceCount;
   GetNetworkDeviceCount; GetDisplayDeviceCount; GetDeviceInfo; GetDeviceInfoByClass; GetFramebufferInfo;
   GetMemoryStats; GetProcessInfo; GetUserThreadInfo; GetSchedulerStats; GetLaunchContext; GetVfsNodeCount;
   GetVfsNodeInfo; GetCurrentProcessId; GetCurrentDirectory; SetCurrentDirectory; GetArgumentCount; GetArgument;
   GetEnvironmentCount; GetEnvironment; Seek; ReadKey; Write; Spawn; Exit; Kill; Wait; GetUserSchedulerInfo;
   SelectNextUserThread].
Definition numbers_from_53 : list Number :=
  [GetSystemInfo; ReadKernelLog; CreateFile; WriteFile; DeleteFile; CreateDirectory; DeleteDirectory;
   RedirectProcessFd; TerminalControl; RedirectProcessFdAppend; CreatePipe; AttachPipeFd; ClosePipe; SetEnvironment;
   UnsetEnvironment; VfsStatInfo; GetDateTime; GetCurrentUserContext; SetUserPreemption; GetCpuCount; GetCpuInfo; Dup;
   Dup2; GetFileDescriptorInfo; WaitAny; GetCurrentIds; SetProcessGroup; KillProcessGroup; StartProcess;
   SetForegroundProcessGroup; GetForegroundProcessGroup; StopProcessGroup; ContinueProcessGroup; GetBlockDeviceInfo;
   ReadBlockSector; GetMountCount; GetMountInfo; GetPipeCount; GetPipeInfo; Link; Truncate; Rename; ReadDirectory;
   ReadLink; GetLimitsInfo; GetAbiInfo; GetFeatureInfo].

(** [static_cast<Number>(number)], as far as the [switch] has a case for it. *)
Definition number_of (n : Z) : option Number :=
  if n <=? 0 then None
  else if n <=? 51 then numbers_to_51 !! Z.to_nat (n - 1)
  else if n <=? 52 then None
  else numbers_from_53 !! Z.to_nat (n - 53).

Abbreviation kErrorNone := 0.
Abbreviation kErrorInvalidSyscall := 1.
Abbreviation kErrorInvalidPointer := 2.
Abbreviation kErrorNotFound := 3.
Abbreviation kErrorWouldBlock := 4.

(** ** The rest of the kernel *)

(** [create_process_from_elf]: the slot of the new process. *)
Class Loader (L : Type) := {
  load_process : cstr -> Z -> Z -> L -> UserspaceManager -> L * UserspaceManager * option nat
}.

(** What the calls take from parts of the kernel that are not modelled, whose state is
    [R].  [info] gives the bytes of the structure that a call fills, [value] the number
    that a call returns; [stale] is what an array of characters holds after the
    terminator of its text. *)
Class Services (R : Type) := {
  ticks : R -> Z;
  log : list Z -> R -> R;
  datetime : R -> R * (bool * list Z);
  value : Number -> R -> Z;
  info : Number -> Z -> Z -> UserspaceManager -> Scheduler -> R -> option (list Z);
  read_log : Z -> Z -> R -> list Z;
  read_sector : Z -> R -> R * option (list Z);
  current_cpu_id : R -> Z;
  online_count : R -> Z;
  stat : cstr -> Vfs -> option (list Z);
  directory_entry : cstr -> Z -> Vfs -> option (list Z);
  stale : R -> cstr -> list Z
}.

(** The terminal behind the devices of the file system is that of [Terminal.v]. *)
#[export] Instance system_tty : Vfs.Terminal := {|
  tty := terminal;
  terminal_read_input n t := let '(t, bytes) := Terminal.read_input n t in (bytes, t);
  terminal_write data t := let '(t, n) := Terminal.write data t in (n, t)
|}.

Record System (L R : Type) := mkSystem {
  s_manager : UserspaceManager;
  s_terminal : terminal;
  s_sched : Scheduler;
  s_loader : L;
  s_rest : R
}.
Arguments mkSystem {L R} _ _ _ _ _.
Arguments s_manager {L R} _.
Arguments s_terminal {L R} _.
Arguments s_sched {L R} _.
Arguments s_loader {L R} _.
Arguments s_rest {L R} _.
#[export] Instance System_eta L R : Eta (System L R) := fun r =>
  mkSystem (s_manager r) (s_terminal r) (s_sched r) (s_loader r) (s_rest r).

(** Code that runs in the kernel: [None] is a page fault. *)
Definition sys (L R A : Type) : Type := System L R -> option (A * System L R).
#[export] Instance sys_ret L R : MRet (sys L R) := fun A a s => Some (a, s).
#[export] Instance sys_bind L R : MBind (sys L R) := fun A B f p s =>
  match p s with Some (a, s') => f a s' | None => None end.

(** Text and bytes. *)
Definition text_of (bytes : list Z) : cstr := (fun c => ascii_of_nat (Z.to_nat c)) <$> bytes.
Definition bytes_of (text : cstr) : list Z := (fun c => Z.of_nat (nat_of_ascii c)) <$> text.

(** The fields of a packed structure, each with its size. *)
Definition pack (fields : list (nat * Z)) : list Z := concat ((fun f => le_bytes f.1 f.2) <$> fields).

Section Dispatch.
Context `{Machine} `{Kernel} {L R : Type} `{Loader L} `{Services R}.
(** The loaded address space, and the addresses it lets the kernel store to. *)
Context (root : Z) (may_store : Z -> bool).

Local Abbreviation sys := (sys L R).
Local Abbreviation System := (System L R).

(** *** What the code does to each part of the kernel *)

Definition get {A} (f : System -> A) : sys A := fun s => Some (f s, s).
Definition manager {A} (op : UserspaceManager -> UserspaceManager * A) : sys A := fun s =>
  let '(m, a) := op (s_manager s) in Some (a, s <| s_manager := m |>).
Definition with_vfs {A} (op : Vfs -> Vfs * A) : sys A :=
  manager (fun m => let '(v, a) := op (k_vfs m) in (m <| k_vfs := v |>, a)).
Definition with_tty {A} (op : UserspaceManager -> terminal -> UserspaceManager * terminal * A) : sys A := fun s =>
  let '(m, t, a) := op (s_manager s) (s_terminal s) in Some (a, s <| s_manager := m |> <| s_terminal := t |>).
Definition in_terminal {A} (op : terminal -> terminal * A) : sys A := fun s =>
  let '(t, a) := op (s_terminal s) in Some (a, s <| s_terminal := t |>).
Definition in_rest {A} (op : R -> R * A) : sys A := fun s =>
  let '(r, a) := op (s_rest s) in Some (a, s <| s_rest := r |>).

(** [*p] for a byte of memory. *)
Definition load (p : Z) : sys Z := fun s =>
  let phys := translate root (w64 p) in
  if phys =? 0 then None else Some (w8 (sa_get (k_memory (s_manager s)) phys), s).
Definition store (p c : Z) : sys unit := fun s =>
  let phys := translate root (w64 p) in
  if (phys =? 0) || negb (may_store (w64 p)) then None
  else Some (tt, s <| s_manager ::= fun m => m <| k_memory ::= fun d => sa_set d phys c |> |>).

Fixpoint load_bytes (n : nat) (p : Z) : sys (list Z) :=
  match n with
  | O => mret []
  | S n' => c ← load p; rest ← load_bytes n' (p + 1); mret (c :: rest)
  end.
Fixpoint store_bytes (p : Z) (bytes : list Z) : sys unit :=
  match bytes with
  | [] => mret tt
  | c :: bytes' => store p c;; store_bytes (p + 1) bytes'
  end.

(** *** The checks on user pointers *)

(** [for (i = 0; i < max_len; ++i) if (text[i] == 0) return true; return false] *)
Fixpoint terminated (n : nat) (text : Z) : sys bool :=
  match n with
  | O => mret false
  | S n' => c ← load text; if c =? 0 then mret true else terminated n' (text + 1)
  end.
Definition c_string_readable (text max_len : Z) : sys bool :=
  if (text =? 0) || (max_len =? 0) || (4096 <? max_len) then mret false else terminated (Z.to_nat max_len) text.

Definition user_buffer_readable (data length : Z) : sys bool :=
  if (data =? 0) || (length =? 0) || (4096 <? length) then mret false
  else load_bytes (Z.to_nat length) data;; mret true.

Definition user_buffer_writable (data length : Z) : sys bool :=
  if (data =? 0) || (length =? 0) || (4096 <? length) then mret false
  else c ← load data; store data c;; mret true.

(** The text at an address, at most [n] characters long. *)
Fixpoint c_string (n : nat) (text : Z) : sys (list Z) :=
  match n with
  | O => mret []
  | S n' => c ← load text; if c =? 0 then mret [] else rest ← c_string n' (text + 1); mret (c :: rest)
  end.

(** The path argument of a call, checked and read; [None] when the check fails. *)
Definition path_argument (text max_len : Z) : sys (option cstr) :=
  ok ← c_string_readable text max_len;
  if ok : bool then bytes ← c_string (Z.to_nat max_len) text; mret (Some (text_of bytes)) else mret None.

(** The copied command line of [Spawn], as an array of 128 characters. *)
Definition copy_spawn_command (text length : Z) : sys (option (list Z)) :=
  ok ← c_string_readable text length;
  if negb ok || (kMaxSpawnCommandLine <? length) then mret None
  else bytes ← c_string (Z.to_nat length) text; mret (Some (bytes ++ replicate (128 - List.length bytes) 0)).

Definition copy_text (capacity : Z) (text : list Z) : list Z := take (Z.to_nat (capacity - 1)) text ++ [0].

(** An array of [n] characters that holds [text]. *)
Definition text_array (n : nat) (text : cstr) : sys (list Z) :=
  get (fun s => take n (bytes_of text ++ 0 :: stale (s_rest s) text ++ replicate n 0)).

(** *** Results *)

Definition ok_value (v : Z) : SyscallResult := mkResult v kErrorNone.
Definition error (e : Z) : sys SyscallResult := mret (mkResult 0 e).
Definition success (ok : bool) : sys SyscallResult := mret (if ok then ok_value 1 else mkResult 0 kErrorNotFound).
Definition nonzero (v : Z) : sys SyscallResult := mret (if v =? 0 then mkResult 0 kErrorNotFound else ok_value v).

(** A call that fills the structure at [out] with the bytes it gives, if it gives any. *)
Definition fill (out : Z) (bytes : option (list Z)) : sys SyscallResult :=
  match bytes with
  | Some bytes => store_bytes out bytes;; success true
  | None => success false
  end.

Definition with_path (text max_len : Z) (k : cstr -> sys SyscallResult) : sys SyscallResult :=
  path ← path_argument text max_len;
  match path with Some path => k path | None => error kErrorInvalidPointer end.

Definition syscall_current_pid : sys Z := get (fun s => current_pid (s_manager s)).

(** A call that only a process makes. *)
Definition with_pid (k : Z -> sys SyscallResult) : sys SyscallResult :=
  pid ← syscall_current_pid; if pid =? 0 then error kErrorNotFound else k pid.

Definition find_pid (pid : Z) : sys (option Process) :=
  get (fun s => snd <$> find_process (s_manager s) pid).

Definition auto_enable_user_preemption_if_competing : sys bool := manager update_user_preemption_gate.

(** *** The cases of [dispatch], in the order of the source *)

(** The terminal: [ReadKey] to the end of the [switch]. *)
Definition dispatch_terminal (n : Number) (arg0 arg1 arg2 arg3 : Z) : sys SyscallResult :=
  match n with
  | ReadKey =>
    key ← in_terminal (read_key 1);
    match key with c :: _ => mret (ok_value c) | [] => error kErrorNotFound end
  | Write =>
    let standard := (arg0 =? kStdoutFd) || (arg0 =? kStderrFd) in
    if negb (standard && negb (arg2 =? 0)) && negb (arg2 =? 0) then error kErrorNotFound
    else
      let '(data, length) := if standard && negb (arg2 =? 0) then (arg1, arg2) else (arg0, arg1) in
      ok ← user_buffer_readable data length;
      if negb ok then error kErrorInvalidPointer
      else
        bytes ← load_bytes (Z.to_nat length) data;
        let to_terminal := count ← in_terminal (Terminal.write bytes); mret (ok_value count) in
        if standard then
          pid ← syscall_current_pid;
          if pid =? 0 then to_terminal
          else
            count ← with_tty (write_file pid (w32 arg0) bytes);
            if negb (count =? 0) then mret (ok_value count)
            else
              blocked ← get (fun s => pipe_write_would_block pid (w32 arg0) (s_manager s));
              if blocked : bool then error kErrorWouldBlock
              else
                pipe ← get (fun s => is_pipe_fd pid (w32 arg0) (s_manager s));
                if pipe : bool then error kErrorNotFound else to_terminal
        else to_terminal
  | TerminalControl =>
    if arg0 =? 1 then in_terminal (fun t => (scroll_relative (if arg1 <? 2 ^ 63 then arg1 else arg1 - two64) t, tt));; success true
    else if arg0 =? 2 then in_terminal (fun t => (scroll_to_bottom t, tt));; success true
    else if arg0 =? 3 then in_terminal (fun t => (set_input_mode arg1 t, tt));; success true
    else if arg0 =? 4 then mode ← get (fun s => t_mode (s_terminal s)); mret (ok_value (match mode with Raw => 0 | Canonical => 1 end))
    else if arg0 =? 5 then
      ok ← user_buffer_readable arg1 arg2;
      if negb ok then error kErrorInvalidPointer
      else
        bytes ← load_bytes (Z.to_nat arg2) arg1;
        count ← in_terminal (inject_input bytes); mret (ok_value count)
    else if arg0 =? 6 then in_terminal (fun t => (reset_input_line t, tt));; success true
    else error kErrorNotFound
  | _ => error kErrorInvalidSyscall
  end.

(** The caller's directory, arguments and environment. *)
Definition dispatch_process_state (n : Number) (arg0 arg1 arg2 arg3 : Z) : sys SyscallResult :=
  match n with
  | GetCurrentProcessId => pid ← syscall_current_pid; mret (ok_value pid)
  | GetCurrentDirectory =>
    if arg0 =? 0 then error kErrorInvalidPointer
    else with_pid (fun pid =>
      directory ← get (fun s => '(_, p) ← lookup_alive (s_manager s) pid; Some (pr_current_directory p));
      match directory with
      | None => success false
      | Some directory =>
        bytes ← text_array 64 directory;
        store_bytes arg0 bytes;; success (bool_decide (head directory = Some slash))
      end)
  | SetCurrentDirectory =>
    with_path arg0 arg1 (fun path => with_pid (fun pid => ok ← manager (set_current_directory pid path); success ok))
  | GetArgumentCount => with_pid (fun pid => count ← get (fun s => argument_count pid (s_manager s)); mret (ok_value count))
  | GetArgument =>
    if arg1 =? 0 then error kErrorInvalidPointer
    else with_pid (fun pid =>
      text ← get (fun s => '(_, p) ← lookup_alive (s_manager s) pid; pr_arguments p !! Z.to_nat (w32 arg0));
      match text with
      | None => success false
      | Some text =>
        bytes ← text_array 64 text;
        store_bytes arg1 bytes;; success (negb (bool_decide (text = [])))
      end)
  | GetEnvironmentCount => with_pid (fun pid => count ← get (fun s => environment_count pid (s_manager s)); mret (ok_value count))
  | GetEnvironment =>
    if arg1 =? 0 then error kErrorInvalidPointer
    else with_pid (fun pid =>
      entry ← get (fun s => '(_, p) ← lookup_alive (s_manager s) pid; pr_environment p !! Z.to_nat (w32 arg0));
      match entry with
      | None => success false
      | Some (key, text) =>
        key_bytes ← text_array 24 key;
        value_bytes ← text_array 80 text;
        store_bytes arg1 (key_bytes ++ value_bytes);;
        success (negb (bool_decide (key = [])) && negb (bool_decide (text = [])))
      end)
  | SetEnvironment =>
    key ← path_argument arg0 arg1;
    match key with
    | None => error kErrorInvalidPointer
    | Some key => with_path arg2 arg3 (fun text => with_pid (fun pid =>
                    ok ← manager (set_environment_variable pid key text); success ok))
    end
  | UnsetEnvironment =>
    with_path arg0 arg1 (fun key => with_pid (fun pid => ok ← manager (unset_environment_variable pid key); success ok))
  | _ => dispatch_terminal n arg0 arg1 arg2 arg3
  end.

(** The decimal digits that the loop leaves, last one first. *)
Fixpoint link_digits (fuel : nat) (value : Z) : list Z :=
  match fuel with
  | O => []
  | S fuel' => (48 + value mod 10) :: (if value / 10 =? 0 then [] else link_digits fuel' (value / 10))
  end.

Definition starts_with (text prefix : list Z) : bool := bool_decide (take (length prefix) text = prefix).

(** The loop of [parse_decimal_tail], from [value]. *)
Fixpoint decimal_tail (text : list Z) (value : Z) : option Z :=
  match text with
  | [] => Some value
  | c :: text' =>
    if (c <? 48) || (57 <? c) then None
    else let value := value * 10 + (c - 48) in if 0xffffffff <? value then None else decimal_tail text' value
  end.
Definition parse_decimal_tail (text : list Z) : option Z :=
  match text with [] => None | _ => decimal_tail text 0 end.

(** The digits of the pid, which wraps, and the text after them. *)
Fixpoint pid_digits (text : list Z) (pid : Z) : Z * list Z :=
  match text with
  | c :: text' => if (48 <=? c) && (c <=? 57) then pid_digits text' (w64 (pid * 10 + (c - 48))) else (pid, text)
  | [] => (pid, [])
  end.
Definition parse_proc_pid_fd_path (path : list Z) : option (Z * Z) :=
  if negb (starts_with path (txt "/proc/")) then None
  else
    let rest := drop 6 path in
    match rest with
    | c :: _ =>
      if (c <? 48) || (57 <? c) then None
      else
        let '(pid, tail) := pid_digits rest 0 in
        if negb (starts_with tail (txt "/fd/")) then None
        else fd ← parse_decimal_tail (drop 4 tail); Some (pid, fd)
    | [] => None
    end.

Definition proc_fd_target (pid fd : Z) (m : UserspaceManager) : option FileDescriptor :=
  if pid =? 0 then None else '(i, _) ← lookup_alive m pid; '(_, d) ← find_fd m i fd; Some d.

(** The text that a link under [/proc] names. *)
Definition link_target (d : FileDescriptor) : list Z :=
  match fd_kind d with
  | VfsFile => bytes_of (fd_path d)
  | PipeRead => take 31 (txt "pipe-read:" ++ rev (link_digits 11 (fd_pipe_id d)))
  | _ => take 31 (txt "pipe-write:" ++ rev (link_digits 11 (fd_pipe_id d)))
  end.

Definition link_target_result (out capacity : Z) (d : FileDescriptor) : sys SyscallResult :=
  let text := take (Z.to_nat (capacity - 1)) (link_target d) in
  store_bytes out (text ++ [0]);; mret (ok_value (zlen text)).

(** [FileDescriptorInfo] without its path. *)
Definition file_descriptor_info (pid : Z) (v : Vfs) (d : FileDescriptor) : list Z :=
  let kind := match fd_kind d with VfsFile => 1 | PipeRead => 2 | PipeWrite => 3 | NoFile => 0 end in
  let offset := match fd_kind d with VfsFile => handle_offset v (fd_vfs_handle d) | _ => fd_offset d end in
  pack [(8%nat, pid); (4%nat, fd_number d); (4%nat, kind); (4%nat, fd_vfs_handle d); (4%nat, fd_pipe_id d); (8%nat, offset)].

(** Information about tasks, files and mounts. *)
Definition dispatch_info (n : Number) (arg0 arg1 arg2 arg3 : Z) : sys SyscallResult :=
  match n with
  | GetProcessInfo | GetUserThreadInfo | GetCpuInfo | GetMountInfo =>
    if arg1 =? 0 then error kErrorInvalidPointer
    else bytes ← get (fun s => info n arg0 0 (s_manager s) (s_sched s) (s_rest s)); fill arg1 bytes
  | GetFileDescriptorInfo =>
    ok ← (if arg2 =? 0 then mret false else user_buffer_writable arg2 96);
    if negb ok then error kErrorInvalidPointer
    else
      caller ← syscall_current_pid;
      let target_pid := if arg0 =? 0 then caller else arg0 in
      process ← find_pid target_pid;
      caller_process ← find_pid caller;
      match process with
      | None => error kErrorNotFound
      | Some process =>
        let direct_child := pr_parent_pid process =? caller in
        let same_parent := match caller_process with
                           | Some c => negb (pr_parent_pid c =? 0) && (pr_parent_pid process =? pr_parent_pid c)
                           | None => false
                           end in
        if (caller =? 0) || negb (target_pid =? caller) && negb direct_child && negb same_parent then error kErrorNotFound
        else
          store_bytes arg2 (replicate 96 0);;
          d ← get (fun s => if 8 <=? arg1 then None
                            else '(i, p) ← lookup_alive (s_manager s) target_pid; d ← fd_at (s_manager s) i (Z.to_nat arg1);
                                 if fd_open d then Some d else None);
          match d with
          | None => success false
          | Some d =>
            head ← get (fun s => file_descriptor_info target_pid (k_vfs (s_manager s)) d);
            path ← text_array 64 (fd_path d);
            store_bytes arg2 (head ++ path);; success true
          end
      end
  | GetPipeCount =>
    count ← get (fun s => zlen (filter (fun p => pi_open p = true) (pipes_ (s_manager s)))); mret (ok_value count)
  | GetPipeInfo =>
    ok ← (if arg1 =? 0 then mret false else user_buffer_writable arg1 48);
    if negb ok then error kErrorInvalidPointer
    else
      store_bytes arg1 (replicate 48 0);;
      bytes ← get (fun s => info n arg0 0 (s_manager s) (s_sched s) (s_rest s)); fill arg1 bytes
  | GetSchedulerStats =>
    if arg0 =? 0 then error kErrorInvalidPointer
    else
      bytes ← get (fun s =>
        let sched := s_sched s in
        let current := match current_ sched ≫= fun i => threads_ sched !! i with Some t => t_id t | None => 0 end in
        pack [(8%nat, Z.of_nat (Scheduler.count_ sched)); (8%nat, ready_count sched); (8%nat, sleeping_count sched);
              (8%nat, dead_count sched); (8%nat, switch_count_ sched); (8%nat, yield_count_ sched); (8%nat, preempt_count_ sched);
              (8%nat, current); (4%nat, current_cpu_id (s_rest s)); (4%nat, online_count (s_rest s))]);
      fill arg0 (Some bytes)
  | GetLaunchContext =>
    if arg1 =? 0 then error kErrorInvalidPointer
    else
      c ← get (fun s => build_launch_context arg0 (s_manager s));
      fill arg1 ((fun c => pack [(8%nat, lc_tid c); (8%nat, lc_pid c); (8%nat, lc_rip c); (8%nat, lc_rsp c); (8%nat, lc_cr3 c);
                                  (2%nat, lc_cs c); (2%nat, lc_ss c); (4%nat, 0); (8%nat, lc_rflags c)]) <$> c)
  | GetVfsNodeCount => count ← get (fun s => Z.of_nat (Vfs.count_ (k_vfs (s_manager s)))); mret (ok_value count)
  | GetVfsNodeInfo =>
    if arg1 =? 0 then error kErrorInvalidPointer
    else
      node ← get (fun s => copy_node_info (Z.to_nat (w32 arg0)) (k_vfs (s_manager s)));
      match node with
      | None => success false
      | Some i =>
        path ← text_array 64 (ni_path i);
        store_bytes arg1 (pack [(4%nat, ni_type i); (4%nat, ni_flags i); (8%nat, ni_base i); (8%nat, ni_size i); (8%nat, ni_links i)] ++ path);;
        success true
      end
  | ReadDirectory =>
    path ← path_argument arg0 arg1;
    match path with
    | None => error kErrorInvalidPointer
    | Some path =>
      if arg3 =? 0 then error kErrorInvalidPointer
      else
        pid ← syscall_current_pid;
        bytes ← get (fun s =>
          let m := s_manager s in
          if pid =? 0 then directory_entry path (w32 arg2) (k_vfs m)
          else '(_, p) ← lookup_alive m pid; resolved ← resolve_process_path (pr_current_directory p) path;
               directory_entry resolved (w32 arg2) (k_vfs m));
        fill arg3 bytes
    end
  | ReadLink =>
    path ← path_argument arg0 arg1;
    match path with
    | None => error kErrorInvalidPointer
    | Some path =>
      ok ← user_buffer_writable arg2 arg3;
      if negb ok then error kErrorInvalidPointer
      else
        let text := bytes_of path in
        caller ← syscall_current_pid;
        let target := if starts_with text (txt "/proc/self/fd/") then fd ← parse_decimal_tail (drop 14 text); Some (caller, fd)
                      else parse_proc_pid_fd_path text in
        match target with
        | None => error kErrorNotFound
        | Some (pid, fd) =>
          d ← get (fun s => proc_fd_target pid fd (s_manager s));
          match d with Some d => link_target_result arg2 arg3 d | None => error kErrorNotFound end
        end
    end
  | GetMountCount => count ← get (fun s => mount_count (k_vfs (s_manager s))); mret (ok_value count)
  | _ => dispatch_process_state n arg0 arg1 arg2 arg3
  end.

(** The user scheduler, devices and the machine. *)
Definition dispatch_system (n : Number) (arg0 arg1 arg2 arg3 : Z) : sys SyscallResult :=
  let filled out a b := bytes ← get (fun s => info n a b (s_manager s) (s_sched s) (s_rest s)); fill out bytes in
  let checked size := ok ← (if arg0 =? 0 then mret false else user_buffer_writable arg0 size);
                      if negb ok then error kErrorInvalidPointer else filled arg0 0 0 in
  match n with
  | GetUserSchedulerInfo | GetFramebufferInfo | GetMemoryStats | GetBlockDeviceInfo | GetSystemInfo =>
    if arg0 =? 0 then error kErrorInvalidPointer else filled arg0 0 0
  | GetCurrentUserContext => checked 48
  | GetLimitsInfo => checked 176
  | GetAbiInfo => checked 152
  | GetFeatureInfo => checked 32
  | GetDeviceInfo => if arg1 =? 0 then error kErrorInvalidPointer else filled arg1 (w32 arg0) 0
  | GetDeviceInfoByClass => if arg2 =? 0 then error kErrorInvalidPointer else filled arg2 (w32 arg0) (w32 arg1)
  | GetCurrentIds =>
    ok ← (if arg0 =? 0 then mret false else user_buffer_writable arg0 48);
    if negb ok then error kErrorInvalidPointer
    else
      pid ← syscall_current_pid;
      tid ← get (fun s => current_tid (s_manager s));
      if (pid =? 0) || (tid =? 0) then error kErrorNotFound
      else
        process ← find_pid pid;
        thread ← get (fun s => match current_ (s_sched s) ≫= fun i => threads_ (s_sched s) !! i with Some t => t_id t | None => 0 end);
        cpu ← get (fun s => current_cpu_id (s_rest s));
        store_bytes arg0 (pack [(8%nat, pid); (8%nat, tid); (8%nat, from_option pr_parent_pid 0 process); (8%nat, thread);
                                 (8%nat, from_option pr_process_group_id 0 process); (4%nat, cpu); (4%nat, 0)]);;
        success true
  | SetUserPreemption =>
    with_pid (fun _ =>
      if negb (arg0 =? 0) then
        active ← get (fun s => k_lapic_timer_active (s_manager s));
        if negb active && negb start_lapic then error kErrorNotFound
        else
          manager (fun m => (m <| k_lapic_timer_active := true |> <| k_user_preemption_enabled := true |>, tt));;
          in_rest (fun r => (log (txt "Userspace Local APIC preemption enabled") r, tt));; success true
      else
        ok ← manager update_user_preemption_gate;
        if negb ok then error kErrorNotFound
        else
          enabled ← get (fun s => k_user_preemption_enabled (s_manager s));
          if enabled : bool then in_rest (fun r => (log (txt "Userspace auto preemption retained") r, tt));; success true
          else in_rest (fun r => (log (txt "Userspace Local APIC preemption disabled") r, tt));; mret (ok_value 0))
  | SelectNextUserThread =>
    if arg0 =? 0 then error kErrorInvalidPointer
    else
      next ← manager select_next_runnable_thread;
      match next with
      | None => error kErrorNotFound
      | Some c =>
        store_bytes arg0 (pack [(8%nat, lc_tid c); (8%nat, lc_pid c); (8%nat, lc_rip c); (8%nat, lc_rsp c); (8%nat, lc_cr3 c);
                                 (2%nat, lc_cs c); (2%nat, lc_ss c); (4%nat, 0); (8%nat, lc_rflags c)]);;
        mret (ok_value (lc_tid c))
      end
  | GetDeviceCount | GetStorageDeviceCount | GetNetworkDeviceCount | GetDisplayDeviceCount =>
    v ← get (fun s => value n (s_rest s)); mret (ok_value v)
  | ReadBlockSector =>
    ok ← user_buffer_writable arg1 512;
    if negb ok then error kErrorInvalidPointer
    else
      sector ← in_rest (read_sector arg0);
      match sector with
      | None => error kErrorNotFound
      | Some sector => store_bytes arg1 sector;; mret (ok_value 512)
      end
  | ReadKernelLog =>
    ok ← user_buffer_writable arg0 arg1;
    if negb ok then error kErrorInvalidPointer
    else bytes ← get (fun s => read_log arg1 arg2 (s_rest s)); store_bytes arg0 bytes;; mret (ok_value (zlen bytes))
  | _ => dispatch_info n arg0 arg1 arg2 arg3
  end.

(** The signal that a call names, with the exit code it stands for. *)
Definition signal_of (arg : Z) : option (ProcessTerminationReason * Z) :=
  if arg =? 9 then Some (SigKill, 128 + 9)
  else if (arg =? 15) || (arg =? 0) then Some (SigTerm, 128 + 15)
  else None.

(** Processes, groups and waiting. *)
Definition dispatch_tasks (n : Number) (arg0 arg1 arg2 arg3 : Z) : sys SyscallResult :=
  match n with
  | StartProcess =>
    caller ← syscall_current_pid;
    process ← find_pid arg0;
    match process with
    | None => error kErrorNotFound
    | Some process =>
      if (caller =? 0) || negb (pr_parent_pid process =? caller) then error kErrorNotFound
      else
        ok ← manager (mark_runnable arg0);
        if negb ok then error kErrorNotFound
        else ok ← auto_enable_user_preemption_if_competing; success ok
    end
  | Exit => with_pid (fun pid => ok ← manager (exit_process pid arg0 Exited); success ok)
  | Kill =>
    caller ← syscall_current_pid;
    process ← find_pid arg0;
    match process with
    | None => error kErrorNotFound
    | Some process =>
      if (caller =? 0) || (pr_pid process =? caller) then error kErrorNotFound
      else
        caller_process ← find_pid caller;
        let direct_child := pr_parent_pid process =? caller in
        let same_parent := match caller_process with
                           | Some c => negb (pr_parent_pid c =? 0) && (pr_parent_pid process =? pr_parent_pid c)
                           | None => false
                           end in
        if negb direct_child && negb same_parent then error kErrorNotFound
        else match signal_of arg1 with
             | None => error kErrorNotFound
             | Some (reason, exit_code) => ok ← manager (exit_process (pr_pid process) exit_code reason); success ok
             end
    end
  | SetProcessGroup =>
    caller ← syscall_current_pid;
    if (caller =? 0) || (arg0 =? 0) || (arg1 =? 0) then error kErrorNotFound
    else ok ← manager (set_process_group caller arg0 arg1); success ok
  | KillProcessGroup =>
    caller ← syscall_current_pid;
    if (caller =? 0) || (arg0 =? 0) then error kErrorNotFound
    else match signal_of arg1 with
         | None => error kErrorNotFound
         | Some (reason, exit_code) => killed ← manager (kill_process_group caller arg0 exit_code reason); nonzero killed
         end
  | SetForegroundProcessGroup => with_pid (fun caller => ok ← manager (set_foreground_process_group caller arg0); success ok)
  | GetForegroundProcessGroup => group ← get (fun s => foreground_process_group_id_ (s_manager s)); mret (ok_value group)
  | StopProcessGroup =>
    caller ← syscall_current_pid;
    if (caller =? 0) || (arg0 =? 0) then error kErrorNotFound
    else stopped ← manager (stop_process_group caller arg0); nonzero stopped
  | ContinueProcessGroup =>
    caller ← syscall_current_pid;
    if (caller =? 0) || (arg0 =? 0) then error kErrorNotFound
    else
      continued ← manager (continue_process_group caller arg0);
      if continued =? 0 then error kErrorNotFound
      else
        ok ← auto_enable_user_preemption_if_competing;
        if negb ok then error kErrorNotFound else mret (ok_value continued)
  | Wait =>
    ok ← (if arg1 =? 0 then mret false else user_buffer_writable arg1 8);
    if negb ok then error kErrorInvalidPointer
    else with_pid (fun caller =>
      code ← get (fun s => wait_process caller arg0 (s_manager s));
      match code with
      | None =>
        blocked ← get (fun s => process_wait_would_block caller arg0 (s_manager s));
        error (if blocked : bool then kErrorWouldBlock else kErrorNotFound)
      | Some code => store_bytes arg1 (le_bytes 8 code);; success true
      end)
  | WaitAny =>
    ok ← (if arg0 =? 0 then mret false else user_buffer_writable arg0 16);
    if negb ok then error kErrorInvalidPointer
    else with_pid (fun caller =>
      exited ← get (fun s => wait_any_process caller (s_manager s));
      match exited with
      | None =>
        blocked ← get (fun s => process_wait_any_would_block (s_manager s) caller);
        error (if blocked : bool then kErrorWouldBlock else kErrorNotFound)
      | Some (pid, code) => store_bytes arg0 (le_bytes 8 pid ++ le_bytes 8 code);; success true
      end)
  | _ => dispatch_system n arg0 arg1 arg2 arg3
  end.

(** What a spawned process takes over from its parent, or from the kernel. *)
Definition adopt (pid parent_pid : Z) : sys unit :=
  if negb (parent_pid =? 0) then
    manager (set_parent pid parent_pid);;
    parent_cwd ← get (fun s => copy_current_directory parent_pid (s_manager s));
    match parent_cwd with Some path => manager (set_current_directory pid path);; mret tt | None => mret tt end;;
    manager (inherit_environment pid parent_pid);;
    manager (inherit_standard_fds pid parent_pid);;
    mret tt
  else
    manager (set_environment pid [(cs "ROOT", cs "/"); (cs "PATH", cs "/bin")]);; mret tt.

(** The new process gets its parent, its arguments and its turn: its pid, or [None] on a
    failure, which leaves what was done before. *)
Definition settle (pid : Z) (args : list (list Z)) (flags : Z) : sys (option Z) :=
  parent_pid ← syscall_current_pid;
  adopt pid parent_pid;;
  ok ← manager (set_arguments pid (text_of <$> args));
  if negb ok then mret None
  else if negb (Z.land flags 1 =? 0) then mret (Some pid)
  else
    ok ← manager (mark_runnable pid);
    if negb ok then mret None
    else ok ← auto_enable_user_preemption_if_competing; mret (if ok : bool then Some pid else None).

(** A process from the program at [path] with [args]. *)
Definition spawn_process (path : list Z) (args : list (list Z)) (flags : Z) : sys (option Z) :=
  node ← get (fun s => let v := k_vfs (s_manager s) in node_at v (find v (text_of path)));
  match node with
  | None => mret None
  | Some node =>
    if negb (bool_decide (nd_type node = MemoryFile)) then mret None
    else
      slot ← (fun s => let '(l, m, slot) := load_process (text_of path) (nd_base node) (nd_size node) (s_loader s) (s_manager s) in
                       Some (slot, s <| s_loader := l |> <| s_manager := m |>));
      process ← get (fun s => i ← slot; processes_ (s_manager s) !! i);
      match process with
      | None => mret None
      | Some process =>
        settle (pr_pid process) args flags
      end
  end.

(** A call on a child of the caller. *)
Definition with_child (pid : Z) (k : sys SyscallResult) : sys SyscallResult :=
  caller ← syscall_current_pid;
  process ← find_pid pid;
  match process with
  | None => error kErrorNotFound
  | Some process => if (caller =? 0) || negb (pr_parent_pid process =? caller) then error kErrorNotFound else k
  end.

(** Redirection, pipes and new processes. *)
Definition dispatch_spawn (n : Number) (arg0 arg1 arg2 arg3 : Z) : sys SyscallResult :=
  match n with
  | RedirectProcessFd =>
    with_path arg2 arg3 (fun path => with_child arg0 (ok ← manager (redirect_file arg0 (w32 arg1) path); success ok))
  | RedirectProcessFdAppend =>
    with_path arg2 arg3 (fun path => with_child arg0 (ok ← manager (redirect_file_append arg0 (w32 arg1) path); success ok))
  | CreatePipe => with_pid (fun _ => pipe_id ← manager create_pipe; nonzero pipe_id)
  | AttachPipeFd => with_child arg0 (ok ← manager (attach_pipe_fd arg0 (w32 arg1) (w32 arg2) (arg3 =? 1)); success ok)
  | ClosePipe => with_pid (fun _ => ok ← manager (close_pipe (w32 arg0)); success ok)
  | Spawn =>
    command ← copy_spawn_command arg0 arg1;
    match command with
    | None => error kErrorInvalidPointer
    | Some command =>
      match parse_spawn_arguments command kMaxProcessArguments with
      | None => fun _ => None
      | Some (buffer, pointers) =>
        match string_at buffer <$> pointers with
        | [] => error kErrorNotFound
        | path :: rest =>
          ok ← (if arg2 =? 0 then mret true else user_buffer_writable arg2 8);
          if negb ok then error kErrorInvalidPointer
          else
            pid ← spawn_process path (path :: rest) arg3;
            match pid with
            | None => error kErrorNotFound
            | Some pid => (if arg2 =? 0 then mret tt else store_bytes arg2 (le_bytes 8 pid));; mret (ok_value pid)
            end
        end
      end
    end
  | _ => dispatch_tasks n arg0 arg1 arg2 arg3
  end.

(** The answer of a read that took no bytes. *)
Definition nothing_read (pid fd : Z) : sys SyscallResult :=
  blocked ← get (fun s => pipe_read_would_block pid fd (s_manager s));
  if blocked : bool then error kErrorWouldBlock
  else pipe ← get (fun s => is_pipe_fd pid fd (s_manager s)); error (if pipe : bool then kErrorNone else kErrorNotFound).

(** [read_file] into a user buffer, and the answer of [Read]. *)
Definition read_descriptor (pid fd buffer size : Z) : sys SyscallResult :=
  bytes ← with_tty (read_file pid fd size);
  store_bytes buffer bytes;;
  if negb (zlen bytes =? 0) then mret (ok_value (zlen bytes)) else nothing_read pid fd.

(** Files through descriptors and by name. *)
Definition dispatch_files (n : Number) (arg0 arg1 arg2 arg3 : Z) : sys SyscallResult :=
  let on_file op := with_path arg0 arg1 (fun path => with_pid (fun pid => ok ← manager (op pid path); success ok)) in
  let on_files op :=
    first ← path_argument arg0 arg1;
    match first with
    | None => error kErrorInvalidPointer
    | Some first => with_path arg2 arg3 (fun second => with_pid (fun pid => ok ← manager (op pid first second); success ok))
    end in
  match n with
  | Open => with_path arg0 arg1 (fun path => with_pid (fun pid => fd ← manager (open_file pid path); nonzero fd))
  | Read =>
    ok ← user_buffer_writable arg1 arg2;
    if negb ok then error kErrorInvalidPointer
    else if arg0 =? kStdinFd then
      pid ← syscall_current_pid;
      opened ← get (fun s => has_open_file pid kStdinFd (s_manager s));
      if negb (pid =? 0) && opened then read_descriptor pid kStdinFd arg1 arg2
      else
        bytes ← in_terminal (read_input arg2);
        store_bytes arg1 bytes;; nonzero (zlen bytes)
    else with_pid (fun pid => read_descriptor pid (w32 arg0) arg1 arg2)
  | Close => with_pid (fun pid => ok ← manager (close_file pid (w32 arg0)); success ok)
  | Dup => with_pid (fun pid => fd ← manager (duplicate_file pid (w32 arg0)); nonzero fd)
  | Dup2 =>
    with_pid (fun pid =>
      ok ← manager (duplicate_file_to pid (w32 arg0) (w32 arg1));
      mret (if ok : bool then ok_value arg1 else mkResult 0 kErrorNotFound))
  | Seek => with_pid (fun pid => ok ← manager (seek_file pid (w32 arg0) arg1); success ok)
  | CreateFile => on_file create_file
  | WriteFile =>
    ok ← user_buffer_readable arg1 arg2;
    if negb ok then error kErrorInvalidPointer
    else with_pid (fun pid =>
      bytes ← load_bytes (Z.to_nat arg2) arg1;
      count ← with_tty (write_file pid (w32 arg0) bytes);
      if negb (count =? 0) then mret (ok_value count)
      else
        blocked ← get (fun s => pipe_write_would_block pid (w32 arg0) (s_manager s));
        error (if blocked : bool then kErrorWouldBlock else kErrorNotFound))
  | DeleteFile => on_file delete_file
  | CreateDirectory => on_file create_directory
  | Link => on_files link_file
  | Truncate => on_file (fun pid path => truncate_path pid path arg2)
  | Rename => on_files rename_path
  | DeleteDirectory => on_file delete_directory
  | _ => dispatch_spawn n arg0 arg1 arg2 arg3
  end.

(** Files of the file system, without a process. *)
Definition dispatch_vfs (n : Number) (arg0 arg1 arg2 arg3 : Z) : sys SyscallResult :=
  let memory_file path := get (fun s =>
    let v := k_vfs (s_manager s) in
    match node_at v (find v path) with
    | Some node => if bool_decide (nd_type node = MemoryFile) then Some node else None
    | None => None
    end) in
  match n with
  | VfsStat =>
    with_path arg0 arg1 (fun path =>
      node ← memory_file path;
      match node with
      | None => error kErrorNotFound
      | Some node =>
        size ← get (fun s => match nd_ram_file node with Some f => file_size (k_vfs (s_manager s)) f | None => nd_size node end);
        mret (ok_value size)
      end)
  | VfsStatInfo =>
    path ← path_argument arg0 arg1;
    match path with
    | None => error kErrorInvalidPointer
    | Some path =>
      if arg2 =? 0 then error kErrorInvalidPointer
      else
        pid ← syscall_current_pid;
        bytes ← get (fun s =>
          let m := s_manager s in
          if pid =? 0 then stat path (k_vfs m)
          else '(_, p) ← lookup_alive m pid; resolved ← resolve_process_path (pr_current_directory p) path; stat resolved (k_vfs m));
        fill arg2 bytes
    end
  | VfsRead =>
    path ← path_argument arg0 arg1;
    match path with
    | None => error kErrorInvalidPointer
    | Some path =>
      if (arg2 =? 0) || (arg3 =? 0) || (4096 <? arg3) then error kErrorInvalidPointer
      else
        node ← memory_file path;
        match node with
        | None => error kErrorNotFound
        | Some _ =>
          bytes ← get (fun s => Vfs.read path 0 arg3 (k_vfs (s_manager s)));
          store_bytes arg2 bytes;; mret (ok_value (zlen bytes))
        end
    end
  | VfsOpen => with_path arg0 arg1 (fun path => handle ← with_vfs (vopen path); nonzero handle)
  | VfsReadHandle =>
    if (arg1 =? 0) || (arg2 =? 0) || (4096 <? arg2) then error kErrorInvalidPointer
    else
      bytes ← with_tty (fun m t => let '(v, t, bytes) := read_handle (w32 arg0) arg2 (k_vfs m) t in (m <| k_vfs := v |>, t, bytes));
      store_bytes arg1 bytes;; nonzero (zlen bytes)
  | VfsClose => ok ← with_vfs (Vfs.close (w32 arg0)); success ok
  | _ => dispatch_files n arg0 arg1 arg2 arg3
  end.

(** The log, the clock, the kernel thread, counts; then the other cases. *)
Definition dispatch_number (n : Number) (arg0 arg1 arg2 arg3 : Z) : sys SyscallResult :=
  let counted f := v ← get (fun s => f (s_manager s)); mret (ok_value v) in
  match n with
  | DebugLog =>
    ok ← c_string_readable arg0 arg1;
    if negb ok then error kErrorInvalidPointer
    else text ← c_string (Z.to_nat arg1) arg0; in_rest (fun r => (log text r, tt));; mret (ok_value 0)
  | GetTicks => v ← get (fun s => ticks (s_rest s)); mret (ok_value v)
  | GetDateTime =>
    ok ← (if arg0 =? 0 then mret false else user_buffer_writable arg0 8);
    if negb ok then error kErrorInvalidPointer
    else answer ← in_rest datetime; store_bytes arg0 answer.2;; success answer.1
  | Yield => (fun s => Some (tt, s <| s_sched := (Scheduler.yield (s_sched s)).1 |>));; mret (ok_value 0)
  | SleepTicks => mret (ok_value 0)
  | GetThreadId =>
    id ← get (fun s => match current_ (s_sched s) ≫= fun i => threads_ (s_sched s) !! i with Some t => t_id t | None => 0 end);
    mret (ok_value id)
  | GetProcessCount => counted (fun m => Z.of_nat (pcount_ m))
  | GetThreadCount => v ← get (fun s => Z.of_nat (Scheduler.count_ (s_sched s))); mret (ok_value v)
  | GetRunnableProcessCount => counted runnable_count
  | GetExitedProcessCount => counted exited_count
  | GetUserThreadCount => counted (fun m => Z.of_nat (tcount_ m))
  | GetRunnableUserThreadCount => counted runnable_thread_count
  | GetLiveProcessCount => counted live_process_count
  | GetCpuCount => v ← get (fun s => value n (s_rest s)); mret (ok_value v)
  | ReapProcess => ok ← manager (reap_exited arg0); mret (ok_value (if ok : bool then 1 else 0))
  | _ => dispatch_vfs n arg0 arg1 arg2 arg3
  end.

Definition dispatch (number arg0 arg1 arg2 arg3 : Z) : sys SyscallResult :=
  manager (record_current_syscall number);;
  match number_of number with
  | Some n => dispatch_number n arg0 arg1 arg2 arg3
  | None => error kErrorInvalidSyscall
  end.

(** *** The interrupt 0x80 *)

(** A switch of user threads from the frame of the interrupt, and whether it happened. *)
Definition from_frame (op : Cpu -> UserspaceManager -> UserspaceManager * Cpu * bool) (c : Cpu) : sys (Cpu * bool) := fun s =>
  let '(m, c, ok) := op c (s_manager s) in Some ((c, ok), s <| s_manager := m |>).

(** What a call that would block does: the thread waits, when it can. *)
Definition block_call (number : Z) (c : Cpu) : sys (Cpu * bool) :=
  let f := cpu_frame c in
  match number_of number with
  | Some Read => from_frame (block_user_pipe_syscall_from_frame false (w32 (f_rdi f))) c
  | Some WriteFile => from_frame (block_user_pipe_syscall_from_frame true (w32 (f_rdi f))) c
  | Some Write =>
    if ((f_rdi f =? kStdoutFd) || (f_rdi f =? kStderrFd)) && negb (f_rdx f =? 0)
    then from_frame (block_user_pipe_syscall_from_frame true (w32 (f_rdi f))) c else mret (c, false)
  | Some Wait => from_frame (block_user_wait_syscall_from_frame (f_rdi f)) c
  | Some WaitAny => from_frame block_user_wait_any_syscall_from_frame c
  | _ => mret (c, false)
  end.

(** The result in the registers of the frame. *)
Definition return_to_frame (r : SyscallResult) (c : Cpu) : Cpu :=
  c <| cpu_frame ::= fun f => f <| f_rax := r_value r |> <| f_rdx := r_error r |> |>.

Definition syscall_interrupt (c : Cpu) : sys Cpu :=
  let f := cpu_frame c in
  if f_rax f =? 3 then
    '(c, switched) ← from_frame yield_user_thread_from_frame c;
    mret (if switched : bool then c else return_to_frame (mkResult 0 kErrorNone) c)
  else
    now ← get (fun s => ticks (s_rest s));
    '(c, switched) ←
      (if f_rax f =? 47 then from_frame (exit_user_thread_from_frame (f_rdi f)) c
       else if (f_rax f =? 4) && negb (f_rdi f =? 0) then from_frame (block_user_sleep_syscall_from_frame now (f_rdi f)) c
       else mret (c, false));
    if switched : bool then mret c
    else
      let f := cpu_frame c in
      r ← dispatch (f_rax f) (f_rdi f) (f_rsi f) (f_rdx f) (f_r10 f);
      '(c, switched) ← (if r_error r =? kErrorWouldBlock then block_call (f_rax f) c else mret (c, false));
      mret (if switched : bool then c else return_to_frame r c).

End Dispatch.
