(* ===== verification/SyscallSafety.v ===== *)
(** * What a system call may change

    Every call keeps the invariants of the task tables and of the terminal, and it
    changes no record of a live process other than the caller, its children and the
    children of its own parent: there is no way to redirect, start, stop or kill anybody
    else.  The proofs follow the shape of the handlers: first code that only looks, under
    which the tables are still those of the start of the call ([safe]), then one or more
    operations of the manager, then code that only answers ([keeps]). *)

From stdpp Require Import strings.
From Stdlib Require Import ZifyBool.
From S2P Require Import Prelude Path UserLib SpawnArgs Scheduler Terminal Vfs Userspace UserFiles UserEnv UserImage UserSwitch.
From S2P Require Import UserTasks UserFamily Syscall.
#[local] Open Scope Z_scope.

(** What [create_process_from_elf] does to the tables. *)
Class LoaderLaws (L : Type) `{Kernel} `{!Loader L} := {
  load_law name base size l m l' m' slot : load_process name base size l m = (l', m', slot) ->
    m' = m /\ slot = None \/
    exists make, (forall pid, pr_pid (make pid) = pid /\ pr_state (make pid) = ProcCreated) /\
      publish_process true make m = (m', slot)
}.

(** ** The tables as a call finds them *)

Definition same_tasks (m m' : UserspaceManager) : Prop :=
  processes_ m' = processes_ m /\ pcount_ m' = pcount_ m /\ next_pid_ m' = next_pid_ m /\ uthreads_ m' = uthreads_ m /\
  tcount_ m' = tcount_ m /\ next_tid_ m' = next_tid_ m /\ active_tid_ m' = active_tid_ m /\ active_pid_ m' = active_pid_ m.

#[export] Instance same_tasks_refl : Reflexive same_tasks.
Proof. by intros m. Qed.
#[export] Instance same_tasks_trans : Transitive same_tasks.
Proof. unfold same_tasks. intros a b c H1 H2. destruct_and!. split_and!; congruence. Qed.

Lemma same_tasks_wf m m' : same_tasks m m' -> tasks_wf m -> tasks_wf m'.
Proof. intros (_ & _ & _ & U & T & N & A & _) Hw. by eapply wf_same. Qed.
Lemma same_tasks_touches I m m' : same_tasks m m' -> touches I m m'.
Proof. intros (P & C & N & _). by apply touches_same. Qed.
Lemma same_tasks_pid m m' : same_tasks m m' -> current_pid m' = current_pid m.
Proof.
  intros (P & C & _ & U & T & _ & A & AP). unfold current_pid, current_tid, live_pid, threads, processes.
  by rewrite P, C, U, T, A, AP.
Qed.
Lemma same_tasks_find m m' pid : same_tasks m m' -> find_process m' pid = find_process m pid.
Proof. intros (P & C & _). unfold find_process, processes. by rewrite P, C. Qed.

(** The accounting of a call changes neither who runs nor who is whose child. *)
Section Accounting.
Context {A : Type} (f : A -> A) (P : A -> Prop) `{!forall x, Decision (P x)} (HP : forall x, P (f x) <-> P x).

Lemma list_find_account i l : list_find P (alter f i l) = (fun '(j, x) => (j, if decide (j = i) then f x else x)) <$> list_find P l.
Proof.
  revert i. induction l as [|x l IH]; intros [|i]; try done; cbn.
  - pose proof (HP x). destruct (decide (P x)), (decide (P (f x))); try tauto.
    destruct (list_find P l) as [[j y]|]; done.
  - case_decide; [done|]. fold (alter f i l). rewrite IH. destruct (list_find P l) as [[j y]|]; [|done]. cbn.
    f_equal. f_equal. repeat case_decide; congruence.
Qed.
Lemma Exists_alter i l : Exists P (alter f i l) <-> Exists P l.
Proof.
  revert i. induction l as [|x l IH]; intros [|i]; try done; cbn; rewrite !Exists_cons; [by rewrite HP|].
  fold (alter f i l). by rewrite IH.
Qed.
Lemma take_alter n i l : take n (alter f i l) = alter f i (take n l).
Proof.
  revert n i. induction l as [|x l IH]; intros [|n] [|i]; try done. cbn. f_equal. apply IH.
Qed.
End Accounting.

Lemma record_find number pid m : exists (i : nat) (f : Process -> Process),
  (forall p, pr_parent_pid (f p) = pr_parent_pid p) /\
  find_process (record_current_syscall number m).1 pid =
    (fun '(j, p) => (j, if decide (j = i) then f p else p)) <$> find_process m pid.
Proof.
  unfold record_current_syscall. destruct (current_pair m) as [[k i]|].
  - exists i, (fun p => p <| pr_syscall_count ::= inc64 |> <| pr_last_syscall := number |>). split; [done|].
    unfold find_process, processes. cbn. by rewrite take_alter, list_find_account.
  - exists 0%nat, id. split; [done|]. cbn. destruct (find_process m pid) as [[j p]|]; [|done]. cbn. by case_decide.
Qed.
Lemma record_current_pid number m : current_pid (record_current_syscall number m).1 = current_pid m.
Proof.
  unfold record_current_syscall. destruct (current_pair m) as [[k i]|]; [|done]. cbn [fst].
  set (f := fun t => t <| ut_syscall_count ::= inc64 |> <| ut_last_syscall := number |>).
  set (g := fun p => p <| pr_syscall_count ::= inc64 |> <| pr_last_syscall := number |>).
  set (m' := on_process i g (on_thread k f m)).
  assert (Hpid : forall pid, live_pid m' pid = live_pid m pid).
  { intros pid. unfold live_pid, processes. cbn. apply decide_ext. by rewrite take_alter, Exists_alter. }
  assert (Htid : current_tid m' = current_tid m).
  { unfold current_tid, threads. cbn. case_match; [done|]. apply decide_ext. by rewrite take_alter, Exists_alter. }
  unfold current_pid. rewrite Htid, Hpid. case_match; [done|].
  unfold threads. cbn. rewrite take_alter, list_find_account by done.
  destruct (list_find _ (take (tcount_ m) (uthreads_ m))) as [[j t]|]; [|done]. cbn. rewrite Hpid. by case_decide.
Qed.

Section Safety.
Context `{Machine} {kernel : Kernel} {L R : Type} {loader : Loader L} {loader_laws : LoaderLaws L} `{Services R}.
Context (root : Z) (may_store : Z -> bool).

Local Abbreviation sys := (sys L R).
Local Abbreviation System := (System L R).

(** *** Code that looks *)

Definition still {A} (p : sys A) : Prop := forall s a s', p s = Some (a, s') ->
  same_tasks (s_manager s) (s_manager s') /\ (terminal_wf (s_terminal s) -> terminal_wf (s_terminal s')).

Lemma still_ret {A} (a : A) : still (mret a).
Proof. by intros s b s' [= <- <-]. Qed.
Lemma still_fault {A} : still (fun _ => None : option (A * System)).
Proof. done. Qed.
Lemma still_bind {A B} (p : sys A) (f : A -> sys B) : still p -> (forall a, still (f a)) -> still (p ≫= f).
Proof.
  intros Hp Hf s b s'. unfold mbind, sys_bind. destruct (p s) as [[a s1]|] eqn:E; [|done]. intros E'.
  destruct (Hp s a s1 E) as [T1 W1], (Hf a s1 b s' E') as [T2 W2]. split; [by etrans|auto].
Qed.
Lemma still_get {A} (f : System -> A) : still (get f).
Proof. by intros s a s' [= <- <-]. Qed.
Lemma still_rest {A} (op : R -> R * A) : still (in_rest op).
Proof. intros s a s'. unfold in_rest. destruct (op _). by intros [= <- <-]. Qed.
Lemma still_vfs {A} (op : Vfs -> Vfs * A) : still (with_vfs op).
Proof. intros s a s'. unfold with_vfs, manager. destruct (op _). by intros [= <- <-]. Qed.
Lemma still_terminal {A} (op : terminal -> terminal * A) :
  (forall t, terminal_wf t -> terminal_wf (op t).1) -> still (in_terminal op).
Proof.
  intros Hop s a s'. unfold in_terminal. destruct (op _) as [t b] eqn:E. intros [= <- <-]. split; [done|].
  intros Hw. specialize (Hop _ Hw). by rewrite E in Hop.
Qed.
Lemma still_load p : still (load root p).
Proof. intros s a s'. unfold load. case_match; [done|]. by intros [= <- <-]. Qed.
Lemma still_store p c : still (store root may_store p c).
Proof. intros s a s'. unfold store. case_match; [done|]. by intros [= <- <-]. Qed.
Lemma still_load_bytes n p : still (load_bytes root n p).
Proof.
  revert p. induction n as [|n IH]; intros p; [apply still_ret|]. cbn.
  apply still_bind; [apply still_load|]. intros c. apply still_bind; [apply IH|]. intros l. apply still_ret.
Qed.
Lemma still_store_bytes p bytes : still (store_bytes root may_store p bytes).
Proof.
  revert p. induction bytes as [|c bytes IH]; intros p; [apply still_ret|]. cbn.
  apply still_bind; [apply still_store|]. intros _. apply IH.
Qed.
Lemma still_terminated n p : still (terminated root n p).
Proof.
  revert p. induction n as [|n IH]; intros p; [apply still_ret|]. cbn. apply still_bind; [apply still_load|].
  intros c. case_match; [apply still_ret|apply IH].
Qed.
Lemma still_c_string n p : still (c_string root n p).
Proof.
  revert p. induction n as [|n IH]; intros p; [apply still_ret|]. cbn. apply still_bind; [apply still_load|].
  intros c. case_match; [apply still_ret|]. apply still_bind; [apply IH|]. intros l. apply still_ret.
Qed.

Lemma terminal_op_wf op t : op_ok op -> terminal_wf t -> terminal_wf (run_op op t).1.
Proof. intros Hop Hw. by destruct (run_op_step op t Hop Hw) as [? _]. Qed.
Lemma read_input_wf n t : 0 <= n -> terminal_wf t -> terminal_wf (read_input n t).1.
Proof. intros Hn Hw. pose proof (terminal_op_wf (OpRead n) t Hn Hw). cbn in *. by destruct (read_input n t). Qed.
Lemma read_key_wf n t : 0 <= n -> terminal_wf t -> terminal_wf (read_key n t).1.
Proof. intros Hn Hw. pose proof (terminal_op_wf (OpReadKey n) t Hn Hw). cbn in *. by destruct (read_key n t). Qed.
Lemma write_wf data t : terminal_wf t -> terminal_wf (Terminal.write data t).1.
Proof. intros Hw. pose proof (terminal_op_wf (OpWrite data) t I Hw). cbn in *. by destruct (Terminal.write data t). Qed.
Lemma inject_wf data t : terminal_wf t -> terminal_wf (inject_input data t).1.
Proof. intros Hw. pose proof (terminal_op_wf (OpInject data) t I Hw). cbn in *. by destruct (inject_input data t). Qed.

Lemma read_handle_wf h size v t : 0 <= size -> terminal_wf t -> terminal_wf (read_handle h size v t).1.2.
Proof.
  intros Hs Hw. unfold read_handle. repeat (case_match; try done).
  all: simplify_eq; cbn in *; pose proof (read_input_wf size t Hs Hw); destruct (read_input size t); by simplify_eq/=.
Qed.
Lemma write_handle_wf h data v t : terminal_wf t -> terminal_wf (write_handle h data v t).1.2.
Proof.
  intros Hw. unfold write_handle. repeat (case_match; try done).
  all: simplify_eq; cbn in *; pose proof (write_wf data t Hw); destruct (Terminal.write data t); by simplify_eq/=.
Qed.
Lemma read_file_wf pid fd size m t : 0 <= size -> terminal_wf t -> terminal_wf (read_file pid fd size m t).1.2.
Proof.
  intros Hs Hw. unfold read_file. case_match; [|done]. case_match. case_match; try done.
  - pose proof (read_handle_wf (fd_vfs_handle f) size (k_vfs m) t Hs Hw). by destruct (read_handle _ _ _ _) as [[v t'] bytes].
  - by destruct (read_pipe _ _ _ _).
Qed.
Lemma write_file_wf pid fd data m t : terminal_wf t -> terminal_wf (write_file pid fd data m t).1.2.
Proof.
  intros Hw. unfold write_file. case_match; [|done]. case_match. case_match; try done.
  - pose proof (write_handle_wf (fd_vfs_handle f) data (k_vfs m) t Hw). by destruct (write_handle _ _ _ _) as [[v t'] n'].
  - by destruct (write_pipe _ _ _ _).
Qed.

Ltac still_step :=
  match goal with
  | |- still (mbind _ _) => apply still_bind; [|intros ?]
  | |- still (mret _) => apply still_ret
  | |- still (get _) => apply still_get
  | |- still (in_rest _) => apply still_rest
  | |- still (with_vfs _) => apply still_vfs
  | |- still (load _ _) => apply still_load
  | |- still (store _ _ _ _) => apply still_store
  | |- still (load_bytes _ _ _) => apply still_load_bytes
  | |- still (store_bytes _ _ _ _) => apply still_store_bytes
  | |- still (terminated _ _ _) => apply still_terminated
  | |- still (c_string _ _ _) => apply still_c_string
  | |- still (error _) => apply still_ret
  | |- still (success _) => apply still_ret
  | |- still (nonzero _) => apply still_ret
  | |- still (text_array _ _) => apply still_get
  | |- still syscall_current_pid => apply still_get
  | |- still (find_pid _) => apply still_get
  | |- still (fun _ => None) => apply still_fault
  | |- still (match ?x with _ => _ end) => destruct x
  end.

Lemma still_c_string_readable p n : still (c_string_readable root p n).
Proof. unfold c_string_readable. repeat still_step. Qed.
Lemma still_readable p n : still (user_buffer_readable root p n).
Proof. unfold user_buffer_readable. repeat still_step. Qed.
Lemma still_writable p n : still (user_buffer_writable root may_store p n).
Proof. unfold user_buffer_writable. repeat still_step. Qed.
Lemma still_path_argument p n : still (path_argument root p n).
Proof. unfold path_argument. apply still_bind; [apply still_c_string_readable|intros ?]. repeat still_step. Qed.
Lemma still_spawn_command p n : still (copy_spawn_command root p n).
Proof. unfold copy_spawn_command. apply still_bind; [apply still_c_string_readable|intros ?]. repeat still_step. Qed.
Lemma still_fill out bytes : still (fill root may_store out bytes).
Proof. unfold fill. repeat still_step. Qed.
Lemma still_link_target_result out n d : still (link_target_result root may_store out n d).
Proof. unfold link_target_result. repeat still_step. Qed.
Lemma still_nothing_read pid fd : still (nothing_read pid fd).
Proof. unfold nothing_read. repeat still_step. Qed.

Ltac still_all := repeat
  match goal with
  | |- still (c_string_readable _ _ _) => apply still_c_string_readable
  | |- still (user_buffer_readable _ _ _) => apply still_readable
  | |- still (user_buffer_writable _ _ _ _) => apply still_writable
  | |- still (path_argument _ _ _) => apply still_path_argument
  | |- still (copy_spawn_command _ _ _) => apply still_spawn_command
  | |- still (fill _ _ _ _) => apply still_fill
  | |- still (link_target_result _ _ _ _ _) => apply still_link_target_result
  | |- still (nothing_read _ _) => apply still_nothing_read
  | |- still (in_terminal _) => fail 1
  | _ => still_step
  end.

(** *** Who is concerned by a call *)

Section Call.
Context (m0 : UserspaceManager) (caller parent : Z).

(** The caller, its children, and the children of its own parent. *)
Definition family (p : Process) : Prop :=
  pr_pid p = caller \/ pr_parent_pid p = caller \/ parent <> 0 /\ pr_parent_pid p = parent.

(** A slot that holds no live process outside the family. *)
Definition involved (i : nat) : Prop :=
  forall p, processes_ m0 !! i = Some p -> (i < pcount_ m0)%nat -> alive p -> family p.

#[local] Instance involved_dec i : Decision (involved i).
Proof.
  unfold involved. destruct (processes_ m0 !! i) as [p|]; [|by left].
  destruct (decide (i < pcount_ m0)%nat) as [Hc|]; [|left; intros q [= <-]; lia].
  destruct (decide (alive p)) as [Ha|]; [|left; by intros q [= <-]].
  destruct (decide (pr_pid p = caller \/ pr_parent_pid p = caller \/ parent <> 0 /\ pr_parent_pid p = parent)) as [|Hn].
  - left. by intros q [= <-].
  - right. intros Hi. apply Hn, (Hi p); done.
Defined.

Record Inv (s : System) : Prop := {
  iv_tasks : tasks_wf (s_manager s);
  iv_pids : pids_wf (s_manager s);
  iv_spares : spares involved m0 (s_manager s);
  iv_terminal : terminal_wf (s_terminal s)
}.

Definition keeps {A} (p : sys A) : Prop := forall s a s', Inv s -> p s = Some (a, s') -> Inv s'.

Lemma still_keeps {A} (p : sys A) : still p -> keeps p.
Proof.
  intros Hp s a s' [T P S W] E. destruct (Hp s a s' E) as [Ht Hw]. pose proof (same_tasks_touches involved _ _ Ht) as To.
  split; [by eapply same_tasks_wf|by eapply touches_pids_wf|etrans; [exact S|by apply touches_spares]|auto].
Qed.
Lemma keeps_bind {A B} (p : sys A) (f : A -> sys B) : keeps p -> (forall a, keeps (f a)) -> keeps (p ≫= f).
Proof.
  intros Hp Hf s b s' Hs. unfold mbind, sys_bind. destruct (p s) as [[a s1]|] eqn:E; [|done]. intros E'.
  by eapply Hf; [eapply Hp|].
Qed.
(** An operation that changes no record outside the family, whatever the state. *)
Lemma keeps_manager {A} (op : UserspaceManager -> UserspaceManager * A) :
  (forall m, tame m (op m).1 /\ touches involved m (op m).1) -> keeps (manager op).
Proof.
  intros Hop s a s' [T P S W]. unfold manager. destruct (Hop (s_manager s)) as [Ta To].
  destruct (op (s_manager s)) as [m b]. cbn [fst] in *. intros [= <- <-].
  split; cbn; [by eapply tame_wf|by eapply touches_pids_wf|etrans; [exact S|by apply touches_spares]|done].
Qed.

(** *** From the start of a call *)

Context (m1 : UserspaceManager).

Record started : Prop := {
  st_tasks : tasks_wf m1;
  st_pids : pids_wf m1;
  st_touches : touches involved m0 m1;
  st_caller : current_pid m1 = caller;
  st_parent i p : find_process m1 caller = Some (i, p) -> pr_parent_pid p = parent;
  st_next_pid : u64 (next_pid_ m1 + 1);
  st_next_tid : u64 (next_tid_ m1 + 1)
}.
Context (Hstart : started).

Definition fresh (s : System) : Prop := same_tasks m1 (s_manager s) /\ terminal_wf (s_terminal s).
Definition safe {A} (p : sys A) : Prop := forall s a s', fresh s -> p s = Some (a, s') -> Inv s'.

Lemma fresh_inv s : fresh s -> Inv s.
Proof.
  intros [T W]. pose proof (same_tasks_touches involved _ _ T) as To. destruct Hstart.
  split; [by eapply same_tasks_wf|by eapply touches_pids_wf| |done].
  etrans; apply touches_spares; [exact st_touches0|exact To].
Qed.
Lemma still_safe {A} (p : sys A) : still p -> safe p.
Proof. intros Hp s a s' Hs E. by eapply (still_keeps p Hp); [apply fresh_inv|]. Qed.
Lemma safe_look {A B} (p : sys A) (f : A -> sys B) : still p -> (forall a, safe (f a)) -> safe (p ≫= f).
Proof.
  intros Hp Hf s b s' [T W]. unfold mbind, sys_bind. destruct (p s) as [[a s1]|] eqn:E; [|done]. intros E'.
  destruct (Hp s a s1 E) as [T1 W1]. eapply Hf; [|done]. split; [by etrans|auto].
Qed.
Lemma safe_pid {B} (f : Z -> sys B) : safe (f caller) -> safe (syscall_current_pid ≫= f).
Proof.
  intros Hf s b s' Hs. unfold mbind, sys_bind, syscall_current_pid, get. destruct Hs as [T W].
  rewrite (same_tasks_pid _ _ T), (st_caller Hstart). intros E. by eapply Hf.
Qed.
Lemma safe_find {B} pid (f : option Process -> sys B) : safe (f (snd <$> find_process m1 pid)) -> safe (find_pid pid ≫= f).
Proof.
  intros Hf s b s' Hs. unfold mbind, sys_bind, find_pid, get. destruct Hs as [T W].
  rewrite (same_tasks_find _ _ pid T). intros E. by eapply Hf.
Qed.

(** The first operation of the manager, in the tables of the start. *)
Lemma safe_manager {A B} (op : UserspaceManager -> UserspaceManager * A) (f : A -> sys B) :
  (forall m, same_tasks m1 m -> tasks_wf m -> pids_wf m -> tasks_wf (op m).1 /\ touches involved m (op m).1) ->
  (forall a, keeps (f a)) -> safe (manager op ≫= f).
Proof.
  intros Hop Hf s b s' Hs. pose proof (fresh_inv s Hs) as [T P S W]. unfold mbind, sys_bind, manager.
  destruct (Hop (s_manager s) (proj1 Hs) T P) as [Ta To]. destruct (op (s_manager s)) as [m a]. cbn [fst] in *.
  intros E. eapply Hf; [|done].
  split; cbn; [done|by eapply touches_pids_wf|etrans; [exact S|by apply touches_spares]|done].
Qed.
Lemma safe_tty {A B} (op : UserspaceManager -> terminal -> UserspaceManager * terminal * A) (f : A -> sys B) :
  (forall m t, same_tasks m1 m -> tasks_wf m -> terminal_wf t ->
     tasks_wf (op m t).1.1 /\ touches involved m (op m t).1.1 /\ terminal_wf (op m t).1.2) ->
  (forall a, keeps (f a)) -> safe (with_tty op ≫= f).
Proof.
  intros Hop Hf s b s' Hs. pose proof (fresh_inv s Hs) as [T P S W]. unfold mbind, sys_bind, with_tty.
  destruct (Hop (s_manager s) (s_terminal s) (proj1 Hs) T W) as (Ta & To & Tt).
  destruct (op (s_manager s) (s_terminal s)) as [[m t] a]. cbn [fst snd] in *. intros E. eapply Hf; [|done].
  split; cbn; [done|by eapply touches_pids_wf|etrans; [exact S|by apply touches_spares]|done].
Qed.

(** *** Whose records an operation may change *)

Lemma start_slot (Q : Process -> Prop) m i p : same_tasks m1 m ->
  (forall p, Q p -> alive p -> family p) -> processes_ m !! i = Some p -> (i < pcount_ m)%nat -> Q p -> involved i.
Proof.
  intros T HQ Hp Hc Hq. assert (T2 : touches involved m0 m).
  { etrans; [apply (st_touches Hstart)|by apply same_tasks_touches]. }
  apply (related_slot m0 _ Q m i p); [|exact T2|done..]. intros j q Hj Hjc Hqq q' Hq' _ Ha. assert (q' = q) as -> by congruence. auto.
Qed.

Lemma allowed_caller m : same_tasks m1 m -> allowed involved caller m.
Proof. intros T i p Hp Hc E. by apply (start_slot (fun p => pr_pid p = caller) m i p T); [intros ? ? ?; left|..]. Qed.

Lemma allowed_found (Q : Process -> Prop) pid i p m : same_tasks m1 m -> find_process m1 pid = Some (i, p) ->
  (forall p, Q p -> alive p -> family p) -> Q p -> allowed involved pid m.
Proof.
  intros T Hf HQ Hq. pose proof Hf as (Hp & Hc & E & _)%list_find_take. rewrite <-E.
  assert (Hm : processes_ m !! i = Some p /\ (i < pcount_ m)%nat) by (destruct T as (-> & -> & _); done).
  destruct Hm as [Hm Hmc]. apply (allowed_slot i); [|done..|by eapply start_slot].
  eapply touches_pids_wf; [by apply (same_tasks_touches involved)|apply (st_pids Hstart)].
Qed.

Lemma allowed_child pid i p m : same_tasks m1 m -> find_process m1 pid = Some (i, p) -> pr_parent_pid p = caller ->
  allowed involved pid m.
Proof. intros T Hf Hp. eapply (allowed_found (fun p => pr_parent_pid p = caller)); [done..| |done]. intros q Hq _. by right; left. Qed.
Lemma allowed_sibling pid i p m : same_tasks m1 m -> find_process m1 pid = Some (i, p) -> parent <> 0 -> pr_parent_pid p = parent ->
  allowed involved pid m.
Proof. intros T Hf Hn Hp. eapply (allowed_found (fun p => pr_parent_pid p = parent)); [done..| |done]. intros q Hq _. by right; right. Qed.

Lemma touches_reap_any pid m : same_tasks m1 m -> touches involved m (reap_exited pid m).1.
Proof.
  intros T. destruct (find_process m pid) as [[i p]|] eqn:E; [|unfold reap_exited; by rewrite E].
  destruct (decide (pr_state p = ProcExited)) as [Hs|Hs]; [|unfold reap_exited; by rewrite E, decide_False].
  apply touches_reap. rewrite (same_tasks_find _ _ pid T) in E.
  apply (allowed_found (fun p => pr_state p = ProcExited) pid i p); [done..| |done]. intros q Hq [_ Ha]. done.
Qed.

(** *** The handlers *)

Ltac answered := intros ?; apply still_keeps; still_all.
Ltac look := apply safe_look; [solve [still_all]|intros ?].
Ltac safe_step :=
  match goal with
  | |- safe (syscall_current_pid ≫= _) => apply safe_pid
  | |- safe (find_pid _ ≫= _) => apply safe_find
  | |- safe (with_pid _) => unfold with_pid
  | |- safe (with_path _ _ _ _) => unfold with_path
  | |- safe (match ?x with _ => _ end) => destruct x eqn:?
  | _ => look
  end.

(** The operation given by [lem] on what [who] allows, which the invariant of the tables survives by [wf]. *)
Ltac operate := apply safe_manager; [intros m T Hw Hp|answered].

Lemma still_to_terminal bytes : still (count ← in_terminal (Terminal.write bytes); mret (ok_value count) : sys SyscallResult).
Proof. apply still_bind; [apply still_terminal, write_wf|intros ?; apply still_ret]. Qed.

Lemma safe_terminal n a0 a1 a2 a3 : safe (dispatch_terminal root n a0 a1 a2 a3).
Proof.
  destruct n; try exact (still_safe _ (still_ret _)).
  - apply still_safe. cbn [dispatch_terminal]. apply still_bind; [|intros ?; still_all].
    apply still_terminal. intros t. apply read_key_wf. lia.
  - cbn [dispatch_terminal]. destruct (negb _ && _); [apply still_safe; still_all|].
    destruct (if _ && _ then _ else _) as [data len]. look. destruct (negb _); [apply still_safe; still_all|]. look.
    destruct (_ || _); [|apply still_safe, still_to_terminal]. apply safe_pid.
    destruct (caller =? 0); [apply still_safe, still_to_terminal|]. apply safe_tty.
    + intros m t T Hw Ht. split; [|split; [|by apply write_file_wf]].
      * by apply (tame_wf m); [apply (tame_write_file (H1:=system_tty))|].
      * by apply (touches_write_file (H1:=system_tty)), allowed_caller.
    + intros count. apply still_keeps. still_all; apply still_terminal, write_wf.
  - apply still_safe. cbn [dispatch_terminal]. still_all; apply still_terminal; intros t Hw.
    + exact (terminal_op_wf (OpScroll _) t I Hw).
    + exact (terminal_op_wf OpBottom t I Hw).
    + exact (terminal_op_wf (OpSetMode _) t I Hw).
    + by apply inject_wf.
    + exact (terminal_op_wf OpReset t I Hw).
Qed.

(** An operation on the records of the caller alone. *)
Tactic Notation "own" uconstr(tame) uconstr(touched) :=
  operate; split; [eapply tame_wf; [apply tame|assumption]|apply touched, allowed_caller; assumption].

Lemma safe_process_state n a0 a1 a2 a3 : safe (dispatch_process_state root may_store n a0 a1 a2 a3).
Proof.
  destruct n; try exact (safe_terminal _ a0 a1 a2 a3); cbn [dispatch_process_state].
  1-2, 4-7: unfold with_pid; apply still_safe; still_all.
  all: repeat safe_step; try (apply still_safe; still_all; fail).
  - own tame_set_current_directory touches_set_current_directory.
  - own (tame_run_environment caller (SetVariable c c0)) touches_on_environment.
  - own (tame_run_environment caller (UnsetVariable c)) touches_on_environment.
Qed.

Lemma safe_info n a0 a1 a2 a3 : safe (dispatch_info root may_store n a0 a1 a2 a3).
Proof.
  destruct n; try exact (safe_process_state _ a0 a1 a2 a3); apply still_safe; cbn [dispatch_info]; still_all.
Qed.

Lemma keeps_gate {A} (f : bool -> sys A) : (forall a, still (f a)) -> keeps (manager update_user_preemption_gate ≫= f).
Proof.
  intros Hf. apply keeps_bind; [apply keeps_manager; intros m; split; [apply tame_gate|apply touches_gate]|].
  intros a. by apply still_keeps.
Qed.

Lemma safe_system n a0 a1 a2 a3 : safe (dispatch_system root may_store n a0 a1 a2 a3).
Proof.
  destruct n; try exact (safe_info _ a0 a1 a2 a3); cbn [dispatch_system];
    try (apply still_safe; still_all; fail).
  - safe_step; [apply still_safe; still_all|]. operate. split; [eapply tame_wf; [apply tame_select|done]|apply touches_select].
  - unfold with_pid. repeat safe_step; try (apply still_safe; still_all; fail).
    + operate. split; [by eapply wf_same|by apply touches_same].
    + operate. split; [eapply tame_wf; [apply tame_gate|done]|apply touches_gate].
Qed.

Lemma find_alive_found m pid i p : find_alive m pid = Some (i, p) -> find_process m pid = Some (i, p).
Proof. intros ([j q] & E & Ha)%bind_Some. case_decide; by simplify_eq. Qed.

Lemma touches_set_group_any pid g m : same_tasks m1 m -> touches involved m (set_process_group caller pid g m).1.
Proof.
  intros T. unfold set_process_group. case_match; [done|]. dmatch as [[i p]|] eqn E; [|done].
  destruct (negb _ && _) eqn:Hrel; [done|]. cbn [fst]. apply find_alive_found in E as (Hi & Hc & _)%list_find_take.
  apply touches_on_process; [|done].
  apply (start_slot (fun p => pr_pid p = caller \/ pr_parent_pid p = caller) m i p T); [|done|done|lia].
  intros q [Hq|Hq] _; [by left|by right; left].
Qed.

Lemma start_related m (Q : Process -> Prop) : same_tasks m1 m -> (forall p, Q p -> alive p -> family p) ->
  forall i p, processes_ m0 !! i = Some p -> (i < pcount_ m0)%nat -> Q p -> involved i.
Proof. intros T HQ i p Hp Hc Hq q Hq' _ Ha. assert (q = p) as -> by congruence. auto. Qed.

Lemma start_touches m : same_tasks m1 m -> touches involved m0 m.
Proof. intros T. etrans; [apply (st_touches Hstart)|by apply same_tasks_touches]. Qed.

Lemma safe_tasks n a0 a1 a2 a3 : safe (dispatch_tasks root may_store n a0 a1 a2 a3).
Proof.
  destruct n; try exact (safe_system _ a0 a1 a2 a3); cbn [dispatch_tasks]; unfold with_pid;
    try (apply still_safe; still_all; fail);
    repeat safe_step; try (apply still_safe; still_all; fail).
  - operate. split; [by apply wf_exit|by apply touches_exit, allowed_caller].
  - apply fmap_Some in Heqo as ([i q] & Hf & ->). cbn [snd] in *. operate. split; [by apply wf_exit|]. apply touches_exit.
    assert (pr_pid q = a0) as -> by (by apply list_find_take in Hf as (_ & _ & ? & _)).
    destruct (Z.eqb_spec (pr_parent_pid q) caller) as [Hd|Hd]; [by eapply allowed_child|].
    destruct (find_process m1 caller) as [[j r]|] eqn:Hr; [|done]. cbn in Heqb0.
    pose proof (st_parent Hstart j r Hr) as <-. eapply allowed_sibling; [done..| |]; lia.
  - operate. split; [eapply tame_wf; [apply tame_set_process_group|done]|by apply touches_set_group_any].
  - operate. split; [by apply wf_kill|].
    apply (touches_kill_group caller m0 _ a0 z p0 m parent); [|intros i q Hi|by apply start_touches|done].
    + apply (start_related m (fun p => pr_parent_pid p = caller \/ parent <> 0 /\ pr_parent_pid p = parent) T).
      intros q Hq _. by right.
    + apply find_alive_found in Hi. rewrite (same_tasks_find _ _ _ T) in Hi. by apply (st_parent Hstart) in Hi.
  - apply fmap_Some in Heqo as ([i q] & Hf & ->). cbn [snd] in *.
    apply safe_manager; [intros m T Hw Hp|intros ok; destruct (negb ok); [apply still_keeps, still_ret|apply keeps_gate; intros ?; still_all]].
    split; [eapply tame_wf; [apply tame_mark_runnable|done]|]. apply touches_mark_runnable. eapply allowed_child; [done..|lia].
  - operate. split; [eapply tame_wf; [apply tame_set_foreground|done]|apply touches_set_foreground].
  - operate. split; [by apply wf_stop|]. apply (touches_stop_group caller m0 _); [|by apply start_touches|done].
    apply (start_related m (fun p => pr_parent_pid p = caller) T). intros p Hp2 _. by right; left.
  - apply safe_manager; [intros m T Hw Hp|intros k; destruct (k =? 0); [apply still_keeps, still_ret|apply keeps_gate; intros ok; still_all]].
    split; [by apply wf_continue|]. apply (touches_continue_group caller m0 _); [|by apply start_touches|done].
    apply (start_related m (fun p => pr_parent_pid p = caller) T). intros p Hp2 _. by right; left.
Qed.

(** *** A new process *)

Section New.
Context (pid : Z).

Definition grown (s : System) : Prop := Inv s /\ allowed involved pid (s_manager s).
Definition grows {A} (p : sys A) : Prop := forall s a s', grown s -> p s = Some (a, s') -> grown s'.

Lemma still_grows {A} (p : sys A) : still p -> grows p.
Proof.
  intros Hp s a s' [Hi Ha] E. split; [by eapply still_keeps|]. destruct (Hp s a s' E) as [T _].
  eapply allowed_touches; [by apply same_tasks_touches|done].
Qed.
Lemma grows_bind {A B} (p : sys A) (f : A -> sys B) : grows p -> (forall a, grows (f a)) -> grows (p ≫= f).
Proof.
  intros Hp Hf s b s' Hs. unfold mbind, sys_bind. destruct (p s) as [[a s1]|] eqn:E; [|done]. intros E'.
  by eapply Hf; [eapply Hp|].
Qed.
Lemma grows_manager {A} (op : UserspaceManager -> UserspaceManager * A) :
  (forall m, tame m (op m).1) -> (forall m, allowed involved pid m -> touches involved m (op m).1) -> grows (manager op).
Proof.
  intros Ht Hop s a s' [[T P S W] Ha]. unfold manager. specialize (Ht (s_manager s)). specialize (Hop _ Ha).
  destruct (op (s_manager s)) as [m b]. cbn [fst] in *. intros [= <- <-]. split; [|by eapply allowed_touches].
  split; cbn; [by eapply tame_wf|by eapply touches_pids_wf|etrans; [exact S|by apply touches_spares]|done].
Qed.

Ltac grow :=
  match goal with
  | |- grows (mbind _ _) => apply grows_bind; [|intros ?]
  | |- grows (manager (set_parent _ _)) => apply grows_manager; [intros; apply tame_set_parent|apply touches_set_parent]
  | |- grows (manager (set_current_directory _ _)) =>
    apply grows_manager; [intros; apply tame_set_current_directory|apply touches_set_current_directory]
  | |- grows (manager (inherit_environment _ _)) =>
    apply grows_manager; [intros; apply tame_inherit_environment|apply touches_inherit_environment]
  | |- grows (manager (inherit_standard_fds _ _)) =>
    apply grows_manager; [intros; apply tame_inherit_fds|apply touches_inherit_fds]
  | |- grows (manager (set_environment _ _)) => apply grows_manager; [intros; apply tame_set_environment|apply touches_set_environment]
  | |- grows (manager (set_arguments _ _)) => apply grows_manager; [intros; apply tame_set_arguments|apply touches_set_arguments]
  | |- grows (manager (mark_runnable _)) => apply grows_manager; [intros; apply tame_mark_runnable|apply touches_mark_runnable]
  | |- grows auto_enable_user_preemption_if_competing =>
    apply grows_manager; [intros; apply tame_gate|intros; apply touches_gate]
  | |- grows (match ?x with _ => _ end) => destruct x
  | _ => solve [apply still_grows; still_all]
  end.

Lemma grows_adopt parent_pid : grows (adopt pid parent_pid).
Proof. unfold adopt. repeat grow. Qed.
Lemma grows_settle args flags : grows (settle pid args flags).
Proof.
  unfold settle. apply grows_bind; [apply still_grows; still_all|intros parent_pid].
  apply grows_bind; [apply grows_adopt|intros _]. repeat grow.
Qed.
End New.

Lemma safe_spawn_process path args flags : safe (spawn_process path args flags).
Proof.
  unfold spawn_process. look. destruct a as [node|]; [|apply still_safe, still_ret].
  destruct (negb _); [apply still_safe, still_ret|]. intros s a s' Hs. pose proof Hs as [T W].
  unfold mbind at 1, sys_bind at 1.
  destruct (load_process _ _ _ _ _) as [[l m] slot] eqn:El. set (s1 := s <| s_loader := l |> <| s_manager := m |>).
  assert (Hempty : forall i p, processes_ (s_manager s) !! i = Some p -> pr_state p = ProcEmpty -> involved i).
  { intros i p Hp He. destruct (decide (i < pcount_ (s_manager s))%nat) as [Hc|Hc].
    - apply (start_slot (fun p => pr_state p = ProcEmpty) _ i p T); [|done..]. intros q Hq [Ha _]. done.
    - intros q _ Hq _. rewrite <-(to_count _ _ _ (start_touches _ T)) in Hq. done. }
  assert (Hcount : forall i, (pcount_ (s_manager s) <= i)%nat -> involved i).
  { intros i Hi q _ Hq _. rewrite <-(to_count _ _ _ (start_touches _ T)) in Hq. lia. }
  destruct (fresh_inv s Hs) as [Ht Hp Hsp _].
  assert (Enp : next_pid_ (s_manager s) = next_pid_ m1 /\ next_tid_ (s_manager s) = next_tid_ m1) by (by destruct T as (_ & _ & ? & _ & _ & ? & _)).
  destruct Enp as [Enp Ent].
  destruct (load_law _ _ _ _ _ _ _ _ El) as [[-> ->]|(make & Hnew & Epub)].
  2: assert (Hmake : forall pid, pr_pid (make pid) = pid) by (intros; apply Hnew).
  { intros [= <- <-]. by split. }
  assert (Hinv : Inv s1).
  { split; cbn; [|eapply publish_pids_wf; [exact Hmake|exact Epub|done|rewrite Enp; apply Hstart]| |done].
    - pose proof (wf_publish true make (s_manager s)) as Hwp. rewrite Epub in Hwp. apply Hwp; [done|]. rewrite Ent. apply Hstart.
    - etrans; [exact Hsp|]. eapply publish_spares; [exact Epub|done..]. }
  destruct slot as [i|]; [|intros [= <- <-]; done].
  destruct (publish_allowed true make Hmake _ _ _ Epub involved i Hp ltac:(rewrite Enp; apply Hstart) eq_refl Hempty Hcount)
    as (Hal & p & Hpi & Epid).
  unfold mbind at 1, sys_bind at 1, get at 1. cbn [s_manager s1]. change (s_manager s1) with m. cbn [mbind option_bind].
  rewrite Hpi, Epid. intros E.
  by destruct (grows_settle _ args flags s1 a s' (conj Hinv Hal) E).
Qed.

Lemma safe_child pid k : (forall i p, find_process m1 pid = Some (i, p) -> pr_parent_pid p = caller -> safe k) -> safe (with_child pid k).
Proof.
  intros Hk. unfold with_child. apply safe_pid, safe_find. destruct (find_process m1 pid) as [[i p]|] eqn:E; cbn; [|apply still_safe, still_ret].
  destruct (_ || _) eqn:Hd; [apply still_safe, still_ret|]. apply (Hk i p eq_refl). lia.
Qed.

Lemma safe_then {A B} (p : sys A) (f : A -> sys B) : safe p -> (forall a, keeps (f a)) -> safe (p ≫= f).
Proof.
  intros Hp Hf s b s' Hs. unfold mbind, sys_bind. destruct (p s) as [[a s1]|] eqn:E; [|done]. intros E'.
  by eapply Hf; [eapply Hp|].
Qed.

(** An operation on the records of a child. *)
Tactic Notation "child" uconstr(tame) uconstr(touched) :=
  operate; split; [eapply tame_wf; [apply tame|assumption]|apply touched; eapply allowed_child; eassumption].

Lemma safe_spawn n a0 a1 a2 a3 : safe (dispatch_spawn root may_store n a0 a1 a2 a3).
Proof.
  destruct n; try exact (safe_tasks _ a0 a1 a2 a3); cbn [dispatch_spawn]; unfold with_path, with_pid.
  - look. destruct a as [command|]; [|apply still_safe, still_ret].
    destruct (parse_spawn_arguments _ _) as [[b args]|]; [|apply still_safe, still_fault].
    destruct (string_at b <$> args) as [|path rest]; [apply still_safe, still_ret|]. look.
    destruct (negb _); [apply still_safe, still_ret|]. apply safe_then; [apply safe_spawn_process|].
    intros [pid|]; apply still_keeps; still_all.
  - look. destruct a as [path|]; [|apply still_safe, still_ret]. apply safe_child. intros i p Hf Hpar.
    child tame_redirect touches_redirect.
  - look. destruct a as [path|]; [|apply still_safe, still_ret]. apply safe_child. intros i p Hf Hpar.
    child tame_redirect_append touches_redirect_append.
  - repeat safe_step; [apply still_safe, still_ret|]. operate. split; [eapply tame_wf; [apply tame_create_pipe|done]|apply touches_create_pipe].
  - apply safe_child. intros i p Hf Hpar. child tame_attach touches_attach.
  - repeat safe_step; [apply still_safe, still_ret|]. operate. split; [eapply tame_wf; [apply tame_cleanup|done]|apply touches_cleanup].
Qed.

Lemma safe_read_descriptor fd buffer size : 0 <= size -> safe (read_descriptor root may_store caller fd buffer size).
Proof.
  intros Hs. unfold read_descriptor. apply safe_tty; [intros m t T Hw Ht; split; [|split; [|by apply read_file_wf]]|answered].
  - eapply tame_wf; [apply (tame_read_file (H1:=system_tty))|done].
  - by apply (touches_read_file (H1:=system_tty)), allowed_caller.
Qed.

(** An operation on names. *)
Tactic Notation "named" uconstr(tame) uconstr(touched) :=
  operate; split; [eapply tame_wf; [apply tame|assumption]|apply touched].

Lemma safe_write_file fd bytes (f : Z -> sys SyscallResult) : (forall n, still (f n)) -> safe (with_tty (write_file caller fd bytes) ≫= f).
Proof.
  intros Hf. apply safe_tty; [|intros n; by apply still_keeps]. intros m t T Hw Ht. split; [|split; [|by apply write_file_wf]].
  - eapply tame_wf; [apply (tame_write_file (H1:=system_tty))|done].
  - by apply (touches_write_file (H1:=system_tty)), allowed_caller.
Qed.

Lemma safe_files n a0 a1 a2 a3 : 0 <= a2 -> safe (dispatch_files root may_store n a0 a1 a2 a3).
Proof.
  intros H2. destruct n; try exact (safe_spawn _ a0 a1 a2 a3); cbn [dispatch_files]; unfold with_path, with_pid;
    repeat safe_step; try (apply still_safe; still_all; fail); try by apply safe_read_descriptor.
  - own tame_open_file touches_open_file.
  - apply still_safe. apply still_bind; [apply still_terminal; intros t; by apply read_input_wf|intros ?; still_all].
  - own tame_close_file touches_close_file.
  - own tame_seek touches_seek.
  - named tame_on_path touches_on_path.
  - apply safe_write_file. intros count. still_all.
  - named tame_on_path touches_on_path.
  - named tame_on_path touches_on_path.
  - named tame_on_path touches_on_path.
  - own tame_duplicate touches_duplicate.
  - own tame_duplicate_to touches_duplicate_to.
  - named tame_on_paths touches_on_paths.
  - named tame_on_path touches_on_path.
  - named tame_on_paths touches_on_paths.
Qed.

Lemma safe_vfs n a0 a1 a2 a3 : 0 <= a2 -> safe (dispatch_vfs root may_store n a0 a1 a2 a3).
Proof.
  intros H2. destruct n; try exact (safe_files _ a0 a1 a2 a3 H2); cbn [dispatch_vfs]; unfold with_path;
    try (apply still_safe; still_all; fail).
  destruct (_ || _ || _); [apply still_safe, still_ret|]. apply safe_tty; [|answered].
  intros m t T Hw Ht. pose proof (read_handle_wf (w32 a0) a2 (k_vfs m) t H2 Ht) as Hr.
  destruct (read_handle _ _ _ _) as [[v t'] bytes]. cbn in *. split_and!; [by eapply wf_same|by apply touches_same|done].
Qed.

Lemma safe_number n a0 a1 a2 a3 : 0 <= a2 -> safe (dispatch_number root may_store n a0 a1 a2 a3).
Proof.
  intros H2. destruct n; try exact (safe_vfs _ a0 a1 a2 a3 H2); cbn [dispatch_number]; try (apply still_safe; still_all; fail).
  - apply still_safe. apply still_bind; [|intros ?; still_all]. by intros s a s' [= <- <-].
  - operate. split; [by apply wf_reap|by apply touches_reap_any].
Qed.
End Call.

(** *** A whole call *)

(** The pid of the parent of a process, 0 when there is none. *)
Definition parent_of (m : UserspaceManager) (pid : Z) : Z :=
  match find_process m pid with Some (_, p) => pr_parent_pid p | None => 0 end.

Lemma record_started number m : tasks_wf m -> pids_wf m -> u64 (next_pid_ m + 1) -> u64 (next_tid_ m + 1) ->
  started m (current_pid m) (parent_of m (current_pid m)) (record_current_syscall number m).1.
Proof.
  intros Hw Hp Hn Ht. set (I := involved m (current_pid m) (parent_of m (current_pid m))).
  assert (touches I m (record_current_syscall number m).1) as To.
  { apply touches_record; [done|]. intros i p Hi Hc E q Hq _ _. left. congruence. }
  split; [by eapply tame_wf; [apply tame_record_syscall|]|by eapply touches_pids_wf|done|apply record_current_pid| | |].
  - intros i p. destruct (record_find number (current_pid m) m) as (j & f & Hf & ->). unfold parent_of.
    destruct (find_process m _) as [[k q]|]; [|done]. cbn. case_decide; by intros [= <- <-].
  - by rewrite (to_next _ _ _ To).
  - unfold record_current_syscall. repeat case_match; done.
Qed.

Lemma dispatch_inv number a0 a1 a2 a3 s r s' :
  tasks_wf (s_manager s) -> pids_wf (s_manager s) -> terminal_wf (s_terminal s) ->
  u64 (next_pid_ (s_manager s) + 1) -> u64 (next_tid_ (s_manager s) + 1) -> 0 <= a2 ->
  dispatch root may_store number a0 a1 a2 a3 s = Some (r, s') ->
  Inv (s_manager s) (current_pid (s_manager s)) (parent_of (s_manager s) (current_pid (s_manager s))) s'.
Proof.
  intros Hw Hp Ht Hn Hn' H2. pose proof (record_started number _ Hw Hp Hn Hn') as Hs.
  unfold dispatch, mbind, sys_bind, manager at 1.
  destruct (record_current_syscall number (s_manager s)) as [m1 ok]. cbn [fst] in Hs.
  assert (fresh m1 (s <| s_manager := m1 |>)) as Hf by done.
  destruct (number_of number) as [n|]; intros E.
  - by eapply (safe_number _ _ _ m1 Hs n a0 a1 a2 a3 H2).
  - by eapply (still_safe _ _ _ m1 Hs (error _) (still_ret _)).
Qed.
End Safety.
