(* ===== verification/KernelSteps.v ===== *)
(** * The kernel as a state machine

    The entries of the kernel one after the other: system calls with any registers, ticks of
    the timer, keys, and what the kernel itself starts.  In every state that is reached the
    tables of processes and threads and the terminal are well formed, so that the theorems
    about them that assume this apply to the running system. *)

From stdpp Require Import strings.
From Stdlib Require Import ZifyBool.
From S2P Require Import Prelude Pmm PageTable PmmFrames Vmm AddressSpace UserLoad UserCreate.
From S2P Require Import Path UserLib SpawnArgs Scheduler Terminal Vfs Userspace UserFiles UserDemo UserEnv UserImage.
From S2P Require Import UserSwitch UserTasks UserFamily Syscall SyscallSafety.
#[local] Open Scope Z_scope.

(** The numbers in use stay the same, whoever is concerned. *)
Record numbered (m m' : UserspaceManager) : Prop := {
  nu_touches : touches (fun _ => True) m m';
  nu_next : next_tid_ m' = next_tid_ m
}.
#[export] Instance numbered_refl : Reflexive numbered.
Proof. by split. Qed.
#[export] Instance numbered_trans : Transitive numbered.
Proof. intros a b c [T1 N1] [T2 N2]. split; [by etrans|congruence]. Qed.

Lemma numbered_tame m m' : tame m m' -> touches (fun _ => True) m m' -> numbered m m'.
Proof. intros T To. by split; [|apply tm_next]. Qed.
Lemma numbered_same m m' : processes_ m' = processes_ m -> pcount_ m' = pcount_ m -> next_pid_ m' = next_pid_ m ->
  next_tid_ m' = next_tid_ m -> numbered m m'.
Proof. intros. split; [by apply touches_same|done]. Qed.
Lemma allowed_anyone pid m : allowed (fun _ => True) pid m.
Proof. done. Qed.

Section Frames.
Context `{Machine}.

Lemma numbered_save tid f m : numbered m (save_frame tid f m).1.
Proof.
  apply numbered_tame; [apply tame_save_frame|]. unfold save_frame, save_active_thread_frame.
  repeat case_match; simplify_eq/=; by apply touches_same.
Qed.
Lemma numbered_mark m : numbered m (mark_active_thread_runnable m).1.
Proof. unfold mark_active_thread_runnable. repeat case_match; by apply numbered_same. Qed.
Lemma numbered_select m : numbered m (select_next_runnable_thread m).1.
Proof. apply numbered_tame; [apply tame_select|apply touches_select]. Qed.
Lemma numbered_gate m : numbered m (update_user_preemption_gate m).1.
Proof. apply numbered_tame; [apply tame_gate|apply touches_gate]. Qed.
Lemma numbered_on_process i f m : (forall p, pr_pid (f p) = pr_pid p) -> numbered m (on_process i f m).
Proof. intros Hf. split; [by apply touches_on_process|done]. Qed.
Lemma numbered_activate tid m : numbered m (activate_thread tid m).1.
Proof.
  unfold activate_thread. dmatch as [[k t]|]; [|done]. case_decide; [|done]. dmatch as [[i p]|]; [|done].
  fold (set_aside tid m). assert (numbered m (set_aside tid m)) as Hs.
  { apply numbered_tame; [apply tame_set_aside|]. unfold set_aside. repeat case_match; by apply touches_same. }
  etrans; [exact Hs|]. generalize (set_aside tid m). intros m1. cbn zeta. set (m2 := on_thread k _ m1).
  trans m2; [by apply numbered_same|]. set (m3 := on_process i _ m2). trans m3; [by apply numbered_on_process|].
  clearbody m3. cbn [fst]. case_match; by apply numbered_same.
Qed.
Lemma numbered_preempt_switch a b m : numbered m (note_user_preempt_switch a b m).1.
Proof.
  apply numbered_tame; [apply tame_preempt_switch|]. unfold note_user_preempt_switch. repeat (case_match; try done).
  cbn [fst]. set (m1 := on_thread _ _ m). trans m1; [by apply touches_same|]. set (m2 := on_process _ _ m1).
  trans m2; [by apply touches_on_process|by apply touches_same].
Qed.
Lemma numbered_user_tick m : numbered m (note_current_user_tick m).1.
Proof.
  apply numbered_tame; [apply tame_user_tick|]. unfold note_current_user_tick. repeat (case_match; try done).
  cbn [fst]. set (m1 := on_thread _ _ m). trans m1; [by apply touches_same|]. set (m2 := on_process _ _ m1).
  trans m2; [by apply touches_on_process|by apply touches_same].
Qed.
Lemma numbered_timeslice m : numbered m (user_timeslice_expired m).1.
Proof. unfold user_timeslice_expired. repeat case_match; by apply numbered_same. Qed.
Lemma numbered_wake_sleepers now m : numbered m (wake_sleepers now m).1.
Proof.
  apply numbered_tame; [apply tame_wake_sleepers|]. unfold wake_sleepers. case_match; [done|]. unfold wake_threads.
  apply (touches_for_each fst _ _ (m, 0)). intros i [m1 w]. cbn. destruct (uthreads_ m1 !! i) as [t|]; [|done]. cbn.
  case_match eqn:Hb; [|done]. cbn. unfold wake_sleeper in Hb. case_decide; [|done].
  apply bind_Some in Hb as ([? ?] & _ & [= <-]). by apply touches_same.
Qed.
Lemma numbered_exit `{Kernel} pid code reason m : tasks_wf m -> numbered m (exit_process pid code reason m).1.
Proof.
  intros Hw. split; [by apply touches_exit|]. unfold exit_process. dmatch as [[i p]|]; [|done].
  rewrite (tm_next _ _ (tame_gate _)). destruct (mark_exited_spec i code reason (pr_main_thread_id p) m Hw) as [Ht _].
  unfold forget_active. set (m1 := mark_exited _ _ _ _ m) in *.
  rewrite <-(tm_next _ _ Ht), <-(tm_next _ _ (tame_wake_pipes false true (held_pipes PipeRead p) m1)).
  set (m2 := wake_pipes false true _ m1).
  rewrite <-(tm_next _ _ (tame_wake_pipes true false (held_pipes PipeWrite p) m2)). set (m3 := wake_pipes true false _ m2).
  rewrite <-(tm_next _ _ (tame_wake_process_waiters (pr_pid p) code m3)). by repeat case_match.
Qed.

(** The state that a call leaves, and what is left to do from there. *)
Ltac numbered_call lem :=
  let H := fresh "Hn" in
  pose proof lem as H;
  match type of H with
  | numbered _ (fst ?e) => destruct e as [? ?]; cbn [fst] in H; etrans; [exact H|]; clear H
  end.

Lemma numbered_switch preempted c m : numbered m (switch_from_frame preempted c m).1.1.
Proof.
  unfold switch_from_frame. case_match; [done|]. case_match; [done|].
  numbered_call (numbered_save (current_tid m) (cpu_frame c) m). case_match; [done|].
  numbered_call (numbered_mark u). case_match; [done|]. numbered_call (numbered_select u0).
  destruct o as [next|]; [|apply numbered_activate]. case_match; [apply numbered_activate|].
  numbered_call (numbered_activate (lc_tid next) u1). case_match; [apply numbered_activate|].
  set (m5 := if preempted then _ else u2).
  trans m5; [unfold m5; destruct preempted; [apply numbered_preempt_switch|done]|].
  clearbody m5. dmatch as [[k t]|]; [done|apply numbered_activate].
Qed.
Lemma numbered_block rdx gate with_tick timer block c m :
  (forall m, numbered m (timer m)) -> (forall m, numbered m (block m).1) ->
  numbered m (block_from_frame rdx gate with_tick timer block c m).1.1.
Proof.
  intros Htimer Hblock. unfold block_from_frame. generalize (current_tid m). intros tid.
  numbered_call (numbered_select m). destruct o as [next|]; [|done]. case_match; [done|].
  dmatch as [[n t]|]; [|done]. etrans; [apply Htimer|]. generalize (timer u). intros m1.
  match goal with |- context [save_frame tid ?f m1] => numbered_call (numbered_save tid f m1) end. case_match; [done|].
  numbered_call (Hblock u0). case_match; [done|]. numbered_call (numbered_activate (lc_tid next) u1). case_match.
  - repeat case_match; by apply numbered_same.
  - destruct gate; [|done]. numbered_call (numbered_gate u2). by case_match.
Qed.
Lemma numbered_lapic_tick now c m : numbered m (lapic_tick now c m).1.
Proof.
  unfold lapic_tick. set (m1 := if from_user _ then _ else m).
  trans m1; [unfold m1; case_match; [apply numbered_user_tick|done]|]. clearbody m1.
  etrans; [apply (numbered_wake_sleepers now)|]. generalize (wake_sleepers now m1).1. intros m2. case_match; [|done].
  numbered_call (numbered_timeslice m2). destruct b; [|done]. pose proof (numbered_switch true c u) as Hs.
  unfold preempt_user_thread_from_frame. by destruct (switch_from_frame true c u) as [[? ?] ?].
Qed.
Lemma numbered_block_pipe w fd c m : numbered m (block_user_pipe_syscall_from_frame w fd c m).1.1.
Proof.
  unfold block_user_pipe_syscall_from_frame. case_match; [done|]. case_match; [|done].
  apply numbered_block; [done|]. intros m1. unfold block_active_thread_on_pipe.
  repeat case_match; by apply numbered_same.
Qed.
Lemma numbered_block_wait pid c m : numbered m (block_user_wait_syscall_from_frame pid c m).1.1.
Proof.
  unfold block_user_wait_syscall_from_frame. case_match; [done|]. apply numbered_block; [done|]. intros m1.
  unfold block_active_thread_on_process. repeat case_match; by apply numbered_same.
Qed.
Lemma numbered_block_any c m : numbered m (block_user_wait_any_syscall_from_frame c m).1.1.
Proof.
  unfold block_user_wait_any_syscall_from_frame. case_match; [done|]. apply numbered_block; [done|]. intros m1.
  unfold block_active_thread_on_any_process. repeat case_match; by apply numbered_same.
Qed.
Lemma numbered_block_sleep now d c m : numbered m (block_user_sleep_syscall_from_frame now d c m).1.1.
Proof.
  unfold block_user_sleep_syscall_from_frame. case_match; [done|].
  apply numbered_block; intros m1; [|unfold block_active_thread_until]; repeat case_match; by apply numbered_same.
Qed.
Lemma numbered_exit_frame `{Kernel} code c m : tasks_wf m -> numbered m (exit_user_thread_from_frame code c m).1.1.
Proof.
  intros Hw. unfold exit_user_thread_from_frame. case_match; [done|]. case_match; [done|].
  numbered_call (numbered_exit (current_pid m) code Exited m Hw). case_match; [done|].
  numbered_call (numbered_select u). destruct o as [next|]; [|done].
  numbered_call (numbered_activate (lc_tid next) u0). repeat case_match; done.
Qed.
End Frames.

(** ** The machine *)

Section Steps.
Context `{Machine} {kernel : Kernel} {L R : Type} {loader : Loader L} {loader_laws : LoaderLaws L} `{Services R}.

Local Abbreviation System := (System L R).
Local Abbreviation sys := (sys L R).

Record system_wf (s : System) : Prop := {
  sw_tasks : tasks_wf (s_manager s);
  sw_pids : pids_wf (s_manager s);
  sw_terminal : terminal_wf (s_terminal s)
}.

(** Identifiers are left for one more process and its thread. *)
Definition ids_left (s : System) : Prop := u64 (next_pid_ (s_manager s) + 1) /\ u64 (next_tid_ (s_manager s) + 1).

(** One entry of the kernel: a system call with any registers, a tick of the timer, a key,
    or a process that the kernel itself loads, starts or resumes; between them the parts of
    the kernel that are not modelled do as they like. *)
Inductive kernel_step : System * keyboard -> System * keyboard -> Prop :=
| step_call s k may_store c c' s' : ids_left s -> 0 <= f_rdx (cpu_frame c) ->
    syscall_interrupt (cpu_cr3 c) may_store c s = Some (c', s') -> kernel_step (s, k) (s', k)
| step_timer s k c : kernel_step (s, k) (s <| s_manager := (lapic_tick (ticks (s_rest s)) c (s_manager s)).1 |>, k)
| step_key s k status scancode k' t : handle_irq status scancode (k, s_terminal s) = (k', t) ->
    kernel_step (s, k) (s <| s_terminal := t |>, k')
| step_load s k name base size l m slot : ids_left s ->
    load_process name base size (s_loader s) (s_manager s) = (l, m, slot) ->
    kernel_step (s, k) (s <| s_loader := l |> <| s_manager := m |>, k)
| step_start s k pid : kernel_step (s, k) (s <| s_manager := (mark_runnable pid (s_manager s)).1 |>, k)
| step_resume s k tid : kernel_step (s, k) (s <| s_manager := (activate_thread tid (s_manager s)).1 |>, k)
| step_other s k rest : kernel_step (s, k) (s <| s_rest := rest |>, k).

(** A machine that has just started. *)
Definition boot_system (v : Vfs) (memory : sarr) (sched : Scheduler) (l : L) (r : R) : System :=
  mkSystem (initial_manager v memory) boot_terminal sched l r.

Lemma wf_numbered s m : system_wf s -> tasks_wf m -> numbered (s_manager s) m -> system_wf (s <| s_manager := m |>).
Proof. intros [T P W] Hw [N _]. split; cbn; [done|by eapply touches_pids_wf|done]. Qed.
Lemma ids_numbered s m : ids_left s -> numbered (s_manager s) m -> ids_left (s <| s_manager := m |>).
Proof. intros [P T] [N E]. unfold ids_left. cbn. by rewrite (to_next _ _ _ N), E. Qed.

(** A part of an entry that keeps the tables well formed and the identifiers. *)
Definition entry {A} (p : sys A) : Prop := forall s a s', system_wf s -> p s = Some (a, s') ->
  system_wf s' /\ (ids_left s -> ids_left s').
Lemma entry_ret {A} (a : A) : entry (mret a).
Proof. by intros s b s' Hw [= <- <-]. Qed.
Lemma entry_from_frame op c : (forall m, tasks_wf m -> tasks_wf (op c m).1.1 /\ numbered m (op c m).1.1) ->
  entry (from_frame (L:=L) (R:=R) op c).
Proof.
  intros Hop s a s' Hw. unfold from_frame. destruct (Hop (s_manager s) (sw_tasks _ Hw)) as [Ht Hn].
  destruct (op c (s_manager s)) as [[m c1] ok]. cbn [fst] in *. intros [= <- <-].
  split; [by apply wf_numbered|]. intros Hi. by apply ids_numbered.
Qed.
Lemma entry_yield c : entry (from_frame (L:=L) (R:=R) yield_user_thread_from_frame c).
Proof. apply entry_from_frame. intros m Hm. split; [by apply wf_switch|apply numbered_switch]. Qed.
Lemma entry_exit code c : entry (from_frame (L:=L) (R:=R) (exit_user_thread_from_frame code) c).
Proof. apply entry_from_frame. intros m Hm. split; [by apply wf_exit_frame|by apply numbered_exit_frame]. Qed.
Lemma entry_sleep now d c : entry (from_frame (L:=L) (R:=R) (block_user_sleep_syscall_from_frame now d) c).
Proof. apply entry_from_frame. intros m Hm. split; [by apply wf_block_sleep|apply numbered_block_sleep]. Qed.
Lemma entry_block number c : entry (block_call (L:=L) (R:=R) number c).
Proof.
  unfold block_call. destruct (number_of number) as [n|]; [|apply entry_ret].
  destruct n; try apply entry_ret; try case_match; try apply entry_ret; apply entry_from_frame; intros m Hm; split;
    first [by apply wf_block_pipe|by apply wf_block_wait|by apply wf_block_wait_any
          |apply numbered_block_pipe|apply numbered_block_wait|apply numbered_block_any].
Qed.
Lemma entry_dispatch root may_store number a0 a1 a2 a3 s r s' : system_wf s -> ids_left s -> 0 <= a2 ->
  dispatch root may_store number a0 a1 a2 a3 s = Some (r, s') -> system_wf s'.
Proof.
  intros [T P W] [Hp Ht] H2 E. by destruct (dispatch_inv root may_store number a0 a1 a2 a3 s r s' T P W Hp Ht H2 E).
Qed.

(** A call that would have slept but could not answers with its own registers. *)
Lemma sleep_stays now d c m m' c' : 0 <= f_rdx (cpu_frame c) ->
  block_user_sleep_syscall_from_frame now d c m = (m', c', false) -> 0 <= f_rdx (cpu_frame c').
Proof.
  intros Hc. unfold block_user_sleep_syscall_from_frame, block_from_frame.
  repeat (case_match; try (by intros [= <- <-])); by intros [= <- <-].
Qed.
Lemma exit_stays `{Kernel} code c m m' c' : exit_user_thread_from_frame code c m = (m', c', false) -> c' = c.
Proof. unfold exit_user_thread_from_frame. repeat (case_match; try (by intros [= <- <-])); by intros [= <- <-]. Qed.

Lemma syscall_interrupt_wf root may_store c s c' s' : system_wf s -> ids_left s -> 0 <= f_rdx (cpu_frame c) ->
  syscall_interrupt root may_store c s = Some (c', s') -> system_wf s'.
Proof.
  intros Hw Hi Hc. unfold syscall_interrupt, mbind, sys_bind. case_match.
  { destruct (from_frame _ _ _) as [[[c1 sw] s1]|] eqn:E; [|done]. intros [= <- <-]. by eapply entry_yield. }
  cbn [get]. set (p := if f_rax (cpu_frame c) =? 47 then _ else _).
  assert (entry p /\ forall s c1 s1, p s = Some ((c1, false), s1) -> 0 <= f_rdx (cpu_frame c1)) as [Hp Hstay].
  { unfold p. case_match; [split; [apply entry_exit|]|case_match; [split; [apply entry_sleep|]|split; [apply entry_ret|]]].
    - unfold from_frame. intros s2 c1 s1. destruct (exit_user_thread_from_frame _ _ _) as [[m1 c2] ok] eqn:E.
      intros [= -> -> <-]. by rewrite (exit_stays _ _ _ _ _ E).
    - unfold from_frame. intros s2 c1 s1. destruct (block_user_sleep_syscall_from_frame _ _ _ _) as [[m1 c2] ok] eqn:E.
      intros [= -> -> <-]. by eapply sleep_stays.
    - by intros s2 c1 s1 [= <- <-]. }
  clearbody p. destruct (p s) as [[[c1 sw] s1]|] eqn:E; [|done]. destruct (Hp _ _ _ Hw E) as [Hw1 Hi1].
  destruct sw; [by intros [= <- <-]|]. destruct (dispatch _ _ _ _ _ _ _ s1) as [[r s2]|] eqn:Ed; [|done].
  assert (system_wf s2) as Hw2 by (eapply entry_dispatch; [exact Hw1|auto| |exact Ed]; by eapply Hstay).
  destruct (r_error r =? 4); [|by intros [= <- <-]].
  destruct (block_call _ _ s2) as [[[c2 sw] s3]|] eqn:Eb; [|done]. intros [= <- <-]. by eapply entry_block.
Qed.

Lemma handle_irq_wf status scancode k t : terminal_wf t -> terminal_wf (handle_irq status scancode (k, t)).2.
Proof.
  intros Hw. unfold handle_irq. case_match; [done|]. destruct (translate_key scancode _) as [k' c].
  by apply (terminal_op_wf (OpPush c) t I).
Qed.

Lemma load_wf s name base size l m slot : system_wf s -> ids_left s ->
  load_process name base size (s_loader s) (s_manager s) = (l, m, slot) ->
  system_wf (s <| s_loader := l |> <| s_manager := m |>).
Proof.
  intros [T P W] [Hp Ht] E. destruct (load_law _ _ _ _ _ _ _ _ E) as [[-> _]|(make & Hm & E')]; [by split|].
  split; cbn; [|eapply (publish_pids_wf true make); [intros; apply Hm|exact E'|done|done]|done]. pose proof (wf_publish true make (s_manager s) T Ht) as Hw. by rewrite E' in Hw.
Qed.

Lemma kernel_step_wf a b : kernel_step a b -> system_wf a.1 -> system_wf b.1.
Proof.
  intros Hs Hw. destruct Hs as [s k ms c c' s' Hi Hc E|s k c|s k status code k' t E|s k name base size l m slot Hi E|s k pid|s k tid|s k r];
    cbn [fst] in *.
  - by eapply syscall_interrupt_wf.
  - apply wf_numbered; [done|apply wf_lapic_tick; apply Hw|apply numbered_lapic_tick].
  - destruct Hw as [T P W]. split; cbn; [done..|]. pose proof (handle_irq_wf status code k _ W) as Ht. by rewrite E in Ht.
  - by eapply load_wf.
  - apply wf_numbered; [done| |]; [eapply tame_wf; [apply tame_mark_runnable|apply Hw]|].
    apply numbered_tame; [apply tame_mark_runnable|by apply touches_mark_runnable].
  - apply wf_numbered; [done|apply wf_activate; apply Hw|apply numbered_activate].
  - by destruct Hw.
Qed.

Lemma kernel_steps_wf a b : rtc kernel_step a b -> system_wf a.1 -> system_wf b.1.
Proof. induction 1 as [|a b c Hs _ IH]; [done|]. intros Hw. apply IH. by eapply kernel_step_wf. Qed.

Lemma boot_system_wf v memory sched l r : system_wf (boot_system v memory sched l r).
Proof.
  split; cbn [s_manager s_terminal boot_system]; [apply initial_wf| |apply boot_wf].
  split; cbn; try done; try lia; intros i p Hp Hc; lia.
Qed.
End Steps.

(** ** The loader of the kernel *)

Section Elf.
Context `{Machine} `{Kernel} {A : Type} `{PageAllocator A}.

Definition elf_loader (boot : BootInfo) : Loader (machine A) := {| load_process := create_process_from_elf boot |}.

Lemma elf_loader_laws boot : @LoaderLaws (machine A) _ (elf_loader boot).
Proof.
  constructor. cbn. intros name base size l m l' m' slot. unfold create_process_from_elf.
  repeat (case_match; try (by intros [= <- <- <-]; left)). intros [= <- <- <-]. right. eexists. by split; [|done].
Qed.
End Elf.

(** ** What system calls leave alone *)

Section Calls.
Context `{Machine} {kernel : Kernel} {L R : Type} {loader : Loader L} {loader_laws : LoaderLaws L} `{Services R}.


End Calls.

(** Two processes that have nothing to do with each other; the first tries to kill the
    second. *)
#[local] Instance demo_loader : Loader unit := {|
  load_process name base size l m :=
    let '(m, slot) := publish_process true (fun pid => new_process pid name base 0x1000 kDefaultUserStackTop
                        kDefaultUserStackPages base 1 [] true) m in (l, m, slot)
|}.
#[local] Instance demo_loader_laws : LoaderLaws unit.
Proof.
  constructor. cbn. intros name base size l m l' m' slot. destruct (publish_process _ _ m) as [m1 o] eqn:E.
  intros [= <- <- <-]. right. eexists. by split; [|done].
Qed.
#[local] Instance demo_services : Services unit := {|
  ticks _ := 7; log _ r := r; datetime r := (r, (false, [])); value _ _ := 0; info _ _ _ _ _ _ := None;
  read_log _ _ _ := []; read_sector _ r := (r, None); current_cpu_id _ := 0; online_count _ := 1;
  stat _ _ := None; directory_entry _ _ _ := None; stale _ _ := []
|}.

Definition demo_boot : System unit unit := boot_system demo_vfs (sa_const 0) sched_zero tt tt.
Definition loaded (name : string) (s : System unit unit) : System unit unit :=
  s <| s_manager := (load_process (cs name) 0x400000 0x2000 tt (s_manager s)).1.2 |>.
Definition ready (pid : Z) (s : System unit unit) : System unit unit :=
  s <| s_manager := (mark_runnable pid (s_manager s)).1 |>.
Definition demo_ready : System unit unit := ready 2 (ready 1 (loaded "two" (loaded "one" demo_boot))).
Definition demo_strangers : System unit unit := demo_ready <| s_manager := (activate_thread 1 (s_manager demo_ready)).1 |>.

Lemma demo_loaded name s k : ids_left s -> kernel_step (s, k) (loaded name s, k).
Proof.
  intros Hi. destruct s as [m t sched [] r]. unfold loaded.
  pose proof (step_load (mkSystem m t sched tt r) k (cs name) 0x400000 0x2000) as Hs.
  cbn [s_loader s_manager] in *. destruct (load_process (cs name) _ _ tt m) as [[[] m'] slot]. by apply (Hs tt m' slot).
Qed.

Lemma demo_strangers_reached k : rtc kernel_step (demo_boot, k) (demo_strangers, k).
Proof.
  apply (rtc_l _ _ (loaded "one" demo_boot, k)); [apply demo_loaded; by vm_compute|].
  apply (rtc_l _ _ (loaded "two" (loaded "one" demo_boot), k)); [apply demo_loaded; by vm_compute|].
  unfold demo_strangers, demo_ready. generalize (loaded "two" (loaded "one" demo_boot)). intros s.
  eapply rtc_l; [exact (step_start s k 1)|]. eapply rtc_l; [exact (step_start (ready 1 s) k 2)|].
  apply rtc_once. exact (step_resume (ready 2 (ready 1 s)) k 1).
Qed.


Lemma demo_strangers_wf : system_wf demo_strangers.
Proof.
  pose proof (demo_strangers_reached (mkKeyboard false false false)) as Hr. apply kernel_steps_wf in Hr; [done|].
  apply boot_system_wf.
Qed.

