(* ===== verification/SpawnChild.v ===== *)
(** * What Spawn leaves behind

    The whole path of the call: the command line is read from user memory and split, the
    program is loaded, and the new process gets its parent, its arguments and its state.
    What the operations on the way keep of a process record - the pid, the parent, the
    arguments and the state - is its [core]. *)

From stdpp Require Import strings.
From Stdlib Require Import ZifyBool.
From S2P Require Import Prelude Path UserLib SpawnArgs Scheduler Terminal Vfs Userspace UserFiles UserDemo UserEnv.
From S2P Require Import UserTasks UserFamily Syscall SyscallSafety KernelSteps.
#[local] Open Scope Z_scope.

Definition core (p : Process) := (pr_pid p, pr_parent_pid p, pr_arguments p, pr_state p).

Record steady (m m' : UserspaceManager) : Prop := {
  sd_count : pcount_ m' = pcount_ m;
  sd_core : core <$> processes_ m' = core <$> processes_ m
}.
#[export] Instance steady_refl : Reflexive steady.
Proof. by split. Qed.
#[export] Instance steady_trans : Transitive steady.
Proof. intros a b c [] []. split; congruence. Qed.

Create HintDb steady.

Lemma steady_same m m' : pcount_ m' = pcount_ m -> processes_ m' = processes_ m -> steady m m'.
Proof. intros C P. split; [done|by rewrite P]. Qed.
Lemma steady_on_process i f m : (forall p, core (f p) = core p) -> steady m (on_process i f m).
Proof.
  intros Hf. split; [done|]. cbn. apply list_eq. intros j. rewrite !list_lookup_fmap. destruct (decide (i = j)) as [->|Hne].
  - rewrite list_lookup_alter_eq. destruct (processes_ m !! j); [|done]. cbn. by rewrite Hf.
  - by rewrite list_lookup_alter_ne.
Qed.

#[export] Hint Extern 0 (steady _ (fst (_, _))) => cbn [fst] : steady.
#[export] Hint Extern 1 (steady ?m ?m) => reflexivity : steady.
#[export] Hint Extern 2 (steady _ (set_fd _ _ _ _)) => apply steady_on_process; done : steady.
#[export] Hint Extern 2 (steady _ (on_process _ _ _)) => apply steady_on_process; done : steady.
#[export] Hint Extern 3 (steady _ _) => apply steady_same; reflexivity : steady.

Ltac steady_call lem :=
  let H := fresh "Hs" in
  pose proof lem as H;
  match type of H with
  | steady _ (fst ?e) => destruct e as [? ?]; cbn [fst] in H; etrans; [exact H|]; clear H
  end.

Section Steady.
Context `{Machine} `{Kernel} `{Vfs.Terminal}.

Lemma steady_gate m : steady m (update_user_preemption_gate m).1.
Proof. unfold update_user_preemption_gate. repeat case_match; auto with steady. Qed.
Lemma steady_vfs_open path m : steady m (vfs_open path m).1.
Proof. unfold vfs_open. case_match. auto with steady. Qed.
Lemma steady_close_process_descriptor i k m : steady m (close_process_descriptor i k m).
Proof.
  unfold close_process_descriptor. repeat case_match; auto with steady.
  etrans; [|by apply steady_on_process]. auto with steady.
Qed.
Lemma steady_close_numbered i fd m : steady m (close_numbered i fd m).
Proof.
  unfold close_numbered. apply (for_each_inv (fun _ m' => steady m m')); [done|]. intros k m' _ Hs. etrans; [exact Hs|].
  repeat case_match; auto using steady_close_process_descriptor with steady.
Qed.
Lemma steady_install i fd path m : steady m (install_vfs_descriptor i fd path m).1.
Proof.
  unfold install_vfs_descriptor. steady_call (steady_vfs_open path m). case_match; [done|].
  etrans; [apply (steady_close_numbered i fd)|]. generalize (close_numbered i fd u). intros m'.
  destruct (free_fd m' i); auto with steady.
Qed.
Lemma steady_install_default i m : steady m (install_default_standard_fds i m).1.
Proof.
  unfold install_default_standard_fds. steady_call (steady_install i kStdinFd dev_tty m). case_match; [done|].
  steady_call (steady_install i kStdoutFd dev_tty u). case_match; [done|]. apply steady_install.
Qed.
Lemma steady_inherit_fd i c fd m : steady m (inherit_fd i c fd m).1.
Proof.
  unfold inherit_fd. dmatch as [[s d]|]; [|done].
  etrans; [apply (steady_close_numbered i fd)|]. generalize (close_numbered i fd m). intros m'.
  generalize (default FileDescriptor0 (fd_at m' c s)). intros source.
  assert (steady m' (inherited_descriptor fd source m').1) as Hi.
  { unfold inherited_descriptor. repeat case_match; auto with steady. }
  destruct (inherited_descriptor fd source m') as [m1 [[inherited|]|]]; cbn [fst] in Hi; (etrans; [exact Hi|]); [|done|done].
  destruct (free_fd m1 i); auto with steady.
Qed.
Lemma steady_inherit_fds child parent m : steady m (inherit_standard_fds child parent m).1.
Proof.
  unfold inherit_standard_fds. dmatch as [[i ?]|]; [|done]. dmatch as [[c ?]|]; [|done].
  steady_call (steady_inherit_fd i c kStdinFd m). case_match; [done|].
  steady_call (steady_inherit_fd i c kStdoutFd u). case_match; [done|]. apply steady_inherit_fd.
Qed.
Lemma steady_set_current_directory pid path m : steady m (set_current_directory pid path m).1.
Proof. unfold set_current_directory. repeat case_match; auto with steady. Qed.
Lemma steady_inherit_environment child parent m : steady m (inherit_environment child parent m).1.
Proof.
  unfold inherit_environment. repeat case_match; try done; cbn [fst];
    (set (m1 := on_process n _ m); trans m1; [by apply steady_on_process|auto with steady]).
Qed.
Lemma steady_create_main_thread i m : steady m (create_main_thread i m).1.
Proof.
  unfold create_main_thread. case_match; [|done]. case_match; [done|].
  assert (steady m (allocate_thread_slot m).1) as T by (unfold allocate_thread_slot; repeat case_match; auto with steady).
  destruct (allocate_thread_slot m) as [m1 [k|]]; cbn [fst] in *; [|done].
  etrans; [exact T|]. etrans; [|by apply steady_on_process]. by apply steady_same.
Qed.

(** Entering a process that succeeds: a free slot, the record, the main thread and the
    standard descriptors. *)
Lemma publish_parts make m m' i : publish_process true make m = (m', Some i) ->
  exists m2 m3 k, processes_ m2 = <[i := make (next_pid_ m)]> (processes_ m) /\ uthreads_ m2 = uthreads_ m /\
    tcount_ m2 = tcount_ m /\ active_tid_ m2 = active_tid_ m /\ next_tid_ m2 = next_tid_ m /\
    ((exists p, processes_ m !! i = Some p /\ (i < pcount_ m)%nat /\ pr_state p = ProcEmpty) /\ pcount_ m2 = pcount_ m \/
     i = pcount_ m /\ (i < kMaxUserProcesses)%nat /\ pcount_ m2 = S i) /\
    create_main_thread i m2 = (m3, Some k) /\ m' = (install_default_standard_fds i m3).1.
Proof.
  unfold publish_process, allocate_process_slot. intros E.
  assert (Hrest : forall m1 j, (let m2 := m1 <| next_pid_ ::= inc64 |> <| processes_ ::= <[j := make (next_pid_ m1)]> |> in
    let '(m, ok) := let '(m, t) := create_main_thread j m2 in (m, is_found t) in
    if negb ok then (m, None) else let '(m, ok) := install_default_standard_fds j m in if ok : bool then (m, Some j) else (m, None))
    = (m', Some i) -> j = i /\ exists m3 k, create_main_thread i (m1 <| next_pid_ ::= inc64 |> <| processes_ ::= <[i := make (next_pid_ m1)]> |>)
      = (m3, Some k) /\ m' = (install_default_standard_fds i m3).1).
  { intros m1 j. cbn zeta. destruct (create_main_thread j _) as [m3 [k|]] eqn:Ec; cbn; [|done].
    destruct (install_default_standard_fds j m3) as [m4 [|]] eqn:Ei; [|done]. intros [= <- <-]. split; [done|]. exists m3, k. by rewrite Ei. }
  destruct (index_of _ _) as [j|] eqn:Ej.
  - destruct (Hrest m j E) as [-> (m3 & k & Ec & ->)].
    exists (m <| next_pid_ ::= inc64 |> <| processes_ ::= <[i := make (next_pid_ m)]> |>), m3, k.
    do 5 (split; [done|]). split; [|done]. left. split; [|done].
    unfold index_of in Ej. apply fmap_Some in Ej as ([j' p] & Ej & ->). apply list_find_take in Ej as (Hj & Hc & Hs). by exists p.
  - case_decide; [done|]. destruct (Hrest (m <| pcount_ ::= S |>) (pcount_ m) E) as [<- (m3 & k & Ec & ->)].
    exists (m <| pcount_ ::= S |> <| next_pid_ ::= inc64 |> <| processes_ ::= <[pcount_ m := make (next_pid_ m)]> |>), m3, k.
    do 5 (split; [done|]). split; [|done]. right. split_and!; [done|lia|done].
Qed.

(** The new process is in its slot as it was made, and those before it are as they were. *)
Lemma publish_core make m m' i : pids_wf m -> publish_process true make m = (m', Some i) ->
  (exists p, processes_ m' !! i = Some p /\ core p = core (make (next_pid_ m)) /\ (i < pcount_ m')%nat) /\
  forall j p, processes_ m !! j = Some p -> (j < pcount_ m)%nat -> alive p ->
    exists p', processes_ m' !! j = Some p' /\ core p' = core p /\ (j < pcount_ m')%nat.
Proof.
  intros Hw (m2 & m3 & k & Ep & _ & _ & _ & _ & Hslot & Ec & ->)%publish_parts.
  pose proof (steady_create_main_thread i m2) as S1. rewrite Ec in S1. cbn [fst] in S1.
  destruct (steady_trans _ _ _ S1 (steady_install_default i m3)) as [C P]. set (m' := (install_default_standard_fds i m3).1) in *.
  pose proof (pw_count _ Hw). pose proof (pw_length _ Hw) as Hl.
  assert (Hi : (i < length (processes_ m))%nat /\ (i < pcount_ m2)%nat /\ (pcount_ m <= pcount_ m2)%nat).
  { rewrite Hl. destruct Hslot as [[(p & _ & ? & _) ->]|(-> & ? & ->)]; lia. }
  assert (Hat : forall j q, processes_ m2 !! j = Some q -> (j < pcount_ m2)%nat ->
            exists p', processes_ m' !! j = Some p' /\ core p' = core q /\ (j < pcount_ m')%nat).
  { intros j q Hq Hj. assert (Hcq : (core <$> processes_ m') !! j = Some (core q)) by (rewrite P, list_lookup_fmap; by rewrite Hq).
    rewrite list_lookup_fmap in Hcq. apply fmap_Some in Hcq as (p' & Hp' & E). exists p'. split_and!; [done|done|by rewrite C]. }
  split.
  - apply Hat; [|lia]. rewrite Ep. apply list_lookup_insert_eq. lia.
  - intros j p Hp Hj [Ha _]. apply Hat; [|lia]. rewrite Ep, list_lookup_insert_ne; [done|]. intros <-.
    destruct Hslot as [[(q & Hq & _ & Hs) _]|(-> & _)]; [congruence|lia].
Qed.
End Steady.

(** ** From the loaded program to the child *)

(** The process with this pid, found wherever it is looked for. *)
Definition holds_child (pid parent : Z) (args : list cstr) (st : ProcessState) (m : UserspaceManager) : Prop :=
  exists i p, processes_ m !! i = Some p /\ (i < pcount_ m)%nat /\ core p = (pid, parent, args, st).

Lemma holds_steady pid parent args st m m' : steady m m' -> holds_child pid parent args st m -> holds_child pid parent args st m'.
Proof.
  intros [C P] (i & p & Hp & Hc & E). assert (Hi : (core <$> processes_ m') !! i = Some (core p)).
  { rewrite P, list_lookup_fmap. by rewrite Hp. }
  rewrite list_lookup_fmap in Hi. apply fmap_Some in Hi as (p' & Hp' & E'). exists i, p'. split_and!; [done|by rewrite C|congruence].
Qed.
Lemma holds_found pid parent args st m i p : pids_wf m -> holds_child pid parent args st m -> find_process m pid = Some (i, p) ->
  core p = (pid, parent, args, st).
Proof.
  intros Hw (j & q & Hq & Hc & E) (Hp & Hpc & Epid & _)%list_find_take.
  assert (i = j) as -> by (apply (pw_distinct _ Hw i j p q); [done..|]; unfold core in E; congruence). congruence.
Qed.
Lemma holds_find pid parent args st m : pids_wf m -> holds_child pid parent args st m -> st <> ProcEmpty ->
  exists i p, find_process m pid = Some (i, p) /\ core p = (pid, parent, args, st).
Proof.
  intros Hw Hh Hs. destruct (find_process m pid) as [[i p]|] eqn:E.
  - exists i, p. split; [done|]. by eapply holds_found.
  - destruct Hh as (i & p & Hp & Hc & Ec). unfold find_process in E. rewrite list_find_None, Forall_forall in E.
    unfold core in Ec. destruct (E p); [|split; congruence]. apply list_elem_of_lookup. exists i. by apply lookup_take_Some.
Qed.
Lemma holds_alive pid parent args st m : pids_wf m -> holds_child pid parent args st m -> st = ProcCreated \/ st = ProcRunnable ->
  exists i p, find_alive m pid = Some (i, p) /\ core p = (pid, parent, args, st).
Proof.
  intros Hw Hh Hs. destruct (holds_find _ _ _ _ _ Hw Hh) as (i & p & Hf & Ec); [by destruct Hs as [-> | ->]|].
  exists i, p. split; [|done]. unfold find_alive. rewrite Hf. cbn. rewrite decide_True; [done|].
  unfold core in Ec. injection Ec as _ _ _ Es. unfold alive. rewrite Es. by destruct Hs as [-> | ->].
Qed.

(** A change of the record that is found. *)
Lemma holds_on_process pid c c' m i p f : find_process m pid = Some (i, p) -> core p = c -> core (f p) = c' ->
  exists q, processes_ (on_process i f m) !! i = Some q /\ (i < pcount_ (on_process i f m))%nat /\ core q = c'.
Proof.
  intros (Hp & Hc & _)%list_find_take E E'. exists (f p). split_and!; [|done|done]. cbn. by rewrite list_lookup_alter_eq, Hp.
Qed.

Section Child.
Context `{Machine} `{Kernel} `{Vfs.Terminal}.

Lemma holds_set_parent pid q args parent m : pids_wf m -> holds_child pid q args ProcCreated m ->
  is_Some (find_process m parent) -> holds_child pid parent args ProcCreated (set_parent pid parent m).1.
Proof.
  intros Hw Hh [[c r] Hc]. destruct (holds_alive _ _ _ _ _ Hw Hh) as (i & p & Hf & E); [by left|].
  unfold set_parent. rewrite Hf, Hc. rewrite andb_false_r. cbn [fst]. apply bind_Some in Hf as ([j p'] & Hf & Ea).
  case_decide; [|done]. injection Ea as -> ->. unfold core in E. injection E as E1 E2 E3 E4.
  destruct (holds_on_process pid _ (pid, parent, args, ProcCreated) m i p (fun p => p <| pr_parent_pid := parent |>) Hf eq_refl)
    as (r' & Hr & Hrc & Er); [unfold core; cbn; congruence|]. by exists i, r'.
Qed.

Lemma copied_arguments args texts : copy_arguments args = Some texts -> texts = args.
Proof.
  revert texts. induction args as [|a args IH]; intros texts; cbn; [by intros [= <-]|].
  unfold copy_argument_bounded, copy_text_bounded. destruct a as [|c a]; [done|].
  destruct (len (c :: a) <? kMaxArgumentLength); [|done].
  intros (t & Ht & ->)%fmap_Some. by rewrite (IH t Ht).
Qed.
Lemma holds_set_arguments pid parent old args m m' : pids_wf m -> holds_child pid parent old ProcCreated m ->
  set_arguments pid args m = (m', true) -> holds_child pid parent args ProcCreated m'.
Proof.
  intros Hw Hh. destruct (holds_alive _ _ _ _ _ Hw Hh) as (i & p & Hf & E); [by left|]. unfold set_arguments. rewrite Hf.
  case_match; [done|]. destruct (copy_arguments args) as [texts|] eqn:Ec; [|done]. intros [= <-].
  apply copied_arguments in Ec as ->. apply bind_Some in Hf as ([j p'] & Hf & Ea). case_decide; [|done]. injection Ea as -> ->.
  unfold core in E. injection E as E1 E2 E3 E4.
  destruct (holds_on_process pid _ (pid, parent, args, ProcCreated) m i p (fun p => p <| pr_arguments := args |>) Hf eq_refl)
    as (r' & Hr & Hrc & Er); [unfold core; cbn; congruence|]. by exists i, r'.
Qed.
Lemma holds_mark_runnable pid parent args m : pids_wf m -> holds_child pid parent args ProcCreated m ->
  holds_child pid parent args ProcRunnable (mark_runnable pid m).1.
Proof.
  intros Hw Hh. destruct (holds_find _ _ _ _ _ Hw Hh) as (i & p & Hf & E); [done|]. unfold mark_runnable. rewrite Hf.
  unfold core in E. injection E as E1 E2 E3 E4. rewrite decide_True by done. eapply holds_steady; [apply steady_gate|].
  destruct (holds_on_process pid _ (pid, parent, args, ProcRunnable) m i p (fun p => p <| pr_state := ProcRunnable |>) Hf eq_refl)
    as (r' & Hr & Hrc & Er); [unfold core; cbn; congruence|].
  set (m1 := on_process i _ m) in *. assert (holds_child pid parent args ProcRunnable m1) as Hrun by (by exists i, r').
  eapply holds_steady; [|exact Hrun]. repeat case_match; auto with steady.
Qed.
End Child.

(** ** The caller after a process is entered *)

Record same_threads (m m' : UserspaceManager) : Prop := {
  sh_threads : uthreads_ m' = uthreads_ m;
  sh_count : tcount_ m' = tcount_ m;
  sh_active : active_tid_ m' = active_tid_ m
}.
#[local] Instance same_threads_refl : Reflexive same_threads.
Proof. by split. Qed.
#[local] Instance same_threads_trans : Transitive same_threads.
Proof. intros a b c [] []. split; congruence. Qed.

Section Caller.
Context `{Machine} `{Kernel} `{Vfs.Terminal}.

Lemma same_threads_close_numbered i fd m : same_threads m (close_numbered i fd m).
Proof.
  unfold close_numbered. apply (for_each_inv (fun _ m' => same_threads m m')); [done|]. intros k m' _ Hs. etrans; [exact Hs|].
  unfold close_process_descriptor. by repeat case_match.
Qed.
Lemma same_threads_install i fd path m : same_threads m (install_vfs_descriptor i fd path m).1.
Proof.
  unfold install_vfs_descriptor, vfs_open. destruct (vopen path (k_vfs m)) as [v h]. case_match; [done|].
  trans (m <| k_vfs := v |>); [done|]. etrans; [apply (same_threads_close_numbered i fd)|].
  generalize (close_numbered i fd (m <| k_vfs := v |>)). intros m1. by destruct (free_fd m1 i).
Qed.
Lemma same_threads_install_default i m : same_threads m (install_default_standard_fds i m).1.
Proof.
  unfold install_default_standard_fds. pose proof (same_threads_install i kStdinFd dev_tty m) as S1.
  destruct (install_vfs_descriptor i kStdinFd dev_tty m) as [m1 ok]. cbn [fst] in S1. etrans; [exact S1|]. case_match; [done|].
  pose proof (same_threads_install i kStdoutFd dev_tty m1) as S2.
  destruct (install_vfs_descriptor i kStdoutFd dev_tty m1) as [m2 ok']. cbn [fst] in S2. etrans; [exact S2|]. case_match; [done|].
  apply same_threads_install.
Qed.

(** The main thread is entered in a slot that no thread uses. *)
Lemma create_main_thread_slot i m m' k : create_main_thread i m = (m', Some k) ->
  exists t, ut_tid t = next_tid_ m /\ uthreads_ m' = <[k := t]> (uthreads_ m) /\ active_tid_ m' = active_tid_ m /\
    ((exists u, uthreads_ m !! k = Some u /\ (k < tcount_ m)%nat /\ ut_state u = UtEmpty) /\ tcount_ m' = tcount_ m \/
     k = tcount_ m /\ tcount_ m' = S k).
Proof.
  unfold create_main_thread. destruct (processes_ m !! i) as [p|]; [|done]. case_match; [done|]. unfold allocate_thread_slot.
  destruct (index_of _ _) as [j|] eqn:Ej.
  - intros [= <- <-]. eexists. split; [|split; [reflexivity|]]; [done|]. split; [done|]. left. split; [|done].
    unfold index_of in Ej. apply fmap_Some in Ej as ([j' u] & Ej & ->). apply list_find_take in Ej as (Hj & Hc & Hs). by exists u.
  - case_decide; [done|]. intros [= <- <-]. eexists. split; [|split; [reflexivity|]]; [done|]. split; [done|]. by right.
Qed.

(** The thread that runs determines the current process. *)
Lemma current_pid_of_thread m k t : thread_at m k t -> ut_tid t = active_tid_ m -> active_tid_ m <> 0 ->
  ut_state t <> UtEmpty -> ut_state t <> UtExited -> (forall j u, thread_at m j u -> ut_tid u = ut_tid t -> j = k) ->
  current_pid m = live_pid m (ut_pid t).
Proof.
  intros [Hk Hkc] Et Hne He Hx Hu. assert (Hel : t ∈ threads m).
  { apply list_elem_of_lookup. exists k. by apply lookup_take_Some. }
  assert (Ec : current_tid m = active_tid_ m).
  { unfold current_tid. rewrite (proj2 (Z.eqb_neq _ _) Hne). rewrite decide_True; [done|]. apply Exists_exists. by exists t. }
  unfold current_pid. rewrite Ec, (proj2 (Z.eqb_neq _ _) Hne).
  destruct (list_find (fun t => ut_tid t = active_tid_ m) (threads m)) as [[j u]|] eqn:Ef.
  - apply list_find_Some in Ef as (Hj & Eu & _). apply lookup_take_Some in Hj as [Hj Hjc].
    assert (j = k) as -> by (apply (Hu j u); [done|congruence]). congruence.
  - rewrite list_find_None, Forall_forall in Ef. by destruct (Ef t Hel).
Qed.

Lemma live_pid_found m pid : live_pid m pid <> 0 -> is_Some (find_process m pid) /\
  Exists (fun p => pr_pid p = pid /\ alive p) (processes m).
Proof.
  unfold live_pid. case_decide as He; [|done]. intros _. split; [|done].
  apply Exists_exists in He as (p & Hel & Hp & Ha & _). unfold find_process. apply not_eq_None_Some.
  rewrite list_find_None, Forall_forall. intros Hn. by apply (Hn p Hel).
Qed.

Lemma publish_keeps_caller make m m' i : tasks_wf m -> pids_wf m -> current_tid m <> 0 -> current_pid m <> 0 ->
  publish_process true make m = (m', Some i) ->
  current_pid m' = current_pid m /\ is_Some (find_process m' (current_pid m)).
Proof.
  intros Hw Hp Htid Hpid E. destruct (publish_core make m m' i Hp E) as [_ Hold].
  destruct (publish_parts make m m' i E) as (m2 & m3 & k & _ & Eu & Et & Ea & En & _ & Ec & ->).
  destruct (create_main_thread_slot i m2 m3 k Ec) as (t & Hnew & Eu3 & Ea3 & Hk). rewrite Eu, Et, En, Ea in *.
  destruct (same_threads_install_default i m3) as [Eu4 Et4 Ea4]. set (m' := (install_default_standard_fds i m3).1) in *.
  assert (Hact : active_tid_ m <> 0 /\ exists j u, thread_at m j u /\ ut_tid u = active_tid_ m /\ ut_state u <> UtEmpty /\ ut_state u <> UtExited).
  { unfold current_tid in Htid. destruct (Z.eqb_spec (active_tid_ m) 0); [done|]. split; [done|]. case_decide as He; [|done].
    apply Exists_exists in He as (u & (j & Hj)%list_elem_of_lookup & Hu). apply lookup_take_Some in Hj as [Hj Hjc]. by exists j, u. }
  destruct Hact as (Hne & j & u & [Hj Hjc] & Eut & He & Hx).
  assert (Hold_pid : current_pid m = live_pid m (ut_pid u)).
  { apply (current_pid_of_thread m j); [done..|]. intros j' u' Hu' Etid. symmetry. by apply (tw_unique m Hw j j' u u'). }
  assert (Hkj : k <> j). { intros ->. destruct Hk as [[(v & Hv & _ & Hs) _]|(-> & _)]; [congruence|lia]. }
  assert (Hjc' : (j < tcount_ m')%nat) by (rewrite Et4; destruct Hk as [[_ ->]|(-> & ->)]; lia).
  assert (Hcur : current_pid m' = live_pid m' (ut_pid u)).
  { apply (current_pid_of_thread m' j); [|congruence..|done|done|].
    - split; [|done]. rewrite Eu4, Eu3. by rewrite list_lookup_insert_ne.
    - intros j' u' [Hu' Hc'] Etid. rewrite Eu4, Eu3 in Hu'. rewrite Et4 in Hc'.
      apply list_lookup_insert_Some in Hu' as [(<- & <- & _)|[Hne' Hu']].
      + pose proof (tw_range m Hw j u (conj Hj Hjc) He). lia.
      + symmetry. apply (tw_unique m Hw j j' u u'); [done| |done|done]. split; [done|].
        destruct Hk as [[_ Ek]|[-> Ek]]; [by rewrite <-Ek|]. rewrite Ek in Hc'. lia. }
  rewrite Hold_pid in Hpid |- *. destruct (live_pid_found m _ Hpid) as [_ Hlive].
  assert (El : live_pid m (ut_pid u) = ut_pid u) by (unfold live_pid; by rewrite decide_True). rewrite El in Hpid |- *.
  assert (Hlive' : Exists (fun p => pr_pid p = ut_pid u /\ alive p) (processes m')).
  { apply Exists_exists in Hlive as (p & (q & Hq)%list_elem_of_lookup & Ep & Ha). apply lookup_take_Some in Hq as [Hq Hqc].
    destruct (Hold q p Hq Hqc Ha) as (p' & Hp' & Ecore & Hc'). unfold core in Ecore. injection Ecore as E1 E2 E3 E4.
    apply Exists_exists. exists p'. split; [apply list_elem_of_lookup; exists q; by apply lookup_take_Some|].
    unfold alive in *. rewrite E4. split; [congruence|done]. }
  assert (Hl : live_pid m' (ut_pid u) = ut_pid u) by (unfold live_pid; by rewrite decide_True).
  split; [by rewrite Hcur|]. apply live_pid_found. by rewrite Hl.
Qed.
End Caller.

Section Spawn.
Context `{Machine} {kernel : Kernel} {L R : Type} {loader : Loader L} {loader_laws : LoaderLaws L} `{Services R}.
Context (root : Z) (may_store : Z -> bool).

Local Abbreviation sys := (sys L R).
Local Abbreviation System := (System L R).

(** [p] leads from managers in [P] to managers in [Q], which may depend on the answer. *)
Definition leads {A} (P : UserspaceManager -> Prop) (p : sys A) (Q : A -> UserspaceManager -> Prop) : Prop :=
  forall s a s', P (s_manager s) -> p s = Some (a, s') -> Q a (s_manager s').

Lemma leads_ret {A} (a : A) (Q : A -> UserspaceManager -> Prop) : leads (Q a) (mret a) Q.
Proof. by intros s b s' HP [= <- <-]. Qed.
Lemma leads_bind {A B} P Q R' (p : sys A) (f : A -> sys B) : leads P p Q -> (forall a, leads (Q a) (f a) R') -> leads P (p ≫= f) R'.
Proof.
  intros Hp Hf s b s' HP. unfold mbind, sys_bind. destruct (p s) as [[a s1]|] eqn:E; [|done]. intros E'.
  by eapply Hf; [eapply Hp|].
Qed.
Lemma leads_manager {A} (P : UserspaceManager -> Prop) (op : UserspaceManager -> UserspaceManager * A) (Q : A -> UserspaceManager -> Prop) :
  (forall m, P m -> Q (op m).2 (op m).1) -> leads P (manager op) Q.
Proof. intros Hop s a s' HP. unfold manager. specialize (Hop _ HP). destruct (op (s_manager s)). by intros [= <- <-]. Qed.
Lemma leads_get {A} (P : UserspaceManager -> Prop) (f : System -> A) : leads P (get f) (fun _ => P).
Proof. by intros s a s' HP [= <- <-]. Qed.
Lemma leads_still {A} (P : UserspaceManager -> Prop) (p : sys A) : (forall m m', same_tasks m m' -> P m -> P m') -> still p ->
  leads P p (fun _ => P).
Proof. intros HP Hp s a s' Hs E. by eapply HP; [apply (Hp s a s' E)|]. Qed.

(** The tables are in order and hold the child. *)
Definition has_child (pid parent : Z) (args : list cstr) (st : ProcessState) (m : UserspaceManager) : Prop :=
  pids_wf m /\ holds_child pid parent args st m.

Lemma has_child_step pid parent args st m m' : touches (fun _ => True) m m' -> steady m m' ->
  has_child pid parent args st m -> has_child pid parent args st m'.
Proof. intros Ht Hs [W C]. split; [by eapply touches_pids_wf|by eapply holds_steady]. Qed.

Lemma same_tasks_steady m m' : same_tasks m m' -> steady m m'.
Proof. intros (P & C & _). by apply steady_same. Qed.
Lemma has_child_same pid parent args st m m' : same_tasks m m' -> has_child pid parent args st m -> has_child pid parent args st m'.
Proof. intros Hs. apply has_child_step; [by apply same_tasks_touches|by apply same_tasks_steady]. Qed.

(** The new process takes over from the caller and becomes its child. *)
Lemma adopt_child pid caller q args : caller <> 0 ->
  leads (fun m => has_child pid q args ProcCreated m /\ is_Some (find_process m caller)) (adopt pid caller)
        (fun _ => has_child pid caller args ProcCreated).
Proof.
  intros Hc. unfold adopt. rewrite (proj2 (Z.eqb_neq _ _) Hc). cbn [negb].
  apply (leads_bind _ (fun _ => has_child pid caller args ProcCreated)).
  { apply leads_manager. intros m [[W Hh] Hf]. split; [|by apply (holds_set_parent pid q)].
    eapply touches_pids_wf; [by apply (touches_set_parent (I:=fun _ => True))|done]. }
  intros _. apply (leads_bind _ (fun _ => has_child pid caller args ProcCreated)); [apply leads_get|]. intros cwd.
  apply (leads_bind _ (fun _ => has_child pid caller args ProcCreated)).
  { destruct cwd as [path|]; [|apply (leads_ret tt (fun _ => _))].
    apply (leads_bind _ (fun _ => has_child pid caller args ProcCreated)); [|intros _; apply (leads_ret tt (fun _ => _))].
    apply leads_manager. intros m. apply has_child_step; [by apply touches_set_current_directory|apply steady_set_current_directory]. }
  intros _. apply (leads_bind _ (fun _ => has_child pid caller args ProcCreated)).
  { apply leads_manager. intros m. apply has_child_step; [by apply touches_inherit_environment|apply steady_inherit_environment]. }
  intros _. apply (leads_bind _ (fun _ => has_child pid caller args ProcCreated)); [|intros _; apply (leads_ret tt (fun _ => _))].
  apply leads_manager. intros m. apply has_child_step; [by apply touches_inherit_fds|apply steady_inherit_fds].
Qed.

(** The state a new process is left in. *)
Definition spawned_state (flags : Z) : ProcessState := if Z.land flags 1 =? 0 then ProcRunnable else ProcCreated.

Lemma spawned_state_bit flags : spawned_state flags = if Z.testbit flags 0 then ProcCreated else ProcRunnable.
Proof.
  unfold spawned_state. change 1 with (Z.ones 1). rewrite Z.land_ones by lia. change (2 ^ 1) with 2.
  rewrite <-Z.bit0_mod. by destruct (Z.testbit flags 0).
Qed.

Lemma settle_child pid caller q old args flags (s : System) a (s' : System) : caller <> 0 -> current_pid (s_manager s) = caller ->
  has_child pid q old ProcCreated (s_manager s) -> is_Some (find_process (s_manager s) caller) ->
  settle pid args flags s = Some (Some a, s') -> a = pid /\ has_child pid caller (text_of <$> args) (spawned_state flags) (s_manager s').
Proof.
  intros Hc Hcur Hh Hf. unfold settle. unfold mbind at 1, sys_bind at 1, syscall_current_pid, get at 1. rewrite Hcur.
  set (Q := fun (o : option Z) m => forall a, o = Some a -> a = pid /\ has_child pid caller (text_of <$> args) (spawned_state flags) m).
  match goal with |- ?p s = _ -> _ => assert (leads (fun m => has_child pid q old ProcCreated m /\ is_Some (find_process m caller)) p Q) as Hl end.
  2:{ intros E. by apply (Hl s _ s' (conj Hh Hf) E). }
  apply (leads_bind _ (fun _ => has_child pid caller old ProcCreated)); [by apply adopt_child|]. intros _.
  apply (leads_bind _ (fun ok m => ok = true -> has_child pid caller (text_of <$> args) ProcCreated m)).
  { apply leads_manager. intros m [W Hm]. destruct (set_arguments pid (text_of <$> args) m) as [m' ok] eqn:E. cbn. intros ->. split.
    - eapply touches_pids_wf; [|exact W]. pose proof (touches_set_arguments (I:=fun _ => True) pid (text_of <$> args) m (allowed_anyone _ _)) as T.
      by rewrite E in T.
    - by eapply holds_set_arguments. }
  intros [|]; cbn [negb]; [|by intros s1 o s1' _ [= <- <-] ?]. unfold spawned_state in Q. destruct (Z.land flags 1 =? 0); cbn [negb].
  2:{ intros s1 o s1' HP [= <- <-] b [= <-]. split; [done|by apply HP]. }
  apply (leads_bind _ (fun _ => has_child pid caller (text_of <$> args) ProcRunnable)).
  { apply leads_manager. intros m HP. destruct (HP eq_refl) as [W Hm]. split; [|by apply holds_mark_runnable].
    eapply touches_pids_wf; [by apply (touches_mark_runnable (I:=fun _ => True))|done]. }
  intros [|]; cbn [negb]; [|by intros s1 o s1' _ [= <- <-] ?].
  apply (leads_bind _ (fun _ => has_child pid caller (text_of <$> args) ProcRunnable)).
  { apply leads_manager. intros m. apply has_child_step; [apply touches_gate|apply steady_gate]. }
  intros [|]; [|by intros s1 o s1' _ [= <- <-] ?]. intros s1 o s1' HP [= <- <-] b [= <-]. by split.
Qed.

(** The tables are in order, a pid is left, and a thread of a live process runs. *)
Record ready_to_spawn (m : UserspaceManager) : Prop := {
  rs_tasks : tasks_wf m;
  rs_pids : pids_wf m;
  rs_left : u64 (next_pid_ m + 1);
  rs_thread : current_tid m <> 0;
  rs_caller : current_pid m <> 0
}.
Lemma ready_same m m' : same_tasks m m' -> ready_to_spawn m -> ready_to_spawn m'.
Proof.
  intros T [Hw Hp Hu Ht Hc]. pose proof (same_tasks_pid _ _ T) as Epid.
  assert (current_tid m' = current_tid m) as Etid.
  { destruct T as (_ & _ & _ & E & C & _ & A & _). unfold current_tid, threads. by rewrite E, C, A. }
  split; [by eapply same_tasks_wf|by eapply touches_pids_wf; [apply (same_tasks_touches (fun _ => True))|]| |congruence|congruence].
  destruct T as (_ & _ & -> & _). done.
Qed.

(** A process from a program in the file system. *)
Lemma spawn_process_child path args flags (s : System) pid (s' : System) :
  ready_to_spawn (s_manager s) -> spawn_process path args flags s = Some (Some pid, s') ->
  pid = next_pid_ (s_manager s) /\ has_child pid (current_pid (s_manager s)) (text_of <$> args) (spawned_state flags) (s_manager s').
Proof.
  intros [Hw Hp Hu Ht Hc]. unfold spawn_process. unfold mbind at 1, sys_bind at 1, get at 1.
  destruct (node_at _ _) as [node|]; [|done]. destruct (negb _); [done|]. unfold mbind at 1, sys_bind at 1.
  destruct (load_process _ _ _ _ _) as [[l m] slot] eqn:El. set (s1 := s <| s_loader := l |> <| s_manager := m |>).
  unfold mbind at 1, sys_bind at 1, get at 1. change (s_manager s1) with m.
  destruct (load_law _ _ _ _ _ _ _ _ El) as [[-> ->]|(make & Hnew & Epub)]; [done|]. destruct slot as [i|]; [|done].
  destruct (publish_core make _ _ _ Hp Epub) as [(p & Hpi & Ecore & Hic) _].
  destruct (publish_keeps_caller make _ _ _ Hw Hp Ht Hc Epub) as [Ecur Hfound].
  cbn [mbind option_bind]. rewrite Hpi. destruct (Hnew (next_pid_ (s_manager s))) as [Epid Est].
  assert (Ep : pr_pid p = next_pid_ (s_manager s)) by (unfold core in Ecore; congruence). rewrite Ep. intros E.
  assert (Hh : has_child (next_pid_ (s_manager s)) (pr_parent_pid p) (pr_arguments p) ProcCreated (s_manager s1)).
  { split; [eapply (publish_pids_wf true make); [intros; apply Hnew|exact Epub|done|done]|].
    exists i, p. split_and!; [done|done|]. unfold core in *. congruence. }
  eapply settle_child in E; [destruct E as [-> E]; split; [done|exact E]|exact Hc|exact Ecur|exact Hh|exact Hfound].
Qed.

(** ** The command line in user memory *)

(** The text [text] and its final 0 are at the address [a] of the process with the tables [root]. *)
Definition text_at (a : Z) (text : list Z) (s : System) : Prop :=
  forall (i : nat) c, (text ++ [0]) !! i = Some c ->
    let phys := translate root (w64 (a + Z.of_nat i)) in phys <> 0 /\ w8 (sa_get (k_memory (s_manager s)) phys) = c.

Lemma text_at_load a text s c : text_at a text s -> head (text ++ [0]) = Some c -> load root a s = Some (c, s).
Proof.
  intros Ht Hc. rewrite head_lookup in Hc. destruct (Ht 0%nat c Hc) as [Hn E]. rewrite Z.add_0_r in *.
  unfold load. by rewrite (proj2 (Z.eqb_neq _ _) Hn), E.
Qed.
Lemma text_at_tail a c text s : text_at a (c :: text) s -> load root a s = Some (c, s) /\ text_at (a + 1) text s.
Proof.
  intros Ht. split; [by eapply text_at_load|]. intros i d Hi.
  replace (a + 1 + Z.of_nat i) with (a + Z.of_nat (S i)) by lia. by apply Ht.
Qed.
Lemma text_at_end a s : text_at a [] s -> load root a s = Some (0, s).
Proof. intros Ht. by eapply text_at_load. Qed.

Lemma terminated_text text : forall n a s, nul_free text -> text_at a text s ->
  terminated root n a s = Some (bool_decide (length text < n)%nat, s).
Proof.
  induction text as [|c text IH]; intros [|n] a s Hf Ht; try done; cbn [terminated]; unfold mbind, sys_bind.
  - rewrite (text_at_end a s Ht). cbn. unfold mret, sys_ret. by rewrite bool_decide_true by lia.
  - apply Forall_cons in Hf as [Hc Hf]. destruct (text_at_tail _ _ _ _ Ht) as [-> Ht'].
    rewrite (proj2 (Z.eqb_neq _ _) Hc), (IH n _ _ Hf Ht'). do 2 f_equal. cbn. apply bool_decide_ext. lia.
Qed.
Lemma c_string_text text : forall n a s, nul_free text -> text_at a text s -> (length text < n)%nat ->
  c_string root n a s = Some (text, s).
Proof.
  induction text as [|c text IH]; intros [|n] a s Hf Ht Hn; try (cbn in Hn; lia); cbn [c_string]; unfold mbind, sys_bind.
  - by rewrite (text_at_end a s Ht).
  - apply Forall_cons in Hf as [Hc Hf]. destruct (text_at_tail _ _ _ _ Ht) as [-> Ht'].
    rewrite (proj2 (Z.eqb_neq _ _) Hc), (IH n _ _ Hf Ht') by (cbn in Hn; lia). done.
Qed.

Lemma copied_command text a length_ s command s' : nul_free text -> text_at a text s ->
  copy_spawn_command root a length_ s = Some (Some command, s') -> s' = s /\ exists z, command = text ++ 0 :: z.
Proof.
  intros Hf Ht. unfold copy_spawn_command, c_string_readable. unfold mbind at 1, sys_bind at 1.
  destruct (_ || _ || _); [done|]. rewrite (terminated_text text _ _ _ Hf Ht).
  destruct (decide (length text < Z.to_nat length_)%nat) as [Hl|]; [|by rewrite bool_decide_false].
  rewrite bool_decide_true by done. cbn [negb orb]. destruct (Z.ltb_spec kMaxSpawnCommandLine length_) as [|Hm]; [done|].
  unfold kMaxSpawnCommandLine in Hm. unfold mbind, sys_bind. rewrite (c_string_text text _ _ _ Hf Ht Hl). intros [= <- <-].
  split; [done|]. exists (replicate (127 - length text) 0). f_equal. by replace (128 - length text)%nat with (S (127 - length text)) by lia.
Qed.

(** ** The call *)

Lemma record_current_tid number m : current_tid (record_current_syscall number m).1 = current_tid m.
Proof.
  unfold record_current_syscall. destruct (current_pair m) as [[k i]|]; [|done]. cbn [fst].
  unfold current_tid, threads. cbn. case_match; [done|]. apply decide_ext. by rewrite take_alter, Exists_alter.
Qed.
Lemma record_memory number m : k_memory (record_current_syscall number m).1 = k_memory m.
Proof. unfold record_current_syscall. by repeat case_match. Qed.

Lemma ready_record number m : ready_to_spawn m -> ready_to_spawn (record_current_syscall number m).1.
Proof.
  intros [Hw Hp Hu Ht Hc]. pose proof (touches_record (fun _ => True) number m Hw (allowed_anyone _ _)) as To.
  split; [by eapply tame_wf; [apply tame_record_syscall|]|by eapply touches_pids_wf|by rewrite (to_next _ _ _ To)|..].
  - by rewrite record_current_tid.
  - by rewrite record_current_pid.
Qed.

Lemma spawn_call_child a0 a1 a2 a3 (s : System) r (s' : System) text ws :
  ready_to_spawn (s_manager s) -> nul_free text -> text_at a0 text s -> command_line text ws ->
  dispatch_spawn root may_store Spawn a0 a1 a2 a3 s = Some (r, s') -> r_error r = 0 ->
  r_value r = next_pid_ (s_manager s) /\
  has_child (r_value r) (current_pid (s_manager s)) (text_of <$> take kMaxProcessArguments ws) (spawned_state a3) (s_manager s').
Proof.
  intros Hr Hf Hat Hws. cbn [dispatch_spawn]. unfold mbind at 1, sys_bind at 1.
  destruct (copy_spawn_command root a0 a1 s) as [[[command|] s1]|] eqn:Ec; [|by intros [= <- <-]|done].
  destruct (copied_command _ _ _ _ _ _ Hf Hat Ec) as [-> [z ->]].
  destruct (parse_words text z kMaxProcessArguments Hf) as (b & args & -> & _ & _ & _ & Hargs). specialize (Hargs ws Hws).
  rewrite Hargs. destruct (take kMaxProcessArguments ws) as [|path rest]; [by intros [= <- <-]|].
  unfold mbind at 1, sys_bind at 1. set (probe := if a2 =? 0 then _ else _).
  assert (Hprobe : still probe) by (unfold probe; destruct (a2 =? 0); [apply still_ret|apply still_writable]).
  destruct (probe s) as [[ok s1]|] eqn:Eprobe; [|done]. pose proof (Hprobe _ _ _ Eprobe) as Hs1.
  destruct ok; [|by intros [= <- <-]]. cbn [negb]. unfold mbind at 1, sys_bind at 1.
  destruct (spawn_process path (path :: rest) a3 s1) as [[[pid|] s2]|] eqn:Esp; [|by intros [= <- <-]|done].
  eapply spawn_process_child in Esp as [Epid Hch]; [|by eapply ready_same; [apply Hs1|]].
  rewrite (same_tasks_pid _ _ (proj1 Hs1)) in Hch. replace (next_pid_ (s_manager s1)) with (next_pid_ (s_manager s)) in Epid
    by (destruct Hs1 as [(_ & _ & E & _) _]; congruence).
  unfold mbind, sys_bind. set (answer := if a2 =? 0 then _ else _).
  assert (Hanswer : still answer) by (unfold answer; destruct (a2 =? 0); [apply still_ret|apply still_store_bytes]).
  destruct (answer s2) as [[[] s3]|] eqn:Eans; [|done]. intros [= <- <-] _. split; [done|].
  eapply has_child_same; [apply (Hanswer _ _ _ Eans)|done].
Qed.

(** C7. Spawn makes the child that was asked for. When a thread of a live process calls it
    with a command line in its memory that spells words between blanks, and the call
    succeeds, its answer is the next process identifier, and the process with it is a
    child of the caller, has the first words of the line as its arguments, and is ready to
    run, or only created when the caller asked for that. *)
Theorem spawn_makes_the_child_asked_for a0 a1 a2 a3 (s : System) r (s' : System) text ws :
  system_wf s -> ids_left s -> current_tid (s_manager s) <> 0 -> current_pid (s_manager s) <> 0 ->
  nul_free text -> text_at a0 text s -> command_line text ws ->
  dispatch root may_store 46 a0 a1 a2 a3 s = Some (r, s') -> r_error r = 0 ->
  r_value r = next_pid_ (s_manager s) /\
  exists i p, find_process (s_manager s') (r_value r) = Some (i, p) /\
    pr_parent_pid p = current_pid (s_manager s) /\
    pr_arguments p = text_of <$> take 8 ws /\
    pr_state p = if Z.testbit a3 0 then ProcCreated else ProcRunnable.
Proof.
  intros [T P _] [Hu _] Ht Hc Hf Hat Hws.
  assert (ready_to_spawn (record_current_syscall 46 (s_manager s)).1) as Hr by (by apply ready_record).
  pose proof (touches_record (fun _ => True) 46 _ T (allowed_anyone _ _)) as To.
  unfold dispatch, mbind, sys_bind, manager at 1. change (number_of 46) with (Some Spawn).
  pose proof (record_current_pid 46 (s_manager s)) as Epid. pose proof (record_memory 46 (s_manager s)) as Emem.
  destruct (record_current_syscall 46 (s_manager s)) as [m1 ok]. cbn [fst] in *. cbv iota beta. intros E Hz.
  eapply (spawn_call_child a0 a1 a2 a3 _ _ _ text ws) in E as [Ev [Hp Hch]]; [|done..|unfold text_at; cbn; by rewrite Emem|done|done].
  cbn in Ev, Hch. rewrite (to_next _ _ _ To) in Ev. split; [done|].
  apply holds_find in Hch as (i & p & Hfind & Ecore); [|done|unfold spawned_state; by case_match].
  unfold core in Ecore. injection Ecore as _ Epar Eargs Est. exists i, p.
  split_and!; [done|by rewrite Epar|exact Eargs|by rewrite Est, spawned_state_bit].
Qed.
End Spawn.

(** Process 1 spawns the program of a memory file, with the command line in its memory. *)
#[local] Existing Instances demo_loader demo_loader_laws demo_services.

Definition spawn_command : list Z := txt "/bin/cp" ++ 32 :: (39 :: txt "my file" ++ 39 :: []).
Lemma spawn_words : command_line spawn_command [txt "/bin/cp"; txt "my file"].
Proof.
  apply line_word; [done|by apply spells_plain|by left|]. apply line_last; [done|].
  rewrite <-(app_nil_r (txt "my file")) at 2. constructor; [|constructor].
  change (txt "my file") with [109; 121; 32; 102; 105; 108; 101]. repeat constructor; lia.
Qed.
Definition spawn_vfs : Vfs := (register_memory_file (cs "/bin/cp") 0x500000 0x2000 demo_vfs).1.
Definition spawn_memory : sarr := write_bytes 0x700000 (spawn_command ++ [0]) (sa_const 0).
Definition spawn_boot : System unit unit := boot_system spawn_vfs spawn_memory sched_zero tt tt.
Definition spawn_ready : System unit unit := ready 1 (loaded "shell" spawn_boot).
Definition demo_caller : System unit unit := spawn_ready <| s_manager := (activate_thread 1 (s_manager spawn_ready)).1 |>.

Lemma demo_caller_wf : system_wf demo_caller.
Proof.
  assert (rtc kernel_step (spawn_boot, mkKeyboard false false false) (demo_caller, mkKeyboard false false false)) as Hr.
  { apply (rtc_l _ _ (loaded "shell" spawn_boot, mkKeyboard false false false)); [apply demo_loaded; by vm_compute|].
    unfold demo_caller, spawn_ready. generalize (loaded "shell" spawn_boot). intros s.
    eapply rtc_l; [exact (step_start s _ 1)|]. apply rtc_once. exact (step_resume (ready 1 s) _ 1). }
  apply kernel_steps_wf in Hr; [exact Hr|]. apply boot_system_wf.
Qed.

Lemma demo_caller_text : text_at 0x1000 0x700000 spawn_command demo_caller.
Proof.
  intros i c Hi. assert (Hl : (i < length (spawn_command ++ [0%Z]))%nat) by (by eapply lookup_lt_Some).
  assert (forallb (fun i : nat => let a := w64 (0x700000 + Z.of_nat i) in
    negb (a =? 0) && bool_decide ((spawn_command ++ [0]) !! i = Some (w8 (sa_get spawn_memory a))))
    (seq 0 (length (spawn_command ++ [0%Z]))) = true) as Hall by (vm_compute; reflexivity).
  rewrite forallb_forall in Hall. specialize (Hall i). rewrite in_seq in Hall.
  specialize (Hall (conj (Nat.le_0_l i) Hl)). apply andb_true_iff in Hall as [Ha Hb]. apply bool_decide_eq_true in Hb.
  rewrite Hi in Hb. assert (k_memory (s_manager demo_caller) = spawn_memory) as -> by (vm_compute; reflexivity).
  split; [by apply Z.eqb_neq, negb_true_iff|]. injection Hb as ->. reflexivity.
Qed.

Lemma spawn_makes_the_child_asked_for_witness :
  exists r s' i p, dispatch 0x1000 (fun _ => true) 46 0x700000 64 0x710000 1 demo_caller = Some (r, s') /\ r_error r = 0 /\
    r_value r = 2 /\ find_process (s_manager s') 2 = Some (i, p) /\ pr_parent_pid p = 1 /\
    pr_arguments p = text_of <$> [txt "/bin/cp"; txt "my file"] /\ pr_state p = ProcCreated.
Proof.
  destruct (dispatch 0x1000 (fun _ => true) 46 0x700000 64 0x710000 1 demo_caller) as [[r s']|] eqn:E; [|by vm_compute in E].
  assert (Hz : r_error r = 0) by (vm_compute in E; injection E as <- _; reflexivity).
  assert (Hi : ids_left demo_caller) by (split; vm_compute; split; congruence).
  assert (Ht : current_tid (s_manager demo_caller) <> 0) by (vm_compute; congruence).
  assert (Hcur : current_pid (s_manager demo_caller) = 1) by (vm_compute; reflexivity).
  assert (Hnext : next_pid_ (s_manager demo_caller) = 2) by (vm_compute; reflexivity).
  assert (Hc : current_pid (s_manager demo_caller) <> 0) by (rewrite Hcur; congruence).
  assert (Hf : nul_free spawn_command) by (apply nul_freeb_ok; vm_compute; reflexivity).
  destruct (spawn_makes_the_child_asked_for 0x1000 (fun _ => true) 0x700000 64 0x710000 1 demo_caller r s' spawn_command
    [txt "/bin/cp"; txt "my file"] demo_caller_wf Hi Ht Hc Hf demo_caller_text spawn_words E Hz)
    as (Hv & i & p & Hfind & Hpar & Hargs & Hst).
  rewrite Hnext in Hv. rewrite Hv in Hfind. rewrite Hcur in Hpar. exists r, s', i, p.
  split; [reflexivity|]. split; [exact Hz|]. split; [exact Hv|]. split; [exact Hfind|]. split; [exact Hpar|].
  split; [exact Hargs|exact Hst].
Defined.
