(* ===== verification/Console.v ===== *)
(** * The console on the frame buffer (kernel/src/console.cpp)

    The console keeps the last lines of text in a ring of rows, draws characters in the
    frame buffer as they come, and draws the whole screen again when it scrolls.  The text
    it stands for is a list of lines; the theorems show that what the screen shows, pixel
    by pixel, is the end of this text, and that drawing stays inside the frame buffer. *)

From stdpp Require Import strings.
From Stdlib Require Import ZifyBool.
From S2P Require Import Prelude.
#[local] Open Scope Z_scope.

(** ** Data *)

(** The fields of the frame buffer that the console reads. *)
Record FramebufferInfo := mkFramebufferInfo { base : Z; width : Z; height : Z; pixels_per_scanline : Z }.

Record ConsoleStats := mkConsoleStats {
  clear_calls : Z; cwrite_calls : Z; put_calls : Z; newline_count : Z; backspace_count : Z; render_calls : Z; glyph_draws : Z;
  cells_written : Z; cscroll_relative_ops : Z; cscroll_to_bottom_ops : Z; cinput_line_resets : Z
}.
#[export] Instance ConsoleStats_eta : Eta ConsoleStats := fun r =>
  mkConsoleStats (clear_calls r) (cwrite_calls r) (put_calls r) (newline_count r) (backspace_count r) (render_calls r)
    (glyph_draws r) (cells_written r) (cscroll_relative_ops r) (cscroll_to_bottom_ops r) (cinput_line_resets r).

(** [cells_] is the two-dimensional array of the source, row after row; [pixels_] is the
    memory behind [fb_.base], by pixel. *)
Record Console := mkConsole {
  fb_ : FramebufferInfo; cursor_x_ : Z; cursor_row_ : Z; viewport_bottom_ : Z; follow_tail_ : bool; stats_ : ConsoleStats;
  cells_ : sarr; pixels_ : sarr
}.
#[export] Instance Console_eta : Eta Console := fun r =>
  mkConsole (fb_ r) (cursor_x_ r) (cursor_row_ r) (viewport_bottom_ r) (follow_tail_ r) (stats_ r) (cells_ r) (pixels_ r).

Definition kMaxColumns : Z := 160.
Definition kScrollbackRows : Z := 512.
Definition fg_ : Z := 0x00d6dee7.
Definition bg_ : Z := 0x00101820.

Definition font : list (list Z) := [
   [0; 0; 0; 0; 0; 0; 0; 0]; [24; 24; 24; 24; 24; 0; 24; 0]; [54; 54; 36; 0; 0; 0; 0; 0]; [54; 54; 127; 54; 127; 54; 54; 0];
   [24; 62; 96; 60; 6; 124; 24; 0]; [98; 102; 12; 24; 48; 102; 70; 0]; [56; 108; 56; 118; 220; 204; 118; 0]; [24; 24; 48; 0; 0; 0; 0; 0];
   [12; 24; 48; 48; 48; 24; 12; 0]; [48; 24; 12; 12; 12; 24; 48; 0]; [0; 102; 60; 255; 60; 102; 0; 0]; [0; 24; 24; 126; 24; 24; 0; 0];
   [0; 0; 0; 0; 0; 24; 24; 48]; [0; 0; 0; 126; 0; 0; 0; 0]; [0; 0; 0; 0; 0; 24; 24; 0]; [2; 6; 12; 24; 48; 96; 64; 0];
   [60; 102; 110; 118; 102; 102; 60; 0]; [24; 56; 24; 24; 24; 24; 126; 0]; [60; 102; 6; 12; 48; 96; 126; 0]; [60; 102; 6; 28; 6; 102; 60; 0];
   [12; 28; 60; 108; 126; 12; 12; 0]; [126; 96; 124; 6; 6; 102; 60; 0]; [28; 48; 96; 124; 102; 102; 60; 0]; [126; 6; 12; 24; 48; 48; 48; 0];
   [60; 102; 102; 60; 102; 102; 60; 0]; [60; 102; 102; 62; 6; 12; 56; 0]; [0; 24; 24; 0; 0; 24; 24; 0]; [0; 24; 24; 0; 0; 24; 24; 48];
   [12; 24; 48; 96; 48; 24; 12; 0]; [0; 0; 126; 0; 126; 0; 0; 0]; [48; 24; 12; 6; 12; 24; 48; 0]; [60; 102; 6; 12; 24; 0; 24; 0];
   [60; 102; 110; 110; 110; 96; 62; 0]; [24; 60; 102; 102; 126; 102; 102; 0]; [124; 102; 102; 124; 102; 102; 124; 0]; [60; 102; 96; 96; 96; 102; 60; 0];
   [120; 108; 102; 102; 102; 108; 120; 0]; [126; 96; 96; 124; 96; 96; 126; 0]; [126; 96; 96; 124; 96; 96; 96; 0]; [60; 102; 96; 110; 102; 102; 60; 0];
   [102; 102; 102; 126; 102; 102; 102; 0]; [126; 24; 24; 24; 24; 24; 126; 0]; [30; 12; 12; 12; 12; 108; 56; 0]; [102; 108; 120; 112; 120; 108; 102; 0];
   [96; 96; 96; 96; 96; 96; 126; 0]; [99; 119; 127; 107; 99; 99; 99; 0]; [102; 118; 126; 126; 110; 102; 102; 0]; [60; 102; 102; 102; 102; 102; 60; 0];
   [124; 102; 102; 124; 96; 96; 96; 0]; [60; 102; 102; 102; 110; 60; 14; 0]; [124; 102; 102; 124; 120; 108; 102; 0]; [60; 102; 96; 60; 6; 102; 60; 0];
   [126; 24; 24; 24; 24; 24; 24; 0]; [102; 102; 102; 102; 102; 102; 60; 0]; [102; 102; 102; 102; 102; 60; 24; 0]; [99; 99; 99; 107; 127; 119; 99; 0];
   [102; 102; 60; 24; 60; 102; 102; 0]; [102; 102; 102; 60; 24; 24; 24; 0]; [126; 6; 12; 24; 48; 96; 126; 0]; [60; 48; 48; 48; 48; 48; 60; 0];
   [64; 96; 48; 24; 12; 6; 2; 0]; [60; 12; 12; 12; 12; 12; 60; 0]; [24; 60; 102; 0; 0; 0; 0; 0]; [0; 0; 0; 0; 0; 0; 0; 255];
   [48; 24; 12; 0; 0; 0; 0; 0]; [0; 0; 60; 6; 62; 102; 62; 0]; [96; 96; 124; 102; 102; 102; 124; 0]; [0; 0; 60; 102; 96; 102; 60; 0];
   [6; 6; 62; 102; 102; 102; 62; 0]; [0; 0; 60; 102; 126; 96; 60; 0]; [28; 54; 48; 120; 48; 48; 48; 0]; [0; 0; 62; 102; 102; 62; 6; 124];
   [96; 96; 124; 102; 102; 102; 102; 0]; [24; 0; 56; 24; 24; 24; 60; 0]; [6; 0; 6; 6; 6; 102; 102; 60]; [96; 96; 102; 108; 120; 108; 102; 0];
   [56; 24; 24; 24; 24; 24; 60; 0]; [0; 0; 102; 127; 107; 99; 99; 0]; [0; 0; 124; 102; 102; 102; 102; 0]; [0; 0; 60; 102; 102; 102; 60; 0];
   [0; 0; 124; 102; 102; 124; 96; 96]; [0; 0; 62; 102; 102; 62; 6; 6]; [0; 0; 108; 118; 96; 96; 96; 0]; [0; 0; 62; 96; 60; 6; 124; 0];
   [48; 48; 120; 48; 48; 54; 28; 0]; [0; 0; 102; 102; 102; 102; 62; 0]; [0; 0; 102; 102; 102; 60; 24; 0]; [0; 0; 99; 99; 107; 127; 54; 0];
   [0; 0; 102; 60; 24; 60; 102; 0]; [0; 0; 102; 102; 102; 62; 6; 124]; [0; 0; 126; 12; 24; 48; 126; 0]; [14; 24; 24; 112; 24; 24; 14; 0];
   [24; 24; 24; 0; 24; 24; 24; 0]; [112; 24; 24; 14; 24; 24; 112; 0]; [118; 220; 0; 0; 0; 0; 0; 0]; [0; 16; 56; 108; 198; 198; 254; 0]].

(** [cells_[row % kScrollbackRows][col]] *)
Definition cell_index (row col : Z) : Z := row mod kScrollbackRows * kMaxColumns + col.
Definition get_cell (row col : Z) (c : Console) : Z := sa_get (cells_ c) (cell_index row col).
Definition set_cell (row col ch : Z) (c : Console) : Console := c <| cells_ ::= fun d => sa_set d (cell_index row col) ch |>.

Definition columns (c : Console) : Z :=
  let cols := width (fb_ c) / 8 in if kMaxColumns <? cols then kMaxColumns else cols.
Definition rows (c : Console) : Z := height (fb_ c) / 16.
Definition oldest_row (c : Console) : Z :=
  if kScrollbackRows <=? cursor_row_ c then cursor_row_ c - kScrollbackRows + 1 else 0.
(** The row at the top of the screen, which many functions compute in place. *)
Definition top_row (c : Console) : Z :=
  let last := w32 (rows c - 1) in if last <=? viewport_bottom_ c then viewport_bottom_ c - last else 0.

(** ** Pixels *)

(** [pixels[y * fb_.pixels_per_scanline + x] = v] *)
Definition pixel_index (fb : FramebufferInfo) (x y : Z) : Z := w32 (w32 (y * pixels_per_scanline fb) + x).
Definition set_pixel (fb : FramebufferInfo) (x y v : Z) (d : sarr) : sarr := sa_set d (pixel_index fb x y) v.

(** The state after a loop that may [break]. *)
Definition past {S} (r : flow S S) : S := match r with Next s | Stop s => s end.

Definition clear_pixels_in (fb : FramebufferInfo) (d : sarr) : sarr :=
  for_range 0 (height fb) (fun y d => for_range 0 (width fb) (fun x d => set_pixel fb x y bg_ d) d) d.

Definition clear_cell_in (fb : FramebufferInfo) (cell_x cell_y : Z) (d : sarr) : sarr :=
  let start_x := w32 (cell_x * 8) in
  let start_y := w32 (cell_y * 16) in
  past (loop_range 0 16 (fun y d =>
    let py := w32 (start_y + y) in
    if height fb <=? py then Stop d
    else Next (past (loop_range 0 8 (fun x d =>
      let px := w32 (start_x + x) in
      if width fb <=? px then Stop d else Next (set_pixel fb px py bg_ d)) d))) d).

Definition draw_glyph (fb : FramebufferInfo) (ch x y color : Z) (d : sarr) : sarr :=
  let ch := if (ch <? 32) || (127 <? ch) then 63 else ch in
  let glyph := nth (Z.to_nat (ch - 32)) font [] in
  for_range 0 8 (fun row d => for_range 0 8 (fun col d =>
    let out := if negb (Z.land (nth (Z.to_nat row) glyph 0) (Z.shiftl 1 (7 - col)) =? 0) then color else bg_ in
    let py0 := w32 (y + row * 2) in
    let py1 := w32 (py0 + 1) in
    let px := w32 (x + col) in
    let d := if (px <? width fb) && (py0 <? height fb) then set_pixel fb px py0 out d else d in
    if (px <? width fb) && (py1 <? height fb) then set_pixel fb px py1 out d else d) d) d.

Definition clear_pixels (c : Console) : Console := c <| pixels_ ::= clear_pixels_in (fb_ c) |>.
Definition clear_pixel_cell (cell_x cell_y : Z) (c : Console) : Console := c <| pixels_ ::= clear_cell_in (fb_ c) cell_x cell_y |>.
Definition clear_pixel_row (cell_y : Z) (c : Console) : Console :=
  for_range 0 (columns c) (fun x => clear_pixel_cell x cell_y) c.
Definition draw_char (ch x y color : Z) (c : Console) : Console :=
  c <| stats_ ::= fun s => s <| glyph_draws ::= inc64 |> |> <| pixels_ ::= draw_glyph (fb_ c) ch x y color |>.

(** ** Text *)

Definition clear_history_row (absolute_row : Z) (c : Console) : Console :=
  for_range 0 kMaxColumns (fun col => set_cell absolute_row col 32) c.

Definition clear (c : Console) : Console :=
  let c := c <| stats_ ::= fun s => s <| clear_calls ::= inc64 |> |> in
  let c := for_range 0 kScrollbackRows (fun row => for_range 0 kMaxColumns (fun col => set_cell row col 32)) c in
  clear_pixels (c <| cursor_x_ := 0 |> <| cursor_row_ := 0 |> <| viewport_bottom_ := 0 |> <| follow_tail_ := true |>).

Definition initialize (fb : FramebufferInfo) (c : Console) : Console := clear (c <| fb_ := fb |>).

Definition render_row (cols screen_row absolute_row : Z) (c : Console) : Console :=
  for_range 0 cols (fun col c =>
    let ch := get_cell absolute_row col c in
    if negb (ch =? 0) && negb (ch =? 32) then draw_char ch (w32 (col * 8)) (w32 (screen_row * 16)) fg_ c else c) c.

Definition render (c : Console) : Console :=
  let c := c <| stats_ ::= fun s => s <| render_calls ::= inc64 |> |> in
  let visible_rows := rows c in
  let cols := columns c in
  if (visible_rows =? 0) || (cols =? 0) || (base (fb_ c) =? 0) then c
  else
    let c := clear_pixels c in
    let top := top_row c in
    let oldest := oldest_row c in
    for_range 0 visible_rows (fun screen_row c =>
      let absolute_row := w64 (top + screen_row) in
      if (absolute_row <? oldest) || (cursor_row_ c <? absolute_row) then c
      else render_row cols screen_row absolute_row c) c.

Definition newline (c : Console) : Console :=
  let c := c <| stats_ ::= fun s => s <| newline_count ::= inc64 |> |> <| cursor_x_ := 0 |> <| cursor_row_ ::= inc64 |> in
  let c := clear_history_row (cursor_row_ c) c in
  if follow_tail_ c then
    let c := c <| viewport_bottom_ := cursor_row_ c |> in
    if rows c <=? cursor_row_ c then render c else c
  else c.

Definition clear_cell (cell_x cell_y : Z) (c : Console) : Console :=
  if (columns c =? 0) || (rows c =? 0) then c
  else
    let absolute_row := w64 (top_row c + cell_y) in
    let c := if (cell_x <? columns c) && (absolute_row <=? cursor_row_ c) && (oldest_row c <=? absolute_row)
             then set_cell absolute_row cell_x 32 c else c in
    clear_pixel_cell cell_x cell_y c.

Definition backspace (c : Console) : Console :=
  let c := c <| stats_ ::= fun s => s <| backspace_count ::= inc64 |> |> in
  let cols := columns c in
  if cols =? 0 then c
  else if (cursor_x_ c =? 0) && (cursor_row_ c =? 0) then c
  else
    let c := if cursor_x_ c =? 0 then c <| cursor_row_ ::= Z.pred |> <| cursor_x_ := w32 (cols - 1) |> else c <| cursor_x_ ::= Z.pred |> in
    if follow_tail_ c then clear_cell (cursor_x_ c) (w32 (cursor_row_ c - top_row c)) c
    else render (set_cell (cursor_row_ c) (cursor_x_ c) 32 c).

Definition put (ch : Z) (c : Console) : Console :=
  let c := c <| stats_ ::= fun s => s <| put_calls ::= inc64 |> |> in
  if ch =? 10 then newline c
  else if ch =? 13 then c
  else if ch =? 12 then clear c
  else if ch =? 8 then backspace c
  else
    let cols := columns c in
    if cols =? 0 then c
    else
      let c := set_cell (cursor_row_ c) (cursor_x_ c) ch c <| stats_ ::= fun s => s <| cells_written ::= inc64 |> |> in
      let c := if follow_tail_ c && negb (rows c =? 0) then
                 let top := top_row c in
                 if (top <=? cursor_row_ c) && (cursor_row_ c <? w64 (top + rows c))
                 then draw_char ch (w32 (cursor_x_ c * 8)) (w32 (w32 (cursor_row_ c - top) * 16)) fg_ c else c
               else c in
      let c := c <| cursor_x_ ::= inc32 |> in
      if cols <=? cursor_x_ c then newline c else c.

(** The text is a C string, without its final 0. *)
Definition write (text : list Z) (c : Console) : Console :=
  foldl (fun c ch => put ch c) (c <| stats_ ::= fun s => s <| cwrite_calls ::= inc64 |> |>) text.

Definition hex_digits : list Z := [48; 49; 50; 51; 52; 53; 54; 55; 56; 57; 97; 98; 99; 100; 101; 102].
(** [for (int i = 60; i >= 0; i -= 4)] is sixteen turns. *)
Definition write_hex (value : Z) (c : Console) : Console :=
  for_range 0 16 (fun k => put (nth (Z.to_nat (Z.land (Z.shiftr value (60 - 4 * k)) 15)) hex_digits 0)) (write [48; 120] c).

Definition update_view_to_tail (c : Console) : Console :=
  render (c <| viewport_bottom_ := cursor_row_ c |> <| follow_tail_ := true |>).

Definition scroll_view (amount : Z) (c : Console) : Console :=
  let c := c <| stats_ ::= fun s => s <| cscroll_relative_ops ::= inc64 |> |> in
  let visible_rows := rows c in
  if visible_rows =? 0 then c
  else
    let minimum_bottom := w64 (oldest_row c + (visible_rows - 1)) in
    let minimum_bottom := if cursor_row_ c <? minimum_bottom then cursor_row_ c else minimum_bottom in
    let bottom := viewport_bottom_ c in
    let bottom :=
      if amount <? 0 then
        let delta := w64 (- amount) in
        if (bottom <=? minimum_bottom) || (bottom - minimum_bottom <? delta) then minimum_bottom else bottom - delta
      else if 0 <? amount then
        let delta := w64 amount in
        if (cursor_row_ c <=? bottom) || (cursor_row_ c - bottom <? delta) then cursor_row_ c else bottom + delta
      else bottom in
    render (c <| viewport_bottom_ := bottom |> <| follow_tail_ := bottom =? cursor_row_ c |>).

Definition scroll_to_bottom (c : Console) : Console :=
  update_view_to_tail (c <| stats_ ::= fun s => s <| cscroll_to_bottom_ops ::= inc64 |> |>).

Definition reset_input_line (c : Console) : Console :=
  let c := scroll_to_bottom (c <| stats_ ::= fun s => s <| cinput_line_resets ::= inc64 |> |>) in
  let visible_rows := rows c in
  if visible_rows =? 0 then c
  else
    let screen_row := w32 (cursor_row_ c - top_row c) in
    let c := clear_history_row (cursor_row_ c) c <| cursor_x_ := 0 |> in
    if screen_row <? visible_rows then clear_pixel_row screen_row c else c.

Definition clear_row (cell_y : Z) (c : Console) : Console := for_range 0 (columns c) (fun x => clear_cell x cell_y) c.

(** ** Drawing

    What a drawing step does to the pixels of the screen is a partial function of the
    coordinates: the pixels that it sets, and their values. *)

(** A frame buffer with at least one character and at most the rows of the ring, whose
    pixels a 32-bit index reaches. *)
Record usable (fb : FramebufferInfo) : Prop := {
  us_base : base fb <> 0;
  us_width : 8 <= width fb <= pixels_per_scanline fb;
  us_height : 16 <= height fb < 8208;
  us_size : height fb * pixels_per_scanline fb <= two32
}.

Lemma for_range_le {S : Type} (P : Z -> S -> Prop) lo hi body s :
  lo <= hi -> P lo s -> (forall i s, lo <= i < hi -> P i s -> P (i + 1) (body i s)) -> P hi (for_range lo hi body s).
Proof. intros Hle H0 Hs. pose proof (for_range_inv P lo hi body s H0 Hs) as H1. by rewrite Z.max_r in H1. Qed.

Ltac branches := intros; cbn; repeat (case_match; try lia; try done).

Section Drawing.
Context (fb : FramebufferInfo) (Hfb : usable fb).

Definition on_screen (x y : Z) : Prop := 0 <= x < width fb /\ 0 <= y < height fb.
Definition pix (d : sarr) (x y : Z) : Z := sa_get d (y * pixels_per_scanline fb + x).

Definition paints (D : Z -> Z -> option Z) (d d' : sarr) : Prop :=
  forall x y, on_screen x y -> pix d' x y = default (pix d x y) (D x y).
(** Nothing outside of the pixels of the screen changes. *)
Definition inside (d d' : sarr) : Prop :=
  forall i, (forall x y, on_screen x y -> i <> y * pixels_per_scanline fb + x) -> sa_get d' i = sa_get d i.

#[global] Instance inside_refl : Reflexive inside.
Proof. by intros d i. Qed.
#[global] Instance inside_trans : Transitive inside.
Proof. intros a b c H1 H2 i Hi. by rewrite (H2 i Hi), (H1 i Hi). Qed.

Lemma pixel_index_on x y : on_screen x y -> pixel_index fb x y = y * pixels_per_scanline fb + x.
Proof.
  intros [Hx Hy]. destruct Hfb as [_ Hw Hh Hs]. unfold pixel_index.
  assert (0 <= y * pixels_per_scanline fb <= (height fb - 1) * pixels_per_scanline fb) by nia.
  rewrite !w32_small; unfold u32; [done|..|rewrite w32_small]; unfold u32; lia.
Qed.

Lemma paints_none d : paints (fun _ _ => None) d d.
Proof. done. Qed.
Lemma paints_step D E D' d d1 d2 : paints D d d1 -> paints E d1 d2 ->
  (forall x y, on_screen x y -> D' x y = E x y ∪ D x y) -> paints D' d d2.
Proof.
  intros H1 H2 HD x y Hxy. rewrite (H2 x y Hxy), (H1 x y Hxy), (HD x y Hxy). by destruct (E x y), (D x y).
Qed.
Lemma paints_ext D D' d d' : paints D d d' -> (forall x y, on_screen x y -> D' x y = D x y) -> paints D' d d'.
Proof. intros H1 HD x y Hxy. by rewrite (H1 x y Hxy), (HD x y Hxy). Qed.

Lemma paints_set x y v d : on_screen x y ->
  paints (fun x' y' => if (x' =? x) && (y' =? y) then Some v else None) d (set_pixel fb x y v d).
Proof.
  intros Hxy x' y' Hxy'. unfold set_pixel, pix. rewrite (pixel_index_on x y Hxy). destruct Hxy as [Hx Hy], Hxy' as [Hx' Hy'].
  destruct Hfb as [_ Hw _ _]. destruct (Z.eqb_spec x' x) as [->|Hne]; [destruct (Z.eqb_spec y' y) as [->|Hne]|]; cbn.
  - by rewrite sa_get_set_eq.
  - rewrite sa_get_set_ne; [done|]. intros E. apply Hne. nia.
  - rewrite sa_get_set_ne; [done|]. intros E. assert (y' = y) by nia. nia.
Qed.
Lemma inside_set x y v d : on_screen x y -> inside d (set_pixel fb x y v d).
Proof.
  intros Hxy i Hi. unfold set_pixel. rewrite (pixel_index_on x y Hxy). apply sa_get_set_ne. intros E. by apply (Hi x y Hxy).
Qed.

(** Clearing the screen. *)
Lemma clear_pixels_paints d : paints (fun _ _ => Some bg_) d (clear_pixels_in fb d).
Proof.
  destruct Hfb as [_ Hw Hh _].
  assert (paints (fun _ y => if y <? Z.max 0 (height fb) then Some bg_ else None) d (clear_pixels_in fb d)) as Hp.
  { apply (for_range_inv (fun k d' => paints (fun _ y => if y <? k then Some bg_ else None) d d')).
    - eapply paints_ext; [apply paints_none|]. intros x y [_ Hy]. case_match; [lia|done].
    - intros k d1 Hk Hd1. set (d2 := for_range _ _ _ d1).
      assert (paints (fun x y => if (y =? k) && (x <? Z.max 0 (width fb)) then Some bg_ else None) d1 d2) as Hd2.
      { apply (for_range_inv (fun j d' => paints (fun x y => if (y =? k) && (x <? j) then Some bg_ else None) d1 d')).
        - eapply paints_ext; [apply paints_none|]. intros x y [Hx _]. case_match; [lia|done].
        - intros j d' Hj Hd'. eapply paints_step; [exact Hd'|by apply paints_set|]. intros x y Hxy.
          cbn. repeat (case_match; try lia; try done). }
      eapply paints_step; [exact Hd1|exact Hd2|]. intros x y [Hx Hy]. cbn. repeat (case_match; try lia; try done). }
  eapply paints_ext; [exact Hp|]. intros x y [_ Hy]. cbn. case_match; [done|lia].
Qed.

(** The pixels of a box of [w] times [h] pixels. *)
Definition in_box (x0 y0 w h x y : Z) : bool := (x0 <=? x) && (x <? x0 + w) && (y0 <=? y) && (y <? y0 + h).

Ltac boxes := intros; unfold in_box, on_screen in *; branches.

(** Clearing one line of a cell, and a cell. *)
Lemma clear_line_paints x0 py d : 0 <= x0 -> x0 + 8 <= two32 -> 0 <= py < height fb ->
  paints (fun x y => if in_box x0 py 8 1 x y then Some bg_ else None) d
    (past (loop_range 0 8 (fun x d => let px := w32 (x0 + x) in
       if width fb <=? px then Stop d else Next (set_pixel fb px py bg_ d)) d)).
Proof.
  intros Hx0 Hx1 Hpy. set (F := fun k x y => if in_box x0 py k 1 x y then Some bg_ else None).
  pose proof (loop_range_le (fun k => paints (F k) d) (fun d' => paints (F 8) d d') 0 8
    (fun x d => let px := w32 (x0 + x) in if width fb <=? px then Stop d else Next (set_pixel fb px py bg_ d)) d) as Hl.
  destruct (loop_range _ _ _ _); apply Hl; try lia;
    [eapply paints_ext; [apply paints_none|]; unfold F; boxes| |eapply paints_ext; [apply paints_none|]; unfold F; boxes| ];
    intros k d1 Hk Hd1; cbn zeta; rewrite w32_small by (unfold u32; lia); destruct (Z.leb_spec (width fb) (x0 + k)); cbn;
    solve [eapply paints_ext; [exact Hd1|]; unfold F; boxes
          |eapply paints_step; [exact Hd1|apply paints_set; split; lia|]; unfold F; boxes].
Qed.

Lemma clear_cell_paints cell_x cell_y d : 0 <= cell_x -> cell_x * 8 + 8 <= two32 -> 0 <= cell_y -> cell_y * 16 + 16 <= two32 ->
  paints (fun x y => if in_box (cell_x * 8) (cell_y * 16) 8 16 x y then Some bg_ else None) d (clear_cell_in fb cell_x cell_y d).
Proof.
  intros Hx0 Hx1 Hy0 Hy1. unfold clear_cell_in. rewrite (w32_small (cell_x * 8)), (w32_small (cell_y * 16)) by (unfold u32; lia).
  set (F := fun k x y => if in_box (cell_x * 8) (cell_y * 16) 8 k x y then Some bg_ else None).
  match goal with |- context [loop_range 0 16 ?b d] =>
    pose proof (loop_range_le (fun k => paints (F k) d) (fun d' => paints (F 16) d d') 0 16 b d) as Hl end.
  destruct (loop_range _ _ _ _); apply Hl; try lia;
    [eapply paints_ext; [apply paints_none|]; unfold F; boxes| |eapply paints_ext; [apply paints_none|]; unfold F; boxes| ];
    intros k d1 Hk Hd1; cbn zeta; rewrite (w32_small (cell_y * 16 + k)) by (unfold u32; lia);
    destruct (Z.leb_spec (height fb) (cell_y * 16 + k)); cbn;
    solve [eapply paints_ext; [exact Hd1|]; unfold F; boxes
          |eapply paints_step; [exact Hd1|apply clear_line_paints; lia|]; unfold F; boxes].
Qed.

(** ** Glyphs *)

Definition ink (ch row col : Z) : bool :=
  Z.testbit (nth (Z.to_nat row) (nth (Z.to_nat ((if (ch <? 32) || (127 <? ch) then 63 else ch) - 32)) font []) 0) (7 - col).

Lemma land_bit v n : 0 <= n -> (Z.land v (Z.shiftl 1 n) =? 0) = negb (Z.testbit v n).
Proof.
  intros Hn. destruct (Z.testbit v n) eqn:E; cbn.
  - apply Z.eqb_neq. intros H. assert (Z.testbit (Z.land v (Z.shiftl 1 n)) n = true) as Hb; [|by rewrite H, Z.bits_0 in Hb].
    rewrite Z.land_spec, E, Z.shiftl_spec, Z.sub_diag by done. done.
  - apply Z.eqb_eq, Z.bits_inj'. intros k Hk. rewrite Z.land_spec, Z.bits_0, Z.shiftl_spec by done.
    destruct (Z.eq_dec k n) as [->|Hne]; [by rewrite E|]. destruct (Z.lt_ge_cases k n).
    + rewrite (Z.testbit_neg_r 1) by lia. apply andb_false_r.
    + change 1 with (2 ^ 0). rewrite Z.pow2_bits_false by lia. apply andb_false_r.
Qed.

Lemma paints_set_if x y v d : 0 <= x -> 0 <= y ->
  paints (fun x' y' => if (x' =? x) && (y' =? y) then Some v else None) d
    (if (x <? width fb) && (y <? height fb) then set_pixel fb x y v d else d).
Proof.
  intros Hx Hy. case_match eqn:E; [apply paints_set; split; lia|]. eapply paints_ext; [apply paints_none|]. boxes.
Qed.

Lemma draw_glyph_paints ch x0 y0 color d : 0 <= x0 -> x0 + 8 <= two32 -> 0 <= y0 -> y0 + 16 <= two32 ->
  paints (fun x y => if in_box x0 y0 8 16 x y then Some (if ink ch ((y - y0) / 2) (x - x0) then color else bg_) else None) d
    (draw_glyph fb ch x0 y0 color d).
Proof.
  intros Hx0 Hx1 Hy0 Hy1. unfold draw_glyph.
  set (F := fun w h x y => if in_box x0 y0 w h x y then Some (if ink ch ((y - y0) / 2) (x - x0) then color else bg_) else None).
  apply (for_range_inv (fun r d' => paints (F 8 (2 * r)) d d') 0 8); [eapply paints_ext; [apply paints_none|]; unfold F; boxes|].
  intros r d1 Hr Hd1. set (d2 := for_range 0 8 _ d1).
  set (G := fun w x y => if in_box x0 (y0 + 2 * r) w 2 x y then Some (if ink ch r (x - x0) then color else bg_) else None).
  assert (paints (G 8) d1 d2) as Hd2.
  { apply (for_range_inv (fun k d' => paints (G k) d1 d') 0 8); [eapply paints_ext; [apply paints_none|]; unfold G; boxes|].
    intros k d' Hk Hd'. rewrite land_bit, negb_involutive by lia. rewrite (w32_small (y0 + r * 2)), (w32_small (y0 + r * 2 + 1)),
      (w32_small (x0 + k)) by (unfold u32; lia). fold (ink ch r k). set (out := if ink ch r k then color else bg_).
    eapply paints_step; [|apply paints_set_if; lia|];
      [eapply paints_step; [exact Hd'|apply paints_set_if; lia|reflexivity]|].
    intros x y _. cbn. unfold G. destruct (Z.eqb_spec x (x0 + k)) as [->|Hx].
    - replace (x0 + k - x0) with k by lia. fold out. boxes.
    - boxes. }
  eapply paints_step; [exact Hd1|exact Hd2|]. intros x y _. cbn. unfold F, G.
  destruct (in_box x0 (y0 + 2 * r) 8 2 x y) eqn:E.
  - replace ((y - y0) / 2) with r; [boxes|]. unfold in_box in E. Z.to_euclidean_division_equations; lia.
  - boxes.
Qed.

(** ** Drawing stays on the screen *)

Lemma for_range_inside lo hi body d : (forall i d, lo <= i < hi -> inside d (body i d)) -> inside d (for_range lo hi body d).
Proof. intros Hb. apply (for_range_inv (fun _ d' => inside d d')); [done|]. intros k d' Hk Hd. etrans; [done|by apply Hb]. Qed.
Lemma loop_inside lo hi body d : (forall i d, lo <= i < hi -> flow_spec (inside d) (inside d) (body i d)) ->
  inside d (past (loop_range lo hi body d)).
Proof.
  intros Hb. pose proof (loop_range_inv (fun _ d' => inside d d') (inside d) lo hi body d (reflexivity _)) as Hl.
  destruct (loop_range lo hi body d); apply Hl; intros k d' Hk Hd; specialize (Hb k d' Hk);
    destruct (body k d'); cbn in *; by etrans.
Qed.
Lemma inside_if (b : bool) x y v d : (b = true -> on_screen x y) -> inside d (if b then set_pixel fb x y v d else d).
Proof. intros Hb. destruct b; [apply inside_set; auto|done]. Qed.

Lemma clear_pixels_inside d : inside d (clear_pixels_in fb d).
Proof. apply for_range_inside. intros y d1 Hy. apply for_range_inside. intros x d2 Hx. by apply inside_set. Qed.
Lemma clear_cell_inside cell_x cell_y d : inside d (clear_cell_in fb cell_x cell_y d).
Proof.
  apply loop_inside. intros y d1 Hy. cbn zeta. case_match eqn:Ey; cbn; [done|]. apply loop_inside. intros x d2 Hx. cbn zeta.
  pose proof (w32_range (w32 (cell_y * 16) + y)) as [? _]. pose proof (w32_range (w32 (cell_x * 8) + x)) as [? _].
  case_match eqn:Ex; cbn; [done|]. apply inside_set. split; lia.
Qed.
Lemma draw_glyph_inside ch x y color d : inside d (draw_glyph fb ch x y color d).
Proof.
  apply for_range_inside. intros row d1 Hr. apply for_range_inside. intros col d2 Hc.
  pose proof (w32_range (y + row * 2)) as [? _]. pose proof (w32_range (w32 (y + row * 2) + 1)) as [? _].
  pose proof (w32_range (x + col)) as [? _]. cbn zeta. etrans; [|apply inside_if; unfold on_screen; lia].
  apply inside_if. unfold on_screen. lia.
Qed.
End Drawing.

#[local] Opaque draw_glyph clear_cell_in clear_pixels_in.

(** ** The table of characters *)

(** Everything but the statistics and the pixels. *)
Definition state (c : Console) := (fb_ c, cursor_x_ c, cursor_row_ c, viewport_bottom_ c, follow_tail_ c, cells_ c).
(** Everything but the table of characters and the statistics. *)
Definition frame (c : Console) := (fb_ c, cursor_x_ c, cursor_row_ c, viewport_bottom_ c, follow_tail_ c, pixels_ c).

Ltac same_state H := unfold state, frame in H; injection H as ? ? ? ? ? ?.

Lemma get_set_cell r0 x0 v r x c : 0 <= x < kMaxColumns -> 0 <= x0 < kMaxColumns ->
  get_cell r x (set_cell r0 x0 v c) =
    if (r mod kScrollbackRows =? r0 mod kScrollbackRows) && (x =? x0) then v else get_cell r x c.
Proof.
  intros Hx Hx0. unfold get_cell, set_cell. cbn. unfold cell_index. destruct (_ && _) eqn:E.
  - apply andb_true_iff in E as [->%Z.eqb_eq ->%Z.eqb_eq]. apply sa_get_set_eq.
  - apply sa_get_set_ne. intros Ei. unfold kMaxColumns in *.
    assert (r mod kScrollbackRows = r0 mod kScrollbackRows) by nia. assert (x = x0) by nia. lia.
Qed.

Lemma clear_history_row_spec r0 c :
  frame (clear_history_row r0 c) = frame c /\
  forall r x, 0 <= x < kMaxColumns ->
    get_cell r x (clear_history_row r0 c) =
      if r mod kScrollbackRows =? r0 mod kScrollbackRows then 32 else get_cell r x c.
Proof.
  unfold clear_history_row.
  assert (Hl : frame (for_range 0 kMaxColumns (fun col => set_cell r0 col 32) c) = frame c /\
    forall r x, 0 <= x < kMaxColumns -> get_cell r x (for_range 0 kMaxColumns (fun col => set_cell r0 col 32) c) =
      if (r mod kScrollbackRows =? r0 mod kScrollbackRows) && (x <? Z.max 0 kMaxColumns) then 32 else get_cell r x c).
  { apply (for_range_inv (fun k c' => frame c' = frame c /\ forall r x, 0 <= x < kMaxColumns ->
      get_cell r x c' = if (r mod kScrollbackRows =? r0 mod kScrollbackRows) && (x <? k) then 32 else get_cell r x c)).
    - split; [done|]. intros r x Hx. case_match; [lia|done].
    - intros k c' Hk [Hf Hc]. split; [done|]. intros r x Hx. rewrite get_set_cell, Hc by done. branches. }
  destruct Hl as [Hf Hl]. split; [done|]. intros r x Hx. rewrite Hl by done. unfold kMaxColumns in *. branches.
Qed.

Lemma clear_table_spec c :
  let c' := for_range 0 kScrollbackRows (fun row => for_range 0 kMaxColumns (fun col => set_cell row col 32)) c in
  frame c' = frame c /\ forall r x, 0 <= x < kMaxColumns -> get_cell r x c' = 32.
Proof.
  cbn zeta. set (c' := for_range 0 kScrollbackRows _ c).
  assert (frame c' = frame c /\ forall r x, 0 <= x < kMaxColumns ->
    get_cell r x c' = if r mod kScrollbackRows <? Z.max 0 kScrollbackRows then 32 else get_cell r x c) as [Hf Hc].
  { apply (for_range_inv (fun k c' => frame c' = frame c /\ forall r x, 0 <= x < kMaxColumns ->
      get_cell r x c' = if r mod kScrollbackRows <? k then 32 else get_cell r x c)).
    - split; [done|]. intros r x Hx. pose proof (Z.mod_pos_bound r kScrollbackRows eq_refl). case_match; [lia|done].
    - intros k c1 Hk [Hf Hc]. destruct (clear_history_row_spec k c1) as [Hf1 Hc1]. unfold clear_history_row in Hf1, Hc1.
      split; [congruence|]. intros r x Hx. rewrite Hc1, Hc, (Z.mod_small k) by done. branches. }
  split; [done|]. intros r x Hx. rewrite Hc by done. pose proof (Z.mod_pos_bound r kScrollbackRows eq_refl). case_match; [done|lia].
Qed.

(** ** Rendering *)

Ltac dlia := Z.to_euclidean_division_equations; lia.

Definition shade (ch row col : Z) : Z := if (ch =? 0) || (ch =? 32) then bg_ else if ink ch row col then fg_ else bg_.

(** What the screen should show of the table of characters. *)
Definition view (c : Console) (x y : Z) : Z :=
  let r := top_row c + y / 16 in
  if (x / 8 <? columns c) && (y / 16 <? rows c) && (oldest_row c <=? r) && (r <=? cursor_row_ c)
  then shade (get_cell r (x / 8) c) (y mod 16 / 2) (x mod 8) else bg_.

Lemma view_state c c' x y : state c' = state c -> view c' x y = view c x y.
Proof.
  intros E. same_state E. unfold view, top_row, columns, rows, oldest_row, get_cell. repeat match goal with H : _ c' = _ c |- _ => rewrite H; clear H end. done.
Qed.

Lemma columns_state c c' : state c' = state c -> columns c' = columns c.
Proof. intros E. same_state E. unfold columns. by replace (fb_ c') with (fb_ c). Qed.

Lemma render_state c : state (render c) = state c.
Proof.
  unfold render. case_match; [done|]. apply (for_range_inv (fun _ c' => state c' = state c)); [done|]. intros k c1 _ Hs.
  cbn zeta. case_match; [done|]. apply (for_range_inv (fun _ c' => state c' = state c)); [done|]. intros j c2 _ Hs'. cbn zeta. by case_match.
Qed.

Section Render.
Context (fb : FramebufferInfo) (Hfb : usable fb).

Definition screen (c : Console) (x y : Z) : Z := pix fb (pixels_ c) x y.

Lemma columns_bounds c : fb_ c = fb -> 1 <= columns c <= kMaxColumns /\ columns c * 8 <= width fb.
Proof. intros E. destruct Hfb as [_ Hw _ _]. unfold columns, kMaxColumns. rewrite E. case_match; dlia. Qed.
Lemma rows_bounds c : fb_ c = fb -> 1 <= rows c <= kScrollbackRows /\ rows c * 16 <= height fb.
Proof. intros E. destruct Hfb as [_ _ Hh _]. unfold rows, kScrollbackRows. rewrite E. dlia. Qed.
Lemma width_bound : width fb <= two32.
Proof. destruct Hfb as [_ Hw Hh Hs]. nia. Qed.

(** One row of text. *)
Lemma render_row_spec sr r c : fb_ c = fb -> 0 <= sr < rows c ->
  let c' := render_row (columns c) sr r c in
  state c' = state c /\
  paints fb (fun x y => if in_box 0 (sr * 16) (columns c * 8) 16 x y then
      let ch := get_cell r (x / 8) c in
      if (ch =? 0) || (ch =? 32) then None else Some (if ink ch (y mod 16 / 2) (x mod 8) then fg_ else bg_) else None)
    (pixels_ c) (pixels_ c').
Proof.
  intros Efb Hsr. cbn zeta. destruct (columns_bounds c Efb) as [Hc Hcw]. destruct (rows_bounds c Efb) as [Hr Hrh].
  pose proof width_bound as Hw. assert (height fb < 8208) by apply Hfb. unfold render_row.
  set (D := fun k x y => if in_box 0 (sr * 16) (k * 8) 16 x y then
    let ch := get_cell r (x / 8) c in
    if (ch =? 0) || (ch =? 32) then None else Some (if ink ch (y mod 16 / 2) (x mod 8) then fg_ else bg_) else None).
  apply (for_range_le (fun k c' => state c' = state c /\ paints fb (D k) (pixels_ c) (pixels_ c')) 0 (columns c)); [lia|..].
  { split; [done|]. eapply paints_ext; [apply paints_none|]. unfold D, in_box. branches. }
  intros k c1 Hk [Es Hd]. pose proof Es as Es'. same_state Es'.
  replace (get_cell r k c1) with (get_cell r k c) by (unfold get_cell; congruence).
  set (ch := get_cell r k c). rewrite <-negb_orb. destruct ((ch =? 0) || (ch =? 32)) eqn:Eb; cbn [negb].
  - split; [done|]. eapply paints_ext; [exact Hd|]. intros x y Hxy. unfold D, in_box.
    destruct (Z.eqb_spec (x / 8) k) as [->|Hne]; [fold ch; cbn zeta; rewrite Eb; branches|]. destruct Hxy as [Hx Hy].
    assert ((x <? 0 + (k + 1) * 8) = (x <? 0 + k * 8)) as -> by dlia. done.
  - split; [done|]. rewrite (w32_small (k * 8)), (w32_small (sr * 16)) by (unfold u32, two32 in *; lia). cbn [pixels_ draw_char setf].
    replace (fb_ c1) with fb by congruence. eapply paints_step; [exact Hd|apply draw_glyph_paints; [exact Hfb|unfold two32 in *; lia..]|].
    intros x y [Hx Hy]. unfold D, in_box. destruct (Z.eqb_spec (x / 8) k) as [Hk'|Hne].
    + rewrite Hk'. fold ch. cbn zeta. rewrite Eb. replace (x - k * 8) with (x mod 8) by dlia.
      destruct ((sr * 16 <=? y) && (y <? sr * 16 + 16)) eqn:Ey.
      * replace (y - sr * 16) with (y mod 16) by dlia. assert (k * 8 <= x < k * 8 + 8) by dlia. branches.
      * branches.
    + assert (~ (k * 8 <= x < k * 8 + 8)) by dlia. assert ((x <? 0 + (k + 1) * 8) = (x <? 0 + k * 8)) as -> by dlia. branches.
Qed.

Lemma top_row_tail c : fb_ c = fb -> viewport_bottom_ c = cursor_row_ c -> 0 <= cursor_row_ c ->
  top_row c = Z.max 0 (cursor_row_ c - (rows c - 1)).
Proof.
  intros Efb Ev Hc. destruct (rows_bounds c Efb) as [Hr _]. unfold top_row. rewrite w32_small, Ev by (unfold u32, two32, kScrollbackRows in *; lia).
  cbn zeta. case_match; lia.
Qed.
Lemma oldest_row_max c : 0 <= cursor_row_ c -> oldest_row c = Z.max 0 (cursor_row_ c - 511).
Proof. intros Hc. unfold oldest_row, kScrollbackRows. case_match; lia. Qed.

(** One turn of the loop: the rows above [k] show their text, the others are blank. *)
Lemma render_step k c c' : fb_ c = fb -> 0 <= k < rows c -> state c' = state c ->
  (forall x y, on_screen fb x y -> screen c' x y = if y / 16 <? k then view c x y else bg_) ->
  let c2 := if (top_row c + k <? oldest_row c) || (cursor_row_ c <? top_row c + k) then c'
            else render_row (columns c) k (top_row c + k) c' in
  state c2 = state c /\ forall x y, on_screen fb x y -> screen c2 x y = if y / 16 <? k + 1 then view c x y else bg_.
Proof.
  intros Efb Hk Hs Hp. cbn zeta. pose proof Hs as Hs'. same_state Hs'.
  assert (Erows : rows c' = rows c) by (unfold rows; congruence).
  assert (Ecols : columns c' = columns c) by (unfold columns; by replace (fb_ c') with (fb_ c)).
  assert (Ecell : forall r x, get_cell r x c' = get_cell r x c) by (intros; unfold get_cell; congruence).
  destruct (_ || _) eqn:Eout.
  - split; [done|]. intros x y Hxy. rewrite Hp by done. destruct (Z.eqb_spec (y / 16) k) as [Ek|]; [|branches].
    unfold view. rewrite Ek. branches.
  - destruct (render_row_spec k (top_row c + k) c') as [Hs2 Hp2]; [congruence|lia|]. rewrite Ecols in *.
    split; [congruence|]. intros x y Hxy. unfold screen. rewrite (Hp2 x y Hxy), Ecell. fold (screen c' x y).
    rewrite Hp by done. destruct Hxy as [Hx Hy]. destruct (Z.eqb_spec (y / 16) k) as [Ek|].
    + unfold view. rewrite Ek. unfold shade, in_box.
      assert ((0 <=? x) && (x <? 0 + columns c * 8) && (k * 16 <=? y) && (y <? k * 16 + 16) = (x / 8 <? columns c)) as -> by dlia.
      generalize (get_cell (top_row c + k) (x / 8) c) (ink (get_cell (top_row c + k) (x / 8) c) (y mod 16 / 2) (x mod 8)).
      clear -Hk Eout. intros ch b. branches.
    + assert (in_box 0 (k * 16) (columns c * 8) 16 x y = false) as -> by (unfold in_box; dlia). cbn.
      clear -n. generalize (view c x y). intros v. branches.
Qed.

Lemma render_spec c : fb_ c = fb -> viewport_bottom_ c = cursor_row_ c -> u64 (cursor_row_ c) ->
  state (render c) = state c /\ forall x y, on_screen fb x y -> screen (render c) x y = view c x y.
Proof.
  intros Efb Ev Hu. pose proof (columns_bounds c Efb) as [Hc _]. destruct (rows_bounds c Efb) as [Hr _].
  pose proof (top_row_tail c Efb Ev (proj1 Hu)) as Etop.
  unfold render. set (c0 := c <| stats_ ::= _ |>). change (rows c0) with (rows c). change (columns c0) with (columns c).
  change (fb_ c0) with (fb_ c). rewrite Efb. destruct (_ || _) eqn:E0.
  { exfalso. pose proof (us_base _ Hfb). lia. }
  clear E0. set (c1 := clear_pixels c0). change (top_row c1) with (top_row c). change (oldest_row c1) with (oldest_row c).
  set (body := fun screen_row c => _). set (final := for_range 0 (rows c) body c1).
  assert (state final = state c /\ forall x y, on_screen fb x y -> screen final x y = if y / 16 <? rows c then view c x y else bg_) as [Hs Hp].
  { apply (for_range_le (fun k c' => state c' = state c /\
      forall x y, on_screen fb x y -> screen c' x y = if y / 16 <? k then view c x y else bg_)); [lia|split; [done|]|].
    - intros x y Hxy. assert ((y / 16 <? 0) = false) as -> by (destruct Hxy; dlia).
      unfold screen, c1. cbn. rewrite Efb. by rewrite (clear_pixels_paints fb Hfb _ x y Hxy).
    - intros k c' Hk [Hs Hp]. unfold body. pose proof Hs as Hs'. same_state Hs'.
      rewrite (w64_small (top_row c + k)) by (unfold u64, two64, kScrollbackRows in *; lia).
      replace (cursor_row_ c') with (cursor_row_ c) by done. by apply render_step. }
  split; [done|]. intros x y Hxy. rewrite Hp by done. case_match eqn:E; [done|]. unfold view. branches.
Qed.

(** ** The text

    The lines that are finished and the line that the cursor is in. *)
Definition page : Type := list (list Z) * list Z.
Definition lines (t : page) : list (list Z) := t.1 ++ [t.2].
Definition char_at (t : page) (r x : Z) : Z := default 32 (lines t !! Z.to_nat r ≫= (fun l => l !! Z.to_nat x)).

Record holds (t : page) (c : Console) : Prop := {
  ho_fb : fb_ c = fb;
  ho_row : cursor_row_ c = zlen t.1;
  ho_col : cursor_x_ c = zlen t.2;
  ho_cells r x : 0 <= r -> cursor_row_ c - 512 < r <= cursor_row_ c -> 0 <= x < kMaxColumns -> get_cell r x c = char_at t r x;
  ho_tail : follow_tail_ c = true -> viewport_bottom_ c = cursor_row_ c;
  ho_screen x y : follow_tail_ c = true -> on_screen fb x y -> screen c x y = view c x y
}.
(** The cursor is left of the right border. *)
Definition shows (t : page) (c : Console) : Prop := holds t c /\ zlen t.2 < columns c.

Lemma holds_state t c c' : state c' = state c -> pixels_ c' = pixels_ c -> holds t c -> holds t c'.
Proof.
  intros Es Ep [Hf Hr Hx Hc Ht Hs]. pose proof Es as Es'. same_state Es'. split; [congruence|congruence|congruence|..].
  - intros r x. replace (cursor_row_ c') with (cursor_row_ c) by done. intros. rewrite <-Hc by done. unfold get_cell. congruence.
  - intros F. assert (follow_tail_ c = true) as F' by congruence. specialize (Ht F'). congruence.
  - intros x y F Hxy. rewrite (view_state _ _ _ _ Es), <-Hs by congruence. unfold screen. congruence.
Qed.
Lemma shows_state t c c' : state c' = state c -> pixels_ c' = pixels_ c -> shows t c -> shows t c'.
Proof.
  intros Es Ep [Hh Hx]. split; [by eapply holds_state|]. by rewrite (columns_state _ _ Es).
Qed.

(** A console that follows the text is right when it has just been rendered. *)
Lemma holds_render t c : fb_ c = fb -> cursor_row_ c = zlen t.1 -> cursor_x_ c = zlen t.2 -> zlen t.1 < two64 ->
  (forall r x, 0 <= r -> cursor_row_ c - 512 < r <= cursor_row_ c -> 0 <= x < kMaxColumns -> get_cell r x c = char_at t r x) ->
  (follow_tail_ c = true -> viewport_bottom_ c = cursor_row_ c) -> holds t (render c).
Proof.
  intros Hf Hr Hx Hu Hc Ht. pose proof (render_state c) as Es. pose proof Es as Es'. same_state Es'.
  split; [congruence|congruence|congruence|..].
  - intros r x. replace (cursor_row_ (render c)) with (cursor_row_ c) by done. intros. rewrite <-Hc by done. unfold get_cell. congruence.
  - intros F. assert (follow_tail_ c = true) as F' by congruence. specialize (Ht F'). congruence.
  - intros x y F Hxy. assert (follow_tail_ c = true) as F' by congruence. rewrite (view_state _ _ _ _ Es).
    apply render_spec; [done|auto| |done]. unfold u64, zlen in *. lia.
Qed.

Lemma holds_rerender t c : holds t c -> zlen t.1 < two64 -> holds t (render c).
Proof. intros [Hf Hr Hx Hc Ht _] Hu. by apply holds_render. Qed.

Lemma shows_clear c : fb_ c = fb -> shows ([], []) (clear c).
Proof.
  intros Efb. unfold clear. set (c0 := c <| stats_ ::= _ |>). pose proof (clear_table_spec c0) as Hl. cbv zeta in Hl.
  revert Hl. generalize (for_range 0 kScrollbackRows (fun row => for_range 0 kMaxColumns (fun col => set_cell row col 32)) c0).
  intros c1 [Hf Hc]. same_state Hf. assert (Ef1 : fb_ c1 = fb) by (unfold c0 in *; cbn in *; congruence).
  set (c2 := clear_pixels _). assert (Ef2 : fb_ c2 = fb) by done. split; [|destruct (columns_bounds c2 Ef2); unfold zlen; cbn; lia].
  split; [done|done|done|..|done|].
  - intros r x Hr Hw Hx. change (get_cell r x c2) with (get_cell r x c1). rewrite Hc by done. cbn in Hw.
    unfold char_at, lines. cbn. replace r with 0 by lia. cbn. done.
  - intros x y _ Hxy. assert (Hc2 : forall r x, 0 <= x < kMaxColumns -> get_cell r x c2 = 32) by exact Hc. transitivity bg_.
    + unfold screen, c2. cbn [clear_pixels pixels_ setf fb_]. by rewrite Ef1, (clear_pixels_paints fb Hfb _ x y Hxy).
    + unfold view. cbn zeta. destruct (_ && _ && _ && _) eqn:E; [|done]. rewrite Hc2; [done|].
      destruct (columns_bounds c2 Ef2), Hxy. dlia.
Qed.

Lemma char_at_newline o l r x : 0 <= r <= zlen o + 1 ->
  char_at (o ++ [l], []) r x = if r =? zlen o + 1 then 32 else char_at (o, l) r x.
Proof.
  intros Hr. unfold char_at, lines, zlen in *. cbn [fst snd]. destruct (Z.eqb_spec r (Z.of_nat (length o) + 1)) as [->|Hne].
  - rewrite lookup_app_r by (rewrite length_app; cbn; lia). rewrite length_app. cbn.
    by replace (Z.to_nat _ - _)%nat with 0%nat by lia.
  - rewrite lookup_app_l; [done|]. rewrite length_app. cbn. lia.
Qed.

(** The rows that are in the table at the same time have different places. *)
Lemma same_place n r r0 : n - 512 < r <= n -> n - 512 < r0 <= n ->
  (r mod kScrollbackRows =? r0 mod kScrollbackRows) = (r =? r0).
Proof. intros. unfold kScrollbackRows. dlia. Qed.

Lemma view_range c x y : fb_ c = fb -> viewport_bottom_ c = cursor_row_ c -> 0 <= cursor_row_ c -> on_screen fb x y ->
  let r := top_row c + y / 16 in
  0 <= x / 8 /\ 0 <= r /\ (y / 16 < rows c -> cursor_row_ c - 512 < r) /\
  view c x y = if (x / 8 <? columns c) && (y / 16 <? rows c) && (r <=? cursor_row_ c)
               then shade (get_cell r (x / 8) c) (y mod 16 / 2) (x mod 8) else bg_.
Proof.
  intros Efb Ev Hc [Hx Hy] r. destruct (rows_bounds c Efb) as [Hr _]. unfold kScrollbackRows in Hr.
  pose proof (top_row_tail c Efb Ev Hc) as Et. assert (0 <= x / 8) by dlia. assert (0 <= y / 16) by dlia.
  assert (y / 16 < rows c -> cursor_row_ c - 512 < r) by (unfold r; lia).
  split_and!; [done|unfold r; lia|done|]. unfold view. fold r. rewrite (oldest_row_max c Hc).
  destruct (x / 8 <? columns c), (y / 16 <? rows c) eqn:Ey; cbn; try done.
  destruct (r <=? cursor_row_ c); [|by rewrite andb_false_r]. replace (Z.max 0 _ <=? r) with true by (unfold r in *; lia). done.
Qed.

Lemma zlen_snoc {A} (l : list A) a : zlen (l ++ [a]) = zlen l + 1.
Proof. unfold zlen. rewrite length_app. cbn. lia. Qed.

(** The row that a new line takes in the table. *)
Lemma newline_cells o l c c2 : cursor_row_ c = zlen o ->
  (forall r x, 0 <= r -> zlen o - 512 < r <= zlen o -> 0 <= x < kMaxColumns -> get_cell r x c = char_at (o, l) r x) ->
  (forall r x, 0 <= x < kMaxColumns -> get_cell r x c2 =
     if r mod kScrollbackRows =? (zlen o + 1) mod kScrollbackRows then 32 else get_cell r x c) ->
  forall r x, 0 <= r -> zlen o + 1 - 512 < r <= zlen o + 1 -> 0 <= x < kMaxColumns -> get_cell r x c2 = char_at (o ++ [l], []) r x.
Proof.
  intros Hr Hc Hc2 r x H0 Hw Hx. rewrite Hc2, char_at_newline, (same_place (zlen o + 1)) by lia. case_match; [done|]. apply Hc; lia.
Qed.

(** Before the screen is full a new line changes nothing on it. *)
Lemma newline_view (o : list (list Z)) c c3 x y : fb_ c = fb -> fb_ c3 = fb -> cursor_row_ c = zlen o -> cursor_row_ c3 = zlen o + 1 ->
  viewport_bottom_ c = cursor_row_ c -> viewport_bottom_ c3 = cursor_row_ c3 -> zlen o + 1 < rows c3 ->
  (forall r x, 0 <= x < kMaxColumns -> get_cell r x c3 =
     if r mod kScrollbackRows =? (zlen o + 1) mod kScrollbackRows then 32 else get_cell r x c) ->
  on_screen fb x y -> view c3 x y = view c x y.
Proof.
  intros Hf Hf3 Hr Hr3 Hv Hv3 Hlt Hc Hxy. assert (0 <= zlen o) by (unfold zlen; lia).
  destruct (view_range c x y) as (Hx & H1 & H2 & ->); [done..|lia|done|].
  destruct (view_range c3 x y) as (_ & H3 & H4 & ->); [done..|lia|done|].
  rewrite (top_row_tail c), (top_row_tail c3) in * by (done || lia).
  assert (Erows : rows c3 = rows c) by (unfold rows; congruence).
  assert (Ecols : columns c3 = columns c) by (unfold columns; by rewrite Hf, Hf3).
  destruct (columns_bounds c Hf) as [Hcb _]. destruct (rows_bounds c Hf) as [Hrb _].
  rewrite Erows, Ecols, Hr, Hr3 in *. rewrite !Z.max_l in * by lia. rewrite !Z.add_0_l in *. unfold kScrollbackRows, kMaxColumns in *.
  destruct (x / 8 <? columns c) eqn:Ex, (y / 16 <? rows c) eqn:Ey; try done. cbn [andb].
  destruct (Z.leb_spec (y / 16) (zlen o + 1)) as [Hle|]; [|by rewrite (proj2 (Z.leb_gt _ _)) by lia].
  rewrite Hc by lia. rewrite !Z.mod_small by lia. destruct (Z.eqb_spec (y / 16) (zlen o + 1)).
  - by rewrite (proj2 (Z.leb_gt _ _)) by lia.
  - by rewrite (proj2 (Z.leb_le _ _)) by lia.
Qed.

Lemma shows_newline o l c : holds (o, l) c -> zlen o + 1 < two64 -> shows (o ++ [l], []) (newline c).
Proof.
  intros [Hf Hr Hx Hc Ht Hs] Hu. cbn [fst snd] in *. unfold newline.
  assert (Er : inc64 (cursor_row_ c) = zlen o + 1) by (rewrite Hr; apply w64_small; unfold u64, zlen in *; lia).
  set (c1 := c <| stats_ ::= _ |> <| cursor_x_ := 0 |> <| cursor_row_ ::= inc64 |>).
  destruct (clear_history_row_spec (cursor_row_ c1) c1) as [Hf2 Hc2]. revert Hf2 Hc2.
  generalize (clear_history_row (cursor_row_ c1) c1). change (cursor_row_ c1) with (inc64 (cursor_row_ c)). rewrite Er.
  intros c2 Hf2 Hc2. same_state Hf2.
  assert (Ef2 : fb_ c2 = fb) by congruence. assert (Er2 : cursor_row_ c2 = zlen o + 1) by congruence.
  rewrite Hr in Hc. pose proof (newline_cells o l c c2 Hr Hc Hc2) as Hcells.
  assert (Hcol : forall c', fb_ c' = fb -> zlen ([] : list Z) < columns c') by
    (intros c' E; destruct (columns_bounds c' E); unfold zlen; cbn; lia).
  destruct (follow_tail_ c2) eqn:F; [|split; [|by apply Hcol]; split; cbn [fst snd]; rewrite ?zlen_snoc, ?Er2; try congruence; done].
  set (c3 := c2 <| viewport_bottom_ := cursor_row_ c2 |>). change (cursor_row_ c3) with (cursor_row_ c2). rewrite Er2.
  destruct (Z.leb_spec (rows c3) (zlen o + 1)) as [|Hlt].
  - pose proof (render_state c3) as E3. same_state E3. split; [|by apply Hcol; congruence].
    apply holds_render; cbn [fst snd]; rewrite ?zlen_snoc; try done. intros r x. change (cursor_row_ c3) with (cursor_row_ c2). by rewrite Er2; apply Hcells.
  - split; [|by apply Hcol]. split; cbn [fst snd]; rewrite ?zlen_snoc; try done; [by change (cursor_row_ c3) with (cursor_row_ c2); rewrite Er2|].
    intros x y _ Hxy. assert (F' : follow_tail_ c = true) by congruence.
    transitivity (screen c x y); [unfold screen; cbn; congruence|]. rewrite (Hs x y F' Hxy). symmetry.
    by apply (newline_view o c c3); [done|done|done|done|auto|done|lia|..].
Qed.

(** ** One character *)

(** The box of the cell at column [X] of the cursor's row. *)
Definition cursor_box (c : Console) (X x y : Z) : bool := in_box (X * 8) ((cursor_row_ c - top_row c) * 16) 8 16 x y.

Lemma cell_view X ch c c' x y : fb_ c = fb -> fb_ c' = fb -> cursor_row_ c' = cursor_row_ c -> 0 <= cursor_row_ c ->
  viewport_bottom_ c = cursor_row_ c -> viewport_bottom_ c' = cursor_row_ c' -> 0 <= X < columns c ->
  (forall r x, 0 <= x < kMaxColumns -> get_cell r x c' =
     if (r mod kScrollbackRows =? cursor_row_ c mod kScrollbackRows) && (x =? X) then ch else get_cell r x c) ->
  on_screen fb x y -> view c' x y = if cursor_box c X x y then shade ch (y mod 16 / 2) (x mod 8) else view c x y.
Proof.
  intros Hf Hf' Hr Hn Hv Hv' HX Hc Hxy. destruct (view_range c x y) as (Hx & H1 & H2 & ->); [done..|].
  destruct (view_range c' x y) as (_ & H3 & H4 & ->); [done..|lia|done|].
  assert (Erows : rows c' = rows c) by (unfold rows; congruence).
  assert (Ecols : columns c' = columns c) by (unfold columns; by rewrite Hf, Hf').
  assert (Etop : top_row c' = top_row c) by (rewrite !top_row_tail, Erows, Hr by (done || lia); done).
  destruct (columns_bounds c Hf) as [Hcb _]. rewrite Erows, Ecols, Etop, Hr in *.
  assert (cursor_box c X x y = (x / 8 =? X) && (top_row c + y / 16 =? cursor_row_ c)) as ->.
  { unfold cursor_box, in_box. clear -Hxy. destruct Hxy. dlia. }
  destruct (x / 8 <? columns c) eqn:Ex; cbn [andb]; [|branches].
  assert (top_row c + y / 16 = cursor_row_ c -> y / 16 < rows c).
  { rewrite top_row_tail by done. destruct (rows_bounds c Hf). lia. }
  destruct (y / 16 <? rows c) eqn:Ey; cbn [andb]; [|branches].
  destruct (Z.leb_spec (top_row c + y / 16) (cursor_row_ c)); [|branches].
  rewrite Hc, (same_place (cursor_row_ c)) by lia. rewrite andb_comm. by case_match.
Qed.

Lemma holds_cell t t' X ch c c' : holds t c -> fb_ c' = fb -> cursor_row_ c' = cursor_row_ c -> viewport_bottom_ c' = viewport_bottom_ c ->
  follow_tail_ c' = follow_tail_ c -> zlen t'.1 = zlen t.1 -> cursor_x_ c' = zlen t'.2 -> 0 <= X < columns c ->
  (forall r x, 0 <= x < kMaxColumns -> get_cell r x c' =
     if (r mod kScrollbackRows =? cursor_row_ c mod kScrollbackRows) && (x =? X) then ch else get_cell r x c) ->
  (forall r x, 0 <= r <= zlen t.1 -> 0 <= x -> char_at t' r x = if (r =? zlen t.1) && (x =? X) then ch else char_at t r x) ->
  (forall x y, follow_tail_ c = true -> on_screen fb x y ->
     screen c' x y = if cursor_box c X x y then shade ch (y mod 16 / 2) (x mod 8) else screen c x y) -> holds t' c'.
Proof.
  intros [Hf Hr Hx Hc Ht Hs] Hf' Hr' Hv' Ht' Hz Hx' HX Hcell Hchar Hscreen.
  assert (0 <= cursor_row_ c) by (rewrite Hr; unfold zlen; lia). split; [done|congruence|done|..].
  - intros r x H0' Hw Hxx. rewrite Hr' in *. rewrite Hcell, Hchar, (same_place (cursor_row_ c)), Hr by lia. case_match; [done|].
    by rewrite Hc by lia.
  - intros F. rewrite Hv', Hr'. apply Ht. congruence.
  - intros x y F Hxy. assert (F' : follow_tail_ c = true) by congruence. specialize (Ht F').
    rewrite (Hscreen x y F' Hxy), (cell_view X ch c c' x y) by (done || congruence || lia). case_match; [done|]. by apply Hs.
Qed.

Lemma char_at_line o l l' r x : 0 <= r <= zlen o ->
  char_at (o, l') r x = if r =? zlen o then default 32 (l' !! Z.to_nat x) else char_at (o, l) r x.
Proof.
  intros Hr. unfold char_at, lines, zlen in *. cbn [fst snd]. destruct (Z.eqb_spec r (Z.of_nat (length o))) as [->|Hne].
  - rewrite Nat2Z.id, lookup_app_r, Nat.sub_diag by lia. done.
  - by rewrite !lookup_app_l by lia.
Qed.
Lemma ink_space row col : ink 32 row col = false.
Proof.
  unfold ink. cbn [Z.ltb Z.compare orb]. change (nth (Z.to_nat _) font []) with [0; 0; 0; 0; 0; 0; 0; 0].
  generalize (Z.to_nat row). intros n. assert (nth n [0; 0; 0; 0; 0; 0; 0; 0] 0 = 0) as ->; [|apply Z.testbit_0_l].
  by do 8 (destruct n as [|n]; [done|]); destruct n.
Qed.

(** What [put] draws of a character. *)
Lemma draw_at_cursor X ch c x y : fb_ c = fb -> viewport_bottom_ c = cursor_row_ c -> u64 (cursor_row_ c + 1) -> ch <> 0 ->
  0 <= cursor_row_ c -> 0 <= X < columns c -> on_screen fb x y ->
  pix fb (draw_glyph fb ch (w32 (X * 8)) (w32 (w32 (cursor_row_ c - top_row c) * 16)) fg_ (pixels_ c)) x y =
    if cursor_box c X x y then shade ch (y mod 16 / 2) (x mod 8) else screen c x y.
Proof.
  intros Hf Hv Hu Hch H0 HX Hxy. destruct (columns_bounds c Hf) as [Hcb Hcw]. destruct (rows_bounds c Hf) as [Hrb _].
  pose proof width_bound as Hw. pose proof (top_row_tail c Hf Hv H0) as Ht. unfold kScrollbackRows in Hrb.
  rewrite (w32_small (X * 8)) by (unfold u32, two32 in *; lia).
  rewrite (w32_small (cursor_row_ c - top_row c)) by (unfold u32, two32 in *; lia).
  rewrite (w32_small ((cursor_row_ c - top_row c) * 16)) by (unfold u32, two32 in *; lia).
  rewrite (draw_glyph_paints fb Hfb) by (done || unfold two32 in *; lia). fold (cursor_box c X x y).
  destruct (cursor_box c X x y) eqn:E; [|done]. unfold cursor_box, in_box in E. cbn [default]. unfold shade.
  rewrite (proj2 (Z.eqb_neq ch 0) Hch). cbn [orb].
  replace (y - (cursor_row_ c - top_row c) * 16) with (y mod 16) by dlia. replace (x - X * 8) with (x mod 8) by dlia.
  destruct (Z.eqb_spec ch 32) as [->|]; [by rewrite ink_space|done].
Qed.

Definition control (ch : Z) : bool := (ch =? 0) || (ch =? 8) || (ch =? 10) || (ch =? 12) || (ch =? 13).

Lemma char_at_snoc o l ch r x : 0 <= r <= zlen o -> 0 <= x ->
  char_at (o, l ++ [ch]) r x = if (r =? zlen o) && (x =? zlen l) then ch else char_at (o, l) r x.
Proof.
  intros Hr Hx. rewrite (char_at_line o l (l ++ [ch])), (char_at_line o l l) by done. unfold zlen in *.
  destruct (r =? _); [cbn [andb]|done]. destruct (Z.eqb_spec x (Z.of_nat (length l))) as [->|Hne].
  - by rewrite Nat2Z.id, lookup_app_r, Nat.sub_diag by lia.
  - destruct (decide (Z.to_nat x < length l)%nat); [by rewrite lookup_app_l by lia|].
    rewrite lookup_app_r, (lookup_ge_None_2 l) by lia. by rewrite lookup_ge_None_2 by (cbn; lia).
Qed.

Lemma put_cell o l ch c c2 : holds (o, l) c -> zlen l < columns c -> zlen o + 1 < two64 -> ch <> 0 ->
  state c2 = state (set_cell (cursor_row_ c) (cursor_x_ c) ch c) ->
  pixels_ c2 = (if follow_tail_ c
    then draw_glyph fb ch (w32 (cursor_x_ c * 8)) (w32 (w32 (cursor_row_ c - top_row c) * 16)) fg_ (pixels_ c) else pixels_ c) ->
  holds (o, l ++ [ch]) (c2 <| cursor_x_ ::= inc32 |>).
Proof.
  intros Hh Hlt Hu Hn Es Ep. pose proof Hh as [Hf Hr Hx Hc Ht Hs]. cbn [fst snd] in *. same_state Es.
  destruct (columns_bounds c Hf) as [Hcb Hcw]. pose proof width_bound as Hw. assert (0 <= zlen l /\ 0 <= zlen o) as [Hl0 Ho0] by (unfold zlen; lia).
  apply (holds_cell (o, l) (o, l ++ [ch]) (zlen l) ch c); cbn [fst snd]; try done; try congruence.
  - cbn. congruence.
  - cbn [cursor_x_ setf]. replace (cursor_x_ c2) with (zlen l) by congruence. rewrite zlen_snoc. unfold inc32. apply w32_small. unfold u32, two32 in *. lia.
  - intros r x Hxx. etrans; [|apply (get_set_cell (cursor_row_ c) (zlen l) ch r x c); lia]. unfold get_cell. cbn. rewrite <-Hx. congruence.
  - intros r x. apply char_at_snoc.
  - intros x y F Hxy. rewrite F, Hx in Ep. unfold screen at 1. cbn [pixels_ setf]. rewrite Ep.
    apply (draw_at_cursor (zlen l) ch c x y); [exact Hf|exact (Ht F)|rewrite Hr; unfold u64; lia|exact Hn|rewrite Hr; lia| |exact Hxy].
    split; [exact Hl0|exact Hlt].
Qed.

Lemma shows_put o l ch c : shows (o, l) c -> zlen o + 1 < two64 -> control ch = false ->
  shows (if columns c <=? zlen l + 1 then (o ++ [l ++ [ch]], []) else (o, l ++ [ch])) (put ch c).
Proof.
  intros [Hh Hlt] Hu Hch. cbn [fst snd] in Hlt. unfold control in Hch. unfold put.
  assert ((ch =? 10) = false /\ (ch =? 13) = false /\ (ch =? 12) = false /\ (ch =? 8) = false /\ ch <> 0) as (-> & -> & -> & -> & Hn) by lia.
  pose proof Hh as [Hf Hr Hx _ Ht _]. cbn [fst snd] in *. destruct (columns_bounds c Hf) as [Hcb _]. destruct (rows_bounds c Hf) as [Hrb _].
  set (c0 := c <| stats_ ::= _ |>). change (columns c0) with (columns c). assert ((columns c =? 0) = false) as -> by lia.
  set (c1 := set_cell (cursor_row_ c0) (cursor_x_ c0) ch c0 <| stats_ ::= _ |>). set (c2 := if follow_tail_ c1 && _ then _ else _).
  assert (E2 : c2 = if follow_tail_ c then draw_char ch (w32 (cursor_x_ c1 * 8)) (w32 (w32 (cursor_row_ c1 - top_row c1) * 16)) fg_ c1 else c1).
  { unfold c2. change (follow_tail_ c1) with (follow_tail_ c). change (rows c1) with (rows c). destruct (follow_tail_ c) eqn:F; [cbn [andb]|done].
    change (top_row c1) with (top_row c). change (cursor_row_ c1) with (cursor_row_ c).
    assert (0 <= cursor_row_ c) by (rewrite Hr; unfold zlen; lia). rewrite (top_row_tail c Hf (Ht eq_refl)) by done.
    rewrite w64_small by (unfold u64, kScrollbackRows, two64 in *; lia).
    destruct (Z.eqb_spec (rows c) 0); [lia|cbn [negb]]. case_match eqn:E; [done|lia]. }
  assert (holds (o, l ++ [ch]) (c2 <| cursor_x_ ::= inc32 |>)) as Hh2.
  { assert (Hh0 : holds (o, l) c0) by (apply (holds_state _ c); [reflexivity|reflexivity|exact Hh]).
    apply (put_cell o l ch c0 c2 Hh0 Hlt Hu Hn); rewrite E2; change (follow_tail_ c0) with (follow_tail_ c).
    - destruct (follow_tail_ c); reflexivity.
    - destruct (follow_tail_ c); [|reflexivity]. unfold draw_char. cbn [pixels_ setf]. change (fb_ _) with (fb_ c). by rewrite Hf. }
  rewrite (ho_col _ _ Hh2). cbn [snd]. rewrite zlen_snoc. clearbody c2. destruct (Z.leb_spec (columns c) (zlen l + 1)).
  - by apply shows_newline.
  - split; [done|]. cbn [snd]. rewrite zlen_snoc. unfold columns. by rewrite (ho_fb _ _ Hh2), <-Hf.
Qed.

(** ** Backspace *)

Lemma char_at_unsnoc o l a r x : 0 <= r <= zlen o -> 0 <= x ->
  char_at (o, l) r x = if (r =? zlen o) && (x =? zlen l) then 32 else char_at (o, l ++ [a]) r x.
Proof.
  intros Hr Hx. rewrite (char_at_snoc o l a) by done. case_match eqn:E; [|done]. rewrite (char_at_line o l l) by done.
  apply andb_true_iff in E as [-> ->%Z.eqb_eq]. unfold zlen. by rewrite Nat2Z.id, lookup_ge_None_2.
Qed.

Lemma clear_at_cursor X c x y : fb_ c = fb -> viewport_bottom_ c = cursor_row_ c -> 0 <= cursor_row_ c -> 0 <= X < columns c ->
  on_screen fb x y ->
  pix fb (clear_cell_in fb X (cursor_row_ c - top_row c) (pixels_ c)) x y =
    if cursor_box c X x y then shade 32 (y mod 16 / 2) (x mod 8) else screen c x y.
Proof.
  intros Hf Hv H0 HX Hxy. destruct (columns_bounds c Hf) as [Hcb Hcw]. destruct (rows_bounds c Hf) as [Hrb _].
  pose proof width_bound as Hw. pose proof (top_row_tail c Hf Hv H0) as Ht. unfold kScrollbackRows in Hrb.
  rewrite (clear_cell_paints fb Hfb) by (done || unfold two32 in *; lia). fold (cursor_box c X x y). by case_match.
Qed.

(** The cell that [backspace] clears while the console follows the text. *)
Lemma clear_cell_cursor X c : fb_ c = fb -> viewport_bottom_ c = cursor_row_ c -> u64 (cursor_row_ c) -> 0 <= X < columns c ->
  clear_cell X (w32 (cursor_row_ c - top_row c)) c =
    set_cell (cursor_row_ c) X 32 c <| pixels_ ::= clear_cell_in fb X (cursor_row_ c - top_row c) |>.
Proof.
  intros Hf Hv Hu HX. destruct (columns_bounds c Hf) as [Hcb Hcw]. destruct (rows_bounds c Hf) as [Hrb _].
  pose proof (top_row_tail c Hf Hv (proj1 Hu)) as Ht. unfold kScrollbackRows, u64 in *. unfold clear_cell.
  rewrite (w32_small (cursor_row_ c - top_row c)) by (unfold u32, two32; lia).
  replace (top_row c + (cursor_row_ c - top_row c)) with (cursor_row_ c) by lia. rewrite (w64_small (cursor_row_ c)) by done.
  rewrite (oldest_row_max c) by lia. destruct (_ || _) eqn:E; [lia|]. clear E. destruct (_ && _ && _) eqn:E; [|lia].
  unfold clear_pixel_cell. by rewrite <-Hf.
Qed.

Lemma shows_backspace o l a c : shows (o, l ++ [a]) c -> zlen o < two64 -> shows (o, l) (backspace c).
Proof.
  intros [Hh Hlt] Hu. pose proof Hh as [Hf Hr Hx _ Ht _]. cbn [fst snd] in *. rewrite zlen_snoc in *.
  destruct (columns_bounds c Hf) as [Hcb _]. assert (0 <= zlen l /\ 0 <= zlen o) as [Hl0 Ho0] by (unfold zlen; lia).
  unfold backspace. set (c0 := c <| stats_ ::= _ |>). change (columns c0) with (columns c).
  change (cursor_x_ c0) with (cursor_x_ c). rewrite Hx.
  destruct (Z.eqb_spec (columns c) 0); [lia|]. destruct (Z.eqb_spec (zlen l + 1) 0); [lia|]. cbn [andb].
  set (c1 := c0 <| cursor_x_ ::= Z.pred |>). assert (Ex : cursor_x_ c1 = zlen l) by (cbn; lia).
  assert (Ex' : Z.pred (cursor_x_ c) = zlen l) by lia.
  assert (Hcells : forall r x, 0 <= x < kMaxColumns -> get_cell r x (set_cell (cursor_row_ c1) (cursor_x_ c1) 32 c1) =
     if (r mod kScrollbackRows =? cursor_row_ c mod kScrollbackRows) && (x =? zlen l) then 32 else get_cell r x c).
  { intros r x Hxx. rewrite Ex. apply (get_set_cell (cursor_row_ c) (zlen l) 32 r x c1); lia. }
  assert (Herase : forall c', frame c' = (fb_ c, zlen l, cursor_row_ c, viewport_bottom_ c, follow_tail_ c, pixels_ c') ->
    cells_ c' = cells_ (set_cell (cursor_row_ c1) (cursor_x_ c1) 32 c1) ->
    (forall x y, follow_tail_ c = true -> on_screen fb x y ->
       screen c' x y = if cursor_box c (zlen l) x y then shade 32 (y mod 16 / 2) (x mod 8) else screen c x y) -> holds (o, l) c').
  { intros c' Ef Ec Hsc. unfold frame in Ef. injection Ef as Ef1 Ef2 Ef3 Ef4 Ef5.
    apply (holds_cell (o, l ++ [a]) (o, l) (zlen l) 32 c); cbn [fst snd]; try done; [congruence|lia| |].
    - intros r x Hxx. rewrite <-Hcells by done. unfold get_cell. by rewrite Ec.
    - intros r x. apply char_at_unsnoc. }
  change (follow_tail_ c1) with (follow_tail_ c). destruct (follow_tail_ c) eqn:F.
  - rewrite Ex, clear_cell_cursor; [|exact Hf|by apply Ht|change (cursor_row_ c1) with (cursor_row_ c); rewrite Hr; done|
      change (columns c1) with (columns c); lia].
    split; [|cbn [snd]; change (columns _) with (columns c); lia]. apply Herase; [unfold frame; cbn; by rewrite F, Ex'|by rewrite Ex|]. intros x y _ Hxy. apply (clear_at_cursor (zlen l) c); [done|auto|lia|lia|done].
  - assert (holds (o, l) (set_cell (cursor_row_ c1) (cursor_x_ c1) 32 c1)) as Hh1 by (by apply Herase; [unfold frame; cbn; rewrite F, Ex'|..]).
    split; [by apply holds_rerender|]. cbn [snd]. rewrite (columns_state _ _ (render_state _)). change (columns _) with (columns c). lia.
Qed.

(** ** Scrolling and the input line *)

Lemma shows_scroll_view amount t c : shows t c -> zlen t.1 < two64 -> shows t (scroll_view amount c).
Proof.
  intros [Hh Hlt] Hu. pose proof Hh as [Hf Hr Hx Hc Ht _]. destruct (rows_bounds c Hf) as [Hrb _]. unfold scroll_view.
  set (c0 := c <| stats_ ::= _ |>). change (rows c0) with (rows c). destruct (Z.eqb_spec (rows c) 0); [lia|].
  match goal with |- context [c0 <| viewport_bottom_ := ?b |>] => generalize b end. intros b.
  split; [|by rewrite (columns_state _ _ (render_state _))]. apply holds_render; try done. cbn. lia.
Qed.

Lemma holds_scroll_to_bottom t c : holds t c -> zlen t.1 < two64 ->
  let c' := scroll_to_bottom c in
  holds t c' /\ follow_tail_ c' = true /\ cursor_row_ c' = cursor_row_ c /\ columns c' = columns c.
Proof.
  intros Hh Hu. pose proof Hh as [Hf Hr Hx Hc Ht _]. cbn zeta. unfold scroll_to_bottom, update_view_to_tail.
  match goal with |- context [render ?c1] => set (c0 := c1) end. pose proof (render_state c0) as Es.
  split_and!; [by apply holds_render|..|by rewrite (columns_state _ _ Es)]; same_state Es; done.
Qed.

Lemma clear_pixel_row_spec sr c : fb_ c = fb -> 0 <= sr < rows c ->
  state (clear_pixel_row sr c) = state c /\
  forall x y, on_screen fb x y ->
    screen (clear_pixel_row sr c) x y = if in_box 0 (sr * 16) (columns c * 8) 16 x y then bg_ else screen c x y.
Proof.
  intros Hf Hsr. destruct (columns_bounds c Hf) as [Hcb Hcw]. destruct (rows_bounds c Hf) as [Hrb _].
  pose proof width_bound as Hw. unfold kScrollbackRows in Hrb. unfold clear_pixel_row.
  apply (for_range_le (fun k c' => state c' = state c /\ forall x y, on_screen fb x y ->
    screen c' x y = if in_box 0 (sr * 16) (k * 8) 16 x y then bg_ else screen c x y)); [lia|split; [done|]|].
  - intros x y Hxy. unfold in_box. case_match; [lia|done].
  - intros k c' Hk [Hs Hp]. split; [done|]. intros x y Hxy. same_state Hs. unfold clear_pixel_cell, screen. cbn [pixels_ setf].
    replace (fb_ c') with fb by congruence.
    rewrite (clear_cell_paints fb Hfb) by (done || unfold two32 in *; lia). fold (screen c' x y). rewrite Hp by done. fold (screen c x y).
    unfold in_box. branches.
Qed.

Lemma row_view c c' x y : fb_ c = fb -> fb_ c' = fb -> cursor_row_ c' = cursor_row_ c -> 0 <= cursor_row_ c ->
  viewport_bottom_ c = cursor_row_ c -> viewport_bottom_ c' = cursor_row_ c' ->
  (forall r x, 0 <= x < kMaxColumns -> get_cell r x c' =
     if r mod kScrollbackRows =? cursor_row_ c mod kScrollbackRows then 32 else get_cell r x c) ->
  on_screen fb x y ->
  view c' x y = if in_box 0 ((cursor_row_ c - top_row c) * 16) (columns c * 8) 16 x y then bg_ else view c x y.
Proof.
  intros Hf Hf' Hr Hn Hv Hv' Hc Hxy. destruct (view_range c x y) as (Hx & H1 & H2 & ->); [done..|].
  destruct (view_range c' x y) as (_ & H3 & H4 & ->); [done..|lia|done|].
  assert (Erows : rows c' = rows c) by (unfold rows; congruence).
  assert (Ecols : columns c' = columns c) by (unfold columns; by rewrite Hf, Hf').
  assert (Etop : top_row c' = top_row c) by (rewrite !top_row_tail, Erows, Hr by (done || lia); done).
  destruct (columns_bounds c Hf) as [Hcb _]. rewrite Erows, Ecols, Etop, Hr in *.
  assert (in_box 0 ((cursor_row_ c - top_row c) * 16) (columns c * 8) 16 x y =
    (x / 8 <? columns c) && (top_row c + y / 16 =? cursor_row_ c)) as ->.
  { unfold in_box. clear -Hxy. destruct Hxy. dlia. }
  destruct (x / 8 <? columns c) eqn:Ex; cbn [andb]; [|done].
  destruct (y / 16 <? rows c) eqn:Ey; cbn [andb]; [|by case_match].
  destruct (Z.leb_spec (top_row c + y / 16) (cursor_row_ c)); [|by case_match].
  rewrite Hc, (same_place (cursor_row_ c)) by lia. by case_match.
Qed.

Lemma shows_reset_input_line o l c : shows (o, l) c -> zlen o < two64 -> shows (o, []) (reset_input_line c).
Proof.
  intros [Hh Hlt] Hu. unfold reset_input_line. set (c0 := c <| stats_ ::= _ |>).
  destruct (holds_scroll_to_bottom (o, l) c0) as (Hh1 & F & Er & Ecols); [by eapply holds_state; [..|exact Hh]|done|].
  revert Hh1 F Er Ecols. generalize (scroll_to_bottom c0). intros c1 Hh1 F Er Ecols. pose proof Hh1 as [Hf Hr Hx Hc Ht Hs]. cbn [fst snd] in *.
  specialize (Ht F). assert (0 <= zlen o) as Ho0 by (unfold zlen; lia).
  destruct (rows_bounds c1 Hf) as [Hrb _]. unfold kScrollbackRows in Hrb. destruct (Z.eqb_spec (rows c1) 0); [lia|].
  pose proof (top_row_tail c1 Hf Ht ltac:(lia)) as Etop. rewrite (w32_small (cursor_row_ c1 - top_row c1)) by (unfold u32, two32; lia).
  destruct (Z.ltb_spec (cursor_row_ c1 - top_row c1) (rows c1)); [|lia].
  destruct (clear_history_row_spec (cursor_row_ c1) c1) as [Hfr Hcl]. revert Hfr Hcl. generalize (clear_history_row (cursor_row_ c1) c1).
  intros c2 Hfr Hcl. same_state Hfr. set (c3 := c2 <| cursor_x_ := 0 |>). assert (Hf3 : fb_ c3 = fb) by (cbn; congruence).
  assert (Erow3 : cursor_row_ c3 = cursor_row_ c1) by done. assert (Ev3 : viewport_bottom_ c3 = cursor_row_ c3) by (cbn; congruence).
  destruct (clear_pixel_row_spec (cursor_row_ c1 - top_row c1) c3) as [Es Hp]; [done|unfold rows in *; rewrite Hf3, <-Hf; lia|].
  assert (Ecols3 : columns c3 = columns c1) by (unfold columns; by rewrite Hf3, Hf).
  assert (Hcells : forall r x, 0 <= x < kMaxColumns -> get_cell r x c3 =
    if r mod kScrollbackRows =? cursor_row_ c1 mod kScrollbackRows then 32 else get_cell r x c1) by exact Hcl.
  split; [|cbn [snd]; rewrite (columns_state _ _ Es), Ecols3; destruct (columns_bounds c1 Hf); unfold zlen; cbn; lia].
  pose proof Es as Es'. same_state Es'. split; cbn [fst snd]; [congruence|congruence|done| |congruence|].
  - intros r x H0' Hw Hxx. assert (cursor_row_ (clear_pixel_row (cursor_row_ c1 - top_row c1) c3) = zlen o) as E by congruence.
    rewrite E in Hw. transitivity (get_cell r x c3); [unfold get_cell; change (cells_ c3) with (cells_ c2); congruence|].
    rewrite Hcells, (same_place (zlen o)), Hr, (char_at_line o l []) by lia. case_match; [done|]. apply Hc; lia.
  - intros x y _ Hxy. rewrite (view_state _ _ _ _ Es), Hp, Ecols3, (row_view c1 c3) by (done || lia).
    case_match; [done|]. transitivity (screen c1 x y); [unfold screen; cbn; congruence|by apply Hs].
Qed.

(** ** What the calls mean for the text *)

(** One character; a backspace at the start of a line that is not the first has no meaning here. *)
Definition type_char (cols ch : Z) (t : page) : option page :=
  let '(o, l) := t in
  if ch =? 10 then Some (o ++ [l], [])
  else if ch =? 13 then Some (o, l)
  else if ch =? 12 then Some ([], [])
  else if ch =? 8 then
    match l, o with
    | [], [] => Some (o, l)
    | [], _ => None
    | _, _ => Some (o, removelast l)
    end
  else Some (if cols <=? zlen l + 1 then (o ++ [l ++ [ch]], []) else (o, l ++ [ch])).
Fixpoint type_text (cols : Z) (text : list Z) (t : page) : option page :=
  match text with
  | [] => Some t
  | ch :: rest => t' ← type_char cols ch t; type_text cols rest t'
  end.

Lemma backspace_start c : cursor_x_ c = 0 -> cursor_row_ c = 0 -> state (backspace c) = state c /\ pixels_ (backspace c) = pixels_ c.
Proof.
  intros Hx Hr. unfold backspace. set (c0 := c <| stats_ ::= _ |>). change (cursor_x_ c0) with (cursor_x_ c).
  change (cursor_row_ c0) with (cursor_row_ c). rewrite Hx, Hr. by destruct (columns c0 =? 0).
Qed.

Lemma shows_put_char ch t t' c : shows t c -> zlen t.1 + 1 < two64 -> ch <> 0 -> type_char (columns c) ch t = Some t' ->
  shows t' (put ch c) /\ zlen t'.1 <= zlen t.1 + 1.
Proof.
  intros Hsh Hu Hn. destruct t as [o l]. cbn [fst] in Hu. unfold type_char. destruct (control ch) eqn:Ec.
  2: { pose proof (shows_put o l ch c Hsh Hu Ec) as Hp. unfold control in Ec.
       assert ((ch =? 10) = false /\ (ch =? 13) = false /\ (ch =? 12) = false /\ (ch =? 8) = false) as (-> & -> & -> & ->) by lia.
       intros [= <-]. split; [done|]. case_match; cbn [fst]; rewrite ?zlen_snoc; lia. }
  unfold put. set (c0 := c <| stats_ ::= _ |>). assert (Hsh0 : shows (o, l) c0) by (apply (shows_state _ c); [reflexivity|reflexivity|exact Hsh]).
  destruct (ch =? 10) eqn:E10. { intros [= <-]. cbn [fst]. rewrite zlen_snoc. split; [|lia]. apply shows_newline; [apply Hsh0|done]. }
  destruct (ch =? 13) eqn:E13. { intros [= <-]. split; [done|cbn [fst]; lia]. }
  destruct (ch =? 12) eqn:E12. { intros [= <-]. split; [|unfold zlen; cbn; lia]. apply shows_clear. apply Hsh. }
  assert ((ch =? 8) = true) as -> by (unfold control in Ec; lia).
  destruct l as [|a l _] using rev_ind.
  - destruct o; [|done]. intros [= <-]. split; [|unfold zlen; cbn; lia]. pose proof Hsh0 as [[_ Hr Hx _ _ _] _].
    destruct (backspace_start c0) as [Es Ep]; [done|done|]. by apply (shows_state _ c0).
  - intros Et. assert (t' = (o, l)) as ->.
    { pose proof (removelast_last l a) as Hrm. destruct (l ++ [a]) as [|b m] eqn:E; [by destruct l|]. injection Et as <-. f_equal. exact Hrm. }
    split; [|cbn; lia]. by eapply shows_backspace; [|lia].
Qed.

Lemma shows_type text : forall t t' c, shows t c -> zlen t.1 + zlen text < two64 -> Forall (fun ch => ch <> 0) text ->
  type_text (columns c) text t = Some t' ->
  shows t' (foldl (fun c ch => put ch c) c text) /\ zlen t'.1 <= zlen t.1 + zlen text.
Proof.
  induction text as [|ch text IH]; intros t t' c Hsh Hu Hf; cbn [type_text foldl]; [intros [= <-]; split; [done|unfold zlen; lia]|].
  apply Forall_cons in Hf as [Hch Hf]. replace (zlen (ch :: text)) with (1 + zlen text) in * by (unfold zlen; cbn; lia).
  assert (0 <= zlen text) by (unfold zlen; lia). intros (t1 & E1 & E)%bind_Some.
  destruct (shows_put_char ch t t1 c Hsh ltac:(lia) Hch E1) as [Hsh1 Hl1].
  assert (columns (put ch c) = columns c) as Ecol.
  { pose proof (ho_fb _ _ (proj1 Hsh)) as H1. pose proof (ho_fb _ _ (proj1 Hsh1)) as H2. unfold columns. by rewrite H1, H2. }
  rewrite <-Ecol in E. destruct (IH t1 t' (put ch c) Hsh1 ltac:(lia) Hf E) as [Hsh2 Hl2]. split; [done|lia].
Qed.
End Render.

(** ** Calls *)

Inductive call := Write (text : list Z) | WriteHex (value : Z) | Scroll (amount : Z) | ToBottom | ResetLine.

Definition perform (k : call) : Console -> Console :=
  match k with
  | Write text => write text
  | WriteHex value => write_hex value
  | Scroll amount => scroll_view amount
  | ToBottom => scroll_to_bottom
  | ResetLine => reset_input_line
  end.
Definition perform_all (ks : list call) (c : Console) : Console := foldl (fun c k => perform k c) c ks.

(** The sixteen digits of a number. *)
Definition hexadecimal (v : Z) : list Z :=
  (fun i => let d := v / 16 ^ (15 - Z.of_nat i) mod 16 in if d <? 10 then 48 + d else 87 + d) <$> seq 0 16.

(** The characters a call types. *)
Definition typed (k : call) : list Z :=
  match k with Write text => text | WriteHex value => [48; 120] ++ hexadecimal value | _ => [] end.
Definition after_call (cols : Z) (k : call) (t : page) : option page :=
  match k with ResetLine => Some (t.1, []) | _ => type_text cols (typed k) t end.
Fixpoint after_calls (cols : Z) (ks : list call) (t : page) : option page :=
  match ks with [] => Some t | k :: ks => t' ← after_call cols k t; after_calls cols ks t' end.

(** What a screen shows of a text: the glyphs of its last lines. *)
Definition picture (fb : FramebufferInfo) (t : page) (x y : Z) : Z :=
  let shown := drop (length (lines t) - Z.to_nat (height fb / 16)) (lines t) in
  match shown !! Z.to_nat (y / 16) ≫= (fun l => l !! Z.to_nat (x / 8)) with
  | Some ch => if x / 8 <? Z.min 160 (width fb / 8) then shade ch (y mod 16 / 2) (x mod 8) else bg_
  | None => bg_
  end.

Lemma iter_from_foldl {S} (body : Z -> S -> S) n : forall i s,
  iter_from body i n s = foldl (fun s k => body k s) s ((fun j => i + Z.of_nat j) <$> seq 0 n).
Proof.
  induction n as [|n IH]; intros i s; [done|]. cbn [iter_from]. rewrite IH. cbn. rewrite Z.add_0_r. f_equal.
  rewrite <-fmap_S_seq, <-list_fmap_compose. apply list_fmap_ext. intros j x _. cbn. lia.
Qed.

Lemma write_hex_types value c :
  write_hex value c = foldl (fun c ch => put ch c) (c <| stats_ ::= fun s => s <| cwrite_calls ::= inc64 |> |>) (typed (WriteHex value)).
Proof.
  unfold write_hex, for_range. rewrite iter_from_foldl. cbn [typed]. rewrite foldl_app. unfold write. cbn [foldl].
  generalize (put 120 (put 48 (c <| stats_ ::= fun s => s <| cwrite_calls ::= inc64 |> |>))). intros c1.
  unfold hexadecimal. rewrite !foldl_fmap. change (Z.to_nat (16 - 0)) with 16%nat.
  assert (forall l c, Forall (fun i => (i < 16)%nat) l ->
    foldl (fun c j => put (nth (Z.to_nat (Z.land (Z.shiftr value (60 - 4 * (0 + Z.of_nat j))) 15)) hex_digits 0) c) c l =
    foldl (fun c i => put (let d := value / 16 ^ (15 - Z.of_nat i) mod 16 in if d <? 10 then 48 + d else 87 + d) c) c l) as Hl.
  { induction l as [|i l IH]; intros c2 Hf; [done|]. apply Forall_cons in Hf as [Hi Hf]. cbn [foldl]. rewrite IH by done. f_equal. f_equal.
    change 15 with (Z.ones 4) at 1. rewrite Z.land_ones, Z.shiftr_div_pow2 by lia.
    replace (2 ^ (60 - 4 * (0 + Z.of_nat i))) with (16 ^ (15 - Z.of_nat i)).
    2: { change 16 with (2 ^ 4). rewrite <-Z.pow_mul_r by lia. f_equal. lia. }
    change (2 ^ 4) with 16. set (d := _ mod 16). assert (0 <= d < 16) as Hd by (apply Z.mod_pos_bound; lia). clearbody d. cbn zeta.
    assert (Hall : forallb (fun d => nth d hex_digits 0 =? if Z.of_nat d <? 10 then 48 + Z.of_nat d else 87 + Z.of_nat d) (seq 0 16) = true)
      by reflexivity.
    rewrite forallb_forall in Hall. specialize (Hall (Z.to_nat d)). rewrite in_seq, Z2Nat.id in Hall by lia.
    apply Z.eqb_eq, Hall. lia. }
  apply Hl. apply Forall_forall. intros i Hi%elem_of_seq. lia.
Qed.

Section Calls.
Context (fb : FramebufferInfo) (Hfb : usable fb).

Lemma shows_columns t c : shows fb t c -> columns c = Z.min 160 (width fb / 8).
Proof. intros [[Hf _ _ _ _ _] _]. unfold columns, kMaxColumns. rewrite Hf. case_match; lia. Qed.

(** The characters of a call are not 0, which ends a C string. *)
Definition plain (k : call) : Prop := Forall (fun ch => ch <> 0) (typed k).

Lemma plain_hex value : plain (WriteHex value).
Proof.
  unfold plain. cbn [typed]. apply Forall_app. split; [by repeat constructor|]. unfold hexadecimal.
  apply Forall_fmap, Forall_true. intros i. cbn.
  pose proof (Z.mod_pos_bound (value / 16 ^ (15 - Z.of_nat i)) 16 eq_refl). case_match; lia.
Qed.

Lemma shows_call k t t' c : shows fb t c -> zlen t.1 + zlen (typed k) < two64 -> plain k ->
  after_call (Z.min 160 (width fb / 8)) k t = Some t' ->
  shows fb t' (perform k c) /\ zlen t'.1 <= zlen t.1 + zlen (typed k).
Proof.
  intros Hsh Hu Hp. rewrite <-(shows_columns t c Hsh). assert (0 <= zlen (typed k)) by (unfold zlen; lia).
  set (c0 := c <| stats_ ::= fun s => s <| cwrite_calls ::= inc64 |> |>).
  assert (Hsh0 : shows fb t c0) by (apply (shows_state fb _ c); [reflexivity|reflexivity|exact Hsh]).
  destruct k as [text|value|amount| |]; cbn [perform after_call].
  - intros E. by apply (shows_type fb Hfb text t t' c0).
  - intros E. rewrite write_hex_types. by apply (shows_type fb Hfb _ t t' c0).
  - intros [= <-]. split; [|lia]. apply shows_scroll_view; [done|done|lia].
  - intros [= <-]. split; [|lia]. destruct Hsh as [Hh Hlt].
    destruct (holds_scroll_to_bottom fb Hfb t c Hh ltac:(lia)) as (Hh1 & _ & _ & Ec). split; [done|by rewrite Ec].
  - intros [= <-]. split; [|cbn [fst]; lia]. destruct t as [o l]. cbn [fst] in *. by eapply shows_reset_input_line; [done..|lia].
Qed.

Lemma shows_calls ks : forall t t' c, shows fb t c -> zlen t.1 + zlen (concat (typed <$> ks)) < two64 -> Forall plain ks ->
  after_calls (Z.min 160 (width fb / 8)) ks t = Some t' -> shows fb t' (perform_all ks c).
Proof.
  induction ks as [|k ks IH]; intros t t' c Hsh Hu Hp; cbn [after_calls perform_all foldl]; [by intros [= <-]|].
  apply Forall_cons in Hp as [Hk Hp]. intros (t1 & E1 & E)%bind_Some.
  assert (zlen (concat (typed <$> k :: ks)) = zlen (typed k) + zlen (concat (typed <$> ks))) as El
    by (unfold zlen; cbn; rewrite length_app; lia). rewrite El in Hu.
  assert (0 <= zlen (concat (typed <$> ks))) by (unfold zlen; lia).
  destruct (shows_call k t t1 c Hsh ltac:(lia) Hk E1) as [Hsh1 Hl1]. eapply IH; [exact Hsh1|lia|done|done].
Qed.

Lemma view_picture t c x y : shows fb t c -> follow_tail_ c = true -> on_screen fb x y -> view c x y = picture fb t x y.
Proof.
  intros Hsh F Hxy. pose proof (shows_columns t c Hsh) as Ecols. destruct Hsh as [[Hf Hr Hx Hc Ht _] _]. specialize (Ht F).
  assert (0 <= cursor_row_ c) as H0 by (rewrite Hr; unfold zlen; lia).
  destruct (view_range fb Hfb c x y Hf Ht H0 Hxy) as (Hx0 & Hr0 & Hw & ->). rewrite Ecols in *.
  pose proof (top_row_tail fb Hfb c Hf Ht H0) as Etop. destruct (rows_bounds fb Hfb c Hf) as [Hrb _].
  assert (Erows : rows c = height fb / 16) by (unfold rows; by rewrite Hf).
  assert (0 <= y / 16) by (destruct Hxy; dlia). unfold picture. cbn zeta. rewrite lookup_drop.
  assert (Hlen : length (lines t) = S (length t.1)) by (unfold lines; rewrite length_app; cbn; lia).
  replace (length (lines t) - Z.to_nat (height fb / 16) + Z.to_nat (y / 16))%nat with (Z.to_nat (top_row c + y / 16)).
  2: { rewrite Hlen, Etop, Hr, Erows. unfold zlen. lia. }
  destruct (x / 8 <? Z.min 160 (width fb / 8)) eqn:Ex; cbn [andb]; [|by case_match].
  destruct ((y / 16 <? rows c) && (top_row c + y / 16 <=? cursor_row_ c)) eqn:E.
  - assert (0 <= x / 8 < kMaxColumns) by (unfold kMaxColumns; lia). rewrite Hc by lia. unfold char_at. by destruct (_ ≫= _).
  - rewrite lookup_ge_None_2; [done|]. rewrite Hlen. unfold zlen in *. lia.
Qed.

(** C15. The screen shows the text. After any calls of the console, as long as they type no
    backspace at the start of a later line, and while the view follows the text, each pixel
    of the screen is the one that the last lines of the text give with the font: lines end
    at a newline or at the right border, a form feed clears, a backspace erases, and the
    reset of the input line empties the last line. *)
Theorem console_shows_the_text c ks t : Forall plain ks -> zlen (concat (typed <$> ks)) < two64 ->
  after_calls (Z.min 160 (width fb / 8)) ks ([], []) = Some t ->
  let c' := perform_all ks (initialize fb c) in
  follow_tail_ c' = true ->
  forall x y, on_screen fb x y -> sa_get (pixels_ c') (y * pixels_per_scanline fb + x) = picture fb t x y.
Proof.
  intros Hp Hu E c'. assert (shows fb t c') as Hsh.
  { assert (shows fb ([], []) (initialize fb c)) as H0 by exact (shows_clear fb Hfb (c <| fb_ := fb |>) eq_refl).
    by apply (shows_calls ks ([], []) t (initialize fb c) H0). }
  clearbody c'. intros F x y Hxy. rewrite <-(view_picture t c') by done. by apply (proj1 Hsh).
Qed.

(** ** Memory safety *)

(** The frame buffer stays; only pixels of the screen and cells of the table change. *)
Record stays (c c' : Console) : Prop := {
  st_fb : fb_ c' = fb_ c;
  st_pixels : inside fb (pixels_ c) (pixels_ c');
  st_cells i : ~ 0 <= i < kScrollbackRows * kMaxColumns -> sa_get (cells_ c') i = sa_get (cells_ c) i
}.
#[local] Instance stays_refl : Reflexive stays.
Proof. by split. Qed.
#[local] Instance stays_trans : Transitive stays.
Proof. intros a b c [F P C] [F' P' C']. split; [congruence|by etrans|]. intros i Hi. by rewrite C', C. Qed.

Lemma stays_state c c' : state c' = state c -> pixels_ c' = pixels_ c -> stays c c'.
Proof. intros Es Ep. same_state Es. split; [done|by rewrite Ep|congruence]. Qed.
Lemma stays_set_cell r x v c : 0 <= x < kMaxColumns -> stays c (set_cell r x v c).
Proof.
  intros Hx. split; [done|done|]. intros i Hi. apply sa_get_set_ne. intros E. apply Hi. rewrite <-E. unfold cell_index.
  pose proof (Z.mod_pos_bound r kScrollbackRows eq_refl). unfold kScrollbackRows, kMaxColumns in *. lia.
Qed.
Lemma stays_for_range lo hi body c : (forall k c', lo <= k < hi -> fb_ c' = fb_ c -> stays c' (body k c')) -> stays c (for_range lo hi body c).
Proof.
  intros Hb. apply (for_range_inv (fun _ => stays c)); [done|]. intros k c' Hk Hc. etrans; [done|]. apply Hb; [done|apply Hc].
Qed.

Section Pixels.
Context (c : Console) (Hf : fb_ c = fb).

Lemma stays_clear_pixels : stays c (clear_pixels c).
Proof. split; [done|cbn; rewrite Hf; by apply clear_pixels_inside|done]. Qed.
Lemma stays_clear_pixel_cell x y : stays c (clear_pixel_cell x y c).
Proof. split; [done|cbn; rewrite Hf; by apply clear_cell_inside|done]. Qed.
Lemma stays_draw_char ch x y color : stays c (draw_char ch x y color c).
Proof. split; [done|cbn; rewrite Hf; by apply draw_glyph_inside|done]. Qed.
Lemma stays_clear_history_row r : stays c (clear_history_row r c).
Proof. apply stays_for_range. intros k c' Hk _. by apply stays_set_cell. Qed.
End Pixels.

Lemma stays_render c : fb_ c = fb -> stays c (render c).
Proof.
  intros Hf. unfold render. set (c0 := c <| stats_ ::= _ |>). assert (stays c c0) as Hc0 by (by apply stays_state).
  case_match; [done|]. trans c0; [done|]. trans (clear_pixels c0); [by apply stays_clear_pixels|]. apply stays_for_range.
  intros k c1 _ Hc1. cbn zeta. case_match; [done|]. apply stays_for_range. intros j c2 _ Hc2. cbn zeta.
  case_match; [|done]. apply stays_draw_char. transitivity (fb_ c1); [done|]. by transitivity (fb_ (clear_pixels c0)).
Qed.
Lemma render_column c : cursor_x_ (render c) = cursor_x_ c.
Proof. pose proof (render_state c) as Es. by same_state Es. Qed.

(** The cursor is inside the line. *)
Definition cursor_ok (c : Console) : Prop := fb_ c = fb /\ 0 <= cursor_x_ c < columns c.
Lemma stays_ok c c' : stays c c' -> cursor_ok c -> 0 <= cursor_x_ c' < columns c -> cursor_ok c'.
Proof. intros [F _ _] [Hf _] Hx. split; [congruence|]. unfold columns in *. by rewrite F. Qed.
Lemma cursor_room c : cursor_ok c -> 0 <= cursor_x_ c < kMaxColumns /\ 1 <= columns c <= kMaxColumns.
Proof. intros [Hf Hx]. destruct (columns_bounds fb Hfb c Hf). lia. Qed.

Lemma stays_newline c : fb_ c = fb -> stays c (newline c) /\ cursor_x_ (newline c) = 0.
Proof.
  intros Hf. unfold newline. set (c1 := c <| stats_ ::= _ |> <| cursor_x_ := 0 |> <| cursor_row_ ::= inc64 |>).
  pose proof (stays_clear_history_row c1 (cursor_row_ c1)) as Hs. destruct (clear_history_row_spec (cursor_row_ c1) c1) as [Hfr _].
  revert Hs Hfr. generalize (clear_history_row (cursor_row_ c1) c1). intros c2 Hs Hfr. same_state Hfr.
  assert (stays c c2) as Hc2 by (trans c1; [by split|done]).
  case_match; [|done]. set (c3 := c2 <| viewport_bottom_ := _ |>). assert (stays c c3) as Hc3 by (trans c2; [done|by split]).
  case_match; [|done]. split; [|by rewrite render_column]. trans c3; [done|]. apply stays_render. by rewrite (st_fb _ _ Hc3).
Qed.
Lemma stays_clear c : fb_ c = fb -> stays c (clear c) /\ cursor_x_ (clear c) = 0.
Proof.
  intros Hf. unfold clear. set (c0 := c <| stats_ ::= _ |>).
  assert (stays c (for_range 0 kScrollbackRows (fun row => for_range 0 kMaxColumns (fun col => set_cell row col 32)) c0)) as Hs.
  { trans c0; [by split|]. apply stays_for_range. intros k c' _ _. by apply stays_clear_history_row. }
  revert Hs. generalize (for_range 0 kScrollbackRows (fun row => for_range 0 kMaxColumns (fun col => set_cell row col 32)) c0).
  intros c1 Hs. split; [|done]. set (c2 := c1 <| cursor_x_ := 0 |> <| cursor_row_ := 0 |> <| viewport_bottom_ := 0 |> <| follow_tail_ := true |>).
  trans c2; [trans c1; [done|by split]|]. apply stays_clear_pixels. cbn. by rewrite (st_fb _ _ Hs).
Qed.
Lemma stays_clear_cell x y c : fb_ c = fb -> 0 <= x -> stays c (clear_cell x y c) /\ cursor_x_ (clear_cell x y c) = cursor_x_ c.
Proof.
  intros Hf Hx. destruct (columns_bounds fb Hfb c Hf) as [Hcb _]. unfold clear_cell. case_match; [done|]. cbn zeta. case_match eqn:E.
  - split; [|done]. trans (set_cell (w64 (top_row c + y)) x 32 c); [apply stays_set_cell; lia|by apply stays_clear_pixel_cell].
  - split; [|done]. by apply stays_clear_pixel_cell.
Qed.

Lemma stays_backspace c : cursor_ok c -> stays c (backspace c) /\ 0 <= cursor_x_ (backspace c) < columns c.
Proof.
  intros Hok. destruct (cursor_room c Hok) as [Hx Hcb]. destruct Hok as [Hf Hx']. unfold backspace. set (c0 := c <| stats_ ::= _ |>).
  change (columns c0) with (columns c). destruct (Z.eqb_spec (columns c) 0); [lia|]. case_match; [by split; [split|]|].
  set (c1 := if cursor_x_ c0 =? 0 then _ else _).
  assert (stays c c1 /\ 0 <= cursor_x_ c1 < columns c) as [Hs Hc1].
  { unfold c1. change (cursor_x_ c0) with (cursor_x_ c). destruct (Z.eqb_spec (cursor_x_ c) 0); (split; [by split|]); cbn; [|lia].
    rewrite w32_small by (unfold u32, two32, kMaxColumns in *; lia). lia. }
  clearbody c1. assert (Hf1 : fb_ c1 = fb) by (by rewrite (st_fb _ _ Hs)). case_match.
  - destruct (stays_clear_cell (cursor_x_ c1) (w32 (cursor_row_ c1 - top_row c1)) c1 Hf1 ltac:(lia)) as [Hs1 ->]. split; [by trans c1|done].
  - rewrite render_column. split; [|done]. set (c2 := set_cell _ _ _ c1). assert (stays c c2) as Hs2.
    { trans c1; [done|]. apply stays_set_cell. lia. }
    trans c2; [done|]. by apply stays_render.
Qed.

Lemma stays_put ch c : cursor_ok c -> stays c (put ch c) /\ 0 <= cursor_x_ (put ch c) < columns c.
Proof.
  intros Hok. destruct (cursor_room c Hok) as [Hx Hcb]. pose proof Hok as [Hf Hx']. unfold put. set (c0 := c <| stats_ ::= _ |>).
  assert (stays c c0) as Hc0 by (by split). assert (Hok0 : cursor_ok c0) by (by split).
  case_match. { destruct (stays_newline c0 Hf) as [Hs ->]. split; [by trans c0|lia]. }
  case_match; [done|]. case_match. { destruct (stays_clear c0 Hf) as [Hs ->]. split; [by trans c0|lia]. }
  case_match. { destruct (stays_backspace c0 Hok0) as [Hs Hb]. split; [by trans c0|done]. }
  change (columns c0) with (columns c). case_match; [done|].
  set (c1 := set_cell (cursor_row_ c0) (cursor_x_ c0) ch c0 <| stats_ ::= _ |>).
  assert (stays c c1) as Hc1. { trans (set_cell (cursor_row_ c0) (cursor_x_ c0) ch c0); [|by split]. trans c0; [done|]. by apply stays_set_cell. }
  set (c2 := if follow_tail_ c1 && _ then _ else _).
  assert (stays c c2 /\ cursor_x_ c2 = cursor_x_ c) as [Hs2 Ex2].
  { unfold c2. repeat case_match; split; try done. trans c1; [done|]. by apply stays_draw_char. }
  clearbody c2. set (c3 := c2 <| cursor_x_ ::= inc32 |>). assert (stays c c3) as Hs3 by (trans c2; [done|by split]).
  assert (Ex3 : cursor_x_ c3 = cursor_x_ c + 1).
  { cbn. rewrite Ex2. unfold inc32. apply w32_small. unfold u32, two32, kMaxColumns in *. lia. }
  rewrite Ex3. destruct (Z.leb_spec (columns c) (cursor_x_ c + 1)); [|split; [done|rewrite Ex3; lia]].
  destruct (stays_newline c3) as [Hs ->]; [by rewrite (st_fb _ _ Hs3)|]. split; [by trans c3|lia].
Qed.

Definition keeps_bounds (f : Console -> Console) : Prop := forall c, cursor_ok c -> stays c (f c) /\ cursor_ok (f c).
Lemma keeps_bounds_of f : (forall c, cursor_ok c -> stays c (f c) /\ 0 <= cursor_x_ (f c) < columns c) -> keeps_bounds f.
Proof. intros Hk c Hok. destruct (Hk c Hok) as [Hs Hx]. split; [done|by eapply stays_ok]. Qed.
Lemma keeps_bounds_then f g : keeps_bounds f -> keeps_bounds g -> keeps_bounds (fun c => g (f c)).
Proof. intros Hk Hg c Hok. destruct (Hk c Hok) as [Hs Hok1]. destruct (Hg _ Hok1) as [Hs2 Hok2]. split; [by etrans|done]. Qed.
Lemma keeps_bounds_foldl {A} (f : A -> Console -> Console) l : (forall a, keeps_bounds (f a)) -> keeps_bounds (fun c => foldl (fun c a => f a c) c l).
Proof.
  intros Hk. induction l as [|a l IH]; [by intros c|]. apply (keeps_bounds_then (f a) (fun c => foldl (fun c a => f a c) c l)); [done|exact IH].
Qed.

Lemma bounds_scroll_to_bottom : keeps_bounds scroll_to_bottom.
Proof.
  apply keeps_bounds_of. intros c [Hf Hx]. unfold scroll_to_bottom, update_view_to_tail. rewrite render_column. split; [|done].
  match goal with |- stays c (render ?c1) => trans c1; [by split|by apply stays_render] end.
Qed.
Lemma bounds_reset_input_line : keeps_bounds reset_input_line.
Proof.
  apply keeps_bounds_of. intros c Hok. unfold reset_input_line. set (c0 := c <| stats_ ::= _ |>).
  destruct (bounds_scroll_to_bottom c0) as [Hs Hok1]; [by destruct Hok|]. revert Hs Hok1. generalize (scroll_to_bottom c0). intros c1 Hs Hok1.
  assert (stays c c1) as Hs1 by (trans c0; [by split|done]). destruct (cursor_room c1 Hok1) as [_ Hcb].
  assert (Ecol : columns c1 = columns c) by (unfold columns; by rewrite (st_fb _ _ Hs1)).
  case_match; [split; [done|rewrite <-Ecol; apply Hok1]|]. set (c2 := clear_history_row (cursor_row_ c1) c1 <| cursor_x_ := 0 |>).
  assert (stays c c2 /\ cursor_x_ c2 = 0) as [Hs2 Ex2].
  { pose proof (stays_clear_history_row c1 (cursor_row_ c1)) as Hh. unfold c2. clear c2. revert Hh.
    generalize (clear_history_row (cursor_row_ c1) c1). intros c2 Hh. split; [|done]. trans c2; [by trans c1|by split]. }
  clearbody c2. case_match; [|split; [done|lia]]. assert (Hf2 : fb_ c2 = fb) by (rewrite (st_fb _ _ Hs2); apply Hok).
  split.
  - trans c2; [done|]. apply stays_for_range. intros k c' _ Hc'. apply stays_clear_pixel_cell. congruence.
  - assert (cursor_x_ (clear_pixel_row (w32 (cursor_row_ c1 - top_row c1)) c2) = cursor_x_ c2) as ->; [|lia].
    apply (for_range_inv (fun _ c' => cursor_x_ c' = cursor_x_ c2)); [done|]. intros k c' _ E. exact E.
Qed.

Lemma bounds_perform k : keeps_bounds (perform k).
Proof.
  assert (Hput : forall ch, keeps_bounds (put ch)) by (intros ch; apply keeps_bounds_of; apply stays_put).
  assert (Hwrite : forall text, keeps_bounds (fun c => foldl (fun c ch => put ch c) (c <| stats_ ::= fun s => s <| cwrite_calls ::= inc64 |> |>) text)).
  { intros text. apply (keeps_bounds_then _ (fun c => foldl (fun c ch => put ch c) c text)); [by intros c Hok; split; [split|]|].
    by apply keeps_bounds_foldl. }
  destruct k as [text|value|amount| |]; cbn [perform].
  - apply Hwrite.
  - intros c Hok. rewrite write_hex_types. by apply Hwrite.
  - apply keeps_bounds_of. intros c [Hf Hx]. unfold scroll_view. case_match; [by split; [split|]|]. cbn zeta. rewrite render_column. split; [|done].
    match goal with |- stays c (render ?c1) => trans c1; [by split|by apply stays_render] end.
  - apply bounds_scroll_to_bottom.
  - apply bounds_reset_input_line.
Qed.

(** C28. The console writes only its own memory. Whatever the calls and their texts,
    backspaces and scrolling included, they change only pixels inside the frame buffer and
    characters inside the table, and they leave the cursor left of the right border. *)
Theorem console_stays_in_bounds ks c : fb_ c = fb -> 0 <= cursor_x_ c < columns c ->
  let c' := perform_all ks c in
  0 <= cursor_x_ c' < columns c' /\
  (forall i, ~ 0 <= i < 512 * 160 -> sa_get (cells_ c') i = sa_get (cells_ c) i) /\
  (forall i, ~ 0 <= i < height fb * pixels_per_scanline fb -> sa_get (pixels_ c') i = sa_get (pixels_ c) i).
Proof.
  intros Hf Hx. cbn zeta. destruct (keeps_bounds_foldl perform ks bounds_perform c (conj Hf Hx)) as [[_ P C] [_ Hx']].
  split; [exact Hx'|]. split; [exact C|]. intros i Hi. apply P. intros x y [Hxx Hy] ->. apply Hi. destruct Hfb as [_ Hw _ _]. nia.
Qed.
End Calls.

(** Two characters in two lines: a newline, a backspace and a scroll on the way. *)
Definition demo_fb : FramebufferInfo := mkFramebufferInfo 0xe0000000 24 48 32.
Definition demo_console : Console :=
  mkConsole (mkFramebufferInfo 0 0 0 0) 0 0 0 true (mkConsoleStats 0 0 0 0 0 0 0 0 0 0 0) (sa_const 0) (sa_const 0).
Definition demo_screen : Console := demo_console <| fb_ := demo_fb |>.
Definition demo_calls : list call := [Write [72; 10; 120; 8; 105]; ToBottom].

Lemma demo_usable : usable demo_fb.
Proof. split; cbn; unfold two32; lia. Qed.

Lemma demo_follows : follow_tail_ (perform_all demo_calls (initialize demo_fb demo_console)) = true.
Proof.
  unfold demo_calls, perform_all. cbn [foldl perform]. generalize (write [72; 10; 120; 8; 105] (initialize demo_fb demo_console)). intros c.
  unfold scroll_to_bottom, update_view_to_tail. match goal with |- context [render ?c1] => set (c1' := c1); pose proof (render_state c1') as E end.
  unfold state in E. by injection E.
Qed.

(** The text is an H and, below it, an i: a pixel of each, and one beside the second. *)
Lemma console_shows_the_text_witness :
  let d := pixels_ (perform_all demo_calls (initialize demo_fb demo_console)) in
  sa_get d (0 * 32 + 1) = fg_ /\ sa_get d (16 * 32 + 3) = fg_ /\ sa_get d (18 * 32 + 9) = bg_.
Proof.
  assert (Hp : Forall plain demo_calls).
  { repeat constructor; lia. }
  assert (Hu : zlen (concat (typed <$> demo_calls)) < two64) by (vm_compute; reflexivity).
  assert (E : after_calls (Z.min 160 (width demo_fb / 8)) demo_calls ([], []) = Some ([[72]], [105])) by (vm_compute; reflexivity).
  pose proof (console_shows_the_text demo_fb demo_usable demo_console demo_calls ([[72]], [105]) Hp Hu E demo_follows) as Hs.
  split; [|split].
  - refine (eq_trans (Hs 1 0 _) _); [split; cbn; lia|vm_compute; reflexivity].
  - refine (eq_trans (Hs 3 16 _) _); [split; cbn; lia|vm_compute; reflexivity].
  - refine (eq_trans (Hs 9 18 _) _); [split; cbn; lia|vm_compute; reflexivity].
Defined.

Lemma console_stays_in_bounds_witness :
  let c' := perform_all [Write [72; 8; 8; 10]; Scroll (-1); ResetLine] demo_screen in
  0 <= cursor_x_ c' < columns c' /\ sa_get (pixels_ c') 1536 = 0.
Proof.
  cbn zeta. destruct (console_stays_in_bounds demo_fb demo_usable [Write [72; 8; 8; 10]; Scroll (-1); ResetLine]
    demo_screen eq_refl) as (Hx & _ & Hd).
  - split; vm_compute; congruence.
  - split; [exact Hx|]. refine (eq_trans (Hd 1536 _) _); [cbn; lia|reflexivity].
Defined.
