(* ===== verification/KernelLog.v ===== *)
(** * The kernel log (kernel/src/log.cpp) and the overlapping copy (kernel/src/lib/string.cpp)

    A message goes to the serial port, to a ring of the last bytes that user programs can
    read, and, while this is enabled, to the console.  The theorem follows a sequence of
    messages to all three. *)

From stdpp Require Import strings.
From Stdlib Require Import ZifyBool.
From S2P Require Import Prelude Console.
#[local] Open Scope Z_scope.

(** ** Copies that overlap *)

Fixpoint copy_up (n : nat) (d s : Z) (m : sarr) : sarr :=
  match n with O => m | S n' => copy_up n' (d + 1) (s + 1) (sa_set m d (sa_get m s)) end.
Fixpoint copy_down (n : nat) (d s : Z) (m : sarr) : sarr :=
  match n with O => m | S n' => copy_down n' (d - 1) (s - 1) (sa_set m (d - 1) (sa_get m (s - 1))) end.
Definition memmove (dst src : Z) (n : nat) (m : sarr) : sarr :=
  if dst <? src then copy_up n dst src m else copy_down n (dst + Z.of_nat n) (src + Z.of_nat n) m.

Lemma copy_up_get n : forall d s m a, d <= s ->
  sa_get (copy_up n d s m) a = if (d <=? a) && (a <? d + Z.of_nat n) then sa_get m (s + (a - d)) else sa_get m a.
Proof.
  induction n as [|n IH]; intros d s m a Hds; cbn [copy_up]; [case_match; [lia|done]|]. rewrite IH by lia.
  destruct (Z.eqb_spec a d) as [->|Hne].
  - rewrite !Z.sub_diag, Z.add_0_r, sa_get_set_eq. repeat (case_match; try lia; try done).
  - replace (s + 1 + (a - (d + 1))) with (s + (a - d)) by lia.
    destruct (Z.leb_spec (d + 1) a); [rewrite !sa_get_set_ne by lia|rewrite (sa_get_set_ne _ _ a) by lia];
      repeat (case_match; try lia; try done).
Qed.
Lemma copy_down_get n : forall d s m a, s <= d ->
  sa_get (copy_down n d s m) a = if (d - Z.of_nat n <=? a) && (a <? d) then sa_get m (s + (a - d)) else sa_get m a.
Proof.
  induction n as [|n IH]; intros d s m a Hds; cbn [copy_down]; [case_match; [lia|done]|]. rewrite IH by lia.
  destruct (Z.eqb_spec a (d - 1)) as [->|Hne].
  - rewrite sa_get_set_eq. replace (s + (d - 1 - d)) with (s - 1) by lia. repeat (case_match; try lia; try done).
  - replace (s - 1 + (a - (d - 1))) with (s + (a - d)) by lia.
    destruct (Z.leb_spec a (d - 1)); [rewrite !sa_get_set_ne by lia|rewrite (sa_get_set_ne _ _ a) by lia];
      repeat (case_match; try lia; try done).
Qed.

(** Wherever the two ranges lie, the destination gets the bytes that the source had, and
    nothing else changes. *)
Theorem memmove_moves dst src n m a :
  sa_get (memmove dst src n m) a =
    if (dst <=? a) && (a <? dst + Z.of_nat n) then sa_get m (src + (a - dst)) else sa_get m a.
Proof.
  unfold memmove. destruct (Z.ltb_spec dst src); [apply copy_up_get; lia|]. rewrite copy_down_get by lia.
  replace (dst + Z.of_nat n - Z.of_nat n) with dst by lia.
  by replace (src + Z.of_nat n + (a - (dst + Z.of_nat n))) with (src + (a - dst)) by lia.
Qed.

(** ** The log *)

Inductive LogLevel := Debug | Info | Warn | Error.

Definition kKernelLogCapacity : Z := 8192.
(** [serial] is what was sent to the port. *)
Record Logger := mkLogger {
  kernel_log : sarr; kernel_log_head : Z; kernel_log_size_bytes : Z; kernel_log_total_bytes : Z;
  console_log_output_enabled : bool; serial : list Z; log_console : Console
}.
#[export] Instance Logger_eta : Eta Logger := fun r =>
  mkLogger (kernel_log r) (kernel_log_head r) (kernel_log_size_bytes r) (kernel_log_total_bytes r)
    (console_log_output_enabled r) (serial r) (log_console r).

Definition chars (s : string) : list Z := (fun c => Z.of_nat (Ascii.nat_of_ascii c)) <$> String.list_ascii_of_string s.

Definition prefix (level : LogLevel) : list Z :=
  match level with
  | Debug => chars "[DEBUG] "
  | Info => chars "[INFO ] "
  | Warn => chars "[WARN ] "
  | Error => chars "[ERROR] "
  end.

Definition hex_digit (value : Z) : Z :=
  let value := Z.land value 0xf in if value <? 10 then 48 + value else 97 + (value - 10).

Definition append_kernel_log_char (c : Z) (k : Logger) : Logger :=
  let k := k <| kernel_log ::= fun d => sa_set d (kernel_log_head k) c |>
             <| kernel_log_head ::= fun h => (h + 1) mod kKernelLogCapacity |> in
  let k := if kernel_log_size_bytes k <? kKernelLogCapacity then k <| kernel_log_size_bytes ::= inc64 |> else k in
  k <| kernel_log_total_bytes ::= inc64 |>.
Definition append_kernel_log_text (text : list Z) (k : Logger) : Logger := foldl (fun k c => append_kernel_log_char c k) k text.
(** [for (int i = 60; i >= 0; i -= 4)] is sixteen turns. *)
Definition append_kernel_log_hex (value : Z) (k : Logger) : Logger :=
  for_range 0 16 (fun j => append_kernel_log_char (hex_digit (Z.shiftr value (60 - 4 * j)))) (append_kernel_log_text (chars "0x") k).

(** The loops that wait for the port come between the bytes. *)
Definition serial_write (text : list Z) (k : Logger) : Logger :=
  foldl (fun k c => k <| serial ::= fun out => out ++ (if c =? 10 then [13] else []) ++ [c] |>) k text.
Definition write_hex_digits (value : Z) (k : Logger) : Logger :=
  for_range 0 16 (fun j => serial_write [hex_digit (Z.shiftr value (60 - 4 * j))]) (serial_write (chars "0x") k).

Definition on_console (f : Console -> Console) (k : Logger) : Logger := k <| log_console ::= f |>.

Definition set_console_log_enabled (enabled : bool) (k : Logger) : Logger := k <| console_log_output_enabled := enabled |>.

Definition log (level : LogLevel) (text : list Z) (k : Logger) : Logger :=
  let k := serial_write [10] (serial_write text (serial_write (prefix level) k)) in
  let k := append_kernel_log_char 10 (append_kernel_log_text text (append_kernel_log_text (prefix level) k)) in
  if console_log_output_enabled k
  then on_console (write [10]) (on_console (write text) (on_console (write (prefix level)) k)) else k.

Definition log_hex (level : LogLevel) (label : list Z) (value : Z) (k : Logger) : Logger :=
  let k := serial_write (chars "=") (serial_write label (serial_write (prefix level) k)) in
  let k := serial_write [10] (write_hex_digits value k) in
  let k := append_kernel_log_char 61 (append_kernel_log_text label (append_kernel_log_text (prefix level) k)) in
  let k := append_kernel_log_char 10 (append_kernel_log_hex value k) in
  if console_log_output_enabled k
  then on_console (write [10]) (on_console (write_hex value) (on_console (write (chars "="))
         (on_console (write label) (on_console (write (prefix level)) k)))) else k.

Definition kernel_log_size (k : Logger) : Z := kernel_log_size_bytes k.

(** The bytes that end up in the buffer at [out]. *)
Definition copy_kernel_log (out capacity offset : Z) (k : Logger) : list Z :=
  if (out =? 0) || (capacity =? 0) || (kKernelLogCapacity <? capacity) then []
  else if offset <? kernel_log_size_bytes k then
    let available := kernel_log_size_bytes k - offset in
    let to_copy := if available <? capacity then available else capacity in
    let start := w64 (kernel_log_head k + kKernelLogCapacity - kernel_log_size_bytes k + offset) mod kKernelLogCapacity in
    bytes_at (fun i => sa_get (kernel_log k) (w64 (start + i) mod kKernelLogCapacity)) 0 to_copy
  else [].

(** ** The ring *)

(** The ring holds the last bytes of [h]. *)
Record ring (h : list Z) (k : Logger) : Prop := {
  rg_head : kernel_log_head k = zlen h mod kKernelLogCapacity;
  rg_size : kernel_log_size_bytes k = Z.min (zlen h) kKernelLogCapacity;
  rg_total : kernel_log_total_bytes k = w64 (zlen h);
  rg_bytes (j : nat) c : h !! j = Some c -> zlen h - kKernelLogCapacity <= Z.of_nat j ->
    sa_get (kernel_log k) (Z.of_nat j mod kKernelLogCapacity) = c
}.

Lemma ring_char c h k : ring h k -> ring (h ++ [c]) (append_kernel_log_char c k).
Proof.
  intros [Hh Hs Ht Hb]. unfold append_kernel_log_char. cbn zeta. set (k1 := k <| kernel_log ::= _ |> <| kernel_log_head ::= _ |>).
  assert (0 <= zlen h) by (unfold zlen; lia).
  assert (Es : kernel_log_size_bytes (if kernel_log_size_bytes k1 <? kKernelLogCapacity then k1 <| kernel_log_size_bytes ::= inc64 |> else k1)
    = Z.min (zlen h + 1) kKernelLogCapacity).
  { change (kernel_log_size_bytes k1) with (kernel_log_size_bytes k). rewrite Hs. destruct (Z.ltb_spec (Z.min (zlen h) kKernelLogCapacity) kKernelLogCapacity); cbn.
    - rewrite Hs. unfold inc64. rewrite w64_small by (unfold u64, two64, kKernelLogCapacity in *; lia). lia.
    - rewrite Hs. lia. }
  split; rewrite ?zlen_snoc.
  - transitivity (kernel_log_head k1); [by case_match|]. cbn. rewrite Hh. by rewrite Zplus_mod_idemp_l.
  - exact Es.
  - transitivity (inc64 (kernel_log_total_bytes k)); [by case_match|]. rewrite Ht. word_lia.
  - intros j d Hj Hw. transitivity (sa_get (kernel_log k1) (Z.of_nat j mod kKernelLogCapacity)); [by case_match|]. cbn. rewrite Hh.
    apply lookup_snoc_Some in Hj as [[Hlt Hj]|[-> <-]].
    + rewrite sa_get_set_ne; [apply Hb; [done|lia]|]. unfold zlen, kKernelLogCapacity in *. intros E. Z.to_euclidean_division_equations. lia.
    + by rewrite sa_get_set_eq.
Qed.

Lemma ring_copy h k out capacity offset : ring h k -> 0 <= capacity -> 0 <= offset ->
  copy_kernel_log out capacity offset k =
    if (out =? 0) || (8192 <? capacity) then []
    else take (Z.to_nat capacity) (drop (Z.to_nat offset) (drop (Z.to_nat (zlen h - 8192)) h)).
Proof.
  intros [Hh Hs _ Hb] Hc Ho. unfold copy_kernel_log. destruct (out =? 0); [done|]. cbn [orb]. unfold kKernelLogCapacity in *.
  destruct (Z.eqb_spec capacity 0) as [->|Hnz]; [done|]. cbn [orb]. destruct (8192 <? capacity) eqn:Ecap; [done|].
  rewrite drop_drop. rewrite Hs. destruct (Z.ltb_spec offset (Z.min (zlen h) 8192)).
  2: { rewrite drop_ge; [by rewrite take_nil|]. unfold zlen in *. lia. }
  apply list_eq. intros i. cbn zeta. set (n := if _ <? capacity then _ else _).
  assert (Hn : n = Z.min (Z.min (zlen h) 8192 - offset) capacity) by (unfold n; case_match; lia). clearbody n.
  destruct (decide (Z.of_nat i < n)) as [Hi|Hi].
  - rewrite bytes_at_lookup, decide_True by lia. rewrite lookup_take_lt, lookup_drop by lia.
    destruct (h !! (Z.to_nat (zlen h - 8192) + Z.to_nat offset + i)%nat) as [c|] eqn:E.
    2: { apply lookup_ge_None in E. unfold zlen in *. lia. }
    f_equal. rewrite Hh, Z.add_0_l. pose proof (Z.mod_pos_bound (zlen h) 8192 eq_refl) as Hm.
    rewrite (w64_small (_ + offset)) by (unfold u64, two64; lia).
    pose proof (Z.mod_pos_bound (zlen h mod 8192 + 8192 - Z.min (zlen h) 8192 + offset) 8192 eq_refl) as Hm2.
    rewrite w64_small by (clear -Hm2 Hi Hn Ecap; generalize dependent ((zlen h mod 8192 + 8192 - Z.min (zlen h) 8192 + offset) mod 8192);
      intros st Hm2; unfold u64, two64; lia).
    rewrite <-(Hb _ _ E) by (unfold zlen in *; lia). f_equal. unfold zlen in *. Z.to_euclidean_division_equations; lia.
  - rewrite lookup_ge_None_2 by (rewrite bytes_at_length; lia). symmetry. apply lookup_ge_None_2.
    rewrite length_take, length_drop. unfold zlen in *. lia.
Qed.

(** ** Messages *)

(** What the serial port gets of a text. *)
Definition crlf (text : list Z) : list Z := concat ((fun c => if c =? 10 then [13; 10] else [c]) <$> text).

(** From [k] to [k'] the text [s] went to the port, [r] to the ring and [cs] to the console. *)
Record says (s r : list Z) (cs : list call) (k k' : Logger) : Prop := {
  sy_serial : serial k' = serial k ++ crlf s;
  sy_ring h : ring h k -> ring (h ++ r) k';
  sy_console : log_console k' = perform_all cs (log_console k);
  sy_enabled : console_log_output_enabled k' = console_log_output_enabled k
}.

Lemma says_then s r cs s' r' cs' k k1 k2 : says s r cs k k1 -> says s' r' cs' k1 k2 -> says (s ++ s') (r ++ r') (cs ++ cs') k k2.
Proof.
  intros [S1 R1 C1 E1] [S2 R2 C2 E2]. split; [|intros h Hh; rewrite app_assoc; auto| |congruence].
  - rewrite S2, S1. unfold crlf. by rewrite fmap_app, concat_app, app_assoc.
  - rewrite C2, C1. unfold perform_all. by rewrite foldl_app.
Qed.
Lemma says_serial text k : says text [] [] k (serial_write text k).
Proof.
  revert k. induction text as [|c text IH]; intros k.
  - split; cbn; [by rewrite app_nil_r|intros h; by rewrite app_nil_r|done|done].
  - apply (says_then [c] [] [] text [] [] k (k <| serial ::= fun out => out ++ (if c =? 10 then [13] else []) ++ [c] |>)); [|apply IH].
    split; [unfold crlf; cbn -[Z.eqb]; by destruct (Z.eqb_spec c 10) as [->|]|intros h []; rewrite app_nil_r; by split|done|done].
Qed.
Lemma says_char c k : says [] [c] [] k (append_kernel_log_char c k).
Proof.
  split; [|intros h; apply ring_char|..]; unfold append_kernel_log_char; cbn; rewrite ?app_nil_r; by case_match.
Qed.
Lemma says_text text k : says [] text [] k (append_kernel_log_text text k).
Proof.
  revert k. induction text as [|c text IH]; intros k.
  - split; cbn; [by rewrite app_nil_r|intros h; by rewrite app_nil_r|done|done].
  - apply (says_then [] [c] [] [] text [] k (append_kernel_log_char c k)); [apply says_char|apply IH].
Qed.
Lemma says_console c k : says [] [] [c] k (on_console (perform c) k).
Proof. split; cbn; [by rewrite app_nil_r|intros h []; rewrite app_nil_r; by split|done|done]. Qed.

Lemma says_write t k : says [] [] [Write t] k (on_console (write t) k).
Proof. exact (says_console (Write t) k). Qed.
Lemma says_write_hex v k : says [] [] [WriteHex v] k (on_console (write_hex v) k).
Proof. exact (says_console (WriteHex v) k). Qed.

(** The digits of a number, on the port and in the ring. *)
Lemma hex_digit_spec value j : (j < 16)%nat ->
  hexadecimal value !! j = Some (hex_digit (Z.shiftr value (60 - 4 * Z.of_nat j))).
Proof.
  intros Hj. unfold hexadecimal. rewrite list_lookup_fmap, lookup_seq_lt by done. cbn [fmap option_fmap option_map]. f_equal.
  unfold hex_digit. change 0xf with (Z.ones 4). rewrite Z.land_ones, Z.shiftr_div_pow2 by lia.
  replace (2 ^ (60 - 4 * Z.of_nat j)) with (16 ^ (15 - Z.of_nat j)).
  - change (2 ^ 4) with 16. change (Z.ones 4) with 15. cbn zeta. cbn [Nat.add]. generalize (value / 16 ^ (15 - Z.of_nat j) mod 16). intros d. destruct (d <? 10); lia.
  - change 16 with (2 ^ 4). rewrite <-Z.pow_mul_r by lia. f_equal. lia.
Qed.
Lemma says_digits (f : Z -> Logger -> Logger) (ser rg : bool) value k :
  (forall c k, says (if ser then [c] else []) (if rg then [c] else []) [] k (f c k)) ->
  says (if ser then hexadecimal value else []) (if rg then hexadecimal value else []) [] k
    (for_range 0 16 (fun j => f (hex_digit (Z.shiftr value (60 - 4 * j)))) k).
Proof.
  intros Hf. assert (Hp : forall n, (n <= 16)%nat -> says (if ser then take n (hexadecimal value) else [])
    (if rg then take n (hexadecimal value) else []) [] k (for_range 0 (Z.of_nat n) (fun j => f (hex_digit (Z.shiftr value (60 - 4 * j)))) k)).
  { intros n Hn. pose proof (for_range_le (fun i k' => says (if ser then take (Z.to_nat i) (hexadecimal value) else [])
      (if rg then take (Z.to_nat i) (hexadecimal value) else []) [] k k') 0 (Z.of_nat n)
      (fun j => f (hex_digit (Z.shiftr value (60 - 4 * j)))) k) as Hl. cbv beta in Hl. rewrite Nat2Z.id in Hl. apply Hl; [lia| |].
    - destruct ser, rg; cbn; split; cbn; rewrite ?app_nil_r; try done; intros h; by rewrite app_nil_r.
    - intros i k' Hi Hk'. pose proof (says_then _ _ _ _ _ _ _ _ _ Hk' (Hf (hex_digit (Z.shiftr value (60 - 4 * i))) k')) as Hs.
      replace (Z.to_nat (i + 1)) with (S (Z.to_nat i)) by lia. pose proof (hex_digit_spec value (Z.to_nat i) ltac:(lia)) as Hd.
      rewrite Z2Nat.id in Hd by lia. rewrite (take_S_r _ _ _ Hd). destruct ser, rg; exact Hs. }
  specialize (Hp 16%nat ltac:(lia)). rewrite take_ge in Hp by done. exact Hp.
Qed.

Inductive message := Log (level : LogLevel) (text : list Z) | LogHex (level : LogLevel) (label : list Z) (value : Z) | Enable (on : bool).

Definition deliver (m : message) : Logger -> Logger :=
  match m with Log level text => log level text | LogHex level label value => log_hex level label value | Enable on => set_console_log_enabled on end.
Definition deliver_all (ms : list message) (k : Logger) : Logger := foldl (fun k m => deliver m k) k ms.

Definition tag (level : LogLevel) : list Z :=
  chars match level with Debug => "[DEBUG] " | Info => "[INFO ] " | Warn => "[WARN ] " | Error => "[ERROR] " end.
(** The line of a message, and what the console is asked to write of it. *)
Definition line (m : message) : list Z :=
  match m with
  | Log level text => tag level ++ text ++ [10]
  | LogHex level label value => tag level ++ label ++ chars "=0x" ++ hexadecimal value ++ [10]
  | Enable _ => []
  end.
Definition console_calls (m : message) : list call :=
  match m with
  | Log level text => [Write (tag level); Write text; Write [10]]
  | LogHex level label value => [Write (tag level); Write label; Write [61]; WriteHex value; Write [10]]
  | Enable _ => []
  end.
(** The calls of a sequence of messages that starts with the console on or off. *)
Fixpoint shown (on : bool) (ms : list message) : list call :=
  match ms with
  | [] => []
  | Enable on' :: ms => shown on' ms
  | m :: ms => (if on then console_calls m else []) ++ shown on ms
  end.

Lemma prefix_tag level : prefix level = tag level.
Proof. by destruct level. Qed.

Lemma says_nil k : says [] [] [] k k.
Proof. split; [by rewrite app_nil_r|intros h; by rewrite app_nil_r|done|done]. Qed.
Lemma says_cast s r cs s' r' cs' k k' : says s r cs k k' -> s' = s -> r' = r -> cs' = cs -> says s' r' cs' k k'.
Proof. by intros ? -> -> ->. Qed.
Lemma says_hex_serial value k : says (chars "0x" ++ hexadecimal value) [] [] k (write_hex_digits value k).
Proof.
  apply (says_then (chars "0x") [] [] (hexadecimal value) [] [] k (serial_write (chars "0x") k)); [apply says_serial|].
  apply (says_digits (fun c => serial_write [c]) true false). intros c k'. apply says_serial.
Qed.
Lemma says_hex_ring value k : says [] (chars "0x" ++ hexadecimal value) [] k (append_kernel_log_hex value k).
Proof.
  apply (says_then [] (chars "0x") [] [] (hexadecimal value) [] k (append_kernel_log_text (chars "0x") k)); [apply says_text|].
  apply (says_digits append_kernel_log_char false true). apply says_char.
Qed.

(** Follow the steps of a message from the last to the first. *)
Ltac follow :=
  lazymatch goal with
  | |- says _ _ _ _ (serial_write _ _) => eapply says_then; [|apply says_serial]; follow
  | |- says _ _ _ _ (write_hex_digits _ _) => eapply says_then; [|apply says_hex_serial]; follow
  | |- says _ _ _ _ (append_kernel_log_char _ _) => eapply says_then; [|apply says_char]; follow
  | |- says _ _ _ _ (append_kernel_log_text _ _) => eapply says_then; [|apply says_text]; follow
  | |- says _ _ _ _ (append_kernel_log_hex _ _) => eapply says_then; [|apply says_hex_ring]; follow
  | |- says _ _ _ _ (on_console (write _) _) => eapply says_then; [|apply says_write]; follow
  | |- says _ _ _ _ (on_console (write_hex _) _) => eapply says_then; [|apply says_write_hex]; follow
  | |- says _ _ _ _ _ => eassumption
  end.

Lemma deliver_log level text k :
  says (line (Log level text)) (line (Log level text))
    (if console_log_output_enabled k then console_calls (Log level text) else []) k (deliver (Log level text) k).
Proof.
  unfold deliver, log. rewrite prefix_tag. set (k1 := append_kernel_log_char 10 _). pose proof (says_nil k) as Hk.
  assert (says (line (Log level text)) (line (Log level text)) [] k k1) as H1.
  { eapply says_cast; [unfold k1; follow|..]; cbn [line app]; rewrite ?app_nil_r, <-?app_assoc; done. }
  rewrite (sy_enabled _ _ _ _ _ H1). clearbody k1. destruct (console_log_output_enabled k); [|done].
  eapply says_cast; [follow|..]; rewrite ?app_nil_r, <-?app_assoc; done.
Qed.
Lemma deliver_log_hex level label value k :
  says (line (LogHex level label value)) (line (LogHex level label value))
    (if console_log_output_enabled k then console_calls (LogHex level label value) else []) k (deliver (LogHex level label value) k).
Proof.
  unfold deliver, log_hex. rewrite prefix_tag. set (k1 := append_kernel_log_char 10 _). pose proof (says_nil k) as Hk.
  assert (says (line (LogHex level label value)) (line (LogHex level label value)) [] k k1) as H1.
  { eapply says_cast; [unfold k1; follow|..]; cbn [line app]; rewrite ?app_nil_r, <-?app_assoc; done. }
  rewrite (sy_enabled _ _ _ _ _ H1). clearbody k1. destruct (console_log_output_enabled k); [|done].
  eapply says_cast; [follow|..]; rewrite ?app_nil_r, <-?app_assoc; done.
Qed.

Lemma deliver_says ms : forall on h k, console_log_output_enabled k = on -> ring h k ->
  let k' := deliver_all ms k in
  serial k' = serial k ++ crlf (concat (line <$> ms)) /\ ring (h ++ concat (line <$> ms)) k' /\
  log_console k' = perform_all (shown on ms) (log_console k).
Proof.
  induction ms as [|m ms IH]; intros on h k Hon Hr; [cbn; rewrite !app_nil_r; by split_and!|]. cbn [deliver_all foldl].
  assert (Hstep : forall cs, says (line m) (line m) cs k (deliver m k) ->
    shown on (m :: ms) = cs ++ shown (console_log_output_enabled (deliver m k)) ms ->
    let k' := deliver_all ms (deliver m k) in
    serial k' = serial k ++ crlf (concat (line <$> m :: ms)) /\ ring (h ++ concat (line <$> m :: ms)) k' /\
    log_console k' = perform_all (shown on (m :: ms)) (log_console k)).
  { intros cs [Sm Rm Cm Em] Es. destruct (IH _ (h ++ line m) (deliver m k) eq_refl (Rm h Hr)) as (S1 & R1 & C1). cbn zeta.
    rewrite S1, C1, Sm, Cm, Es. unfold crlf, perform_all. cbn [fmap list_fmap concat]. rewrite fmap_app, concat_app, foldl_app, !app_assoc in *.
    split_and!; [done|exact R1|done]. }
  destruct m as [level text|level label value|on'].
  - apply (Hstep _ (deliver_log level text k)). rewrite (sy_enabled _ _ _ _ _ (deliver_log level text k)), Hon. by destruct on.
  - apply (Hstep _ (deliver_log_hex level label value k)).
    rewrite (sy_enabled _ _ _ _ _ (deliver_log_hex level label value k)), Hon. by destruct on.
  - assert (ring h (set_console_log_enabled on' k)) as Hr' by (destruct Hr; by split).
    exact (IH on' h (set_console_log_enabled on' k) eq_refl Hr').
Qed.

(** The log at the start, with the console [c]. *)
Definition boot_logger (c : Console) : Logger := mkLogger (sa_const 0) 0 0 0 true [] c.

Lemma boot_ring c : ring [] (boot_logger c).
Proof. by split. Qed.

(** C22. Each message is one line of text, with the tag of its level and, for a number, its
    sixteen digits. All the lines go to the serial port in order, and to the console those
    that are sent while it is enabled. A reader of the log gets, from any offset on and up
    to any capacity, the last 8192 bytes of the lines, however often the ring has wrapped. *)
Theorem log_lines_reach_every_reader c ms :
  let k := deliver_all ms (boot_logger c) in
  let h := concat (line <$> ms) in
  serial k = crlf h /\ log_console k = perform_all (shown true ms) c /\ kernel_log_size k = Z.min (zlen h) 8192 /\
  forall out capacity offset, 0 <= capacity -> 0 <= offset ->
    copy_kernel_log out capacity offset k =
      if (out =? 0) || (8192 <? capacity) then []
      else take (Z.to_nat capacity) (drop (Z.to_nat offset) (drop (Z.to_nat (zlen h - 8192)) h)).
Proof.
  intros k h. destruct (deliver_says ms true [] (boot_logger c) eq_refl (boot_ring c)) as (S & R & C).
  split_and!; [exact S|exact C|exact (rg_size _ _ R)|]. intros out capacity offset. by apply ring_copy.
Qed.

Lemma log_lines_reach_every_reader_witness :
  let k := deliver_all [Enable false; Log Info (chars "up"); LogHex Warn (chars "x") 0x2f] (boot_logger demo_console) in
  copy_kernel_log 0x5000 8 20 k = chars "=0x00000" /\ log_console k = demo_console.
Proof.
  cbn zeta. destruct (log_lines_reach_every_reader demo_console [Enable false; Log Info (chars "up"); LogHex Warn (chars "x") 0x2f])
    as (_ & Hc & _ & Hcopy). split; [|exact Hc].
  refine (eq_trans (Hcopy 0x5000 8 20 _ _) _); [lia|lia|vm_compute; reflexivity].
Defined.
